(* ===== verification/_CoqProject ===== *)
-Q . S2P
Prelude.v
CString.v
CTokens.v
Bits.v
Hash.v
Zip.v
ZipExtract.v
Edify.v
Bspatch.v
ImgPatch.v
Retouch.v
Sys.v
FreeCache.v
DirUtil.v
ApplyPatch.v
Mtd.v
PartitionIO.v
MtdScan.v
MtdRoundtrip.v
PatchSafety.v
Fdevent.v
Asn1.v
Verifier.v
Keys.v
Mounts.v
Roots.v
Updater.v
Boot.v
Install.v
Recovery.v
UpdaterProps.v
UpdateScript.v
Input.v
Screen.v
MenuProps.v
ImgDiff.v
ImgDiffProps.v
ImgDiffZip.v
