(* ===== verification/Prelude.v ===== *)
(** * Verification of the Android recovery: overview and prelude

    The recovery program is started by the bootloader; it takes its arguments from the
    bootloader control block or a command file, keeps them in the control block until it
    is done, wipes volumes or installs an update package.  A package is verified against
    the keys of the device, opened (minzip), and its update binary runs a script (edify)
    whose functions extract files and patch files and partitions in place (applypatch, on
    top of bsdiff, image patches, retouch masking and mtdutils).  This library models that
    C and C++ code function by function and proves what makes it correct.

    ** Conventions

    A C function is a Rocq function with the same name; a loop that needs its own
    induction is a definition of its own, named after what it does.  A computation that
    can go wrong returns an [outcome]: [Val] of its result, or a [Trap] (an access
    outside a block, a null pointer, a failed assertion, undefined arithmetic, a wild
    pointer, or [NoFuel]).  A theorem that concludes [= Val ...] or [wp ...] therefore
    states memory safety and termination as well.  Memory is a block of bytes, an offset
    outside of which traps; machine integers are [Z] with their conversions ([wrapu],
    [wraps]) and undefined overflow ([c_int]) written out; the widths of [long],
    [size_t] and pointers are the class [Arch], with ILP32 and LP64 as instances.
    Freeing memory and printing messages are not modelled, except where Zip.v counts
    allocations to show that nothing leaks.  Code outside the repository is a parameter:
    libbz2 ([bzlib]), zlib (records in ImgPatch.v and ImgDiff.v, an oracle in ZipExtract.v),
    SHA-1, safe_iop, malloc; the operating system is the state and the environment of
    Sys.v, with an answer for every call on which nothing is assumed.

    ** Files and what they model

    - Prelude.v: outcomes, machine integers, blocks, tactics; no program code.
    - CString.v: string literals, memcmp, strcmp order.
    - CTokens.v: strlcpy, strlcat, strtok and fgets on buffers; no program code.
    - Bits.v: minzip/Bits.h (readers and writers of integers and strings in a buffer)
      and applypatch/utils.c (integers in patch files).
    - Hash.v: minzip/Hash.c, Hash.h: the open-addressing table with tombstones, its
      resizing, removal, iteration and probe statistics.
    - Zip.v: minzip/SysUtil.c and the first half of Zip.c, Zip.h: mapping a file, parsing
      the central directory into a sorted array and a hash table, opening, closing and
      finding.
    - ZipExtract.v: the second half of Zip.c: streaming of stored and deflated entries,
      CRC check, reading to memory, writing to files, recursive extraction.
    - Edify.v: edify/expr.c, expr.h: evaluation of scripts, all built-in functions, the
      sorted function table.
    - Bspatch.v: applypatch/bspatch.c and bsdiff.c: application and generation of binary
      patches; bsdiff is given the suffix array that qsufsort computes.
    - ImgPatch.v: applypatch/imgpatch.c: image patches of normal, raw and deflate chunks.
    - Retouch.v: minelf/Retouch.c: the masking of retouched libraries.
    - Sys.v: files, block devices and the answers of the operating system, the history of
      the disks (what a power failure can leave), and the interface [mtd_api] through
      which flash partitions are used.
    - FreeCache.v: applypatch/freecache.c: making room in /cache.
    - DirUtil.v: minzip/DirUtil.c: making and removing directory hierarchies, over an
      interface [dir_api] of system calls that a file system implements.
    - ApplyPatch.v: applypatch/applypatch.c: digests, loading and saving of files and
      partitions, the check, and the generation and installation of the target.
    - Mtd.v: mtdutils/mtdutils.c: the partition table, reading and writing around bad
      blocks; [mtdutils] is its instance of [mtd_api].
    - PartitionIO.v, MtdScan.v, MtdRoundtrip.v, PatchSafety.v: theorems about the above.
    - Fdevent.v: minadbd/fdevent.c: the event loop over select().
    - Asn1.v, Verifier.v, Keys.v: asn1_decoder.cpp and verifier.cpp: the DER decoder, the
      check of a package's signature and the file of public keys; mincrypt is a class.
    - Mounts.v, Roots.v: mtdutils/mounts.c and roots.cpp: the table of mounted volumes,
      mounting, unmounting and formatting.
    - Boot.v: bootloader.cpp and get_args of recovery.cpp; its state [rec] (volumes,
      files, devices, and a log of the effects seen from outside) is that of the program.
    - Install.v: install.cpp: verification, extraction and run of the update binary.
    - Recovery.v: recovery.cpp, adb_install.cpp and default_device.cpp: logs, formatting,
      menus, options, main.
    - Updater.v: updater/install.c and updater.c: the functions of an update script (its
      [updater] is the state behind the script's cookie), their registration, and main;
      UpdaterProps.v, UpdateScript.v: what they guarantee.
    - ImgDiff.v: applypatch/imgdiff.c: splitting images and archives, the patches of their
      chunks and the file; ImgDiffProps.v and ImgDiffZip.v: the patches are right.
    - Input.v: ui.cpp: events, keys, timers and the key queue, shared by threads.
    - Screen.v: screen_ui.cpp: the log, the menu, the progress bar and what is drawn;
      MenuProps.v relates its menu to that of Recovery.v.

    ** What is proved

    - Bits.v, Bspatch.v, MtdScan.v: round trips of what is encoded and decoded.
    - Hash.v: the table refines a multiset of pairs: lookup, insertion with doubling,
      removal and traversal, with the probe loops' termination from the load invariant.
    - Zip.v: parsing any file is memory safe and terminates, succeeds exactly on the
      well-formed archives and then yields a sorted permutation of the directory that
      lookup by name agrees with; opening leaks nothing.
    - ZipExtract.v: extraction delivers exactly the entry's contents or reports failure,
      within bounds; the early end of the walk over the sorted entries loses nothing.
    - Edify.v: the evaluator refines a denotational semantics of scripts; number
      comparison; the binary search finds exactly what was registered.
    - Bspatch.v: bspatch undoes bsdiff for every input and every suffix array of the
      right size; ImgPatch.v: image patches chunk by chunk.
    - Retouch.v: masking never leaves the file, and sets exactly the listed words.
    - FreeCache.v, PatchSafety.v: whatever fails, patching a file passes only through
      states from which it can be resumed, success means the target is there, and a run
      without failures from any such state succeeds.
    - PartitionIO.v, MtdRoundtrip.v: writing a block device is verified despite lost
      writes; a partition is loaded by the smallest matching size; data written to flash
      around bad blocks are read back.

    - Fdevent.v: the pending list, the table and the sets stay consistent under any legal
      sequence of calls.
    - Asn1.v, Verifier.v, Keys.v: the decoder accepts exactly the PKCS#7 structures;
      verification answers success only for bytes that a key has signed, and the archive
      parser reads exactly these; printed keys are read back.
    - Roots.v: what is mounted during an installation.
    - Install.v: only the update binary of a package signed by one of the keys is run.
    - Boot.v, Recovery.v: arguments written to the control block are found again by every
      later start; main writes them before the work they ask for and clears them after it.
    - DirUtil.v: removal touches nothing outside the hierarchy and ends; creation adds only
      what is missing.
    - UpdateScript.v: scripts are type sound; patching a file from a script keeps the disks
      recoverable; what a script prints is what the recovery program shows; metadata,
      property files and the table of functions.
    - ImgDiffProps.v, ImgDiffZip.v: applying the patch that imgdiff makes of two images, or
      of two archives, gives the target.
    - Input.v: every interleaving of the threads behaves as a queue of registered keys.
    - Screen.v, MenuProps.v: the screen shows the end of the log, wrapped, and the menu with
      the item highlighted that the program has selected.

    ** Fuel

    Loops that are not structural take a number of rounds.  Where the program bounds
    them, the definition computes enough (the length of the data, the number of blocks,
    two rounds of the patch loop); where only a library bounds them (decompression, the
    triples of a patch) the number is a parameter and the theorems say how large it must
    be.  [NoFuel] is also what an endless loop of the program shows: it is proved for
    every amount of fuel in [FillBuffer_truncated_diverges].  In Recovery.v running out of
    fuel means that the program is still waiting for the user.

    ** Not modelled

    qsufsort (bsdiff takes its result, and the theorems hold for any), flash_image.c (a
    command line tool over the modelled mtdutils), and the sockets and transports of
    minadbd, whose logic is threads and file descriptors.  The edify grammar is input of flex and bison:
    the parser is a parameter of the updater's main.  minui and the USB transport are
    device I/O: Screen.v records the calls that draw, and takes the floating point numbers
    of the progress bar as a parameter; command line programs only pass arguments on. *)

From stdpp Require Import base numbers list.
From Stdlib Require Import ZArith Lia.
#[global] Open Scope Z_scope.

(** ** Outcomes of C code *)

(** The ways in which a modelled C function can fail to return. *)
Inductive trap :=
| OutOfBounds
| NullDeref
| AssertFailed
| Aborted
| WildPointer
| IntOverflow
| NoFuel.

#[global] Instance trap_eq_dec : EqDecision trap.
Proof. solve_decision. Defined.

Inductive outcome (A : Type) :=
| Val (a : A)
| Trap (t : trap).
Arguments Val {A} a.
Arguments Trap {A} t.

#[global] Instance outcome_ret : MRet outcome := fun A a => Val a.
#[global] Instance outcome_bind : MBind outcome :=
  fun A B f m => match m with Val a => f a | Trap t => Trap t end.
#[global] Instance outcome_fmap : FMap outcome :=
  fun A B f m => match m with Val a => Val (f a) | Trap t => Trap t end.

Declare Scope c_scope.
Delimit Scope c_scope with C.
Notation "'let*' x ':=' m 'in' k" := (mbind (M := outcome) (fun x => k) m)
  (at level 10, x pattern, m at level 100, k at level 200) : c_scope.
Notation "'assert*' b 'in' k" := (if b then k else Trap AssertFailed)
  (at level 10, b at level 100, k at level 200) : c_scope.
#[global] Open Scope c_scope.

(** [wp m Q]: the computation [m] returns, and its result satisfies [Q]. *)
Definition wp {A} (m : outcome A) (Q : A -> Prop) : Prop :=
  match m with Val a => Q a | Trap _ => False end.

Lemma wp_val {A} (a : A) (Q : A -> Prop) : Q a -> wp (Val a) Q.
Proof. done. Qed.

Lemma wp_bind {A B} (m : outcome A) (f : A -> outcome B) Q :
  wp m (fun a => wp (f a) Q) -> wp (m ≫= f) Q.
Proof. by destruct m. Qed.

Lemma wp_mono {A} (m : outcome A) (P Q : A -> Prop) :
  wp m P -> (forall a, P a -> Q a) -> wp m Q.
Proof. destruct m; simpl; eauto. Qed.

Lemma wp_elim {A} (m : outcome A) Q : wp m Q -> exists a, m = Val a /\ Q a.
Proof. destruct m; [eauto | done]. Qed.

Lemma wp_intro {A} (m : outcome A) a (Q : A -> Prop) : m = Val a -> Q a -> wp m Q.
Proof. by intros ->. Qed.

Lemma bind_Val_inv {A B} (m : outcome A) (f : A -> outcome B) b :
  m ≫= f = Val b -> exists a, m = Val a /\ f a = Val b.
Proof. destruct m; [eauto | done]. Qed.

(** Peel the binds of a hypothesis that says a computation returned. *)
Ltac outcome_inv :=
  repeat match goal with
  | H : mbind _ _ = Val _ |- _ =>
      let a := fresh "r" in let E := fresh "E" in
      apply bind_Val_inv in H as (a & E & H)
  | H : Val _ = Val _ |- _ => injection H as H; subst
  | H : Trap _ = Val _ |- _ => discriminate H
  end.

(** ** Machine integers *)

(** Conversion to an unsigned or a signed integer of [w] bits. *)
Definition wrapu (w z : Z) : Z := z mod 2 ^ w.
Definition wraps (w z : Z) : Z :=
  let u := z mod 2 ^ w in if u <? 2 ^ (w - 1) then u else u - 2 ^ w.
Abbreviation u8 := (wrapu 8).
Abbreviation u16 := (wrapu 16).
Abbreviation u32 := (wrapu 32).
Abbreviation u64 := (wrapu 64).
Abbreviation i32 := (wraps 32).
Abbreviation i64 := (wraps 64).

(** Signed arithmetic at [w] bits: overflow is undefined behaviour in C. *)
Definition in_int (w z : Z) : bool := (- 2 ^ (w - 1) <=? z) && (z <? 2 ^ (w - 1)).
Definition c_int (w z : Z) : outcome Z := if in_int w z then Val z else Trap IntOverflow.

Lemma wrapu_range w z : 0 <= w -> 0 <= wrapu w z < 2 ^ w.
Proof. intros. apply Z.mod_pos_bound, Z.pow_pos_nonneg; lia. Qed.

Lemma wrapu_id w z : 0 <= z < 2 ^ w -> wrapu w z = z.
Proof. apply Z.mod_small. Qed.

Lemma wraps_id w z : 0 < w -> - 2 ^ (w - 1) <= z < 2 ^ (w - 1) -> wraps w z = z.
Proof.
  intros Hw Hz. unfold wraps.
  assert (2 ^ w = 2 * 2 ^ (w - 1)) as E by (rewrite <- Z.pow_succ_r; [f_equal; lia | lia]).
  assert (0 < 2 ^ (w - 1)) by (apply Z.pow_pos_nonneg; lia).
  destruct (decide (0 <= z)).
  - rewrite Z.mod_small by lia. destruct (Z.ltb_spec z (2 ^ (w - 1))); lia.
  - replace (z mod 2 ^ w) with (z + 2 ^ w).
    2: { apply (Z.mod_unique_pos _ _ (-1)); lia. }
    destruct (Z.ltb_spec (z + 2 ^ w) (2 ^ (w - 1))); lia.
Qed.

Lemma wraps_range w z : 0 < w -> - 2 ^ (w - 1) <= wraps w z < 2 ^ (w - 1).
Proof.
  intros Hw. unfold wraps.
  assert (2 ^ w = 2 * 2 ^ (w - 1)) as E by (rewrite <- Z.pow_succ_r; [f_equal; lia | lia]).
  assert (0 < 2 ^ (w - 1)) by (apply Z.pow_pos_nonneg; lia).
  pose proof (Z.mod_pos_bound z (2 ^ w)).
  destruct (Z.ltb_spec (z mod 2 ^ w) (2 ^ (w - 1))); lia.
Qed.

Lemma wraps_wrapu w z : wraps w (wrapu w z) = wraps w z.
Proof. unfold wraps, wrapu. by rewrite Zmod_mod. Qed.

Lemma c_int_val w z : - 2 ^ (w - 1) <= z < 2 ^ (w - 1) -> c_int w z = Val z.
Proof. intros Hz. unfold c_int, in_int. by rewrite (proj2 (Z.leb_le _ _)), (proj2 (Z.ltb_lt _ _)) by lia. Qed.

Lemma wp_c_int w z (Q : Z -> Prop) :
  - 2 ^ (w - 1) <= z < 2 ^ (w - 1) -> Q z -> wp (c_int w z) Q.
Proof.
  intros Hz HQ. unfold c_int, in_int.
  destruct (Z.leb_spec (- 2 ^ (w - 1)) z), (Z.ltb_spec z (2 ^ (w - 1))); simpl; try lia; done.
Qed.

(** The data model of the target: on ILP32 and LP64 the types [long], [size_t],
    [ssize_t], [off_t] and [uintptr_t] all have the width of a pointer; plain [char]
    is signed or not. *)
Class Arch := {
  word_bits : Z;
  word_bits_ok : word_bits = 32 \/ word_bits = 64;
  char_signed : bool
}.
Definition ILP32 : Arch :=
  {| word_bits := 32; word_bits_ok := or_introl eq_refl; char_signed := false |}.
Definition LP64 : Arch :=
  {| word_bits := 64; word_bits_ok := or_intror eq_refl; char_signed := true |}.

(** The value of a byte read as a plain [char]. *)
Definition char_val `{Arch} (c : Z) : Z := if char_signed && (128 <=? c) then c - 256 else c.

(** ** Memory blocks *)

(** A block is the list of its bytes; an offset outside it traps. *)
Abbreviation block := (list Z).

Definition is_byte (b : Z) : Prop := 0 <= b < 256.
#[global] Instance is_byte_dec b : Decision (is_byte b).
Proof. unfold is_byte. apply _. Defined.
Abbreviation bytes_ok := (Forall is_byte).
Definition zlen {A} (l : list A) : Z := Z.of_nat (length l).

(** [arr !!! p] for an array of any element type. *)
Definition load {A} (m : list A) (p : Z) : outcome A :=
  if (0 <=? p) && (p <? zlen m) then
    match m !! Z.to_nat p with Some b => Val b | None => Trap OutOfBounds end
  else Trap OutOfBounds.

Definition store {A} (m : list A) (p : Z) (v : A) : outcome (list A) :=
  if (0 <=? p) && (p <? zlen m) then Val (<[Z.to_nat p := v]> m) else Trap OutOfBounds.

(** The [n] elements at offset [p]. *)
Definition slice {A} (m : list A) (p n : Z) : list A :=
  take (Z.to_nat n) (drop (Z.to_nat p) m).

(** Copying [n] elements at [p], and writing a run of elements at [p] (memcpy). *)
Definition load_bytes {A} (m : list A) (p n : Z) : outcome (list A) :=
  if (0 <=? p) && (0 <=? n) && (p + n <=? zlen m) then Val (slice m p n)
  else Trap OutOfBounds.

Definition store_bytes {A} (m : list A) (p : Z) (v : list A) : outcome (list A) :=
  if (0 <=? p) && (p + zlen v <=? zlen m) then
    Val (take (Z.to_nat p) m ++ v ++ drop (Z.to_nat p + length v) m)
  else Trap OutOfBounds.

Lemma zlen_nonneg {A} (l : list A) : 0 <= zlen l.
Proof. unfold zlen. lia. Qed.
Lemma zlen_app {A} (l k : list A) : zlen (l ++ k) = zlen l + zlen k.
Proof. unfold zlen. rewrite length_app. lia. Qed.
Lemma zlen_cons {A} (x : A) l : zlen (x :: l) = 1 + zlen l.
Proof. unfold zlen. simpl. lia. Qed.
Lemma zlen_nil {A} : zlen (@nil A) = 0.
Proof. done. Qed.

Lemma wp_load {A} (m : list A) p (Q : A -> Prop) :
  0 <= p < zlen m -> (forall b, m !! Z.to_nat p = Some b -> Q b) -> wp (load m p) Q.
Proof.
  unfold load. intros Hp HQ. rewrite (proj2 (Z.leb_le 0 p)), (proj2 (Z.ltb_lt p _)) by lia.
  unfold zlen in *. simpl. destruct (lookup_lt_is_Some_2 m (Z.to_nat p)) as [b E]; [lia |].
  rewrite E. simpl. eauto.
Qed.

Lemma load_Val {A} (m : list A) p b :
  load m p = Val b <-> 0 <= p /\ m !! Z.to_nat p = Some b.
Proof.
  unfold load. destruct (Z.leb_spec 0 p); [| split; [done | lia]].
  destruct (Z.ltb_spec p (zlen m)) as [| Hge]; simpl; [destruct (m !! Z.to_nat p); naive_solver |].
  split; [done |]. intros [_ Hb]. apply lookup_lt_Some in Hb. unfold zlen in Hge. lia.
Qed.

Lemma store_Val {A} (m m' : list A) p v :
  store m p v = Val m' <-> 0 <= p < zlen m /\ m' = <[Z.to_nat p := v]> m.
Proof.
  unfold store. destruct (Z.leb_spec 0 p), (Z.ltb_spec p (zlen m)); simpl; naive_solver lia.
Qed.

Lemma wp_store {A} (m : list A) p v (Q : list A -> Prop) :
  0 <= p < zlen m -> Q (<[Z.to_nat p := v]> m) -> wp (store m p v) Q.
Proof. intros Hp HQ. by rewrite (proj2 (store_Val m (<[Z.to_nat p := v]> m) p v)). Qed.

Lemma zlen_insert {A} (m : list A) i v : zlen (<[i := v]> m) = zlen m.
Proof. unfold zlen. by rewrite length_insert. Qed.

Lemma load_insert {A} (m : list A) i v j :
  0 <= i < zlen m -> load (<[Z.to_nat i := v]> m) j = if decide (j = i) then Val v else load m j.
Proof.
  intros Hi. unfold load. rewrite zlen_insert. case_decide as E.
  - subst j. rewrite (proj2 (Z.leb_le 0 i)), (proj2 (Z.ltb_lt i _)) by lia. unfold zlen in *. simpl.
    by rewrite list_lookup_insert_eq by lia.
  - destruct (Z.leb_spec 0 j); [| done]. by rewrite list_lookup_insert_ne by lia.
Qed.

Lemma load_range {A} (m : list A) p b : load m p = Val b -> 0 <= p < zlen m.
Proof.
  intros [Hp Hb]%load_Val. apply lookup_lt_Some in Hb. unfold zlen. lia.
Qed.

Lemma load_byte m p b : bytes_ok m -> m !! p = Some b -> is_byte b.
Proof. intros H E. by eapply Forall_lookup_1. Qed.

Lemma zlen_slice {A} (m : list A) p n :
  0 <= p -> 0 <= n -> p + n <= zlen m -> zlen (slice m p n) = n.
Proof. unfold zlen, slice. intros. rewrite length_take, length_drop. lia. Qed.

Lemma slice_cons {A} (m : list A) p n b :
  load m p = Val b -> 0 < n -> slice m p n = b :: slice m (p + 1) (n - 1).
Proof.
  rewrite load_Val. intros [Hp E] Hn. unfold slice.
  replace (Z.to_nat n) with (S (Z.to_nat (n - 1))) by lia.
  rewrite (drop_S _ _ _ E). replace (Z.to_nat (p + 1)) with (S (Z.to_nat p)) by lia. done.
Qed.

Lemma slice_0 {A} (m : list A) p : slice m p 0 = [].
Proof. done. Qed.

Lemma load_ex (m : block) p :
  bytes_ok m -> 0 <= p < zlen m -> exists b, load m p = Val b /\ is_byte b.
Proof.
  intros Hm Hp. destruct (wp_elim (load m p) is_byte) as (b & ? & ?); [| by exists b].
  apply wp_load; [done |]. intros b Hb. by eapply Forall_lookup_1.
Qed.

Lemma load_some {A} (m : list A) p : 0 <= p < zlen m -> exists b, load m p = Val b.
Proof.
  intros Hp. destruct (wp_elim (load m p) (fun _ => True)) as (b & ? & _); [| by exists b].
  by apply wp_load.
Qed.

Lemma load_app_l {A} (l k : list A) i : i < zlen l -> load (l ++ k) i = load l i.
Proof.
  intros Hi. unfold load. destruct (Z.leb_spec 0 i); [| done].
  rewrite zlen_app. pose proof (zlen_nonneg k). rewrite !(proj2 (Z.ltb_lt i _)) by lia. simpl.
  unfold zlen in *. by rewrite lookup_app_l by lia.
Qed.

Lemma bytes_ok_slice m p n : bytes_ok m -> bytes_ok (slice m p n).
Proof. intros. by apply Forall_take, Forall_drop. Qed.

Lemma slice_app {A} (m : list A) p n k :
  0 <= p -> 0 <= n -> 0 <= k -> slice m p (n + k) = slice m p n ++ slice m (p + n) k.
Proof.
  intros. unfold slice. rewrite !Z2Nat.inj_add by lia.
  by rewrite <- drop_drop, take_take_drop.
Qed.

Lemma slice_length_app {A} (a b c : list A) n :
  n = zlen b -> slice (a ++ b ++ c) (zlen a) n = b.
Proof.
  intros ->. unfold slice, zlen. rewrite !Nat2Z.id, drop_app_length. by rewrite take_app_length.
Qed.

Lemma wp_load_bytes {A} (m : list A) p n (Q : list A -> Prop) :
  0 <= p -> 0 <= n -> p + n <= zlen m -> Q (slice m p n) -> wp (load_bytes m p n) Q.
Proof.
  intros ? ? ? HQ. unfold load_bytes.
  rewrite !(proj2 (Z.leb_le _ _)) by lia. done.
Qed.

Lemma zlen_store_bytes {A} (m v : list A) p :
  0 <= p -> p + zlen v <= zlen m ->
  zlen (take (Z.to_nat p) m ++ v ++ drop (Z.to_nat p + length v) m) = zlen m.
Proof.
  unfold zlen. intros. rewrite !length_app, length_take, length_drop. lia.
Qed.

Lemma wp_store_bytes {A} (m v : list A) p (Q : list A -> Prop) :
  0 <= p -> p + zlen v <= zlen m ->
  Q (take (Z.to_nat p) m ++ v ++ drop (Z.to_nat p + length v) m) ->
  wp (store_bytes m p v) Q.
Proof. intros ? ? HQ. unfold store_bytes. by rewrite !(proj2 (Z.leb_le _ _)) by lia. Qed.

(** Stores at consecutive offsets are one [store_bytes]. *)
Lemma store_bytes_cons (m l : block) p b :
  0 <= p -> p + 1 + zlen l <= zlen m ->
  store_bytes m p (b :: l) = (let* m' := store m p b in store_bytes m' (p + 1) l).
Proof.
  intros Hp Hl. pose proof (zlen_nonneg l).
  rewrite (proj2 (store_Val m (<[Z.to_nat p := b]> m) p b)) by (split; [lia | done]).
  cbn [mbind outcome_bind]. unfold store_bytes. rewrite zlen_insert, zlen_cons.
  rewrite !(proj2 (Z.leb_le _ _)) by lia. cbn [andb]. f_equal.
  unfold zlen in *. replace (Z.to_nat (p + 1)) with (S (Z.to_nat p)) by lia.
  rewrite (take_S_r _ _ b) by (apply list_lookup_insert_eq; lia).
  rewrite take_insert_ge, drop_insert_lt by lia.
  rewrite <- app_assoc. cbn [length app].
  by replace (S (Z.to_nat p) + length l)%nat with (Z.to_nat p + S (length l))%nat by lia.
Qed.

Lemma store_bytes_nil (m : block) p : 0 <= p <= zlen m -> store_bytes m p [] = Val m.
Proof.
  intros Hp. unfold store_bytes. change (zlen (@nil Z)) with 0.
  rewrite !(proj2 (Z.leb_le _ _)) by lia. simpl. by rewrite Nat.add_0_r, take_drop.
Qed.

Lemma bind_ext {A B} (m : outcome A) (f g : A -> outcome B) :
  (forall a, m = Val a -> f a = g a) -> m ≫= f = m ≫= g.
Proof. destruct m; simpl; eauto. Qed.

Lemma store_zlen {A} (m m' : list A) p v : store m p v = Val m' -> zlen m' = zlen m.
Proof. rewrite store_Val. intros [_ ->]. apply zlen_insert. Qed.

Lemma bind_ret {A} (m : outcome A) : (let* x := m in Val x) = m.
Proof. by destruct m. Qed.

Lemma slice_store_bytes {A} (m v : list A) p :
  0 <= p -> p + zlen v <= zlen m ->
  slice (take (Z.to_nat p) m ++ v ++ drop (Z.to_nat p + length v) m) p (zlen v) = v.
Proof.
  unfold zlen. intros. assert (length (take (Z.to_nat p) m) = Z.to_nat p) as E.
  { rewrite length_take. lia. }
  unfold slice. rewrite Nat2Z.id. rewrite <- E at 1. rewrite drop_app_length.
  apply take_app_length.
Qed.

(** Accesses at a boundary of a concatenation. *)
Lemma load_bytes_app {A} (a b c : list A) p n :
  p = zlen a -> n = zlen b -> load_bytes (a ++ b ++ c) p n = Val b.
Proof.
  intros -> ->. unfold load_bytes. rewrite !zlen_app.
  pose proof (zlen_nonneg a). pose proof (zlen_nonneg b). pose proof (zlen_nonneg c).
  rewrite !(proj2 (Z.leb_le _ _)) by lia. simpl. f_equal. by apply slice_length_app.
Qed.

Lemma store_bytes_app {A} (a b c v : list A) p :
  p = zlen a -> zlen v = zlen b -> store_bytes (a ++ b ++ c) p v = Val (a ++ v ++ c).
Proof.
  intros -> E. unfold store_bytes. rewrite !zlen_app, E.
  pose proof (zlen_nonneg a). pose proof (zlen_nonneg b). pose proof (zlen_nonneg c).
  rewrite !(proj2 (Z.leb_le _ _)) by lia. simpl. f_equal. unfold zlen in *.
  rewrite Nat2Z.id. replace (length v) with (length b) by lia.
  rewrite take_app_length. do 2 f_equal. by rewrite app_assoc, <- length_app, drop_app_length.
Qed.

Lemma store_app {A} (a c : list A) x y p :
  p = zlen a -> store (a ++ x :: c) p y = Val (a ++ y :: c).
Proof.
  intros ->. apply store_Val. rewrite zlen_app, zlen_cons.
  pose proof (zlen_nonneg a). pose proof (zlen_nonneg c). split; [lia |].
  unfold zlen. rewrite Nat2Z.id. rewrite insert_app_r_alt, Nat.sub_diag by lia. done.
Qed.

Lemma load_middle {A} (pre : list A) a rest i : i = zlen pre -> load (pre ++ a :: rest) i = Val a.
Proof.
  intros ->. apply load_Val. unfold zlen. split; [lia |]. rewrite Nat2Z.id. by apply list_lookup_middle.
Qed.

Lemma split_at {A} (b : list A) n : 0 <= n <= zlen b -> exists h t, b = h ++ t /\ zlen h = n.
Proof.
  intros Hn. exists (take (Z.to_nat n) b), (drop (Z.to_nat n) b). split; [by rewrite take_drop |].
  unfold zlen in *. rewrite length_take. lia.
Qed.

(** The least natural number at which a boolean function is true. *)
Lemma least_true (f : Z -> bool) m :
  0 <= m -> f m = true -> exists d, 0 <= d <= m /\ f d = true /\ forall x, 0 <= x < d -> f x = false.
Proof.
  intros Hm Hf.
  assert (forall k : nat, (forall x, 0 <= x < Z.of_nat k -> f x = false) \/
    exists d, 0 <= d < Z.of_nat k /\ f d = true /\ forall x, 0 <= x < d -> f x = false) as Hk.
  { induction k as [| k [IH | (d & ? & ? & ?)]]; [left; lia | |].
    - destruct (f (Z.of_nat k)) eqn:E; [right; exists (Z.of_nat k); split_and!; auto; lia |].
      left. intros x Hx. destruct (decide (x = Z.of_nat k)) as [-> |]; [done | apply IH; lia].
    - right. exists d. split_and!; auto; lia. }
  destruct (Hk (Z.to_nat m)) as [Hall | (d & ? & ? & ?)].
  - exists m. split_and!; auto; [lia .. |]. intros x Hx. apply Hall. lia.
  - exists d. split_and!; auto; lia.
Qed.

(** ** C strings *)

(** memmove of [n] elements inside one array. *)
Definition array_move {A} (m : list A) (dst src n : Z) : outcome (list A) :=
  let* v := load_bytes m src n in store_bytes m dst v.

(** [strncmp] and [memcmp] compare as unsigned bytes; [strncmp] stops at a NUL.  The
    result is the difference of the first bytes that differ. *)
Fixpoint c_strncmp (n : nat) (m1 : block) (p1 : Z) (m2 : block) (p2 : Z) : outcome Z :=
  match n with
  | O => Val 0
  | S n =>
      let* c1 := load m1 p1 in
      let* c2 := load m2 p2 in
      if negb (c1 =? c2) then Val (c1 - c2)
      else if c1 =? 0 then Val 0
      else c_strncmp n m1 (p1 + 1) m2 (p2 + 1)
  end.

(** [strlen] of the string at offset [p]: the distance to the first NUL. *)
Fixpoint find_nul (l : block) : option Z :=
  match l with
  | [] => None
  | c :: l' => if c =? 0 then Some 0 else Z.succ <$> find_nul l'
  end.

Definition c_strlen (m : block) (p : Z) : outcome Z :=
  if (0 <=? p) then
    match find_nul (drop (Z.to_nat p) m) with Some n => Val n | None => Trap OutOfBounds end
  else Trap OutOfBounds.

Lemma find_nul_app (s r : block) : Forall (fun c => c <> 0) s -> find_nul (s ++ 0 :: r) = Some (zlen (s : block)).
Proof.
  induction 1 as [| c s Hc _ IH]; [done |]. simpl. rewrite (proj2 (Z.eqb_neq c 0)) by done.
  rewrite IH. simpl. f_equal. rewrite zlen_cons. lia.
Qed.

Create HintDb recovery.
#[export] Hint Resolve zlen_nonneg bytes_ok_slice wp_val : recovery.
#[export] Hint Rewrite @zlen_app @zlen_cons @zlen_nil @zlen_insert : zlen.

(** One step of symbolic execution of a [wp] goal. *)
Ltac wp_step :=
  match goal with
  | |- wp (mbind _ _) _ => apply wp_bind
  | |- wp (Val _) _ => apply wp_val
  | |- wp (mret _) _ => apply wp_val
  | |- wp (load _ _) _ => apply wp_load; [| intros ?b ?Hb]
  | |- wp (c_int _ _) _ => apply wp_c_int
  | |- wp (store _ _ _) _ => apply wp_store
  | |- wp (load_bytes _ _ _) _ => apply wp_load_bytes
  | |- wp (store_bytes _ _ _) _ => apply wp_store_bytes
  end.

(** Linear arithmetic with the lengths of the lists in scope. *)
Ltac zlia :=
  rewrite ?zlen_app, ?zlen_cons in *;
  repeat match goal with
  | |- context [@zlen ?A []] => change (@zlen A []) with 0
  | H : context [@zlen ?A []] |- _ => change (@zlen A []) with 0 in H
  | l : list ?A |- _ =>
      lazymatch goal with
      | _ : 0 <= zlen l |- _ => fail
      | _ => pose proof (zlen_nonneg l)
      end
  end; lia.
