(* ===== verification/CString.v ===== *)
(** * C strings: comparison order, lengths and literals

    The order in which [strcmp] and [strncmp] sort, as a lexicographic order on byte
    strings, and what they compute on blocks; shared by the archive code, which keeps
    its entries in this order, and the edify function table. *)

From stdpp Require Import base numbers list sorting.
From Stdlib Require Import String Ascii.
From S2P Require Import Prelude.

(** The bytes of a string literal. *)
Fixpoint str (s : string) : block :=
  match s with
  | EmptyString => []
  | String c s => Z.of_N (N_of_ascii c) :: str s
  end.

(** memcmp of two byte strings of the same length. *)
Fixpoint memcmp (a b : block) : Z :=
  match a, b with
  | x :: a, y :: b => if x =? y then memcmp a b else x - y
  | _, _ => 0
  end.

(** ** The order on byte strings *)

(** Lexicographic comparison of unsigned bytes. *)
Fixpoint lex (a b : block) : comparison :=
  match a, b with
  | [], [] => Eq
  | [], _ :: _ => Lt
  | _ :: _, [] => Gt
  | x :: a, y :: b => match x ?= y with Eq => lex a b | c => c end
  end.

Definition name_le (a b : block) : Prop := lex a b <> Gt.

Lemma lex_antisym a b : lex b a = CompOpp (lex a b).
Proof.
  revert b. induction a as [| x a IH]; intros [| y b]; try done. simpl.
  rewrite (Z.compare_antisym x y). destruct (x ?= y); simpl; auto.
Qed.

Lemma lex_refl a : lex a a = Eq.
Proof. induction a; simpl; [done |]. by rewrite Z.compare_refl. Qed.

Lemma lex_eq a b : lex a b = Eq <-> a = b.
Proof.
  split; [| intros ->; apply lex_refl].
  revert b. induction a as [| x a IH]; intros [| y b]; try done. simpl.
  destruct (Z.compare_spec x y); try done. subst. by intros ->%IH.
Qed.

Lemma name_le_cons x a y b : name_le (x :: a) (y :: b) <-> x < y \/ x = y /\ name_le a b.
Proof.
  unfold name_le. simpl. destruct (Z.compare_spec x y).
  - subst. split; [intros; right; done | intros [? | [_ ?]]; [lia | done]].
  - split; [intros _; by left | done].
  - split; [done | intros [? | [? _]]; lia].
Qed.

#[global] Instance name_le_trans : Transitive name_le.
Proof.
  intros a. induction a as [| x a IH]; intros [| y b] [| z c]; try done.
  rewrite !name_le_cons. intros [? | [-> Hab]] [? | [-> Hbc]]; [left; lia .. |].
  right. split; [done | by eapply IH].
Qed.

#[global] Instance name_le_total : Total name_le.
Proof.
  intros a b. unfold name_le. rewrite (lex_antisym a b). destruct (lex a b); simpl; auto.
Qed.

Lemma lex_le_lt a b c : name_le a b -> lex b c = Lt -> lex a c = Lt.
Proof.
  intros Hab Hbc. destruct (lex a c) eqn:E; [| done |].
  - apply lex_eq in E as ->. unfold name_le in Hab. rewrite lex_antisym, Hbc in Hab. done.
  - exfalso. assert (name_le a c) as Hac; [| by unfold name_le in Hac; rewrite E in Hac].
    transitivity b; [done |]. unfold name_le. by rewrite Hbc.
Qed.

Lemma lex_gt_le a b c : lex a b = Gt -> name_le a c -> lex c b = Gt.
Proof.
  intros Hab Hac. pose proof (lex_antisym b a) as E. rewrite (lex_antisym a b), Hab in E. simpl in E.
  destruct (lex c b) eqn:F; [| | done].
  - apply lex_eq in F as ->. by unfold name_le in Hac; rewrite Hab in Hac.
  - pose proof (lex_le_lt a c b Hac F). congruence.
Qed.

(** Comparing up to the shorter length, then the lengths. *)
Lemma lex_memcmp a b :
  lex a b = if memcmp a b =? 0 then zlen a ?= zlen b else memcmp a b ?= 0.
Proof.
  revert b. induction a as [| x a IH]; intros [| y b]; try done. cbn [lex memcmp].
  destruct (Z.eqb_spec x y) as [-> | Hne].
  - rewrite Z.compare_refl, IH, !zlen_cons. destruct (_ =? 0); [| done].
    destruct (Z.compare_spec (zlen a) (zlen b)), (Z.compare_spec (1 + zlen a) (1 + zlen b)); lia || done.
  - rewrite (proj2 (Z.eqb_neq (x - y) 0)) by lia.
    destruct (Z.compare_spec x y), (Z.compare_spec (x - y) 0); lia || done.
Qed.

Lemma memcmp_take k a b :
  Z.min (zlen a) (zlen b) <= Z.of_nat k -> memcmp (take k a) (take k b) = memcmp a b.
Proof.
  revert k b. induction a as [| x a IH]; intros k [| y b]; [by destruct k .. |].
  rewrite !zlen_cons. pose proof (zlen_nonneg a). pose proof (zlen_nonneg b).
  destruct k as [| k]; [lia |]. intros. simpl. rewrite IH by lia. done.
Qed.

Lemma memcmp_eq (a b : block) : zlen a = zlen b -> memcmp a b = 0 <-> a = b.
Proof.
  intros Hl. rewrite <- lex_eq, lex_memcmp, Hl, Z.compare_refl.
  destruct (Z.eqb_spec (memcmp a b) 0); [done |]. split; [done |].
  destruct (Z.compare_spec (memcmp a b) 0); done || lia.
Qed.

(** Names that share a prefix are adjacent in this order. *)
Lemma prefix_convex (p a b c : block) :
  p `prefix_of` a -> p `prefix_of` c -> name_le a b -> name_le b c -> p `prefix_of` b.
Proof.
  revert a b c. induction p as [| x p IH]; intros a b c [a' ->] [c' ->]; [intros; apply prefix_nil |].
  simpl. destruct b as [| y b]; [done |]. rewrite !name_le_cons. intros Hab Hbc.
  destruct Hab as [? | [-> Hab]], Hbc as [? | [? Hbc]]; try lia.
  apply prefix_cons. eapply IH; [by eexists | by eexists | done | done].
Qed.

Lemma strncmp_memcmp (n : nat) m1 p1 m2 p2 :
  0 <= p1 -> p1 + Z.of_nat n <= zlen m1 -> 0 <= p2 -> p2 + Z.of_nat n <= zlen m2 ->
  Forall (fun c => c <> 0) (slice m1 p1 (Z.of_nat n)) ->
  c_strncmp n m1 p1 m2 p2 = Val (memcmp (slice m1 p1 (Z.of_nat n)) (slice m2 p2 (Z.of_nat n))).
Proof.
  revert p1 p2. induction n as [| n IH]; intros p1 p2 Hp1 Hl1 Hp2 Hl2 Hnz; [done |].
  destruct (load_some m1 p1) as [c1 E1]; [lia |]. destruct (load_some m2 p2) as [c2 E2]; [lia |].
  rewrite (slice_cons m1 p1 _ c1) in * by (done || lia). rewrite (slice_cons m2 p2 _ c2) by (done || lia).
  replace (Z.of_nat (S n) - 1) with (Z.of_nat n) in * by lia.
  apply Forall_cons in Hnz as [Hc1 Hnz]. cbn [c_strncmp memcmp]. rewrite E1, E2. cbn [mbind outcome_bind].
  destruct (Z.eqb_spec c1 c2); cbn [negb]; [| done].
  rewrite (proj2 (Z.eqb_neq c1 0)) by done. apply IH; done || lia.
Qed.

#[global] Instance name_le_dec a b : Decision (name_le a b).
Proof. unfold name_le. apply _. Defined.
(** The bytes of the C string at the start of a block. *)
Definition c_str (m : block) : outcome block :=
  let* n := c_strlen m 0 in Val (slice m 0 n).

Lemma c_strlen_app (s t : block) : Forall (fun c => c <> 0) s -> c_strlen (s ++ 0 :: t) 0 = Val (zlen s).
Proof.
  intros Hs. unfold c_strlen. rewrite Z.leb_refl. change (drop (Z.to_nat 0) (s ++ 0 :: t)) with (s ++ 0 :: t).
  by rewrite find_nul_app.
Qed.

Lemma c_str_app (s t : block) : Forall (fun c => c <> 0) s -> c_str (s ++ 0 :: t) = Val s.
Proof.
  intros Hs. unfold c_str. rewrite c_strlen_app by done. cbn [mbind outcome_bind]. f_equal.
  exact (slice_length_app [] s (0 :: t) _ eq_refl).
Qed.

(** Entries of a sorted list by position. *)
Lemma sorted_load_le {A} (R : relation A) `{!Reflexive R} L i j a b :
  StronglySorted R L -> load L i = Val a -> load L j = Val b -> i <= j -> R a b.
Proof.
  rewrite !load_Val. intros HS [Hi Ha] [Hj Hb] Hij.
  destruct (decide (i = j)) as [-> |].
  { rewrite Ha in Hb. by injection Hb as ->. }
  rewrite <- (take_drop_middle L (Z.to_nat i) a Ha) in HS.
  apply StronglySorted_app_1_r, StronglySorted_cons in HS as [HF _].
  rewrite Forall_lookup in HF. apply (HF (Z.to_nat j - S (Z.to_nat i))%nat).
  rewrite lookup_drop. replace (S (Z.to_nat i) + _)%nat with (Z.to_nat j) by lia. done.
Qed.

#[global] Instance name_le_refl : Reflexive name_le.
Proof. intros a. unfold name_le. by rewrite lex_refl. Qed.
