(* ===== verification/CTokens.v ===== *)
(** * Strings in fixed buffers: strlcpy, strlcat, strtok and fgets

    A buffer is the bytes of an array; a string argument is given without its final zero.
    The routines are those of the C library as documented; what they do to the buffer is
    kept, what a write or a missing terminator does outside it traps. *)

From stdpp Require Import base numbers list.
From S2P Require Import Prelude CString.

Abbreviation no_nul := (Forall (fun c : Z => c <> 0)).

(** ** Definitions *)

(** The whole size of the buffer is passed by every caller. *)
Definition strlcpy (buf src : block) : outcome block := store_bytes buf 0 (take (length buf - 1) src ++ [0]).

Definition strlcat (buf src : block) : outcome block :=
  match find_nul buf with
  | None => Val buf
  | Some n => store_bytes buf n (take (length buf - 1 - Z.to_nat n) src ++ [0])
  end.

Fixpoint skip_delim (d : Z -> bool) (s : block) : block :=
  match s with c :: s' => if d c then skip_delim d s' else s | [] => [] end.
Fixpoint span_token (d : Z -> bool) (s : block) : block * block :=
  match s with
  | c :: s' => if d c then ([], s) else let (t, r) := span_token d s' in (c :: t, r)
  | [] => ([], [])
  end.

(** The next token from [p] on, the buffer, in which a zero ends the token, and the place
    to go on from. *)
Definition strtok_at (d : Z -> bool) (buf : block) (p : Z) : outcome (option block * block * Z) :=
  let* n := c_strlen buf p in
  match skip_delim d (slice buf p n) with
  | [] => Val (None, buf, p + n)
  | s =>
      let (t, r) := span_token d s in
      match r with
      | [] => Val (Some t, buf, p + n)
      | _ => let* buf := store buf (p + n - zlen r) 0 in Val (Some t, buf, p + n - zlen r + 1)
      end
  end.

(** At most [n] tokens. *)
Fixpoint strtok_upto (n : nat) (d : Z -> bool) (buf : block) (p : Z) : outcome (list block * block) :=
  match n with
  | O => Val ([], buf)
  | S n =>
      let* (t, buf, p) := strtok_at d buf p in
      match t with
      | None => Val ([], buf)
      | Some t => let* (ts, buf) := strtok_upto n d buf p in Val (t :: ts, buf)
      end
  end.

(** fgets with a buffer of [n + 1] bytes: the bytes up to the end of the line and the rest
    of the file. *)
Fixpoint fgets (n : nat) (file : block) : block * block :=
  match n, file with
  | S n, c :: file' => if c =? 10 then ([c], file') else let (l, r) := fgets n file' in (c :: l, r)
  | _, _ => ([], file)
  end.

(** ** Tokens *)

Definition emit (t : block) (ts : list block) : list block := match t with [] => ts | _ => t :: ts end.
Fixpoint tokens_from (d : Z -> bool) (cur s : block) : list block :=
  match s with
  | [] => emit cur []
  | c :: s => if d c then emit cur (tokens_from d [] s) else tokens_from d (cur ++ [c]) s
  end.
(** The parts of [s] between delimiters, without the empty ones. *)
Definition tokens (d : Z -> bool) (s : block) : list block := tokens_from d [] s.

Definition plain (d : Z -> bool) (s : block) : Prop := Forall (fun c => d c = false) s.

Lemma tokens_from_plain d cur t s : plain d t -> tokens_from d cur (t ++ s) = tokens_from d (cur ++ t) s.
Proof.
  intros Ht. revert cur. induction Ht as [| c t Hc _ IH]; intros cur; [by rewrite app_nil_r |].
  simpl. rewrite Hc, IH, <- app_assoc. done.
Qed.

Lemma tokens_cons d t c s : plain d t -> t <> [] -> d c = true -> tokens d (t ++ c :: s) = t :: tokens d s.
Proof. intros Ht Hne Hc. unfold tokens. rewrite tokens_from_plain by done. simpl. rewrite Hc. by destruct t. Qed.

Lemma tokens_last d t : plain d t -> t <> [] -> tokens d t = [t].
Proof.
  intros Ht Hne. unfold tokens. rewrite <- (app_nil_r t) at 1. rewrite tokens_from_plain by done. by destruct t.
Qed.

Lemma tokens_skip d s : tokens d (skip_delim d s) = tokens d s.
Proof. unfold tokens. induction s as [| c s IH]; [done |]. simpl. destruct (d c) eqn:Hc; [by rewrite IH |]. simpl. by rewrite Hc. Qed.

Lemma skip_delim_suffix d s : exists ws, s = ws ++ skip_delim d s.
Proof.
  induction s as [| c s [ws IH]]; [by exists [] |]. simpl. destruct (d c); [| by exists []].
  exists (c :: ws). simpl. by rewrite <- IH.
Qed.

Lemma skip_delim_head d s c s' : skip_delim d s = c :: s' -> d c = false.
Proof. induction s as [| x s IH]; [done |]. simpl. destruct (d x) eqn:Hx; [done |]. intros [= -> ->]. done. Qed.

Lemma span_token_spec d s : let (t, r) := span_token d s in s = t ++ r /\ plain d t /\ match r with c :: _ => d c = true | [] => True end.
Proof.
  induction s as [| c s IH]; [simpl; split_and!; done || constructor |]. simpl. destruct (d c) eqn:Hc; [split_and!; done || constructor |].
  destruct (span_token d s) as [t r]. destruct IH as (-> & Ht & Hr). split_and!; [done | by constructor | done].
Qed.

Lemma tokens_from_ok d s cur : plain d cur -> Forall (fun t => t <> [] /\ plain d t) (tokens_from d cur s).
Proof.
  revert cur. induction s as [| c s IH]; intros cur Hcur; simpl.
  - destruct cur; simpl; [constructor |]. constructor; [done | constructor].
  - destruct (d c) eqn:Hc; [| apply IH, Forall_app; by repeat constructor].
    destruct cur; simpl; [by apply IH; constructor |]. constructor; [done | apply IH; constructor].
Qed.

Lemma tokens_ok d s : Forall (fun t => t <> [] /\ plain d t) (tokens d s).
Proof. apply tokens_from_ok. constructor. Qed.

(** ** strtok takes the tokens in order *)

Lemma c_strlen_at (pre s post : block) : no_nul s -> c_strlen (pre ++ s ++ 0 :: post) (zlen pre) = Val (zlen s).
Proof.
  intros Hs. unfold c_strlen. pose proof (zlen_nonneg pre). rewrite (proj2 (Z.leb_le 0 (zlen pre))) by done.
  unfold zlen at 1. rewrite Nat2Z.id, drop_app_length. by rewrite find_nul_app.
Qed.

Lemma strtok_at_spec d pre s post : no_nul s ->
  match tokens d s with
  | [] => strtok_at d (pre ++ s ++ 0 :: post) (zlen pre) = Val (None, pre ++ s ++ 0 :: post, zlen pre + zlen s)
  | t :: ts => exists pre' s', strtok_at d (pre ++ s ++ 0 :: post) (zlen pre) = Val (Some t, pre' ++ s' ++ 0 :: post, zlen pre') /\
      tokens d s' = ts /\ no_nul s' /\ zlen pre' + zlen s' = zlen pre + zlen s
  end.
Proof.
  intros Hs. unfold strtok_at. rewrite c_strlen_at by done. cbn [mbind outcome_bind].
  rewrite (slice_length_app pre s (0 :: post) _ eq_refl). rewrite <- (tokens_skip d s).
  destruct (skip_delim_suffix d s) as [ws Ews]. destruct (skip_delim d s) as [| x s1] eqn:Es1; [done |].
  apply skip_delim_head in Es1 as Hx. pose proof (span_token_spec d (x :: s1)) as Hsp. destruct (span_token d (x :: s1)) as [t r].
  destruct Hsp as (Etr & Ht & Hr). rewrite Etr in *. clear Es1.
  assert (t <> []) as Hne by (intros ->; simpl in Etr; subst r; congruence).
  destruct r as [| c r].
  - rewrite app_nil_r, (tokens_last d t Ht Hne). exists (pre ++ s), []. rewrite <- app_assoc. split_and!; [| done | constructor | zlia].
    rewrite zlen_app. done.
  - rewrite (tokens_cons d t c r Ht Hne Hr). exists (pre ++ ws ++ t ++ [0]), r.
    assert (pre ++ s ++ 0 :: post = (pre ++ ws ++ t) ++ c :: (r ++ 0 :: post)) as -> by (rewrite Ews; rewrite <- !app_assoc; done).
    rewrite (store_app (pre ++ ws ++ t) _ c 0) by (rewrite Ews; zlia). cbn [mbind outcome_bind].
    rewrite Ews in Hs. rewrite !Forall_app, Forall_cons in Hs. split_and!; [| done | naive_solver | rewrite Ews; zlia].
    f_equal. f_equal; [f_equal; rewrite <- !app_assoc; done | rewrite Ews; zlia].
Qed.

Lemma strtok_upto_spec n d : forall pre s post, no_nul s ->
  exists pre', strtok_upto n d (pre ++ s ++ 0 :: post) (zlen pre) = Val (take n (tokens d s), pre' ++ 0 :: post) /\ zlen pre' = zlen pre + zlen s.
Proof.
  induction n as [| n IH]; intros pre s post Hs; cbn [strtok_upto].
  { exists (pre ++ s). rewrite <- app_assoc. split; [done | zlia]. }
  pose proof (strtok_at_spec d pre s post Hs) as Hat. destruct (tokens d s) as [| t ts].
  - rewrite Hat. cbn [mbind outcome_bind]. exists (pre ++ s). rewrite <- app_assoc. split; [done | zlia].
  - destruct Hat as (pre' & s' & -> & <- & Hs' & Hl). cbn [mbind outcome_bind].
    destruct (IH pre' s' post Hs') as (pre'' & -> & Hl''). cbn [mbind outcome_bind]. exists pre''. split; [done | lia].
Qed.

(** The token at the start of what is left. *)
Lemma strtok_at_token d pre t c rest post : plain d t -> t <> [] -> d c = true -> no_nul (t ++ c :: rest) ->
  strtok_at d (pre ++ (t ++ c :: rest) ++ 0 :: post) (zlen pre) = Val (Some t, (pre ++ t ++ [0]) ++ rest ++ 0 :: post, zlen (pre ++ t ++ [0])).
Proof.
  intros Ht Hne Hc Hnn. unfold strtok_at. rewrite c_strlen_at by done. cbn [mbind outcome_bind].
  rewrite (slice_length_app pre (t ++ c :: rest) (0 :: post) _ eq_refl).
  assert (skip_delim d (t ++ c :: rest) = t ++ c :: rest) as ->.
  { destruct t as [| x t]; [done |]. apply Forall_cons in Ht as [Hx _]. simpl. by rewrite Hx. }
  assert (exists y l, t ++ c :: rest = y :: l) as (y & l & E) by (destruct t as [| y t]; [done | by exists y, (t ++ c :: rest)]).
  assert (span_token d (y :: l) = (t, c :: rest)) as Hsp.
  { rewrite <- E. clear Hne Hnn E. induction Ht as [| x t Hx _ IH]; simpl; [by rewrite Hc | by rewrite Hx, IH]. }
  rewrite E at 1. rewrite Hsp. rewrite <- !app_assoc. cbn [app]. rewrite app_assoc.
  rewrite (store_app (pre ++ t) _ c 0) by zlia. cbn [mbind outcome_bind]. do 2 f_equal; [f_equal; by rewrite <- app_assoc |].
  rewrite !zlen_app, !zlen_cons. change (zlen [0]) with 1. zlia.
Qed.

(** ** Copying and appending *)

Lemma strlcpy_spec buf src : 0 < zlen buf -> no_nul src ->
  exists post, strlcpy buf src = Val (take (length buf - 1) src ++ 0 :: post) /\ zlen (take (length buf - 1) src ++ 0 :: post) = zlen buf.
Proof.
  intros Hb Hs. unfold strlcpy. set (l := take (length buf - 1) src).
  assert (zlen (l ++ [0]) <= zlen buf) as Hl by (unfold l; rewrite zlen_app; unfold zlen in *; rewrite length_take; simpl; lia).
  destruct (split_at buf (zlen (l ++ [0]))) as (h & t & -> & Hh); [pose proof (zlen_nonneg (l ++ [0])); lia |].
  pose proof (store_bytes_app [] h t (l ++ [0]) 0) as Hst. cbn [app] in Hst. rewrite Hst by (done || lia).
  exists t. cbn [app]. rewrite <- app_assoc. split; [done |]. rewrite zlen_app, zlen_cons. rewrite !zlen_app in *. rewrite Hh. zlia.
Qed.

Lemma strlcat_spec s post src : no_nul s ->
  exists post', strlcat (s ++ 0 :: post) src = Val (take (length (s ++ 0 :: post) - 1) (s ++ src) ++ 0 :: post') /\
    zlen (take (length (s ++ 0 :: post) - 1) (s ++ src) ++ 0 :: post') = zlen (s ++ 0 :: post).
Proof.
  intros Hs. unfold strlcat. rewrite find_nul_app by done. set (N := length (s ++ 0 :: post)).
  assert (N = length s + S (length post))%nat as HN by (unfold N; by rewrite length_app). clearbody N.
  replace (Z.to_nat (zlen s)) with (length s) by (unfold zlen; lia). set (l := take (N - 1 - length s) src).
  assert (take (N - 1) (s ++ src) = s ++ l) as ->.
  { rewrite take_app_ge by lia. unfold l. done. }
  assert (length l <= length post)%nat as Hl by (unfold l; rewrite length_take; lia).
  destruct (split_at (0 :: post) (zlen (l ++ [0]))) as (h & t & Eht & Hh); [rewrite zlen_app, zlen_cons; unfold zlen; simpl; lia |].
  rewrite Eht. rewrite (store_bytes_app s h t (l ++ [0])) by (done || lia). exists t. rewrite <- !app_assoc. split; [done |].
  rewrite !zlen_app in *. rewrite zlen_cons. rewrite Hh. zlia.
Qed.

(** ** More on tokens *)

Lemma tokens_snoc d s c : d c = true -> tokens d (s ++ [c]) = tokens d s.
Proof.
  intros Hc. unfold tokens. assert (forall cur, tokens_from d cur (s ++ [c]) = tokens_from d cur s) as Hcur; [| apply Hcur].
  induction s as [| x s IH]; intros cur; simpl; [by rewrite Hc; destruct cur |]. destruct (d x); [by rewrite IH | apply IH].
Qed.

Lemma tokens_from_Forall (Q : Z -> Prop) d s cur : Forall Q cur -> Forall Q s -> Forall (Forall Q) (tokens_from d cur s).
Proof.
  intros Hcur Hs. revert cur Hcur. induction Hs as [| c s Hc _ IH]; intros cur Hcur; simpl.
  - destruct cur; simpl; [constructor | by constructor].
  - destruct (d c); [| apply IH, Forall_app; by repeat constructor].
    destruct cur; simpl; [by apply IH | constructor; [done | by apply IH]].
Qed.
Lemma tokens_Forall (Q : Z -> Prop) d s : Forall Q s -> Forall (Forall Q) (tokens d s).
Proof. intros Hs. by apply tokens_from_Forall. Qed.

(** A buffer with a zero starts with a string. *)
Lemma split_nul (buf : block) : 0 ∈ buf -> exists s post, buf = s ++ 0 :: post /\ no_nul s.
Proof.
  induction buf as [| c buf IH]; [by intros ?%elem_of_nil |]. destruct (decide (c = 0)) as [-> | Hc]; [by exists [], buf |].
  intros [? | Hin]%elem_of_cons; [done |]. destruct (IH Hin) as (s & post & -> & Hs). exists (c :: s), post. split; [done | by constructor].
Qed.

Lemma take_take_app {A} n (x y : list A) : take n (take n x ++ y) = take n (x ++ y).
Proof. rewrite !take_app, take_take, length_take. rewrite Nat.min_id. do 2 f_equal. lia. Qed.

Lemma fgets_spec n file : (0 < n)%nat -> file <> [] -> let (l, r) := fgets n file in file = l ++ r /\ l <> [].
Proof.
  revert file. induction n as [| n IH]; intros file Hn Hf; [lia |]. destruct file as [| c file]; [done |]. simpl.
  destruct (c =? 10); [done |]. destruct n as [| n]; [done |]. destruct file as [| c' file]; [done |].
  specialize (IH (c' :: file) ltac:(lia) ltac:(done)). destruct (fgets (S n) (c' :: file)) as [l r]. destruct IH as [-> _]. done.
Qed.

Lemma fgets_line n l rest : Forall (fun c => c <> 10) l -> (length l < n)%nat -> fgets n (l ++ 10 :: rest) = (l ++ [10], rest).
Proof.
  intros Hl. revert n. induction Hl as [| c l Hc _ IH]; intros n Hn; (destruct n as [| n]; [simpl in Hn; lia |]); [done |].
  cbn [app fgets]. rewrite (proj2 (Z.eqb_neq c 10)) by done. rewrite IH by (simpl in Hn; lia). done.
Qed.
