(* ===== verification/Bits.v ===== *)
(** * minzip/Bits.h and applypatch/utils.c: reading and writing integers

    Section [Bits] has one definition per inline function of [src/minzip/Bits.h]
    and Section [Utils] one per function of [src/applypatch/utils.c].  A pointer
    into a buffer is the buffer and an offset; the [read] family returns the
    advanced offset beside the value.  The reference codec is the arithmetic
    value of a byte string, most or least significant byte first. *)

From stdpp Require Import base numbers list.
From S2P Require Import Prelude.

(** ** Reference codec *)

Fixpoint le_val (l : block) : Z :=
  match l with [] => 0 | b :: l' => b + 256 * le_val l' end.

Definition be_val (l : block) : Z := le_val (reverse l).

Fixpoint le_bytes (n : nat) (z : Z) : block :=
  match n with O => [] | S n' => z mod 256 :: le_bytes n' (z / 256) end.

Definition be_bytes (n : nat) (z : Z) : block := reverse (le_bytes n z).

Lemma length_le_bytes n z : length (le_bytes n z) = n.
Proof. revert z. induction n; intros; simpl; auto. Qed.

Lemma le_val_le_bytes n z : le_val (le_bytes n z) = z mod 256 ^ Z.of_nat n.
Proof.
  revert z. induction n as [| n IH]; intros z.
  - simpl. by rewrite Z.mod_1_r.
  - cbn [le_bytes le_val]. rewrite IH, Nat2Z.inj_succ, Z.pow_succ_r by lia.
    rewrite Z.rem_mul_r; lia.
Qed.

Lemma be_val_be_bytes n z : be_val (be_bytes n z) = z mod 256 ^ Z.of_nat n.
Proof. unfold be_val, be_bytes. rewrite reverse_involutive. apply le_val_le_bytes. Qed.

Lemma le_bytes_ok n z : bytes_ok (le_bytes n z).
Proof.
  revert z. induction n; intros; simpl; constructor; auto.
  unfold is_byte. apply Z.mod_pos_bound. lia.
Qed.

Lemma le_val_range l : bytes_ok l -> 0 <= le_val l < 256 ^ zlen l.
Proof.
  induction 1 as [| b l Hb _ IH]; [by split |].
  rewrite zlen_cons, Z.pow_add_r by (unfold zlen; lia). unfold is_byte in Hb.
  cbn [le_val]. change (256 ^ 1) with 256. revert IH. generalize (256 ^ zlen l). lia.
Qed.

(** ** Shifts and ors of bytes as sums *)

Lemma lor_add a b : Z.land a b = 0 -> Z.lor a b = a + b.
Proof. intros H. rewrite <- Z.lxor_lor by done. symmetry. by apply Z.add_nocarry_lxor. Qed.

(** A byte ored in above the bits already there (little-endian step). *)
Lemma lor_above k acc b : 0 <= k -> 0 <= acc < 2 ^ k -> Z.lor acc (Z.shiftl b k) = acc + b * 2 ^ k.
Proof.
  intros Hk Ha. rewrite <- Z.shiftl_mul_pow2 by lia. apply lor_add.
  apply Z.bits_inj_iff. intros i. rewrite Z.land_spec, Z.bits_0.
  destruct (decide (i < k)).
  - rewrite Z.shiftl_spec_low by lia. by rewrite andb_false_r.
  - rewrite <- (Z.mod_small acc (2 ^ k)) by lia. by rewrite Z.mod_pow2_bits_high by lia.
Qed.

(** Bits ored in below the ones already there (big-endian step). *)
Lemma lor_below k acc x :
  0 <= k -> 0 <= x < 2 ^ k -> acc mod 2 ^ k = 0 -> Z.lor acc x = acc + x.
Proof.
  intros Hk Hx Ha. rewrite (Z.div_mod acc (2 ^ k)), Ha, Z.add_0_r by lia.
  rewrite (Z.mul_comm (2 ^ k)), <- Z.shiftl_mul_pow2, Z.lor_comm by lia.
  rewrite lor_above, Z.shiftl_mul_pow2 by lia. lia.
Qed.

(** *** Tactics for the fixed-width readers

    [load_byte] names a byte that is in bounds, [run_loads] executes the loads,
    [to_bytes] opens the slice read, and the [arith] tactics turn the shifts and
    ors into sums. *)
Local Ltac load_byte src q :=
  let b := fresh "b" in let Hb := fresh "Hb" in
  destruct (load_ex src q) as (b & ? & Hb); [done | lia |]; unfold is_byte in Hb.

Local Ltac run_loads :=
  repeat match goal with H : load _ _ = Val _ |- _ => rewrite H; cbn [mbind outcome_bind]; revert H end;
  intros.

Local Ltac to_bytes :=
  repeat match goal with
  | H : load ?src ?q = Val _ |- context [slice ?src ?q' _] =>
      replace q' with q by lia; rewrite (slice_cons src q _ _ H) by lia
  | |- context [slice _ _ ?n] => replace n with 0 by lia; rewrite slice_0
  end; cbn [le_val be_val reverse rev_append].

(** Rewrite the innermost [wrapu] or [Z.lor] first, so that the side conditions are linear. *)
Ltac no_bitop t :=
  lazymatch t with
  | context [Z.lor _ _] => fail
  | context [wrapu _ _] => fail
  | _ => idtac
  end.

Local Ltac le_arith :=
  repeat match goal with
  | |- context [wrapu ?w ?z] => no_bitop z; rewrite (wrapu_id w z) by lia
  | |- context [Z.lor ?a (Z.shiftl ?b ?k)] => no_bitop a; rewrite (lor_above k a b) by lia
  end.

Local Ltac be_arith :=
  rewrite ?Z.shiftl_mul_pow2 by lia;
  repeat match goal with
  | |- context [wrapu ?w ?z] => no_bitop z; rewrite (wrapu_id w z) by lia
  | |- context [Z.lor ?a (?b * 2 ^ ?k)] => no_bitop a;
      rewrite (lor_below (k + 8) a (b * 2 ^ k)) by (Z.div_mod_to_equations; lia)
  | |- context [Z.lor ?a ?b] => no_bitop a;
      rewrite (lor_below 8 a b) by (Z.div_mod_to_equations; lia)
  end.

(** ** minzip/Bits.h *)

Section Bits.
Context `{Arch}.
Implicit Types (src buf : block) (p : Z).

Definition get1 src p : outcome Z := load src p.

Definition get2BE src p : outcome Z :=
  let* b0 := load src p in
  let result := u16 (Z.shiftl b0 8) in
  let* b1 := load src (p + 1) in
  let result := u16 (Z.lor result b1) in
  Val result.

Definition get4BE src p : outcome Z :=
  let* b0 := load src p in
  let result := u32 (Z.shiftl b0 24) in
  let* b1 := load src (p + 1) in
  let result := u32 (Z.lor result (Z.shiftl b1 16)) in
  let* b2 := load src (p + 2) in
  let result := u32 (Z.lor result (Z.shiftl b2 8)) in
  let* b3 := load src (p + 3) in
  let result := u32 (Z.lor result b3) in
  Val result.

Definition get8BE src p : outcome Z :=
  let* b0 := load src p in
  let result := u64 (Z.shiftl b0 56) in
  let* b1 := load src (p + 1) in
  let result := u64 (Z.lor result (Z.shiftl b1 48)) in
  let* b2 := load src (p + 2) in
  let result := u64 (Z.lor result (Z.shiftl b2 40)) in
  let* b3 := load src (p + 3) in
  let result := u64 (Z.lor result (Z.shiftl b3 32)) in
  let* b4 := load src (p + 4) in
  let result := u64 (Z.lor result (Z.shiftl b4 24)) in
  let* b5 := load src (p + 5) in
  let result := u64 (Z.lor result (Z.shiftl b5 16)) in
  let* b6 := load src (p + 6) in
  let result := u64 (Z.lor result (Z.shiftl b6 8)) in
  let* b7 := load src (p + 7) in
  let result := u64 (Z.lor result b7) in
  Val result.

Definition get2LE src p : outcome Z :=
  let* b0 := load src p in
  let result := u16 b0 in
  let* b1 := load src (p + 1) in
  let result := u16 (Z.lor result (Z.shiftl b1 8)) in
  Val result.

Definition get4LE src p : outcome Z :=
  let* b0 := load src p in
  let result := u32 b0 in
  let* b1 := load src (p + 1) in
  let result := u32 (Z.lor result (Z.shiftl b1 8)) in
  let* b2 := load src (p + 2) in
  let result := u32 (Z.lor result (Z.shiftl b2 16)) in
  let* b3 := load src (p + 3) in
  let result := u32 (Z.lor result (Z.shiftl b3 24)) in
  Val result.

Definition get8LE src p : outcome Z :=
  let* b0 := load src p in
  let result := u64 b0 in
  let* b1 := load src (p + 1) in
  let result := u64 (Z.lor result (Z.shiftl b1 8)) in
  let* b2 := load src (p + 2) in
  let result := u64 (Z.lor result (Z.shiftl b2 16)) in
  let* b3 := load src (p + 3) in
  let result := u64 (Z.lor result (Z.shiftl b3 24)) in
  let* b4 := load src (p + 4) in
  let result := u64 (Z.lor result (Z.shiftl b4 32)) in
  let* b5 := load src (p + 5) in
  let result := u64 (Z.lor result (Z.shiftl b5 40)) in
  let* b6 := load src (p + 6) in
  let result := u64 (Z.lor result (Z.shiftl b6 48)) in
  let* b7 := load src (p + 7) in
  let result := u64 (Z.lor result (Z.shiftl b7 56)) in
  Val result.

Definition read1 src p : outcome (Z * Z) :=
  let* b := load src p in
  Val (b, p + 1).

Definition read2BE src p : outcome (Z * Z) :=
  let* b0 := load src p in
  let result := u16 (Z.shiftl b0 8) in
  let* b1 := load src (p + 1) in
  let result := u16 (Z.lor result b1) in
  Val (result, p + 2).

Definition read4BE src p : outcome (Z * Z) :=
  let* b0 := load src p in
  let result := u32 (Z.shiftl b0 24) in
  let* b1 := load src (p + 1) in
  let result := u32 (Z.lor result (Z.shiftl b1 16)) in
  let* b2 := load src (p + 2) in
  let result := u32 (Z.lor result (Z.shiftl b2 8)) in
  let* b3 := load src (p + 3) in
  let result := u32 (Z.lor result b3) in
  Val (result, p + 4).

Definition read8BE src p : outcome (Z * Z) :=
  let* b0 := load src p in
  let result := u64 (Z.shiftl b0 56) in
  let* b1 := load src (p + 1) in
  let result := u64 (Z.lor result (Z.shiftl b1 48)) in
  let* b2 := load src (p + 2) in
  let result := u64 (Z.lor result (Z.shiftl b2 40)) in
  let* b3 := load src (p + 3) in
  let result := u64 (Z.lor result (Z.shiftl b3 32)) in
  let* b4 := load src (p + 4) in
  let result := u64 (Z.lor result (Z.shiftl b4 24)) in
  let* b5 := load src (p + 5) in
  let result := u64 (Z.lor result (Z.shiftl b5 16)) in
  let* b6 := load src (p + 6) in
  let result := u64 (Z.lor result (Z.shiftl b6 8)) in
  let* b7 := load src (p + 7) in
  let result := u64 (Z.lor result b7) in
  Val (result, p + 8).

Definition read2LE src p : outcome (Z * Z) :=
  let* b0 := load src p in
  let result := u16 b0 in
  let* b1 := load src (p + 1) in
  let result := u16 (Z.lor result (Z.shiftl b1 8)) in
  Val (result, p + 2).

Definition read4LE src p : outcome (Z * Z) :=
  let* b0 := load src p in
  let result := u32 b0 in
  let* b1 := load src (p + 1) in
  let result := u32 (Z.lor result (Z.shiftl b1 8)) in
  let* b2 := load src (p + 2) in
  let result := u32 (Z.lor result (Z.shiftl b2 16)) in
  let* b3 := load src (p + 3) in
  let result := u32 (Z.lor result (Z.shiftl b3 24)) in
  Val (result, p + 4).

Definition read8LE src p : outcome (Z * Z) :=
  let* b0 := load src p in
  let result := u64 b0 in
  let* b1 := load src (p + 1) in
  let result := u64 (Z.lor result (Z.shiftl b1 8)) in
  let* b2 := load src (p + 2) in
  let result := u64 (Z.lor result (Z.shiftl b2 16)) in
  let* b3 := load src (p + 3) in
  let result := u64 (Z.lor result (Z.shiftl b3 24)) in
  let* b4 := load src (p + 4) in
  let result := u64 (Z.lor result (Z.shiftl b4 32)) in
  let* b5 := load src (p + 5) in
  let result := u64 (Z.lor result (Z.shiftl b5 40)) in
  let* b6 := load src (p + 6) in
  let result := u64 (Z.lor result (Z.shiftl b6 48)) in
  let* b7 := load src (p + 7) in
  let result := u64 (Z.lor result (Z.shiftl b7 56)) in
  Val (result, p + 8).

Definition skipUtf8String src p : outcome Z :=
  let* (length, p) := read4BE src p in
  Val (p + length).

(** [size_t] arithmetic wraps, so a zero [bufLen] asks for a copy of the largest
    [size_t].  The result is the new buffer, the string length converted to [int]
    and the advanced offset. *)
Definition readUtf8String src p buf (bufLen : Z) : outcome (block * Z * Z) :=
  let* (length, p) := read4BE src p in
  let copyLen := if length <? bufLen then length else wrapu word_bits (bufLen - 1) in
  let* data := load_bytes src p copyLen in
  let* buf := store_bytes buf 0 data in
  let* buf := store buf copyLen 0 in
  Val (buf, i32 length, p + length).

(** [malloc] is given as the contents of the fresh block, if it succeeds; the code
    does not test its result. *)
Definition readNewUtf8String src p (malloc : Z -> option block) : outcome (block * Z * Z) :=
  let* (length, p) := read4BE src p in
  match malloc (u32 (length + 1)) with
  | None => Trap NullDeref
  | Some buf =>
      let* data := load_bytes src p length in
      let* buf := store_bytes buf 0 data in
      let* buf := store buf length 0 in
      Val (buf, length, p + length)
  end.

Definition set1 buf p (val : Z) : outcome block := store buf p (u8 val).

Definition set2BE buf p (val : Z) : outcome block :=
  let* buf := store buf p (u8 (Z.shiftr val 8)) in
  store buf (p + 1) (u8 val).

Definition set4BE buf p (val : Z) : outcome block :=
  let* buf := store buf p (u8 (Z.shiftr val 24)) in
  let* buf := store buf (p + 1) (u8 (Z.shiftr val 16)) in
  let* buf := store buf (p + 2) (u8 (Z.shiftr val 8)) in
  store buf (p + 3) (u8 val).

Definition set8BE buf p (val : Z) : outcome block :=
  let* buf := store buf p (u8 (Z.shiftr val 56)) in
  let* buf := store buf (p + 1) (u8 (Z.shiftr val 48)) in
  let* buf := store buf (p + 2) (u8 (Z.shiftr val 40)) in
  let* buf := store buf (p + 3) (u8 (Z.shiftr val 32)) in
  let* buf := store buf (p + 4) (u8 (Z.shiftr val 24)) in
  let* buf := store buf (p + 5) (u8 (Z.shiftr val 16)) in
  let* buf := store buf (p + 6) (u8 (Z.shiftr val 8)) in
  store buf (p + 7) (u8 val).

Definition set2LE buf p (val : Z) : outcome block :=
  let* buf := store buf p (u8 val) in
  store buf (p + 1) (u8 (Z.shiftr val 8)).

Definition set4LE buf p (val : Z) : outcome block :=
  let* buf := store buf p (u8 val) in
  let* buf := store buf (p + 1) (u8 (Z.shiftr val 8)) in
  let* buf := store buf (p + 2) (u8 (Z.shiftr val 16)) in
  store buf (p + 3) (u8 (Z.shiftr val 24)).

Definition set8LE buf p (val : Z) : outcome block :=
  let* buf := store buf p (u8 val) in
  let* buf := store buf (p + 1) (u8 (Z.shiftr val 8)) in
  let* buf := store buf (p + 2) (u8 (Z.shiftr val 16)) in
  let* buf := store buf (p + 3) (u8 (Z.shiftr val 24)) in
  let* buf := store buf (p + 4) (u8 (Z.shiftr val 32)) in
  let* buf := store buf (p + 5) (u8 (Z.shiftr val 40)) in
  let* buf := store buf (p + 6) (u8 (Z.shiftr val 48)) in
  store buf (p + 7) (u8 (Z.shiftr val 56)).

(** [str] is the block that holds the source string and [q] its offset there. *)
Definition setUtf8String buf p (str : block) (q : Z) : outcome block :=
  let* n := c_strlen str q in
  let strLen := u32 n in
  let* buf := set4BE buf p strLen in
  let* data := load_bytes str q strLen in
  store_bytes buf (p + 4) data.

(** *** Reading is the reference codec on the bytes read *)

Local Ltac get_spec arith :=
  intros Hs Hp Hl;
  match goal with |- ?g ?src ?p = Val (_ (slice _ _ ?n)) =>
    load_byte src p; load_byte src (p + 1);
    try (load_byte src (p + 2); load_byte src (p + 3));
    try (load_byte src (p + 4); load_byte src (p + 5); load_byte src (p + 6); load_byte src (p + 7));
    unfold g
  end; run_loads; to_bytes; arith; f_equal; lia.

Lemma get2LE_spec src p :
  bytes_ok src -> 0 <= p -> p + 2 <= zlen src -> get2LE src p = Val (le_val (slice src p 2)).
Proof. get_spec le_arith. Qed.
Lemma get4LE_spec src p :
  bytes_ok src -> 0 <= p -> p + 4 <= zlen src -> get4LE src p = Val (le_val (slice src p 4)).
Proof. get_spec le_arith. Qed.
Lemma get8LE_spec src p :
  bytes_ok src -> 0 <= p -> p + 8 <= zlen src -> get8LE src p = Val (le_val (slice src p 8)).
Proof. get_spec le_arith. Qed.
Lemma get2BE_spec src p :
  bytes_ok src -> 0 <= p -> p + 2 <= zlen src -> get2BE src p = Val (be_val (slice src p 2)).
Proof. get_spec be_arith. Qed.
Lemma get4BE_spec src p :
  bytes_ok src -> 0 <= p -> p + 4 <= zlen src -> get4BE src p = Val (be_val (slice src p 4)).
Proof. get_spec be_arith. Qed.
Lemma get8BE_spec src p :
  bytes_ok src -> 0 <= p -> p + 8 <= zlen src -> get8BE src p = Val (be_val (slice src p 8)).
Proof. get_spec be_arith. Qed.

(** The [read] family is the [get] family with the pointer advanced. *)
Local Ltac read_spec :=
  repeat match goal with |- context [load ?s ?q] =>
    destruct (load s q); cbn [mbind outcome_bind]; [| reflexivity] end; reflexivity.

Lemma read2LE_get src p : read2LE src p = (let* v := get2LE src p in Val (v, p + 2)).
Proof. unfold read2LE, get2LE. read_spec. Qed.
Lemma read4LE_get src p : read4LE src p = (let* v := get4LE src p in Val (v, p + 4)).
Proof. unfold read4LE, get4LE. read_spec. Qed.
Lemma read8LE_get src p : read8LE src p = (let* v := get8LE src p in Val (v, p + 8)).
Proof. unfold read8LE, get8LE. read_spec. Qed.
Lemma read2BE_get src p : read2BE src p = (let* v := get2BE src p in Val (v, p + 2)).
Proof. unfold read2BE, get2BE. read_spec. Qed.
Lemma read4BE_get src p : read4BE src p = (let* v := get4BE src p in Val (v, p + 4)).
Proof. unfold read4BE, get4BE. read_spec. Qed.
Lemma read8BE_get src p : read8BE src p = (let* v := get8BE src p in Val (v, p + 8)).
Proof. unfold read8BE, get8BE. read_spec. Qed.

(** *** Writing stores the reference encoding *)

Local Ltac set_stores Hl :=
  match goal with
  | |- store ?m ?q ?x = store_bytes ?m ?q' [?y] =>
      replace q' with q by lia; rewrite store_bytes_cons by (rewrite ?zlen_nil; lia);
      replace y with x by done; etrans; [symmetry; apply bind_ret |];
      apply bind_ext; intros m' Hm'; apply store_zlen in Hm';
      rewrite store_bytes_nil by lia; done
  | |- (let* _ := store ?m ?q ?x in _) = store_bytes ?m ?q' (?y :: _) =>
      replace q' with q by lia; rewrite store_bytes_cons by (rewrite ?zlen_cons, ?zlen_nil; lia);
      replace y with x by done; apply bind_ext;
      let m' := fresh "m" in let Hm := fresh "Hm" in
      intros m' Hm; apply store_zlen in Hm
  end.

Local Ltac set_spec :=
  intros Hp Hl;
  match goal with |- ?s _ _ _ = store_bytes _ _ (?e ?n _) =>
    unfold s, e; cbn [le_bytes reverse rev_append] end;
  rewrite ?Z.div_div by lia;
  rewrite ?Z.shiftr_div_pow2 by lia; repeat set_stores Hl.

Lemma set2LE_spec buf p v : 0 <= p -> p + 2 <= zlen buf -> set2LE buf p v = store_bytes buf p (le_bytes 2 v).
Proof. set_spec. Qed.
Lemma set4LE_spec buf p v : 0 <= p -> p + 4 <= zlen buf -> set4LE buf p v = store_bytes buf p (le_bytes 4 v).
Proof. set_spec. Qed.
Lemma set8LE_spec buf p v : 0 <= p -> p + 8 <= zlen buf -> set8LE buf p v = store_bytes buf p (le_bytes 8 v).
Proof. set_spec. Qed.
Lemma set2BE_spec buf p v : 0 <= p -> p + 2 <= zlen buf -> set2BE buf p v = store_bytes buf p (be_bytes 2 v).
Proof. set_spec. Qed.
Lemma set4BE_spec buf p v : 0 <= p -> p + 4 <= zlen buf -> set4BE buf p v = store_bytes buf p (be_bytes 4 v).
Proof. set_spec. Qed.
Lemma set8BE_spec buf p v : 0 <= p -> p + 8 <= zlen buf -> set8BE buf p v = store_bytes buf p (be_bytes 8 v).
Proof. set_spec. Qed.

(** *** The codecs as an interface *)

(** What a [get]/[set] pair of [n] bytes promises: reads inside the block return a
    value of that width, writes inside the block return, can be read back, and leave
    the rest of the block alone. *)
Class ByteCodec (n : nat) (get : block -> Z -> outcome Z)
    (set : block -> Z -> Z -> outcome block) : Prop := {
  codec_get : forall src p, bytes_ok src -> 0 <= p -> p + Z.of_nat n <= zlen src ->
    wp (get src p) (fun v => 0 <= v < 256 ^ Z.of_nat n);
  codec_set : forall buf p v, bytes_ok buf -> 0 <= p -> p + Z.of_nat n <= zlen buf ->
    wp (set buf p v) (fun buf' => bytes_ok buf' /\ zlen buf' = zlen buf /\
      get buf' p = Val (v mod 256 ^ Z.of_nat n) /\
      forall i, i < p \/ p + Z.of_nat n <= i -> load buf' i = load buf i) }.

Lemma bytes_ok_store_bytes (m v : block) p :
  bytes_ok m -> bytes_ok v ->
  bytes_ok (take (Z.to_nat p) m ++ v ++ drop (Z.to_nat p + length v) m).
Proof. intros. by repeat apply Forall_app_2; [apply Forall_take | | apply Forall_drop]. Qed.

Lemma load_store_bytes_ne (m v : block) p i :
  0 <= p -> p + zlen v <= zlen m -> i < p \/ p + zlen v <= i ->
  load (take (Z.to_nat p) m ++ v ++ drop (Z.to_nat p + length v) m) i = load m i.
Proof.
  intros Hp Hl Hi. unfold load. rewrite zlen_store_bytes by lia. unfold zlen in *.
  destruct (Z.leb_spec 0 i); [| done]. destruct (Z.ltb_spec i (Z.of_nat (length m))); [simpl | done].
  destruct Hi.
  - rewrite lookup_app_l by (rewrite length_take; lia). by rewrite lookup_take_lt by lia.
  - rewrite !lookup_app_r; rewrite ?length_take; [| lia | lia].
    rewrite lookup_drop. by replace (_ + _)%nat with (Z.to_nat i) by lia.
Qed.

Lemma codec_of_reference n get set (dec : block -> Z) (enc : nat -> Z -> block) :
  (forall l, bytes_ok l -> 0 <= dec l < 256 ^ zlen l) ->
  (forall z, dec (enc n z) = z mod 256 ^ Z.of_nat n) ->
  (forall z, bytes_ok (enc n z) /\ length (enc n z) = n) ->
  (forall src p, bytes_ok src -> 0 <= p -> p + Z.of_nat n <= zlen src ->
    get src p = Val (dec (slice src p (Z.of_nat n)))) ->
  (forall buf p v, 0 <= p -> p + Z.of_nat n <= zlen buf -> set buf p v = store_bytes buf p (enc n v)) ->
  ByteCodec n get set.
Proof.
  intros Hr Hde Henc Hg Hs. split.
  - intros src p Hb Hp Hl. rewrite Hg by done. simpl.
    pose proof (Hr _ (bytes_ok_slice src p (Z.of_nat n) Hb)) as R.
    by rewrite zlen_slice in R by lia.
  - intros buf p v Hb Hp Hl. destruct (Henc v) as [Hok Hlen].
    assert (zlen (enc n v) = Z.of_nat n) as Hz by (unfold zlen; lia).
    rewrite Hs by done. apply wp_store_bytes; [lia | lia |].
    set (buf' := take _ _ ++ _).
    assert (bytes_ok buf') by (by apply bytes_ok_store_bytes).
    assert (zlen buf' = zlen buf) by (apply zlen_store_bytes; lia).
    split_and!; [done | done | |].
    + rewrite Hg by (done || lia). rewrite <- Hde, <- Hz. unfold buf'. by rewrite slice_store_bytes by lia.
    + intros i Hi. apply load_store_bytes_ne; lia.
Qed.

Lemma be_val_range l : bytes_ok l -> 0 <= be_val l < 256 ^ zlen l.
Proof.
  intros Hl. unfold be_val. replace (zlen l) with (zlen (reverse l)).
  - apply le_val_range, Forall_reverse, Hl.
  - unfold zlen. by rewrite length_reverse.
Qed.

Lemma le_enc_ok n z : bytes_ok (le_bytes n z) /\ length (le_bytes n z) = n.
Proof. auto using le_bytes_ok, length_le_bytes. Qed.

Lemma be_enc_ok n z : bytes_ok (be_bytes n z) /\ length (be_bytes n z) = n.
Proof.
  unfold be_bytes. rewrite length_reverse, length_le_bytes.
  split; [apply Forall_reverse, le_bytes_ok | done].
Qed.

#[local] Hint Resolve le_val_range be_val_range le_val_le_bytes be_val_be_bytes le_enc_ok be_enc_ok
  get2LE_spec get4LE_spec get8LE_spec get2BE_spec get4BE_spec get8BE_spec
  set2LE_spec set4LE_spec set8LE_spec set2BE_spec set4BE_spec set8BE_spec : codec.

#[global] Instance codec2LE : ByteCodec 2 get2LE set2LE.
Proof. apply (codec_of_reference 2 _ _ le_val le_bytes); auto with codec. Qed.
#[global] Instance codec4LE : ByteCodec 4 get4LE set4LE.
Proof. apply (codec_of_reference 4 _ _ le_val le_bytes); auto with codec. Qed.
#[global] Instance codec8LE : ByteCodec 8 get8LE set8LE.
Proof. apply (codec_of_reference 8 _ _ le_val le_bytes); auto with codec. Qed.
#[global] Instance codec2BE : ByteCodec 2 get2BE set2BE.
Proof. apply (codec_of_reference 2 _ _ be_val be_bytes); auto with codec. Qed.
#[global] Instance codec4BE : ByteCodec 4 get4BE set4BE.
Proof. apply (codec_of_reference 4 _ _ be_val be_bytes); auto with codec. Qed.
#[global] Instance codec8BE : ByteCodec 8 get8BE set8BE.
Proof. apply (codec_of_reference 8 _ _ be_val be_bytes); auto with codec. Qed.

(** *** Length-prefixed strings *)

Lemma setUtf8String_read4 buf p (s r : block) :
  bytes_ok buf -> bytes_ok s -> Forall (fun c => c <> 0) s ->
  0 <= p -> p + 4 + zlen s <= zlen buf -> zlen s < 2 ^ 32 ->
  wp (setUtf8String buf p (s ++ 0 :: r) 0) (fun buf' =>
    read4BE buf' p = Val (zlen s, p + 4) /\ zlen buf' = zlen buf /\ slice buf' (p + 4) (zlen s) = s).
Proof.
  intros Hb Hs Hnz Hp Hl Hmax. pose proof (zlen_nonneg s). unfold setUtf8String.
  apply wp_bind. unfold c_strlen. simpl Z.to_nat. rewrite drop_0, find_nul_app by done. simpl.
  rewrite wrapu_id by lia. apply wp_bind.
  eapply wp_mono; [apply codec4BE.(codec_set _ _ _); [done | done | simpl; lia] |].
  intros buf1 (Hb1 & Hl1 & Hg1 & _). simpl in Hg1. rewrite Z.mod_small in Hg1 by lia.
  apply wp_bind, wp_load_bytes; [lia | lia | autorewrite with zlen; pose proof (zlen_nonneg r); lia |].
  replace (slice (s ++ 0 :: r) 0 (zlen s)) with s.
  2: { symmetry. apply (slice_length_app [] s (0 :: r)). done. }
  apply wp_store_bytes; [lia | lia |].
  split_and!; [| rewrite zlen_store_bytes; lia | by apply slice_store_bytes; lia].
  rewrite read4BE_get. replace (get4BE _ p) with (get4BE buf1 p); [by rewrite Hg1 |].
  unfold get4BE. by rewrite !load_store_bytes_ne by lia.
Qed.

(** Copy [v] to the start of a block and terminate it. *)
Lemma store_cstr (d v : block) :
  zlen v < zlen d -> exists d1, store_bytes d 0 v = Val d1 /\
    store d1 (zlen v) 0 = Val (v ++ 0 :: drop (S (length v)) d).
Proof.
  intros Hd. pose proof (zlen_nonneg v).
  apply (wp_elim (store_bytes d 0 v)), wp_store_bytes; [lia | lia |].
  apply store_Val. rewrite zlen_store_bytes by lia. split; [lia |].
  simpl. unfold zlen in *. rewrite Nat2Z.id, insert_app_r_alt, Nat.sub_diag by lia.
  destruct (lookup_lt_is_Some_2 d (length v)) as [x Hx]; [lia |].
  by rewrite (drop_S _ _ _ Hx).
Qed.

(** The bytes [buf'] holds after [setUtf8String] read back, NUL terminated, into
    fresh storage. *)
Lemma readNewUtf8String_spec buf p (s : block) (malloc : Z -> option block) :
  0 <= p -> p + 4 + zlen s <= zlen buf -> zlen s < 2 ^ 32 - 1 ->
  (forall n, 0 <= n -> exists m, malloc n = Some m /\ zlen m = n) ->
  read4BE buf p = Val (zlen s, p + 4) -> slice buf (p + 4) (zlen s) = s ->
  readNewUtf8String buf p malloc = Val (s ++ [0], zlen s, p + 4 + zlen s).
Proof.
  intros Hp Hl Hmax Hmal Hr Hsl. pose proof (zlen_nonneg s).
  unfold readNewUtf8String. rewrite Hr. cbn [mbind outcome_bind].
  rewrite wrapu_id by lia. destruct (Hmal (zlen s + 1)) as (m & -> & Hm); [lia |].
  assert (load_bytes buf (p + 4) (zlen s) = Val s) as ->.
  { unfold load_bytes. rewrite !(proj2 (Z.leb_le _ _)) by lia. by rewrite Hsl. }
  cbn [mbind outcome_bind].
  destruct (store_cstr m s) as (d1 & -> & E); [lia |]. cbn [mbind outcome_bind]. rewrite E.
  rewrite (drop_ge m); [done |]. unfold zlen in *. lia.
Qed.

(** Into a caller's buffer the string is cut to the buffer's size. *)
Lemma readUtf8String_spec buf p (s dst : block) bufLen :
  0 <= p -> p + 4 + zlen s <= zlen buf ->
  0 < bufLen < 2 ^ word_bits -> zlen dst = bufLen ->
  read4BE buf p = Val (zlen s, p + 4) -> slice buf (p + 4) (zlen s) = s ->
  let k := Z.min (zlen s) (bufLen - 1) in
  readUtf8String buf p dst bufLen =
    Val (slice s 0 k ++ 0 :: drop (S (Z.to_nat k)) dst, i32 (zlen s), p + 4 + zlen s).
Proof.
  intros Hp Hl Hbl Hdst Hr Hsl k. pose proof (zlen_nonneg s).
  unfold readUtf8String. rewrite Hr. cbn [mbind outcome_bind].
  assert ((if zlen s <? bufLen then zlen s else wrapu word_bits (bufLen - 1)) = k) as ->.
  { unfold k. destruct (Z.ltb_spec (zlen s) bufLen); [lia |]. rewrite wrapu_id; lia. }
  assert (zlen (slice s 0 k) = k) as Hk by (apply zlen_slice; lia).
  assert (load_bytes buf (p + 4) k = Val (slice s 0 k)) as ->.
  { unfold load_bytes. rewrite !(proj2 (Z.leb_le _ _)) by lia. cbn [andb]. f_equal.
    unfold slice in *. simpl (Z.to_nat 0). rewrite drop_0, <- Hsl at 1. rewrite take_take. f_equal. lia. }
  cbn [mbind outcome_bind].
  destruct (store_cstr dst (slice s 0 k)) as (d1 & -> & E); [lia |].
  rewrite Hk in E. cbn [mbind outcome_bind]. rewrite E.
  by replace (length (slice s 0 k)) with (Z.to_nat k) by (unfold zlen in Hk; lia).
Qed.
End Bits.

(** ** applypatch/utils.c *)

Section Utils.

(** A file open for writing is the bytes written so far. *)
Definition fputc (c : Z) (f : block) : block := f ++ [u8 c].

Definition Write4 (value : Z) (f : block) : block :=
  let f := fputc (Z.land value 255) f in
  let f := fputc (Z.land (Z.shiftr value 8) 255) f in
  let f := fputc (Z.land (Z.shiftr value 16) 255) f in
  fputc (Z.land (Z.shiftr value 24) 255) f.

Definition Write8 (value : Z) (f : block) : block :=
  let f := fputc (Z.land value 255) f in
  let f := fputc (Z.land (Z.shiftr value 8) 255) f in
  let f := fputc (Z.land (Z.shiftr value 16) 255) f in
  let f := fputc (Z.land (Z.shiftr value 24) 255) f in
  let f := fputc (Z.land (Z.shiftr value 32) 255) f in
  let f := fputc (Z.land (Z.shiftr value 40) 255) f in
  let f := fputc (Z.land (Z.shiftr value 48) 255) f in
  fputc (Z.land (Z.shiftr value 56) 255) f.

Definition Read2 (m : block) (p : Z) : outcome Z :=
  let* p1 := load m (p + 1) in
  let* p0 := load m p in
  Val (i32 (Z.lor (u32 (Z.shiftl p1 8)) p0)).

Definition Read4 (m : block) (p : Z) : outcome Z :=
  let* p3 := load m (p + 3) in
  let* p2 := load m (p + 2) in
  let* p1 := load m (p + 1) in
  let* p0 := load m p in
  Val (i32 (Z.lor (Z.lor (Z.lor (u32 (Z.shiftl p3 24)) (u32 (Z.shiftl p2 16)))
    (u32 (Z.shiftl p1 8))) p0)).

Definition Read8 (m : block) (p : Z) : outcome Z :=
  let* p7 := load m (p + 7) in
  let* p6 := load m (p + 6) in
  let* p5 := load m (p + 5) in
  let* p4 := load m (p + 4) in
  let* p3 := load m (p + 3) in
  let* p2 := load m (p + 2) in
  let* p1 := load m (p + 1) in
  let* p0 := load m p in
  Val (i64 (Z.lor (Z.lor (Z.lor (Z.lor (Z.lor (Z.lor (Z.lor
    (u64 (Z.shiftl p7 56)) (u64 (Z.shiftl p6 48))) (u64 (Z.shiftl p5 40)))
    (u64 (Z.shiftl p4 32))) (u64 (Z.shiftl p3 24))) (u64 (Z.shiftl p2 16)))
    (u64 (Z.shiftl p1 8))) p0)).

Lemma Read2_spec m p :
  bytes_ok m -> 0 <= p -> p + 2 <= zlen m -> Read2 m p = Val (le_val (slice m p 2)).
Proof.
  intros Hs Hp Hl. load_byte m p; load_byte m (p + 1).
  unfold Read2. run_loads. to_bytes. be_arith. f_equal. rewrite wraps_id; lia.
Qed.

Lemma Read4_spec m p :
  bytes_ok m -> 0 <= p -> p + 4 <= zlen m -> Read4 m p = Val (i32 (le_val (slice m p 4))).
Proof.
  intros Hs Hp Hl. load_byte m p; load_byte m (p + 1); load_byte m (p + 2); load_byte m (p + 3).
  unfold Read4. run_loads. to_bytes. be_arith. do 2 f_equal. lia.
Qed.

Lemma Read8_spec m p :
  bytes_ok m -> 0 <= p -> p + 8 <= zlen m -> Read8 m p = Val (i64 (le_val (slice m p 8))).
Proof.
  intros Hs Hp Hl. load_byte m p; load_byte m (p + 1); load_byte m (p + 2); load_byte m (p + 3).
  load_byte m (p + 4); load_byte m (p + 5); load_byte m (p + 6); load_byte m (p + 7).
  unfold Read8. run_loads. to_bytes. be_arith. do 2 f_equal. lia.
Qed.

Lemma byte_of_shift v k : 0 <= k -> u8 (Z.land (Z.shiftr v k) 255) = v / 2 ^ k mod 256.
Proof.
  intros. change 255 with (Z.ones 8). rewrite Z.land_ones, Z.shiftr_div_pow2 by lia.
  unfold wrapu. by rewrite Z.mod_mod.
Qed.

Lemma byte_of v : u8 (Z.land v 255) = v mod 256.
Proof.
  change 255 with (Z.ones 8). rewrite Z.land_ones by lia. unfold wrapu. by rewrite Z.mod_mod.
Qed.

Lemma Write4_spec v f : Write4 v f = f ++ le_bytes 4 v.
Proof.
  unfold Write4, fputc. rewrite byte_of, !byte_of_shift by lia.
  rewrite <- !app_assoc. cbn [le_bytes app]. by rewrite ?Z.div_div by lia.
Qed.

Lemma Write8_spec v f : Write8 v f = f ++ le_bytes 8 v.
Proof.
  unfold Write8, fputc. rewrite byte_of, !byte_of_shift by lia.
  rewrite <- !app_assoc. cbn [le_bytes app]. by rewrite ?Z.div_div by lia.
Qed.

Lemma wraps_mod w z : 0 < w -> wraps w (z mod 2 ^ w) = wraps w z.
Proof. intros. unfold wraps. rewrite Z.mod_mod; [done |]. apply Z.pow_nonzero; lia. Qed.

(** What [Write4] and [Write8] put at the end of a file, [Read4] and [Read8] read back
    as the same signed value, whatever follows. *)
Lemma Read4_Write4 v f r :
  bytes_ok f -> bytes_ok r -> Read4 (Write4 v f ++ r) (zlen f) = Val (i32 v).
Proof.
  intros Hf Hr. rewrite Write4_spec. pose proof (length_le_bytes 4 v) as Hl.
  rewrite Read4_spec; [| apply Forall_app_2; [apply Forall_app_2 |]; auto using le_bytes_ok | auto with recovery
    | autorewrite with zlen; pose proof (zlen_nonneg r); unfold zlen in *; lia].
  rewrite <- app_assoc, slice_length_app by (unfold zlen; lia).
  by rewrite le_val_le_bytes, (wraps_mod 32).
Qed.

Lemma Read8_Write8 v f r :
  bytes_ok f -> bytes_ok r -> Read8 (Write8 v f ++ r) (zlen f) = Val (i64 v).
Proof.
  intros Hf Hr. rewrite Write8_spec. pose proof (length_le_bytes 8 v) as Hl.
  rewrite Read8_spec; [| apply Forall_app_2; [apply Forall_app_2 |]; auto using le_bytes_ok | auto with recovery
    | autorewrite with zlen; pose proof (zlen_nonneg r); unfold zlen in *; lia].
  rewrite <- app_assoc, slice_length_app by (unfold zlen; lia).
  by rewrite le_val_le_bytes, (wraps_mod 64).
Qed.
End Utils.

(** ** Properties *)

(** The six fixed-width accessor pairs of Bits.h obey the codec laws: a read inside
    the block returns a value of its width; a write inside the block returns, reads back
    as the value modulo its width and leaves all other bytes alone; and each pointer-
    advancing reader is its getter with the pointer moved past the bytes read. *)
Theorem bits_accessors_correct :
  (ByteCodec 2 get2LE set2LE /\ ByteCodec 4 get4LE set4LE /\ ByteCodec 8 get8LE set8LE /\
   ByteCodec 2 get2BE set2BE /\ ByteCodec 4 get4BE set4BE /\ ByteCodec 8 get8BE set8BE) /\
  (forall src p,
   read2LE src p = (let* v := get2LE src p in Val (v, p + 2)) /\
   read4LE src p = (let* v := get4LE src p in Val (v, p + 4)) /\
   read8LE src p = (let* v := get8LE src p in Val (v, p + 8)) /\
   read2BE src p = (let* v := get2BE src p in Val (v, p + 2)) /\
   read4BE src p = (let* v := get4BE src p in Val (v, p + 4)) /\
   read8BE src p = (let* v := get8BE src p in Val (v, p + 8))).
Proof.
  split; [split_and!; apply _ |]. intros src p.
  auto 10 using read2LE_get, read4LE_get, read8LE_get, read2BE_get, read4BE_get, read8BE_get.
Qed.

(** A string stored with [setUtf8String] reads back, NUL terminated, into fresh
    storage and into a caller's buffer (cut to the buffer's size), and is skipped
    exactly. *)
Theorem utf8_string_roundtrip `{Arch} (buf s r dst : block) (p bufLen : Z) (malloc : Z -> option block) :
  bytes_ok buf -> bytes_ok s -> Forall (fun c => c <> 0) s ->
  0 <= p -> p + 4 + zlen s <= zlen buf -> zlen s < 2 ^ 32 - 1 ->
  (forall n, 0 <= n -> exists m, malloc n = Some m /\ zlen m = n) ->
  0 < bufLen < 2 ^ word_bits -> zlen dst = bufLen ->
  wp (setUtf8String buf p (s ++ 0 :: r) 0) (fun buf' =>
    let k := Z.min (zlen s) (bufLen - 1) in
    readNewUtf8String buf' p malloc = Val (s ++ [0], zlen s, p + 4 + zlen s) /\
    readUtf8String buf' p dst bufLen =
      Val (slice s 0 k ++ 0 :: drop (S (Z.to_nat k)) dst, i32 (zlen s), p + 4 + zlen s) /\
    skipUtf8String buf' p = Val (p + 4 + zlen s)).
Proof.
  intros. eapply wp_mono; [apply setUtf8String_read4; done || lia |].
  intros buf' (Hr & Hl & Hs) k. split_and!.
  - apply readNewUtf8String_spec; auto; lia.
  - apply readUtf8String_spec; auto; lia.
  - unfold skipUtf8String. by rewrite Hr.
Qed.

Lemma utf8_string_roundtrip_witness :
  wp (setUtf8String (replicate 12 7) 1 ([72; 105] ++ 0 :: []) 0) (fun buf' =>
    let k := Z.min (zlen [72; 105]) (2 - 1) in
    readNewUtf8String buf' 1 (fun n => Some (replicate (Z.to_nat n) 0)) =
      Val ([72; 105] ++ [0], zlen [72; 105], 1 + 4 + zlen [72; 105]) /\
    readUtf8String (H := ILP32) buf' 1 [9; 9] 2 =
      Val (slice [72; 105] 0 k ++ 0 :: drop (S (Z.to_nat k)) [9; 9], i32 (zlen [72; 105]),
        1 + 4 + zlen [72; 105]) /\
    skipUtf8String buf' 1 = Val (1 + 4 + zlen [72; 105])).
Proof.
  apply (utf8_string_roundtrip (H := ILP32) (replicate 12 7) [72; 105] [] [9; 9] 1 2
    (fun n => Some (replicate (Z.to_nat n) 0))); try done.
  - by repeat constructor.
  - by repeat constructor.
  - by repeat constructor.
  - intros n Hn. eexists. split; [done |]. unfold zlen. rewrite length_replicate. lia.
Defined.

(** What [Write4] and [Write8] append to a file, [Read4] and [Read8] read back at
    that place as the same signed number, whatever is written after it. *)
Theorem utils_write_read (f r : block) (v : Z) :
  bytes_ok f -> bytes_ok r ->
  Read4 (Write4 v f ++ r) (zlen f) = Val (i32 v) /\ Read8 (Write8 v f ++ r) (zlen f) = Val (i64 v).
Proof. intros. split; [by apply Read4_Write4 | by apply Read8_Write8]. Qed.

Lemma utils_write_read_witness :
  Read4 (Write4 (-2) [1; 2] ++ [3]) (zlen [1; 2]) = Val (i32 (-2)) /\
  Read8 (Write8 (-2) [1; 2] ++ [3]) (zlen [1; 2]) = Val (i64 (-2)).
Proof. apply utils_write_read; by repeat constructor. Defined.
