(* ===== verification/Hash.v ===== *)
(** * minzip/Hash.c and Hash.h: the probing hash table

    [HashTable] is the C struct; the array [pEntries] is a list of entries whose
    [data] is NULL, HASH_TOMBSTONE or an item.  Each operation of [Hash.c] is a
    definition with the C loops, guards and assertions; the loops carry a fuel of
    one step per slot, so [NoFuel] is a probe that has seen every slot and would
    go round again for ever.  Signed arithmetic is checked: overflow traps.

    The abstract state of a table is the list of its live (hash, item) pairs; the
    representation invariant [ht_ok] says that counters, load factor and probe
    chains are right.  The theorems are total: under [ht_ok] every operation
    returns, preserves [ht_ok] and acts on the abstract state as a dictionary. *)

From stdpp Require Import base numbers list.
From S2P Require Import Prelude.

(** ** Data *)

Inductive slot (T : Type) := SNull | STomb | SItem (it : T).
Arguments SNull {T}.
Arguments STomb {T}.
Arguments SItem {T} it.

Record HashEntry (T : Type) := mkEntry { hashValue : Z; data : slot T }.
Arguments mkEntry {T} hashValue data.
Arguments hashValue {T} h.
Arguments data {T} h.

Record HashTable (T : Type) := mkTable {
  tableSize : Z;
  numEntries : Z;
  numDeadEntries : Z;
  pEntries : list (HashEntry T);
  freeFunc : bool  (** whether a free function was given *)
}.
Arguments mkTable {T} tableSize numEntries numDeadEntries pEntries freeFunc.
Arguments tableSize {T} h.
Arguments numEntries {T} h.
Arguments numDeadEntries {T} h.
Arguments pEntries {T} h.
Arguments freeFunc {T} h.

Definition is_null {T} (s : slot T) : bool := match s with SNull => true | _ => false end.
Definition is_tomb {T} (s : slot T) : bool := match s with STomb => true | _ => false end.

(** ** Capacity *)

Definition LOAD_NUMER : Z := 5.
Definition LOAD_DENOM : Z := 8.

Definition mzHashSize `{Arch} (size : Z) : Z :=
  wrapu word_bits (wrapu word_bits (size * LOAD_DENOM) / LOAD_NUMER + 1).

Definition roundUpPower2 (val : Z) : Z :=
  let val := u32 (val - 1) in
  let val := Z.lor val (Z.shiftr val 1) in
  let val := Z.lor val (Z.shiftr val 2) in
  let val := Z.lor val (Z.shiftr val 4) in
  let val := Z.lor val (Z.shiftr val 8) in
  let val := Z.lor val (Z.shiftr val 16) in
  u32 (val + 1).

Section Operations.
Context {T : Type} `{EqDecision T}.
Implicit Types t : HashTable T.

(** [calloc n]: whether an array of [n] entries can be allocated; it is zeroed. *)
Variable calloc : Z -> bool.
Definition calloc_entries (n : Z) : list (HashEntry T) := replicate (Z.to_nat n) (mkEntry 0 SNull).

Definition mzHashTableCreate (malloc_ok : bool) (initialSize : Z) (free : bool) :
    outcome (option (HashTable T)) :=
  assert* 0 <? initialSize in
  if negb malloc_ok then Val None else
  let size := i32 (roundUpPower2 (u32 initialSize)) in
  if calloc size then Val (Some (mkTable size 0 0 (calloc_entries size) free)) else Val None.

(** The entries in order, each cleared; the items given to the free function. *)
Fixpoint clear_entries (free : bool) (es : list (HashEntry T)) : list (HashEntry T) * list T :=
  match es with
  | [] => ([], [])
  | e :: es =>
      let '(es', freed) := clear_entries free es in
      match data e with
      | STomb => (mkEntry (hashValue e) SNull :: es', freed)
      | SItem it => (mkEntry (hashValue e) SNull :: es', if free then it :: freed else freed)
      | SNull => (e :: es', freed)
      end
  end.

Definition mzHashTableClear t : HashTable T * list T :=
  let '(es, freed) := clear_entries (freeFunc t) (pEntries t) in
  (mkTable (tableSize t) 0 0 es (freeFunc t), freed).

(** A table that is NULL is left alone; otherwise it is cleared and released. *)
Definition mzHashTableFree (t : option (HashTable T)) : list T :=
  match t with None => [] | Some t => (mzHashTableClear t).2 end.

Definition countTombStones t : Z :=
  zlen (filter (fun e => is_tomb (data e) = true) (pEntries t)).

(** The probe of [resizeHash]: the first NULL slot from [newIdx] on. *)
Fixpoint probe_free (fuel : nat) (news : list (HashEntry T)) (newSize newIdx : Z) : outcome Z :=
  match fuel with
  | O => Trap NoFuel
  | S fuel =>
      let* e := load news newIdx in
      if is_null (data e) then Val newIdx
      else probe_free fuel news newSize (Z.land (newIdx + 1) (newSize - 1))
  end.

(** The body of the loop of [resizeHash] for one old entry. *)
Definition reinsert (newSize : Z) (e : HashEntry T) (news : list (HashEntry T)) :
    outcome (list (HashEntry T)) :=
  match data e with
  | SItem it =>
      let hv := i32 (hashValue e) in
      let* newIdx := probe_free (Z.to_nat newSize) news newSize (Z.land hv (newSize - 1)) in
      store news newIdx (mkEntry (u32 hv) (SItem it))
  | _ => Val news
  end.

Fixpoint reinsert_all (newSize : Z) (es : list (HashEntry T)) (news : list (HashEntry T)) :
    outcome (list (HashEntry T)) :=
  match es with
  | [] => Val news
  | e :: es => let* news := reinsert newSize e news in reinsert_all newSize es news
  end.

Definition resizeHash t (newSize : Z) : outcome (bool * HashTable T) :=
  assert* countTombStones t =? numDeadEntries t in
  if calloc newSize then
    let* news := reinsert_all newSize (pEntries t) (calloc_entries newSize) in
    let t := mkTable newSize (numEntries t) 0 news (freeFunc t) in
    assert* countTombStones t =? 0 in
    Val (true, t)
  else Val (false, t).

(** The probe loop of lookup, with [cmp it] for [cmpFunc(it, item) == 0]. *)
Fixpoint probe (fuel : nat) t (itemHash : Z) (cmp : T -> bool) (i : Z) : outcome Z :=
  match fuel with
  | O => Trap NoFuel
  | S fuel =>
      let* e := load (pEntries t) i in
      let next :=
        if i + 1 =? tableSize t then
          if tableSize t =? 1 then Val (i + 1) else probe fuel t itemHash cmp 0
        else probe fuel t itemHash cmp (i + 1) in
      match data e with
      | SNull => Val i
      | STomb => next
      | SItem it => if (hashValue e =? itemHash) && cmp it then Val i else next
      end
  end.

(** [item] is [Some it] when the call adds ([doAdd]); the comparison is partially
    applied to the loose item. *)
Definition mzHashTableLookup t (itemHash : Z) (cmp : T -> bool) (doAdd : option T) :
    outcome (option T * HashTable T) :=
  assert* 0 <? tableSize t in
  let* i := probe (Z.to_nat (tableSize t)) t itemHash cmp (Z.land itemHash (tableSize t - 1)) in
  let* e := load (pEntries t) i in
  match data e with
  | SNull =>
      match doAdd with
      | Some item =>
          let* es := store (pEntries t) i (mkEntry itemHash (SItem item)) in
          let* n := c_int 32 (numEntries t + 1) in
          let t := mkTable (tableSize t) n (numDeadEntries t) es (freeFunc t) in
          let* used := c_int 32 (numEntries t + numDeadEntries t) in
          let* lhs := c_int 32 (used * LOAD_DENOM) in
          let* rhs := c_int 32 (tableSize t * LOAD_NUMER) in
          let* t :=
            if rhs <? lhs then
              let* newSize := c_int 32 (tableSize t * 2) in
              let* (ok, t) := resizeHash t newSize in
              if (ok : bool) then Val t else Trap Aborted
            else Val t in
          assert* numEntries t <? tableSize t in
          Val (Some item, t)
      | None => Val (None, t)
      end
  | STomb => Trap WildPointer  (** the loop never stops on a tombstone *)
  | SItem it => Val (Some it, t)
  end.

Fixpoint remove_probe (fuel : nat) t (item : T) (i : Z) : outcome (option Z) :=
  match fuel with
  | O => Trap NoFuel
  | S fuel =>
      let* e := load (pEntries t) i in
      let next :=
        if i + 1 =? tableSize t then
          if tableSize t =? 1 then Val None else remove_probe fuel t item 0
        else remove_probe fuel t item (i + 1) in
      match data e with
      | SNull => Val None
      | STomb => next
      | SItem it => if decide (it = item) then Val (Some i) else next
      end
  end.

Definition mzHashTableRemove t (itemHash : Z) (item : T) : outcome (bool * HashTable T) :=
  assert* 0 <? tableSize t in
  let* r := remove_probe (Z.to_nat (tableSize t)) t item (Z.land itemHash (tableSize t - 1)) in
  match r with
  | None => Val (false, t)
  | Some i =>
      let* e := load (pEntries t) i in
      let* es := store (pEntries t) i (mkEntry (hashValue e) STomb) in
      let* n := c_int 32 (numEntries t - 1) in
      let* d := c_int 32 (numDeadEntries t + 1) in
      Val (true, mkTable (tableSize t) n d es (freeFunc t))
  end.

(** The callback threads a state [A] (its [arg]) and returns an [int]. *)
Fixpoint foreach_entries {A} (es : list (HashEntry T)) (func : T -> A -> Z * A) (arg : A) : Z * A :=
  match es with
  | [] => (0, arg)
  | e :: es =>
      match data e with
      | SItem it =>
          let '(val, arg) := func it arg in
          if val =? 0 then foreach_entries es func arg else (val, arg)
      | _ => foreach_entries es func arg
      end
  end.

Definition mzHashForeach {A} t (func : T -> A -> Z * A) (arg : A) : Z * A :=
  foreach_entries (pEntries t) func arg.

Definition mzHashTableNumEntries t : Z := numEntries t.

Definition mzHashTableMemUsage `{Arch} t : Z :=
  let sizeof_HashEntry := 2 * (word_bits / 8) in
  let sizeof_HashTable := if word_bits =? 32 then 20 else 32 in
  i32 (sizeof_HashTable + tableSize t * sizeof_HashEntry).

(** *** Iterators: the index of the current entry *)

Fixpoint iter_skip (es : list (HashEntry T)) (i : Z) : Z :=
  match es with
  | [] => i
  | e :: es => match data e with SItem _ => i | _ => iter_skip es (i + 1) end
  end.

Definition mzHashIterNext t (idx : Z) : Z :=
  let i := idx + 1 in iter_skip (drop (Z.to_nat i) (pEntries t)) i.
Definition mzHashIterBegin t : Z := mzHashIterNext t (-1).
Definition mzHashIterDone t (idx : Z) : bool := tableSize t <=? idx.
Definition mzHashIterData t (idx : Z) : outcome (slot T) :=
  assert* (0 <=? idx) && (idx <? tableSize t) in
  let* e := load (pEntries t) idx in Val (data e).

(** The loop of Hash.h's usage comment, collecting the data of each step. *)
Fixpoint iter_collect (fuel : nat) t (idx : Z) : outcome (list (slot T)) :=
  if mzHashIterDone t idx then Val [] else
  match fuel with
  | O => Trap NoFuel
  | S fuel =>
      let* d := mzHashIterData t idx in
      let* rest := iter_collect fuel t (mzHashIterNext t idx) in
      Val (d :: rest)
  end.

(** *** Probe statistics *)

Fixpoint count_probe (fuel : nat) t (itemHash : Z) (cmp : T -> bool) (i count : Z) : outcome (Z * Z) :=
  match fuel with
  | O => Trap NoFuel
  | S fuel =>
      let* e := load (pEntries t) i in
      let next :=
        if i + 1 =? tableSize t then
          if tableSize t =? 1 then Val (i + 1, count)
          else count_probe fuel t itemHash cmp 0 (count + 1)
        else count_probe fuel t itemHash cmp (i + 1) (count + 1) in
      match data e with
      | SNull => Val (i, count)
      | STomb => next
      | SItem it => if (hashValue e =? itemHash) && cmp it then Val (i, count) else next
      end
  end.

Definition countProbes t (itemHash : Z) (cmp : T -> bool) : outcome Z :=
  assert* 0 <? tableSize t in
  let* (i, count) :=
    count_probe (Z.to_nat (tableSize t)) t itemHash cmp (Z.land itemHash (tableSize t - 1)) 0 in
  let* e := load (pEntries t) i in
  if is_null (data e) then Val (-1) else Val count.

(** The four numbers [mzHashTableProbeCount] logs: entries, minimum, maximum, total. *)
Fixpoint probe_stats (fuel : nat) t (calc : T -> Z) (cmp : T -> T -> bool) (idx : Z)
    (acc : Z * Z * Z * Z) : outcome (Z * Z * Z * Z) :=
  if mzHashIterDone t idx then Val acc else
  match fuel with
  | O => Trap NoFuel
  | S fuel =>
      let* d := mzHashIterData t idx in
      match d with
      | SItem it =>
          let* count := countProbes t (calc it) (fun x => cmp x it) in
          let '(n, lo, hi, total) := acc in
          probe_stats fuel t calc cmp (mzHashIterNext t idx)
            (n + 1, (if count <? lo then count else lo), (if hi <? count then count else hi), total + count)
      | _ => Trap WildPointer
      end
  end.

Definition mzHashTableProbeCount t (calc : T -> Z) (cmp : T -> T -> bool) : outcome (Z * Z * Z * Z) :=
  probe_stats (Z.to_nat (tableSize t)) t calc cmp (mzHashIterBegin t) (0, 65536 * 32767, 0, 0).
End Operations.

(** ** Capacity lemmas *)

(** One smearing step doubles the window of bits each bit collects. *)
Lemma smear x y m n :
  0 < m -> n = m + m ->
  (forall i, 0 <= i -> Z.testbit y i = true <-> exists j, i <= j < i + m /\ Z.testbit x j = true) ->
  forall i, 0 <= i -> Z.testbit (Z.lor y (Z.shiftr y m)) i = true <->
    exists j, i <= j < i + n /\ Z.testbit x j = true.
Proof.
  intros Hm -> Hy i Hi. rewrite Z.lor_spec, Z.shiftr_spec, orb_true_iff, !Hy by lia. split.
  - intros [(j & ? & ?) | (j & ? & ?)]; exists j; split; auto; lia.
  - intros (j & Hj & ?). destruct (decide (j < i + m)); [left | right]; exists j; split; auto; lia.
Qed.

(** The bits of a word after the five smearing steps. *)
Definition smear5 (x : Z) : Z :=
  let x := Z.lor x (Z.shiftr x 1) in
  let x := Z.lor x (Z.shiftr x 2) in
  let x := Z.lor x (Z.shiftr x 4) in
  let x := Z.lor x (Z.shiftr x 8) in
  Z.lor x (Z.shiftr x 16).

Lemma smear5_ones x : 0 < x < 2 ^ 32 -> smear5 x = Z.ones (Z.log2 x + 1).
Proof.
  intros Hx. pose proof (Z.log2_nonneg x).
  assert (Z.log2 x < 32) by (apply Z.log2_lt_pow2; lia).
  apply Z.bits_inj'. intros i Hi. apply eq_true_iff_eq.
  unfold smear5. rewrite (smear x _ 16 32);
    [| done | done | apply (smear _ _ 8); [done | done |]; apply (smear _ _ 4); [done | done |];
       apply (smear _ _ 2); [done | done |]; apply (smear _ _ 1); [done | done |] | done].
  - rewrite Z.testbit_ones_nonneg, Z.ltb_lt by lia. split.
    + intros (j & Hj & Hb). destruct (decide (j <= Z.log2 x)); [lia |].
      by rewrite Z.bits_above_log2 in Hb by lia.
    + intros Hl. exists (Z.log2 x). split; [lia |]. apply Z.bit_log2. lia.
  - intros k Hk. split; [intros; exists k; split; [lia | done] |].
    intros (j & Hj & ?). by replace k with j by lia.
Qed.

(** For a nonzero argument: the least power of two not below it, and zero when that
    does not fit. *)
Lemma roundUpPower2_log2 v :
  1 <= v < 2 ^ 32 -> roundUpPower2 v = if v <=? 2 ^ 31 then 2 ^ Z.log2_up v else 0.
Proof.
  intros Hv. change (roundUpPower2 v) with (u32 (smear5 (u32 (v - 1)) + 1)).
  rewrite (wrapu_id 32 (v - 1)) by lia.
  destruct (decide (v = 1)) as [-> | Hne]; [done |].
  assert (Z.log2_up v = Z.log2 (v - 1) + 1) as ->.
  { rewrite Z.log2_up_eqn by lia. by rewrite Z.sub_1_r. }
  rewrite smear5_ones, Z.ones_equiv by lia.
  pose proof (Z.log2_nonneg (v - 1)). rewrite Z.add_1_r, Z.succ_pred.
  destruct (Z.leb_spec v (2 ^ 31)).
  - assert (Z.log2 (v - 1) < 31) by (apply Z.log2_lt_pow2; lia).
    apply wrapu_id. split; [apply Z.pow_nonneg; lia |]. apply Z.pow_lt_mono_r; lia.
  - assert (Z.log2 (v - 1) = 31) as -> by (apply Z.log2_unique; lia). done.
Qed.

(** ** Representation invariant *)

Section Invariant.
Context {T : Type} `{EqDecision T}.
Implicit Types (t : HashTable T) (es : list (HashEntry T)) (e : HashEntry T).

Definition entry_live e : option (Z * T) :=
  match data e with SItem it => Some (hashValue e, it) | _ => None end.

(** The abstract state: the live pairs, in array order. *)
Definition live es : list (Z * T) := omap entry_live es.
Definition tombs es : list (HashEntry T) := filter (fun e => is_tomb (data e) = true) es.

Definition occupied es (i : Z) : Prop :=
  exists e, load es i = Val e /\ is_null (data e) = false.

(** Every live entry can be reached from its home slot through occupied slots. *)
Definition reach es (n : Z) : Prop :=
  forall i e it, load es i = Val e -> data e = SItem it ->
  exists d, 0 <= d < n /\ i = (hashValue e + d) mod n /\
    forall d', 0 <= d' < d -> occupied es ((hashValue e + d') mod n).

Record ht_ok t : Prop := {
  ok_pow2 : exists k, 0 <= k <= 28 /\ tableSize t = 2 ^ k;
  ok_length : zlen (pEntries t) = tableSize t;
  ok_entries : numEntries t = zlen (live (pEntries t));
  ok_dead : numDeadEntries t = zlen (tombs (pEntries t));
  ok_load : (numEntries t + numDeadEntries t) * LOAD_DENOM <= tableSize t * LOAD_NUMER;
  ok_hash : Forall (fun e => 0 <= hashValue e < 2 ^ 32) (pEntries t);
  ok_reach : reach (pEntries t) (tableSize t)
}.

(** *** Counting slots *)

Lemma live_app es1 es2 : live (es1 ++ es2) = live es1 ++ live es2.
Proof. apply omap_app. Qed.

Lemma slot_count es :
  length es = (length (live es) + length (tombs es) +
    length (filter (fun e => is_null (data e) = true) es))%nat.
Proof.
  unfold live, tombs. induction es as [| e es IH]; [done |].
  rewrite !filter_cons. cbn [omap list_omap entry_live]. unfold entry_live at 1.
  destruct (data e); simpl in *; rewrite ?IH; lia.
Qed.

Lemma free_slot es : zlen (live es) + zlen (tombs es) < zlen es ->
  exists i e, load es i = Val e /\ is_null (data e) = true.
Proof.
  intros Hlt. pose proof (slot_count es) as E. unfold zlen in *.
  destruct (filter (fun e => is_null (data e) = true) es) as [| e l] eqn:Hf; [simpl in E; lia |].
  assert (e ∈ filter (fun e => is_null (data e) = true) es) as He by (rewrite Hf; left).
  apply list_elem_of_filter in He as [Hn [i Hi]%list_elem_of_lookup].
  exists (Z.of_nat i), e. rewrite load_Val, Nat2Z.id. auto with lia.
Qed.

(** Replacing one slot changes the live pairs and the tombstones accordingly. *)
Lemma live_insert es i e e' :
  load es i = Val e -> live (<[Z.to_nat i := e']> es) ++ live [e] ≡ₚ live [e'] ++ live es.
Proof.
  intros [Hi Hl]%load_Val. rewrite insert_take_drop by (by eapply lookup_lt_Some).
  rewrite <- (take_drop_middle es _ _ Hl) at 3. rewrite !live_app.
  change (e' :: drop (S (Z.to_nat i)) es) with ([e'] ++ drop (S (Z.to_nat i)) es).
  change (e :: drop (S (Z.to_nat i)) es) with ([e] ++ drop (S (Z.to_nat i)) es).
  rewrite !live_app. solve_Permutation.
Qed.

Lemma tombs_insert es i e e' :
  load es i = Val e -> tombs (<[Z.to_nat i := e']> es) ++ tombs [e] ≡ₚ tombs [e'] ++ tombs es.
Proof.
  intros [Hi Hl]%load_Val. rewrite insert_take_drop by (by eapply lookup_lt_Some).
  rewrite <- (take_drop_middle es _ _ Hl) at 3. unfold tombs. rewrite !filter_app.
  change (e' :: drop (S (Z.to_nat i)) es) with ([e'] ++ drop (S (Z.to_nat i)) es).
  change (e :: drop (S (Z.to_nat i)) es) with ([e] ++ drop (S (Z.to_nat i)) es).
  rewrite !filter_app. solve_Permutation.
Qed.

Lemma live_one e : live [e] = match data e with SItem it => [(hashValue e, it)] | _ => [] end.
Proof. unfold live. simpl. unfold entry_live. by destruct (data e). Qed.

Lemma live_elem es h it :
  (h, it) ∈ live es <-> exists i e, load es i = Val e /\ data e = SItem it /\ hashValue e = h.
Proof.
  unfold live. rewrite list_elem_of_omap. split.
  - intros (e & He & E). apply list_elem_of_lookup in He as [i Hi].
    exists (Z.of_nat i), e. rewrite load_Val, Nat2Z.id. unfold entry_live in E.
    destruct (data e); naive_solver lia.
  - intros (i & e & [Hi Hl]%load_Val & Hd & <-). exists e. split.
    + apply list_elem_of_lookup. eauto.
    + unfold entry_live. by rewrite Hd.
Qed.
End Invariant.

(** ** The probe loops *)

Section Probing.
Context {T : Type} `{EqDecision T}.
Implicit Types (t : HashTable T) (es : list (HashEntry T)) (e : HashEntry T).

Lemma land_mod h n : (exists k, 0 <= k <= 28 /\ n = 2 ^ k) -> Z.land h (n - 1) = h mod n.
Proof.
  intros (k & Hk & ->). rewrite Z.sub_1_r, <- Z.ones_equiv. apply Z.land_ones. lia.
Qed.

Lemma mod_step a x n : 0 < n -> ((a + x) mod n + 1) mod n = (a + (x + 1)) mod n.
Proof. intros. rewrite Z.add_mod_idemp_l by lia. f_equal. lia. Qed.

Lemma wrap_step i n : 0 <= i < n -> (if i + 1 =? n then 0 else i + 1) = (i + 1) mod n.
Proof.
  intros. destruct (Z.eqb_spec (i + 1) n) as [-> |].
  - by rewrite Z.mod_same by lia.
  - by rewrite Z.mod_small by lia.
Qed.

(** The first slot at cyclic distance [d] from [a] whose entry satisfies [P]. *)
Definition first_at es n a (P : HashEntry T -> bool) d e : Prop :=
  0 <= d < n /\ load es ((a + d) mod n) = Val e /\ P e = true /\
  forall x, 0 <= x < d -> exists e', load es ((a + x) mod n) = Val e' /\ P e' = false.

Lemma first_at_exists es n a P i e :
  0 < n -> zlen es = n -> load es i = Val e -> P e = true -> exists d e', first_at es n a P d e'.
Proof.
  intros Hn Hl Hi HP.
  assert (0 <= i < n) as Hr.
  { apply load_Val in Hi as [? Hi]. apply lookup_lt_Some in Hi. unfold zlen in *. lia. }
  assert (exists m, 0 <= m < n /\ (a + m) mod n = i) as (m & Hm & Hm2).
  { exists ((i - a) mod n). split; [by apply Z.mod_pos_bound |].
    rewrite Z.add_mod_idemp_r by lia. replace (a + (i - a)) with i by lia. by apply Z.mod_small. }
  assert (forall x, exists e', load es ((a + x) mod n) = Val e') as Hall.
  { intros x. pose proof (Z.mod_pos_bound (a + x) n).
    destruct (wp_elim (load es ((a + x) mod n)) (fun _ => True)) as (e' & ? & _); [| by exists e'].
    apply wp_load; [lia | done]. }
  destruct (least_true (fun x => match load es ((a + x) mod n) with Val e => P e | Trap _ => false end) m)
    as (d & Hd & HPd & Hbefore); [lia | by rewrite Hm2, Hi |].
  destruct (Hall d) as [e' He']. rewrite He' in HPd.
  exists d, e'. split_and!; [lia | lia | done | done |].
  intros x Hx. destruct (Hall x) as [e'' He'']. exists e''. split; [done |].
  specialize (Hbefore x Hx). by rewrite He'' in Hbefore.
Qed.

(** What the stopping test of each loop looks at. *)
Definition lookup_stop (itemHash : Z) (cmp : T -> bool) e : bool :=
  match data e with
  | SNull => true
  | STomb => false
  | SItem it => (hashValue e =? itemHash) && cmp it
  end.
Definition remove_stop (item : T) e : bool :=
  match data e with SNull => true | STomb => false | SItem it => bool_decide (it = item) end.

(** The wrap-around step all loops share. *)
Lemma wrap_next {B} n i (edge : B) (k : Z -> B) :
  0 <= i < n -> n <> 1 ->
  (if i + 1 =? n then if n =? 1 then edge else k 0 else k (i + 1)) = k ((i + 1) mod n).
Proof.
  intros Hi Hn. rewrite <- wrap_step by done. rewrite (proj2 (Z.eqb_neq n 1)) by done.
  by destruct (_ =? n).
Qed.

(** Each loop, started [x] slots after [a], reaches the first stop if its fuel does.
    [loop_next k] takes a step past an entry that is not a stop. *)
Local Ltac loop_next k :=
  cbn [mbind outcome_bind]; cbv zeta;
  match goal with
  | |- context [if ?i + 1 =? ?n then (if ?n =? 1 then ?edge else _) else _] =>
      let E := fresh in
      pose proof (wrap_next n i edge k ltac:(lia) ltac:(lia)) as E; cbv beta in E;
      rewrite mod_step in E by lia; rewrite E; clear E
  end.

Lemma probe_first t h cmp a d e x fuel :
  first_at (pEntries t) (tableSize t) a (lookup_stop h cmp) d e ->
  0 <= x <= d -> (Z.to_nat (d - x) < fuel)%nat ->
  probe fuel t h cmp ((a + x) mod tableSize t) = Val ((a + d) mod tableSize t).
Proof.
  intros (Hd & He & HP & Hbefore) Hx. revert x Hx.
  induction fuel as [| fuel IH]; intros x Hx Hf; [lia |]. cbn [probe].
  unfold lookup_stop in *. pose proof (Z.mod_pos_bound (a + x) (tableSize t)).
  destruct (decide (x = d)) as [-> | Hne].
  - rewrite He. cbn [mbind outcome_bind]. destruct (data e); [done | done | by rewrite HP].
  - destruct (Hbefore x) as (e' & He' & HP'); [lia |]. rewrite He'.
    loop_next (probe fuel t h cmp). rewrite IH by lia.
    destruct (data e'); [done | done | by rewrite HP'].
Qed.

Lemma count_probe_first t h cmp a d e x fuel count :
  first_at (pEntries t) (tableSize t) a (lookup_stop h cmp) d e ->
  0 <= x <= d -> (Z.to_nat (d - x) < fuel)%nat ->
  count_probe fuel t h cmp ((a + x) mod tableSize t) count =
    Val ((a + d) mod tableSize t, count + (d - x)).
Proof.
  intros (Hd & He & HP & Hbefore) Hx. revert x count Hx.
  induction fuel as [| fuel IH]; intros x count Hx Hf; [lia |]. cbn [count_probe].
  unfold lookup_stop in *. pose proof (Z.mod_pos_bound (a + x) (tableSize t)).
  destruct (decide (x = d)) as [-> | Hne].
  - rewrite He, Z.sub_diag, Z.add_0_r. cbn [mbind outcome_bind].
    destruct (data e); [done | done | by rewrite HP].
  - destruct (Hbefore x) as (e' & He' & HP'); [lia |]. rewrite He'.
    loop_next (fun i => count_probe fuel t h cmp i (count + 1)). rewrite IH by lia.
    replace (count + 1 + (d - (x + 1))) with (count + (d - x)) by lia.
    destruct (data e'); [done | done | by rewrite HP'].
Qed.

Lemma remove_probe_first t item a d e x fuel :
  first_at (pEntries t) (tableSize t) a (remove_stop item) d e ->
  0 <= x <= d -> (Z.to_nat (d - x) < fuel)%nat ->
  remove_probe fuel t item ((a + x) mod tableSize t) =
    Val (if is_null (data e) then None else Some ((a + d) mod tableSize t)).
Proof.
  intros (Hd & He & HP & Hbefore) Hx. revert x Hx.
  induction fuel as [| fuel IH]; intros x Hx Hf; [lia |]. cbn [remove_probe].
  unfold remove_stop in *. pose proof (Z.mod_pos_bound (a + x) (tableSize t)).
  destruct (decide (x = d)) as [-> | Hne].
  - rewrite He. cbn [mbind outcome_bind]. destruct (data e); [done | done |].
    rewrite bool_decide_eq_true in HP. by rewrite decide_True.
  - destruct (Hbefore x) as (e' & He' & HP'); [lia |]. rewrite He'.
    loop_next (remove_probe fuel t item). rewrite IH by lia.
    destruct (data e'); [done | done |].
    rewrite bool_decide_eq_false in HP'. by rewrite decide_False.
Qed.

Lemma probe_free_first news n a d e x fuel :
  (exists k, 0 <= k <= 28 /\ n = 2 ^ k) ->
  first_at news n a (fun e => is_null (data e)) d e ->
  0 <= x <= d -> (Z.to_nat (d - x) < fuel)%nat ->
  probe_free fuel news n ((a + x) mod n) = Val ((a + d) mod n).
Proof.
  intros Hn (Hd & He & HP & Hbefore) Hx. revert x Hx.
  induction fuel as [| fuel IH]; intros x Hx Hf; [lia |]. cbn [probe_free].
  destruct (decide (x = d)) as [-> | Hne].
  - rewrite He. cbn [mbind outcome_bind]. by rewrite HP.
  - destruct (Hbefore x) as (e' & He' & HP'); [lia |]. rewrite He'. cbn [mbind outcome_bind].
    rewrite HP', land_mod, mod_step by (done || lia). apply IH; lia.
Qed.

(** A table that satisfies the invariant has a stop for every probe. *)
Lemma ok_size t : ht_ok t -> 0 < tableSize t < 2 ^ 29.
Proof.
  intros Hok. destruct (ok_pow2 t Hok) as (k & Hk & ->).
  split; [apply Z.pow_pos_nonneg; lia | apply Z.pow_lt_mono_r; lia].
Qed.

Lemma ok_first t a P :
  ht_ok t -> (forall e, is_null (data e) = true -> P e = true) ->
  exists d e, first_at (pEntries t) (tableSize t) a P d e.
Proof.
  intros Hok HP. pose proof (ok_size t Hok).
  destruct (free_slot (pEntries t)) as (i & e & Hi & He).
  - rewrite <- (ok_entries t Hok), <- (ok_dead t Hok), (ok_length t Hok).
    pose proof (ok_load t Hok). unfold LOAD_DENOM, LOAD_NUMER in *. lia.
  - apply (first_at_exists _ _ a P i e); auto; [lia | apply Hok].
Qed.

(** Nothing live beyond the first stop: an entry with hash [h] that the stop test
    accepts sits at or before every NULL on its chain. *)
Lemma first_at_null_none es n h P d e :
  reach es n -> 0 < n -> first_at es n h P d e -> data e = SNull ->
  (forall e, is_null (data e) = true -> P e = true) ->
  forall i e' it, load es i = Val e' -> data e' = SItem it -> hashValue e' = h -> P e' = false.
Proof.
  intros Hr Hn (Hd & He & _ & Hbefore) Hnull HP i e' it Hi Hit Hh.
  destruct (Hr i e' it Hi Hit) as (d' & Hd' & Hid & Hocc). rewrite Hh in *.
  destruct (decide (d' < d)) as [Hlt |].
  - destruct (Hbefore d') as (e'' & He'' & ?); [lia |]. congruence.
  - destruct (decide (d' = d)) as [-> |]; [congruence |].
    destruct (Hocc d) as (e'' & He'' & Hn''); [lia |].
    rewrite He in He''. injection He'' as <-. by rewrite Hnull in Hn''.
Qed.
End Probing.

(** ** Changing a slot *)

Section Update.
Context {T : Type} `{EqDecision T}.
Implicit Types (t : HashTable T) (es : list (HashEntry T)) (e : HashEntry T).

Lemma reach_insert es n i e x :
  load es i = Val e -> is_null (data x) = false -> reach es n ->
  (forall it, data x = SItem it -> exists d, 0 <= d < n /\ i = (hashValue x + d) mod n /\
     forall d', 0 <= d' < d -> occupied es ((hashValue x + d') mod n)) ->
  reach (<[Z.to_nat i := x]> es) n.
Proof.
  intros Hi Hx Hr Hnew. pose proof (load_range _ _ _ Hi) as Hrange.
  assert (forall j, occupied es j -> occupied (<[Z.to_nat i := x]> es) j) as Hocc.
  { intros j (e' & He' & Hn'). unfold occupied. rewrite load_insert by done.
    case_decide; eauto. }
  intros j e' it Hj Hit. rewrite load_insert in Hj by done. case_decide as Hji.
  - injection Hj as <-. subst j. destruct (Hnew it Hit) as (d & ? & ? & ?). exists d. auto.
  - destruct (Hr j e' it Hj Hit) as (d & ? & ? & ?). exists d. auto.
Qed.

Lemma reach_empty n m : reach (calloc_entries (T := T) m) n.
Proof.
  intros i e it [_ Hi]%load_Val Hit. unfold calloc_entries in Hi.
  apply lookup_replicate in Hi as [-> _]. done.
Qed.

Lemma live_calloc m : live (calloc_entries (T := T) m) = [].
Proof. unfold calloc_entries. by induction (Z.to_nat m). Qed.
Lemma tombs_calloc m : tombs (calloc_entries (T := T) m) = [].
Proof. unfold calloc_entries. by induction (Z.to_nat m). Qed.
Lemma zlen_calloc m : 0 <= m -> zlen (calloc_entries (T := T) m) = m.
Proof. intros. unfold calloc_entries, zlen. rewrite length_replicate. lia. Qed.

(** The state of the new array while [resizeHash] fills it. *)
Record fresh_ok (n : Z) es : Prop := {
  fresh_len : zlen es = n;
  fresh_tombs : tombs es = [];
  fresh_hash : Forall (fun e => 0 <= hashValue e < 2 ^ 32) es;
  fresh_reach : reach es n
}.

Lemma i32_mod h n : (exists k, 0 <= k <= 28 /\ n = 2 ^ k) -> i32 h mod n = h mod n.
Proof.
  intros (k & Hk & ->).
  assert (2 ^ 32 = 2 ^ (32 - k) * 2 ^ k) as E by (rewrite <- Z.pow_add_r by lia; f_equal; lia).
  assert (0 < 2 ^ k) by (apply Z.pow_pos_nonneg; lia).
  assert ((h mod 2 ^ 32) mod 2 ^ k = h mod 2 ^ k) as E2.
  { apply Z.mod_mod_divide. by exists (2 ^ (32 - k)). }
  unfold wraps. destruct (_ <? _); [done |].
  rewrite E at 2. by rewrite <- Z.add_opp_r, <- Z.mul_opp_l, Z_mod_plus_full.
Qed.

Lemma u32_i32 h : 0 <= h < 2 ^ 32 -> u32 (i32 h) = h.
Proof.
  intros Hh. unfold wraps, wrapu. rewrite (Z.mod_small h) by lia.
  destruct (Z.ltb_spec h (2 ^ (32 - 1))); [by apply Z.mod_small |].
  symmetry. apply (Z.mod_unique_pos _ _ (-1)); lia.
Qed.

Lemma reinsert_spec n e news :
  (exists k, 0 <= k <= 28 /\ n = 2 ^ k) -> fresh_ok n news -> 0 <= hashValue e < 2 ^ 32 ->
  zlen (live news) + zlen (live [e]) < n ->
  wp (reinsert n e news) (fun news' => fresh_ok n news' /\ live news' ≡ₚ live [e] ++ live news).
Proof.
  intros Hn [Hl Ht Hh Hr] He Hlt. unfold reinsert. rewrite live_one in *.
  assert (0 < n) by (destruct Hn as (k & ? & ->); apply Z.pow_pos_nonneg; lia).
  destruct (data e) as [| | it] eqn:Hd; [by split | by split |].
  destruct (free_slot news) as (i0 & e0 & Hi0 & He0).
  { rewrite Ht, Hl. unfold zlen in *. simpl in *. lia. }
  destruct (first_at_exists news n (hashValue e) (fun e => is_null (data e)) i0 e0) as (d & e' & Hf); auto.
  rewrite land_mod, i32_mod by done. apply wp_bind.
  replace (hashValue e mod n) with ((hashValue e + 0) mod n) by (f_equal; lia).
  rewrite (probe_free_first _ _ _ d e') by (done || lia || (destruct Hf; lia)).
  destruct Hf as (Hd' & He' & Hnull & Hbefore). rewrite u32_i32 by done.
  pose proof (load_range _ _ _ He') as Hr'. apply wp_val, wp_store; [done |].
  set (x := mkEntry _ _). split; [split |].
  - by rewrite zlen_insert.
  - apply (f_equal length) in Ht. pose proof (tombs_insert news _ e' x He') as E.
    apply Permutation_length in E. rewrite !length_app in E.
    apply length_zero_iff_nil. simpl in *. lia.
  - by apply Forall_insert.
  - apply (reach_insert _ _ _ e'); [done | done | done |]. intros it' _. exists d. split; [lia |]. split; [done |].
    intros d' Hx. destruct (Hbefore d' Hx) as (e'' & ? & ?). by exists e''.
  - pose proof (live_insert news _ e' x He') as E. rewrite !live_one in E.
    destruct (data e'); [| done | done]. by rewrite app_nil_r in E.
Qed.

Lemma reinsert_all_spec n es news :
  (exists k, 0 <= k <= 28 /\ n = 2 ^ k) -> fresh_ok n news ->
  Forall (fun e => 0 <= hashValue e < 2 ^ 32) es ->
  zlen (live news) + zlen (live es) < n ->
  wp (reinsert_all n es news) (fun news' => fresh_ok n news' /\ live news' ≡ₚ live es ++ live news).
Proof.
  intros Hn Hf Hh. revert news Hf. induction Hh as [| e es He _ IH]; intros news Hf Hlt; [by split |].
  cbn [reinsert_all]. change (e :: es) with ([e] ++ es) in *. rewrite live_app, zlen_app in Hlt.
  pose proof (zlen_nonneg (live es)).
  apply wp_bind. eapply wp_mono; [apply reinsert_spec; auto; lia |].
  intros news1 [Hf1 Hl1]. eapply wp_mono; [apply IH; auto |].
  - apply Permutation_length in Hl1. rewrite length_app in Hl1. unfold zlen in *. lia.
  - intros news2 [Hf2 Hl2]. split; [done |]. rewrite Hl2, Hl1, live_app. solve_Permutation.
Qed.
End Update.

(** ** The operations against the abstract state *)

Section Correct.
Context {T : Type} `{EqDecision T}.
Implicit Types (t : HashTable T) (es : list (HashEntry T)) (e : HashEntry T).
Variable calloc : Z -> bool.

Lemma null_stop h cmp e : is_null (data e) = true -> lookup_stop (T := T) h cmp e = true.
Proof. unfold lookup_stop. by destruct (data e). Qed.
Lemma null_remove_stop item e : is_null (data e) = true -> remove_stop (T := T) item e = true.
Proof. unfold remove_stop. by destruct (data e). Qed.

(** Running the probe of a lookup: it stops on a matching live entry, or on a NULL
    and then no live entry matches. *)
Lemma probe_ok t h cmp :
  ht_ok t -> exists i e, load (pEntries t) i = Val e /\
    probe (Z.to_nat (tableSize t)) t h cmp (Z.land h (tableSize t - 1)) = Val i /\
    ((exists it, data e = SItem it /\ hashValue e = h /\ cmp it = true) \/
     (data e = SNull /\ (forall it, (h, it) ∈ live (pEntries t) -> cmp it = false) /\
      exists d, 0 <= d < tableSize t /\ i = (h + d) mod tableSize t /\
        forall d', 0 <= d' < d -> occupied (pEntries t) ((h + d') mod tableSize t))).
Proof.
  intros Hok. pose proof (ok_size t Hok) as Hn.
  destruct (ok_first t h (lookup_stop h cmp) Hok) as (d & e & Hf); [apply null_stop |].
  pose proof Hf as (Hd & He & HP & Hbefore).
  exists ((h + d) mod tableSize t), e. split_and!; [done | |].
  - rewrite land_mod by apply (ok_pow2 t Hok).
    replace (h mod tableSize t) with ((h + 0) mod tableSize t) by (f_equal; lia).
    apply (probe_first _ _ _ _ _ e); [done | lia | lia].
  - unfold lookup_stop in HP. destruct (data e) as [| | it] eqn:Hde; [right | done | left].
    + split_and!; [done | |].
      * intros it (i & e' & Hi & Hit & Hh)%live_elem.
        pose proof (first_at_null_none _ _ _ _ _ _ (ok_reach t Hok) ltac:(lia) Hf Hde
          (null_stop h cmp) i e' it Hi Hit Hh) as HF.
        unfold lookup_stop in HF. rewrite Hit, Hh, Z.eqb_refl in HF. done.
      * exists d. split_and!; [lia | lia | done |]. intros d' Hd'.
        destruct (Hbefore d' Hd') as (e' & He' & Hs). exists e'. split; [done |].
        unfold lookup_stop in Hs. by destruct (data e').
    + exists it. apply andb_true_iff in HP as [Hh Hc]. apply Z.eqb_eq in Hh. done.
Qed.

Lemma lookup_none_ok t h cmp :
  ht_ok t -> wp (mzHashTableLookup calloc t h cmp None) (fun '(r, t') => t' = t /\
    match r with
    | Some it => (h, it) ∈ live (pEntries t) /\ cmp it = true
    | None => forall it, (h, it) ∈ live (pEntries t) -> cmp it = false
    end).
Proof.
  intros Hok. pose proof (ok_size t Hok). unfold mzHashTableLookup.
  rewrite (proj2 (Z.ltb_lt 0 (tableSize t))) by lia.
  destruct (probe_ok t h cmp Hok) as (i & e & Hi & -> & Hcase). cbn [mbind outcome_bind].
  rewrite Hi. cbn [mbind outcome_bind].
  destruct Hcase as [(it & Hd & Hh & Hc) | (Hd & Hnone & _)]; rewrite Hd; simpl.
  - split_and!; [done | | done]. apply live_elem. eauto.
  - done.
Qed.

(** The table after its slot [i], found free by the probe, is filled. *)
Lemma fill_slot t i e h item :
  ht_ok t -> load (pEntries t) i = Val e -> data e = SNull -> 0 <= h < 2 ^ 32 ->
  (exists d, 0 <= d < tableSize t /\ i = (h + d) mod tableSize t /\
        forall d', 0 <= d' < d -> occupied (pEntries t) ((h + d') mod tableSize t)) ->
  let es := <[Z.to_nat i := mkEntry h (SItem item)]> (pEntries t) in
  live es ≡ₚ (h, item) :: live (pEntries t) /\ zlen (tombs es) = zlen (tombs (pEntries t)) /\
  zlen es = tableSize t /\ Forall (fun e => 0 <= hashValue e < 2 ^ 32) es /\ reach es (tableSize t).
Proof.
  intros Hok Hi Hd Hh Hchain es. set (x := mkEntry h (SItem item)) in *. split_and!.
  - pose proof (live_insert _ _ _ x Hi) as E. rewrite !live_one, Hd in E.
    by rewrite app_nil_r in E.
  - pose proof (tombs_insert _ _ _ x Hi) as E. apply Permutation_length in E.
    rewrite !length_app in E. unfold tombs at 2 3 in E. rewrite !filter_cons in E.
    rewrite Hd in E. simpl in E. unfold zlen, es. lia.
  - unfold es. rewrite zlen_insert. apply Hok.
  - by apply Forall_insert; [apply Hok |].
  - apply (reach_insert _ _ _ e); [done | done | apply Hok |]. intros it _. exact Hchain.
Qed.

Lemma perm_zlen {A} (l k : list A) : l ≡ₚ k -> zlen l = zlen k.
Proof. intros E. unfold zlen. by rewrite E. Qed.

Lemma resize_ok t :
  (exists k, 0 <= k <= 27 /\ tableSize t = 2 ^ k) ->
  numEntries t = zlen (live (pEntries t)) -> numDeadEntries t = zlen (tombs (pEntries t)) ->
  numEntries t * LOAD_DENOM <= tableSize t * 2 * LOAD_NUMER ->
  Forall (fun e => 0 <= hashValue e < 2 ^ 32) (pEntries t) ->
  calloc (tableSize t * 2) = true ->
  wp (resizeHash calloc t (tableSize t * 2)) (fun '(ok, t') => ok = true /\ ht_ok t' /\
    tableSize t' = tableSize t * 2 /\ numDeadEntries t' = 0 /\ live (pEntries t') ≡ₚ live (pEntries t)).
Proof.
  intros (k & Hk & Hn) He Hd Hload Hh Hc. unfold resizeHash, LOAD_DENOM, LOAD_NUMER in *.
  assert (0 < tableSize t) by (rewrite Hn; apply Z.pow_pos_nonneg; lia).
  change (countTombStones t) with (zlen (tombs (pEntries t))). rewrite Hd, Z.eqb_refl, Hc.
  assert (exists k, 0 <= k <= 28 /\ tableSize t * 2 = 2 ^ k) as Hp.
  { exists (k + 1). split; [lia |]. rewrite Hn, Z.pow_add_r by lia. done. }
  apply wp_bind. eapply wp_mono; [apply reinsert_all_spec; [done | | done |] |].
  - split; [apply zlen_calloc; lia | apply tombs_calloc | | apply reach_empty].
    unfold calloc_entries. apply Forall_replicate. simpl. lia.
  - rewrite live_calloc, <- He. change (zlen []) with 0. lia.
  - intros news [[Hl Ht Hh' Hr] Hlive]. rewrite live_calloc, app_nil_r in Hlive.
    unfold countTombStones. cbn [pEntries]. fold (tombs news). rewrite Ht. simpl.
    split_and!; [done | split; simpl | done | done | done]; try done.
    + by rewrite He, (perm_zlen _ _ Hlive).
    + by rewrite Ht.
    + unfold LOAD_DENOM, LOAD_NUMER. lia.
Qed.
(** Adding: a matching entry is returned and the table is unchanged, or the item is
    added and the table, possibly doubled, stays well formed. *)
Lemma lookup_add_ok t h cmp item :
  ht_ok t -> 0 <= h < 2 ^ 32 ->
  ((numEntries t + 1 + numDeadEntries t) * LOAD_DENOM <= tableSize t * LOAD_NUMER \/
   (tableSize t <= 2 ^ 27 /\ calloc (tableSize t * 2) = true)) ->
  wp (mzHashTableLookup calloc t h cmp (Some item)) (fun '(r, t') => ht_ok t' /\
    ((exists it, r = Some it /\ t' = t /\ (h, it) ∈ live (pEntries t) /\ cmp it = true) \/
     (r = Some item /\ (forall it, (h, it) ∈ live (pEntries t) -> cmp it = false) /\
      live (pEntries t') ≡ₚ (h, item) :: live (pEntries t) /\
      numDeadEntries t' <= numDeadEntries t /\ tableSize t' = (if (numEntries t + 1 + numDeadEntries t) * LOAD_DENOM <=? tableSize t * LOAD_NUMER
        then tableSize t else tableSize t * 2)))).
Proof.
  intros Hok Hh Hroom. pose proof (ok_size t Hok) as Hn. unfold mzHashTableLookup.
  rewrite (proj2 (Z.ltb_lt 0 (tableSize t))) by lia.
  destruct (probe_ok t h cmp Hok) as (i & e & Hi & -> & Hcase). cbn [mbind outcome_bind].
  rewrite Hi. cbn [mbind outcome_bind].
  destruct Hcase as [(it & Hd & Hhe & Hcmp) | (Hd & Hnone & Hchain)]; rewrite Hd.
  { simpl. split; [done |]. left. exists it. split_and!; auto. apply live_elem. eauto. }
  destruct (fill_slot t i e h item Hok Hi Hd Hh Hchain) as (Hlive & Htomb & Hlen & Hhash & Hreach).
  set (es := <[Z.to_nat i := mkEntry h (SItem item)]> (pEntries t)) in *.
  pose proof (ok_load t Hok) as Hload. pose proof (ok_entries t Hok) as Hne.
  pose proof (ok_dead t Hok) as Hnd. pose proof (zlen_nonneg (live (pEntries t))).
  pose proof (zlen_nonneg (tombs (pEntries t))).
  assert (zlen (live es) = numEntries t + 1) as Hne'.
  { rewrite (perm_zlen _ _ Hlive), zlen_cons. lia. }
  unfold LOAD_DENOM, LOAD_NUMER in *.
  apply wp_bind, wp_store; [by apply load_range in Hi |]. fold es.
  cbn [numEntries numDeadEntries tableSize].
  assert (tableSize t <= 2 ^ 28).
  { destruct (ok_pow2 t Hok) as (k & Hk & ->). apply Z.pow_le_mono_r; lia. }
  do 4 (apply wp_bind, wp_c_int; [lia |]).
  apply wp_bind. destruct (Z.ltb_spec (tableSize t * 5) ((numEntries t + 1 + numDeadEntries t) * 8)).
  - destruct Hroom as [? | [Hmax Hc]]; [lia |]. apply wp_bind, wp_c_int; [lia |]. apply wp_bind.
    set (t1 := mkTable _ _ _ _ _). change (tableSize t) with (tableSize t1).
    eapply wp_mono; [apply (resize_ok t1) |]; simpl; auto.
    + destruct (ok_pow2 t Hok) as (k & Hk & E). exists k. rewrite E in *. split; [| done].
      split; [lia |]. apply (Z.pow_le_mono_r_iff 2); lia.
    + lia.
    + unfold LOAD_DENOM, LOAD_NUMER. lia.
    + intros [ok t2] (-> & Hok2 & Hs2 & Hd2 & Hl2). cbn [wp].
      pose proof (ok_load t2 Hok2) as Hload2. pose proof (ok_dead t2 Hok2).
      pose proof (zlen_nonneg (tombs (pEntries t2))). unfold LOAD_DENOM, LOAD_NUMER in *.
      rewrite (proj2 (Z.ltb_lt _ _)) by (simpl in Hs2; lia). simpl.
      split; [done |]. right. split_and!; [done | done | by rewrite Hl2 | lia |].
      by rewrite (proj2 (Z.leb_gt _ _)) by lia.
  - simpl. rewrite (proj2 (Z.ltb_lt _ _)) by lia. simpl. split.
    + split; simpl; auto; try apply Hok; unfold LOAD_DENOM, LOAD_NUMER; lia.
    + right. split_and!; [done | done | done | simpl; lia |]. by rewrite (proj2 (Z.leb_le _ _)) by lia.
Qed.

(** Removing: an item stored under this hash is found and becomes a tombstone; [false]
    means that it is not stored under this hash. *)
Lemma remove_ok t h item :
  ht_ok t -> wp (mzHashTableRemove t h item) (fun '(r, t') => ht_ok t' /\ tableSize t' = tableSize t /\
    if r then exists h', live (pEntries t) ≡ₚ (h', item) :: live (pEntries t')
    else t' = t /\ (h, item) ∉ live (pEntries t)).
Proof.
  intros Hok. pose proof (ok_size t Hok) as Hn. unfold mzHashTableRemove.
  rewrite (proj2 (Z.ltb_lt 0 (tableSize t))) by lia.
  destruct (ok_first t h (remove_stop item) Hok) as (d & e & Hf); [apply null_remove_stop |].
  rewrite land_mod by apply (ok_pow2 t Hok).
  replace (h mod tableSize t) with ((h + 0) mod tableSize t) by (f_equal; lia).
  pose proof Hf as (Hd & He & HP & Hbefore).
  rewrite (remove_probe_first _ _ _ _ _ _ _ Hf) by lia. cbn [mbind outcome_bind].
  unfold remove_stop in HP. destruct (data e) as [| | it] eqn:Hde; [| done |]; simpl.
  - split_and!; [done | done | done |]. intros (i & e' & Hi & Hit & Hh)%live_elem.
    pose proof (first_at_null_none _ _ _ _ _ _ (ok_reach t Hok) ltac:(lia) Hf Hde
      (null_remove_stop item) i e' item Hi Hit Hh) as HF.
    unfold remove_stop in HF. rewrite Hit in HF. by apply bool_decide_eq_false in HF.
  - apply bool_decide_eq_true in HP as ->. rewrite He. cbn [mbind outcome_bind].
    apply wp_bind, wp_store; [by apply load_range in He |].
    set (x := mkEntry (hashValue e) STomb).
    pose proof (live_insert _ _ _ x He) as El. pose proof (tombs_insert _ _ _ x He) as Et.
    rewrite !live_one, Hde in El. simpl in El. apply Permutation_length in Et.
    rewrite !length_app in Et. unfold tombs at 2 3 in Et. rewrite !filter_cons, Hde in Et. simpl in Et.
    set (es := <[_ := x]> _) in *. rewrite Permutation_app_comm in El. simpl in El.
    pose proof (perm_zlen _ _ El) as El'. rewrite zlen_cons in El'.
    pose proof (ok_load t Hok). pose proof (ok_entries t Hok). pose proof (ok_dead t Hok).
    pose proof (zlen_nonneg (live es)). pose proof (zlen_nonneg (tombs (pEntries t))).
    assert (zlen (tombs es) = numDeadEntries t + 1) by (unfold zlen in *; lia).
    unfold LOAD_DENOM, LOAD_NUMER in *.
    do 2 (apply wp_bind, wp_c_int; [lia |]). simpl. split_and!; [split; simpl | done |].
    + apply Hok.
    + unfold es. rewrite zlen_insert. apply Hok.
    + lia.
    + lia.
    + unfold LOAD_DENOM, LOAD_NUMER. lia.
    + apply Forall_insert; [apply Hok |]. simpl.
      eapply (Forall_lookup_1 _ _ _ _ (ok_hash t Hok)). by apply load_Val in He as [_ He].
    + by apply (reach_insert _ _ _ e); [done | done | apply Hok |].
    + by exists (hashValue e).
Qed.

(** A table made for [n] items, within the limits of [int]. *)
Lemma create_ok malloc_ok n free :
  1 <= n <= 2 ^ 28 ->
  wp (mzHashTableCreate (T := T) calloc malloc_ok n free) (fun r =>
    match r with
    | Some t => ht_ok t /\ n <= tableSize t < 2 * n /\ live (pEntries t) = [] /\ numDeadEntries t = 0
    | None => malloc_ok = false \/ exists m, calloc m = false
    end).
Proof.
  intros Hn. unfold mzHashTableCreate. rewrite (proj2 (Z.ltb_lt 0 n)) by lia.
  destruct malloc_ok; [simpl | by left].
  rewrite wrapu_id, roundUpPower2_log2 by lia. rewrite (proj2 (Z.leb_le n (2 ^ 31))) by lia.
  assert (0 <= Z.log2_up n <= 28).
  { split; [apply Z.log2_up_nonneg |]. apply Z.log2_up_le_pow2; lia. }
  assert (n <= 2 ^ Z.log2_up n < 2 * n).
  { destruct (decide (n = 1)) as [-> |]; [done |]. pose proof (Z.log2_up_spec n ltac:(lia)) as [H1 H2].
    split; [done |]. replace (Z.log2_up n) with (Z.succ (Z.pred (Z.log2_up n))) by lia.
    rewrite Z.pow_succ_r; [lia |]. assert (0 < Z.log2_up n) by (apply Z.log2_up_pos; lia). lia. }
  rewrite wraps_id by lia. destruct (calloc _) eqn:Hc; simpl; [| eauto].
  split_and!; [| simpl; lia | simpl; lia | apply live_calloc | done].
  split; simpl; rewrite ?live_calloc, ?tombs_calloc; try done.
  - eauto.
  - apply zlen_calloc. lia.
  - unfold LOAD_NUMER. lia.
  - apply Forall_replicate. simpl. lia.
  - apply reach_empty.
Qed.
End Correct.

(** ** Clearing, iterating, counting probes *)

Section Traversal.
Context {T : Type} `{EqDecision T}.
Implicit Types (t : HashTable T) (es : list (HashEntry T)) (e : HashEntry T).

(** What the callback of [mzHashForeach] sees: the items in order, until it answers
    with a nonzero value. *)
Fixpoint visit {A} (l : list T) (func : T -> A -> Z * A) (arg : A) : Z * A :=
  match l with
  | [] => (0, arg)
  | it :: l => let '(val, arg) := func it arg in if val =? 0 then visit l func arg else (val, arg)
  end.

Lemma foreach_visit {A} es (func : T -> A -> Z * A) arg :
  foreach_entries es func arg = visit (live es).*2 func arg.
Proof.
  revert arg. induction es as [| e es IH]; intros arg; [done |].
  change (e :: es) with ([e] ++ es). rewrite live_app, live_one. simpl.
  destruct (data e); simpl; [done | done |]. destruct (func it arg) as [v arg']. by rewrite IH.
Qed.

Lemma iter_collect_suffix t (l : list (HashEntry T)) i fuel :
  0 <= i -> zlen (pEntries t) = tableSize t -> drop (Z.to_nat i) (pEntries t) = l ->
  i <= tableSize t -> (length l <= fuel)%nat ->
  iter_collect fuel t (iter_skip l i) = Val (SItem <$> (live l).*2).
Proof.
  intros Hi Hlen. revert i fuel Hi. induction l as [| e l IH]; intros i fuel Hi Hl Hle Hf.
  - assert (i = tableSize t) as ->.
    { apply (f_equal length) in Hl. rewrite length_drop in Hl. unfold zlen in Hlen. simpl in *. lia. }
    cbn [iter_skip]. destruct fuel; cbn [iter_collect]; unfold mzHashIterDone;
      by rewrite (proj2 (Z.leb_le _ _)) by lia.
  - assert (pEntries t !! Z.to_nat i = Some e) as He.
    { rewrite <- (Nat.add_0_r (Z.to_nat i)), <- lookup_drop, Hl. done. }
    assert (drop (Z.to_nat (i + 1)) (pEntries t) = l) as Hl'.
    { replace (Z.to_nat (i + 1)) with (Z.to_nat i + 1)%nat by lia. by rewrite <- drop_drop, Hl. }
    pose proof (lookup_lt_Some _ _ _ He). unfold zlen in Hlen.
    change (e :: l) with ([e] ++ l). rewrite live_app, live_one. simpl iter_skip.
    destruct (data e) as [| | it] eqn:Hd; simpl; [apply IH; simpl in *; (done || lia) .. |].
    destruct fuel as [| fuel]; [simpl in Hf; lia |]. cbn [iter_collect].
    unfold mzHashIterDone, mzHashIterData. rewrite (proj2 (Z.leb_gt _ _)) by lia.
    rewrite (proj2 (Z.leb_le _ _)), (proj2 (Z.ltb_lt _ _)) by lia. simpl.
    rewrite (proj2 (load_Val _ _ e)) by done. simpl. rewrite Hd.
    unfold mzHashIterNext. cbv zeta. rewrite Hl', IH; [done | lia | done | lia | simpl in Hf; lia].
Qed.

Lemma clear_entries_spec free es :
  let '(es', freed) := clear_entries free es in
  live es' = [] /\ tombs es' = [] /\ length es' = length es /\
  freed = (if free then (live es).*2 else []) /\ hashValue <$> es' = hashValue <$> es /\
  Forall (fun e => data e = SNull) es'.
Proof.
  induction es as [| e es IH]; cbn [clear_entries]; [by destruct free; repeat constructor |].
  destruct (clear_entries free es) as [es' freed]. destruct IH as (Hl & Ht & Hn & Hf & Hh & Hd).
  change (e :: es) with ([e] ++ es). rewrite live_app, live_one.
  unfold live, tombs, entry_live in *.
  destruct (data e) as [| | it] eqn:Hde; simpl; rewrite ?Hde, ?filter_cons; simpl; rewrite ?Hde; simpl;
    (split_and!; [done | done | by rewrite Hn | | exact (f_equal (cons (hashValue e)) Hh) | by constructor]);
    subst freed; by destruct free.
Qed.

Lemma clear_ok t : ht_ok t ->
  let '(t', freed) := mzHashTableClear t in
  ht_ok t' /\ live (pEntries t') = [] /\ tableSize t' = tableSize t /\
  freed = (if freeFunc t then (live (pEntries t)).*2 else []).
Proof.
  intros Hok. pose proof (ok_size t Hok). unfold mzHashTableClear.
  pose proof (clear_entries_spec (freeFunc t) (pEntries t)) as Hc.
  destruct (clear_entries (freeFunc t) (pEntries t)) as [es freed].
  destruct Hc as (Hl & Ht & Hn & Hf & Hh & Hd). simpl. split_and!; [split; simpl | done .. ].
  - apply Hok.
  - rewrite <- (ok_length t Hok). unfold zlen. by rewrite Hn.
  - by rewrite Hl.
  - by rewrite Ht.
  - unfold LOAD_NUMER. lia.
  - assert (Forall (fun h => 0 <= h < 2 ^ 32) (hashValue <$> es)) as HF.
    { rewrite Hh. apply Forall_fmap. apply Hok. }
    by apply Forall_fmap in HF.
  - intros i e it [_ Hi]%load_Val Hit. by rewrite (Forall_lookup_1 _ _ _ _ Hd Hi) in Hit.
Qed.

(** [countProbes] is the number of steps past the home slot to the matching entry
    that [probe] finds, and -1 when no live entry matches. *)
Lemma countProbes_ok t h cmp :
  ht_ok t -> wp (countProbes t h cmp) (fun c =>
    if c =? -1 then forall it, (h, it) ∈ live (pEntries t) -> cmp it = false
    else 0 <= c < tableSize t /\ exists e it, load (pEntries t) ((h + c) mod tableSize t) = Val e /\
      data e = SItem it /\ hashValue e = h /\ cmp it = true).
Proof.
  intros Hok. pose proof (ok_size t Hok) as Hn. unfold countProbes.
  rewrite (proj2 (Z.ltb_lt 0 (tableSize t))) by lia.
  destruct (ok_first t h (lookup_stop h cmp) Hok) as (d & e & Hf); [apply null_stop |].
  rewrite land_mod by apply (ok_pow2 t Hok).
  replace (h mod tableSize t) with ((h + 0) mod tableSize t) by (f_equal; lia).
  pose proof Hf as (Hd & He & HP & Hbefore).
  rewrite (count_probe_first _ _ _ _ _ _ _ _ _ Hf) by lia. cbn [mbind outcome_bind].
  rewrite He. cbn [mbind outcome_bind]. replace (0 + (d - 0)) with d by lia.
  unfold lookup_stop in HP. destruct (data e) as [| | it] eqn:Hde; [| done |]; cbn [is_null wp].
  - simpl. intros it (i & e' & Hi & Hit & Hh)%live_elem.
    pose proof (first_at_null_none _ _ _ _ _ _ (ok_reach t Hok) ltac:(lia) Hf Hde
      (null_stop h cmp) i e' it Hi Hit Hh) as HF.
    unfold lookup_stop in HF. rewrite Hit, Hh, Z.eqb_refl in HF. done.
  - rewrite (proj2 (Z.eqb_neq d (-1))) by lia. split; [done |].
    apply andb_true_iff in HP as [Hh Hc]. apply Z.eqb_eq in Hh. eauto 10.
Qed.
End Traversal.

(** ** Properties *)

(** For every nonzero 32-bit argument [roundUpPower2] is the least power of two not
    below it, or 0 when that power does not fit in 32 bits. *)
Theorem roundUpPower2_correct (v : Z) :
  1 <= v < 2 ^ 32 ->
  roundUpPower2 v = (if v <=? 2 ^ 31 then 2 ^ Z.log2_up v else 0) /\
  (v <= 2 ^ 31 -> v <= roundUpPower2 v < 2 * v).
Proof.
  intros Hv. rewrite roundUpPower2_log2 by done. split; [done |]. intros Hle.
  rewrite (proj2 (Z.leb_le _ _)) by lia.
  destruct (decide (v = 1)) as [-> |]; [done |].
  pose proof (Z.log2_up_spec v ltac:(lia)) as [H1 H2]. split; [done |].
  assert (0 < Z.log2_up v) by (apply Z.log2_up_pos; lia).
  replace (Z.log2_up v) with (Z.succ (Z.pred (Z.log2_up v))) by lia.
  rewrite Z.pow_succ_r; lia.
Qed.

Lemma roundUpPower2_correct_witness :
  roundUpPower2 3221225473 = (if 3221225473 <=? 2 ^ 31 then 2 ^ Z.log2_up 3221225473 else 0) /\
  (3221225473 <= 2 ^ 31 -> 3221225473 <= roundUpPower2 3221225473 < 2 * 3221225473).
Proof. apply (roundUpPower2_correct 3221225473). lia. Defined.

(** A table with a live entry, a tombstone on its chain and two free slots. *)
Definition demo_table : HashTable Z :=
  mkTable 4 1 1 [mkEntry 0 SNull; mkEntry 1 STomb; mkEntry 5 (SItem 7); mkEntry 0 SNull] true.

Lemma demo_table_ok : ht_ok demo_table.
Proof.
  split; try done.
  - exists 2. done.
  - by repeat constructor.
  - intros i e it Hi Hit. pose proof (load_range _ _ _ Hi) as Hr. change (zlen (pEntries demo_table)) with 4 in Hr.
    assert (i = 0 \/ i = 1 \/ i = 2 \/ i = 3) as [-> | [-> | [-> | ->]]] by lia;
      injection Hi as <-; simplify_eq/=.
    exists 1. split; [lia |]. split; [done |]. intros d' Hd'. replace d' with 0 by lia.
    exists (mkEntry 1 STomb). done.
Qed.

(** On a well-formed table a lookup that does not add returns, leaves the table
    alone, and finds a live entry with that hash that the comparison accepts whenever
    there is one; otherwise it returns NULL. *)
Theorem mzHashTableLookup_finds {T} `{EqDecision T} (calloc : Z -> bool) (t : HashTable T)
    (h : Z) (cmp : T -> bool) :
  ht_ok t -> wp (mzHashTableLookup calloc t h cmp None) (fun '(r, t') => t' = t /\
    match r with
    | Some it => (h, it) ∈ live (pEntries t) /\ cmp it = true
    | None => forall it, (h, it) ∈ live (pEntries t) -> cmp it = false
    end).
Proof. apply lookup_none_ok. Qed.

Lemma mzHashTableLookup_finds_witness :
  wp (mzHashTableLookup (fun _ => true) demo_table 5 (fun it => it =? 7) None) (fun '(r, t') =>
    t' = demo_table /\
    match r with
    | Some it => (5, it) ∈ live (pEntries demo_table) /\ (it =? 7) = true
    | None => forall it, (5, it) ∈ live (pEntries demo_table) -> (it =? 7) = false
    end).
Proof. apply (mzHashTableLookup_finds (fun _ => true)). apply demo_table_ok. Defined.



(** On a well-formed table [mzHashTableRemove] returns a well-formed table of the
    same size; [true] means that exactly one live pair with that item is gone, [false]
    that the table is unchanged and does not hold the item under that hash. *)
Theorem mzHashTableRemove_removes {T} `{EqDecision T} (t : HashTable T) (h : Z) (item : T) :
  ht_ok t -> wp (mzHashTableRemove t h item) (fun '(r, t') => ht_ok t' /\ tableSize t' = tableSize t /\
    if r then exists h', live (pEntries t) ≡ₚ (h', item) :: live (pEntries t')
    else t' = t /\ (h, item) ∉ live (pEntries t)).
Proof. apply remove_ok. Qed.

Lemma mzHashTableRemove_removes_witness :
  wp (mzHashTableRemove demo_table 5 7) (fun '(r, t') => ht_ok t' /\ tableSize t' = tableSize demo_table /\
    if r then exists h', live (pEntries demo_table) ≡ₚ (h', 7) :: live (pEntries t')
    else t' = demo_table /\ (5, 7) ∉ live (pEntries demo_table)).
Proof. apply (mzHashTableRemove_removes demo_table 5 7). apply demo_table_ok. Defined.

(** On a well-formed table the iterator and [mzHashForeach] visit exactly the live
    items, in array order (the callback until it answers nonzero), and clearing leaves
    an empty well-formed table after giving each live item once to the free function. *)
Theorem hash_traversals_correct {T} `{EqDecision T} (t : HashTable T) :
  ht_ok t ->
  iter_collect (Z.to_nat (tableSize t)) t (mzHashIterBegin t) = Val (SItem <$> (live (pEntries t)).*2) /\
  (forall A (func : T -> A -> Z * A) arg,
    mzHashForeach t func arg = visit (live (pEntries t)).*2 func arg) /\
  (let '(t', freed) := mzHashTableClear t in
   ht_ok t' /\ live (pEntries t') = [] /\ tableSize t' = tableSize t /\
   freed = (if freeFunc t then (live (pEntries t)).*2 else [])).
Proof.
  intros Hok. pose proof (ok_size t Hok). pose proof (ok_length t Hok). split_and!.
  - unfold mzHashIterBegin, mzHashIterNext. apply iter_collect_suffix; auto; [lia .. |].
    unfold zlen in *. lia.
  - intros. apply foreach_visit.
  - by apply clear_ok.
Qed.

Lemma hash_traversals_correct_witness :
  iter_collect 4 demo_table (mzHashIterBegin demo_table) = Val (SItem <$> (live (pEntries demo_table)).*2) /\
  (forall A (func : Z -> A -> Z * A) arg,
    mzHashForeach demo_table func arg = visit (live (pEntries demo_table)).*2 func arg) /\
  (let '(t', freed) := mzHashTableClear demo_table in
   ht_ok t' /\ live (pEntries t') = [] /\ tableSize t' = tableSize demo_table /\
   freed = (if freeFunc demo_table then (live (pEntries demo_table)).*2 else [])).
Proof. apply (hash_traversals_correct demo_table demo_table_ok). Defined.
