(* ===== verification/Zip.v ===== *)
(** * minzip/Zip.c, Zip.h and SysUtil.c: opening an archive and finding entries

    The archive file is mapped into memory; [mem] is the mapped bytes and a pointer
    into the mapping is its offset from [addr].  [parseZipArchive] finds the end of
    central directory record, walks the central directory, keeps the entries sorted by
    name in [pEntries] (binary search and memmove) and indexes them in the hash table
    of Hash.v, whose items are entry indices (the C code stores pointers into
    [pEntries]).  Leaving the loop through [goto bail] is the value [None].

    [long], [size_t] and [uintptr_t] have [word_bits] bits.  The two instances of
    safe_iop's [safe_add] (a library outside the repository) are parameters. *)

From stdpp Require Import base numbers list sorting.
From S2P Require Import Prelude CString Bits Hash.

(** ** Data *)

Definition CENSIG : Z := 0x02014b50.
Definition CENHDR : Z := 46.
Definition CENVEM : Z := 4.
Definition CENHOW : Z := 10.
Definition CENTIM : Z := 12.
Definition CENCRC : Z := 16.
Definition CENSIZ : Z := 20.
Definition CENLEN : Z := 24.
Definition CENNAM : Z := 28.
Definition CENEXT : Z := 30.
Definition CENCOM : Z := 32.
Definition CENATX : Z := 38.
Definition CENOFF : Z := 42.
Definition ENDSIG : Z := 0x06054b50.
Definition ENDHDR : Z := 22.
Definition ENDSUB : Z := 8.
Definition ENDOFF : Z := 16.
Definition LOCSIG : Z := 0x04034b50.
Definition LOCHDR : Z := 30.
Definition LOCNAM : Z := 26.
Definition LOCEXT : Z := 28.
Definition STORED : Z := 0.
Definition DEFLATED : Z := 8.
Definition CENVEM_UNIX : Z := 768.
Definition PATH_MAX : Z := 4096.

Record MemMapping := mkMap {
  addr : Z;
  mlength : Z;
  baseAddr : Z;
  baseLength : Z
}.

Record ZipEntry := mkZipEntry {
  fileNameLen : Z;
  fileName : Z;  (** offset of the name in the mapping *)
  offset : Z;
  compLen : Z;
  uncompLen : Z;
  compression : Z;
  modTime : Z;
  crc32 : Z;
  versionMadeBy : Z;
  externalFileAttributes : Z
}.

(** A fresh entry of the array [calloc] returns. *)
Definition zero_entry : ZipEntry := mkZipEntry 0 0 0 0 0 0 0 0 0 0.

Record ZipArchive := mkArchive {
  fd : Z;
  numZipEntries : Z;
  pZipEntries : option (list ZipEntry);
  pHash : option (HashTable Z);
  za_map : MemMapping
}.

(** What the code acquires from and gives back to the system. *)
Inductive event :=
| EvOpen (fd : Z)
| EvMap (base len : Z)
| EvAllocEntries
| EvAllocHash
| EvClose (fd : Z)
| EvUnmap (base len : Z)
| EvFreeEntries
| EvFreeHash.

#[global] Instance event_eq_dec : EqDecision event.
Proof. solve_decision. Defined.

(** ** Names *)

Definition entry_name (mem : block) (e : ZipEntry) : block := slice mem (fileName e) (fileNameLen e).

Definition hashcmpZipEntry (mem : block) (entry1 entry2 : ZipEntry) : Z :=
  if negb (fileNameLen entry1 =? fileNameLen entry2) then
    i32 (fileNameLen entry1 - fileNameLen entry2)
  else memcmp (entry_name mem entry1) (entry_name mem entry2).

(** The loose item is a C string; [name] is its bytes before the NUL. *)
Definition hashcmpZipName (mem : block) (entry : ZipEntry) (name : block) : Z :=
  let nameLen := u32 (zlen name) in
  if negb (fileNameLen entry =? nameLen) then i32 (fileNameLen entry - nameLen)
  else memcmp (entry_name mem entry) name.

Section Model.
Context `{Arch}.

Fixpoint hash_loop (nameLen : nat) (m : block) (name : Z) (hash : Z) : outcome Z :=
  match nameLen with
  | O => Val hash
  | S nameLen =>
      let* c := load m name in
      hash_loop nameLen m (name + 1) (u32 (u32 (hash * 31) + char_val c))
  end.

(** A negative [int] count would run off the end of the block. *)
Definition computeHash (m : block) (name nameLen : Z) : outcome Z :=
  if nameLen <? 0 then Trap OutOfBounds else hash_loop (Z.to_nat nameLen) m name 2.

Fixpoint valid_chars (n : nat) (m : block) (p : Z) : outcome bool :=
  match n with
  | O => Val true
  | S n =>
      let* c := load m p in
      if (char_val c <? 32) || (127 <=? char_val c) then Val false
      else valid_chars n m (p + 1)
  end.

Definition validFilename (m : block) (fileName fileNameLen : Z) : outcome bool :=
  if PATH_MAX <=? fileNameLen then Val false
  else valid_chars (Z.to_nat fileNameLen) m fileName.

(** ** Parsing *)

(** The backward scan for the end of central directory record. *)
Fixpoint find_eocd (fuel : nat) (mem : block) (ptr : Z) : outcome Z :=
  if ptr <? 0 then Val ptr else
  match fuel with
  | O => Trap NoFuel
  | S fuel =>
      let* b := load mem ptr in
      if b =? Z.land ENDSIG 0xff then
        let* v := get4LE mem ptr in
        if v =? ENDSIG then Val ptr else find_eocd fuel mem (ptr - 1)
      else find_eocd fuel mem (ptr - 1)
  end.

(** How the entry [e] compares with the name being inserted. *)
Definition search_diff (mem : block) (e : ZipEntry) (fileName' fileNameLen' : Z) : outcome Z :=
  let diffLen := if fileNameLen e <? fileNameLen' then fileNameLen e else fileNameLen' in
  let* diff := c_strncmp (Z.to_nat diffLen) mem (fileName e) mem fileName' in
  if diff =? 0 then Val (i32 (u32 (fileNameLen e - fileNameLen'))) else Val diff.

(** The binary search; the result is the final [high]. *)
Fixpoint search_loop (fuel : nat) (mem : block) (ents : list ZipEntry) (fileName fileNameLen low high : Z) :
    outcome Z :=
  if high <? low then Val high else
  match fuel with
  | O => Trap NoFuel
  | S fuel =>
      let* span := c_int 32 (high - low) in
      let* mid := c_int 32 (low + Z.quot span 2) in
      let* e := load ents mid in
      let* diff := search_diff mem e fileName fileNameLen in
      if diff <? 0 then search_loop fuel mem ents fileName fileNameLen (mid + 1) high
      else if 0 <? diff then search_loop fuel mem ents fileName fileNameLen low (mid - 1)
      else Val mid
  end.

(** Make room for the [i]-th entry: the array and the index of its slot. *)
Definition make_room (mem : block) (ents : list ZipEntry) (i fileName fileNameLen : Z) :
    outcome (list ZipEntry * Z) :=
  if 0 <? i then
    let* high := search_loop (Z.to_nat i) mem ents fileName fileNameLen 0 (i - 1) in
    let target := u32 (high + 1) in
    assert* target <=? i in
    let* ents := if negb (target =? i) then array_move ents (target + 1) target (i - target)
                 else Val ents in
    Val (ents, target)
  else Val (ents, 0).

(** safe_iop: [safe_add] at [uintptr_t] gives the sum unless it overflows, at [long]
    (with no destination) whether the sum is representable. *)
Variable safe_add_uintptr : Z -> Z -> option Z.
Variable safe_add_long : Z -> Z -> bool.

(** The offset of the entry's data: its local header is checked first. *)
Definition local_offset (mem : block) (pMap : MemMapping) (localHdrOffset : Z) : outcome (option Z) :=
  match safe_add_uintptr (addr pMap) localHdrOffset with
  | None => Val None
  | Some localHdr =>
      if wrapu word_bits (addr pMap + mlength pMap) <? wrapu word_bits (localHdr + LOCHDR) then Val None
      else
        let p := localHdr - addr pMap in
        let* sig := get4LE mem p in
        if negb (sig =? LOCSIG) then Val None else
        let* nam := get2LE mem (p + LOCNAM) in
        let* ext := get2LE mem (p + LOCEXT) in
        Val (Some (wraps word_bits (u32 (localHdrOffset + LOCHDR + nam + ext))))
  end.

(** One round of the loop over the central directory: the header at [ptr], the
    entries before it in [ents]. *)
Definition parse_entry (mem : block) (pMap : MemMapping) (i : Z) (ents : list ZipEntry) (ptr : Z) :
    outcome (option (list ZipEntry * Z)) :=
  if mlength pMap <? ptr + CENHDR then Val None else
  let* sig := get4LE mem ptr in
  if negb (sig =? CENSIG) then Val None else
  let* localHdrOffset := get4LE mem (ptr + CENOFF) in
  let* nameLen := get2LE mem (ptr + CENNAM) in
  let* extraLen := get2LE mem (ptr + CENEXT) in
  let* commentLen := get2LE mem (ptr + CENCOM) in
  let name := ptr + CENHDR in
  if mlength pMap <? name + nameLen then Val None else
  let* valid := validFilename mem name nameLen in
  if negb valid then Val None else
  let* (ents, target) := make_room mem ents i name nameLen in
  let* comp := get4LE mem (ptr + CENSIZ) in
  let comp := wraps word_bits comp in
  let* uncomp := get4LE mem (ptr + CENLEN) in
  let* how := get2LE mem (ptr + CENHOW) in
  let* tim := get4LE mem (ptr + CENTIM) in
  let* crc := get4LE mem (ptr + CENCRC) in
  let* vem := get2LE mem (ptr + CENVEM) in
  if negb (Z.land vem 0xff00 =? 0) && negb (Z.land vem 0xff00 =? CENVEM_UNIX) then Val None else
  let* atx := get4LE mem (ptr + CENATX) in
  let* off := local_offset mem pMap localHdrOffset in
  match off with
  | None => Val None
  | Some off =>
      if negb (safe_add_long off comp) then Val None else
      if mlength pMap <? wrapu word_bits (wrapu word_bits off + wrapu word_bits comp) then Val None else
      let* ents := store ents target
        (mkZipEntry nameLen name off comp (wraps word_bits uncomp) how (wraps word_bits tim)
           (wraps word_bits crc) vem (wraps word_bits atx)) in
      Val (Some (ents, ptr + CENHDR + nameLen + extraLen + commentLen))
  end.

(** The loop, with [n] rounds to go. *)
Fixpoint parse_entries (n : nat) (mem : block) (pMap : MemMapping) (i : Z) (ents : list ZipEntry) (ptr : Z) :
    outcome (option (list ZipEntry)) :=
  match n with
  | O => Val (Some ents)
  | S n =>
      let* r := parse_entry mem pMap i ents ptr in
      match r with
      | None => Val None
      | Some (ents, ptr) => parse_entries n mem pMap (i + 1) ents ptr
      end
  end.

(** The system's allocator: the table header, hash arrays and the entry array. *)
Variable malloc_ok : bool.
Variable calloc : Z -> bool.
Variable calloc_ents : Z -> bool.

Definition addEntryToHashTable (mem : block) (ents : list ZipEntry) (t : HashTable Z) (i : Z) :
    outcome (HashTable Z) :=
  let* e := load ents i in
  let* itemHash := computeHash mem (fileName e) (fileNameLen e) in
  let* (found, t) := mzHashTableLookup calloc t itemHash
    (fun j => match ents !! Z.to_nat j with
              | Some e' => hashcmpZipEntry mem e' e =? 0
              | None => false
              end) (Some i) in
  Val t.

Fixpoint add_all (n : nat) (mem : block) (ents : list ZipEntry) (t : HashTable Z) (i : Z) :
    outcome (HashTable Z) :=
  match n with
  | O => Val t
  | S n => let* t := addEntryToHashTable mem ents t i in add_all n mem ents t (i + 1)
  end.

(** The signature and the end record: the entry count and the directory's offset. *)
Definition parse_header (mem : block) (pMap : MemMapping) : outcome (option (Z * Z)) :=
  let* val := get4LE mem 0 in
  if val =? ENDSIG then Val None else
  if negb (val =? LOCSIG) then Val None else
  let* ptr := find_eocd (Z.to_nat (mlength pMap)) mem (mlength pMap - ENDHDR) in
  if ptr <? 0 then Val None else
  let* n := get2LE mem (ptr + ENDSUB) in
  let* cdOffset := get4LE mem (ptr + ENDOFF) in
  if (n =? 0) || (mlength pMap <=? cdOffset) then Val None else Val (Some (n, cdOffset)).

(** The archive a failed parse leaves: the table has been freed. *)
Definition parse_bail (a : ZipArchive) (evs : list event) : outcome (bool * ZipArchive * list event) :=
  Val (false, mkArchive (fd a) (numZipEntries a) (pZipEntries a) None (za_map a),
       evs ++ match pHash a with Some _ => [EvFreeHash] | None => [] end).

(** The result, the archive and what was allocated and freed.  The contents of
    [pEntries] after a failure are never read and not recorded. *)
Definition parseZipArchive (mem : block) (pMap : MemMapping) (a : ZipArchive) :
    outcome (bool * ZipArchive * list event) :=
  let* hdr := parse_header mem pMap in
  match hdr with
  | None => parse_bail a []
  | Some (n, cdOffset) =>
      let ents := if calloc_ents n then Some (replicate (Z.to_nat n) zero_entry) else None in
      let* hash := mzHashTableCreate calloc malloc_ok (mzHashSize n) false in
      let a := mkArchive (fd a) n ents hash (za_map a) in
      let evs := (if calloc_ents n then [EvAllocEntries] else []) ++
                 match hash with Some _ => [EvAllocHash] | None => [] end in
      match ents, hash with
      | Some ents, Some hash =>
          let* r := parse_entries (Z.to_nat n) mem pMap 0 ents cdOffset in
          match r with
          | None => parse_bail a evs
          | Some ents =>
              let* hash := add_all (Z.to_nat n) mem ents hash 0 in
              Val (true, mkArchive (fd a) n (Some ents) (Some hash) (za_map a), evs)
          end
      | _, _ => parse_bail a evs
      end
  end.

(** ** Mapping files (SysUtil.c) *)

(** What the system answers: [open], the two [lseek]s, [mmap] and [munmap]. *)
Record sys := mkSys {
  sys_open : Z;
  sys_errno : Z;
  sys_cur : Z;
  sys_end : Z;
  sys_mmap : Z -> Z -> option Z;  (** length, start; the address *)
  sys_munmap : bool
}.

Definition getFileStartAndLength (s : sys) : option (Z * Z) :=
  if (sys_cur s =? -1) || (sys_end s =? -1) then None else
  let len := wrapu word_bits (sys_end s - sys_cur s) in
  if len =? 0 then None else Some (sys_cur s, len).

Definition sysMapFileInShmem (s : sys) : option MemMapping :=
  match getFileStartAndLength s with
  | None => None
  | Some (start, len) =>
      match sys_mmap s len start with
      | None => None
      | Some memPtr => Some (mkMap memPtr len memPtr len)
      end
  end.

Definition DEFAULT_PAGE_SIZE : Z := 4096.

Definition sysMapFileSegmentInShmem (s : sys) (start len : Z) : outcome (option MemMapping) :=
  match getFileStartAndLength s with
  | None => Val None
  | Some (_, fileLength) =>
      let* last := c_int word_bits (start + len) in
      if wraps word_bits fileLength <? last then Val None else
      let adjust := Z.rem start DEFAULT_PAGE_SIZE in
      let actualStart := start - adjust in
      let actualLength := wrapu word_bits (len + adjust) in
      match sys_mmap s actualLength actualStart with
      | None => Val None
      | Some memPtr =>
          Val (Some (mkMap (wrapu word_bits (memPtr + adjust)) (wrapu word_bits len) memPtr actualLength))
      end
  end.

(** Reading the file instead of mapping it; [rd] is what [read] returned. *)
Definition sysCreateAnonShmem (s : sys) (len : Z) : option Z := sys_mmap s len 0.

Definition sysReleaseShmem (s : sys) (pMap : MemMapping) : MemMapping * list event :=
  if (baseAddr pMap =? 0) && (baseLength pMap =? 0) then (pMap, [])
  else if sys_munmap s then
    (mkMap (addr pMap) (mlength pMap) 0 0, [EvUnmap (baseAddr pMap) (baseLength pMap)])
  else (pMap, []).

Definition sysLoadFileInShmem (s : sys) (rd : Z) : option MemMapping * list event :=
  match getFileStartAndLength s with
  | None => (None, [])
  | Some (_, len) =>
      match sysCreateAnonShmem s len with
      | None => (None, [])
      | Some memPtr =>
          let pMap := mkMap memPtr len memPtr len in
          if negb (wrapu word_bits rd =? len) then
            let '(_, evs) := sysReleaseShmem s pMap in (None, EvMap memPtr len :: evs)
          else (Some pMap, [EvMap memPtr len])
      end
  end.

(** ** Opening, closing, finding *)

Definition mzCloseZipArchive (s : sys) (a : ZipArchive) : ZipArchive * list event :=
  let evs1 := if 0 <=? fd a then [EvClose (fd a)] else [] in
  let '(m, evs2) := if negb (addr (za_map a) =? 0) then sysReleaseShmem s (za_map a) else (za_map a, []) in
  let evs3 := match pZipEntries a with Some _ => [EvFreeEntries] | None => [] end in
  let evs4 := match pHash a with Some _ => [EvFreeHash] | None => [] end in
  (mkArchive (-1) (numZipEntries a) None None m, evs1 ++ evs2 ++ evs3 ++ evs4).

Definition zero_map : MemMapping := mkMap 0 0 0 0.

(** The [bail] label of [mzOpenZipArchive]: [m] is the local mapping. *)
Definition open_bail (s : sys) (err : Z) (a : ZipArchive) (m : MemMapping) (evs : list event) :
    Z * ZipArchive * list event :=
  let '(a, evs1) := if negb (err =? 0) then mzCloseZipArchive s a else (a, []) in
  let evs2 := if negb (addr m =? 0) then (sysReleaseShmem s m).2 else [] in
  (err, a, evs ++ evs1 ++ evs2).

(** [file] is the bytes [mmap] shows when it maps the archive. *)
Definition mzOpenZipArchive (s : sys) (file : block) : outcome (Z * ZipArchive * list event) :=
  let a := mkArchive (sys_open s) 0 None None zero_map in
  if fd a <? 0 then
    Val (open_bail s (if negb (sys_errno s =? 0) then sys_errno s else -1) a zero_map [])
  else
    let evs := [EvOpen (fd a)] in
    match sysMapFileInShmem s with
    | None => Val (open_bail s (-1) a zero_map evs)
    | Some m =>
        let evs := evs ++ [EvMap (baseAddr m) (baseLength m)] in
        if mlength m <? ENDHDR then Val (open_bail s (-1) a m evs) else
        let* (ok, a, evs') := parseZipArchive file m a in
        if negb ok then Val (open_bail s (-1) a m (evs ++ evs'))
        else Val (open_bail s 0 (mkArchive (fd a) (numZipEntries a) (pZipEntries a) (pHash a) m)
                    (mkMap 0 (mlength m) (baseAddr m) (baseLength m)) (evs ++ evs'))
    end.

(** [entryName] is a C string in a block of its own; the result is the entry's index. *)
Definition mzFindZipEntry (mem : block) (a : ZipArchive) (entryName : block) : outcome (option Z) :=
  match pHash a, pZipEntries a with
  | Some t, Some ents =>
      let* len := c_strlen entryName 0 in
      let* itemHash := computeHash entryName 0 (i32 len) in
      let name := slice entryName 0 len in
      let* (r, _) := mzHashTableLookup calloc t itemHash
        (fun j => match ents !! Z.to_nat j with
                  | Some e => hashcmpZipName mem e name =? 0
                  | None => false
                  end) None in
      Val r
  | _, _ => Trap NullDeref
  end.

(** ** Accessors (Zip.h) *)

Definition mzZipEntryCount (a : ZipArchive) : Z := numZipEntries a.

(** The entry at [index] as its index, or NULL. *)
Definition mzGetZipEntryAt (a : ZipArchive) (index : Z) : option Z :=
  if index <? numZipEntries a then Some index else None.

Definition mzGetZipEntryIndex (pEntry : Z) : Z := u32 pEntry.
Definition mzGetZipEntryFileName (e : ZipEntry) : Z * Z := (fileName e, fileNameLen e).
Definition mzGetZipEntryOffset (e : ZipEntry) : Z := offset e.
Definition mzGetZipEntryUncompLen (e : ZipEntry) : Z := uncompLen e.
Definition mzGetZipEntryModTime (e : ZipEntry) : Z := modTime e.
Definition mzGetZipEntryCrc32 (e : ZipEntry) : Z := crc32 e.

(** S_ISLNK of the mode in the high half of the attributes ([long >> 16] is
    arithmetic). *)
Definition S_IFMT : Z := 61440.
Definition S_IFLNK : Z := 40960.
Definition mzIsZipEntrySymlink (e : ZipEntry) : bool :=
  if Z.land (versionMadeBy e) 0xff00 =? CENVEM_UNIX then
    Z.land (Z.shiftr (externalFileAttributes e) 16) S_IFMT =? S_IFLNK
  else false.
End Model.

(** ** Well-formed entries *)

Definition printable (c : Z) : Prop := 32 <= c < 127.

(** The entry's name lies in the mapping and passed [validFilename]. *)
Record name_ok (mem : block) (p n : Z) : Prop := {
  nm_ptr : 0 <= p;
  nm_len : 0 <= n < PATH_MAX;
  nm_in : p + n <= zlen mem;
  nm_chars : Forall printable (slice mem p n)
}.

Definition entry_name_ok (mem : block) (e : ZipEntry) : Prop := name_ok mem (fileName e) (fileNameLen e).

Section Sorting.
Context `{Arch} (mem : block).

(** The sign of [search_diff] is the order of the names. *)
Lemma search_diff_spec e p n :
  entry_name_ok mem e -> name_ok mem p n ->
  exists d, search_diff mem e p n = Val d /\ (d ?= 0) = lex (entry_name mem e) (slice mem p n).
Proof.
  intros [He1 He2 He3 He4] [Hp1 Hp2 Hp3 Hp4]. unfold search_diff, PATH_MAX in *.
  set (k := if fileNameLen e <? n then fileNameLen e else n).
  assert (k = Z.min (fileNameLen e) n) as Hk by (unfold k; destruct (Z.ltb_spec (fileNameLen e) n); lia).
  assert (zlen (entry_name mem e) = fileNameLen e) as Hle by (apply zlen_slice; lia).
  assert (zlen (slice mem p n) = n) as Hlp by (apply zlen_slice; lia).
  assert (forall q m, 0 <= q -> 0 <= k <= m -> slice mem q k = take (Z.to_nat k) (slice mem q m)) as Hs.
  { intros. unfold slice. rewrite take_take. f_equal. lia. }
  assert (0 <= k) by lia. rewrite strncmp_memcmp; rewrite ?Z2Nat.id by lia; try lia.
  2: { rewrite (Hs _ (fileNameLen e)) by lia. apply Forall_take.
       eapply Forall_impl; [exact He4 |]. unfold printable. lia. }
  rewrite (Hs (fileName e) (fileNameLen e)), (Hs p n) by lia.
  fold (entry_name mem e). rewrite memcmp_take by lia. cbn [mbind outcome_bind].
  rewrite lex_memcmp, Hle, Hlp.
  destruct (Z.eqb_spec (memcmp (entry_name mem e) (slice mem p n)) 0); eexists; split; try done.
  rewrite wraps_wrapu, wraps_id by lia.
  destruct (Z.compare_spec (fileNameLen e - n) 0), (Z.compare_spec (fileNameLen e) n); lia || done.
Qed.

Definition ent_le (e1 e2 : ZipEntry) : Prop := name_le (entry_name mem e1) (entry_name mem e2).

Lemma sorted_load L i j a b :
  StronglySorted ent_le L -> load L i = Val a -> load L j = Val b -> i <= j -> ent_le a b.
Proof. apply sorted_load_le. intros e. apply name_le_refl. Qed.

(** [h] splits the sorted entries around the name [nm]. *)
Definition splits (L : list ZipEntry) (nm : block) (h : Z) : Prop :=
  -1 <= h < zlen L /\
  (forall j e, load L j = Val e -> j <= h -> name_le (entry_name mem e) nm) /\
  (forall j e, load L j = Val e -> h < j -> name_le nm (entry_name mem e)).

Lemma search_loop_spec L rest p n fuel low high :
  StronglySorted ent_le L -> Forall (entry_name_ok mem) L -> name_ok mem p n -> zlen L < 2 ^ 31 ->
  0 <= low <= high + 1 -> high < zlen L -> high - low < Z.of_nat fuel ->
  (forall j e, load L j = Val e -> j < low -> lex (entry_name mem e) (slice mem p n) = Lt) ->
  (forall j e, load L j = Val e -> high < j -> lex (entry_name mem e) (slice mem p n) = Gt) ->
  wp (search_loop fuel mem (L ++ rest) p n low high) (splits L (slice mem p n)).
Proof.
  intros HS Hok Hnm Hmax. revert low high.
  induction fuel as [| fuel IH]; intros low high Hlow Hhigh Hf Hbelow Habove; simpl;
    destruct (Z.ltb_spec high low) as [Hlt | Hge]; [| lia | |].
  1, 2: simpl; split_and!; [lia | lia | |]; intros j e He Hj; unfold name_le.
  - by rewrite (Hbelow j e He ltac:(lia)).
  - by rewrite lex_antisym, (Habove j e He ltac:(lia)).
  - by rewrite (Hbelow j e He ltac:(lia)).
  - by rewrite lex_antisym, (Habove j e He ltac:(lia)).
  - apply wp_bind, wp_c_int; [lia |].
    pose proof (Z.quot_pos (high - low) 2 ltac:(lia) ltac:(lia)).
    pose proof (Z.quot_le_upper_bound (high - low) 2 (high - low) ltac:(lia) ltac:(lia)).
    apply wp_bind, wp_c_int; [lia |]. set (mid := low + Z.quot (high - low) 2) in *.
    destruct (load_some L mid) as [e He]; [lia |]. rewrite load_app_l, He by lia. cbn [mbind outcome_bind].
    assert (entry_name_ok mem e) as Heok.
    { apply load_Val in He as [_ He]. by eapply Forall_lookup_1. }
    destruct (search_diff_spec e p n Heok Hnm) as (d & -> & Hd). cbn [mbind outcome_bind].
    destruct (Z.ltb_spec d 0) as [Hneg | Hnn]; [| destruct (Z.ltb_spec 0 d) as [Hpos | Hz]].
    + rewrite (proj2 (Z.compare_lt_iff d 0)) in Hd by lia. apply IH; try lia; [| done].
      intros j e' He' Hj. eapply lex_le_lt; [| by symmetry]. eapply sorted_load; eauto. lia.
    + rewrite (proj2 (Z.compare_gt_iff d 0)) in Hd by lia. apply IH; try lia; [done |].
      intros j e' He' Hj. eapply lex_gt_le; [by symmetry |]. eapply (sorted_load L mid j); eauto. lia.
    + rewrite (proj2 (Z.compare_eq_iff d 0)) in Hd by lia. symmetry in Hd. apply lex_eq in Hd. simpl.
      split_and!; [lia | lia | |]; intros j e' He' Hj; rewrite <- Hd.
      * eapply (sorted_load L j mid); eauto.
      * eapply (sorted_load L mid j); eauto. lia.
Qed.

(** Inserting the entry of name [nm] keeps the entries sorted. *)
Lemma sorted_insert A B e :
  StronglySorted ent_le (A ++ B) -> splits (A ++ B) (entry_name mem e) (zlen A - 1) ->
  StronglySorted ent_le (A ++ e :: B).
Proof.
  intros (HAB & HA & HB)%StronglySorted_app (Hr & Hlo & Hhi).
  apply StronglySorted_app. split_and!; [| done | apply StronglySorted_cons; split; [| done]].
  - intros a b Ha [-> | Hb]%elem_of_cons; [| by apply HAB].
    apply list_elem_of_lookup in Ha as [i Hi]. pose proof (lookup_lt_Some _ _ _ Hi).
    apply (Hlo (Z.of_nat i)); [| unfold zlen; lia].
    apply load_Val. split; [lia |]. rewrite Nat2Z.id. by apply lookup_app_l_Some.
  - apply Forall_lookup. intros i b Hi. apply (Hhi (zlen A + Z.of_nat i)); [| unfold zlen; lia].
    apply load_Val. unfold zlen. split; [lia |].
    rewrite lookup_app_r by lia. replace (_ - _)%nat with i by lia. done.
Qed.

Lemma make_room_spec L r rest p n :
  StronglySorted ent_le L -> Forall (entry_name_ok mem) L -> name_ok mem p n -> zlen L < 2 ^ 16 ->
  wp (make_room mem (L ++ r :: rest) (zlen L) p n) (fun '(ents, target) =>
    forall e, entry_name mem e = slice mem p n ->
    exists L', store ents target e = Val (L' ++ rest) /\ L' ≡ₚ e :: L /\ StronglySorted ent_le L').
Proof.
  intros HS Hok Hnm Hmax. unfold make_room. destruct (Z.ltb_spec 0 (zlen L)).
  2: { destruct L; [| rewrite zlen_cons in *; pose proof (zlen_nonneg L); lia].
       simpl. intros e He. exists [e]. split_and!; [done | done |]. repeat constructor. }
  apply wp_bind. eapply wp_mono; [apply search_loop_spec; try done; try lia |].
  { intros j e [Hj _]%load_range. lia. }
  { intros j e [_ Hj]%load_range. lia. }
  intros h Hsplit. pose proof Hsplit as ((Hh1 & Hh2) & _).
  rewrite wrapu_id by lia. rewrite (proj2 (Z.leb_le _ _)) by lia.
  set (A := take (Z.to_nat (h + 1)) L). set (B := drop (Z.to_nat (h + 1)) L).
  assert (L = A ++ B) as E by (symmetry; apply take_drop).
  assert (zlen A = h + 1) as HA by (unfold A, zlen in *; rewrite length_take; lia).
  rewrite E in Hsplit, HS |- *. rewrite zlen_app, <- HA. clearbody A B.
  destruct B as [| b B].
  - rewrite zlen_nil, (proj2 (Z.eqb_eq (zlen A) (zlen A + 0))) by lia. cbn [negb mbind outcome_bind wp].
    intros e He. exists (A ++ [e]). rewrite <- !app_assoc. split_and!.
    + by apply store_app.
    + rewrite app_nil_r. by rewrite Permutation_app_comm.
    + apply sorted_insert; [done |]. rewrite He, HA. by replace (h + 1 - 1) with h by lia.
  - rewrite zlen_cons. pose proof (zlen_nonneg B).
    rewrite (proj2 (Z.eqb_neq (zlen A) (zlen A + (1 + zlen B)))) by lia. cbn [negb].
    unfold array_move. rewrite <- app_assoc.
    rewrite (load_bytes_app A (b :: B) (r :: rest)) by (rewrite ?zlen_cons; lia).
    cbn [mbind outcome_bind].
    replace (A ++ (b :: B) ++ r :: rest) with ((A ++ [b]) ++ (B ++ [r]) ++ rest)
      by (rewrite <- !app_assoc; done).
    rewrite store_bytes_app; [| rewrite zlen_app; done | rewrite zlen_app, !zlen_cons, zlen_nil; lia].
    cbn [mbind outcome_bind wp]. intros e He. exists (A ++ e :: b :: B).
    rewrite <- !app_assoc. split_and!.
    + by apply store_app.
    + by rewrite Permutation_middle.
    + apply sorted_insert; [done |]. rewrite He, HA. by replace (h + 1 - 1) with h by lia.
Qed.
End Sorting.

(** ** Specification of the parser *)

(** Little-endian fields of the mapping. *)
Definition u2 (mem : block) (p : Z) : Z := le_val (slice mem p 2).
Definition u4 (mem : block) (p : Z) : Z := le_val (slice mem p 4).

Lemma u2_range mem p : bytes_ok mem -> 0 <= u2 mem p < 2 ^ 16.
Proof.
  intros Hb. pose proof (le_val_range (slice mem p 2) (bytes_ok_slice _ _ _ Hb)) as Hr.
  assert (zlen (slice mem p 2) <= 2) by (unfold zlen, slice; rewrite length_take; lia).
  unfold u2. split; [lia |]. eapply Z.lt_le_trans; [apply Hr |].
  change (2 ^ 16) with (256 ^ 2). apply Z.pow_le_mono_r; [lia |]. unfold zlen in *. lia.
Qed.

Lemma u4_range mem p : bytes_ok mem -> 0 <= u4 mem p < 2 ^ 32.
Proof.
  intros Hb. pose proof (le_val_range (slice mem p 4) (bytes_ok_slice _ _ _ Hb)) as Hr.
  assert (zlen (slice mem p 4) <= 4) by (unfold zlen, slice; rewrite length_take; lia).
  unfold u4. split; [lia |]. eapply Z.lt_le_trans; [apply Hr |].
  change (2 ^ 32) with (256 ^ 4). apply Z.pow_le_mono_r; [lia |]. unfold zlen in *. lia.
Qed.

Section ParserSpec.
Context `{Arch} (mem : block) (pMap : MemMapping).

(** The mapping holds the bytes, lies in the address space, and no 32-bit offset from
    its start comes within a header of the end of the address space. *)
Record map_ok : Prop := {
  mo_bytes : bytes_ok mem;
  mo_len : zlen mem = mlength pMap;
  mo_addr : 0 <= addr pMap;
  mo_end : addr pMap + mlength pMap < 2 ^ word_bits;
  mo_room : addr pMap + 2 ^ 32 + LOCHDR <= 2 ^ word_bits
}.

Definition safe_add_uintptr_ok (f : Z -> Z -> option Z) : Prop :=
  forall a b, 0 <= a < 2 ^ word_bits -> 0 <= b < 2 ^ word_bits ->
  f a b = if a + b <? 2 ^ word_bits then Some (a + b) else None.
Definition safe_add_long_ok (f : Z -> Z -> bool) : Prop :=
  forall a b, in_int word_bits a = true -> in_int word_bits b = true ->
  f a b = in_int word_bits (a + b).

(** The fields of the central header at [ptr], and the entry they describe. *)
Definition cen_name_len (ptr : Z) : Z := u2 mem (ptr + CENNAM).
Definition cen_next (ptr : Z) : Z :=
  ptr + CENHDR + cen_name_len ptr + u2 mem (ptr + CENEXT) + u2 mem (ptr + CENCOM).
Definition cen_local (ptr : Z) : Z := u4 mem (ptr + CENOFF).
Definition cen_offset (ptr : Z) : Z :=
  let l := cen_local ptr in u32 (l + LOCHDR + u2 mem (l + LOCNAM) + u2 mem (l + LOCEXT)).

Definition cen_entry (ptr : Z) : ZipEntry :=
  mkZipEntry (cen_name_len ptr) (ptr + CENHDR) (cen_offset ptr) (u4 mem (ptr + CENSIZ))
    (u4 mem (ptr + CENLEN)) (u2 mem (ptr + CENHOW)) (u4 mem (ptr + CENTIM))
    (u4 mem (ptr + CENCRC)) (u2 mem (ptr + CENVEM)) (u4 mem (ptr + CENATX)).

(** What the parser demands of a central header. *)
Record cen_ok (ptr : Z) : Prop := {
  co_fits : ptr + CENHDR <= mlength pMap;
  co_sig : u4 mem ptr = CENSIG;
  co_name_in : ptr + CENHDR + cen_name_len ptr <= mlength pMap;
  co_name_len : cen_name_len ptr < PATH_MAX;
  co_name : Forall printable (slice mem (ptr + CENHDR) (cen_name_len ptr));
  co_vem : Z.land (u2 mem (ptr + CENVEM)) 0xff00 = 0 \/ Z.land (u2 mem (ptr + CENVEM)) 0xff00 = CENVEM_UNIX;
  co_local : cen_local ptr + LOCHDR <= mlength pMap;
  co_locsig : u4 mem (cen_local ptr) = LOCSIG;
  co_data : cen_offset ptr + u4 mem (ptr + CENSIZ) <= mlength pMap
}.

Hypothesis Hmap : map_ok.
Variable safe_add_uintptr : Z -> Z -> option Z.
Variable safe_add_long : Z -> Z -> bool.
Hypothesis Hsafe1 : safe_add_uintptr_ok safe_add_uintptr.
Hypothesis Hsafe2 : safe_add_long_ok safe_add_long.

Lemma map_word : word_bits = 64.
Proof.
  destruct word_bits_ok as [E |]; [| done]. pose proof (mo_room Hmap) as Hr. pose proof (mo_addr Hmap).
  rewrite E in Hr. unfold LOCHDR in Hr. lia.
Qed.

Lemma map_get2 p : 0 <= p -> p + 2 <= mlength pMap -> get2LE mem p = Val (u2 mem p).
Proof. intros. apply get2LE_spec; [apply Hmap | lia |]. rewrite (mo_len Hmap). lia. Qed.
Lemma map_get4 p : 0 <= p -> p + 4 <= mlength pMap -> get4LE mem p = Val (u4 mem p).
Proof. intros. apply get4LE_spec; [apply Hmap | lia |]. rewrite (mo_len Hmap). lia. Qed.
Lemma map_u2 p : 0 <= u2 mem p < 2 ^ 16.
Proof. apply u2_range, Hmap. Qed.
Lemma map_u4 p : 0 <= u4 mem p < 2 ^ 32.
Proof. apply u4_range, Hmap. Qed.

Lemma long_u32 z : 0 <= z < 2 ^ 32 -> wraps word_bits z = z.
Proof. rewrite map_word. intros. apply wraps_id; lia. Qed.

Lemma valid_chars_spec n p :
  0 <= p -> p + Z.of_nat n <= mlength pMap ->
  wp (valid_chars n mem p) (fun b => b = true <-> Forall printable (slice mem p (Z.of_nat n))).
Proof.
  revert p. induction n as [| n IH]; intros p Hp Hn; cbn [valid_chars].
  { simpl. split; [intros _; constructor | done]. }
  destruct (load_ex mem p) as (c & Hc & Hb); [apply Hmap | rewrite (mo_len Hmap); lia |].
  rewrite Hc. cbn [mbind outcome_bind]. rewrite (slice_cons _ _ _ _ Hc) by lia.
  replace (Z.of_nat (S n) - 1) with (Z.of_nat n) by lia.
  assert ((char_val c <? 32) || (127 <=? char_val c) = true <-> ~ printable c) as Hpr.
  { unfold char_val, printable, is_byte in *. rewrite orb_true_iff, Z.ltb_lt, Z.leb_le.
    destruct char_signed, (Z.leb_spec 128 c); simpl; lia. }
  destruct (_ || _).
  - simpl. split; [done |]. intros [? _]%Forall_cons. by destruct (proj1 Hpr).
  - eapply wp_mono; [apply IH; lia |]. intros b ->. rewrite Forall_cons. assert (printable c); [| naive_solver].
    destruct (decide (32 <= c < 127)) as [| Hn']; [done |]. by apply Hpr in Hn'.
Qed.

Lemma validFilename_spec p n :
  0 <= p -> 0 <= n -> p + n <= mlength pMap ->
  wp (validFilename mem p n) (fun b => b = true <-> n < PATH_MAX /\ Forall printable (slice mem p n)).
Proof.
  intros Hp Hn Hin. unfold validFilename. destruct (Z.leb_spec PATH_MAX n).
  - simpl. split; [done | lia].
  - eapply wp_mono; [apply valid_chars_spec; lia |]. intros b ->. rewrite Z2Nat.id by lia. naive_solver lia.
Qed.

(** The scan finds the last end record, or none. *)
Lemma find_eocd_spec fuel ptr :
  ptr < Z.of_nat fuel -> ptr + ENDHDR <= mlength pMap -> -1 <= ptr ->
  wp (find_eocd fuel mem ptr) (fun q => -1 <= q <= ptr /\ (0 <= q -> u4 mem q = ENDSIG) /\
    forall j, q < j <= ptr -> u4 mem j <> ENDSIG).
Proof.
  unfold ENDHDR. revert ptr. induction fuel as [| fuel IH]; intros ptr Hf Hin Hptr; simpl;
    destruct (Z.ltb_spec ptr 0); try lia; try (simpl; split_and!; lia).
  destruct (load_ex mem ptr) as (c & Hc & Hb); [apply Hmap | rewrite (mo_len Hmap); lia |].
  rewrite Hc, map_get4 by lia. cbn [mbind outcome_bind].
  assert (u4 mem ptr <> ENDSIG -> wp (find_eocd fuel mem (ptr - 1)) (fun q => -1 <= q <= ptr /\
    (0 <= q -> u4 mem q = ENDSIG) /\ forall j, q < j <= ptr -> u4 mem j <> ENDSIG)) as Hnext.
  { intros Hne. eapply wp_mono; [apply IH; lia |]. intros q (Hq1 & Hq2 & Hq3).
    split_and!; [lia | lia | done |]. intros j Hj. destruct (decide (j = ptr)) as [-> |]; [done |].
    apply Hq3. lia. }
  destruct (Z.eqb_spec c (Z.land ENDSIG 255)) as [-> | Hc'].
  - destruct (Z.eqb_spec (u4 mem ptr) ENDSIG); [| by apply Hnext]. simpl. split_and!; [lia | lia | done | lia].
  - apply Hnext. intros E. apply Hc'. unfold u4 in E. rewrite (slice_cons _ _ _ _ Hc) in E by lia.
    cbn [le_val] in E. unfold is_byte in Hb. apply (f_equal (fun z => z mod 256)) in E.
    rewrite Z.mul_comm, Z_mod_plus_full, Z.mod_small in E by lia. done.
Qed.

Lemma local_offset_spec ptr :
  wp (local_offset safe_add_uintptr mem pMap (cen_local ptr)) (fun r =>
    match r with
    | Some off => cen_local ptr + LOCHDR <= mlength pMap /\ u4 mem (cen_local ptr) = LOCSIG /\ off = cen_offset ptr
    | None => ~ (cen_local ptr + LOCHDR <= mlength pMap /\ u4 mem (cen_local ptr) = LOCSIG)
    end).
Proof.
  pose proof (map_u4 (ptr + CENOFF)) as Hl. fold (cen_local ptr) in Hl.
  destruct Hmap as [_ _ Ha He Hr]. unfold local_offset, LOCHDR in *. pose proof map_word as E64.
  rewrite E64 in He, Hr. rewrite Hsafe1, E64 by (rewrite ?E64; lia).
  pose proof (zlen_nonneg mem) as Hz. rewrite (mo_len Hmap) in Hz.
  rewrite (proj2 (Z.ltb_lt (addr pMap + cen_local ptr) (2 ^ 64))), !wrapu_id by lia.
  destruct (Z.ltb_spec (addr pMap + mlength pMap) (addr pMap + cen_local ptr + 30)).
  { simpl. lia. }
  replace (addr pMap + cen_local ptr - addr pMap) with (cen_local ptr) by lia.
  unfold LOCNAM, LOCEXT. rewrite map_get4, !map_get2 by lia. cbn [mbind outcome_bind].
  destruct (Z.eqb_spec (u4 mem (cen_local ptr)) LOCSIG); [| simpl; naive_solver]. simpl.
  split_and!; [lia | done |]. rewrite <- E64 at 1. apply long_u32, wrapu_range. lia.
Qed.

(** The fixed part of a central header is read without leaving the mapping. *)
Lemma cen_reads ptr : 0 <= ptr -> ptr + CENHDR <= mlength pMap ->
  (forall k, 0 <= k -> k + 2 <= CENHDR -> get2LE mem (ptr + k) = Val (u2 mem (ptr + k))) /\
  (forall k, 0 <= k -> k + 4 <= CENHDR -> get4LE mem (ptr + k) = Val (u4 mem (ptr + k))).
Proof. intros. split; intros; [apply map_get2 | apply map_get4]; lia. Qed.

Lemma parse_entry_spec ptr L r rest :
  0 <= ptr -> StronglySorted (ent_le mem) L -> Forall (entry_name_ok mem) L -> zlen L < 2 ^ 16 ->
  wp (parse_entry safe_add_uintptr safe_add_long mem pMap (zlen L) (L ++ r :: rest) ptr) (fun res =>
    match res with
    | Some (ents, ptr') => cen_ok ptr /\ ptr' = cen_next ptr /\ exists L',
        ents = L' ++ rest /\ L' ≡ₚ cen_entry ptr :: L /\ StronglySorted (ent_le mem) L'
    | None => ~ cen_ok ptr
    end).
Proof.
  intros Hp HS Hok Hmax. unfold parse_entry.
  destruct (Z.ltb_spec (mlength pMap) (ptr + CENHDR)) as [| Hfit]; [intros []; lia |].
  destruct (cen_reads ptr Hp Hfit) as [R2 R4]. rewrite (map_get4 ptr) by (unfold CENHDR in *; lia).
  rewrite !R2, !R4 by done. cbn [mbind outcome_bind].
  destruct (Z.eqb_spec (u4 mem ptr) CENSIG) as [Hsig |]; [| intros []; done]. cbn [negb].
  fold (cen_name_len ptr). pose proof (map_u2 (ptr + CENNAM)) as Hnl. fold (cen_name_len ptr) in Hnl.
  destruct (Z.ltb_spec (mlength pMap) (ptr + CENHDR + cen_name_len ptr)); [intros []; lia |].
  apply wp_bind. eapply wp_mono; [apply validFilename_spec; unfold CENHDR in *; lia |].
  intros [|] Hv; cbn [negb].
  2: { intros []. destruct Hv as [_ Hv]. discriminate Hv. done. }
  destruct (proj1 Hv eq_refl) as [Hpm Hpr]. clear Hv.
  assert (name_ok mem (ptr + CENHDR) (cen_name_len ptr)) as Hnm.
  { split; [unfold CENHDR; lia | lia | rewrite (mo_len Hmap); lia | done]. }
  apply wp_bind. eapply wp_mono; [by apply make_room_spec |]. intros [ents target] Hroom.
  fold (cen_local ptr). set (vem := Z.land (u2 mem (ptr + CENVEM)) 65280).
  destruct (negb (vem =? 0) && negb (vem =? CENVEM_UNIX)) eqn:Hvem.
  { apply andb_true_iff in Hvem as [V1%negb_true_iff V2%negb_true_iff].
    apply Z.eqb_neq in V1, V2. intros []. naive_solver. }
  assert (vem = 0 \/ vem = CENVEM_UNIX) as Hvem'.
  { apply andb_false_iff in Hvem as [V%negb_false_iff | V%negb_false_iff]; apply Z.eqb_eq in V; auto. }
  apply wp_bind. eapply wp_mono; [apply local_offset_spec |].
  intros [off |] Hoff; [| intros []; naive_solver]. destruct Hoff as (Hl1 & Hl2 & ->).
  pose proof (map_u4 (ptr + CENSIZ)) as Hcomp.
  assert (0 <= cen_offset ptr < 2 ^ 32) as Hofr by (apply wrapu_range; lia).
  rewrite !long_u32 by (apply map_u4 || done).
  rewrite Hsafe2 by (rewrite map_word; unfold in_int; apply andb_true_iff; rewrite Z.leb_le, Z.ltb_lt; lia).
  rewrite map_word. replace (in_int 64 _) with true
    by (symmetry; unfold in_int; apply andb_true_iff; rewrite Z.leb_le, Z.ltb_lt; lia).
  cbn [negb]. rewrite !wrapu_id by (rewrite ?wrapu_id by lia; lia).
  destruct (Z.ltb_spec (mlength pMap) (cen_offset ptr + u4 mem (ptr + CENSIZ))); [intros []; lia |].
  destruct (Hroom (cen_entry ptr) eq_refl) as (L' & Hst & HP & HS').
  fold (cen_entry ptr). rewrite Hst. simpl. split_and!; [by split | done |]. by exists L'.
Qed.

(** The central headers the loop visits. *)
Fixpoint cen_walk (n : nat) (ptr : Z) : list Z :=
  match n with O => [] | S n => ptr :: cen_walk n (cen_next ptr) end.

Lemma cen_entry_name_ok ptr : 0 <= ptr -> cen_ok ptr -> entry_name_ok mem (cen_entry ptr).
Proof.
  intros Hp []. pose proof (map_u2 (ptr + CENNAM)) as Hnl. fold (cen_name_len ptr) in Hnl.
  split; simpl; [unfold CENHDR; lia | lia | rewrite (mo_len Hmap); lia | done].
Qed.

Lemma cen_next_pos ptr : 0 <= ptr -> 0 <= cen_next ptr.
Proof.
  intros. unfold cen_next, cen_name_len, CENHDR.
  pose proof (map_u2 (ptr + CENNAM)). pose proof (map_u2 (ptr + CENEXT)).
  pose proof (map_u2 (ptr + CENCOM)). lia.
Qed.

Lemma parse_entries_spec n ptr L rest :
  0 <= ptr -> StronglySorted (ent_le mem) L -> Forall (entry_name_ok mem) L ->
  zlen L + Z.of_nat n < 2 ^ 16 -> length rest = n ->
  wp (parse_entries safe_add_uintptr safe_add_long n mem pMap (zlen L) (L ++ rest) ptr) (fun res =>
    match res with
    | Some ents => Forall cen_ok (cen_walk n ptr) /\ ents ≡ₚ (cen_entry <$> cen_walk n ptr) ++ L /\
        StronglySorted (ent_le mem) ents /\ Forall (entry_name_ok mem) ents
    | None => ~ Forall cen_ok (cen_walk n ptr)
    end).
Proof.
  revert ptr L rest. induction n as [| n IH]; intros ptr L rest Hp HS Hok Hmax Hrest; cbn [parse_entries cen_walk].
  { destruct rest; [| done]. rewrite app_nil_r. simpl. done. }
  destruct rest as [| r rest]; [done |]. apply wp_bind.
  eapply wp_mono; [apply parse_entry_spec; (done || lia) |]. intros [[ents ptr'] |].
  2: { intros Hbad [? ?]%Forall_cons. done. }
  intros (Hcen & -> & L' & -> & HP & HS').
  assert (Forall (entry_name_ok mem) L') as Hok'.
  { rewrite HP. constructor; [by apply cen_entry_name_ok | done]. }
  assert (zlen L' = zlen L + 1) as HL' by (rewrite (perm_zlen _ _ HP), zlen_cons; lia).
  rewrite <- HL'. eapply wp_mono; [apply IH; [by apply cen_next_pos | done | done | lia | by injection Hrest] |].
  intros [ents |]; [| rewrite Forall_cons; naive_solver].
  intros (Hall & Hperm & ? & ?). split_and!; [by constructor | | done | done].
  rewrite Hperm, HP. simpl. by rewrite Permutation_middle.
Qed.
End ParserSpec.

(** ** The name index *)

Section Index.
Context `{Arch} (mem : block) (ents : list ZipEntry) (calloc : Z -> bool).
Hypothesis Hnames : Forall (entry_name_ok mem) ents.

(** The hash of a name. *)
Fixpoint name_hash_from (h : Z) (l : block) : Z :=
  match l with [] => h | c :: l => name_hash_from (u32 (u32 (h * 31) + char_val c)) l end.
Definition name_hash : block -> Z := name_hash_from 2.

Lemma name_hash_from_range h l : 0 <= h < 2 ^ 32 -> 0 <= name_hash_from h l < 2 ^ 32.
Proof.
  revert h. induction l as [| c l IH]; intros h Hh; [done |]. apply IH, wrapu_range. lia.
Qed.

Lemma computeHash_spec m p n :
  0 <= p -> 0 <= n -> p + n <= zlen m -> computeHash m p n = Val (name_hash (slice m p n)).
Proof.
  intros Hp Hn Hin. unfold computeHash, name_hash. rewrite (proj2 (Z.ltb_ge n 0)) by lia.
  generalize 2 as h. rewrite <- (Z2Nat.id n) in Hin |- * by lia. rewrite Nat2Z.id.
  generalize dependent p. induction (Z.to_nat n) as [| k IH]; intros p Hp Hin h; [done |].
  destruct (load_some m p) as [c Hc]; [lia |]. cbn [hash_loop]. rewrite Hc. cbn [mbind outcome_bind].
  rewrite (slice_cons _ _ _ _ Hc) by lia. replace (Z.of_nat (S k) - 1) with (Z.of_nat k) by lia.
  apply IH; lia.
Qed.

(** A name that is compared equal is equal. *)
Lemma hashcmpZipEntry_eq e1 e2 :
  entry_name_ok mem e1 -> entry_name_ok mem e2 ->
  hashcmpZipEntry mem e1 e2 =? 0 = bool_decide (entry_name mem e1 = entry_name mem e2).
Proof.
  intros [A1 A2 A3 _] [B1 B2 B3 _]. unfold hashcmpZipEntry, PATH_MAX in *.
  assert (zlen (entry_name mem e1) = fileNameLen e1) as E1 by (apply zlen_slice; lia).
  assert (zlen (entry_name mem e2) = fileNameLen e2) as E2 by (apply zlen_slice; lia).
  apply eq_bool_prop_intro. rewrite Is_true_true, bool_decide_spec, Z.eqb_eq.
  destruct (Z.eqb_spec (fileNameLen e1) (fileNameLen e2)) as [E |]; simpl.
  - apply memcmp_eq. congruence.
  - rewrite wraps_id by lia. split; [lia |]. intros E. rewrite E in E1. lia.
Qed.

Lemma hashcmpZipName_eq e name :
  entry_name_ok mem e -> zlen name < 2 ^ 31 ->
  hashcmpZipName mem e name =? 0 = bool_decide (entry_name mem e = name).
Proof.
  intros [A1 A2 A3 _] Hn. unfold hashcmpZipName, PATH_MAX in *. pose proof (zlen_nonneg name).
  assert (zlen (entry_name mem e) = fileNameLen e) as E1 by (apply zlen_slice; lia).
  rewrite wrapu_id by lia.
  apply eq_bool_prop_intro. rewrite Is_true_true, bool_decide_spec, Z.eqb_eq.
  destruct (Z.eqb_spec (fileNameLen e) (zlen name)) as [E |]; simpl.
  - apply memcmp_eq. congruence.
  - rewrite wraps_id by lia. split; [lia |]. intros E. rewrite E in E1. lia.
Qed.

(** Entry [j] is the first with its name. *)
Definition first_named (j : Z) (e : ZipEntry) : Prop :=
  load ents j = Val e /\
  forall i e', load ents i = Val e' -> i < j -> entry_name mem e' <> entry_name mem e.

(** The table after the first [k] entries: each name leads to its first entry. *)
Record indexed (size k : Z) (t : HashTable Z) : Prop := {
  ix_ok : ht_ok t;
  ix_size : tableSize t = size;
  ix_dead : numDeadEntries t <= 0;
  ix_count : numEntries t <= k;
  ix_sound : forall h j, (h, j) ∈ live (pEntries t) -> exists e, first_named j e /\ h = name_hash (entry_name mem e);
  ix_complete : forall i e, load ents i = Val e -> i < k -> exists j e', j <= i /\
    load ents j = Val e' /\ entry_name mem e' = entry_name mem e /\ (name_hash (entry_name mem e), j) ∈ live (pEntries t)
}.

Lemma ent_ok i e : load ents i = Val e -> entry_name_ok mem e.
Proof. intros [_ He]%load_Val. by eapply Forall_lookup_1. Qed.

Lemma addEntry_spec size k t :
  indexed size k t -> 0 <= k < zlen ents -> (k + 1) * LOAD_DENOM <= size * LOAD_NUMER ->
  wp (addEntryToHashTable calloc mem ents t k) (indexed size (k + 1)).
Proof.
  intros [Hok Hsz Hd Hc Hsound Hcomp] Hk Hload. unfold addEntryToHashTable, LOAD_DENOM, LOAD_NUMER in *.
  destruct (load_some ents k) as [e He]; [lia |]. rewrite He. cbn [mbind outcome_bind].
  pose proof (ent_ok _ _ He) as Hnm. pose proof Hnm as [N1 N2 N3 _].
  rewrite computeHash_spec by lia. fold (entry_name mem e). cbn [mbind outcome_bind].
  apply wp_bind. eapply wp_mono.
  { apply lookup_add_ok; [done | apply name_hash_from_range; lia |]. left.
    unfold LOAD_DENOM, LOAD_NUMER. lia. }
  assert (forall j e', load ents j = Val e' -> (match ents !! Z.to_nat j with
    | Some e'0 => hashcmpZipEntry mem e'0 e =? 0 | None => false end) = bool_decide (entry_name mem e' = entry_name mem e)) as Hcmp.
  { intros j e' He'. pose proof (ent_ok _ _ He') as Hnm'. apply load_Val in He' as [_ ->].
    by apply hashcmpZipEntry_eq. }
  intros [found t'] [Hok' [(j & -> & -> & Hj & Heq) | (-> & Hnone & Hlive & Hdead & Hsize)]]; simpl.
  - split; try done; [lia |]. intros i e' He' Hi. destruct (decide (i = k)) as [-> |].
    + destruct (Hsound _ _ Hj) as (ej & [Hej _] & _). rewrite (Hcmp _ _ Hej) in Heq.
      apply bool_decide_eq_true in Heq. rewrite He in He'. injection He' as <-.
      destruct (decide (j <= k)); [by exists j, ej |].
      exfalso. destruct (Hsound _ _ Hj) as (e2 & [He2 Hfst] & _). rewrite Hej in He2. injection He2 as <-.
      apply (Hfst k e He ltac:(lia)). congruence.
    + apply Hcomp; [done | lia].
  - unfold LOAD_DENOM, LOAD_NUMER in Hsize. rewrite (proj2 (Z.leb_le _ _)) in Hsize by lia. split; try done.
    + lia.
    + lia.
    + rewrite (ok_entries _ Hok'), (perm_zlen _ _ Hlive), zlen_cons, <- (ok_entries _ Hok). lia.
    + intros h j. rewrite Hlive, elem_of_cons. intros [E |]; [| by apply Hsound].
      injection E as -> ->. exists e. split; [| done]. split; [done |]. intros i e' He' Hi Heq.
      destruct (Hcomp i e' He' Hi) as (j & ej & Hji & Hej & Hnj & Hlj).
      rewrite Heq in Hlj. specialize (Hnone j Hlj). rewrite (Hcmp _ _ Hej) in Hnone.
      apply bool_decide_eq_false in Hnone. congruence.
    + intros i e' He' Hi. destruct (decide (i = k)) as [-> |].
      * rewrite He in He'. injection He' as <-. exists k, e. split_and!; [lia | done | done |].
        rewrite Hlive. left.
      * destruct (Hcomp i e' He' ltac:(lia)) as (j & ej & ? & ? & ? & Hlj). exists j, ej.
        split_and!; try done. rewrite Hlive. by right.
Qed.

Lemma add_all_spec size n k t :
  indexed size k t -> 0 <= k -> k + Z.of_nat n = zlen ents -> zlen ents * LOAD_DENOM <= size * LOAD_NUMER ->
  wp (add_all calloc n mem ents t k) (indexed size (zlen ents)).
Proof.
  revert k t. induction n as [| n IH]; intros k t Hix Hk Hn Hsz; cbn [add_all].
  { simpl. by replace (zlen ents) with k by lia. }
  apply wp_bind. eapply wp_mono; [apply addEntry_spec; [done | lia |] |].
  { unfold LOAD_DENOM, LOAD_NUMER in *. lia. }
  intros t' Hix'. apply IH; [done | lia ..].
Qed.
End Index.

(** ** The whole parse *)

Section Parse.
Context `{Arch} (mem : block) (pMap : MemMapping).

(** [q] is the last end of central directory record. *)
Definition eocd_at (q : Z) : Prop :=
  0 <= q <= mlength pMap - ENDHDR /\ u4 mem q = ENDSIG /\
  forall j, q < j <= mlength pMap - ENDHDR -> u4 mem j <> ENDSIG.

(** The archive announces [n] entries in a central directory at [cd]. *)
Definition zip_header (n cd : Z) : Prop :=
  u4 mem 0 = LOCSIG /\ exists q, eocd_at q /\ n = u2 mem (q + ENDSUB) /\ cd = u4 mem (q + ENDOFF) /\
    n <> 0 /\ cd < mlength pMap.

(** The whole file is acceptable. *)
Definition zip_wf (n cd : Z) : Prop :=
  zip_header n cd /\ Forall (cen_ok mem pMap) (cen_walk mem (Z.to_nat n) cd).

(** The entries and the table represent the central directory. *)
Definition represents (n cd : Z) (ents : list ZipEntry) (t : HashTable Z) : Prop :=
  ents ≡ₚ cen_entry mem <$> cen_walk mem (Z.to_nat n) cd /\ zlen ents = n /\
  StronglySorted (ent_le mem) ents /\ Forall (entry_name_ok mem) ents /\
  exists size, indexed mem ents size n t.

Hypothesis Hmap : map_ok mem pMap.
Hypothesis Hlen : ENDHDR <= mlength pMap.
Variable safe_add_uintptr : Z -> Z -> option Z.
Variable safe_add_long : Z -> Z -> bool.
Hypothesis Hsafe1 : safe_add_uintptr_ok safe_add_uintptr.
Hypothesis Hsafe2 : safe_add_long_ok safe_add_long.
Variable malloc_ok : bool.
Variable calloc calloc_ents : Z -> bool.

Lemma eocd_unique q q' : eocd_at q -> eocd_at q' -> q = q'.
Proof.
  intros (? & E1 & H1) (? & E2 & H2). destruct (Z.lt_trichotomy q q') as [| [|]]; [| done |].
  - destruct (H1 q'); [lia | done].
  - destruct (H2 q); [lia | done].
Qed.

Lemma parse_header_spec :
  wp (parse_header mem pMap) (fun r =>
    match r with Some (n, cd) => zip_header n cd | None => forall n cd, ~ zip_header n cd end).
Proof.
  unfold parse_header, ENDHDR in *. rewrite (map_get4 mem pMap Hmap) by lia. cbn [mbind outcome_bind].
  destruct (Z.eqb_spec (u4 mem 0) ENDSIG) as [E |].
  { simpl. intros n cd (E' & _). by rewrite E in E'. }
  destruct (Z.eqb_spec (u4 mem 0) LOCSIG) as [E |]; cbn [negb]; [| by intros n' cd (? & _)].
  apply wp_bind. eapply wp_mono; [apply (find_eocd_spec mem pMap Hmap); unfold ENDHDR; lia |].
  intros q (Hq & Hsig & Hlast). destruct (Z.ltb_spec q 0).
  { simpl. intros n' cd (_ & q' & (? & Hq' & _) & _). unfold ENDHDR in *. apply (Hlast q'); [lia | done]. }
  assert (eocd_at q) as Heo by (split_and!; unfold ENDHDR; auto; lia).
  unfold ENDSUB, ENDOFF. rewrite (map_get2 mem pMap Hmap), (map_get4 mem pMap Hmap) by lia.
  cbn [mbind outcome_bind].
  destruct (_ || _) eqn:Eb.
  - simpl. intros n' cd (_ & q' & Heo' & -> & -> & Hn & Hcd). rewrite (eocd_unique _ _ Heo' Heo) in *.
    apply orb_true_iff in Eb as [Eb%Z.eqb_eq | Eb%Z.leb_le]; [done |]. unfold ENDOFF in Hcd. lia.
  - apply orb_false_iff in Eb as [E1%Z.eqb_neq E2%Z.leb_gt]. simpl. split; [done |].
    exists q. done.
Qed.

Lemma zip_header_fun n cd n' cd' : zip_header n cd -> zip_header n' cd' -> n = n' /\ cd = cd'.
Proof.
  intros (_ & q & Hq & -> & -> & _) (_ & q' & Hq' & -> & -> & _).
  by rewrite (eocd_unique _ _ Hq Hq').
Qed.

Lemma mzHashSize_enough n : 0 < n < 2 ^ 16 ->
  1 <= mzHashSize n <= 2 ^ 28 /\ n * LOAD_DENOM <= mzHashSize n * LOAD_NUMER.
Proof.
  intros Hn. unfold mzHashSize, LOAD_DENOM, LOAD_NUMER.
  assert (2 ^ 32 <= 2 ^ word_bits) by (apply Z.pow_le_mono_r; [lia |]; destruct word_bits_ok; lia).
  rewrite (wrapu_id _ (n * 8)) by lia.
  pose proof (Z.div_mod (n * 8) 5 ltac:(lia)). pose proof (Z.mod_pos_bound (n * 8) 5 ltac:(lia)).
  assert (0 <= n * 8 / 5 < 2 ^ 20) by lia. rewrite wrapu_id by lia. lia.
Qed.

Lemma parse_spec a :
  pZipEntries a = None -> pHash a = None ->
  wp (parseZipArchive safe_add_uintptr safe_add_long malloc_ok calloc calloc_ents mem pMap a)
    (fun '(ok, a', evs) => fd a' = fd a /\ za_map a' = za_map a /\
      if ok then exists n cd ents t, zip_wf n cd /\ represents n cd ents t /\
        numZipEntries a' = n /\ pZipEntries a' = Some ents /\ pHash a' = Some t /\
        evs = [EvAllocEntries; EvAllocHash]
      else pHash a' = None /\
        ((exists n cd, zip_wf n cd) -> malloc_ok = false \/ (exists m, calloc m = false) \/ exists m, calloc_ents m = false) /\
        exists hh : bool, evs = match pZipEntries a' with Some _ => [EvAllocEntries] | None => [] end ++
          (if hh then [EvAllocHash; EvFreeHash] else [])).
Proof.
  intros Hpe Hph. unfold parseZipArchive. apply wp_bind.
  eapply wp_mono; [apply parse_header_spec |]. intros [[n cd] |] Hhdr.
  2: { simpl. split_and!; [done .. | |]; [| by exists false; rewrite Hpe, Hph].
       intros (n & cd & Hz & _). by destruct (Hhdr n cd). }
  assert (0 < n < 2 ^ 16) as Hn.
  { destruct Hhdr as (_ & q & _ & -> & _ & ? & _). pose proof (map_u2 mem pMap Hmap (q + ENDSUB)). lia. }
  assert (0 <= cd) as Hcd.
  { destruct Hhdr as (_ & q & _ & _ & -> & _). apply (map_u4 mem pMap Hmap). }
  destruct (mzHashSize_enough n Hn) as [Hhs Hhl].
  apply wp_bind. eapply wp_mono; [by apply create_ok |].
  intros [t |] Ht; [| destruct (calloc_ents n); simpl; split_and!; try done; try (by exists false); tauto].
  destruct (calloc_ents n) eqn:Hce; [| simpl; split_and!; try done; [eauto | by exists true]].
  destruct Ht as (Hok & Hsz & Hlive & Hdead). apply wp_bind. eapply wp_mono.
  { apply (parse_entries_spec mem pMap Hmap _ _ Hsafe1 Hsafe2 (Z.to_nat n) cd [] (replicate (Z.to_nat n) zero_entry)).
    - done.
    - constructor.
    - constructor.
    - rewrite zlen_nil. lia.
    - apply length_replicate. }
  intros [ents |].
  - intros (Hall & Hperm & Hsorted & Hnames). rewrite app_nil_r in Hperm.
    assert (zlen ents = n) as Hze.
    { rewrite (perm_zlen _ _ Hperm). unfold zlen. rewrite length_fmap.
      assert (forall m p, length (cen_walk mem m p) = m) as ->; [| lia].
      intros m. induction m; intros; simpl; auto. }
    apply wp_bind. eapply wp_mono.
    + apply (add_all_spec mem ents calloc Hnames (tableSize t)); [| done | lia |].
      * split; [done | done | lia | | | intros i e He Hi; apply load_range in He; lia].
        -- rewrite (ok_entries _ Hok), Hlive. done.
        -- rewrite Hlive. by intros h j ?%elem_of_nil.
      * unfold LOAD_DENOM, LOAD_NUMER in *. lia.
    + intros t' Hix. simpl. split_and!; [done | done |]. exists n, cd, ents, t'.
      split_and!; try done. split_and!; try done. exists (tableSize t). by rewrite <- Hze.
  - intros Hbad. simpl. split_and!; [done | done | done | | by exists true].
    intros (n' & cd' & Hz & Hall). destruct (zip_header_fun _ _ _ _ Hhdr Hz) as [-> ->]. done.
Qed.
End Parse.

(** ** Finding an entry *)

Section Find.
Context `{Arch} (mem : block) (calloc : Z -> bool).

Lemma find_spec a ents t n size (s r : block) :
  pZipEntries a = Some ents -> pHash a = Some t ->
  Forall (entry_name_ok mem) ents -> indexed mem ents size n t -> zlen ents = n ->
  Forall (fun c => c <> 0) s -> zlen s < 2 ^ 31 ->
  wp (mzFindZipEntry calloc mem a (s ++ 0 :: r)) (fun res =>
    match res with
    | Some j => exists e, first_named mem ents j e /\ entry_name mem e = s
    | None => forall e, e ∈ ents -> entry_name mem e <> s
    end).
Proof.
  intros Hpe Hph Hnames Hix Hn Hs Hlen. unfold mzFindZipEntry. rewrite Hpe, Hph.
  unfold c_strlen.
  change (drop (Z.to_nat 0) (s ++ 0 :: r)) with (s ++ 0 :: r). rewrite find_nul_app, Z.leb_refl by done.
  cbn [mbind outcome_bind]. pose proof (zlen_nonneg s).
  assert (slice (s ++ 0 :: r) 0 (zlen s) = s) as Hsl
    by exact (slice_length_app [] s (0 :: r) (zlen s) eq_refl).
  rewrite wraps_id by lia. rewrite computeHash_spec, Hsl by
    (rewrite ?zlen_app, ?zlen_cons; pose proof (zlen_nonneg r); lia).
  cbn [mbind outcome_bind]. apply wp_bind.
  eapply wp_mono; [apply lookup_none_ok; apply Hix |].
  assert (forall j e, load ents j = Val e -> (match ents !! Z.to_nat j with
    | Some e => hashcmpZipName mem e s =? 0 | None => false end) = bool_decide (entry_name mem e = s)) as Hcmp.
  { intros j e He. assert (entry_name_ok mem e).
    { apply load_Val in He as [_ He]. by eapply Forall_lookup_1. }
    apply load_Val in He as [_ ->]. by apply hashcmpZipName_eq. }
  intros [[j |] t'] [-> Hr]; simpl.
  - destruct Hr as [Hlive Hc]. destruct (ix_sound _ _ _ _ _ Hix _ _ Hlive) as (e & Hfirst & _).
    exists e. split; [done |]. rewrite (Hcmp j e) in Hc by apply Hfirst. by apply bool_decide_eq_true in Hc.
  - intros e He Heq. apply list_elem_of_lookup in He as [i Hi].
    assert (load ents (Z.of_nat i) = Val e) as Hl by (apply load_Val; rewrite Nat2Z.id; split; [lia | done]).
    destruct (ix_complete _ _ _ _ _ Hix _ _ Hl) as (j & e' & _ & Hj & Hname & Hlive).
    { apply load_range in Hl. lia. }
    rewrite Heq in *. specialize (Hr j Hlive). rewrite (Hcmp _ _ Hj) in Hr.
    by apply bool_decide_eq_false in Hr.
Qed.
End Find.

(** ** Resources *)

(** What an event gives back. *)
Definition releases (ev : event) : option event :=
  match ev with
  | EvClose f => Some (EvOpen f)
  | EvUnmap b l => Some (EvMap b l)
  | EvFreeEntries => Some EvAllocEntries
  | EvFreeHash => Some EvAllocHash
  | _ => None
  end.

Fixpoint give_back (ev : event) (held : list event) : option (list event) :=
  match held with
  | [] => None
  | h :: held => if decide (h = ev) then Some held else cons h <$> give_back ev held
  end.

(** The resources held after a sequence of events; [None] when something is released
    that is not held. *)
Fixpoint held_after (evs held : list event) : option (list event) :=
  match evs with
  | [] => Some held
  | ev :: evs =>
      match releases ev with
      | Some r => match give_back r held with Some held => held_after evs held | None => None end
      | None => held_after evs (ev :: held)
      end
  end.

Section Open.
Context `{Arch} (s : sys) (file : block).
Variable safe_add_uintptr : Z -> Z -> option Z.
Variable safe_add_long : Z -> Z -> bool.
Hypothesis Hsafe1 : safe_add_uintptr_ok safe_add_uintptr.
Hypothesis Hsafe2 : safe_add_long_ok safe_add_long.
Variable malloc_ok : bool.
Variable calloc calloc_ents : Z -> bool.

(** The kernel maps the file's bytes at a valid address and unmaps what it mapped. *)
Record sys_ok : Prop := {
  so_map : forall m, sysMapFileInShmem s = Some m -> map_ok file m /\ 0 < addr m;
  so_unmap : sys_munmap s = true
}.

Hypothesis Hsys : sys_ok.

Lemma map_in_shmem m : sysMapFileInShmem s = Some m -> baseAddr m = addr m /\ baseLength m = mlength m.
Proof.
  unfold sysMapFileInShmem. destruct (getFileStartAndLength s) as [[start len] |]; [| done].
  destruct (sys_mmap s len start); [| done]. by intros [= <-].
Qed.

(** Releasing the mapping [m] gives it back. *)
Lemma release_event m : 0 < baseAddr m -> (sysReleaseShmem s m).2 = [EvUnmap (baseAddr m) (baseLength m)].
Proof.
  intros Hb. unfold sysReleaseShmem. rewrite (proj2 (Z.eqb_neq _ 0)) by lia.
  by rewrite (so_unmap Hsys).
Qed.

Lemma open_spec :
  wp (mzOpenZipArchive safe_add_uintptr safe_add_long malloc_ok calloc calloc_ents s file)
    (fun '(err, a, evs) =>
      if err =? 0 then exists n cd ents t held,
        zip_wf file (za_map a) n cd /\ represents file n cd ents t /\
        fd a = sys_open s /\ numZipEntries a = n /\ pZipEntries a = Some ents /\ pHash a = Some t /\
        held_after evs [] = Some held /\ held_after (mzCloseZipArchive s a).2 held = Some []
      else held_after evs [] = Some [] /\ (mzCloseZipArchive s a).2 = [] /\ fd a = -1).
Proof.
  unfold mzOpenZipArchive. destruct (Z.ltb_spec (fd (mkArchive (sys_open s) 0 None None zero_map)) 0) as [Hfd | Hfd];
    simpl in Hfd.
  { set (err := if negb (sys_errno s =? 0) then sys_errno s else -1).
    assert (err =? 0 = false) as He.
    { unfold err. destruct (Z.eqb_spec (sys_errno s) 0); simpl; [done | by apply Z.eqb_neq]. }
    unfold open_bail, mzCloseZipArchive. rewrite He. simpl. rewrite He.
    by rewrite (proj2 (Z.leb_gt 0 (sys_open s))) by lia. }
  destruct (sysMapFileInShmem s) as [m |] eqn:Hm.
  2: { unfold open_bail, mzCloseZipArchive. simpl. rewrite (proj2 (Z.leb_le 0 (sys_open s))) by lia. simpl.
       by rewrite decide_True. }
  destruct (so_map Hsys m Hm) as [Hmap Haddr]. destruct (map_in_shmem m Hm) as [Hb1 Hb2].
  pose proof (release_event m ltac:(lia)) as Hrel.
  assert (addr m =? 0 = false) as Ha by (apply Z.eqb_neq; lia).
  destruct (Z.ltb_spec (mlength m) ENDHDR).
  { unfold open_bail, mzCloseZipArchive. simpl. rewrite Ha, (proj2 (Z.leb_le 0 (sys_open s))) by lia.
    cbn [negb]. rewrite Hrel. simpl. repeat (rewrite decide_True by done || rewrite decide_False by done; simpl). done. }
  apply wp_bind. eapply wp_mono; [by apply parse_spec |]. intros [[ok a'] evs] (Hfa & Hma & Hres).
  simpl in Hfa, Hma. destruct ok.
  - destruct Hres as (n & cd & ents & t & Hwf & Hrep & ? & Hpe & Hph & ->). simpl.
    exists n, cd, ents, t. eexists. split_and!; try done. unfold mzCloseZipArchive.
    simpl. rewrite Hfa, Ha, (proj2 (Z.leb_le 0 (sys_open s))) by lia. cbn [negb].
    rewrite (surjective_pairing (sysReleaseShmem s m)), Hrel, Hpe, Hph. simpl.
    repeat (rewrite decide_True by done || rewrite decide_False by done; simpl). done.
  - destruct Hres as (Hph & _ & hh & ->). unfold open_bail, mzCloseZipArchive. simpl.
    rewrite Hfa, Hma, Hph, Ha, (proj2 (Z.leb_le 0 (sys_open s))) by lia. cbn [negb]. simpl. rewrite Hrel.
    split; [| done]. destruct (pZipEntries a'), hh; simpl;
      repeat (rewrite decide_True by done || rewrite decide_False by done; simpl); done.
Qed.
End Open.

(** ** Properties *)

(** A small archive: the stored entries "b" and "a", in this order. *)
Definition demo_local (name data : block) : block :=
  le_bytes 4 LOCSIG ++ replicate 14 0 ++ le_bytes 4 (zlen data) ++ le_bytes 4 (zlen data) ++
  le_bytes 2 (zlen name) ++ le_bytes 2 0 ++ name ++ data.
Definition demo_central (name : block) (size off : Z) : block :=
  le_bytes 4 CENSIG ++ replicate 16 0 ++ le_bytes 4 size ++ le_bytes 4 size ++
  le_bytes 2 (zlen name) ++ replicate 12 0 ++ le_bytes 4 off ++ name.
Definition demo_end (n cd : Z) : block :=
  le_bytes 4 ENDSIG ++ replicate 4 0 ++ le_bytes 2 n ++ replicate 6 0 ++ le_bytes 4 cd ++ [0; 0].
Definition demo_zip : block :=
  demo_local [98] [1; 2] ++ demo_local [97] [3] ++
  demo_central [98] 2 0 ++ demo_central [97] 1 33 ++ demo_end 2 65.
Definition demo_map : MemMapping := mkMap 65536 181 65536 181.
Definition demo_archive : ZipArchive := mkArchive 3 0 None None zero_map.
Definition demo_safe_add_uintptr (a b : Z) : option Z := if a + b <? 2 ^ 64 then Some (a + b) else None.
Definition demo_safe_add_long (a b : Z) : bool := in_int 64 (a + b).

Definition demo_parse : outcome (bool * ZipArchive * list event) :=
  @parseZipArchive LP64 demo_safe_add_uintptr demo_safe_add_long true (fun _ => true) (fun _ => true)
    demo_zip demo_map demo_archive.

Lemma demo_map_ok : @map_ok LP64 demo_zip demo_map.
Proof.
  split; [| done ..]. refine (bool_decide_unpack _ _). vm_compute. exact I.
Qed.

Lemma demo_parsed : exists a evs n cd ents t, demo_parse = Val (true, a, evs) /\
  @represents LP64 demo_zip n cd ents t /\ pZipEntries a = Some ents /\ pHash a = Some t.
Proof.
  pose proof (@parse_spec LP64 demo_zip demo_map demo_map_ok ltac:(done) demo_safe_add_uintptr
    demo_safe_add_long ltac:(by intros x y _ _) ltac:(by intros x y _ _) true (fun _ => true)
    (fun _ => true) demo_archive eq_refl eq_refl) as Hw. fold demo_parse in Hw.
  assert ((let* (ok, _, _) := demo_parse in Val ok) = Val true) as Hok by (vm_compute; reflexivity).
  destruct demo_parse as [[[ok a] evs] |]; [| done]. injection Hok as ->.
  destruct Hw as (_ & _ & n & cd & ents & t & _ & Hrep & _ & Hpe & Hph & _).
  by exists a, evs, n, cd, ents, t.
Qed.



(** C18: in an archive whose table represents its entries, [mzFindZipEntry] on a C
    string returns, and returns the first entry with that name when there is one and
    NULL exactly when there is none. *)
Theorem mzFindZipEntry_correct `{Arch} (mem : block) (calloc : Z -> bool) (a : ZipArchive)
    (n cd : Z) (ents : list ZipEntry) (t : HashTable Z) (s r : block) :
  pZipEntries a = Some ents -> pHash a = Some t -> represents mem n cd ents t ->
  Forall (fun c => c <> 0) s -> zlen s < 2 ^ 31 ->
  wp (mzFindZipEntry calloc mem a (s ++ 0 :: r)) (fun res =>
    match res with
    | Some j => exists e, first_named mem ents j e /\ entry_name mem e = s
    | None => forall e, e ∈ ents -> entry_name mem e <> s
    end).
Proof. intros Hpe Hph (_ & Hn & _ & Hnm & size & Hix) Hs Hl. by eapply find_spec. Qed.

Lemma mzFindZipEntry_correct_witness :
  (let* (_, a, _) := demo_parse in @mzFindZipEntry LP64 (fun _ => true) demo_zip a [97; 0]) = Val (Some 0) /\
  exists a evs ents, demo_parse = Val (true, a, evs) /\ pZipEntries a = Some ents /\
  wp (@mzFindZipEntry LP64 (fun _ => true) demo_zip a [97; 0]) (fun res =>
    match res with
    | Some j => exists e, first_named demo_zip ents j e /\ entry_name demo_zip e = [97]
    | None => forall e, e ∈ ents -> entry_name demo_zip e <> [97]
    end).
Proof.
  split; [vm_compute; reflexivity |].
  destruct demo_parsed as (a & evs & n & cd & ents & t & -> & Hrep & Hpe & Hph).
  exists a, evs, ents. split_and!; [done | done |].
  apply (@mzFindZipEntry_correct LP64 demo_zip (fun _ => true) a n cd ents t [97] []); try done.
  by repeat constructor.
Defined.

(** C39: [mzOpenZipArchive] returns for every file the kernel can map.  When it fails,
    everything it acquired (descriptor, mapping, entry array, table) has been given
    back exactly once and closing the archive again releases nothing; when it
    succeeds, the archive represents the file and [mzCloseZipArchive] gives back
    everything that is held. *)
Theorem mzOpenZipArchive_correct `{Arch} (s : sys) (file : block)
    (safe_add_uintptr : Z -> Z -> option Z) (safe_add_long : Z -> Z -> bool)
    (malloc_ok : bool) (calloc calloc_ents : Z -> bool) :
  safe_add_uintptr_ok safe_add_uintptr -> safe_add_long_ok safe_add_long -> sys_ok s file ->
  wp (mzOpenZipArchive safe_add_uintptr safe_add_long malloc_ok calloc calloc_ents s file)
    (fun '(err, a, evs) =>
      if err =? 0 then exists n cd ents t held,
        zip_wf file (za_map a) n cd /\ represents file n cd ents t /\
        fd a = sys_open s /\ numZipEntries a = n /\ pZipEntries a = Some ents /\ pHash a = Some t /\
        held_after evs [] = Some held /\ held_after (mzCloseZipArchive s a).2 held = Some []
      else held_after evs [] = Some [] /\ (mzCloseZipArchive s a).2 = [] /\ fd a = -1).
Proof. intros H1 H2 Hs. by apply open_spec. Qed.

Definition demo_sys : sys := mkSys 3 0 0 181 (fun _ _ => Some 65536) true.

Lemma demo_sys_ok : @sys_ok LP64 demo_sys demo_zip.
Proof. split; [| done]. intros m [= <-]. split; [exact demo_map_ok | done]. Qed.

Definition demo_open : outcome (Z * ZipArchive * list event) :=
  @mzOpenZipArchive LP64 demo_safe_add_uintptr demo_safe_add_long true (fun _ => true) (fun _ => true)
    demo_sys demo_zip.

Lemma mzOpenZipArchive_correct_witness :
  exists a evs, demo_open = Val (0, a, evs) /\ fd a = 3 /\
    exists held, held_after evs [] = Some held /\ held_after (mzCloseZipArchive demo_sys a).2 held = Some [].
Proof.
  pose proof (@mzOpenZipArchive_correct LP64 demo_sys demo_zip demo_safe_add_uintptr demo_safe_add_long
    true (fun _ => true) (fun _ => true) ltac:(by intros x y _ _) ltac:(by intros x y _ _) demo_sys_ok) as Hw.
  fold demo_open in Hw.
  assert ((let* (err, _, _) := demo_open in Val err) = Val 0) as Herr by (vm_compute; reflexivity).
  destruct demo_open as [[[err a] evs] |]; [| done]. injection Herr as ->.
  exists a, evs. destruct Hw as (n & cd & ents & t & held & _ & _ & Hfd & _ & _ & _ & Hheld & Hclose).
  split_and!; [done | exact Hfd |]. by exists held.
Defined.

(** ** Where a 32-bit address space breaks the checks *)

Definition safe_add_uintptr32 (a b : Z) : option Z := if a + b <? 2 ^ 32 then Some (a + b) else None.
Definition safe_add_long32 (a b : Z) : bool := in_int 32 (a + b).

(** One entry whose local header offset ends 10 bytes below 2^32 and whose size is
    [size], mapped near the top of the address space. *)
Definition top_zip (size off : Z) : block :=
  demo_local [97] [] ++ demo_central [97] size off ++ demo_end 1 31.
Definition top_map : MemMapping := mkMap (2 ^ 32 - 8192) 100 (2 ^ 32 - 8192) 100.
Definition top_parse (size off : Z) : outcome (bool * ZipArchive * list event) :=
  @parseZipArchive ILP32 safe_add_uintptr32 safe_add_long32 true (fun _ => true) (fun _ => true)
    (top_zip size off) top_map demo_archive.

(** With 32-bit pointers the sum [localHdr + LOCHDR] of the bound check can wrap, and the
    header is then read outside the mapping. *)
Theorem local_header_check_wraps : top_parse 0 (8192 - 10) = Trap OutOfBounds.
Proof. vm_compute. reflexivity. Qed.

(** With a 32-bit [long] a compressed size of 2^32 - 1 becomes -1 and is accepted. *)
Theorem negative_compLen_accepted :
  (let* (ok, a, _) := top_parse (2 ^ 32 - 1) 0 in
   Val (ok, option_map (List.map compLen) (pZipEntries a))) = Val (true, Some [-1]).
Proof. vm_compute. reflexivity. Qed.
