(* ===== verification/ZipExtract.v ===== *)
(** * minzip/Zip.c: reading and extracting entries

    The archive's descriptor is a file [file] and a position; [rd pos count] is what
    [read] returns there.  The callbacks of [mzProcessZipEntryContents] take a chunk and
    their cookie and give back the C result and the cookie.  zlib ([inflateInit2],
    [inflate], [crc32]) is outside the repository and a parameter.  [mzExtractRecursive]
    records its system calls in a trace and takes their results from an oracle; its
    local [bool ok] that shadows the function's [ok] is kept. *)

From stdpp Require Import base numbers list sorting.
From S2P Require Import Prelude CString Bits Hash Zip.

(** ** Streaming an entry *)

Definition CHUNK : Z := 32 * 1024.

(** zlib's inflate: the state after [inflateInit2] or its error code; one call of
    [inflate] on the input [next_in .. next_in + avail_in] with [avail_out] bytes of
    room gives the return code, the input consumed, the output and the new state. *)
Record zlib := mkZlib {
  zstate : Type;
  inflateInit2 : Z + zstate;
  inflate : zstate -> block -> Z -> Z * Z * block * zstate
}.
Definition Z_OK : Z := 0.
Definition Z_STREAM_END : Z := 1.

Section Stream.
Context `{Arch}.
Variable file : block.
Variable rd : Z -> Z -> Z.
Context {C : Type}.
Variable processFunction : block -> C -> outcome (bool * C).

Fixpoint stored_loop (fuel : nat) (pos bytesLeft : Z) (cookie : C) : outcome (bool * C) :=
  if bytesLeft <=? 0 then Val (true, cookie) else
  match fuel with
  | O => Trap NoFuel
  | S fuel =>
      let count := if CHUNK <? bytesLeft then CHUNK else bytesLeft in
      let n := rd pos count in
      if (n <? 0) || negb (n =? count) then Val (false, cookie) else
      let* (ret, cookie) := processFunction (slice file pos n) cookie in
      if negb ret then Val (false, cookie)
      else stored_loop fuel (pos + n) (bytesLeft - count) cookie
  end.

Definition processStoredEntry (e : ZipEntry) (pos : Z) (cookie : C) : outcome (bool * C) :=
  let bytesLeft := wrapu word_bits (compLen e) in
  stored_loop (Z.to_nat (bytesLeft / CHUNK + 1)) pos bytesLeft cookie.

Variable zl : zlib.

(** The [z_stream] and the loop's locals: unread input, output pending in [procBuf],
    bytes produced in all, bytes of the entry not read yet, file position. *)
Record inflating := mkInflating {
  z_in : block;
  z_out : block;
  total_out : Z;
  compRemaining : Z;
  fpos : Z;
  z_state : zstate zl
}.

(** Read the next part of the entry when the input is used up; [None] after a failed
    read.  A negative size would tell zlib of 2^32 bytes in the buffer. *)
Definition inflate_refill (st : inflating) : outcome (option inflating) :=
  if zlen (z_in st) =? 0 then
    let getSize := if CHUNK <? compRemaining st then CHUNK else compRemaining st in
    let cc := i32 (rd (fpos st) getSize) in
    if negb (cc =? i32 getSize) then Val None
    else if getSize <? 0 then Trap OutOfBounds
    else Val (Some (mkInflating (slice file (fpos st) getSize) (z_out st) (total_out st)
                      (compRemaining st - getSize) (fpos st + getSize) (z_state st)))
  else Val (Some st).

(** The [do]-[while]; the result is [total_out], or -1 after [z_bail]. *)
Fixpoint inflate_loop (fuel : nat) (st : inflating) (cookie : C) : outcome (Z * C) :=
  match fuel with
  | O => Trap NoFuel
  | S fuel =>
      let* filled := inflate_refill st in
      match filled with
      | None => Val (-1, cookie)
      | Some st =>
          let '(zerr, consumed, produced, zs) :=
            inflate zl (z_state st) (z_in st) (CHUNK - zlen (z_out st)) in
          if negb (zerr =? Z_OK) && negb (zerr =? Z_STREAM_END) then Val (-1, cookie) else
          let out := z_out st ++ produced in
          let total := wrapu word_bits (total_out st + zlen produced) in
          let rest := drop (Z.to_nat consumed) (z_in st) in
          let continue out cookie :=
            if zerr =? Z_OK then
              inflate_loop fuel (mkInflating rest out total (compRemaining st) (fpos st) zs) cookie
            else Val (wraps word_bits total, cookie) in
          if (CHUNK - zlen out =? 0) || ((zerr =? Z_STREAM_END) && negb (zlen out =? 0)) then
            let* (ret, cookie) := processFunction out cookie in
            if negb ret then Val (-1, cookie) else continue [] cookie
          else continue out cookie
      end
  end.

Definition processDeflatedEntry (fuel : nat) (e : ZipEntry) (pos : Z) (cookie : C) : outcome (bool * C) :=
  let* (result, cookie) :=
    match inflateInit2 zl with
    | inl _ => Val (-1, cookie)
    | inr zs => inflate_loop fuel (mkInflating [] [] 0 (compLen e) pos zs) cookie
    end in
  if negb (result =? uncompLen e) then Val (false, cookie) else Val (true, cookie).

(** The result, the cookie and the file position, which is restored.  [lseek] to a
    negative offset fails and leaves the position. *)
Definition mzProcessZipEntryContents (fuel : nat) (e : ZipEntry) (pos : Z) (cookie : C) :
    outcome (bool * C * Z) :=
  let oldOff := pos in
  let pos := if offset e <? 0 then pos else offset e in
  let* (ret, cookie) :=
    if compression e =? STORED then processStoredEntry e pos cookie
    else if compression e =? DEFLATED then processDeflatedEntry fuel e pos cookie
    else Val (false, cookie) in
  Val (ret, cookie, oldOff).
End Stream.

(** ** The callbacks and their callers *)

Section Callbacks.
Context `{Arch}.
Variable file : block.
Variable rd : Z -> Z -> Z.
Variable zl : zlib.
(** zlib's running CRC: from a value and more data, the next value. *)
Variable crc32_update : Z -> block -> Z.
(** [crc32(0L, Z_NULL, 0)]. *)
Variable crc32_init : Z.
Variable fuel : nat.

Definition crcProcessFunction (data : block) (crc : Z) : outcome (bool * Z) :=
  Val (true, crc32_update crc data).

Definition mzIsZipEntryIntact (e : ZipEntry) (pos : Z) : outcome bool :=
  let* (ret, crc, _) := mzProcessZipEntryContents file rd crcProcessFunction zl fuel e pos crc32_init in
  if negb ret then Val false
  else if negb (crc =? wrapu word_bits (crc32 e)) then Val false
  else Val true.

(** The caller's buffer and the cursor into it. *)
Record CopyProcessArgs := mkCopy { cp_mem : block; cp_buf : Z; cp_bufLen : Z }.

Definition copyProcessFunction (data : block) (args : CopyProcessArgs) : outcome (bool * CopyProcessArgs) :=
  let dataLen := zlen data in
  if dataLen <=? cp_bufLen args then
    let* m := store_bytes (cp_mem args) (cp_buf args) data in
    Val (true, mkCopy m (cp_buf args + dataLen) (cp_bufLen args - dataLen))
  else Val (false, args).

Definition mzReadZipEntry (e : ZipEntry) (pos : Z) (buf : block) (bufLen : Z) : outcome (bool * block) :=
  let* (ret, args, _) :=
    mzProcessZipEntryContents file rd copyProcessFunction zl fuel e pos (mkCopy buf 0 bufLen) in
  Val (ret, cp_mem args).

Definition EINTR : Z := 4.

(** The descriptor being written: the results of the coming [write] calls (count and
    errno) and the bytes written so far. *)
Record sink := mkSink { sk_results : list (Z * Z); sk_bytes : block }.

Fixpoint write_loop (results : list (Z * Z)) (data : block) (soFar : Z) (written : block) :
    outcome (bool * sink) :=
  match results with
  | [] => Trap NoFuel
  | (n, errno) :: results =>
      if n <=? 0 then
        if negb (errno =? EINTR) then Val (false, mkSink results written)
        else write_loop results data soFar written
      else
        let written := written ++ slice data soFar n in
        let soFar := soFar + n in
        if soFar =? zlen data then Val (true, mkSink results written)
        else if zlen data <? soFar then Val (false, mkSink results written)
        else write_loop results data soFar written
  end.

Definition writeProcessFunction (data : block) (cookie : sink) : outcome (bool * sink) :=
  write_loop (sk_results cookie) data 0 (sk_bytes cookie).

Definition mzExtractZipEntryToFile (e : ZipEntry) (pos : Z) (out : sink) : outcome (bool * sink) :=
  let* (ret, out, _) := mzProcessZipEntryContents file rd writeProcessFunction zl fuel e pos out in
  Val (ret, out).

(** [buffer] is a cursor into the caller's block [be_mem]. *)
Record BufferExtractCookie := mkBec { be_mem : block; be_buffer : Z; be_len : Z }.

Definition bufferProcessFunction (data : block) (bec : BufferExtractCookie) :
    outcome (bool * BufferExtractCookie) :=
  let* m := store_bytes (be_mem bec) (be_buffer bec) data in
  let* len := c_int word_bits (be_len bec - zlen data) in
  Val (true, mkBec m (be_buffer bec + zlen data) len).

Definition mzExtractZipEntryToBuffer (e : ZipEntry) (pos : Z) (buffer : block) : outcome (bool * block) :=
  let* (ret, bec, _) := mzProcessZipEntryContents file rd bufferProcessFunction zl fuel e pos
                          (mkBec buffer 0 (mzGetZipEntryUncompLen e)) in
  if negb ret || negb (be_len bec =? 0) then Val (false, be_mem bec) else Val (true, be_mem bec).
End Callbacks.

(** ** Streaming: the data reaches the callback exactly *)

(** [wpx X m Q]: [m] returns and satisfies [Q], or traps in a way [X] allows. *)
Definition wpx {A} (X : trap -> Prop) (m : outcome A) (Q : A -> Prop) : Prop :=
  match m with Val a => Q a | Trap t => X t end.

Lemma wpx_bind {A B} X (m : outcome A) (f : A -> outcome B) Q :
  wpx X m (fun a => wpx X (f a) Q) -> wpx X (m ≫= f) Q.
Proof. by destruct m. Qed.

Lemma wpx_mono {A} X (m : outcome A) (P Q : A -> Prop) :
  wpx X m P -> (forall a, P a -> Q a) -> wpx X m Q.
Proof. destruct m; simpl; eauto. Qed.

Lemma wpx_wp {A} (m : outcome A) Q : wpx (fun _ => False) m Q <-> wp m Q.
Proof. by destruct m. Qed.

(** zlib's documented behaviour: [zinv s x y] says that the state [s] has consumed [x]
    and produced [y]; [decoded x y] that the raw deflate stream [x] is complete and
    expands to [y].  A call consumes and produces within its limits, makes progress
    unless it ends or fails, and no stream expands more than 1032 times. *)
Record zlib_ok (zl : zlib) (zinv : zstate zl -> block -> block -> Prop) (decoded : block -> block -> Prop) : Prop := {
  zo_init : forall s, inflateInit2 zl = inr s -> zinv s [] [];
  zo_step : forall s x y inp room zerr n out s', zinv s x y -> 0 <= room ->
    inflate zl s inp room = (zerr, n, out, s') -> zerr = Z_OK \/ zerr = Z_STREAM_END ->
    0 <= n <= zlen inp /\ zlen out <= room /\
    zinv s' (x ++ take (Z.to_nat n) inp) (y ++ out);
  zo_progress : forall s x y inp room zerr n out s', zinv s x y -> 0 < room ->
    inflate zl s inp room = (zerr, n, out, s') -> zerr = Z_OK -> 0 < n \/ 0 < zlen out;
  zo_end : forall s x y inp room n out s', zinv s x y ->
    inflate zl s inp room = (Z_STREAM_END, n, out, s') -> decoded (x ++ take (Z.to_nat n) inp) (y ++ out);
  zo_ratio : forall s x y, zinv s x y -> zlen y <= 1032 * zlen x
}.

(** [read] fails with -1 or gives at most what was asked and what the file has. *)
Definition read_ok (file : block) (rd : Z -> Z -> Z) : Prop :=
  forall pos count, 0 <= pos -> 0 <= count ->
    -1 <= rd pos count <= count /\ (0 < rd pos count -> pos + rd pos count <= zlen file).

Section StreamSpec.
Context `{Arch} (file : block) (rd : Z -> Z -> Z) {C : Type}.
Variable processFunction : block -> C -> outcome (bool * C).
Hypothesis Hrd : read_ok file rd.

(** [I s c]: the cookie is [c] after the callback has taken the data [s]. *)
Variable X : trap -> Prop.
Variable I : block -> C -> Prop.
Hypothesis Hproc : forall s c d, I s c -> 0 < zlen d <= CHUNK ->
  wpx X (processFunction d c) (fun '(b, c') => b = true -> I (s ++ d) c').

Lemma stored_loop_spec fuel pos left s c :
  I s c -> 0 <= pos -> 0 <= left -> left < CHUNK * Z.of_nat fuel + 1 ->
  wpx X (stored_loop file rd processFunction fuel pos left c) (fun '(b, c') =>
    b = true -> I (s ++ slice file pos left) c').
Proof.
  revert pos left s c. induction fuel as [| fuel IH]; intros pos left s c HI Hp Hl Hf; cbn [stored_loop];
    destruct (Z.leb_spec left 0); try lia.
  1, 2: simpl; intros _; replace left with 0 by lia; by rewrite slice_0, app_nil_r.
  set (count := if CHUNK <? left then CHUNK else left).
  assert (0 < count <= CHUNK /\ count <= left /\ (count < CHUNK -> count = left)) as (Hc1 & Hc2 & Hc3).
  { unfold count, CHUNK in *. destruct (Z.ltb_spec (32 * 1024) left); lia. }
  destruct (_ || _) eqn:E; [done |].
  apply orb_false_iff in E as [E1%Z.ltb_ge E2%negb_false_iff]. apply Z.eqb_eq in E2.
  destruct (Hrd pos count) as [_ Hav]; [lia .. |]. rewrite E2 in *. specialize (Hav ltac:(lia)).
  assert (zlen (slice file pos count) = count) as Hz by (apply zlen_slice; lia).
  apply wpx_bind. eapply wpx_mono; [apply (Hproc s); [done | lia] |].
  intros [b c'] Hb. destruct b; [cbn [negb] | done].
  eapply wpx_mono; [apply (IH _ _ _ _ (Hb eq_refl)); try lia; unfold CHUNK in *; lia |].
  intros [b' c''] Hb' Ht. specialize (Hb' Ht). rewrite <- app_assoc, <- slice_app in Hb' by lia.
  by replace (count + (left - count)) with left in Hb' by lia.
Qed.

Lemma processStoredEntry_spec e pos c :
  I [] c -> 0 <= pos -> 0 <= compLen e < 2 ^ word_bits ->
  wpx X (processStoredEntry file rd processFunction e pos c) (fun '(b, c') =>
    b = true -> I (slice file pos (compLen e)) c').
Proof.
  intros HI Hp Hc. unfold processStoredEntry. rewrite wrapu_id by lia.
  eapply wpx_mono; [apply (stored_loop_spec _ _ _ []); try done; try lia |]; [| by intros []].
  assert (0 <= compLen e / CHUNK) by (apply Z.div_pos; unfold CHUNK; lia).
  rewrite Z2Nat.id by lia. pose proof (Z.mul_succ_div_gt (compLen e) CHUNK ltac:(unfold CHUNK; lia)).
  unfold Z.succ in *. lia.
Qed.

Variable zl : zlib.
Variable zinv : zstate zl -> block -> block -> Prop.
Variable decoded : block -> block -> Prop.
Hypothesis Hzl : zlib_ok zl zinv decoded.
Variables pos0 len0 : Z.
Hypothesis Hpos0 : 0 <= pos0.
Hypothesis Hlen0 : 0 <= len0 /\ 1033 * len0 < 2 ^ (word_bits - 1).

(** The loop has consumed [x] of the entry, produced [y], and given [s] to the callback. *)
Record inflate_inv (st : inflating zl) (x y s : block) (c : C) : Prop := {
  ii_zinv : zinv (z_state _ st) x y;
  ii_rem : 0 <= compRemaining _ st <= len0;
  ii_pos : fpos _ st = pos0 + (len0 - compRemaining _ st);
  ii_in : x ++ z_in _ st = slice file pos0 (len0 - compRemaining _ st);
  ii_out : y = s ++ z_out _ st;
  ii_room : zlen (z_out _ st) < CHUNK;
  ii_total : total_out _ st = zlen y;
  ii_len : zlen x + zlen (z_in _ st) = len0 - compRemaining _ st;
  ii_cookie : I s c
}.

Definition inflate_post (r : Z * C) : Prop :=
  r.1 = -1 \/ exists k y, 0 <= k <= len0 /\ decoded (slice file pos0 k) y /\ r.1 = zlen y /\ I y r.2.

(** The refill at the head of the loop. *)
Lemma refill_spec st x y s c :
  inflate_inv st x y s c ->
  exists r, inflate_refill file rd zl st = Val r /\
    match r with None => True | Some st' => inflate_inv st' x y s c /\ z_state _ st' = z_state _ st end.
Proof.
  intros Hinv. pose proof Hinv as [Hz Hr Hp Hin Hout Hroom Htot Hlen HI]. unfold inflate_refill.
  destruct (Z.eqb_spec (zlen (z_in _ st)) 0) as [E |]; [| by exists (Some st)].
  assert (z_in _ st = []) as Ein by (destruct (z_in _ st); [done | rewrite zlen_cons in E; pose proof (zlen_nonneg l); lia]).
  cbv zeta. set (g := if CHUNK <? compRemaining _ st then CHUNK else compRemaining _ st).
  assert (0 <= g <= CHUNK /\ g <= compRemaining _ st) as [Hg1 Hg2].
  { unfold g, CHUNK. destruct (Z.ltb_spec (32 * 1024) (compRemaining _ st)); lia. }
  destruct (Hrd (fpos _ st) g) as [Hn Hav]; [lia .. |]. unfold CHUNK in *.
  rewrite !wraps_id by lia. destruct (Z.eqb_spec (rd (fpos _ st) g) g) as [Eg |]; cbn [negb]; [| by eexists].
  rewrite (proj2 (Z.ltb_ge g 0)) by lia. eexists. split; [done |]. split; [| done].
  assert (zlen (slice file (fpos _ st) g) = g) as Hsl.
  { destruct (decide (g = 0)) as [-> |]; [done |]. apply zlen_slice; lia. }
  split; simpl; try done; try lia; unfold CHUNK; try lia.
  rewrite Ein, app_nil_r in Hin. rewrite Hin, Hp.
  replace (len0 - (compRemaining _ st - g)) with ((len0 - compRemaining _ st) + g) by lia.
  by rewrite slice_app by lia.
Qed.

(** The state after a successful call of [inflate]. *)
Lemma inflate_step st x y s c zerr n out zs :
  inflate_inv st x y s c ->
  inflate zl (z_state _ st) (z_in _ st) (CHUNK - zlen (z_out _ st)) = (zerr, n, out, zs) ->
  zerr = Z_OK \/ zerr = Z_STREAM_END ->
  let x' := x ++ take (Z.to_nat n) (z_in _ st) in
  let rest := drop (Z.to_nat n) (z_in _ st) in
  zinv zs x' (y ++ out) /\ zlen x' = zlen x + n /\ 0 <= n /\ zlen (z_out _ st ++ out) <= CHUNK /\
  x' ++ rest = slice file pos0 (len0 - compRemaining _ st) /\ zlen x' + zlen rest = len0 - compRemaining _ st /\
  x' = slice file pos0 (zlen x') /\ wrapu word_bits (total_out _ st + zlen out) = zlen (y ++ out) /\
  zlen (y ++ out) <= 1032 * zlen x' /\ zlen x' <= len0.
Proof.
  intros [Hz Hr Hp Hin Hout Hroom Htot Hlen HI] Hi Herr x' rest.
  assert (0 <= CHUNK - zlen (z_out _ st)) as Hroom' by lia.
  destruct (zo_step _ _ _ Hzl _ _ _ _ _ _ _ _ _ Hz Hroom' Hi Herr) as (Hn & Hol & Hz').
  pose proof (zlen_nonneg x). pose proof (zlen_nonneg (z_in _ st)). pose proof (zlen_nonneg (y ++ out)).
  assert (zlen x' = zlen x + n) as Hx'.
  { unfold x'. rewrite zlen_app. f_equal. unfold zlen in *. rewrite length_take. lia. }
  assert (x' ++ rest = slice file pos0 (len0 - compRemaining _ st)) as Happ.
  { unfold x', rest. rewrite <- app_assoc, take_drop. done. }
  assert (zlen rest = zlen (z_in _ st) - n) as Hrest.
  { unfold rest, zlen in *. rewrite length_drop. lia. }
  pose proof (zo_ratio _ _ _ Hzl _ _ _ Hz') as Hratio. fold x' in Hratio.
  split_and!; try done; try lia.
  - rewrite zlen_app. lia.
  - assert (take (length x') (slice file pos0 (len0 - compRemaining _ st)) = x') as Ht
      by (rewrite <- Happ; apply take_app_length).
    rewrite <- Ht at 1. unfold slice. rewrite take_take. f_equal. unfold zlen in *. lia.
  - rewrite Htot, <- zlen_app. apply wrapu_id. split; [lia |].
    assert (2 ^ (word_bits - 1) <= 2 ^ word_bits) by (apply Z.pow_le_mono_r; destruct word_bits_ok; lia). lia.
Qed.

Lemma inflate_loop_spec fuel st x y s c :
  inflate_inv st x y s c ->
  (len0 - zlen x) + (1032 * len0 - zlen y) < Z.of_nat fuel ->
  wpx X (inflate_loop file rd processFunction zl fuel st c) inflate_post.
Proof.
  revert st x y s c. induction fuel as [| fuel IH]; intros st x y s c Hinv Hf.
  { exfalso. pose proof Hinv as [Hz Hr _ _ _ _ _ Hlen _]. pose proof (zo_ratio _ _ _ Hzl _ _ _ Hz).
    pose proof (zlen_nonneg (z_in _ st)). lia. }
  cbn [inflate_loop]. destruct (refill_spec _ _ _ _ _ Hinv) as (r & -> & Hr). cbn [mbind outcome_bind].
  destruct r as [st' |]; [| by left]. destruct Hr as [Hinv' _]. clear Hinv st. rename st' into st.
  destruct (inflate zl _ _ _) as [[[zerr n] out] zs] eqn:Hi.
  assert (0 < CHUNK - zlen (z_out _ st)) as Hroom by (destruct Hinv'; lia).
  destruct (negb (zerr =? Z_OK) && negb (zerr =? Z_STREAM_END)) eqn:Herr; [by left |].
  assert (zerr = Z_OK \/ zerr = Z_STREAM_END) as Herr'.
  { apply andb_false_iff in Herr as [V%negb_false_iff | V%negb_false_iff]; apply Z.eqb_eq in V; auto. }
  destruct (inflate_step _ _ _ _ _ _ _ _ _ Hinv' Hi Herr') as
    (Hz' & Hx' & Hn & Hol & Happ & Hrl & Hxs & Htot & Hratio & Hxl).
  set (x' := x ++ take (Z.to_nat n) (z_in _ st)) in *. set (out' := z_out _ st ++ out) in *.
  rewrite Htot.
  assert (y ++ out = s ++ out') as Hy by (unfold out'; by rewrite (ii_out _ _ _ _ _ Hinv'), <- app_assoc).
  (* the tail of the round, with the output that stays pending *)
  assert (forall s' pend c', I s' c' -> y ++ out = s' ++ pend -> zlen pend < CHUNK ->
    (zerr = Z_STREAM_END -> pend = []) ->
    wpx X (if zerr =? Z_OK then inflate_loop file rd processFunction zl fuel
        (mkInflating zl (drop (Z.to_nat n) (z_in _ st)) pend (zlen (y ++ out)) (compRemaining _ st) (fpos _ st) zs) c'
      else Val (wraps word_bits (zlen (y ++ out)), c')) inflate_post) as Hcont.
  { intros s' pend c' HI' Hs' Hpend Hend. destruct (Z.eqb_spec zerr Z_OK) as [Eok |].
    - destruct (zo_progress _ _ _ Hzl _ _ _ _ _ _ _ _ _ (ii_zinv _ _ _ _ _ Hinv') Hroom Hi Eok);
        (apply (IH _ x' (y ++ out) s'); [| rewrite zlen_app in *; pose proof (zlen_nonneg out); lia]);
        destruct Hinv'; by split.
    - destruct Herr' as [| ->]; [done |]. right. exists (zlen x'), (y ++ out). simpl.
      split_and!; [rewrite Hx'; pose proof (zlen_nonneg x); lia | done | | |].
      + rewrite <- Hxs. by eapply zo_end; [| eapply ii_zinv |].
      + apply wraps_id; [destruct word_bits_ok; lia |]. pose proof (zlen_nonneg (y ++ out)). lia.
      + rewrite Hs', Hend, app_nil_r by done. done. }
  destruct (_ || _) eqn:Eflush.
  - assert (0 < zlen out') as Hpos.
    { apply orb_true_iff in Eflush as [E%Z.eqb_eq | [_ E%negb_true_iff%Z.eqb_neq]%andb_true_iff];
        pose proof (zlen_nonneg out'); unfold CHUNK in *; lia. }
    apply wpx_bind. eapply wpx_mono; [apply (Hproc s); [apply Hinv' | lia] |].
    intros [b c'] Hb. destruct b; cbn [negb]; [| by left].
    apply (Hcont (s ++ out')); [by apply Hb | by rewrite app_nil_r | rewrite zlen_nil; unfold CHUNK; lia | done].
  - apply orb_false_iff in Eflush as [E1%Z.eqb_neq E2].
    apply (Hcont s); [apply Hinv' | done | lia |]. intros ->. rewrite Z.eqb_refl in E2. simpl in E2.
    apply negb_false_iff, Z.eqb_eq in E2. destruct out'; [done |]. rewrite zlen_cons in E2.
    pose proof (zlen_nonneg out'). lia.
Qed.
End StreamSpec.

(** ** The contents of an entry *)

(** The data of the entry: its bytes in the file, or what they inflate to. *)
Definition entry_contents (file : block) (decoded : block -> block -> Prop) (e : ZipEntry) (s : block) : Prop :=
  (compression e = STORED /\ s = slice file (offset e) (compLen e)) \/
  (compression e = DEFLATED /\ zlen s = uncompLen e /\
   exists k, 0 <= k <= compLen e /\ decoded (slice file (offset e) k) s).

(** The entry's sizes make sense (the parser ensures it on 64-bit targets). *)
Record sizes_ok `{Arch} (e : ZipEntry) : Prop := {
  sz_offset : 0 <= offset e;
  sz_comp : 0 <= compLen e;
  sz_small : 1033 * compLen e < 2 ^ (word_bits - 1);
  sz_uncomp : 0 <= uncompLen e
}.

(** Enough rounds for the inflate loop: one per byte consumed or produced. *)
Definition enough (fuel : nat) (e : ZipEntry) : Prop := 1033 * compLen e < Z.of_nat fuel.

Section Contents.
Context `{Arch} (file : block) (rd : Z -> Z -> Z).
Variable zl : zlib.
Variable zinv : zstate zl -> block -> block -> Prop.
Variable decoded : block -> block -> Prop.
Hypothesis Hrd : read_ok file rd.
Hypothesis Hzl : zlib_ok zl zinv decoded.

Lemma process_spec {C} (processFunction : block -> C -> outcome (bool * C)) X (I : block -> C -> Prop) fuel e pos c :
  (forall s c d, I s c -> 0 < zlen d <= CHUNK ->
    wpx X (processFunction d c) (fun '(b, c') => b = true -> I (s ++ d) c')) ->
  sizes_ok e -> enough fuel e -> I [] c ->
  wpx X (mzProcessZipEntryContents file rd processFunction zl fuel e pos c) (fun '(b, c', pos') =>
    pos' = pos /\ (b = true -> exists s, entry_contents file decoded e s /\ I s c')).
Proof.
  intros Hproc [Ho Hc Hs Hu] Hf HI. unfold mzProcessZipEntryContents, enough in *.
  rewrite (proj2 (Z.ltb_ge _ _)) by lia.
  assert (2 ^ (word_bits - 1) <= 2 ^ word_bits) by (apply Z.pow_le_mono_r; destruct word_bits_ok; lia).
  destruct (Z.eqb_spec (compression e) STORED) as [Es |].
  { apply wpx_bind. eapply wpx_mono; [apply (processStoredEntry_spec _ _ _ Hrd X I Hproc); [done | lia ..] |].
    intros [b c'] Hb. simpl. split; [done |]. intros Ht. exists (slice file (offset e) (compLen e)).
    split; [by left | by apply Hb]. }
  destruct (Z.eqb_spec (compression e) DEFLATED) as [Ed |]; [| by simpl].
  unfold processDeflatedEntry. destruct (inflateInit2 zl) as [err | zs] eqn:Hinit.
  { cbn [mbind outcome_bind]. by rewrite (proj2 (Z.eqb_neq (-1) (uncompLen e))) by lia. }
  apply wpx_bind, wpx_bind. eapply wpx_mono.
  { apply (inflate_loop_spec file rd processFunction Hrd X I Hproc zl zinv decoded Hzl (offset e) (compLen e)
      Ho (conj Hc Hs) fuel _ [] [] []); [| rewrite !zlen_nil; lia].
    split; simpl; rewrite ?zlen_nil; try done; try lia.
    - by apply (zo_init _ _ _ Hzl).
    - by rewrite Z.sub_diag, slice_0.
    - by rewrite Z.sub_diag. }
  intros [r c'] Hpost. simpl. destruct (Z.eqb_spec r (uncompLen e)) as [Er |]; [| done].
  split; [done |]. intros _. destruct Hpost as [? | (k & y & Hk & Hdec & Hy & HIy)]; simpl in *; [lia |].
  exists y. split; [| done]. right. split_and!; [done | lia |]. by exists k.
Qed.

Lemma stored_loop_delivered {C} (processFunction : block -> C -> outcome (bool * C)) n off len c :
  (forall pos count, 0 <= pos -> 0 < count -> pos + count <= zlen file -> rd pos count = count) ->
  (forall d c, exists c', processFunction d c = Val (true, c')) ->
  0 <= off -> 0 <= len -> off + len <= zlen file -> len < CHUNK * Z.of_nat n + 1 ->
  exists c', stored_loop file rd processFunction n off len c = Val (true, c').
Proof.
  intros Hfull Hacc. revert off len c. induction n as [| n IH]; intros off len c Hoff Hlen Hin Hf;
    cbn [stored_loop]; destruct (Z.leb_spec len 0); try lia; try (by eexists).
  set (count := if CHUNK <? len then CHUNK else len).
  assert (0 < count <= CHUNK /\ count <= len /\ (count < CHUNK -> count = len)) as (Hc1 & Hc2 & Hc3).
  { unfold count, CHUNK in *. destruct (Z.ltb_spec (32 * 1024) len); lia. }
  rewrite Hfull by lia. rewrite (proj2 (Z.ltb_ge count 0)), Z.eqb_refl by lia. simpl.
  destruct (Hacc (slice file off count) c) as [c' ->]. simpl. apply IH; unfold CHUNK in *; lia.
Qed.

(** A stored entry inside the file is delivered when reads are complete and the
    callback accepts everything. *)
Lemma stored_delivered {C} (processFunction : block -> C -> outcome (bool * C)) fuel e pos c :
  (forall pos count, 0 <= pos -> 0 < count -> pos + count <= zlen file -> rd pos count = count) ->
  (forall d c, exists c', processFunction d c = Val (true, c')) ->
  sizes_ok e -> compression e = STORED -> offset e + compLen e <= zlen file ->
  exists c', mzProcessZipEntryContents file rd processFunction zl fuel e pos c = Val (true, c', pos).
Proof.
  intros Hfull Hacc [Ho Hc Hs Hu] Ecomp Hin. unfold mzProcessZipEntryContents, processStoredEntry.
  rewrite (proj2 (Z.ltb_ge (offset e) 0)), Ecomp by lia. change (STORED =? STORED) with true. cbv iota.
  assert (2 ^ (word_bits - 1) <= 2 ^ word_bits) by (apply Z.pow_le_mono_r; destruct word_bits_ok; lia).
  rewrite wrapu_id by lia.
  assert (0 <= compLen e / CHUNK) by (apply Z.div_pos; unfold CHUNK; lia).
  destruct (stored_loop_delivered processFunction (Z.to_nat (compLen e / CHUNK + 1)) (offset e) (compLen e) c)
    as [c' ->]; try done.
  { rewrite Z2Nat.id by lia. pose proof (Z.mul_succ_div_gt (compLen e) CHUNK ltac:(unfold CHUNK; lia)).
    unfold Z.succ in *. lia. }
  by exists c'.
Qed.

(** *** The four callers *)

Variable crc32_update : Z -> block -> Z.
Variable crc32_init : Z.

(** The CRC of a concatenation is computed piecewise. *)
Definition crc_ok : Prop :=
  (forall c, crc32_update c [] = c) /\
  (forall c a b, crc32_update (crc32_update c a) b = crc32_update c (a ++ b)).

Lemma intact_spec fuel e pos :
  crc_ok -> sizes_ok e -> enough fuel e ->
  wp (mzIsZipEntryIntact file rd zl crc32_update crc32_init fuel e pos) (fun b => b = true ->
    exists s, entry_contents file decoded e s /\ crc32_update crc32_init s = wrapu word_bits (crc32 e)).
Proof.
  intros [Hnil Happ] Hs Hf. unfold mzIsZipEntryIntact. apply wp_bind, wpx_wp. eapply wpx_mono.
  { apply (process_spec _ _ (fun s c => c = crc32_update crc32_init s)); [| done | done | by rewrite Hnil].
    intros s c d -> _. simpl. intros _. apply Happ. }
  intros [[b crc] pos'] [_ Hb]. destruct b; [| done]. cbn [negb].
  destruct (Z.eqb_spec crc (wrapu word_bits (crc32 e))) as [-> |]; [| done]. simpl.
  intros _. destruct (Hb eq_refl) as (s & Hc & E). by exists s.
Qed.

(** The buffer [buf] with [s] at its start. *)
Definition filled (buf s : block) : block := s ++ drop (length s) buf.

Lemma store_filled buf s d : zlen s + zlen d <= zlen buf ->
  store_bytes (filled buf s) (zlen s) d = Val (filled buf (s ++ d)).
Proof.
  intros Hl. unfold filled. rewrite <- (take_drop (length d) (drop (length s) buf)).
  rewrite (store_bytes_app s (take (length d) (drop (length s) buf)) (drop (length d) (drop (length s) buf)) d).
  - by rewrite drop_drop, length_app, <- app_assoc.
  - done.
  - unfold zlen in *. rewrite length_take, length_drop. lia.
Qed.

Lemma read_spec fuel e pos buf bufLen :
  sizes_ok e -> enough fuel e -> 0 <= bufLen <= zlen buf ->
  wp (mzReadZipEntry file rd zl fuel e pos buf bufLen) (fun '(b, buf') => b = true ->
    exists s, entry_contents file decoded e s /\ zlen s <= bufLen /\ buf' = filled buf s).
Proof.
  intros Hs Hf Hbuf. unfold mzReadZipEntry. apply wp_bind, wpx_wp. eapply wpx_mono.
  { apply (process_spec _ _ (fun s a => zlen s <= bufLen /\ a = mkCopy (filled buf s) (zlen s) (bufLen - zlen s)));
      [| done | done |]; [| split; [apply Hbuf | cbv [zlen length Z.of_nat]; by rewrite Z.sub_0_r]].
    intros s c d [Hl ->] Hd. unfold copyProcessFunction. simpl.
    destruct (Z.leb_spec (zlen d) (bufLen - zlen s)); [| by simpl].
    rewrite store_filled by lia. simpl. intros _. rewrite zlen_app. split; [lia |]. f_equal. lia. }
  intros [[b a] pos'] [_ Hb]. simpl. intros Ht. destruct (Hb Ht) as (s & Hc & Hl & ->). by exists s.
Qed.

Lemma write_loop_spec results data soFar written :
  0 <= soFar < zlen data -> wpx (fun t => t = NoFuel) (write_loop results data soFar written)
    (fun '(b, k) => b = true -> sk_bytes k = written ++ slice data soFar (zlen data - soFar)).
Proof.
  revert soFar written. induction results as [| [n errno] results IH]; intros soFar written Hs; cbn [write_loop]; [done |].
  destruct (Z.leb_spec n 0).
  { destruct (negb _); [done | by apply IH]. }
  destruct (Z.eqb_spec (soFar + n) (zlen data)) as [E |].
  { simpl. intros _. by replace (zlen data - soFar) with n by lia. }
  destruct (Z.ltb_spec (zlen data) (soFar + n)); [done |].
  eapply wpx_mono; [apply IH; lia |]. intros [b k] Hb Ht. rewrite (Hb Ht), <- app_assoc, <- slice_app by lia.
  do 2 f_equal. lia.
Qed.

Lemma to_file_spec fuel e pos results before :
  sizes_ok e -> enough fuel e ->
  wpx (fun t => t = NoFuel) (mzExtractZipEntryToFile file rd zl fuel e pos (mkSink results before))
    (fun '(b, k) => b = true -> exists s, entry_contents file decoded e s /\ sk_bytes k = before ++ s).
Proof.
  intros Hs Hf. unfold mzExtractZipEntryToFile. apply wpx_bind. eapply wpx_mono.
  { apply (process_spec _ _ (fun s k => sk_bytes k = before ++ s)); [| done | done | by rewrite app_nil_r].
    intros s c d Hc Hd. unfold writeProcessFunction. eapply wpx_mono; [apply write_loop_spec; lia |].
    intros [b k] Hb Ht. rewrite (Hb Ht), Hc, Z.sub_0_r, <- app_assoc. do 2 f_equal.
    unfold slice, zlen. rewrite Nat2Z.id. simpl. apply take_ge. done. }
  intros [[b k] pos'] [_ Hb]. exact Hb.
Qed.

Lemma to_buffer_spec fuel e pos buf :
  sizes_ok e -> enough fuel e -> uncompLen e <= zlen buf -> zlen buf < 2 ^ (word_bits - 1) ->
  wpx (fun t => t = OutOfBounds) (mzExtractZipEntryToBuffer file rd zl fuel e pos buf)
    (fun '(b, buf') => b = true ->
      exists s, entry_contents file decoded e s /\ zlen s = uncompLen e /\ buf' = filled buf s).
Proof.
  intros Hs Hf Hu Hbig. unfold mzExtractZipEntryToBuffer, mzGetZipEntryUncompLen. apply wpx_bind. eapply wpx_mono.
  { apply (process_spec _ _ (fun s a => zlen s <= zlen buf /\
      a = mkBec (filled buf s) (zlen s) (uncompLen e - zlen s)));
      [| done | done |]; [| split; [apply zlen_nonneg | cbv [zlen length Z.of_nat]; by rewrite Z.sub_0_r]].
    intros s c d [Hl ->] Hd. unfold bufferProcessFunction. simpl.
    destruct (decide (zlen s + zlen d <= zlen buf)) as [Hfit |].
    - rewrite store_filled by lia. cbn [mbind outcome_bind]. unfold c_int. pose proof (sz_uncomp _ Hs).
      assert (in_int word_bits (uncompLen e - zlen s - zlen d) = true) as ->.
      { apply andb_true_iff. rewrite Z.leb_le, Z.ltb_lt. pose proof (zlen_nonneg s). lia. }
      simpl. intros _. rewrite zlen_app. split; [lia |]. f_equal. lia.
    - assert (store_bytes (filled buf s) (zlen s) d = Trap OutOfBounds) as ->; [| done].
      unfold store_bytes. assert (zlen (filled buf s) = zlen buf) as ->.
      { unfold filled, zlen in *. rewrite length_app, length_drop. lia. }
      rewrite (proj2 (Z.leb_gt (zlen s + zlen d) _)) by lia. by rewrite andb_false_r. }
  intros [[b a] pos'] [_ Hb]. destruct b; [cbn [negb orb] | done].
  destruct (Hb eq_refl) as (s & Hc & Hl & ->). simpl. destruct (Z.eqb_spec (uncompLen e - zlen s) 0); [| done].
  simpl. intros _. exists s. split_and!; [done | lia | done].
Qed.
End Contents.

(** ** Path translation *)

Definition SLASH : Z := 47.

Record MzPathHelper := mkHelper {
  targetDir : block;
  zipDir : block;
  hbuf : option block;
  targetDirLen : Z;
  zipDirLen : Z;
  hbufLen : Z
}.

Section Recursive.
Context `{Arch}.
Variable mem : block.  (** the mapped archive *)

(** [realloc]: a block of the size asked for that keeps the old bytes, or NULL. *)
Variable realloc : option block -> Z -> option block.

(** Grow the buffer when the path does not fit; [None] when [realloc] fails. *)
Definition path_grow (helper : MzPathHelper) (e : ZipEntry) : outcome (option MzPathHelper) :=
  let needLen := i32 (u32 (targetDirLen helper + 1 + fileNameLen e - zipDirLen helper + 1)) in
  if hbufLen helper <? needLen then
    let* needLen := c_int 32 (needLen * 2) in
    match realloc (hbuf helper) needLen with
    | None => Val None
    | Some newBuf =>
        Val (Some (mkHelper (targetDir helper) (zipDir helper) (Some newBuf) (targetDirLen helper)
                     (zipDirLen helper) needLen))
    end
  else Val (Some helper).

(** Write the target directory and a slash: the buffer and the new length. *)
Definition path_first (targetDir buf : block) (targetDirLen : Z) : outcome (block * Z) :=
  let* d := load_bytes targetDir 0 targetDirLen in
  let* buf := store_bytes buf 0 d in
  let p := targetDirLen in
  let* slash :=
    if p =? 0 then Val true else let* c := load buf (p - 1) in Val (negb (c =? SLASH)) in
  if (slash : bool) then
    let* buf := store buf p SLASH in Val (buf, targetDirLen + 1)
  else Val (buf, targetDirLen).

Definition targetEntryPath (helper : MzPathHelper) (e : ZipEntry) : outcome (option block * MzPathHelper) :=
  let firstTime := match hbuf helper with None => true | Some _ => false end in
  let* grown := path_grow helper e in
  match grown with
  | None => Val (None, helper)
  | Some helper =>
      match hbuf helper with
      | None => Trap NullDeref
      | Some buf =>
          let* (buf, tlen) :=
            if firstTime then path_first (targetDir helper) buf (targetDirLen helper)
            else Val (buf, targetDirLen helper) in
          let count := u32 (fileNameLen e - zipDirLen helper) in
          let* tail := load_bytes mem (fileName e + zipDirLen helper) count in
          let* buf := store_bytes buf tlen tail in
          let* buf := store buf (tlen + count) 0 in
          Val (Some buf, mkHelper (targetDir helper) (zipDir helper) (Some buf) tlen (zipDirLen helper) (hbufLen helper))
      end
  end.

(** ** Extracting a directory *)

(** The system calls, with the path as the C string passed. *)
Inductive fs_op :=
| OpMkdirs (path : block) (stripFileName : bool)  (** dirCreateHierarchy *)
| OpSelabel (path : block)  (** selabel_lookup and setfscreatecon *)
| OpFreecon
| OpCreat (path : block)
| OpWrite (data : block) (ok : bool)
| OpClose (fd : Z)
| OpUtime (path : block)
| OpSymlink (linkTarget path : block)
| OpCallback (path : block).

(** What the calls return; the first argument is the number of calls before. *)
Variable env : nat -> fs_op -> Z.

Definition MZ_EXTRACT_FILES_ONLY : Z := 1.
Definition MZ_EXTRACT_DRY_RUN : Z := 2.

Variable file : block.
Variable rd : Z -> Z -> Z.
Variable zl : zlib.
Variable fuel : nat.
Variable pos : Z.
Variable malloc : Z -> option block.
(** The results of the [write] calls for the file created as the n-th call. *)
Variable wr : nat -> list (Z * Z).

Variable flags : Z.
Variables timestamp callback sehnd : bool.  (** whether these pointers are non-NULL *)

Record xstate := mkX {
  x_helper : MzPathHelper;
  x_trace : list fs_op;
  x_seen : bool;
  x_ok : bool;
  x_count : Z
}.

Inductive xstep := Next (st : xstate) | Break (st : xstate).

Definition x_call (st : xstate) (op : fs_op) : Z * xstate :=
  (env (length (x_trace st)) op,
   mkX (x_helper st) (x_trace st ++ [op]) (x_seen st) (x_ok st) (x_count st)).
Definition x_set_ok (st : xstate) (ok : bool) : xstate :=
  mkX (x_helper st) (x_trace st) (x_seen st) ok (x_count st).
Definition x_set_helper (st : xstate) (h : MzPathHelper) : xstate :=
  mkX h (x_trace st) (x_seen st) (x_ok st) (x_count st).
Definition x_see (st : xstate) : xstate :=
  mkX (x_helper st) (x_trace st) true (x_ok st) (x_count st).
Definition x_counted (st : xstate) : xstate :=
  mkX (x_helper st) (x_trace st) (x_seen st) (x_ok st) (x_count st + 1).

Definition x_callback (st : xstate) (path : block) : xstate :=
  if callback then (x_call st (OpCallback path)).2 else st.

(** The entry is a directory. *)
Definition extract_dir (st : xstate) (path : block) : outcome xstep :=
  if Z.land flags MZ_EXTRACT_FILES_ONLY =? 0 then
    let '(ret, st) := x_call st (OpMkdirs path false) in
    if negb (ret =? 0) then Val (Break (x_set_ok st false)) else Val (Next (x_callback st path))
  else Val (Next (x_callback st path)).

(** The entry is a symbolic link. *)
Definition extract_symlink (st : xstate) (e : ZipEntry) (path : block) : outcome xstep :=
  if uncompLen e =? 0 then Val (Break (x_set_ok st false)) else
  match malloc (wrapu word_bits (uncompLen e + 1)) with
  | None => Val (Break (x_set_ok st false))
  | Some linkTarget =>
      let* (ok, linkTarget) := mzReadZipEntry file rd zl fuel e pos linkTarget (i32 (uncompLen e)) in
      let st := x_set_ok st ok in
      if negb ok then Val (Break st) else
      let* linkTarget := store linkTarget (uncompLen e) 0 in
      let* target := c_str linkTarget in
      let '(ret, st) := x_call st (OpSymlink target path) in
      if negb (ret =? 0) then Val (Break (x_set_ok st false)) else Val (Next (x_callback st path))
  end.

(** The entry is a regular file.  The [ok] of the extraction is a local variable that
    shadows the function's, so a failure here leaves [x_ok] alone. *)
Definition extract_file (st : xstate) (e : ZipEntry) (path : block) : outcome xstep :=
  let '(secontext, st) := if sehnd then x_call st (OpSelabel path) else (0, st) in
  let '(fd, st) := x_call st (OpCreat path) in
  let st := if negb (secontext =? 0) then (x_call st OpFreecon).2 else st in
  if fd <? 0 then Val (Break (x_set_ok st false)) else
  let* (ok, out) := mzExtractZipEntryToFile file rd zl fuel e pos (mkSink (wr (length (x_trace st))) []) in
  let st := (x_call st (OpWrite (sk_bytes out) ok)).2 in
  let st := (x_call st (OpClose fd)).2 in
  if negb ok then Val (Break st) else
  let '(failed, st) :=
    if timestamp then let '(ret, st) := x_call st (OpUtime path) in (negb (ret =? 0), st) else (false, st) in
  if (failed : bool) then Val (Break st) else Val (Next (x_callback (x_counted st) path)).

(** The part of the loop after the entry has been found to match. *)
Definition extract_entry (st : xstate) (e : ZipEntry) : outcome xstep :=
  let st := x_see st in
  let* (targetFile, helper) := targetEntryPath (x_helper st) e in
  let st := x_set_helper st helper in
  match targetFile with
  | None => Val (Break (x_set_ok st false))
  | Some buf =>
      let* path := c_str buf in
      if negb (Z.land flags MZ_EXTRACT_DRY_RUN =? 0) then Val (Next (x_callback st path)) else
      let* last := load mem (fileName e + wraps word_bits (u32 (fileNameLen e - 1))) in
      if last =? SLASH then extract_dir st path
      else
        let '(ret, st) := x_call st (OpMkdirs path true) in
        if negb (ret =? 0) then Val (Break (x_set_ok st false))
        else if (Z.land flags MZ_EXTRACT_FILES_ONLY =? 0) && mzIsZipEntrySymlink e then extract_symlink st e path
        else extract_file st e path
  end.

(** The loop over the entries: skip before the first match, stop after the last. *)
Fixpoint extract_loop (ents : list ZipEntry) (zpath : block) (zplen : Z) (st : xstate) : outcome xstate :=
  match ents with
  | [] => Val st
  | e :: ents =>
      let mismatch := if x_seen st then Val st else extract_loop ents zpath zplen st in
      if fileNameLen e <? zplen then mismatch else
      let* diff := c_strncmp (Z.to_nat zplen) mem (fileName e) zpath 0 in
      if negb (diff =? 0) then mismatch else
      let* r := extract_entry st e in
      match r with
      | Next st => extract_loop ents zpath zplen st
      | Break st => Val st
      end
  end.

(** [zipDir] with a slash at its end, unless it is empty: the block [zpath] and its
    length. *)
Definition make_zpath (zpath zipDir : block) (len : Z) : outcome (block * Z) :=
  let* (zpath, len) :=
    if 0 <? len then
      let* d := load_bytes zipDir 0 len in
      let* zpath := store_bytes zpath 0 d in
      let* c := load zpath (len - 1) in
      if negb (c =? SLASH) then
        let* zpath := store zpath len SLASH in Val (zpath, len + 1)
      else Val (zpath, len)
    else Val (zpath, len) in
  let* zpath := store zpath len 0 in
  Val (zpath, len).

(** [zipDir] and [targetDir] are C strings; the result, the calls made and the number
    of files extracted. *)
Definition mzExtractRecursive (ents : list ZipEntry) (zipDir targetDir : block) :
    outcome (bool * list fs_op * Z) :=
  let* z0 := load zipDir 0 in
  if z0 =? SLASH then Val (false, [], 0) else
  let* t0 := load targetDir 0 in
  if negb (t0 =? SLASH) then Val (false, [], 0) else
  let* len := c_strlen zipDir 0 in
  let len := u32 len in
  match malloc (u32 (len + 2)) with
  | None => Val (false, [], 0)
  | Some zpath =>
      let* (zpath, len) := make_zpath zpath zipDir len in
      let* tlen := c_strlen targetDir 0 in
      let* zplen := c_strlen zpath 0 in
      let helper := mkHelper targetDir zpath None (i32 tlen) (i32 zplen) 0 in
      let* st := extract_loop ents zpath len (mkX helper [] false true 0) in
      Val (x_ok st, x_trace st, x_count st)
  end.
End Recursive.

(** ** Path translation is exact and stays in its buffer *)

(** A directory with exactly the separator the code adds. *)
Definition dir_slash (d : block) : block :=
  if bool_decide (last d = Some SLASH) then d else d ++ [SLASH].

Definition realloc_ok (realloc : option block -> Z -> option block) : Prop :=
  forall old n b, realloc old n = Some b -> 0 <= n ->
    zlen b = n /\ forall o, old = Some o -> zlen o <= n -> take (length o) b = o.

Lemma load_last (d r : block) c : last d = Some c -> load (d ++ r) (zlen d - 1) = Val c.
Proof.
  intros Hl. apply last_Some in Hl as [d' ->]. apply load_Val. split; [zlia |].
  unfold zlen. rewrite length_app. simpl. replace (Z.to_nat _) with (length d') by lia.
  rewrite <- app_assoc. by apply list_lookup_middle.
Qed.

Lemma zlen_dir_slash d : zlen d <= zlen (dir_slash d) <= zlen d + 1.
Proof. unfold dir_slash. case_bool_decide; zlia. Qed.

Section PathSpec.
Context `{Arch} (mem : block) (realloc : option block -> Z -> option block).
Hypothesis Hrealloc : realloc_ok realloc.
Variables (D r : block) (zp : Z).
Hypothesis HD : zlen D < 2 ^ 20.
Hypothesis Hzp : 0 <= zp.

Record helper_ok (h : MzPathHelper) : Prop := {
  ho_dir : targetDir h = D ++ 0 :: r;
  ho_zip : zipDirLen h = zp;
  ho_buf : match hbuf h with
           | None => targetDirLen h = zlen D /\ hbufLen h = 0
           | Some b => targetDirLen h = zlen (dir_slash D) /\ hbufLen h = zlen b /\
               exists t, b = dir_slash D ++ t
           end
}.

(** Enough room for the target directory, a slash, the rest of the name and the NUL. *)
Lemma path_grow_spec h e :
  helper_ok h -> zp <= fileNameLen e < PATH_MAX ->
  wp (path_grow realloc h e) (fun g =>
    match g with
    | None => exists n, realloc (hbuf h) n = None
    | Some h' => targetDir h' = D ++ 0 :: r /\ zipDirLen h' = zp /\ targetDirLen h' = targetDirLen h /\
        exists b, hbuf h' = Some b /\ hbufLen h' = zlen b /\
          zlen (dir_slash D) + (fileNameLen e - zp) + 1 <= zlen b /\
          (hbuf h <> None -> exists t, b = dir_slash D ++ t)
    end).
Proof.
  intros [Hd Hz Hb] He. pose proof (zlen_dir_slash D). pose proof (zlen_nonneg D). unfold path_grow, PATH_MAX in *.
  assert (zlen D <= targetDirLen h <= zlen D + 1) as Htd by (destruct (hbuf h); lia).
  rewrite Hz, wrapu_id, wraps_id by lia.
  destruct (Z.ltb_spec (hbufLen h) (targetDirLen h + 1 + fileNameLen e - zp + 1)) as [Hgrow | Hfit].
  - apply wp_bind, wp_c_int; [lia |]. destruct (realloc (hbuf h) _) as [b |] eqn:Hre; [| by eexists].
    destruct (Hrealloc _ _ _ Hre ltac:(lia)) as [Hlen Hkeep]. simpl. split_and!; [done .. |].
    exists b. split_and!; [done | done | lia |]. intros Hne. destruct (hbuf h) as [o |]; [| done].
    destruct Hb as (Ht & Ho & t & ->). specialize (Hkeep _ eq_refl ltac:(lia)).
    rewrite <- (take_drop (length (dir_slash D ++ t)) b), Hkeep, <- app_assoc. by eexists.
  - simpl. destruct (hbuf h) as [b |]; [| lia]. destruct Hb as (Ht & Ho & Hpre).
    split_and!; [done .. |]. exists b. split_and!; [done | done | lia |]. done.
Qed.

Lemma path_first_spec b :
  zlen (dir_slash D) <= zlen b ->
  wp (path_first (D ++ 0 :: r) b (zlen D)) (fun '(b', n) =>
    n = zlen (dir_slash D) /\ zlen b' = zlen b /\ exists t, b' = dir_slash D ++ t).
Proof.
  intros Hb. pose proof (zlen_dir_slash D). pose proof (zlen_nonneg D).
  destruct (split_at b (zlen D)) as (h & t & -> & Hh); [lia |]. unfold path_first.
  rewrite (load_bytes_app [] D (0 :: r)) by done. cbn [mbind outcome_bind].
  rewrite (store_bytes_app [] h t D) by done. cbn [mbind outcome_bind app]. rewrite zlen_app in *.
  unfold dir_slash in *. destruct (Z.eqb_spec (zlen D) 0) as [E |].
  - assert (D = []) as E' by (destruct D; [done | zlia]).
    rewrite E', bool_decide_eq_false_2 in * by done. destruct t as [| x t]; [zlia |].
    simpl. split_and!; [done | zlia | by eexists].
  - destruct (last D) as [c |] eqn:El; [| apply last_None in El; rewrite El in *; zlia].
    rewrite (load_last D t c El). cbn [mbind outcome_bind]. destruct (Z.eqb_spec c SLASH) as [-> | Hc].
    + rewrite bool_decide_eq_true_2 in * by done. simpl. split_and!; [done | zlia | by eexists].
    + rewrite bool_decide_eq_false_2 in * by congruence.
      destruct t as [| x t]; [zlia |].
      cbn [negb]. rewrite store_app by done. simpl.
      split_and!; [zlia | zlia |]. exists t. by rewrite <- app_assoc.
Qed.

Definition target_path (e : ZipEntry) : block :=
  dir_slash D ++ drop (Z.to_nat zp) (entry_name mem e).

Lemma targetEntryPath_spec h e :
  helper_ok h -> entry_name_ok mem e -> zp <= fileNameLen e ->
  wp (targetEntryPath mem realloc h e) (fun '(res, h') => helper_ok h' /\
    match res with
    | None => h' = h /\ exists n, realloc (hbuf h) n = None
    | Some b => hbuf h' = Some b /\ exists t, b = target_path e ++ 0 :: t
    end).
Proof.
  intros Hh [N1 N2 N3 _] Hzn. unfold targetEntryPath.
  apply wp_bind. eapply wp_mono; [apply path_grow_spec; [done | lia] |].
  intros [h' |]; [| by simpl]. intros (Hd & Hz & Ht & b & Hb & Hbl & Hroom & Hpre).
  rewrite Hb, Hd, Hz, Ht. apply wp_bind.
  eapply (wp_mono _ (fun '(b', n) => n = zlen (dir_slash D) /\ zlen b' = zlen b /\ exists t, b' = dir_slash D ++ t)).
  { pose proof (ho_buf _ Hh) as Hbuf. destruct (hbuf h) as [o |].
    - destruct Hbuf as (-> & _ & _). simpl. split_and!; [done | done |]. by apply Hpre.
    - destruct Hbuf as [-> _]. apply path_first_spec. lia. }
  unfold PATH_MAX in *. intros [b' n] (-> & Hlb & t & ->). rewrite wrapu_id by lia.
  apply wp_bind, wp_load_bytes; [lia .. |].
  set (k := fileNameLen e - zp) in *. set (tail := slice mem (fileName e + zp) k).
  assert (zlen tail = k) as Htl by (apply zlen_slice; lia).
  rewrite zlen_app in Hlb. destruct (split_at t k) as (t1 & t2 & -> & Ht1); [lia |].
  rewrite zlen_app in Hlb. rewrite store_bytes_app by (done || lia). cbn [mbind outcome_bind].
  destruct t2 as [| y t2]; [zlia |].
  rewrite app_assoc, store_app by (rewrite zlen_app; lia). rewrite zlen_cons in Hlb. simpl.
  assert (tail = drop (Z.to_nat zp) (entry_name mem e)) as Etail.
  { unfold tail, entry_name, slice, k. rewrite skipn_firstn_comm, drop_drop. f_equal; [lia |]. f_equal. lia. }
  split; [split; simpl; try done; split_and!; [done | |] | split; [done |]].
  - rewrite !zlen_app, zlen_cons. lia.
  - eexists. by rewrite <- app_assoc.
  - exists t2. unfold target_path. by rewrite <- Etail, <- app_assoc.
Qed.
End PathSpec.

Lemma dir_slash_nonzero d : Forall (fun c => c <> 0) d -> Forall (fun c => c <> 0) (dir_slash d).
Proof.
  intros Hd. unfold dir_slash. case_bool_decide; [done |]. apply Forall_app. split; [done |].
  by repeat constructor.
Qed.

Lemma printable_nonzero l : Forall printable l -> Forall (fun c => c <> 0) l.
Proof. intros Hl. eapply Forall_impl; [exact Hl |]. unfold printable. lia. Qed.

(** ** The sorted walk visits exactly the directory *)

Section WalkSpec.
Context `{Arch} (mem : block) (realloc : option block -> Z -> option block).
Context (env : nat -> fs_op -> Z) (file : block) (rd : Z -> Z -> Z) (zl : zlib) (fuel : nat) (pos : Z).
Context (malloc : Z -> option block) (wr : nat -> list (Z * Z)) (flags : Z) (timestamp callback sehnd : bool).

Local Abbreviation extract_entry' :=
  (extract_entry mem realloc env file rd zl fuel pos malloc wr flags timestamp callback sehnd).
Local Abbreviation extract_loop' :=
  (extract_loop mem realloc env file rd zl fuel pos malloc wr flags timestamp callback sehnd).

(** The reference: extract every entry of a list, up to the first failure. *)
Fixpoint extract_all (ents : list ZipEntry) (st : xstate) : outcome xstate :=
  match ents with
  | [] => Val st
  | e :: ents =>
      let* r := extract_entry' st e in
      match r with Next st => extract_all ents st | Break st => Val st end
  end.

Lemma x_callback_seen st path : x_seen (x_callback env callback st path) = x_seen st.
Proof. unfold x_callback. by destruct callback. Qed.

Lemma extract_dir_seen st path st' :
  extract_dir env flags callback st path = Val (Next st') -> x_seen st' = x_seen st.
Proof.
  unfold extract_dir. destruct (_ =? 0); [cbn [x_call]; destruct (negb _) |]; intros [= <-];
    by rewrite x_callback_seen.
Qed.

Lemma extract_symlink_seen st e path st' :
  extract_symlink env file rd zl fuel pos malloc callback st e path = Val (Next st') -> x_seen st' = x_seen st.
Proof.
  unfold extract_symlink. destruct (_ =? 0); [done |]. destruct (malloc _); [| done].
  intros ([ok b'] & _ & Hk)%bind_Val_inv. revert Hk. destruct (negb ok); [done |].
  intros (b1 & _ & (t & _ & Hk)%bind_Val_inv)%bind_Val_inv. revert Hk. cbn [x_call].
  destruct (negb _); intros [= <-]. by rewrite x_callback_seen.
Qed.

Lemma extract_file_seen st e path st' :
  extract_file env file rd zl fuel pos wr timestamp callback sehnd st e path = Val (Next st') ->
  x_seen st' = x_seen st.
Proof.
  unfold extract_file.
  set (p := if sehnd then x_call env st (OpSelabel path) else (0, st)).
  assert (x_seen p.2 = x_seen st) as Hp by (unfold p; by destruct sehnd).
  destruct p as [secon st1]. simpl in Hp. cbn [x_call].
  set (st2 := mkX _ _ _ _ _). set (st3 := if negb (secon =? 0) then _ else st2).
  assert (x_seen st3 = x_seen st) as H3 by (unfold st3; by destruct (negb _)).
  clearbody st3. destruct (_ <? 0); [done |].
  intros ([ok out] & _ & Hk)%bind_Val_inv. revert Hk. destruct (negb ok); [done |].
  destruct timestamp; [destruct (negb _); [done |] |]; intros [= <-]; by rewrite x_callback_seen.
Qed.

(** Once an entry has been extracted, [seenMatch] is set. *)
Lemma extract_entry_seen st e st' : extract_entry' st e = Val (Next st') -> x_seen st' = true.
Proof.
  unfold extract_entry. intros ([[buf |] h] & _ & Hk)%bind_Val_inv; [| done].
  revert Hk. intros (path & _ & Hk)%bind_Val_inv. revert Hk. destruct (negb _).
  { intros [= <-]. by rewrite x_callback_seen. }
  intros (l & _ & Hk)%bind_Val_inv. revert Hk. destruct (_ =? SLASH).
  { by intros ->%extract_dir_seen. }
  cbn [x_call]. destruct (negb _); [done |]. destruct (_ && _).
  - by intros ->%extract_symlink_seen.
  - by intros ->%extract_file_seen.
Qed.

Variables (P tail : block).
Hypothesis HP : Forall (fun c => c <> 0) P.

Definition under (e : ZipEntry) : Prop := P `prefix_of` entry_name mem e.
#[global] Instance under_dec e : Decision (under e).
Proof. unfold under. apply _. Defined.

(** The two tests of the loop decide [under]. *)
Lemma walk_test {A} (e : ZipEntry) (hit miss : outcome A) :
  entry_name_ok mem e ->
  (if fileNameLen e <? zlen P then miss else
    let* diff := c_strncmp (Z.to_nat (zlen P)) mem (fileName e) (P ++ 0 :: tail) 0 in
    if negb (diff =? 0) then miss else hit) = if decide (under e) then hit else miss.
Proof.
  intros [N1 N2 N3 N4]. pose proof (zlen_nonneg P). unfold under.
  assert (zlen (entry_name mem e) = fileNameLen e) as Hl by (apply zlen_slice; lia).
  destruct (Z.ltb_spec (fileNameLen e) (zlen P)) as [Hs | Hs].
  { rewrite decide_False; [done |]. intros Hp%prefix_length. unfold zlen in *. lia. }
  assert (slice mem (fileName e) (zlen P) = take (length P) (entry_name mem e)) as Et.
  { unfold entry_name, slice. rewrite take_take. f_equal. unfold zlen in *. lia. }
  assert (slice (P ++ 0 :: tail) 0 (zlen P) = P) as EP by exact (slice_length_app [] P (0 :: tail) _ eq_refl).
  rewrite strncmp_memcmp; rewrite ?Z2Nat.id by lia; try zlia.
  2: { rewrite Et. apply Forall_take. eapply Forall_impl; [exact N4 |]. unfold printable. lia. }
  cbn [mbind outcome_bind]. rewrite EP, Et.
  assert (memcmp (take (length P) (entry_name mem e)) P = 0 <-> P `prefix_of` entry_name mem e) as Hiff.
  { rewrite memcmp_eq by (unfold zlen in *; rewrite length_take; lia). split.
    - intros <-. apply prefix_take.
    - intros [k ->]. by rewrite take_app_length. }
  destruct (Z.eqb_spec (memcmp (take (length P) (entry_name mem e)) P) 0) as [E | E]; cbn [negb].
  - by rewrite decide_True by by apply Hiff.
  - rewrite decide_False; [done |]. by intros ?%Hiff.
Qed.

Lemma walk_seen a ents st :
  under a -> Forall (ent_le mem a) ents -> StronglySorted (ent_le mem) ents ->
  Forall (entry_name_ok mem) ents -> x_seen st = true ->
  extract_loop' ents (P ++ 0 :: tail) (zlen P) st = extract_all (filter under ents) st.
Proof.
  intros Ha. revert st. induction ents as [| e ents IH]; intros st Hle HS Hok Hseen; [done |].
  apply Forall_cons in Hle as [Hae Hle]. apply StronglySorted_cons in HS as [He HS].
  apply Forall_cons in Hok as [Hoe Hok]. cbn [extract_loop].
  rewrite walk_test by done. rewrite filter_cons. destruct (decide (under e)) as [Hu | Hn].
  - cbn [extract_all]. apply bind_ext. intros [st' | st'] Hst'; [| done].
    apply IH; try done. by eapply extract_entry_seen.
  - rewrite Hseen. assert (filter under ents = []) as ->; [| done].
    apply elem_of_nil_inv. intros e' [Hu' He']%list_elem_of_filter. apply Hn. rewrite Forall_forall in He.
    eapply prefix_convex; [exact Ha | exact Hu' | done | by apply He].
Qed.

Lemma walk_filter ents st :
  StronglySorted (ent_le mem) ents -> Forall (entry_name_ok mem) ents -> x_seen st = false ->
  extract_loop' ents (P ++ 0 :: tail) (zlen P) st = extract_all (filter under ents) st.
Proof.
  revert st. induction ents as [| e ents IH]; intros st HS Hok Hseen; [done |].
  apply StronglySorted_cons in HS as [He HS]. apply Forall_cons in Hok as [Hoe Hok]. cbn [extract_loop].
  rewrite walk_test by done. rewrite filter_cons, Hseen. destruct (decide (under e)) as [Hu |]; [| by apply IH].
  cbn [extract_all]. apply bind_ext. intros [st' | st'] Hst'; [| done].
  apply (walk_seen e); try done. by eapply extract_entry_seen.
Qed.

(** *** The dry run *)

Variables (D r : block).
Hypothesis HD : zlen D < 2 ^ 20.
Hypothesis HD0 : Forall (fun c => c <> 0) D.
Hypothesis Hrealloc : realloc_ok realloc.
Hypothesis Hmem : forall o n, realloc o n <> None.
Hypothesis Hdry : Z.land flags MZ_EXTRACT_DRY_RUN <> 0.
Hypothesis Hcb : callback = true.

Lemma dry_entry st e :
  helper_ok D r (zlen P) (x_helper st) -> entry_name_ok mem e -> under e ->
  wp (extract_entry' st e) (fun res => exists h, helper_ok D r (zlen P) h /\
    res = Next (mkX h (x_trace st ++ [OpCallback (target_path mem D (zlen P) e)]) true (x_ok st) (x_count st))).
Proof.
  intros Hh He Hu. assert (zlen P <= fileNameLen e) as Hl.
  { pose proof He as [N1 N2 N3 _]. apply prefix_length in Hu.
    assert (zlen (entry_name mem e) = fileNameLen e) by (apply zlen_slice; lia). unfold zlen in *. lia. }
  unfold extract_entry. apply wp_bind. eapply wp_mono.
  { apply (targetEntryPath_spec mem realloc Hrealloc D r (zlen P) HD (zlen_nonneg P)); done. }
  intros [[b |] h] [Hh' Hres]; [| destruct Hres as (_ & n & Hn); by apply Hmem in Hn].
  destruct Hres as (_ & t & ->). rewrite c_str_app.
  2: { apply Forall_app. split; [by apply dir_slash_nonzero |]. apply Forall_drop, printable_nonzero, He. }
  cbn [mbind outcome_bind]. rewrite (proj2 (Z.eqb_neq _ 0)) by done. cbn [negb wp].
  unfold x_callback. rewrite Hcb. by exists h.
Qed.

Lemma dry_all ents st :
  helper_ok D r (zlen P) (x_helper st) -> Forall (entry_name_ok mem) ents -> Forall under ents ->
  wp (extract_all ents st) (fun st' =>
    x_trace st' = x_trace st ++ ((fun e => OpCallback (target_path mem D (zlen P) e)) <$> ents) /\
    x_ok st' = x_ok st /\ x_count st' = x_count st).
Proof.
  revert st. induction ents as [| e ents IH]; intros st Hh Hok Hu; cbn [extract_all].
  { simpl. by rewrite app_nil_r. }
  apply Forall_cons in Hok as [Hoe Hok]. apply Forall_cons in Hu as [Hue Hu].
  apply wp_bind. eapply wp_mono; [by apply dry_entry |]. intros res (h & Hh' & ->).
  eapply wp_mono; [by apply IH |]. simpl. intros st' (-> & -> & ->). split_and!; [| done | done].
  by rewrite <- app_assoc.
Qed.
End WalkSpec.

(** *** The canonical zip directory *)

Definition zip_prefix (d : block) : block := match d with [] => [] | _ => dir_slash d end.

Lemma make_zpath_spec (d rz zpath : block) :
  zlen zpath = zlen d + 2 ->
  wp (make_zpath zpath (d ++ 0 :: rz) (zlen d)) (fun '(zp, n) =>
    n = zlen (zip_prefix d) /\ exists t, zp = zip_prefix d ++ 0 :: t).
Proof.
  intros Hl. unfold make_zpath. destruct d as [| x d'] eqn:Ed.
  { destruct zpath as [| y zpath]; [rewrite zlen_nil in Hl; zlia |]. simpl. split; [done | by eexists]. }
  rewrite <- Ed in *. assert (0 < zlen d) by (subst; zlia).
  rewrite (proj2 (Z.ltb_lt 0 (zlen d))) by done.
  destruct (split_at zpath (zlen d)) as (h & t & -> & Hh); [lia |].
  rewrite (load_bytes_app [] d (0 :: rz)) by done. cbn [mbind outcome_bind].
  rewrite (store_bytes_app [] h t d) by done. cbn [mbind outcome_bind app].
  destruct (last d) as [c |] eqn:El; [| apply last_None in El; by rewrite El in Ed].
  rewrite (load_last d t c El). cbn [mbind outcome_bind].
  destruct t as [| y1 [| y2 t]]; [zlia | zlia |].
  assert (zip_prefix d = dir_slash d) as -> by (by rewrite Ed). unfold dir_slash.
  destruct (Z.eqb_spec c SLASH) as [-> | Hc]; cbn [negb].
  - rewrite bool_decide_eq_true_2 by done. cbn [mbind outcome_bind]. rewrite store_app by done. simpl.
    split; [done | by eexists].
  - rewrite bool_decide_eq_false_2 by congruence. rewrite store_app by done. cbn [mbind outcome_bind].
    rewrite (app_assoc d [SLASH] (y2 :: t) : d ++ SLASH :: y2 :: t = _).
    rewrite store_app by zlia. simpl. split; [zlia |]. by eexists.
Qed.

(** ** Properties *)

(** A toy zlib: the stream is the data followed by a NUL. *)
Fixpoint demo_scan (inp : block) (room : nat) : block * bool :=
  match inp, room with
  | 0 :: _, _ => ([], true)
  | b :: inp, S room => let '(out, fin) := demo_scan inp room in (b :: out, fin)
  | _, _ => ([], false)
  end.

Definition demo_zlib : zlib :=
  mkZlib bool (inr false) (fun fin inp room =>
    let '(out, e) := demo_scan inp (Z.to_nat room) in
    if fin then (-2, 0, [], fin)
    else if (e : bool) then (Z_STREAM_END, zlen out + 1, out, true)
    else if zlen out =? 0 then (-5, 0, [], fin)
    else (Z_OK, zlen out, out, false)).
Definition demo_zinv (fin : bool) (x y : block) : Prop := if fin then x = y ++ [0] else x = y.
Definition demo_decoded (x y : block) : Prop := x = y ++ [0].

Lemma demo_scan_spec inp room :
  let '(out, fin) := demo_scan inp room in
  (length out <= room)%nat /\ exists rest, inp = out ++ (if fin then [0] else []) ++ rest.
Proof.
  revert room. induction inp as [| b inp IH]; intros room; [simpl; split; [lia | by exists []] |].
  destruct (decide (b = 0)) as [-> |].
  { simpl. split; [lia | by exists inp]. }
  assert (demo_scan (b :: inp) room = match room with
    | O => ([], false) | S room => let '(out, fin) := demo_scan inp room in (b :: out, fin) end) as ->.
  { by destruct b, room. }
  destruct room as [| room]; [split; [done | by eexists] |].
  specialize (IH room). destruct (demo_scan inp room) as [out fin]. destruct IH as (? & rest & ->).
  simpl. split; [lia | by exists rest].
Qed.

Lemma demo_zlib_ok : zlib_ok demo_zlib demo_zinv demo_decoded.
Proof.
  split.
  - by intros s [= <-].
  - intros fin x y inp room zerr n out s' Hinv Hroom. simpl. pose proof (demo_scan_spec inp (Z.to_nat room)) as Hs.
    destruct (demo_scan inp (Z.to_nat room)) as [o e]. destruct Hs as (Hlen & rest & ->).
    destruct fin; [intros [= <- <- <- <-] [|]; done |].
    assert (zlen o <= room) by (unfold zlen; lia).
    destruct e; [| destruct (Z.eqb_spec (zlen o) 0); [intros [= <- <- <- <-] [|]; done |]];
      intros [= <- <- <- <-] _; simpl in Hinv; subst; simpl.
    + split_and!; [zlia | zlia | done |]. rewrite <- app_assoc. f_equal.
      replace (Z.to_nat (zlen o + 1)) with (length (o ++ [0])) by (rewrite length_app; unfold zlen; simpl; lia).
      change (0 :: rest) with ([0] ++ rest). by rewrite app_assoc, take_app_length.
    + split_and!; [zlia | zlia | done |]. unfold zlen. by rewrite Nat2Z.id, take_app_length.
  - intros fin x y inp room zerr n out s' Hinv Hroom. simpl.
    destruct (demo_scan inp (Z.to_nat room)) as [o e]. destruct fin; [intros [= <- <- <- <-]; done |].
    destruct e; [intros [= <- <- <- <-]; done |].
    destruct (Z.eqb_spec (zlen o) 0); intros [= <- <- <- <-] ?; [done |]. pose proof (zlen_nonneg o). lia.
  - intros fin x y inp room n out s' Hinv. simpl. pose proof (demo_scan_spec inp (Z.to_nat room)) as Hs.
    destruct (demo_scan inp (Z.to_nat room)) as [o e]. destruct Hs as (Hlen & rest & ->).
    destruct fin; [done |]. destruct e; [| by destruct (zlen o =? 0)]. intros [= <- <- <-]. simpl in Hinv. subst.
    unfold demo_decoded. rewrite <- app_assoc. f_equal.
    replace (Z.to_nat (zlen o + 1)) with (length (o ++ [0])) by (rewrite length_app; unfold zlen; simpl; lia).
    simpl. change (0 :: rest) with ([0] ++ rest). by rewrite app_assoc, take_app_length.
  - intros fin x y Hinv. unfold demo_zinv in Hinv. destruct fin; subst; zlia.
Qed.

Definition demo_file : block := [9; 9; 5; 6; 7; 0; 8].
Definition demo_rd (pos count : Z) : Z := Z.min count (Z.max 0 (7 - pos)).
Definition demo_deflated : ZipEntry := mkZipEntry 1 0 2 4 3 DEFLATED 0 18 0 0.
Definition demo_stored : ZipEntry := mkZipEntry 1 0 2 3 3 STORED 0 18 0 0.
(** A sum in place of the CRC. *)
Definition demo_crc (c : Z) (d : block) : Z := c + foldr Z.add 0 d.

Lemma demo_rd_ok : read_ok demo_file demo_rd.
Proof. intros pos count Hp Hc. unfold demo_rd. change (zlen demo_file) with 7. lia. Qed.

Lemma demo_crc_ok : crc_ok demo_crc.
Proof.
  split; intros; unfold demo_crc; [simpl; lia |]. rewrite foldr_app.
  assert (forall l z, foldr Z.add z l = foldr Z.add 0 l + z) as Hf.
  { intros l. induction l as [| x l IH]; intros z; simpl; [done |]. rewrite IH. lia. }
  rewrite (Hf a (foldr Z.add 0 b)). lia.
Qed.

Lemma demo_sizes (e : ZipEntry) : e = demo_stored \/ e = demo_deflated -> @sizes_ok LP64 e.
Proof. by intros [-> | ->]. Qed.

Lemma parsed_sizes `{Arch} (mem : block) (pMap : MemMapping) (n cd : Z)
    (ents : list ZipEntry) (t : HashTable Z) :
  map_ok mem pMap -> zip_wf mem pMap n cd -> represents mem n cd ents t ->
  Forall (fun e => sizes_ok e /\ offset e + compLen e <= mlength pMap) ents.
Proof.
  intros Hmap [_ Hcen] [Hperm _]. rewrite Hperm. apply Forall_fmap. eapply Forall_impl; [exact Hcen |].
  intros ptr [_ _ _ _ _ _ _ _ Hdata]. simpl. pose proof (map_word mem pMap Hmap) as E64.
  assert (0 <= cen_offset mem ptr) by (apply wrapu_range; lia).
  pose proof (map_u4 mem pMap Hmap (ptr + CENSIZ)). pose proof (map_u4 mem pMap Hmap (ptr + CENLEN)).
  split; [split; simpl; rewrite ?E64; lia | done].
Qed.



(** C17: [mzReadZipEntry] into a buffer of at least [bufLen] bytes returns and never
    writes past [bufLen]; when it reports success the buffer starts with exactly the
    entry's contents and the rest of it is untouched. *)
Theorem mzReadZipEntry_correct `{Arch} (file : block) (rd : Z -> Z -> Z) (zl : zlib)
    (zinv : zstate zl -> block -> block -> Prop) (decoded : block -> block -> Prop)
    (fuel : nat) (e : ZipEntry) (pos : Z) (buf : block) (bufLen : Z) :
  read_ok file rd -> zlib_ok zl zinv decoded ->
  sizes_ok e -> enough fuel e -> 0 <= bufLen <= zlen buf ->
  wp (mzReadZipEntry file rd zl fuel e pos buf bufLen) (fun '(b, buf') => b = true ->
    exists s, entry_contents file decoded e s /\ zlen s <= bufLen /\ buf' = filled buf s).
Proof. intros Hrd Hzl. by apply (read_spec file rd zl zinv decoded). Qed.

Lemma mzReadZipEntry_correct_witness :
  @mzReadZipEntry LP64 demo_file demo_rd demo_zlib 5000 demo_deflated 0 [1; 1; 1; 1] 4 = Val (true, [5; 6; 7; 1]) /\
  wp (@mzReadZipEntry LP64 demo_file demo_rd demo_zlib 5000 demo_deflated 0 [1; 1; 1; 1] 4)
    (fun '(b, buf') => b = true -> exists s, entry_contents demo_file demo_decoded demo_deflated s /\
      zlen s <= 4 /\ buf' = filled [1; 1; 1; 1] s).
Proof.
  split; [vm_compute; reflexivity |].
  apply (@mzReadZipEntry_correct LP64 demo_file demo_rd demo_zlib demo_zinv demo_decoded); [apply demo_rd_ok | apply demo_zlib_ok | by apply demo_sizes; right | |].
  - by vm_compute.
  - by vm_compute.
Defined.

(** [mzIsZipEntryIntact] says yes only when the CRC of the entry's contents is the
    one in the directory; for a stored entry inside the file, with complete reads, it
    says yes exactly then. *)
Theorem mzIsZipEntryIntact_correct `{Arch} (file : block) (rd : Z -> Z -> Z) (zl : zlib)
    (zinv : zstate zl -> block -> block -> Prop) (decoded : block -> block -> Prop)
    (crc32_update : Z -> block -> Z) (crc32_init : Z) (fuel : nat) (e : ZipEntry) (pos : Z) :
  read_ok file rd -> zlib_ok zl zinv decoded -> crc_ok crc32_update -> sizes_ok e -> enough fuel e ->
  wp (mzIsZipEntryIntact file rd zl crc32_update crc32_init fuel e pos) (fun b =>
    (b = true -> exists s, entry_contents file decoded e s /\
      crc32_update crc32_init s = wrapu word_bits (crc32 e)) /\
    ((forall pos count, 0 <= pos -> 0 < count -> pos + count <= zlen file -> rd pos count = count) ->
     compression e = STORED -> offset e + compLen e <= zlen file ->
     crc32_update crc32_init (slice file (offset e) (compLen e)) = wrapu word_bits (crc32 e) -> b = true)).
Proof.
  intros Hrd Hzl Hcrc Hs Hf.
  destruct (wp_elim _ _ (intact_spec file rd zl zinv decoded Hrd Hzl crc32_update crc32_init fuel e pos Hcrc Hs Hf))
    as (b & Eb & Hb). rewrite Eb. split; [done |]. intros Hfull Hst Hin Hc.
  pose proof (process_spec file rd zl zinv decoded Hrd Hzl (crcProcessFunction crc32_update) (fun _ => False)
    (fun s c => c = crc32_update crc32_init s) fuel e pos crc32_init) as Hp.
  unfold mzIsZipEntryIntact in Eb.
  destruct (stored_delivered file rd zl (crcProcessFunction crc32_update) fuel e pos crc32_init Hfull) as [c Ec];
    try done; [by eexists |].
  rewrite Ec in Hp, Eb. cbn [mbind outcome_bind] in Eb. destruct Hp as [_ Hp]; try done.
  { intros s c' d -> _. simpl. intros _. apply Hcrc. }
  { symmetry. apply Hcrc. }
  destruct (Hp eq_refl) as (s & [[_ ->] | [Hd _]] & Hcs); [| by rewrite Hst in Hd].
  rewrite Hcs, Hc, Z.eqb_refl in Eb. by injection Eb.
Qed.

Lemma mzIsZipEntryIntact_correct_witness :
  @mzIsZipEntryIntact LP64 demo_file demo_rd demo_zlib demo_crc 0 5000 demo_stored 0 = Val true /\
  wp (@mzIsZipEntryIntact LP64 demo_file demo_rd demo_zlib demo_crc 0 5000 demo_stored 0) (fun b =>
    b = true -> exists s, entry_contents demo_file demo_decoded demo_stored s /\ demo_crc 0 s = 18).
Proof.
  split; [vm_compute; reflexivity |]. eapply wp_mono.
  - apply (@mzIsZipEntryIntact_correct LP64 demo_file demo_rd demo_zlib demo_zinv demo_decoded);
      [apply demo_rd_ok | apply demo_zlib_ok | apply demo_crc_ok | by apply demo_sizes; left | by vm_compute].
  - intros b [Hb _]. exact Hb.
Defined.

(** When [mzExtractZipEntryToFile] reports success, exactly the entry's contents
    have been appended to the file, whatever partial and interrupted writes occurred;
    it does not return only while [write] keeps being interrupted. *)
Theorem mzExtractZipEntryToFile_correct `{Arch} (file : block) (rd : Z -> Z -> Z) (zl : zlib)
    (zinv : zstate zl -> block -> block -> Prop) (decoded : block -> block -> Prop)
    (fuel : nat) (e : ZipEntry) (pos : Z) (results : list (Z * Z)) (before : block) :
  read_ok file rd -> zlib_ok zl zinv decoded -> sizes_ok e -> enough fuel e ->
  wpx (fun t => t = NoFuel) (mzExtractZipEntryToFile file rd zl fuel e pos (mkSink results before))
    (fun '(b, k) => b = true -> exists s, entry_contents file decoded e s /\ sk_bytes k = before ++ s).
Proof. intros Hrd Hzl. by apply (to_file_spec file rd zl zinv decoded). Qed.

Lemma mzExtractZipEntryToFile_correct_witness :
  @mzExtractZipEntryToFile LP64 demo_file demo_rd demo_zlib 5000 demo_deflated 0
    (mkSink [(1, 0); (-1, EINTR); (2, 0)] [4]) = Val (true, mkSink [] [4; 5; 6; 7]) /\
  wpx (fun t => t = NoFuel) (@mzExtractZipEntryToFile LP64 demo_file demo_rd demo_zlib 5000 demo_deflated 0
    (mkSink [(1, 0); (-1, EINTR); (2, 0)] [4]))
    (fun '(b, k) => b = true -> exists s, entry_contents demo_file demo_decoded demo_deflated s /\ sk_bytes k = [4] ++ s).
Proof.
  split; [vm_compute; reflexivity |].
  apply (@mzExtractZipEntryToFile_correct LP64 demo_file demo_rd demo_zlib demo_zinv demo_decoded);
    [apply demo_rd_ok | apply demo_zlib_ok | by apply demo_sizes; right | by vm_compute].
Defined.

(** When [mzExtractZipEntryToBuffer] reports success, the buffer starts with exactly
    the entry's contents, which have the announced length, and the rest is untouched.
    The only way it can go wrong is to run past the end of the buffer, when the data is
    longer than announced. *)
Theorem mzExtractZipEntryToBuffer_correct `{Arch} (file : block) (rd : Z -> Z -> Z) (zl : zlib)
    (zinv : zstate zl -> block -> block -> Prop) (decoded : block -> block -> Prop)
    (fuel : nat) (e : ZipEntry) (pos : Z) (buf : block) :
  read_ok file rd -> zlib_ok zl zinv decoded -> sizes_ok e -> enough fuel e ->
  uncompLen e <= zlen buf -> zlen buf < 2 ^ (word_bits - 1) ->
  wpx (fun t => t = OutOfBounds) (mzExtractZipEntryToBuffer file rd zl fuel e pos buf)
    (fun '(b, buf') => b = true ->
      exists s, entry_contents file decoded e s /\ zlen s = uncompLen e /\ buf' = filled buf s).
Proof. intros Hrd Hzl. by apply (to_buffer_spec file rd zl zinv decoded). Qed.

Lemma mzExtractZipEntryToBuffer_correct_witness :
  @mzExtractZipEntryToBuffer LP64 demo_file demo_rd demo_zlib 5000 demo_deflated 0 [1; 1; 1] = Val (true, [5; 6; 7]) /\
  wpx (fun t => t = OutOfBounds)
    (@mzExtractZipEntryToBuffer LP64 demo_file demo_rd demo_zlib 5000 demo_deflated 0 [1; 1; 1])
    (fun '(b, buf') => b = true ->
      exists s, entry_contents demo_file demo_decoded demo_deflated s /\ zlen s = 3 /\ buf' = filled [1; 1; 1] s).
Proof.
  split; [vm_compute; reflexivity |].
  apply (@mzExtractZipEntryToBuffer_correct LP64 demo_file demo_rd demo_zlib demo_zinv demo_decoded);
    [apply demo_rd_ok | apply demo_zlib_ok | by apply demo_sizes; right | by vm_compute ..].
Defined.

(** A stored entry whose data is longer than its announced length overruns the buffer
    of that length the interface asks for. *)
Theorem extract_to_buffer_overruns :
  @mzExtractZipEntryToBuffer LP64 demo_file demo_rd demo_zlib 5000
    (mkZipEntry 1 0 2 3 2 STORED 0 18 0 0) 0 [1; 1] = Trap OutOfBounds.
Proof. vm_compute. reflexivity. Qed.

(** [malloc] gives a block of the size asked for. *)
Definition malloc_gives (malloc : Z -> option block) : Prop :=
  forall n, 0 <= n -> exists b, malloc n = Some b /\ zlen b = n.

(** Valid arguments: a relative [zipDir] and an absolute [targetDir]. *)
Record args_ok (zd D : block) : Prop := {
  ao_zip0 : Forall (fun c => c <> 0) zd;
  ao_zip : head zd <> Some SLASH;
  ao_zlen : zlen zd < 2 ^ 20;
  ao_dir0 : Forall (fun c => c <> 0) D;
  ao_dir : head D = Some SLASH;
  ao_dlen : zlen D < 2 ^ 20
}.

Lemma recursive_walk `{Arch} (mem : block) realloc env file rd zl fuel pos malloc wr flags timestamp callback sehnd
    (ents : list ZipEntry) (zd rz D r : block) :
  StronglySorted (ent_le mem) ents -> Forall (entry_name_ok mem) ents ->
  args_ok zd D -> malloc_gives malloc ->
  exists zp, mzExtractRecursive mem realloc env file rd zl fuel pos malloc wr flags timestamp callback sehnd
      ents (zd ++ 0 :: rz) (D ++ 0 :: r) =
    (let* st := extract_all mem realloc env file rd zl fuel pos malloc wr flags timestamp callback sehnd
       (filter (under mem (zip_prefix zd)) ents)
       (mkX (mkHelper (D ++ 0 :: r) zp None (zlen D) (zlen (zip_prefix zd)) 0) [] false true 0) in
     Val (x_ok st, x_trace st, x_count st)).
Proof.
  intros HS Hok [Z0 Z1 Z2 D0 D1 D2] Hmal. unfold mzExtractRecursive.
  pose proof (zlen_nonneg zd). pose proof (zlen_nonneg D).
  assert (exists c, load (zd ++ 0 :: rz) 0 = Val c /\ c <> SLASH) as (c & -> & Hc).
  { destruct zd as [| x zd]; [by exists 0 |]. exists x. split; [done |]. intros ->. done. }
  cbn [mbind outcome_bind]. rewrite (proj2 (Z.eqb_neq c SLASH)) by done.
  destruct D as [| d0 D'] eqn:ED; [done |]. injection D1 as ->.
  change (load ((SLASH :: D') ++ 0 :: r) 0) with (Val SLASH). cbn [mbind outcome_bind].
  rewrite Z.eqb_refl. cbn [negb]. rewrite <- ED in *. rewrite (c_strlen_app zd) by done. cbn [mbind outcome_bind].
  rewrite !wrapu_id by (rewrite ?wrapu_id; lia). destruct (Hmal (zlen zd + 2) ltac:(lia)) as (b & -> & Hb).
  destruct (wp_elim _ _ (make_zpath_spec zd rz b Hb)) as ([zp n] & -> & -> & t & ->). cbn [mbind outcome_bind].
  assert (Forall (fun c => c <> 0) (zip_prefix zd)) as Hnz.
  { unfold zip_prefix. destruct zd; [constructor | by apply dir_slash_nonzero]. }
  assert (zlen (zip_prefix zd) <= zlen zd + 1) as Hzl.
  { unfold zip_prefix. destruct zd as [| x zd']; [zlia |]. exact (proj2 (zlen_dir_slash (x :: zd'))). }
  rewrite !c_strlen_app by done. cbn [mbind outcome_bind]. pose proof (zlen_nonneg (zip_prefix zd)).
  rewrite !wraps_id by lia. rewrite walk_filter by done. by eexists.
Qed.

(** On sorted entries [mzExtractRecursive], which skips the entries before the
    directory and stops at the first one after it, does the same system calls with the
    same result as a walk that extracts every entry whose name starts with the
    directory's path, up to the first failure. *)
Theorem mzExtractRecursive_walk `{Arch} (mem : block) realloc env file rd zl fuel pos malloc wr flags
    timestamp callback sehnd (ents : list ZipEntry) (zd rz D r : block) :
  StronglySorted (ent_le mem) ents -> Forall (entry_name_ok mem) ents ->
  args_ok zd D -> malloc_gives malloc ->
  exists zp, mzExtractRecursive mem realloc env file rd zl fuel pos malloc wr flags timestamp callback sehnd
      ents (zd ++ 0 :: rz) (D ++ 0 :: r) =
    (let* st := extract_all mem realloc env file rd zl fuel pos malloc wr flags timestamp callback sehnd
       (filter (under mem (zip_prefix zd)) ents)
       (mkX (mkHelper (D ++ 0 :: r) zp None (zlen D) (zlen (zip_prefix zd)) 0) [] false true 0) in
     Val (x_ok st, x_trace st, x_count st)).
Proof. apply recursive_walk. Qed.

(** A dry run of [mzExtractRecursive] reports success, and tells the callback, in
    order, of exactly the entries under the directory, each with the target directory, a
    slash and the rest of its name as its path; nothing else is called. *)
Theorem mzExtractRecursive_dry_run `{Arch} (mem : block) realloc env file rd zl fuel pos malloc wr flags
    timestamp sehnd (ents : list ZipEntry) (zd rz D r : block) :
  StronglySorted (ent_le mem) ents -> Forall (entry_name_ok mem) ents ->
  args_ok zd D -> malloc_gives malloc -> realloc_ok realloc -> (forall o n, realloc o n <> None) ->
  Z.land flags MZ_EXTRACT_DRY_RUN <> 0 ->
  mzExtractRecursive mem realloc env file rd zl fuel pos malloc wr flags timestamp true sehnd
    ents (zd ++ 0 :: rz) (D ++ 0 :: r) =
  Val (true, (fun e => OpCallback (target_path mem D (zlen (zip_prefix zd)) e)) <$>
               filter (under mem (zip_prefix zd)) ents, 0).
Proof.
  intros HS Hok Ha Hmal Hre Hre' Hdry.
  destruct (recursive_walk mem realloc env file rd zl fuel pos malloc wr flags timestamp true sehnd ents zd rz D r)
    as [zp ->]; try done.
  set (P := zip_prefix zd). set (st0 := mkX _ _ _ _ _).
  assert (helper_ok D r (zlen P) (x_helper st0)) as Hh by by split.
  assert (Forall (entry_name_ok mem) (filter (under mem P) ents)) as Hn.
  { rewrite Forall_forall in Hok |- *. intros e [_ ?]%list_elem_of_filter. by apply Hok. }
  assert (Forall (under mem P) (filter (under mem P) ents)) as Hu.
  { apply Forall_forall. by intros e [? _]%list_elem_of_filter. }
  destruct (wp_elim _ _ (dry_all mem realloc env file rd zl fuel pos malloc wr flags timestamp true sehnd
    P D r (ao_dlen _ _ Ha) (ao_dir0 _ _ Ha) Hre Hre' Hdry eq_refl _ st0 Hh Hn Hu)) as (st & -> & E1 & E2 & E3).
  cbn [mbind outcome_bind]. by rewrite E1, E2, E3.
Qed.

(** Four names in a block: "a", "d/x", "d/y" and "e", sorted. *)
Definition demo_names : block := [97; 100; 47; 120; 100; 47; 121; 101].
Definition demo_ent (p n : Z) : ZipEntry := mkZipEntry n p 2 3 3 STORED 0 18 0 0.
Definition demo_ents : list ZipEntry := [demo_ent 0 1; demo_ent 1 3; demo_ent 4 3; demo_ent 7 1].
Definition demo_malloc (n : Z) : option block := Some (replicate (Z.to_nat n) 0).
Definition demo_realloc (old : option block) (n : Z) : option block :=
  let o := default [] old in
  Some (take (Z.to_nat n) o ++ replicate (Z.to_nat n - length o) 0).

#[global] Instance ent_le_dec mem : RelDecision (ent_le mem).
Proof. intros a b. unfold ent_le. apply _. Defined.
#[global] Instance printable_dec c : Decision (printable c).
Proof. unfold printable. apply _. Defined.

Lemma demo_sorted : StronglySorted (ent_le demo_names) demo_ents.
Proof. apply (bool_decide_unpack _). vm_compute. exact I. Qed.

Lemma demo_names_ok : Forall (entry_name_ok demo_names) demo_ents.
Proof.
  repeat constructor; simpl; try (unfold PATH_MAX; lia); try (vm_compute; by intros);
    apply (bool_decide_unpack _); vm_compute; exact I.
Qed.

Lemma demo_args : args_ok [100] [47; 116].
Proof. split; try done; repeat constructor; done. Qed.

Lemma demo_malloc_gives : malloc_gives demo_malloc.
Proof. intros n Hn. eexists. split; [done |]. unfold zlen. rewrite length_replicate. lia. Qed.

Lemma demo_realloc_ok : realloc_ok demo_realloc.
Proof.
  intros old n b [= <-] Hn. split.
  - unfold zlen. rewrite length_app, length_take, length_replicate. lia.
  - intros o -> Ho. simpl. unfold zlen in Ho. rewrite (take_ge o) by lia. apply take_app_length.
Qed.

Definition demo_recursive (env : nat -> fs_op -> Z) (rd : Z -> Z -> Z) (flags : Z) : outcome (bool * list fs_op * Z) :=
  @mzExtractRecursive LP64 demo_names demo_realloc env demo_file rd demo_zlib 5000 0 demo_malloc
    (fun _ => [(3, 0)]) flags false true false demo_ents [100; 0] [47; 116; 0].

Lemma mzExtractRecursive_walk_witness :
  exists zp, demo_recursive (fun _ _ => 0) demo_rd 0 =
    (let* st := @extract_all LP64 demo_names demo_realloc (fun _ _ => 0) demo_file demo_rd demo_zlib 5000 0
       demo_malloc (fun _ => [(3, 0)]) 0 false true false (filter (under demo_names [100; 47]) demo_ents)
       (mkX (mkHelper [47; 116; 0] zp None 2 2 0) [] false true 0) in
     Val (x_ok st, x_trace st, x_count st)).
Proof.
  destruct (@mzExtractRecursive_walk LP64 demo_names demo_realloc (fun _ _ => 0) demo_file demo_rd demo_zlib 5000 0
    demo_malloc (fun _ => [(3, 0)]) 0 false true false demo_ents [100] [] [47; 116] []
    demo_sorted demo_names_ok demo_args demo_malloc_gives) as [zp E].
  exists zp. exact E.
Defined.

Lemma mzExtractRecursive_dry_run_witness :
  demo_recursive (fun _ _ => 0) demo_rd 2 = Val (true, [OpCallback [47; 116; 47; 120]; OpCallback [47; 116; 47; 121]], 0).
Proof.
  exact (@mzExtractRecursive_dry_run LP64 demo_names demo_realloc (fun _ _ => 0) demo_file demo_rd demo_zlib 5000 0
    demo_malloc (fun _ => [(3, 0)]) 2 false false demo_ents [100] [] [47; 116] []
    demo_sorted demo_names_ok demo_args demo_malloc_gives demo_realloc_ok ltac:(done) ltac:(done)).
Defined.

(** A failed extraction stops the walk, but the [ok] it clears is the inner variable:
    the caller is told that everything was extracted. *)
Theorem failed_extraction_reports_success :
  demo_recursive (fun _ _ => 0) (fun _ _ => -1) 0 =
  Val (true, [OpMkdirs [47; 116; 47; 120] true; OpCreat [47; 116; 47; 120]; OpWrite [] false; OpClose 0], 0).
Proof. vm_compute. reflexivity. Qed.

(** An entry with an empty name passes the parser; extracting everything then reads
    [fileName[fileNameLen-1]] four gigabytes away. *)
Theorem empty_name_out_of_bounds :
  @mzExtractRecursive LP64 demo_names demo_realloc (fun _ _ => 0) demo_file demo_rd demo_zlib 5000 0 demo_malloc
    (fun _ => [(3, 0)]) 0 false true false [demo_ent 0 0] [0] [47; 116; 0] = Trap OutOfBounds.
Proof. vm_compute. reflexivity. Qed.
