(* ===== verification/Edify.v ===== *)
(** * edify/expr.c: the script interpreter and its function table

    A script is an expression tree; each node carries the C function that evaluates it.
    [EvaluateValue] calls that function on the node's arguments, which the functions
    evaluate themselves (in [Arg], an argument is its evaluation and its source range).
    A NULL [Value*] is [None]; C strings are their bytes before the NUL.  What a script
    does outside the interpreter (standard output, sleeping, functions registered by
    other programs) is in [State]. *)

From stdpp Require Import base numbers list sorting.
From stdpp Require Import strings.
From S2P Require Import Prelude CString.

(** ** Data *)

Inductive io := IoStdout (s : block) | IoSleep (seconds : Z).

Section Edify.
(** What [cookie] points to: the state of the program that runs the script. *)
Context {X : Type}.

Record State := mkState {
  cookie : X;
  script : block;
  errmsg : option block;
  io_done : list io
}.

Inductive Value :=
| ValString (data : block)  (** VAL_STRING: data ends before its NUL *)
| ValBlob (data : block)    (** VAL_BLOB *)
| ValNoBlob.                (** VAL_BLOB with size -1 and null data *)

Definition val_type (v : Value) : Z := match v with ValString _ => 1 | ValBlob _ | ValNoBlob => 2 end.
Definition val_size (v : Value) : Z := match v with ValString d | ValBlob d => zlen d | ValNoBlob => -1 end.

Abbreviation result A := (outcome (option A * State)).

(** An argument as a function sees it. *)
Record Arg := mkArg { a_eval : State -> result Value; a_start : Z; a_end : Z }.

(** The functions of expr.c; [External n] is one registered from elsewhere. *)
Inductive Function :=
| ConcatFn | IfElseFn | AbortFn | AssertFn | SleepFn | StdoutFn | LogicalAndFn | LogicalOrFn
| LogicalNotFn | SubstringFn | EqualityFn | InequalityFn | SequenceFn | LessThanIntFn
| GreaterThanIntFn | Literal | External (n : Z).

#[global] Instance Function_eq_dec : EqDecision Function.
Proof. solve_decision. Defined.

Inductive Expr := mkExpr (fn : Function) (name : block) (argv : list Expr) (e_start e_end : Z).

Definition e_start (e : Expr) : Z := match e with mkExpr _ _ _ s _ => s end.
Definition e_end (e : Expr) : Z := match e with mkExpr _ _ _ _ n => n end.

Definition set_errmsg (st : State) (msg : block) : State := mkState (cookie st) (script st) (Some msg) (io_done st).
Definition add_io (st : State) (i : io) : State := mkState (cookie st) (script st) (errmsg st) (io_done st ++ [i]).

(** ** Helpers *)

Definition BooleanString (s : block) : bool := match s with [] => false | _ => true end.

Definition ErrorAbort {A} (st : State) (formatted : block) : result A :=
  Val (None, set_errmsg st (take 4095 formatted)).

Definition StringValue (s : option block) : option Value := ValString <$> s.

(** [Evaluate] of an argument: its value must be a string. *)
Definition Evaluate (st : State) (a : Arg) : result block :=
  let* (v, st) := a_eval a st in
  match v with
  | None => Val (None, st)
  | Some (ValString s) => Val (Some s, st)
  | Some (ValBlob _ | ValNoBlob) => ErrorAbort st (str "expecting string, got value type 2")
  end.

(** Evaluate [n] arguments from [argv[i]] on. *)
Fixpoint read_args {A} (ev : State -> Arg -> result A) (n : nat) (st : State) (argv : list Arg) (i : Z) :
    result (list A) :=
  match n with
  | O => Val (Some [], st)
  | S n =>
      let* a := load argv i in
      let* (v, st) := ev st a in
      match v with
      | None => Val (None, st)
      | Some v =>
          let* (vs, st) := read_args ev n st argv (i + 1) in
          match vs with None => Val (None, st) | Some vs => Val (Some (v :: vs), st) end
      end
  end.

Definition ReadArgs (st : State) (argv : list Arg) (count : Z) : result (list block) :=
  read_args Evaluate (Z.to_nat count) st argv 0.
Definition ReadValueArgs (st : State) (argv : list Arg) (count : Z) : result (list Value) :=
  read_args (fun st a => a_eval a st) (Z.to_nat count) st argv 0.
Definition ReadVarArgs (st : State) (argv : list Arg) : result (list block) :=
  read_args Evaluate (length argv) st argv 0.
Definition ReadValueVarArgs (st : State) (argv : list Arg) : result (list Value) :=
  read_args (fun st a => a_eval a st) (length argv) st argv 0.

(** *** The C library's [strtol] in base 10, [strstr] *)

Definition is_space (c : Z) : bool := (c =? 32) || ((9 <=? c) && (c <=? 13)).
Definition is_digit (c : Z) : bool := (48 <=? c) && (c <=? 57).

Fixpoint skip_space (s : block) : block :=
  match s with c :: s' => if is_space c then skip_space s' else s | [] => [] end.

(** The value of the leading digits, after [acc], and the rest. *)
Fixpoint digits (s : block) (acc : Z) : Z * block :=
  match s with
  | c :: s' => if is_digit c then digits s' (acc * 10 + (c - 48)) else (acc, s)
  | [] => (acc, [])
  end.

Definition starts_digit (s : block) : bool := match s with c :: _ => is_digit c | [] => false end.

Section Interpreter.
Context `{Arch}.

(** The value, saturated at the range of [long], and the rest of the string at [*end];
    with no digits the value is 0 and the rest is the whole string. *)
Definition strtol (s : block) : Z * block :=
  let t := skip_space s in
  let '(neg, t) := match t with
                   | c :: t' => if c =? 45 then (true, t') else if c =? 43 then (false, t') else (false, t)
                   | [] => (false, [])
                   end in
  if starts_digit t then
    let '(v, rest) := digits t 0 in
    let v := if (neg : bool) then - v else v in
    (Z.max (- 2 ^ (word_bits - 1)) (Z.min (2 ^ (word_bits - 1) - 1) v), rest)
  else (0, s).

Fixpoint is_prefix (needle s : block) : bool :=
  match needle, s with
  | [], _ => true
  | a :: needle, b :: s => (a =? b) && is_prefix needle s
  | _ :: _, [] => false
  end.

Fixpoint strstr (haystack needle : block) : bool :=
  is_prefix needle haystack ||
  match haystack with [] => false | _ :: h => strstr h needle end.

(** ** The builtin functions: [argv] holds [argc] arguments *)

(** The two loops of [ConcatFn]: the strings and their total length as an [int]. *)
Fixpoint concat_eval (n : nat) (st : State) (argv : list Arg) (i len : Z) : result (list block * Z) :=
  match n with
  | O => Val (Some ([], len), st)
  | S n =>
      let* a := load argv i in
      let* (s, st) := Evaluate st a in
      match s with
      | None => Val (None, st)
      | Some s =>
          let* (r, st) := concat_eval n st argv (i + 1) (i32 (len + zlen s)) in
          match r with None => Val (None, st) | Some (ss, len) => Val (Some (s :: ss, len), st) end
      end
  end.

Fixpoint concat_copy (buf : block) (p : Z) (ss : list block) : outcome (block * Z) :=
  match ss with
  | [] => Val (buf, p)
  | s :: ss => let* buf := store_bytes buf p (s ++ [0]) in concat_copy buf (i32 (p + zlen s)) ss
  end.

(** [malloc(n)] for the result. *)
Variable malloc : Z -> block.

Definition do_concat (st : State) (argv : list Arg) : result Value :=
  if zlen argv =? 0 then Val (StringValue (Some []), st) else
  let* (r, st) := concat_eval (length argv) st argv 0 0 in
  match r with
  | None => Val (StringValue None, st)
  | Some (ss, len) =>
      let* size := c_int 32 (len + 1) in
      let* (buf, p) := concat_copy (malloc (wrapu word_bits size)) 0 ss in
      let* buf := store buf p 0 in
      let* s := c_str buf in
      Val (StringValue (Some s), st)
  end.

Definition do_ifelse (st : State) (argv : list Arg) : result Value :=
  let argc := zlen argv in
  if negb (argc =? 2) && negb (argc =? 3) then
    Val (None, set_errmsg st (str "ifelse expects 2 or 3 arguments"))
  else
    let* a0 := load argv 0 in
    let* (cond, st) := Evaluate st a0 in
    match cond with
    | None => Val (None, st)
    | Some cond =>
        if BooleanString cond then let* a1 := load argv 1 in a_eval a1 st
        else if argc =? 3 then let* a2 := load argv 2 in a_eval a2 st
        else Val (StringValue (Some cond), st)
    end.

Definition do_abort (st : State) (argv : list Arg) : result Value :=
  let* (msg, st) :=
    if 0 <? zlen argv then let* a0 := load argv 0 in Evaluate st a0 else Val (None, st) in
  match msg with
  | Some msg => Val (None, set_errmsg st msg)
  | None => Val (None, set_errmsg st (str "called abort()"))
  end.

Fixpoint assert_loop (n : nat) (st : State) (argv : list Arg) (i : Z) : result Value :=
  match n with
  | O => Val (StringValue (Some []), st)
  | S n =>
      let* a := load argv i in
      let* (v, st) := Evaluate st a in
      match v with
      | None => Val (None, st)
      | Some v =>
          if BooleanString v then assert_loop n st argv (i + 1)
          else
            let* len := c_int 32 (a_end a - a_start a) in
            let* src := load_bytes (script st) (a_start a) len in
            Val (None, set_errmsg st (str "assert failed: " ++ src))
      end
  end.

Definition do_assert (st : State) (argv : list Arg) : result Value :=
  assert_loop (length argv) st argv 0.

Definition do_sleep (st : State) (argv : list Arg) : result Value :=
  let* a0 := load argv 0 in
  let* (val, st) := Evaluate st a0 in
  match val with
  | None => Val (None, st)
  | Some val =>
      let v := i32 (strtol val).1 in
      Val (StringValue (Some val), add_io st (IoSleep (u32 v)))
  end.

Fixpoint stdout_loop (n : nat) (st : State) (argv : list Arg) (i : Z) : result Value :=
  match n with
  | O => Val (StringValue (Some []), st)
  | S n =>
      let* a := load argv i in
      let* (v, st) := Evaluate st a in
      match v with
      | None => Val (None, st)
      | Some v => stdout_loop n (add_io st (IoStdout v)) argv (i + 1)
      end
  end.

Definition do_stdout (st : State) (argv : list Arg) : result Value :=
  stdout_loop (length argv) st argv 0.

Definition do_and (st : State) (argv : list Arg) : result Value :=
  let* a0 := load argv 0 in
  let* (lhs, st) := Evaluate st a0 in
  match lhs with
  | None => Val (None, st)
  | Some lhs =>
      if BooleanString lhs then let* a1 := load argv 1 in a_eval a1 st
      else Val (StringValue (Some lhs), st)
  end.

Definition do_or (st : State) (argv : list Arg) : result Value :=
  let* a0 := load argv 0 in
  let* (lhs, st) := Evaluate st a0 in
  match lhs with
  | None => Val (None, st)
  | Some lhs =>
      if negb (BooleanString lhs) then let* a1 := load argv 1 in a_eval a1 st
      else Val (StringValue (Some lhs), st)
  end.

Definition truth (b : bool) : block := if b then str "t" else [].

Definition do_not (st : State) (argv : list Arg) : result Value :=
  let* a0 := load argv 0 in
  let* (val, st) := Evaluate st a0 in
  match val with
  | None => Val (None, st)
  | Some val => Val (StringValue (Some (truth (negb (BooleanString val)))), st)
  end.

(** The common shape of [SubstringFn], [EqualityFn] and [InequalityFn]. *)
Definition do_binary (test : block -> block -> bool) (st : State) (argv : list Arg) : result Value :=
  let* a0 := load argv 0 in
  let* (lhs, st) := Evaluate st a0 in
  match lhs with
  | None => Val (None, st)
  | Some lhs =>
      let* a1 := load argv 1 in
      let* (rhs, st) := Evaluate st a1 in
      match rhs with
      | None => Val (None, st)
      | Some rhs => Val (StringValue (Some (truth (test lhs rhs))), st)
      end
  end.

Definition strcmp_eq (a b : block) : bool := match lex a b with Eq => true | _ => false end.

Definition do_substring := do_binary (fun needle haystack => strstr haystack needle).
Definition do_equality := do_binary strcmp_eq.
Definition do_inequality := do_binary (fun l r => negb (strcmp_eq l r)).

Definition do_sequence (st : State) (argv : list Arg) : result Value :=
  let* a0 := load argv 0 in
  let* (lhs, st) := a_eval a0 st in
  match lhs with
  | None => Val (None, st)
  | Some _ => let* a1 := load argv 1 in a_eval a1 st
  end.

(** Whether the string is an integer literal, with its value. *)
Definition as_int (s : block) : option Z :=
  let '(v, rest) := strtol s in
  if negb (BooleanString s) || BooleanString rest then None else Some v.

Definition do_less_than_int (st : State) (argv : list Arg) : result Value :=
  if negb (zlen argv =? 2) then Val (None, set_errmsg st (str "less_than_int expects 2 arguments")) else
  let* (args, st) := ReadArgs st argv 2 in
  match args with
  | Some [lhs; rhs] =>
      let result :=
        match as_int lhs with
        | None => false
        | Some l => match as_int rhs with None => false | Some r => l <? r end
        end in
      Val (StringValue (Some (truth result)), st)
  | _ => Val (None, st)
  end.

Definition do_greater_than_int (st : State) (argv : list Arg) : result Value :=
  if negb (zlen argv =? 2) then Val (None, set_errmsg st (str "greater_than_int expects 2 arguments")) else
  let* a1 := load argv 1 in
  let* a0 := load argv 0 in
  do_less_than_int st [a1; a0].

Definition do_literal (name : block) (st : State) : result Value := Val (StringValue (Some name), st).

(** Functions registered by other programs. *)
Variable external : Z -> block -> State -> list Arg -> result Value.

Definition call (fn : Function) (name : block) (argv : list Arg) (st : State) : result Value :=
  match fn with
  | ConcatFn => do_concat st argv
  | IfElseFn => do_ifelse st argv
  | AbortFn => do_abort st argv
  | AssertFn => do_assert st argv
  | SleepFn => do_sleep st argv
  | StdoutFn => do_stdout st argv
  | LogicalAndFn => do_and st argv
  | LogicalOrFn => do_or st argv
  | LogicalNotFn => do_not st argv
  | SubstringFn => do_substring st argv
  | EqualityFn => do_equality st argv
  | InequalityFn => do_inequality st argv
  | SequenceFn => do_sequence st argv
  | LessThanIntFn => do_less_than_int st argv
  | GreaterThanIntFn => do_greater_than_int st argv
  | Literal => do_literal name st
  | External n => external n name st argv
  end.

Fixpoint EvaluateValue (e : Expr) (st : State) {struct e} : result Value :=
  match e with
  | mkExpr fn name argv _ _ =>
      call fn name (List.map (fun a => mkArg (EvaluateValue a) (e_start a) (e_end a)) argv) st
  end.

(** The argument an expression is to the function it is passed to. *)
Definition arg_of (e : Expr) : Arg := mkArg (EvaluateValue e) (e_start e) (e_end e).
End Interpreter.

(** Expressions for the operators of the grammar. *)
Definition Build (fn : Function) (loc_start loc_end : Z) (args : list Expr) : Expr :=
  mkExpr fn (str "(operator)") args loc_start loc_end.

(** ** The function table *)

Record NamedFunction := mkNamed { nf_name : block; nf_fn : Function }.

(** [fn_table] with its first [fn_entries] entries, and its capacity [fn_size]. *)
Record registry := mkRegistry { fn_table : list NamedFunction; fn_size : Z }.
Definition empty_registry : registry := mkRegistry [] 0.

Definition RegisterFunction (name : block) (fn : Function) (r : registry) : outcome registry :=
  let fn_entries := zlen (fn_table r) in
  let* size := if fn_size r <=? fn_entries then c_int 32 (fn_size r * 2 + 1) else Val (fn_size r) in
  if fn_entries <? size then Val (mkRegistry (fn_table r ++ [mkNamed name fn]) size)
  else Trap OutOfBounds.

Definition fn_entry_compare (a b : NamedFunction) : Z :=
  match lex (nf_name a) (nf_name b) with Lt => -1 | Eq => 0 | Gt => 1 end.

Definition fn_le (a b : NamedFunction) : Prop := name_le (nf_name a) (nf_name b).
#[global] Instance fn_le_dec : RelDecision fn_le.
Proof. intros a b. unfold fn_le. apply _. Defined.

(** [qsort] with that comparison. *)
Definition FinishRegistration (r : registry) : registry :=
  mkRegistry (merge_sort fn_le (fn_table r)) (fn_size r).

(** The C library's [bsearch]: the range still to search is [base], [nmemb]. *)
Fixpoint bsearch (fuel : nat) (key : NamedFunction) (t : list NamedFunction) (base nmemb : Z) :
    outcome (option NamedFunction) :=
  if nmemb <=? 0 then Val None else
  match fuel with
  | O => Trap NoFuel
  | S fuel =>
      let idx := base + nmemb / 2 in
      let* x := load t idx in
      let cmp := fn_entry_compare key x in
      if cmp =? 0 then Val (Some x)
      else if cmp <? 0 then bsearch fuel key t base (nmemb / 2)
      else bsearch fuel key t (idx + 1) (nmemb - nmemb / 2 - 1)
  end.

Definition FindFunction (name : block) (r : registry) : outcome (option Function) :=
  let key := mkNamed name Literal in
  let* nf := bsearch (length (fn_table r)) key (fn_table r) 0 (zlen (fn_table r)) in
  Val (nf_fn <$> nf).

Definition builtins : list NamedFunction :=
  [mkNamed (str "ifelse") IfElseFn; mkNamed (str "abort") AbortFn; mkNamed (str "assert") AssertFn;
   mkNamed (str "concat") ConcatFn; mkNamed (str "is_substring") SubstringFn;
   mkNamed (str "stdout") StdoutFn; mkNamed (str "sleep") SleepFn;
   mkNamed (str "less_than_int") LessThanIntFn; mkNamed (str "greater_than_int") GreaterThanIntFn].

Fixpoint register_all (l : list NamedFunction) (r : registry) : outcome registry :=
  match l with
  | [] => Val r
  | nf :: l => let* r := RegisterFunction (nf_name nf) (nf_fn nf) r in register_all l r
  end.

Definition RegisterBuiltins (r : registry) : outcome registry := register_all builtins r.

(** ** The meaning of a script

    A script denotes what it writes and either a string or an error message.  This is
    the language the interpreter is meant to implement; it knows nothing of buffers,
    NULL pointers or argument arrays. *)

Abbreviation M A := (list io * (block + A))%type.

Definition m_ret {A} (a : A) : M A := ([], inr a).
Definition m_err {A} (msg : block) : M A := ([], inl msg).
Definition m_bind {A B} (m : M A) (f : A -> M B) : M B :=
  match m with
  | (o, inl e) => (o, inl e)
  | (o, inr a) => let '(o', r) := f a in (o ++ o', r)
  end.
Notation "'do' x <- m ; k" := (m_bind m (fun x => k)) (at level 10, m at level 100, k at level 200).
Definition m_io (i : io) : M unit := ([i], inr tt).

Section Meaning.
Context `{Arch}.

Fixpoint m_concat (ms : list (M block)) : M block :=
  match ms with [] => m_ret [] | m :: ms => do s <- m; do t <- m_concat ms; m_ret (s ++ t) end.

(** Each argument with the text it has in the script. *)
Fixpoint m_assert (ms : list (M block)) (srcs : list block) : M block :=
  match ms, srcs with
  | m :: ms, src :: srcs =>
      do s <- m; if BooleanString s then m_assert ms srcs else m_err (str "assert failed: " ++ src)
  | _, _ => m_ret []
  end.

Fixpoint m_stdout (ms : list (M block)) : M block :=
  match ms with [] => m_ret [] | m :: ms => do s <- m; do _ <- m_io (IoStdout s); m_stdout ms end.

(** The message of [abort]: its argument, unless that fails. *)
Definition m_abort (ms : list (M block)) : M block :=
  match ms with
  | (o, inr msg) :: _ => (o, inl msg)
  | (o, inl _) :: _ => (o, inl (str "called abort()"))
  | [] => m_err (str "called abort()")
  end.

(** Numbers are compared only when both arguments are numbers. *)
Definition int_less (l r : block) : bool :=
  match as_int l, as_int r with Some a, Some b => a <? b | _, _ => false end.

Definition m_call (fn : Function) (name : block) (ms : list (M block)) (srcs : list block) : M block :=
  match fn, ms with
  | Literal, _ => m_ret name
  | ConcatFn, ms => m_concat ms
  | IfElseFn, [c; a] => do s <- c; if BooleanString s then a else m_ret s
  | IfElseFn, [c; a; b] => do s <- c; if BooleanString s then a else b
  | IfElseFn, _ => m_err (str "ifelse expects 2 or 3 arguments")
  | AbortFn, ms => m_abort ms
  | AssertFn, ms => m_assert ms srcs
  | SleepFn, m :: _ => do s <- m; do _ <- m_io (IoSleep (u32 (i32 (strtol s).1))); m_ret s
  | StdoutFn, ms => m_stdout ms
  | LogicalAndFn, [a; b] => do s <- a; if BooleanString s then b else m_ret s
  | LogicalOrFn, [a; b] => do s <- a; if BooleanString s then m_ret s else b
  | LogicalNotFn, [a] => do s <- a; m_ret (truth (negb (BooleanString s)))
  | SubstringFn, [a; b] => do s <- a; do t <- b; m_ret (truth (strstr t s))
  | EqualityFn, [a; b] => do s <- a; do t <- b; m_ret (truth (bool_decide (s = t)))
  | InequalityFn, [a; b] => do s <- a; do t <- b; m_ret (truth (bool_decide (s <> t)))
  | SequenceFn, [a; b] => do _ <- a; b
  | LessThanIntFn, [a; b] => do s <- a; do t <- b; m_ret (truth (int_less s t))
  | LessThanIntFn, _ => m_err (str "less_than_int expects 2 arguments")
  | GreaterThanIntFn, [a; b] => do t <- b; do s <- a; m_ret (truth (int_less t s))
  | GreaterThanIntFn, _ => m_err (str "greater_than_int expects 2 arguments")
  | _, _ => m_err []  (* not well formed *)
  end.

(** The text of an expression in the script. *)
Definition src_of (script : block) (e : Expr) : block := slice script (e_start e) (e_end e - e_start e).

Fixpoint meaning (script : block) (e : Expr) {struct e} : M block :=
  match e with
  | mkExpr fn name argv _ _ => m_call fn name (List.map (meaning script) argv) (List.map (src_of script) argv)
  end.
End Meaning.

(** ** Well-formed scripts *)

(** The number of arguments a function reads without checking. *)
Definition arity_ok (fn : Function) (argc : Z) : bool :=
  match fn with
  | LogicalAndFn | LogicalOrFn | SubstringFn | EqualityFn | InequalityFn | SequenceFn => argc =? 2
  | LogicalNotFn => argc =? 1
  | SleepFn => 1 <=? argc
  | External _ => false
  | _ => true
  end.

(** Functions of this file only, with enough arguments, literals that are C strings,
    source positions inside the script. *)
Fixpoint wf_expr (script : block) (e : Expr) : bool :=
  match e with
  | mkExpr fn name argv s n =>
      arity_ok fn (zlen argv) && forallb (fun c => negb (c =? 0)) name &&
      (0 <=? s) && (s <=? n) && (n <=? zlen script) && forallb (wf_expr script) argv
  end.

(** A bound on the length of the strings an expression computes. *)
Fixpoint weight (e : Expr) : Z :=
  match e with
  | mkExpr _ name argv _ _ => zlen name + 1 + foldr (fun a w => weight a + w) 0 argv
  end.

Section ExprInd.
Variable P : Expr -> Prop.
Hypothesis Hstep : forall fn name argv s n, Forall P argv -> P (mkExpr fn name argv s n).

Fixpoint Expr_nested_ind (e : Expr) : P e :=
  match e with
  | mkExpr fn name argv s n =>
      Hstep fn name argv s n
        ((fix go (l : list Expr) : Forall P l :=
            match l with
            | [] => List.Forall_nil P
            | a :: l => List.Forall_cons P a l (Expr_nested_ind a) (go l)
            end) argv)
  end.
End ExprInd.

(** ** The interpreter implements the meaning *)

Section Correct.
Context `{Arch}.
Variable malloc : Z -> block.
Hypothesis Hmalloc : forall n, 0 <= n -> zlen (malloc n) = n.
Variable external : Z -> block -> State -> list Arg -> result Value.
Variable scr : block.

(** The C result for a denotation, from a state. *)
Definition to_c {A} (inj : block -> A) (m : M block) (st : State) : option A * State :=
  match m with
  | (o, inr s) => (Some (inj s), mkState (cookie st) (script st) (errmsg st) (io_done st ++ o))
  | (o, inl e) => (None, mkState (cookie st) (script st) (Some e) (io_done st ++ o))
  end.

Definition impl (a : Arg) (m : M block) : Prop :=
  forall st, script st = scr -> a_eval a st = Val (to_c ValString m st).

Lemma to_c_script {A} (inj : block -> A) m st : script (to_c inj m st).2 = script st.
Proof. by destruct m as [o [e | s]]. Qed.

Lemma impl_eval a m st : impl a m -> script st = scr -> Evaluate st a = Val (to_c id m st).
Proof. intros Ha Hs. unfold Evaluate. rewrite Ha by done. by destruct m as [o [e | s]]. Qed.

(** A sequence of denotations is a sequence of C results. *)
Lemma to_c_bind {A} (inj : block -> A) o (s : block) (m : M block) st :
  to_c inj m (mkState (cookie st) (script st) (errmsg st) (io_done st ++ o)) =
  to_c inj (do _ <- ((o, inr s) : M block); m) st.
Proof. destruct m as [o' [e | t]]; simpl; by rewrite app_assoc. Qed.

(** Evaluate an argument inside a function and continue with its string. *)
Lemma eval_then {A} a m st (inj : block -> A) (f : block -> M block)
    (k : option block * State -> outcome (option A * State)) :
  impl a m -> script st = scr ->
  (forall st', k (None, st') = Val (None, st')) ->
  (forall s st', m.2 = inr s -> script st' = scr -> k (Some s, st') = Val (to_c inj (f s) st')) ->
  (Evaluate st a ≫= k) = Val (to_c inj (do s <- m; f s) st).
Proof.
  intros Ha Hs Hnone Hsome. rewrite (impl_eval a m) by done. cbn [mbind outcome_bind].
  destruct m as [o [e | s]]; simpl; [by rewrite Hnone |]. unfold id.
  rewrite (Hsome s) by done. f_equal. rewrite (to_c_bind inj o s). simpl. by destruct (f s).
Qed.

(** *** Loops over the argument array *)

Definition impls (argv : list Arg) (ms : list (M block)) : Prop := Forall2 impl argv ms.

Lemma stdout_spec pre argv ms st i :
  impls argv ms -> script st = scr -> i = zlen pre ->
  stdout_loop (length argv) st (pre ++ argv) i = Val (to_c ValString (m_stdout ms) st).
Proof.
  intros Hims. revert pre st i. induction Hims as [| a m argv ms Ha _ IH]; intros pre st i Hs Hi.
  { simpl. by rewrite app_nil_r; destruct st. }
  cbn [stdout_loop length m_stdout]. rewrite load_middle by done. cbn [mbind outcome_bind].
  eapply (eval_then a m st ValString (fun s => do _ <- m_io (IoStdout s); m_stdout ms)); [done | done | done |].
  intros s st' _ Hs'. rewrite cons_middle, app_assoc. rewrite IH; [| done | subst; zlia].
  f_equal. unfold add_io. by rewrite (to_c_bind ValString [IoStdout s] s).
Qed.

Lemma assert_spec pre argv ms srcs st i :
  impls argv ms -> script st = scr -> i = zlen pre ->
  Forall2 (fun a src => 0 <= a_start a <= a_end a /\ a_end a <= zlen scr /\ a_end a - a_start a < 2 ^ 31 /\
    src = slice scr (a_start a) (a_end a - a_start a)) argv srcs ->
  assert_loop (length argv) st (pre ++ argv) i = Val (to_c ValString (m_assert ms srcs) st).
Proof.
  intros Hims. revert pre srcs st i. induction Hims as [| a m argv ms Ha _ IH]; intros pre srcs st i Hs Hi Hsrc.
  { simpl. by rewrite app_nil_r; destruct st. }
  apply Forall2_cons_inv_l in Hsrc as (src & srcs' & (H1 & H2 & H3 & ->) & Hsrc & ->).
  cbn [assert_loop length m_assert]. rewrite load_middle by done. cbn [mbind outcome_bind].
  eapply eval_then; [done | done | done |]. intros s st' _ Hs'. cbv beta.
  destruct (BooleanString s).
  - rewrite cons_middle, app_assoc. apply IH; [done | subst; zlia | done].
  - unfold c_int, in_int. rewrite (proj2 (Z.leb_le _ _)), (proj2 (Z.ltb_lt _ _)) by lia. cbn [andb mbind outcome_bind].
    rewrite Hs'. unfold load_bytes. rewrite !(proj2 (Z.leb_le _ _)) by lia. simpl.
    unfold set_errmsg. by rewrite app_nil_r, Hs'.
Qed.

(** What [ConcatFn] needs of its arguments' values. *)
Definition clean (w : Z) (m : M block) : Prop :=
  0 <= w /\ match m.2 with inr s => Forall (fun c => c <> 0) s /\ zlen s <= w | inl _ => True end.

Lemma concat_eval_spec pre argv ms ws st i len :
  impls argv ms -> Forall2 clean ws ms -> script st = scr -> i = zlen pre ->
  0 <= len -> len + foldr Z.add 0 ws < 2 ^ 31 ->
  match m_concat ms with
  | (o, inl e) => concat_eval (length argv) st (pre ++ argv) i len =
      Val (None, mkState (cookie st) (script st) (Some e) (io_done st ++ o))
  | (o, inr s) => exists ss, s = concat ss /\ Forall (Forall (fun c => c <> 0)) ss /\
      zlen s <= foldr Z.add 0 ws /\ concat_eval (length argv) st (pre ++ argv) i len =
      Val (Some (ss, len + zlen s), mkState (cookie st) (script st) (errmsg st) (io_done st ++ o))
  end.
Proof.
  intros Hims. revert pre ws st i len. induction Hims as [| a m argv ms Ha Hims IH]; intros pre ws st i len Hc Hs Hi Hl Hw.
  { inversion Hc; subst. simpl. exists []. split_and!; [done | constructor | done |].
    rewrite zlen_nil, Z.add_0_r, app_nil_r. by destruct st. }
  inversion Hc as [| w m' ws' ms' Hm Hms]; subst. simpl in Hw.
  cbn [concat_eval length m_concat]. rewrite load_middle by done. cbn [mbind outcome_bind].
  rewrite (impl_eval a m) by done. cbn [mbind outcome_bind]. unfold clean in Hm.
  destruct Hm as [Hw0 Hm]. destruct m as [o [e | s]]; simpl in Hm |- *; [done |]. destruct Hm as [Hnz Hls].
  assert (0 <= foldr Z.add 0 ws') as Hws.
  { clear -Hms. induction Hms as [| w m ws ms [Hm _] _ IHw]; simpl; lia. }
  pose proof (zlen_nonneg s). unfold id. rewrite wraps_id by lia.
  set (st1 := mkState (cookie st) (script st) (errmsg st) (io_done st ++ o)).
  specialize (IH (pre ++ [a]) ws' st1 (zlen pre + 1) (len + zlen s) Hms ltac:(done) ltac:(zlia) ltac:(lia) ltac:(lia)).
  rewrite <- app_assoc in IH. simpl in IH.
  destruct (m_concat ms) as [o' [e | t]]; simpl.
  - rewrite IH. simpl. by rewrite app_assoc.
  - destruct IH as (ss & -> & Hss & Hlt & ->). exists (s :: ss). simpl.
    rewrite app_nil_r, app_assoc, zlen_app. split_and!; [done | by constructor | lia |].
    by rewrite Z.add_assoc.
Qed.

Lemma concat_copy_spec (done junk : block) ss :
  zlen done + zlen (concat ss) + 1 < 2 ^ 31 -> zlen junk = zlen (concat ss) + 1 ->
  exists j, zlen j = 1 /\
    concat_copy (done ++ junk) (zlen done) ss = Val (done ++ concat ss ++ j, zlen (done ++ concat ss)).
Proof.
  revert done junk. induction ss as [| s ss IH]; intros done junk Hl Hj; simpl in *.
  { exists junk. split; [done |]. by rewrite app_nil_r. }
  rewrite zlen_app in *. pose proof (zlen_nonneg (concat ss)). pose proof (zlen_nonneg s). pose proof (zlen_nonneg done).
  destruct (decide (0 <= zlen s + 1 <= zlen junk)) as [Hfit | ?]; [| lia].
  assert (junk = take (Z.to_nat (zlen s + 1)) junk ++ drop (Z.to_nat (zlen s + 1)) junk) as E by (by rewrite take_drop).
  set (j1 := take _ junk) in E. set (j2 := drop _ junk) in E.
  assert (zlen j1 = zlen s + 1) as Hj1 by (unfold j1, zlen in *; rewrite length_take; lia).
  rewrite E in *. rewrite zlen_app in Hj. rewrite store_bytes_app; [| done | zlia]. cbn [mbind outcome_bind].
  rewrite wraps_id by lia. rewrite <- app_assoc, (app_assoc done s).
  replace (zlen done + zlen s) with (zlen (done ++ s)) by (apply zlen_app).
  destruct (IH (done ++ s) ([0] ++ j2)) as (j & Hj' & ->); [zlia | zlia |].
  exists j. split; [done |]. rewrite <- !app_assoc. by rewrite zlen_app.
Qed.

Lemma concat_spec argv ms ws st :
  impls argv ms -> Forall2 clean ws ms -> script st = scr -> foldr Z.add 0 ws + 1 < 2 ^ 31 ->
  do_concat malloc st argv = Val (to_c ValString (m_concat ms) st).
Proof.
  intros Hims Hc Hs Hw. unfold do_concat. destruct (Z.eqb_spec (zlen argv) 0) as [E |].
  { destruct argv; [| zlia]. inversion Hims; subst. simpl. by rewrite app_nil_r; destruct st. }
  pose proof (concat_eval_spec [] argv ms ws st 0 0 Hims Hc Hs eq_refl ltac:(lia) ltac:(lia)) as Hev.
  destruct (m_concat ms) as [o [e | s]]; simpl in Hev |- *.
  { by rewrite Hev. }
  destruct Hev as (ss & -> & Hss & Hl & ->). cbn [mbind outcome_bind]. pose proof (zlen_nonneg (concat ss)).
  rewrite Z.add_0_l. unfold c_int, in_int. rewrite (proj2 (Z.leb_le _ _)), (proj2 (Z.ltb_lt _ _)) by lia.
  cbn [andb mbind outcome_bind].
  assert (2 ^ 32 <= 2 ^ word_bits) by (apply Z.pow_le_mono_r; [lia |]; destruct word_bits_ok; lia).
  rewrite wrapu_id by lia.
  destruct (concat_copy_spec [] (malloc (zlen (concat ss) + 1)) ss) as (j & Hj & Hcp);
    [rewrite zlen_nil; lia | apply Hmalloc; lia |].
  simpl in Hcp. change (zlen []) with 0 in Hcp. rewrite Hcp. cbn [mbind outcome_bind].
  destruct j as [| x [| y j]]; [zlia | | zlia]. rewrite store_app by done. cbn [mbind outcome_bind].
  rewrite c_str_app; [done |]. apply Forall_concat. done.
Qed.

(** *** The functions with a fixed number of arguments *)

Lemma strcmp_eq_spec a b : strcmp_eq a b = bool_decide (a = b).
Proof.
  unfold strcmp_eq. destruct (lex a b) eqn:E.
  - apply lex_eq in E as ->. by rewrite bool_decide_eq_true_2.
  - rewrite bool_decide_eq_false_2; [done |]. intros ->. by rewrite lex_refl in E.
  - rewrite bool_decide_eq_false_2; [done |]. intros ->. by rewrite lex_refl in E.
Qed.

Lemma binary_spec test a0 a1 m0 m1 st :
  impl a0 m0 -> impl a1 m1 -> script st = scr ->
  do_binary test st [a0; a1] = Val (to_c ValString (do s <- m0; do t <- m1; m_ret (truth (test s t))) st).
Proof.
  intros H0 H1 Hs. unfold do_binary. cbn [load mbind outcome_bind].
  eapply eval_then; [done | done | done |]. intros s st1 _ Hs1. cbv beta. cbn [load mbind outcome_bind].
  eapply eval_then; [done | done | done |]. intros t st2 _ Hs2. simpl. rewrite app_nil_r. by destruct st2.
Qed.

Lemma ret_state {A} (inj : block -> A) s st : Val (Some (inj s), st) = Val (to_c inj (m_ret s) st).
Proof. simpl. rewrite app_nil_r. by destruct st. Qed.

Lemma err_state {A} (inj : block -> A) e st : Val (None, set_errmsg st e) = Val (to_c inj (m_err e) st).
Proof. simpl. unfold set_errmsg. by rewrite app_nil_r. Qed.

Lemma and_spec a0 a1 m0 m1 st :
  impl a0 m0 -> impl a1 m1 -> script st = scr ->
  do_and st [a0; a1] = Val (to_c ValString (do s <- m0; if BooleanString s then m1 else m_ret s) st).
Proof.
  intros H0 H1 Hs. unfold do_and. cbn [load mbind outcome_bind].
  eapply eval_then; [done | done | done |]. intros s st1 _ Hs1. cbv beta.
  destruct (BooleanString s); [by apply H1 | apply ret_state].
Qed.

Lemma or_spec a0 a1 m0 m1 st :
  impl a0 m0 -> impl a1 m1 -> script st = scr ->
  do_or st [a0; a1] = Val (to_c ValString (do s <- m0; if BooleanString s then m_ret s else m1) st).
Proof.
  intros H0 H1 Hs. unfold do_or. cbn [load mbind outcome_bind].
  eapply eval_then; [done | done | done |]. intros s st1 _ Hs1. cbv beta.
  destruct (BooleanString s); cbn [negb]; [apply ret_state | by apply H1].
Qed.

Lemma not_spec a0 m0 st :
  impl a0 m0 -> script st = scr ->
  do_not st [a0] = Val (to_c ValString (do s <- m0; m_ret (truth (negb (BooleanString s)))) st).
Proof.
  intros H0 Hs. unfold do_not. cbn [load mbind outcome_bind].
  eapply eval_then; [done | done | done |]. intros s st1 _ Hs1. apply ret_state.
Qed.

Lemma sequence_spec a0 a1 m0 m1 st :
  impl a0 m0 -> impl a1 m1 -> script st = scr ->
  do_sequence st [a0; a1] = Val (to_c ValString (do _ <- m0; m1) st).
Proof.
  intros H0 H1 Hs. unfold do_sequence. change (load [a0; a1] 0) with (Val a0). cbn [mbind outcome_bind].
  rewrite H0 by done. destruct m0 as [o [e | s]]; cbn [to_c mbind outcome_bind]; [done |].
  change (load [a0; a1] 1) with (Val a1). cbn [mbind outcome_bind]. rewrite H1 by done.
  f_equal. by rewrite (to_c_bind ValString o s).
Qed.

Lemma sleep_spec a0 m0 argv st :
  impl a0 m0 -> script st = scr ->
  do_sleep st (a0 :: argv) =
    Val (to_c ValString (do s <- m0; do _ <- m_io (IoSleep (u32 (i32 (strtol s).1))); m_ret s) st).
Proof.
  intros H0 Hs. unfold do_sleep. cbn [load mbind outcome_bind]. eapply eval_then; [done | done | done |].
  intros s st1 _ Hs1. done.
Qed.

Lemma ifelse_spec argv ms st :
  impls argv ms -> script st = scr ->
  do_ifelse st argv = Val (to_c ValString (m_call IfElseFn [] ms []) st).
Proof.
  intros Hims Hs. unfold do_ifelse.
  destruct Hims as [| a0 m0 ? ? H0 [| a1 m1 ? ? H1 [| a2 m2 argv ms H2 [| a3 m3 rest ms' _ _]]]];
    try exact (err_state ValString _ st).
  - cbn [load mbind outcome_bind]. eapply eval_then; [done | done | done |]. intros s st1 _ Hs1. cbv beta.
    destruct (BooleanString s); [by apply H1 | apply ret_state].
  - cbn [load mbind outcome_bind]. eapply eval_then; [done | done | done |]. intros s st1 _ Hs1. cbv beta.
    destruct (BooleanString s); [by apply H1 | by apply H2].
  - rewrite !zlen_cons. pose proof (zlen_nonneg rest).
    rewrite (proj2 (Z.eqb_neq _ 2)), (proj2 (Z.eqb_neq _ 3)) by lia. exact (err_state ValString _ st).
Qed.

Lemma abort_spec argv ms st :
  impls argv ms -> script st = scr -> do_abort st argv = Val (to_c ValString (m_abort ms) st).
Proof.
  intros Hims Hs. unfold do_abort. destruct Hims as [| a0 m0 argv ms H0 Hr]; [exact (err_state ValString _ st) |].
  rewrite (proj2 (Z.ltb_lt 0 _)) by zlia. cbn [load mbind outcome_bind].
  change (load (a0 :: argv) 0) with (Val a0). cbn [mbind outcome_bind].
  rewrite (impl_eval a0 m0) by done. by destruct m0 as [o [e | s]].
Qed.

Lemma less_than_spec argv ms st :
  impls argv ms -> script st = scr ->
  do_less_than_int st argv = Val (to_c ValString (m_call LessThanIntFn [] ms []) st).
Proof.
  intros Hims Hs. unfold do_less_than_int.
  destruct Hims as [| a0 m0 ? ? H0 [| a1 m1 ? ? H1 [| a2 m2 argv ms H2 Hr]]]; try exact (err_state ValString _ st).
  - change (zlen [a0; a1] =? 2) with true. cbn [negb]. unfold ReadArgs. change (Z.to_nat 2) with 2%nat.
    cbn [read_args]. change (load [a0; a1] 0) with (Val a0). cbn [mbind outcome_bind].
    rewrite (impl_eval a0 m0) by done. destruct m0 as [o [e | s]]; [done |]. cbn [to_c mbind outcome_bind].
    change (load [a0; a1] (0 + 1)) with (Val a1). cbn [mbind outcome_bind].
    rewrite (impl_eval a1 m1) by done.
    destruct m1 as [o' [e | t]]; simpl; rewrite ?app_nil_r, ?app_assoc; [done |].
    unfold int_less, id. by destruct (as_int s), (as_int t).
  - rewrite !zlen_cons. pose proof (zlen_nonneg argv). rewrite (proj2 (Z.eqb_neq _ 2)) by lia.
    exact (err_state ValString _ st).
Qed.

Lemma greater_than_spec argv ms st :
  impls argv ms -> script st = scr ->
  do_greater_than_int st argv = Val (to_c ValString (m_call GreaterThanIntFn [] ms []) st).
Proof.
  intros Hims Hs. unfold do_greater_than_int.
  destruct Hims as [| a0 m0 ? ? H0 [| a1 m1 ? ? H1 [| a2 m2 argv ms H2 Hr]]]; try exact (err_state ValString _ st).
  - change (do_less_than_int st [a1; a0] = Val (to_c ValString (m_call LessThanIntFn [] [m1; m0] []) st)).
    apply less_than_spec; [by repeat constructor | done].
  - rewrite !zlen_cons. pose proof (zlen_nonneg argv). rewrite (proj2 (Z.eqb_neq _ 2)) by lia.
    exact (err_state ValString _ st).
Qed.

(** *** Bounds on computed strings *)

Lemma clean_then w0 w (m : M block) (k : block -> M block) :
  clean w0 m -> 0 <= w -> (forall s, Forall (fun c => c <> 0) s -> zlen s <= w0 -> clean w (k s)) ->
  clean w (do s <- m; k s).
Proof.
  intros [_ Hm] Hw Hk. destruct m as [o [e | s]]; simpl in *; [by split |].
  destruct Hm as [Hz Hl]. specialize (Hk s Hz Hl). by destruct (k s).
Qed.

Lemma clean_io w i (m : M block) : clean w m -> clean w (do _ <- m_io i; m).
Proof. by destruct m. Qed.

Lemma clean_le w w' m : clean w m -> w <= w' -> clean w' m.
Proof. intros [Hw Hm] Hle. split; [lia |]. destruct (m.2); [done |]. destruct Hm. split; [done | lia]. Qed.

Lemma clean_ret w s : Forall (fun c => c <> 0) s -> zlen s <= w -> clean w (m_ret s).
Proof. intros. pose proof (zlen_nonneg s). split; [lia | done]. Qed.

Lemma clean_truth w b : 1 <= w -> clean w (m_ret (truth b)).
Proof. intros. apply clean_ret; destruct b; [by repeat constructor | constructor | | ]; vm_compute zlen; lia. Qed.

Lemma clean_err w e : 0 <= w -> clean w (m_err e).
Proof. by split. Qed.

Lemma sum_nonneg ws ms : Forall2 clean ws ms -> 0 <= foldr Z.add 0 ws.
Proof. induction 1 as [| w m ws ms [Hw _] _ IH]; simpl; lia. Qed.

Lemma clean_concat ws ms : Forall2 clean ws ms -> clean (foldr Z.add 0 ws) (m_concat ms).
Proof.
  induction 1 as [| w m ws ms Hm Hms IH]; simpl; [by apply clean_ret |].
  pose proof (sum_nonneg _ _ Hms). pose proof (proj1 Hm).
  eapply clean_then; [exact Hm | lia |]. intros s Hs1 Hs2.
  eapply clean_then; [exact IH | lia |]. intros t Ht1 Ht2. apply clean_ret; [by apply Forall_app | zlia].
Qed.

Lemma clean_assert W ws ms srcs : 0 <= W -> Forall2 clean ws ms -> clean W (m_assert ms srcs).
Proof.
  intros HW Hc. revert srcs. induction Hc as [| w m ws ms Hm Hms IH]; intros [| src srcs]; simpl; try by apply clean_ret.
  eapply clean_then; [exact Hm | done |]. intros s _ _. destruct (BooleanString s); [apply IH | by apply clean_err].
Qed.

Lemma clean_stdout W ws ms : 0 <= W -> Forall2 clean ws ms -> clean W (m_stdout ms).
Proof.
  intros HW. induction 1 as [| w m ws ms Hm Hms IH]; cbn [m_stdout]; [by apply clean_ret |].
  eapply clean_then; [exact Hm | done |]. intros s _ _. by apply clean_io.
Qed.

Ltac two_args Hc Herr :=
  destruct Hc as [| w0 m0 ? ? H0 [| w1 m1 ? ? H1 [| w2 m2 ? ? H2 Hr]]]; try exact (Herr _); simpl.
Ltac binary_truth Hc Herr Hthen Htruth :=
  two_args Hc Herr; eapply Hthen; [eassumption |]; intros s _ _; eapply Hthen; [eassumption |];
  intros t _ _; apply Htruth.

Lemma clean_call fn name ws ms srcs :
  Forall2 clean ws ms -> Forall (fun c => c <> 0) name ->
  clean (zlen name + 1 + foldr Z.add 0 ws) (m_call fn name ms srcs).
Proof.
  intros Hc Hn. pose proof (sum_nonneg _ _ Hc) as Hsum. pose proof (zlen_nonneg name) as Hn0.
  set (W := zlen name + 1 + foldr Z.add 0 ws).
  assert (forall e, clean W (m_err e)) as Herr by (intros; apply clean_err; lia).
  assert (forall b, clean W (m_ret (truth b))) as Htruth by (intros; apply clean_truth; lia).
  assert (forall w m, w <= W -> clean w m -> clean W m) as Hle by (intros; by eapply clean_le).
  assert (forall w (m : M block) k, clean w m -> (forall s, Forall (fun c => c <> 0) s -> zlen s <= w -> clean W (k s)) ->
    clean W (do s <- m; k s)) as Hthen by (intros; eapply clean_then; [done | lia | done]).
  destruct fn; try exact (Herr _).
  - (* concat *) apply (Hle (foldr Z.add 0 ws)); [lia | by apply clean_concat].
  - (* ifelse *)
    destruct Hc as [| w0 m0 ? ? H0 [| w1 m1 ? ? H1 [| w2 m2 ? ? H2 [| w3 m3 ? ? H3 Hr]]]]; try exact (Herr _); simpl.
    + eapply Hthen; [exact H0 |]. intros s Hs1 Hs2. destruct H0, H1. unfold W in *. simpl in *.
      destruct (BooleanString s); [by apply (Hle w1); [lia | split] | apply clean_ret; [done | lia]].
    + eapply Hthen; [exact H0 |]. intros s Hs1 Hs2. pose proof (proj1 H0). pose proof (proj1 H1).
      pose proof (proj1 H2). unfold W in *. simpl in *.
      destruct (BooleanString s); [apply (Hle w1) | apply (Hle w2)]; (done || lia).
  - (* abort *) destruct Hc as [| w0 [o [e | s]] ? ? H0 Hr]; (split; [lia | done]).
  - (* assert *) apply (clean_assert W ws); [lia | done].
  - (* sleep *)
    destruct Hc as [| w0 m0 ws ms H0 Hr]; [exact (Herr _) |]. cbn [m_call]. eapply Hthen; [exact H0 |].
    intros s Hs1 Hs2. pose proof (sum_nonneg _ _ Hr). apply clean_io, clean_ret; [done |]. unfold W. simpl. lia.
  - (* stdout *) apply (clean_stdout W ws); [lia | done].
  - (* and *)
    two_args Hc Herr. eapply Hthen; [exact H0 |]. intros s Hs1 Hs2. pose proof (proj1 H0). pose proof (proj1 H1). unfold W in *. simpl in *.
    destruct (BooleanString s); [by apply (Hle w1); [lia |] | apply clean_ret; [done | lia]].
  - (* or *)
    two_args Hc Herr. eapply Hthen; [exact H0 |]. intros s Hs1 Hs2. pose proof (proj1 H0). pose proof (proj1 H1). unfold W in *. simpl in *.
    destruct (BooleanString s); [apply clean_ret; [done | lia] | by apply (Hle w1); [lia |]].
  - (* not *)
    destruct Hc as [| w0 m0 ? ? H0 [| w1 m1 ? ? H1 Hr]]; try exact (Herr _). simpl.
    eapply Hthen; [exact H0 |]. intros s _ _. apply Htruth.
  - binary_truth Hc Herr Hthen Htruth.
  - binary_truth Hc Herr Hthen Htruth.
  - binary_truth Hc Herr Hthen Htruth.
  - (* sequence *)
    two_args Hc Herr.
    eapply Hthen; [exact H0 |]. intros s _ _. pose proof (proj1 H0). unfold W in *. simpl in *. by apply (Hle w1); [lia |].
  - binary_truth Hc Herr Hthen Htruth.
  - two_args Hc Herr. eapply Hthen; [exact H1 |]. intros s _ _. eapply Hthen; [exact H0 |]. intros t _ _. apply Htruth.
  - (* literal *) apply clean_ret; [done | unfold W; lia].
Qed.

(** An argument's text lies in the script. *)
Definition src_ok (a : Arg) (src : block) : Prop :=
  0 <= a_start a <= a_end a /\ a_end a <= zlen scr /\ a_end a - a_start a < 2 ^ 31 /\
  src = slice scr (a_start a) (a_end a - a_start a).

Ltac exactly_two Hims Har :=
  destruct Hims as [| a0 m0 ? ? H0 [| a1 m1 ? ? H1 [| a2 m2 ? ? H2 Hr]]];
  try (exfalso; revert Har; cbn [arity_ok]; rewrite Z.eqb_eq; zlia).

Lemma call_spec fn name argv ms ws srcs st :
  impls argv ms -> Forall2 clean ws ms -> foldr Z.add 0 ws + 1 < 2 ^ 31 ->
  arity_ok fn (zlen argv) = true -> Forall2 src_ok argv srcs -> script st = scr ->
  call malloc external fn name argv st = Val (to_c ValString (m_call fn name ms srcs) st).
Proof.
  intros Hims Hc Hw Har Hsrc Hs. destruct fn; cbn [call].
  - by eapply concat_spec.
  - by apply ifelse_spec.
  - by apply abort_spec.
  - by apply (assert_spec []).
  - destruct Hims as [| a0 m0 ? ? H0 Hr]; [done |]. by apply sleep_spec.
  - by apply (stdout_spec []).
  - exactly_two Hims Har. by apply and_spec.
  - exactly_two Hims Har. by apply or_spec.
  - destruct Hims as [| a0 m0 ? ? H0 [| a1 m1 ? ? H1 Hr]]; [done | by apply not_spec |].
    exfalso. revert Har. cbn [arity_ok]. rewrite Z.eqb_eq. zlia.
  - exactly_two Hims Har. by apply binary_spec.
  - exactly_two Hims Har. unfold do_equality. rewrite (binary_spec _ a0 a1 m0 m1) by done. cbn [m_call].
    destruct m0 as [o [e | u]], m1 as [o' [e' | v]]; simpl; try done. by rewrite strcmp_eq_spec.
  - exactly_two Hims Har. unfold do_inequality. rewrite (binary_spec _ a0 a1 m0 m1) by done. cbn [m_call].
    destruct m0 as [o [e | u]], m1 as [o' [e' | v]]; simpl; try done.
    by rewrite strcmp_eq_spec, bool_decide_not.
  - exactly_two Hims Har. by apply sequence_spec.
  - by apply less_than_spec.
  - by apply greater_than_spec.
  - apply ret_state.
  - done.
Qed.

Lemma weight_sum l : foldr (fun a w => weight a + w) 0 l = foldr Z.add 0 (List.map weight l).
Proof. induction l as [| a l IH]; simpl; [done |]. by rewrite IH. Qed.

Lemma nonzero_forallb name : forallb (fun c => negb (c =? 0)) name = true -> Forall (fun c => c <> 0) name.
Proof.
  rewrite forallb_forall, Forall_forall. intros Hn c Hc. apply list_elem_of_In, Hn in Hc.
  apply negb_true_iff, Z.eqb_neq in Hc. done.
Qed.

Lemma weight_nonneg e : 0 <= weight e.
Proof.
  induction e as [fn name argv s n IH] using Expr_nested_ind. simpl. pose proof (zlen_nonneg name).
  assert (0 <= foldr (fun a w => weight a + w) 0 argv); [| lia]. induction IH; simpl; lia.
Qed.

Lemma weight_arg a argv : a ∈ argv -> weight a <= foldr (fun a w => weight a + w) 0 argv.
Proof.
  induction argv as [| b argv IH]; simpl; [by intros ?%elem_of_nil |].
  assert (0 <= foldr (fun a w => weight a + w) 0 argv).
  { clear. induction argv as [| c argv IH]; simpl; [done |]. pose proof (weight_nonneg c). lia. }
  pose proof (weight_nonneg b). intros [-> | Ha]%elem_of_cons; [lia |]. specialize (IH Ha). lia.
Qed.

Lemma eval_meaning e :
  wf_expr scr e = true -> weight e < 2 ^ 31 -> zlen scr < 2 ^ 31 ->
  impl (arg_of malloc external e) (meaning scr e) /\ clean (weight e) (meaning scr e).
Proof.
  induction e as [fn name argv s n IH] using Expr_nested_ind. intros Hwf Hw Hscr.
  cbn [wf_expr] in Hwf. rewrite !andb_true_iff, !Z.leb_le in Hwf.
  destruct Hwf as (((((Har & Hname) & Hs) & Hsn) & Hn) & Hargs).
  apply nonzero_forallb in Hname. cbn [weight] in Hw |- *. rewrite forallb_forall in Hargs.
  pose proof (zlen_nonneg name).
  assert (Forall (fun a => (impl (arg_of malloc external a) (meaning scr a) /\ clean (weight a) (meaning scr a)) /\
    0 <= e_start a <= e_end a /\ e_end a <= zlen scr) argv) as Hall.
  { rewrite Forall_forall in IH |- *. intros a Ha. pose proof (weight_arg a argv Ha).
    specialize (Hargs a (proj1 (list_elem_of_In _ _) Ha)). split; [apply IH; (done || lia) |].
    destruct a. cbn [wf_expr] in Hargs. rewrite !andb_true_iff, !Z.leb_le in Hargs. simpl. lia. }
  clear IH Hargs. rewrite weight_sum in Hw |- *.
  assert (impls (List.map (arg_of malloc external) argv) (List.map (meaning scr) argv) /\
    Forall2 clean (List.map weight argv) (List.map (meaning scr) argv) /\
    Forall2 src_ok (List.map (arg_of malloc external) argv) (List.map (src_of scr) argv)) as (Hi & Hc & Hsrc).
  { clear -Hall Hscr. induction Hall as [| a argv ((Ha & Hc) & Hb) _ (IH1 & IH2 & IH3)]; simpl; [by split_and!; constructor |].
    split_and!; constructor; try done. split_and!; simpl; [lia .. | done]. }
  split; [| cbn [meaning]; by apply clean_call].
  intros st Hst. cbn [arg_of a_eval meaning]. 
  apply (call_spec fn name _ _ (List.map weight argv)); try done; [lia |].
  unfold zlen in *. by rewrite length_map.
Qed.
End Correct.

(** ** The function table *)

#[global] Instance fn_le_trans : Transitive fn_le.
Proof. intros a b c. unfold fn_le. apply name_le_trans. Qed.
#[global] Instance fn_le_total : Total fn_le.
Proof. intros a b. unfold fn_le. apply name_le_total. Qed.
#[global] Instance fn_le_refl : Reflexive fn_le.
Proof. intros a. apply name_le_refl. Qed.

Lemma bsearch_spec fuel key t base nmemb :
  StronglySorted fn_le t -> 0 <= base -> base + nmemb <= zlen t -> nmemb <= Z.of_nat fuel ->
  (forall j x, load t j = Val x -> nf_name x = nf_name key -> base <= j < base + nmemb) ->
  wp (bsearch fuel key t base nmemb) (fun r =>
    match r with
    | Some x => x ∈ t /\ nf_name x = nf_name key
    | None => forall x, x ∈ t -> nf_name x <> nf_name key
    end).
Proof.
  intros HS. revert base nmemb. induction fuel as [| fuel IH]; intros base nmemb Hb Ht Hf Hin; cbn [bsearch];
    destruct (Z.leb_spec nmemb 0) as [Hz | Hpos]; try lia.
  1, 2: simpl; intros x [j Hj]%list_elem_of_lookup Hx; specialize (Hin (Z.of_nat j) x);
    rewrite load_Val, Nat2Z.id in Hin; specialize (Hin (conj (Nat2Z.is_nonneg j) Hj) Hx); lia.
  assert (0 <= nmemb / 2 < nmemb) as Hhalf by (split; [apply Z.div_pos; lia | apply Z.div_lt_upper_bound; lia]).
  set (idx := base + nmemb / 2). destruct (load_some t idx) as [x Hx]; [lia |]. rewrite Hx. cbn [mbind outcome_bind].
  unfold fn_entry_compare. destruct (lex (nf_name key) (nf_name x)) eqn:E; cbn.
  - apply lex_eq in E. apply load_Val in Hx as [_ Hx]. split; [by eapply list_elem_of_lookup_2 | done].
  - apply IH; try lia. intros j y Hy Ey. specialize (Hin j y Hy Ey).
    destruct (decide (j < idx)); [lia |]. exfalso.
    pose proof (sorted_load_le fn_le t idx j x y HS Hx Hy ltac:(lia)) as Hle. unfold fn_le in Hle.
    rewrite Ey in Hle. unfold name_le in Hle. by rewrite (lex_antisym (nf_name key)), E in Hle.
  - apply IH; try lia. intros j y Hy Ey. specialize (Hin j y Hy Ey).
    destruct (decide (idx < j)); [lia |]. exfalso.
    pose proof (sorted_load_le fn_le t j idx y x HS Hy Hx ltac:(lia)) as Hle. unfold fn_le in Hle.
    rewrite Ey in Hle. unfold name_le in Hle. by rewrite E in Hle.
Qed.

Lemma register_all_spec l r :
  zlen (fn_table r) <= fn_size r -> fn_size r <= 2 * zlen (fn_table r) + 1 ->
  zlen (fn_table r) + zlen l < 2 ^ 29 ->
  wp (register_all l r) (fun r' => fn_table r' = fn_table r ++ l).
Proof.
  revert r. induction l as [| [name fn] l IH]; intros r H1 H2 H3; cbn [register_all].
  { simpl. by rewrite app_nil_r. }
  unfold RegisterFunction. pose proof (zlen_nonneg (fn_table r)). pose proof (zlen_nonneg l). rewrite zlen_cons in H3.
  set (size := if fn_size r <=? zlen (fn_table r) then fn_size r * 2 + 1 else fn_size r).
  assert (zlen (fn_table r) < size /\ size <= 2 * (zlen (fn_table r) + 1) + 1) as [Hs1 Hs2].
  { unfold size. destruct (Z.leb_spec (fn_size r) (zlen (fn_table r))); lia. }
  assert ((if fn_size r <=? zlen (fn_table r) then c_int 32 (fn_size r * 2 + 1) else Val (fn_size r)) = Val size) as ->.
  { unfold size, c_int, in_int. destruct (Z.leb_spec (fn_size r) (zlen (fn_table r))); [| done].
    rewrite (proj2 (Z.leb_le _ _)), (proj2 (Z.ltb_lt _ _)) by lia. done. }
  cbn [mbind outcome_bind nf_name nf_fn]. rewrite (proj2 (Z.ltb_lt _ size)) by lia. cbn [mbind outcome_bind].
  eapply wp_mono; [apply IH; cbn [fn_table fn_size]; zlia |]. cbn [fn_table]. intros r' ->.
  by rewrite <- app_assoc.
Qed.

(** ** Decimal numbers *)

Definition dec_value (ds : block) : Z := foldl (fun acc c => acc * 10 + (c - 48)) 0 ds.
Definition spaces (l : block) : Prop := Forall (fun c => is_space c = true) l.
Definition digits_only (l : block) : Prop := Forall (fun c => is_digit c = true) l.

Lemma skip_space_spec s : exists ws, s = ws ++ skip_space s /\ spaces ws.
Proof.
  induction s as [| c s (ws & E & Hws)]; [exists []; split; [done | constructor] |]. simpl. destruct (is_space c) eqn:Hc.
  - exists (c :: ws). split; [simpl; by f_equal | by constructor].
  - exists []. split; [done | constructor].
Qed.

Lemma skip_space_app ws c t : spaces ws -> is_space c = false -> skip_space (ws ++ c :: t) = c :: t.
Proof. intros Hws Hc. induction Hws as [| w ws Hw _ IH]; simpl; [by rewrite Hc | by rewrite Hw]. Qed.

Lemma digits_spec s acc : exists ds, s = ds ++ (digits s acc).2 /\ digits_only ds /\
  (digits s acc).1 = foldl (fun acc c => acc * 10 + (c - 48)) acc ds /\ (starts_digit s = true -> ds <> []).
Proof.
  revert acc. induction s as [| c s IH]; intros acc; simpl; [exists []; split_and!; [done | constructor | done | done] |].
  destruct (is_digit c) eqn:Hc; [| exists []; split_and!; [done | constructor | done | done]].
  destruct (IH (acc * 10 + (c - 48))) as (ds & E & Hds & Hv & _). exists (c :: ds). simpl.
  split_and!; [by f_equal | by constructor | done | done].
Qed.

Lemma digits_all ds acc : digits_only ds -> digits ds acc = (foldl (fun acc c => acc * 10 + (c - 48)) acc ds, []).
Proof. intros Hds. revert acc. induction Hds as [| c ds Hc _ IH]; intros acc; simpl; [done |]. by rewrite Hc. Qed.

Definition clamp `{Arch} (v : Z) : Z := Z.max (- 2 ^ (word_bits - 1)) (Z.min (2 ^ (word_bits - 1) - 1) v).

(** A sign and what it does. *)
Definition sign_of (sg : block) : option (Z -> Z) :=
  match sg with [] => Some (fun v => v) | [43] => Some (fun v => v) | [45] => Some Z.opp | _ => None end.

(** [s] is a decimal integer: blanks, a sign, digits; [v] its value. *)
Definition decimal (s : block) (v : Z) : Prop :=
  exists ws sg ds f, s = ws ++ sg ++ ds /\ spaces ws /\ sign_of sg = Some f /\ ds <> [] /\
    digits_only ds /\ v = f (dec_value ds).

Lemma digit_range c : is_digit c = true -> 48 <= c <= 57.
Proof. unfold is_digit. rewrite andb_true_iff, !Z.leb_le. done. Qed.

Lemma sign_start `{Arch} ws sg ds f :
  spaces ws -> sign_of sg = Some f -> ds <> [] -> digits_only ds ->
  strtol (ws ++ sg ++ ds) = (clamp (f (dec_value ds)), []).
Proof.
  intros Hws Hsg Hne Hds. destruct ds as [| d ds]; [done |]. pose proof Hds as [Hd _]%Forall_cons.
  pose proof (digit_range d Hd). unfold strtol.
  assert (is_space d = false) as Hsp.
  { unfold is_space. apply orb_false_iff. rewrite andb_false_iff, Z.eqb_neq, Z.leb_gt, Z.leb_gt. lia. }
  assert (skip_space (ws ++ sg ++ d :: ds) = sg ++ d :: ds) as ->.
  { destruct sg as [| c sg]; simpl; [by apply skip_space_app |]. apply skip_space_app; [done |].
    destruct c as [| c | c]; try done. simpl in Hsg.
    do 6 (destruct c as [c | c |]; try done). }
  destruct sg as [| c [| c' sg]]; simpl in Hsg |- *.
  - injection Hsg as <-. rewrite (proj2 (Z.eqb_neq d 45)), (proj2 (Z.eqb_neq d 43)) by lia.
    cbn [starts_digit]. rewrite Hd, digits_all by done. done.
  - destruct (Z.eqb_spec c 45) as [-> |]; [| destruct (Z.eqb_spec c 43) as [-> |]].
    + injection Hsg as <-. cbn [starts_digit]. by rewrite Hd, digits_all by done.
    + injection Hsg as <-. cbn [starts_digit]. by rewrite Hd, digits_all by done.
    + exfalso. destruct c as [| c | c]; try done. do 6 (destruct c as [c | c |]; try done).
  - exfalso. destruct c as [| c | c]; try done. do 6 (destruct c as [c | c |]; try done).
Qed.

Lemma as_int_spec `{Arch} s v : as_int s = Some v <-> exists u, decimal s u /\ v = clamp u.
Proof.
  split.
  - unfold as_int. destruct (skip_space_spec s) as (ws & Es & Hws). unfold strtol.
    set (t := skip_space s) in *.
    set (nt := match t with
               | c :: t' => if c =? 45 then (true, t') else if c =? 43 then (false, t') else (false, t)
               | [] => (false, []) end).
    assert (exists sg, t = sg ++ nt.2 /\ sign_of sg = Some (if (nt.1 : bool) then Z.opp else fun v => v)) as (sg & Et & Hsg).
    { unfold nt. destruct t as [| c t']; [by exists [] |].
      destruct (Z.eqb_spec c 45) as [-> |]; [by exists [45] |].
      destruct (Z.eqb_spec c 43) as [-> |]; [by exists [43] | by exists []]. }
    destruct nt as [neg u]. simpl in Et, Hsg. destruct (starts_digit u) eqn:Hd.
    + destruct (digits_spec u 0) as (ds & Eu & Hds & Hv & Hne). destruct (digits u 0) as [w rest]. simpl in *.
      destruct (negb (BooleanString s) || BooleanString rest) eqn:Eb; [done |]. intros [= <-].
      apply orb_false_iff in Eb as [_ Er]. destruct rest; [| done]. rewrite app_nil_r in Eu.
      eexists. split; [exists ws, sg, u; eexists; split_and!; [congruence | done | exact Hsg | | | reflexivity] |].
      * rewrite Eu. by apply Hne.
      * by rewrite Eu.
      * unfold dec_value, clamp. rewrite Eu, <- Hv. by destruct neg.
    + destruct s as [| c s]; [done |]. done.
  - intros (u & (ws & sg & ds & f & -> & Hws & Hsg & Hne & Hds & ->) & ->). unfold as_int.
    rewrite (sign_start ws sg ds f) by done. destruct (ws ++ sg ++ ds) eqn:E; [| done].
    apply app_eq_nil in E as [_ E]. apply app_eq_nil in E as [_ E]. done.
Qed.

End Edify.

Arguments State : clear implicits.
Arguments Arg : clear implicits.

(** ** Properties *)

(** C12: every well-formed script evaluates without a memory error to what it means:
    the string, or NULL with the error message set; what it printed and how long it
    slept are recorded in order; on success the error message is left alone.  In
    particular the operators short-circuit, failures propagate, and a failed assertion
    reports the text of its condition. *)
Theorem EvaluateValue_correct `{Arch} {X} (malloc : Z -> block) external (scr : block) (e : Expr) (st : State X) :
  (forall n, 0 <= n -> zlen (malloc n) = n) -> wf_expr scr e = true -> weight e < 2 ^ 31 ->
  zlen scr < 2 ^ 31 -> script st = scr ->
  EvaluateValue malloc external e st = Val (to_c ValString (meaning scr e) st).
Proof. intros Hm Hwf Hw Hscr Hst. by apply (eval_meaning malloc Hm external scr e). Qed.

(** assert(less_than_int("2", "10")); concat("a", "b") *)
Definition demo_lit (s : string) : Expr := mkExpr Literal (str s) [] 0 0.
Definition demo_expr : Expr :=
  Build SequenceFn 0 3
    [mkExpr AssertFn (str "assert") [mkExpr LessThanIntFn (str "less_than_int") [demo_lit "2"; demo_lit "10"] 0 3] 0 3;
     mkExpr ConcatFn (str "concat") [demo_lit "a"; demo_lit "b"] 0 3].
Definition demo_mal (n : Z) : block := replicate (Z.to_nat n) 7.

Lemma EvaluateValue_correct_witness :
  @EvaluateValue unit LP64 demo_mal (fun _ _ st _ => Val (None, st)) demo_expr (mkState tt [1; 2; 3] None []) =
    Val (Some (ValString (str "ab")), mkState tt [1; 2; 3] None []).
Proof.
  rewrite (@EvaluateValue_correct LP64 unit demo_mal _ [1; 2; 3]); [vm_compute; reflexivity | | | | |].
  - intros n Hn. unfold demo_mal, zlen. rewrite length_replicate. lia.
  - vm_compute. reflexivity.
  - vm_compute. reflexivity.
  - vm_compute. reflexivity.
  - reflexivity.
Defined.

(** [less_than_int] answers "t" exactly when both arguments are decimal integers
    (blanks, a sign, digits, nothing else) and the first, taken to the range of [long],
    is below the second. *)
Theorem less_than_int_correct `{Arch} {X} (l r : block) (st : State X) :
  let lit s := mkArg (do_literal s) 0 0 in
  do_less_than_int st [lit l; lit r] =
    Val (Some (ValString (truth (int_less l r))), st) /\
  (int_less l r = true <-> exists a b, decimal l a /\ decimal r b /\ clamp a < clamp b).
Proof.
  split.
  { transitivity (Val (Some (ValString (truth (match as_int l with None => false | Some a =>
      match as_int r with None => false | Some b => a <? b end end))), st)); [reflexivity |].
    unfold int_less. by destruct (as_int l), (as_int r). }
  unfold int_less. split.
  - destruct (as_int l) as [a |] eqn:El; [| done]. destruct (as_int r) as [b |] eqn:Er; [| done].
    apply as_int_spec in El as (u & Hu & ->). apply as_int_spec in Er as (w & Hw & ->).
    rewrite Z.ltb_lt. intros ?. by exists u, w.
  - intros (a & b & Ha & Hb & Hlt). rewrite (proj2 (as_int_spec l (clamp a))), (proj2 (as_int_spec r (clamp b)));
      [by apply Z.ltb_lt | by exists b | by exists a].
Qed.

Lemma find_registered (r : registry) (name : block) :
  wp (FindFunction name (FinishRegistration r)) (fun res =>
    match res with
    | Some f => mkNamed name f ∈ fn_table r
    | None => forall f, mkNamed name f ∉ fn_table r
    end).
Proof.
  unfold FindFunction, FinishRegistration. cbn [fn_table]. set (l := fn_table r).
  pose proof (merge_sort_Permutation fn_le l) as Hp. apply wp_bind. eapply wp_mono.
  - apply bsearch_spec; [apply (StronglySorted_merge_sort fn_le l) | lia | lia | unfold zlen; lia |].
    intros j x Hj _. apply load_range in Hj. lia.
  - intros [[n f] |]; simpl.
    + intros [Hin <-]. by rewrite Hp in Hin.
    + intros Hno f Hf. rewrite <- Hp in Hf. by apply Hno in Hf.
Qed.

(** After any registrations and [FinishRegistration], [FindFunction] returns, and
    finds a function registered under the name exactly when there is one (the one, when
    names are registered once). *)
Theorem FindFunction_correct (l : list NamedFunction) (name : block) :
  zlen l < 2 ^ 29 ->
  wp (register_all l empty_registry) (fun r =>
    wp (FindFunction name (FinishRegistration r)) (fun res =>
      match res with
      | Some f => mkNamed name f ∈ l
      | None => forall f, mkNamed name f ∉ l
      end)).
Proof.
  intros Hl. eapply wp_mono; [apply register_all_spec; simpl; zlia |]. cbn [fn_table empty_registry app].
  intros r Hr. rewrite <- Hr. apply find_registered.
Qed.

Lemma FindFunction_correct_witness :
  wp (register_all builtins empty_registry) (fun r =>
    wp (FindFunction (str "concat") (FinishRegistration r)) (fun res =>
      match res with
      | Some f => mkNamed (str "concat") f ∈ builtins
      | None => forall f, mkNamed (str "concat") f ∉ builtins
      end)) /\
  (let* r := RegisterBuiltins empty_registry in FindFunction (str "concat") (FinishRegistration r)) =
    Val (Some ConcatFn).
Proof. split; [apply FindFunction_correct; by vm_compute | vm_compute; reflexivity]. Defined.

(** The registered functions [is_substring] and [sleep] read [argv] without looking at
    [argc]: with too few arguments they run past the array. *)
Theorem missing_arguments_out_of_bounds `{Arch} {X} (st : State X) :
  do_sleep st [] = Trap OutOfBounds /\ do_substring st [] = Trap OutOfBounds.
Proof. by split. Qed.
