(* ===== verification/Bspatch.v ===== *)
(** * applypatch/bspatch.c and bsdiff.c: binary patches

    [ApplyBSDiffPatchMem] rebuilds a file from an old file and a patch; [bsdiff] makes
    the patch.  The patch format is kept byte for byte: header, and three compressed
    blocks (control triples, differences, extra bytes).  libbz2 is outside the
    repository: its decompressor is the record [bzlib] of one call on a stream, its
    compressor the function [bz_compress]; [bzlib_ok] states what the code relies on.
    [malloc] gives a block of the size asked for.  The suffix array [I] that guides the
    search is an argument of [bsdiff], as it is for a caller that passes one in. *)

From stdpp Require Import base numbers list.
From stdpp Require Import strings.
From S2P Require Import Prelude CString.

(** ** Eight-byte signed integers *)

Section Model.
Context `{Arch}.

(** One step [y = y*256; y += b] in [off_t]. *)
Definition off_step (y b : Z) : outcome Z :=
  let* y := c_int word_bits (y * 256) in c_int word_bits (y + b).

Definition offtin (buf : block) (p : Z) : outcome Z :=
  let* b7 := load buf (p + 7) in
  let* b6 := load buf (p + 6) in
  let* b5 := load buf (p + 5) in
  let* b4 := load buf (p + 4) in
  let* b3 := load buf (p + 3) in
  let* b2 := load buf (p + 2) in
  let* b1 := load buf (p + 1) in
  let* b0 := load buf p in
  let* y := off_step (Z.land b7 0x7F) b6 in
  let* y := off_step y b5 in
  let* y := off_step y b4 in
  let* y := off_step y b3 in
  let* y := off_step y b2 in
  let* y := off_step y b1 in
  let* y := off_step y b0 in
  if negb (Z.land b7 0x80 =? 0) then c_int word_bits (- y) else Val y.

(** The bytes [offtout] stores; [y] runs down by exact divisions. *)
Definition offtout (x : Z) : outcome block :=
  let* y := if x <? 0 then c_int word_bits (- x) else Val x in
  let b0 := y mod 256 in let y := (y - b0) / 256 in
  let b1 := y mod 256 in let y := (y - b1) / 256 in
  let b2 := y mod 256 in let y := (y - b2) / 256 in
  let b3 := y mod 256 in let y := (y - b3) / 256 in
  let b4 := y mod 256 in let y := (y - b4) / 256 in
  let b5 := y mod 256 in let y := (y - b5) / 256 in
  let b6 := y mod 256 in let y := (y - b6) / 256 in
  let b7 := y mod 256 in
  Val [b0; b1; b2; b3; b4; b5; b6; if x <? 0 then Z.lor b7 0x80 else b7].

(** ** Applying a patch *)

(** libbz2's decompressor: a stream over the memory at [next_in] with [avail_in] bytes,
    and one call with [avail_out] bytes of room: the code, the output, the stream. *)
Record bzlib := mkBz {
  bz_stream : Type;
  BZ2_bzDecompressInit : block -> Z -> bz_stream;
  BZ2_bzDecompress : bz_stream -> Z -> Z * block * bz_stream
}.
Definition BZ_OK : Z := 0.
Definition BZ_STREAM_END : Z := 4.

Variable bz : bzlib.

(** Fill [avail_out] bytes at [p] of [m]; the fuel bounds the calls of the library. *)
Fixpoint fill_loop (fuel : nat) (m : block) (p avail_out : Z) (s : bz_stream bz) :
    outcome (Z * block * bz_stream bz) :=
  if avail_out <=? 0 then Val (0, m, s) else
  match fuel with
  | O => Trap NoFuel
  | S fuel =>
      let '(bzerr, out, s) := BZ2_bzDecompress bz s avail_out in
      let* m := store_bytes m p out in
      if negb (bzerr =? BZ_OK) && negb (bzerr =? BZ_STREAM_END) then Val (-1, m, s)
      else fill_loop fuel m (p + zlen out) (avail_out - zlen out) s
  end.

(** [size] is an [int]; [avail_out] is unsigned. *)
Definition FillBuffer (fuel : nat) (m : block) (p size : Z) (s : bz_stream bz) :
    outcome (Z * block * bz_stream bz) :=
  fill_loop fuel m p (u32 (i32 size)) s.

(** Add the old data to the difference bytes at [newpos]. *)
Fixpoint add_old (n : nat) (i : Z) (old new : block) (oldpos newpos : Z) : outcome block :=
  match n with
  | O => Val new
  | S n =>
      let* new :=
        if (0 <=? oldpos + i) && (oldpos + i <? zlen old) then
          let* o := load old (oldpos + i) in
          let* d := load new (newpos + i) in
          store new (newpos + i) (u8 (d + o))
        else Val new in
      add_old n (i + 1) old new oldpos newpos
  end.

Variable fuel : nat.

(** The loop over control triples: 0 and the new data, or the error code 1. *)
Fixpoint patch_loop (rounds : nat) (old new : block) (new_size oldpos newpos : Z)
    (cs ds es : bz_stream bz) : outcome (Z * block) :=
  if new_size <=? newpos then Val (0, new) else
  match rounds with
  | O => Trap NoFuel
  | S rounds =>
      let* (err, buf, cs) := FillBuffer fuel (replicate 24 0) 0 24 cs in
      if negb (err =? 0) then Val (1, new) else
      let* ctrl0 := offtin buf 0 in
      let* ctrl1 := offtin buf 8 in
      let* ctrl2 := offtin buf 16 in
      let* over := c_int word_bits (newpos + ctrl0) in
      if new_size <? over then Val (1, new) else
      let* (err, new, ds) := FillBuffer fuel new newpos ctrl0 ds in
      if negb (err =? 0) then Val (1, new) else
      if 2 ^ 31 <=? ctrl0 then Trap IntOverflow  (** the [int] counter *)
      else
        let* new := add_old (Z.to_nat ctrl0) 0 old new oldpos newpos in
        let newpos := newpos + ctrl0 in
        let* oldpos := c_int word_bits (oldpos + ctrl0) in
        let* over := c_int word_bits (newpos + ctrl1) in
        if new_size <? over then Val (1, new) else
        let* (err, new, es) := FillBuffer fuel new newpos ctrl1 es in
        if negb (err =? 0) then Val (1, new) else
        let newpos := newpos + ctrl1 in
        let* oldpos := c_int word_bits (oldpos + ctrl2) in
        patch_loop rounds old new new_size oldpos newpos cs ds es
  end.

Variable malloc : Z -> option block.

(** [patch->data], [patch->size] and the offset of the patch in it. *)
Definition ApplyBSDiffPatchMem (rounds : nat) (old patch : block) (patch_size patch_offset : Z) :
    outcome (Z * option block) :=
  let* magic := load_bytes patch patch_offset 8 in
  if negb (bool_decide (magic = str "BSDIFF40")) then Val (1, None) else
  let* ctrl_len := offtin patch (patch_offset + 8) in
  let* data_len := offtin patch (patch_offset + 16) in
  let* new_size := offtin patch (patch_offset + 24) in
  if (ctrl_len <? 0) || (data_len <? 0) || (new_size <? 0) then Val (1, None) else
  let p := patch_offset + 32 in
  let stream p n := BZ2_bzDecompressInit bz (drop (Z.to_nat p) patch) (u32 n) in
  let cs := stream p ctrl_len in
  let ds := stream (p + ctrl_len) data_len in
  let es := stream (p + ctrl_len + data_len) (patch_size - (p + ctrl_len + data_len)) in
  match malloc new_size with
  | None => Val (1, None)
  | Some new =>
      let* (r, new) := patch_loop rounds old new new_size 0 0 cs ds es in
      Val (r, Some new)
  end.

(** The sink reports how much it wrote; the digest is updated when there is one. *)
Definition ApplyBSDiffPatch {S D} (rounds : nat) (old patch : block) (patch_size patch_offset : Z)
    (sink : block -> S -> Z * S) (token : S) (SHA_update : D -> block -> D) (ctx : option D) :
    outcome (Z * S * option D) :=
  let* (r, new) := ApplyBSDiffPatchMem rounds old patch patch_size patch_offset in
  if negb (r =? 0) then Val (-1, token, ctx) else
  match new with
  | None => Trap NullDeref
  | Some new =>
      let '(n, token) := sink new token in
      if n <? zlen new then Val (1, token, ctx)
      else Val (0, token, (fun c => SHA_update c new) <$> ctx)
  end.
End Model.

(** ** Making a patch *)

(** The sizes are those of blocks in memory; [off_t] arithmetic on them is exact. *)
Section Diff.
Context `{Arch}.
Variable bz_compress : block -> block.
Variables old new : block.
Variable I : list Z.

Abbreviation oldsize := (zlen old).
Abbreviation newsize := (zlen new).

(** [matchlen(old+po, osize, new+pn, nsize)], counting from [i]. *)
Fixpoint match_loop (n : nat) (po osize pn nsize i : Z) : outcome Z :=
  if negb ((i <? osize) && (i <? nsize)) then Val i else
  match n with
  | O => Trap NoFuel
  | S n =>
      let* a := load old (po + i) in
      let* b := load new (pn + i) in
      if negb (a =? b) then Val i else match_loop n po osize pn nsize (i + 1)
  end.

Definition matchlen (po osize pn nsize : Z) : outcome Z := match_loop (Z.to_nat nsize) po osize pn nsize 0.

(** The length of the match found and its position. *)
Fixpoint search (fuel : nat) (pn st en : Z) : outcome (Z * Z) :=
  if en - st <? 2 then
    let* ist := load I st in
    let* x := matchlen ist (oldsize - ist) pn (newsize - pn) in
    let* ien := load I en in
    let* y := matchlen ien (oldsize - ien) pn (newsize - pn) in
    if y <? x then Val (x, ist) else Val (y, ien)
  else
    match fuel with
    | O => Trap NoFuel
    | S fuel =>
        let x := st + (en - st) / 2 in
        let* ix := load I x in
        let n := Z.min (oldsize - ix) (newsize - pn) in
        let* a := load_bytes old ix n in
        let* b := load_bytes new pn n in
        if memcmp a b <? 0 then search fuel pn x en else search fuel pn st x
    end.

(** [(i+lastoffset<oldsize) && (old[i+lastoffset]==new[i])] as 0 or 1. *)
Definition same_at (lastoffset i : Z) : outcome Z :=
  if i + lastoffset <? oldsize then
    let* a := load old (i + lastoffset) in
    let* b := load new i in
    Val (if a =? b then 1 else 0)
  else Val 0.

(** [for(;scsc<stop;scsc++) if(...) oldscore++] *)
Fixpoint extend_score (n : nat) (lastoffset scsc stop oldscore : Z) : outcome (Z * Z) :=
  if stop <=? scsc then Val (scsc, oldscore) else
  match n with
  | O => Trap NoFuel
  | S n =>
      let* s := same_at lastoffset scsc in
      extend_score n lastoffset (scsc + 1) stop (oldscore + s)
  end.

(** The locals of the scanning loop. *)
Record scanning := mkScan { sc_scan : Z; sc_len : Z; sc_pos : Z; sc_scsc : Z; sc_score : Z }.

(** [for(scsc=scan+=len;scan<newsize;scan++)] *)
Fixpoint scan_loop (n : nat) (lastoffset : Z) (s : scanning) : outcome scanning :=
  if newsize <=? sc_scan s then Val s else
  match n with
  | O => Trap NoFuel
  | S n =>
      let* (len, pos) := search (length I) (sc_scan s) 0 oldsize in
      let stop := sc_scan s + len in
      let* (scsc, oldscore) := extend_score (Z.to_nat (stop - sc_scsc s)) lastoffset (sc_scsc s) stop (sc_score s) in
      if ((len =? oldscore) && negb (len =? 0)) || (oldscore + 8 <? len) then
        Val (mkScan (sc_scan s) len pos scsc oldscore)
      else
        let* d := same_at lastoffset (sc_scan s) in
        scan_loop n lastoffset (mkScan (sc_scan s + 1) len pos scsc (oldscore - d))
  end.

(** The length of the forward extension from [lastscan], [lastpos]. *)
Fixpoint forward (n : nat) (lastscan lastpos scan i s Sf lenf : Z) : outcome Z :=
  if negb ((lastscan + i <? scan) && (lastpos + i <? oldsize)) then Val lenf else
  match n with
  | O => Trap NoFuel
  | S n =>
      let* a := load old (lastpos + i) in
      let* b := load new (lastscan + i) in
      let s := if a =? b then s + 1 else s in
      let i := i + 1 in
      if Sf * 2 - lenf <? s * 2 - i then forward n lastscan lastpos scan i s s i
      else forward n lastscan lastpos scan i s Sf lenf
  end.

(** The length of the backward extension from [scan], [pos]. *)
Fixpoint backward (n : nat) (lastscan scan pos i s Sb lenb : Z) : outcome Z :=
  if negb ((lastscan + i <=? scan) && (i <=? pos)) then Val lenb else
  match n with
  | O => Trap NoFuel
  | S n =>
      let* a := load old (pos - i) in
      let* b := load new (scan - i) in
      let s := if a =? b then s + 1 else s in
      if Sb * 2 - lenb <? s * 2 - i then backward n lastscan scan pos (i + 1) s s i
      else backward n lastscan scan pos (i + 1) s Sb lenb
  end.

(** Where to cut an overlap of the two extensions. *)
Fixpoint cut (n : nat) (fnew fold_ bnew bold i s Ss lens : Z) : outcome Z :=
  match n with
  | O => Val lens
  | S n =>
      let* a := load new (fnew + i) in
      let* b := load old (fold_ + i) in
      let s := if a =? b then s + 1 else s in
      let* c := load new (bnew + i) in
      let* d := load old (bold + i) in
      let s := if c =? d then s - 1 else s in
      if Ss <? s then cut n fnew fold_ bnew bold (i + 1) s s (i + 1)
      else cut n fnew fold_ bnew bold (i + 1) s Ss lens
  end.

(** The two extensions, cut where they overlap. *)
Definition extents (lastscan lastpos scan pos : Z) : outcome (Z * Z) :=
  let* lenf := forward (length old) lastscan lastpos scan 0 0 0 0 in
  let* lenb := if scan <? newsize then backward (length old) lastscan scan pos 1 0 0 0 else Val 0 in
  if scan - lenb <? lastscan + lenf then
    let overlap := (lastscan + lenf) - (scan - lenb) in
    let* lens := cut (Z.to_nat overlap) (lastscan + lenf - overlap) (lastpos + lenf - overlap)
                   (scan - lenb) (pos - lenb) 0 0 0 0 in
    Val (lenf + (lens - overlap), lenb - lens)
  else Val (lenf, lenb).

(** [db[dblen+i]=new[lastscan+i]-old[lastpos+i]] *)
Fixpoint diff_bytes (n : nat) (lastscan lastpos i : Z) : outcome block :=
  match n with
  | O => Val []
  | S n =>
      let* b := load new (lastscan + i) in
      let* a := load old (lastpos + i) in
      let* rest := diff_bytes n lastscan lastpos (i + 1) in
      Val (u8 (b - a) :: rest)
  end.

(** Appending to a buffer of [newsize+1] bytes. *)
Definition push (buf v : block) : outcome block :=
  if zlen buf + zlen v <=? newsize + 1 then Val (buf ++ v) else Trap OutOfBounds.

(** What the outer loop carries: the control bytes written, [db], [eb] and positions. *)
Record diffing := mkDiff {
  df_ctrl : block; df_db : block; df_eb : block;
  df_scan : Z; df_len : Z; df_pos : Z;
  df_lastscan : Z; df_lastpos : Z; df_lastoffset : Z
}.

Definition emit (d : diffing) (s : scanning) : outcome diffing :=
  let scan := sc_scan s in let pos := sc_pos s in
  let lastscan := df_lastscan d in let lastpos := df_lastpos d in
  let* (lenf, lenb) := extents lastscan lastpos scan pos in
  let* db := diff_bytes (Z.to_nat lenf) lastscan lastpos 0 in
  let* db := push (df_db d) db in
  let extra := (scan - lenb) - (lastscan + lenf) in
  let* eb := load_bytes new (lastscan + lenf) (Z.max 0 extra) in
  let* eb := push (df_eb d) eb in
  let* c0 := offtout lenf in
  let* c1 := offtout extra in
  let* c2 := offtout ((pos - lenb) - (lastpos + lenf)) in
  Val (mkDiff (df_ctrl d ++ c0 ++ c1 ++ c2) db eb scan (sc_len s) pos (scan - lenb) (pos - lenb) (pos - scan)).

Fixpoint diff_loop (n : nat) (d : diffing) : outcome diffing :=
  if newsize <=? df_scan d then Val d else
  match n with
  | O => Trap NoFuel
  | S n =>
      let start := df_scan d + df_len d in
      let* s := scan_loop (length new) (df_lastoffset d) (mkScan start (df_len d) (df_pos d) start 0) in
      if negb (sc_len s =? sc_score s) || (sc_scan s =? newsize) then
        let* d := emit d s in diff_loop n d
      else
        diff_loop n (mkDiff (df_ctrl d) (df_db d) (df_eb d) (sc_scan s) (sc_len s) (sc_pos s)
                       (df_lastscan d) (df_lastpos d) (df_lastoffset d))
  end.

(** The patch file. *)
Definition bsdiff : outcome block :=
  let* d := diff_loop (length new + 1) (mkDiff [] [] [] 0 0 0 0 0 0) in
  let c := bz_compress (df_ctrl d) in
  let b := bz_compress (df_db d) in
  let x := bz_compress (df_eb d) in
  let* h1 := offtout (zlen c) in
  let* h2 := offtout (zlen b) in
  let* h3 := offtout newsize in
  Val (str "BSDIFF40" ++ h1 ++ h2 ++ h3 ++ c ++ b ++ x).
End Diff.

(** ** Integers survive the round trip *)

Section Ints.
Context `{Arch}.

Lemma half_word : 2 ^ 31 <= 2 ^ (word_bits - 1) <= 2 ^ 63.
Proof. destruct word_bits_ok as [-> | ->]; simpl; lia. Qed.

Lemma off_step_div q : 0 <= q < 2 ^ (word_bits - 1) -> off_step (q / 256) (q mod 256) = Val q.
Proof.
  intros Hq. pose proof half_word. assert (0 < word_bits) by (destruct word_bits_ok; lia).
  pose proof (Z.div_mod q 256 ltac:(lia)). pose proof (Z.mod_pos_bound q 256 ltac:(lia)).
  unfold off_step. rewrite (c_int_val _ (q / 256 * 256)) by lia. cbn [mbind outcome_bind].
  rewrite c_int_val by lia. f_equal. lia.
Qed.

Lemma sub_mod_div y : (y - y mod 256) / 256 = y / 256.
Proof.
  pose proof (Z.div_mod y 256 ltac:(lia)). replace (y - y mod 256) with (y / 256 * 256) by lia.
  apply Z.div_mul. lia.
Qed.

(** The sign bit is kept apart from the top byte. *)
Lemma sign_byte b : 0 <= b < 128 ->
  Z.land (Z.lor b 0x80) 0x7F = b /\ Z.land (Z.lor b 0x80) 0x80 = 0x80 /\
  Z.land b 0x7F = b /\ Z.land b 0x80 = 0 /\ 0 <= Z.lor b 0x80 < 256.
Proof.
  intros Hb. assert (forall k : nat, (k < 128)%nat ->
    Z.land (Z.lor (Z.of_nat k) 0x80) 0x7F = Z.of_nat k /\ Z.land (Z.lor (Z.of_nat k) 0x80) 0x80 = 0x80 /\
    Z.land (Z.of_nat k) 0x7F = Z.of_nat k /\ Z.land (Z.of_nat k) 0x80 = 0 /\ 0 <= Z.lor (Z.of_nat k) 0x80 < 256) as Hk.
  { intros k Hk. do 128 (destruct k as [| k]; [by vm_compute |]). lia. }
  rewrite <- (Z2Nat.id b) by lia. apply Hk. lia.
Qed.

Lemma offtin_app a c b0 b1 b2 b3 b4 b5 b6 b7 :
  offtin (a ++ [b0; b1; b2; b3; b4; b5; b6; b7] ++ c) (zlen a) =
  let* y := off_step (Z.land b7 0x7F) b6 in
  let* y := off_step y b5 in
  let* y := off_step y b4 in
  let* y := off_step y b3 in
  let* y := off_step y b2 in
  let* y := off_step y b1 in
  let* y := off_step y b0 in
  if negb (Z.land b7 0x80 =? 0) then c_int word_bits (- y) else Val y.
Proof.
  set (l := [b0; b1; b2; b3; b4; b5; b6; b7]).
  assert (forall k, 0 <= k < 8 -> load (a ++ l ++ c) (zlen a + k) = load l k) as Hld.
  { intros k Hk. assert (zlen l = 8) as Hl by done. pose proof (zlen_nonneg a).
    destruct (load_some l k) as [b Hb]; [lia |]. rewrite Hb. apply load_Val in Hb as [_ Hb]. apply load_Val.
    split; [lia |]. unfold zlen. rewrite lookup_app_r by lia.
    replace (_ - _)%nat with (Z.to_nat k) by lia. by apply lookup_app_l_Some. }
  unfold offtin. rewrite !Hld by lia.
  replace (load (a ++ l ++ c) (zlen a)) with (load l 0) by (rewrite <- (Hld 0) by lia; f_equal; lia).
  reflexivity.
Qed.

Lemma offtout_offtin x :
  - 2 ^ (word_bits - 1) < x < 2 ^ (word_bits - 1) ->
  exists bs, offtout x = Val bs /\ zlen bs = 8 /\ bytes_ok bs /\
    forall a c, offtin (a ++ bs ++ c) (zlen a) = Val x.
Proof.
  intros Hx. pose proof half_word as Hw. assert (0 < word_bits) by (destruct word_bits_ok; lia).
  set (y := Z.abs x). assert (0 <= y < 2 ^ (word_bits - 1)) as Hy by lia.
  unfold offtout. assert ((if x <? 0 then c_int word_bits (- x) else Val x) = Val y) as ->.
  { unfold y, c_int, in_int. destruct (Z.ltb_spec x 0); [| f_equal; lia].
    rewrite (proj2 (Z.leb_le _ _)), (proj2 (Z.ltb_lt _ _)) by lia. f_equal. lia. }
  cbn [mbind outcome_bind]. rewrite !sub_mod_div.
  set (q1 := y / 256). set (q2 := q1 / 256). set (q3 := q2 / 256). set (q4 := q3 / 256).
  set (q5 := q4 / 256). set (q6 := q5 / 256). set (q7 := q6 / 256).
  assert (forall z, 0 <= z -> 0 <= z / 256 <= z) as Hdiv.
  { intros z Hz. split; [apply Z.div_pos; lia |]. apply Z.div_le_upper_bound; lia. }
  pose proof (Hdiv y ltac:(lia)) as H1. fold q1 in H1. pose proof (Hdiv q1 ltac:(lia)) as H2. fold q2 in H2.
  pose proof (Hdiv q2 ltac:(lia)) as H3. fold q3 in H3. pose proof (Hdiv q3 ltac:(lia)) as H4. fold q4 in H4.
  pose proof (Hdiv q4 ltac:(lia)) as H5. fold q5 in H5. pose proof (Hdiv q5 ltac:(lia)) as H6. fold q6 in H6.
  pose proof (Hdiv q6 ltac:(lia)) as H7. fold q7 in H7.
  assert (q7 < 128) as H8.
  { unfold q7, q6, q5, q4, q3, q2, q1. rewrite !Z.div_div by lia. apply Z.div_lt_upper_bound; lia. }
  assert (q7 mod 256 = q7) as E7 by (apply Z.mod_small; lia). rewrite E7.
  destruct (sign_byte q7 ltac:(lia)) as (S1 & S2 & S3 & S4 & S5).
  eexists. split; [done |]. split; [done |]. split.
  { assert (forall z, is_byte (z mod 256)) as Hm by (intros; apply Z.mod_pos_bound; lia).
    repeat constructor; try apply Hm; unfold is_byte; destruct (x <? 0); lia. }
  intros a c. rewrite offtin_app.
  assert (Z.land (if x <? 0 then Z.lor q7 128 else q7) 127 = q7) as -> by (destruct (x <? 0); done).
  assert (forall q d, d = q / 256 -> 0 <= q < 2 ^ (word_bits - 1) -> off_step d (q mod 256) = Val q) as Hstep
    by (intros ? ? ->; apply off_step_div).
  rewrite (Hstep q6 q7) by (done || lia). cbn [mbind outcome_bind].
  rewrite (Hstep q5 q6) by (done || lia). cbn [mbind outcome_bind].
  rewrite (Hstep q4 q5) by (done || lia). cbn [mbind outcome_bind].
  rewrite (Hstep q3 q4) by (done || lia). cbn [mbind outcome_bind].
  rewrite (Hstep q2 q3) by (done || lia). cbn [mbind outcome_bind].
  rewrite (Hstep q1 q2) by (done || lia). cbn [mbind outcome_bind].
  rewrite (Hstep y q1) by (done || lia). cbn [mbind outcome_bind].
  destruct (Z.ltb_spec x 0).
  - rewrite S2. simpl. rewrite c_int_val by lia. f_equal. lia.
  - rewrite S4. simpl. f_equal. lia.
Qed.
End Ints.

(** ** Applying is correct *)

(** libbz2: its manual bounds the compressed size; [rest s d] says that the stream [s] still has the data [d] to give.  A
    stream opened on compressed data, whatever follows it, gives that data back; while
    data is left, a call with room gives some of it and no error. *)
Record bzlib_ok (bz : bzlib) (bz_compress : block -> block) (rest : bz_stream bz -> block -> Prop) : Prop := {
  bo_init : forall d tail n, zlen (bz_compress d) <= n <= zlen (bz_compress d ++ tail) ->
    rest (BZ2_bzDecompressInit bz (bz_compress d ++ tail) n) d;
  bo_step : forall s d room, rest s d -> d <> [] -> 0 < room ->
    exists err out s' d', BZ2_bzDecompress bz s room = (err, out, s') /\ (err = BZ_OK \/ err = BZ_STREAM_END) /\
      0 < zlen out <= room /\ d = out ++ d' /\ rest s' d';
  bo_size : forall d, zlen (bz_compress d) <= zlen d + zlen d / 100 + 600
}.

(** The reference: [covers old new np op ts db eb] says that from position [np] of the
    new file and [op] of the old one, the triples [ts] with the difference bytes [db]
    and the extra bytes [eb] give the rest of the new file. *)
Definition byte_diffs (b a : block) : block := zip_with (fun x y => u8 (x - y)) b a.

Inductive covers (old new : block) : Z -> Z -> list (Z * Z * Z) -> block -> block -> Prop :=
| cov_done np op : np = zlen new -> covers old new np op [] [] []
| cov_step np op x y z ts db eb :
    0 <= x -> 0 <= y -> 0 <= np < zlen new -> np + x + y <= zlen new ->
    0 <= op -> op + x <= zlen old -> 0 <= op + x + z <= zlen old ->
    covers old new (np + x + y) (op + x + z) ts db eb ->
    covers old new np op ((x, y, z) :: ts)
      (byte_diffs (slice new np x) (slice old op x) ++ db) (slice new (np + x) y ++ eb).

(** The control block of some triples. *)
Inductive encodes `{Arch} : list (Z * Z * Z) -> block -> Prop :=
| enc_nil : encodes [] []
| enc_cons x y z ts bx by_ bz bs :
    offtout x = Val bx -> offtout y = Val by_ -> offtout z = Val bz -> encodes ts bs ->
    encodes ((x, y, z) :: ts) ((bx ++ by_ ++ bz) ++ bs).

Lemma u8_add_sub x y : is_byte x -> is_byte y -> u8 (u8 (x - y) + y) = x.
Proof.
  unfold is_byte, wrapu. intros Hx Hy. change (2 ^ 8) with 256. rewrite Zplus_mod_idemp_l.
  replace (x - y + y) with x by lia. apply Z.mod_small. lia.
Qed.

Lemma zlen_byte_diffs (a b : block) : zlen a = zlen b -> zlen (byte_diffs a b) = zlen a.
Proof. unfold zlen, byte_diffs. intros. rewrite length_zip_with. lia. Qed.

Section Apply.
Context `{Arch} (bz : bzlib) (bz_compress : block -> block) (rest : bz_stream bz -> block -> Prop).
Hypothesis Hbz : bzlib_ok bz bz_compress rest.
Variables old new : block.
Hypothesis Hold : bytes_ok old.
Hypothesis Hnew : bytes_ok new.
Hypothesis Hsz : zlen old < 2 ^ 30 /\ zlen new < 2 ^ 30.
Variable fuel : nat.
Hypothesis Hfuel : zlen new + 24 <= Z.of_nat fuel.

Lemma fill_loop_spec n (a junk c v d : block) s :
  rest s (v ++ d) -> zlen junk = zlen v -> zlen v <= Z.of_nat n ->
  wp (fill_loop bz n (a ++ junk ++ c) (zlen a) (zlen v) s) (fun '(err, m, s') =>
    err = 0 /\ m = a ++ v ++ c /\ rest s' d).
Proof.
  revert a junk v s. induction n as [| n IH]; intros a junk v s Hr Hj Hn; cbn [fill_loop];
    (destruct (Z.leb_spec (zlen v) 0) as [Hz | Hpos]; [| try lia]).
  1, 2: assert (v = []) as -> by (destruct v; [done | zlia]); assert (junk = []) as -> by (destruct junk; [done | zlia]); done.
  destruct (bo_step _ _ _ Hbz s (v ++ d) (zlen v) Hr) as (err & out & s' & d' & -> & Herr & Hlen & Hd & Hr');
    [destruct v; [zlia | done] | done |].
  assert (exists v', v = out ++ v' /\ d' = v' ++ d) as (v' & -> & ->).
  { exists (drop (length out) v).
    assert (take (length out) v = out) as Et.
    { rewrite <- (take_app_le v d) by (unfold zlen in *; lia). rewrite Hd. apply take_app_length. }
    split; [rewrite <- Et at 1; by rewrite take_drop |].
    apply (app_inv_head out). rewrite <- Hd, <- Et at 1. by rewrite app_assoc, take_drop. }
  rewrite zlen_app in *. pose proof (zlen_nonneg v').
  assert (exists j1 j2, junk = j1 ++ j2 /\ zlen j1 = zlen out) as (j1 & j2 & -> & Hj1).
  { exists (take (length out) junk), (drop (length out) junk). rewrite take_drop. split; [done |].
    unfold zlen in *. rewrite length_take. lia. }
  rewrite zlen_app in Hj. rewrite <- (app_assoc j1). rewrite store_bytes_app by (done || lia). cbn [mbind outcome_bind].
  assert (negb (err =? BZ_OK) && negb (err =? BZ_STREAM_END) = false) as ->
    by (destruct Herr as [-> | ->]; done).
  replace (zlen out + zlen v' - zlen out) with (zlen v') by lia.
  replace (a ++ out ++ j2 ++ c) with ((a ++ out) ++ j2 ++ c) by (by rewrite <- app_assoc).
  replace (zlen a + zlen out) with (zlen (a ++ out)) by apply zlen_app.
  eapply wp_mono; [apply IH; [done | lia | lia] |]. intros [[e m] s2] (-> & -> & Hr2).
  split_and!; [done | | done]. by rewrite <- !app_assoc.
Qed.

Lemma FillBuffer_spec (a junk c v d : block) s size :
  rest s (v ++ d) -> zlen junk = zlen v -> size = zlen v -> zlen v <= Z.of_nat fuel -> zlen v < 2 ^ 31 ->
  wp (FillBuffer bz fuel (a ++ junk ++ c) (zlen a) size s) (fun '(err, m, s') =>
    err = 0 /\ m = a ++ v ++ c /\ rest s' d).
Proof.
  intros Hr Hj -> Hf Hm. pose proof (zlen_nonneg v). unfold FillBuffer. rewrite wraps_id, wrapu_id by lia.
  by apply fill_loop_spec.
Qed.

(** Adding the old bytes to the differences gives the new bytes. *)
Lemma add_old_spec (k : nat) done_ c np op i :
  0 <= op -> op + i + Z.of_nat k <= zlen old -> 0 <= np -> 0 <= i -> np + i + Z.of_nat k <= zlen new ->
  zlen done_ = np + i ->
  add_old k i old (done_ ++ byte_diffs (slice new (np + i) (Z.of_nat k)) (slice old (op + i) (Z.of_nat k)) ++ c) op np =
  Val (done_ ++ slice new (np + i) (Z.of_nat k) ++ c).
Proof.
  revert done_ i. induction k as [| k IH]; intros done_ i Hop Ho Hnp Hi Hn Hd; cbn [add_old].
  { rewrite !slice_0. done. }
  rewrite (proj2 (Z.leb_le 0 (op + i))), (proj2 (Z.ltb_lt (op + i) _)) by lia. cbn [andb].
  destruct (load_ex old (op + i) Hold) as (o & Eo & Ho1); [lia |].
  destruct (load_ex new (np + i) Hnew) as (w & Ew & Hw1); [lia |].
  rewrite Eo. cbn [mbind outcome_bind].
  rewrite (slice_cons new _ _ _ Ew), (slice_cons old _ _ _ Eo) by lia.
  replace (Z.of_nat (S k) - 1) with (Z.of_nat k) by lia. unfold byte_diffs. cbn [zip_with app].
  rewrite <- Hd.
  assert (forall (x : Z) l, load (done_ ++ x :: l) (zlen done_) = Val x) as Hl.
  { intros x l. apply load_Val. unfold zlen. split; [lia |]. rewrite Nat2Z.id. by apply list_lookup_middle. }
  rewrite Hl. cbn [mbind outcome_bind]. rewrite store_app, u8_add_sub by done. cbn [mbind outcome_bind].
  rewrite (cons_middle w done_), app_assoc. rewrite Hd.
  replace (np + i + 1) with (np + (i + 1)) by lia. replace (op + i + 1) with (op + (i + 1)) by lia.
  fold (byte_diffs (slice new (np + (i + 1)) (Z.of_nat k)) (slice old (op + (i + 1)) (Z.of_nat k))).
  rewrite IH by (rewrite ?zlen_app, ?zlen_cons; change (zlen []) with 0; lia).
  by rewrite <- app_assoc.
Qed.

(** The three numbers of a triple are read back. *)
Lemma read_triple x y z bx by_ bz' :
  - 2 ^ 31 < x < 2 ^ 31 -> - 2 ^ 31 < y < 2 ^ 31 -> - 2 ^ 31 < z < 2 ^ 31 ->
  offtout x = Val bx -> offtout y = Val by_ -> offtout z = Val bz' ->
  zlen (bx ++ by_ ++ bz') = 24 /\ offtin (bx ++ by_ ++ bz') 0 = Val x /\
  offtin (bx ++ by_ ++ bz') 8 = Val y /\ offtin (bx ++ by_ ++ bz') 16 = Val z.
Proof.
  intros Hx Hy Hz Ex Ey Ez. pose proof half_word.
  destruct (offtout_offtin x) as (bx' & Ex' & Lx & _ & Rx); [lia |]. rewrite Ex in Ex'. injection Ex' as <-.
  destruct (offtout_offtin y) as (by' & Ey' & Ly & _ & Ry); [lia |]. rewrite Ey in Ey'. injection Ey' as <-.
  destruct (offtout_offtin z) as (bz0 & Ez' & Lz & _ & Rz); [lia |]. rewrite Ez in Ez'. injection Ez' as <-.
  split_and!; [zlia | exact (Rx [] (by_ ++ bz')) | |].
  - rewrite <- (Ry bx bz'). by rewrite Lx.
  - rewrite <- (Rz (bx ++ by_) []), app_nil_r, <- app_assoc. f_equal. zlia.
Qed.

Lemma c_int_small z : - 2 ^ 31 <= z < 2 ^ 31 -> c_int word_bits z = Val z.
Proof.
  intros Hz. pose proof half_word. apply c_int_val. lia.
Qed.

Lemma patch_loop_spec rounds ts np op ctrl db eb junk cs ds es :
  covers old new np op ts db eb -> encodes ts ctrl -> rest cs ctrl -> rest ds db -> rest es eb ->
  0 <= np -> 0 <= op <= zlen old -> zlen junk = zlen new - np -> zlen ts <= Z.of_nat rounds ->
  wp (patch_loop bz fuel rounds old (slice new 0 np ++ junk) (zlen new) op np cs ds es) (fun '(r, m) =>
    r = 0 /\ m = new).
Proof.
  intros Hcov. revert rounds ctrl junk cs ds es. induction Hcov as [np op -> | np op x y z ts db eb Hx Hy Hnp Hsum Hop Hox Hoz _ IH];
    intros rounds ctrl junk cs ds es Henc Hcs Hds Hes Hnp0 Hop0 Hjunk Hrounds.
  { destruct rounds; cbn [patch_loop]; rewrite Z.leb_refl; simpl; (split; [done |]);
    (assert (junk = []) as -> by (destruct junk; [done | zlia]));
    rewrite app_nil_r; unfold slice, zlen; rewrite Nat2Z.id; apply take_ge; simpl; lia. }
  destruct rounds as [| rounds]; [zlia |]. cbn [patch_loop]. rewrite (proj2 (Z.leb_gt _ _)) by lia.
  inversion Henc as [| ? ? ? ? bx by_ bz' bs Ex Ey Ez Henc']; subst.
  destruct (read_triple x y z bx by_ bz') as (L24 & R0 & R8 & R16); try done; try lia.
  set (t := bx ++ by_ ++ bz') in *. clearbody t.
  apply wp_bind. eapply wp_mono.
  { change (replicate 24 0) with ([] ++ replicate 24 0 ++ []). apply (FillBuffer_spec [] (replicate 24 0) [] t bs); try done; lia. }
  intros [[err buf] cs'] (-> & -> & Hcs'). cbn [app]. rewrite app_nil_r. change (negb (0 =? 0)) with false. cbv iota.
  rewrite R0, R8, R16. cbn [mbind outcome_bind]. rewrite !c_int_small by lia. cbn [mbind outcome_bind].
  rewrite (proj2 (Z.ltb_ge _ _)) by lia.
  set (dx := byte_diffs (slice new np x) (slice old op x)) in *.
  assert (zlen dx = x) as Ldx.
  { unfold dx. rewrite zlen_byte_diffs; rewrite !zlen_slice by lia; done. }
  destruct (split_at junk (x + y)) as (j12 & j3 & -> & Hj12); [lia |].
  destruct (split_at j12 x) as (j1 & j2 & -> & Hj1); [lia |]. rewrite !zlen_app in *.
  assert (zlen (slice new 0 np) = np) as Lnp by (apply zlen_slice; lia).
  apply wp_bind. eapply wp_mono.
  { rewrite <- app_assoc. rewrite <- Lnp at 2. apply (FillBuffer_spec _ j1 (j2 ++ j3) dx db); try done; lia. }
  intros [[err m] ds'] (-> & -> & Hds'). change (negb (0 =? 0)) with false. cbv iota.
  rewrite (proj2 (Z.leb_gt (2 ^ 31) x)) by lia.
  pose proof (add_old_spec (Z.to_nat x) (slice new 0 np) (j2 ++ j3) np op 0) as Hadd.
  rewrite Z2Nat.id, !Z.add_0_r in Hadd by lia. fold dx in Hadd. rewrite Hadd by lia.
  cbn [mbind outcome_bind].
  rewrite (proj2 (Z.ltb_ge _ _)) by lia.
  assert (slice new 0 np ++ slice new np x = slice new 0 (np + x)) as Epx by (rewrite slice_app by lia; done).
  assert (zlen (slice new 0 (np + x)) = np + x) as Lnpx by (apply zlen_slice; lia).
  assert (zlen (slice new (np + x) y) = y) as Ly by (apply zlen_slice; lia).
  apply wp_bind. eapply wp_mono.
  { rewrite app_assoc, Epx. rewrite <- Lnpx at 2.
    apply (FillBuffer_spec _ j2 j3 (slice new (np + x) y) eb); try done; lia. }
  intros [[err m] es'] (-> & -> & Hes'). change (negb (0 =? 0)) with false. cbv iota. cbn [mbind outcome_bind].
  assert (slice new 0 (np + x) ++ slice new (np + x) y = slice new 0 (np + x + y)) as Epxy
    by (rewrite (slice_app _ 0 (np + x)) by lia; done).
  rewrite app_assoc, Epxy. rewrite c_int_small by lia. cbn [mbind outcome_bind]. apply (IH rounds bs); try done; zlia.
Qed.
End Apply.

(** ** Diffing is correct *)

Section DiffSpec.
Context `{Arch} (old new : block) (I : list Z).
Hypothesis Hold : bytes_ok old.
Hypothesis Hnew : bytes_ok new.
(** [I] has one entry per suffix of the old file, the empty one included. *)
Hypothesis HIlen : zlen I = zlen old + 1.
Hypothesis HI : Forall (fun i => 0 <= i <= zlen old) I.

Lemma match_loop_spec n po osize pn nsize i :
  0 <= po -> po + osize <= zlen old -> 0 <= pn -> pn + nsize <= zlen new ->
  0 <= i <= nsize -> i <= osize -> nsize - i <= Z.of_nat n ->
  wp (match_loop old new n po osize pn nsize i) (fun r => 0 <= r <= nsize /\ r <= osize).
Proof.
  intros Hpo Ho Hpn Hn. revert i. induction n as [| n IH]; intros i Hi Hio Hf; cbn [match_loop].
  all: destruct (Z.ltb_spec i osize), (Z.ltb_spec i nsize); cbn [negb andb]; try (simpl; lia).
  destruct (load_some old (po + i)) as [a ->]; [lia |]. destruct (load_some new (pn + i)) as [b ->]; [lia |].
  cbn [mbind outcome_bind]. destruct (negb (a =? b)); [simpl; lia |]. apply IH; lia.
Qed.

Lemma I_entry j : 0 <= j <= zlen old -> exists i, load I j = Val i /\ 0 <= i <= zlen old.
Proof.
  intros Hj. destruct (load_some I j) as [i Hi]; [lia |]. exists i. split; [done |].
  apply load_Val in Hi as [_ Hi]. by apply (Forall_lookup_1 _ _ _ _ HI Hi).
Qed.

Lemma matchlen_spec po pn :
  0 <= po <= zlen old -> 0 <= pn <= zlen new ->
  wp (matchlen old new po (zlen old - po) pn (zlen new - pn)) (fun r =>
    0 <= r <= zlen new - pn /\ r <= zlen old - po).
Proof. intros. apply match_loop_spec; lia. Qed.

Lemma search_base pn st en :
  0 <= pn <= zlen new -> 0 <= st <= en -> en <= zlen old ->
  wp (let* ist := load I st in
      let* x := matchlen old new ist (zlen old - ist) pn (zlen new - pn) in
      let* ien := load I en in
      let* y := matchlen old new ien (zlen old - ien) pn (zlen new - pn) in
      if y <? x then Val (x, ist) else Val (y, ien))
    (fun '(len, pos) => 0 <= len <= zlen new - pn /\ 0 <= pos <= zlen old /\ len <= zlen old - pos).
Proof.
  intros Hpn Hst Hen. destruct (I_entry st) as (i & -> & Hi); [lia |]. cbn [mbind outcome_bind].
  apply wp_bind. eapply wp_mono; [by apply matchlen_spec |]. intros x Hx.
  destruct (I_entry en) as (j & -> & Hj); [lia |]. cbn [mbind outcome_bind].
  apply wp_bind. eapply wp_mono; [by apply matchlen_spec |]. intros y Hy.
  destruct (y <? x); simpl in *; lia.
Qed.

Lemma search_spec fuel pn st en :
  0 <= pn <= zlen new -> 0 <= st <= en -> en <= zlen old -> en - st <= Z.of_nat fuel ->
  wp (search old new I fuel pn st en) (fun '(len, pos) =>
    0 <= len <= zlen new - pn /\ 0 <= pos <= zlen old /\ len <= zlen old - pos).
Proof.
  intros Hpn. revert st en. induction fuel as [| fuel IH]; intros st en Hst Hen Hf; cbn [search];
    (destruct (Z.ltb_spec (en - st) 2); [| try lia]).
  1, 2: apply search_base; lia.
  assert (st < st + (en - st) / 2 < en) as Hx.
  { pose proof (Z.div_mod (en - st) 2 ltac:(lia)). pose proof (Z.mod_pos_bound (en - st) 2 ltac:(lia)). lia. }
  destruct (I_entry (st + (en - st) / 2)) as (ix & -> & Hix); [lia |]. cbn [mbind outcome_bind].
  apply wp_bind, wp_load_bytes; [lia .. |]. apply wp_bind, wp_load_bytes; [lia .. |].
  destruct (_ <? 0); apply IH; lia.
Qed.

(** *** The score *)

Definition same (lo i : Z) : Z := match same_at old new lo i with Val s => s | Trap _ => 0 end.

Lemma same_at_val lo i : 0 <= i + lo -> 0 <= i < zlen new ->
  same_at old new lo i = Val (same lo i) /\ 0 <= same lo i <= 1.
Proof.
  intros Hlo Hi. unfold same, same_at. destruct (Z.ltb_spec (i + lo) (zlen old)); [| split; [done | lia]].
  destruct (load_some old (i + lo)) as [a ->]; [lia |]. destruct (load_some new i) as [b ->]; [lia |].
  simpl. destruct (a =? b); split; (done || lia).
Qed.

(** The matches in [a, a + n). *)
Fixpoint count (lo a : Z) (n : nat) : Z :=
  match n with O => 0 | S n => same lo a + count lo (a + 1) n end.

Lemma count_app lo a n m : count lo a (n + m) = count lo a n + count lo (a + Z.of_nat n) m.
Proof.
  revert a. induction n as [| n IH]; intros a; cbn [count Nat.add]; [by rewrite Z.add_0_r |].
  rewrite IH. replace (a + 1 + Z.of_nat n) with (a + Z.of_nat (S n)) by lia. lia.
Qed.

Lemma count_split lo a m e : a <= m <= e ->
  count lo a (Z.to_nat (e - a)) = count lo a (Z.to_nat (m - a)) + count lo m (Z.to_nat (e - m)).
Proof.
  intros Hm. replace m with (a + Z.of_nat (Z.to_nat (m - a))) at 2 by lia. rewrite <- count_app. f_equal. lia.
Qed.

Lemma count_nonneg lo a n : 0 <= a + lo -> 0 <= a -> a + Z.of_nat n <= zlen new -> 0 <= count lo a n.
Proof.
  revert a. induction n as [| n IH]; intros a Hlo Ha Hn; simpl; [lia |].
  destruct (same_at_val lo a) as [_ ?]; [lia .. |]. specialize (IH (a + 1)). lia.
Qed.

Lemma extend_score_spec n lo scsc stop score :
  0 <= scsc + lo -> 0 <= scsc -> stop <= zlen new -> stop - scsc <= Z.of_nat n ->
  extend_score old new n lo scsc stop score =
    Val (Z.max scsc stop, score + count lo scsc (Z.to_nat (stop - scsc))).
Proof.
  revert scsc score. induction n as [| n IH]; intros scsc score Hlo Hs Hst Hf; cbn [extend_score];
    (destruct (Z.leb_spec stop scsc); [| try lia]).
  1, 2: replace (Z.to_nat (stop - scsc)) with O by lia; simpl; f_equal; f_equal; lia.
  destruct (same_at_val lo scsc) as [-> _]; [lia .. |]. cbn [mbind outcome_bind]. rewrite IH by lia.
  replace (Z.to_nat (stop - scsc)) with (S (Z.to_nat (stop - (scsc + 1)))) by lia. simpl. f_equal. f_equal; lia.
Qed.

(** At the loop's head the score is the matches from [scan] to [scsc], or minus those
    from [scsc] to [scan]. *)
Lemma scan_loop_spec n lo start s :
  0 <= start + lo -> 0 <= start -> start <= sc_scsc s -> start <= sc_scan s <= zlen new ->
  sc_scsc s <= zlen new -> sc_scan s <= sc_scsc s + 1 ->
  sc_score s = count lo start (Z.to_nat (sc_scsc s - start)) - count lo start (Z.to_nat (sc_scan s - start)) ->
  zlen new - sc_scan s <= Z.of_nat n ->
  wp (scan_loop old new I n lo s) (fun s' => sc_scan s <= sc_scan s' <= zlen new /\
    (sc_scan s' < zlen new -> 0 < sc_len s' <= zlen new - sc_scan s') /\
    (0 <= sc_pos s <= zlen old \/ sc_scan s < zlen new -> 0 <= sc_pos s' <= zlen old)).
Proof.
  intros Hlo Hstart. revert s. induction n as [| n IH]; intros s H1 H2 H3 H4 Hscore Hf; cbn [scan_loop];
    (destruct (Z.leb_spec (zlen new) (sc_scan s)); [simpl; split_and!; (lia || tauto || lia) |]); [lia |].
  pose proof (zlen_nonneg old).
  apply wp_bind. eapply wp_mono; [apply search_spec; [lia .. |]; unfold zlen in *; lia |].
  intros [len pos] (Hlen & Hpos & _). rewrite extend_score_spec by lia. cbn [mbind outcome_bind].
  set (scsc := Z.max (sc_scsc s) (sc_scan s + len)).
  pose proof (count_split lo start (sc_scsc s) scsc ltac:(lia)) as E1.
  pose proof (count_split lo start (sc_scan s) scsc ltac:(lia)) as E2.
  assert (count lo (sc_scsc s) (Z.to_nat (sc_scan s + len - sc_scsc s)) =
    count lo (sc_scsc s) (Z.to_nat (scsc - sc_scsc s))) as E0 by (f_equal; lia).
  rewrite E0. set (score := sc_score s + _).
  pose proof (count_nonneg lo (sc_scan s) (Z.to_nat (scsc - sc_scan s)) ltac:(lia) ltac:(lia) ltac:(lia)) as Hnn.
  assert (score = count lo (sc_scan s) (Z.to_nat (scsc - sc_scan s))) as Hsc by lia.
  destruct (_ || _) eqn:Eb.
  - simpl. lia.
  - destruct (same_at_val lo (sc_scan s)) as [-> Hs01]; [lia .. |]. cbn [mbind outcome_bind].
    pose proof (count_split lo start (sc_scan s) (sc_scan s + 1) ltac:(lia)) as E3.
    replace (Z.to_nat (sc_scan s + 1 - sc_scan s)) with 1%nat in E3 by lia. cbn [count] in E3.
    eapply wp_mono; [apply IH; simpl; lia |].
    simpl. intros s' (? & ? & Hp). split_and!; [lia | lia | done | intros _; apply Hp; lia].
Qed.

(** *** The extents of a triple *)

Lemma forward_spec n lastscan lastpos scan i s Sf lenf :
  0 <= lastscan -> scan <= zlen new -> 0 <= lastpos ->
  0 <= i -> lastscan + i <= scan -> lastpos + i <= zlen old -> zlen old - (lastpos + i) <= Z.of_nat n ->
  0 <= lenf -> lastscan + lenf <= scan -> lastpos + lenf <= zlen old ->
  wp (forward old new n lastscan lastpos scan i s Sf lenf) (fun r =>
    0 <= r /\ lastscan + r <= scan /\ lastpos + r <= zlen old).
Proof.
  intros Hls Hsc Hlp. revert i s Sf lenf. induction n as [| n IH]; intros i s Sf lenf Hi H1 H2 Hf H3 H4 H5; cbn [forward].
  all: destruct (Z.ltb_spec (lastscan + i) scan), (Z.ltb_spec (lastpos + i) (zlen old)); cbn [negb andb]; try (simpl; lia).
  destruct (load_some old (lastpos + i)) as [a ->]; [lia |].
  destruct (load_some new (lastscan + i)) as [b ->]; [lia |]. cbn [mbind outcome_bind].
  destruct (_ <? _); apply IH; lia.
Qed.

Lemma backward_spec n lastscan scan pos i s Sb lenb :
  0 <= lastscan -> scan <= zlen new -> pos <= zlen old -> 1 <= i -> pos - i < Z.of_nat n ->
  0 <= lenb -> lastscan + lenb <= scan -> lenb <= pos ->
  wp (backward old new n lastscan scan pos i s Sb lenb) (fun r => 0 <= r /\ lastscan + r <= scan /\ r <= pos).
Proof.
  intros Hls Hsc Hpos. revert i s Sb lenb. induction n as [| n IH]; intros i s Sb lenb Hi Hf H3 H4 H5; cbn [backward].
  all: destruct (Z.leb_spec (lastscan + i) scan), (Z.leb_spec i pos); cbn [negb andb]; try (simpl; lia).
  destruct (load_some old (pos - i)) as [a ->]; [lia |].
  destruct (load_some new (scan - i)) as [b ->]; [lia |]. cbn [mbind outcome_bind].
  destruct (_ <? _); apply IH; lia.
Qed.

Lemma cut_spec n fnew fold_ bnew bold i s Ss lens :
  0 <= i -> 0 <= lens <= i ->
  0 <= fnew -> fnew + i + Z.of_nat n <= zlen new -> 0 <= fold_ -> fold_ + i + Z.of_nat n <= zlen old ->
  0 <= bnew -> bnew + i + Z.of_nat n <= zlen new -> 0 <= bold -> bold + i + Z.of_nat n <= zlen old ->
  wp (cut old new n fnew fold_ bnew bold i s Ss lens) (fun r => 0 <= r <= i + Z.of_nat n).
Proof.
  revert i s Ss lens. induction n as [| n IH]; intros i s Ss lens Hi Hl H1 H2 H3 H4 H5 H6 H7 H8; cbn [cut]; [simpl; lia |].
  destruct (load_some new (fnew + i)) as [a ->]; [lia |]. destruct (load_some old (fold_ + i)) as [b ->]; [lia |].
  destruct (load_some new (bnew + i)) as [c ->]; [lia |]. destruct (load_some old (bold + i)) as [d ->]; [lia |].
  cbn [mbind outcome_bind]. destruct (Ss <? _); (eapply wp_mono; [apply IH; lia |]); simpl; lia.
Qed.

Lemma extents_spec lastscan lastpos scan pos :
  0 <= lastscan <= scan -> scan <= zlen new -> 0 <= lastpos <= zlen old -> 0 <= pos <= zlen old ->
  wp (extents old new lastscan lastpos scan pos) (fun '(lenf, lenb) =>
    0 <= lenf /\ 0 <= lenb <= pos /\ lastscan + lenf <= scan - lenb /\ lastpos + lenf <= zlen old /\
    (scan = zlen new -> lenb = 0)).
Proof.
  intros Hls Hsc Hlp Hpos. unfold extents. apply wp_bind.
  eapply wp_mono; [apply forward_spec; unfold zlen in *; lia |]. intros lenf Hf. cbv beta in Hf. apply wp_bind.
  eapply (wp_mono _ (fun lenb => 0 <= lenb /\ lastscan + lenb <= scan /\ lenb <= pos /\ (scan = zlen new -> lenb = 0))).
  { destruct (Z.ltb_spec scan (zlen new)); [| simpl; lia].
    eapply wp_mono; [apply backward_spec; unfold zlen in *; lia |]. simpl. lia. }
  intros lenb Hb. cbv beta in Hb. destruct (Z.ltb_spec (scan - lenb) (lastscan + lenf)); [| simpl; lia].
  apply wp_bind. eapply wp_mono; [apply cut_spec; rewrite ?Z2Nat.id; lia |].
  intros lens Hl. cbv beta in Hl. rewrite Z2Nat.id in Hl by lia. simpl. lia.
Qed.

Lemma diff_bytes_spec n lastscan lastpos i :
  0 <= lastscan + i -> lastscan + i + Z.of_nat n <= zlen new ->
  0 <= lastpos + i -> lastpos + i + Z.of_nat n <= zlen old ->
  diff_bytes old new n lastscan lastpos i =
    Val (byte_diffs (slice new (lastscan + i) (Z.of_nat n)) (slice old (lastpos + i) (Z.of_nat n))).
Proof.
  revert i. induction n as [| n IH]; intros i H1 H2 H3 H4; cbn [diff_bytes]; [by rewrite !slice_0 |].
  destruct (load_some new (lastscan + i)) as [b Eb]; [lia |]. destruct (load_some old (lastpos + i)) as [a Ea]; [lia |].
  rewrite Eb, Ea. cbn [mbind outcome_bind]. rewrite IH by lia. cbn [mbind outcome_bind].
  rewrite (slice_cons new _ _ _ Eb), (slice_cons old _ _ _ Ea) by lia. unfold byte_diffs. cbn [zip_with].
  replace (Z.of_nat (S n) - 1) with (Z.of_nat n) by lia. by rewrite !Z.add_assoc.
Qed.

(** *** The outer loop *)

Lemma encodes_snoc ts bs x y z bx by_ bz :
  encodes ts bs -> offtout x = Val bx -> offtout y = Val by_ -> offtout z = Val bz ->
  encodes (ts ++ [(x, y, z)]) (bs ++ bx ++ by_ ++ bz).
Proof.
  intros He Hx Hy Hz. induction He as [| x' y' z' ts bx' by' bz' bs E1 E2 E3 He IH]; cbn [app].
  - rewrite <- (app_nil_r (bx ++ by_ ++ bz)). by repeat constructor.
  - rewrite <- (app_assoc _ bs). by constructor.
Qed.

(** The loop has written triples [ts] that rebuild the new file up to [lastscan]. *)
Record diff_inv (d : diffing) (ts : list (Z * Z * Z)) : Prop := {
  di_ctrl : encodes ts (df_ctrl d);
  di_covers : forall ts' db' eb', covers old new (df_lastscan d) (df_lastpos d) ts' db' eb' ->
    covers old new 0 0 (ts ++ ts') (df_db d ++ db') (df_eb d ++ eb');
  di_bytes : zlen (df_db d) + zlen (df_eb d) = df_lastscan d;
  di_scan : 0 <= df_lastscan d <= df_scan d /\ df_scan d <= zlen new;
  di_pos : 0 <= df_lastpos d <= zlen old /\ 0 <= df_pos d <= zlen old;
  di_more : df_scan d < zlen new ->
    0 <= df_len d /\ df_scan d + df_len d <= zlen new /\ 0 <= df_scan d + df_len d + df_lastoffset d /\
    zlen ts <= df_scan d + df_len d;
  di_done : df_scan d = zlen new -> df_lastscan d = zlen new /\ zlen ts <= zlen new + 1
}.

Lemma offtout_some x : - 2 ^ 31 < x < 2 ^ 31 -> exists bs, offtout x = Val bs.
Proof. intros. pose proof half_word. destruct (offtout_offtin x) as (bs & ? & _); [lia | by exists bs]. Qed.

Hypothesis Hsz : zlen old < 2 ^ 30 /\ zlen new < 2 ^ 30.

Lemma push_spec buf v : zlen buf + zlen v <= zlen new + 1 -> push new buf v = Val (buf ++ v).
Proof. intros Hl. unfold push. by rewrite (proj2 (Z.leb_le _ _)) by lia. Qed.

Lemma emit_spec d s ts :
  diff_inv d ts -> df_scan d < zlen new ->
  df_scan d + df_len d <= sc_scan s <= zlen new ->
  (sc_scan s < zlen new -> 0 < sc_len s <= zlen new - sc_scan s) -> 0 <= sc_pos s <= zlen old ->
  wp (emit old new d s) (fun d' => df_scan d' = sc_scan s /\ df_len d' = sc_len s /\ exists ts', diff_inv d' ts').
Proof.
  intros [Hc Hcov Hby Hsc Hpos Hmore _] Hlt Hs Hsl Hp. destruct (Hmore Hlt) as (Hl0 & Hl1 & Hl2 & Hl3).
  unfold emit. apply wp_bind. eapply wp_mono; [apply extents_spec; lia |].
  intros [lenf lenb] (H1 & H2 & H3 & H4 & H5).
  pose proof (diff_bytes_spec (Z.to_nat lenf) (df_lastscan d) (df_lastpos d) 0) as Hdb.
  rewrite Z2Nat.id, !Z.add_0_r in Hdb by lia. rewrite Hdb by lia. clear Hdb. cbn [mbind outcome_bind].
  set (db := byte_diffs _ _).
  assert (zlen db = lenf) as Ldb.
  { unfold db. rewrite zlen_byte_diffs; rewrite !zlen_slice by lia; done. }
  set (extra := sc_scan s - lenb - (df_lastscan d + lenf)).
  pose proof (zlen_nonneg (df_db d)). pose proof (zlen_nonneg (df_eb d)).
  rewrite push_spec by lia. cbn [mbind outcome_bind].
  rewrite (Z.max_r 0 extra) by lia.
  apply wp_bind, wp_load_bytes; [lia .. |]. set (eb := slice new (df_lastscan d + lenf) extra).
  assert (zlen eb = extra) as Leb by (apply zlen_slice; lia).
  rewrite push_spec by lia. cbn [mbind outcome_bind].
  destruct (offtout_some lenf) as [c0 E0]; [lia |]. destruct (offtout_some extra) as [c1 E1]; [lia |].
  destruct (offtout_some (sc_pos s - lenb - (df_lastpos d + lenf))) as [c2 E2]; [lia |].
  rewrite E0, E1, E2. simpl. split_and!; [done .. |].
  exists (ts ++ [(lenf, extra, sc_pos s - lenb - (df_lastpos d + lenf))]). split; simpl.
  - by apply encodes_snoc.
  - intros ts' db' eb' Hrest. rewrite <- !app_assoc. apply Hcov. cbn [app]. apply cov_step; try lia.
    replace (df_lastscan d + lenf + extra) with (sc_scan s - lenb) by lia.
    by replace (df_lastpos d + lenf + _) with (sc_pos s - lenb) by lia.
  - rewrite !zlen_app. lia.
  - lia.
  - lia.
  - intros Hlt'. specialize (Hsl Hlt'). rewrite zlen_app, zlen_cons. change (zlen []) with 0. lia.
  - intros E. specialize (H5 E). rewrite zlen_app, zlen_cons. change (zlen []) with 0. lia.
Qed.

Lemma diff_loop_spec n d ts :
  diff_inv d ts -> (df_scan d < zlen new -> zlen new - (df_scan d + df_len d) < Z.of_nat n) ->
  wp (diff_loop old new I n d) (fun d' => exists ts', diff_inv d' ts' /\ df_scan d' = zlen new).
Proof.
  revert d ts. induction n as [| n IH]; intros d ts Hi Hf; cbn [diff_loop];
    (destruct (Z.leb_spec (zlen new) (df_scan d));
      [pose proof (di_scan _ _ Hi); simpl; exists ts; split; [done | lia] |]);
    pose proof Hi as [Hc Hcov Hby Hsc Hpos Hmore _]; destruct (Hmore ltac:(lia)) as (Hl0 & Hl1 & Hl2 & Hl3); [lia |].
  apply wp_bind. eapply wp_mono.
  { apply (scan_loop_spec _ _ (df_scan d + df_len d)); simpl; rewrite ?Z.sub_diag; unfold zlen in *; simpl; lia. }
  simpl. intros s (H1 & H2 & H3). specialize (H3 ltac:(lia)). destruct (_ || _) eqn:Eb.
  - apply wp_bind. eapply wp_mono; [by apply (emit_spec d s ts); try done; lia |].
    intros d' (E1 & E2 & ts' & Hi'). apply (IH d' ts' Hi'). lia.
  - assert (sc_scan s < zlen new) as Hlt by (destruct (Z.eqb_spec (sc_scan s) (zlen new)); [by rewrite orb_true_r in Eb | lia]).
    apply (IH _ ts); [| simpl; lia]. split; simpl; try done; lia.
Qed.

(** What [bsdiff] puts in the three blocks. *)
Lemma diff_loop_covers :
  wp (diff_loop old new I (length new + 1) (mkDiff [] [] [] 0 0 0 0 0 0)) (fun d => exists ts,
    encodes ts (df_ctrl d) /\ covers old new 0 0 ts (df_db d) (df_eb d) /\ zlen ts <= zlen new + 1).
Proof.
  pose proof (zlen_nonneg new). pose proof (zlen_nonneg old).
  eapply wp_mono.
  { apply (diff_loop_spec _ _ []); [split; simpl; try zlia; [constructor | done] | simpl; unfold zlen in *; lia]. }
  intros d (ts & [Hc Hcov Hby Hsc Hpos _ Hdone] & E). destruct (Hdone E) as [El Ets].
  exists ts. split_and!; [done | | done].
  rewrite <- (app_nil_r ts), <- (app_nil_r (df_db d)), <- (app_nil_r (df_eb d)). apply Hcov. by constructor.
Qed.
End DiffSpec.

(** ** Whole patches *)

Section Whole.
Context `{Arch} (bz : bzlib) (bz_compress : block -> block) (rest : bz_stream bz -> block -> Prop).
Hypothesis Hbz : bzlib_ok bz bz_compress rest.
Variables old new : block.
Hypothesis Hold : bytes_ok old.
Hypothesis Hnew : bytes_ok new.
Hypothesis Hsz : zlen old < 2 ^ 30 /\ zlen new < 2 ^ 30.

(** The file with the three given blocks, before compression. *)
Definition patch_file (ctrl db eb : block) : outcome block :=
  let c := bz_compress ctrl in
  let b := bz_compress db in
  let x := bz_compress eb in
  let* h1 := offtout (zlen c) in
  let* h2 := offtout (zlen b) in
  let* h3 := offtout (zlen new) in
  Val (str "BSDIFF40" ++ h1 ++ h2 ++ h3 ++ c ++ b ++ x).

Lemma offtout_small n : 0 <= n < 2 ^ 31 ->
  exists bs, offtout n = Val bs /\ zlen bs = 8 /\ forall p a c, p = zlen a -> offtin (a ++ bs ++ c) p = Val n.
Proof.
  intros Hn. pose proof half_word. destruct (offtout_offtin n) as (bs & E & L & _ & R); [lia |].
  exists bs. split_and!; [done .. |]. intros p a c ->. apply R.
Qed.

(** The layout of a patch file: what each read of the header finds. *)
Lemma patch_file_layout ctrl db eb :
  zlen (bz_compress ctrl) < 2 ^ 31 -> zlen (bz_compress db) < 2 ^ 31 ->
  exists h1 h2 h3, zlen h1 = 8 /\ zlen h2 = 8 /\ zlen h3 = 8 /\
    (forall p a c, p = zlen a -> offtin (a ++ h1 ++ c) p = Val (zlen (bz_compress ctrl))) /\
    (forall p a c, p = zlen a -> offtin (a ++ h2 ++ c) p = Val (zlen (bz_compress db))) /\
    (forall p a c, p = zlen a -> offtin (a ++ h3 ++ c) p = Val (zlen new)) /\
    patch_file ctrl db eb =
      Val (str "BSDIFF40" ++ h1 ++ h2 ++ h3 ++ bz_compress ctrl ++ bz_compress db ++ bz_compress eb).
Proof.
  intros Hc Hd. pose proof (zlen_nonneg (bz_compress ctrl)). pose proof (zlen_nonneg (bz_compress db)).
  destruct (offtout_small (zlen (bz_compress ctrl))) as (h1 & E1 & L1 & R1); [zlia |].
  destruct (offtout_small (zlen (bz_compress db))) as (h2 & E2 & L2 & R2); [zlia |].
  destruct (offtout_small (zlen new)) as (h3 & E3 & L3 & R3); [zlia |].
  exists h1, h2, h3. split_and!; try done. unfold patch_file. by rewrite E1, E2, E3.
Qed.

Lemma Val_inj {A} (x y : A) : Val x = Val y -> x = y.
Proof. by intros [= ->]. Qed.

Lemma drop_zlen {A} (a b : list A) p : p = zlen a -> drop (Z.to_nat p) (a ++ b) = b.
Proof. intros ->. unfold zlen. rewrite Nat2Z.id. apply drop_app_length. Qed.

Lemma apply_patch_file fuel rounds malloc ts ctrl db eb f pre post junk :
  covers old new 0 0 ts db eb -> encodes ts ctrl -> patch_file ctrl db eb = Val f ->
  zlen (pre ++ f ++ post) < 2 ^ 31 -> malloc (zlen new) = Some junk -> zlen junk = zlen new ->
  zlen new + 24 <= Z.of_nat fuel -> zlen ts <= Z.of_nat rounds ->
  ApplyBSDiffPatchMem bz fuel malloc rounds old (pre ++ f ++ post) (zlen (pre ++ f ++ post)) (zlen pre) =
    Val (0, Some new).
Proof.
  intros Hcov Henc Hf Hlen Hm Hj Hfuel Hr. pose proof (zlen_nonneg pre). pose proof (zlen_nonneg post).
  pose proof (zlen_nonneg (bz_compress ctrl)). pose proof (zlen_nonneg (bz_compress db)).
  pose proof (zlen_nonneg (bz_compress eb)).
  assert (zlen (bz_compress ctrl) < 2 ^ 31 /\ zlen (bz_compress db) < 2 ^ 31) as [Hc Hd].
  { unfold patch_file in Hf. apply bind_Val_inv in Hf as (h1 & _ & Hf). apply bind_Val_inv in Hf as (h2 & _ & Hf).
    apply bind_Val_inv in Hf as (h3 & _ & Hf). apply Val_inj in Hf as <-.
    pose proof (zlen_nonneg (str "BSDIFF40")). zlia. }
  destruct (patch_file_layout ctrl db eb Hc Hd) as (h1 & h2 & h3 & L1 & L2 & L3 & R1 & R2 & R3 & E).
  rewrite Hf in E. apply Val_inj in E as ->. set (mg := str "BSDIFF40") in *. assert (zlen mg = 8) as L0 by done.
  set (c := bz_compress ctrl) in *. set (b := bz_compress db) in *. set (x := bz_compress eb) in *.
  set (whole := pre ++ (mg ++ h1 ++ h2 ++ h3 ++ c ++ b ++ x) ++ post) in *.
  assert (whole = pre ++ mg ++ h1 ++ h2 ++ h3 ++ c ++ b ++ x ++ post) as Ew
    by (unfold whole; by rewrite <- !app_assoc).
  unfold ApplyBSDiffPatchMem. fold mg. rewrite Ew.
  rewrite (load_bytes_app pre mg) by done. cbn [mbind outcome_bind].
  rewrite bool_decide_true by done. cbn [negb].
  assert (offtin whole (zlen pre + 8) = Val (zlen c)) as O1.
  { rewrite Ew, (app_assoc pre). apply R1. zlia. }
  assert (offtin whole (zlen pre + 16) = Val (zlen b)) as O2.
  { rewrite Ew, (app_assoc pre), (app_assoc _ h1). apply R2. zlia. }
  assert (offtin whole (zlen pre + 24) = Val (zlen new)) as O3.
  { rewrite Ew, (app_assoc pre), (app_assoc _ h1), (app_assoc _ h2). apply R3. zlia. }
  rewrite <- Ew, O1, O2, O3. cbn [mbind outcome_bind].
  rewrite !(proj2 (Z.ltb_ge _ 0)) by zlia. cbn [orb]. rewrite Hm.
  assert (zlen whole = zlen pre + 32 + zlen c + zlen b + zlen x + zlen post) as Lw by (rewrite Ew; zlia).
  set (hd := pre ++ mg ++ h1 ++ h2 ++ h3). assert (zlen hd = zlen pre + 32) as Lhd by (unfold hd; zlia).
  assert (whole = hd ++ c ++ b ++ x ++ post) as Eh by (rewrite Ew; unfold hd; by rewrite <- !app_assoc).
  rewrite (wrapu_id 32 (zlen c)), (wrapu_id 32 (zlen b)), (wrapu_id 32 (zlen whole - _)) by lia.
  assert (drop (Z.to_nat (zlen pre + 32)) whole = c ++ b ++ x ++ post) as D1 by (rewrite Eh; by apply drop_zlen).
  assert (drop (Z.to_nat (zlen pre + 32 + zlen c)) whole = b ++ x ++ post) as D2
    by (rewrite Eh, app_assoc; apply drop_zlen; zlia).
  assert (drop (Z.to_nat (zlen pre + 32 + zlen c + zlen b)) whole = x ++ post) as D3
    by (rewrite Eh, app_assoc, (app_assoc _ b); apply drop_zlen; zlia).
  rewrite D1, D2, D3.
  destruct (wp_elim (patch_loop bz fuel rounds old junk (zlen new) 0 0
    (BZ2_bzDecompressInit bz (c ++ b ++ x ++ post) (zlen c)) (BZ2_bzDecompressInit bz (b ++ x ++ post) (zlen b))
    (BZ2_bzDecompressInit bz (x ++ post) (zlen whole - (zlen pre + 32 + zlen c + zlen b))))
    (fun '(r, m) => r = 0 /\ m = new)) as ([r m] & -> & -> & ->); [| done].
  change junk with (slice new 0 0 ++ junk).
  apply (patch_loop_spec bz bz_compress rest Hbz old new Hold Hnew Hsz fuel Hfuel rounds ts 0 0 ctrl db eb);
    try done; try lia; try (apply (bo_init _ _ _ Hbz); fold c b x); zlia.
Qed.

Lemma covers_len np op ts db eb :
  covers old new np op ts db eb -> zlen db + zlen eb = zlen new - np.
Proof.
  induction 1 as [np op -> | np op x y z ts db eb Hx Hy Hnp Hsum Hop Hox Hoz _ IH]; [zlia |].
  rewrite !zlen_app, zlen_byte_diffs; rewrite !zlen_slice by lia; lia.
Qed.

Lemma encodes_len ts bs : encodes ts bs -> zlen bs = 24 * zlen ts.
Proof.
  assert (forall x b, offtout x = Val b -> zlen b = 8) as Ho.
  { intros x b Hb. unfold offtout in Hb. apply bind_Val_inv in Hb as (y & _ & Hb). by injection Hb as <-. }
  induction 1 as [| x y z ts bx by_ bz' bs E1 E2 E3 He IH]; [done |].
  apply Ho in E1, E2, E3. zlia.
Qed.

Lemma bsdiff_is_patch_file I :
  zlen I = zlen old + 1 -> Forall (fun i => 0 <= i <= zlen old) I -> zlen new < 2 ^ 25 ->
  exists f ts ctrl db eb, bsdiff bz_compress old new I = Val f /\ patch_file ctrl db eb = Val f /\
    covers old new 0 0 ts db eb /\ encodes ts ctrl /\ zlen ts <= zlen new + 1 /\ zlen f < 2 ^ 30.
Proof.
  intros HIl HI Hn.
  destruct (wp_elim _ _ (diff_loop_covers old new I HIl HI Hsz)) as (d & Ed & ts & Henc & Hcov & Hts).
  pose proof (covers_len _ _ _ _ _ Hcov) as Lc. pose proof (encodes_len _ _ Henc) as Le.
  pose proof (zlen_nonneg (df_db d)). pose proof (zlen_nonneg (df_eb d)). pose proof (zlen_nonneg ts).
  assert (forall l, 0 <= zlen (bz_compress l) <= zlen l + zlen l / 100 + 600 /\ zlen l / 100 * 100 <= zlen l) as Hb.
  { intros l. split; [split; [apply zlen_nonneg | apply (bo_size _ _ _ Hbz)] |].
    pose proof (Z.mul_div_le (zlen l) 100). lia. }
  pose proof (Hb (df_ctrl d)). pose proof (Hb (df_db d)). pose proof (Hb (df_eb d)).
  destruct (patch_file_layout (df_ctrl d) (df_db d) (df_eb d)) as (h1 & h2 & h3 & L1 & L2 & L3 & _ & _ & _ & E);
    [lia .. |].
  eexists _, ts, (df_ctrl d), (df_db d), (df_eb d). split_and!; [| exact E | done .. |].
  - unfold bsdiff. rewrite Ed. exact E.
  - rewrite !zlen_app, L1, L2, L3. change (zlen (str "BSDIFF40")) with 8. lia.
Qed.
End Whole.

(** ** Claims *)

(** A number of [off_t] range other than the most negative one, written by
    [offtout], is read back by [offtin] at whatever offset the eight bytes lie. *)
Theorem offtout_offtin_roundtrip `{Arch} x :
  - 2 ^ (word_bits - 1) < x < 2 ^ (word_bits - 1) ->
  exists bs, offtout x = Val bs /\ zlen bs = 8 /\ bytes_ok bs /\
    forall a c, offtin (a ++ bs ++ c) (zlen a) = Val x.
Proof. apply offtout_offtin. Qed.

Lemma offtout_offtin_roundtrip_witness : exists bs, @offtout LP64 (-1000) = Val bs /\ zlen bs = 8 /\ bytes_ok bs /\
  forall a c, @offtin LP64 (a ++ bs ++ c) (zlen a) = Val (-1000).
Proof. apply (@offtout_offtin_roundtrip LP64). vm_compute. split; reflexivity. Defined.

(** [ApplyBSDiffPatch] on a patch that lies anywhere in memory and whose blocks
    decompress to control triples, differences and extra bytes that cover the new file:
    the new file, and nothing else, goes to the sink in one call; the digest is updated
    with it and the result is 0, or 1 when the sink took less. *)
Theorem ApplyBSDiffPatch_correct `{Arch} bz bz_compress rest old new fuel rounds malloc ts ctrl db eb f pre post junk
    {S D} (sink : block -> S -> Z * S) token (SHA_update : D -> block -> D) ctx :
  bzlib_ok bz bz_compress rest -> bytes_ok old -> bytes_ok new -> zlen old < 2 ^ 30 /\ zlen new < 2 ^ 30 ->
  covers old new 0 0 ts db eb -> encodes ts ctrl -> patch_file bz_compress new ctrl db eb = Val f ->
  zlen (pre ++ f ++ post) < 2 ^ 31 -> malloc (zlen new) = Some junk -> zlen junk = zlen new ->
  zlen new + 24 <= Z.of_nat fuel -> zlen ts <= Z.of_nat rounds ->
  ApplyBSDiffPatch bz fuel malloc rounds old (pre ++ f ++ post) (zlen (pre ++ f ++ post)) (zlen pre)
      sink token SHA_update ctx =
    let '(n, token') := sink new token in
    if n <? zlen new then Val (1, token', ctx)
    else Val (0, token', (fun c => SHA_update c new) <$> ctx).
Proof.
  intros Hbz Hold Hnew Hsz Hcov Henc Hf Hl Hm Hj Hfuel Hr. unfold ApplyBSDiffPatch.
  by rewrite (apply_patch_file bz bz_compress rest Hbz old new Hold Hnew Hsz fuel rounds malloc ts ctrl db eb f pre post junk).
Qed.

(** A library that stores the data as they are, behind their length. *)
Definition stored : bzlib := {|
  bz_stream := block;
  BZ2_bzDecompressInit m n := match m with [] => [] | k :: l => take (Z.to_nat k) l end;
  BZ2_bzDecompress s room :=
    let n := Z.to_nat (Z.min room (zlen s)) in (BZ_OK, take n s, drop n s)
|}.
Definition store_all (d : block) : block := zlen d :: d.

Lemma stored_ok : bzlib_ok stored store_all eq.
Proof.
  split.
  - intros d tail n _. cbn. unfold zlen. by rewrite Nat2Z.id, take_app_length.
  - intros s d room -> Hd Hr. cbn. do 4 eexists. split; [done |]. split; [by left |].
    split; [| by rewrite take_drop]. unfold zlen. rewrite length_take. destruct d; [done |]. simpl. lia.
  - intros d. unfold store_all. rewrite zlen_cons. pose proof (zlen_nonneg d).
    pose proof (Z.div_pos (zlen d) 100). lia.
Qed.

Definition demo_old : block := [10; 20; 30; 40; 50; 60; 70; 80; 90; 100].
Definition demo_new : block := [1; 10; 20; 30; 40; 50; 61; 70; 80; 90; 100; 2].
Definition demo_malloc (n : Z) : option block := Some (replicate (Z.to_nat n) 0).
(** One triple: a difference of no bytes and an extra run of twelve. *)
Definition demo_ctrl : block := [0; 0; 0; 0; 0; 0; 0; 0; 12; 0; 0; 0; 0; 0; 0; 0; 0; 0; 0; 0; 0; 0; 0; 0].
Definition demo_file : block :=
  str "BSDIFF40" ++ [25; 0; 0; 0; 0; 0; 0; 0; 1; 0; 0; 0; 0; 0; 0; 0; 12; 0; 0; 0; 0; 0; 0; 0] ++
  store_all demo_ctrl ++ store_all [] ++ store_all demo_new.

Lemma demo_covers : covers demo_old demo_new 0 0 [(0, 12, 0)] [] demo_new.
Proof.
  refine (cov_step demo_old demo_new 0 0 0 12 0 [] [] [] _ _ _ _ _ _ _ _);
    [vm_compute; intuition congruence .. |]. by constructor.
Qed.

Lemma ApplyBSDiffPatch_correct_witness :
  @ApplyBSDiffPatch LP64 stored 100 demo_malloc block (list block) 5 demo_old ([7; 7] ++ demo_file ++ [9])
    (zlen ([7; 7] ++ demo_file ++ [9])) (zlen [7; 7])
    (fun b t => (zlen b, t ++ b)) [3] (fun c b => c ++ [b]) (Some []) =
  Val (0, 3 :: demo_new, Some [demo_new]).
Proof.
  etransitivity; [| vm_compute; reflexivity].
  apply (@ApplyBSDiffPatch_correct LP64 stored store_all eq demo_old demo_new 100 5 demo_malloc [(0, 12, 0)]
    demo_ctrl [] demo_new demo_file [7; 7] [9] (replicate 12 0) block (list block)
    (fun b t => (zlen b, t ++ b)) [3] (fun c b => c ++ [b]) (Some [])).
  - exact stored_ok.
  - apply (bool_decide_unpack _). vm_compute. exact Logic.I.
  - apply (bool_decide_unpack _). vm_compute. exact Logic.I.
  - vm_compute. intuition congruence.
  - exact demo_covers.
  - apply (enc_cons 0 12 0 [] [0; 0; 0; 0; 0; 0; 0; 0] [12; 0; 0; 0; 0; 0; 0; 0] [0; 0; 0; 0; 0; 0; 0; 0] []);
      try reflexivity. constructor.
  - reflexivity.
  - vm_compute. reflexivity.
  - reflexivity.
  - reflexivity.
  - vm_compute. congruence.
  - vm_compute. congruence.
Defined.

(** C9: the two programs are inverse: for every old file below 1 GiB and new file below
    32 MiB, and any [I] with an in-range position for each suffix of the old file,
    [bsdiff] returns a patch file, and [ApplyBSDiffPatchMem] applied to that file,
    wherever it lies in memory, gives the new file back. *)
Theorem bsdiff_bspatch_roundtrip `{Arch} bz bz_compress rest old new I fuel rounds malloc junk pre post :
  bzlib_ok bz bz_compress rest -> bytes_ok old -> bytes_ok new -> zlen old < 2 ^ 30 -> zlen new < 2 ^ 25 ->
  zlen I = zlen old + 1 -> Forall (fun i => 0 <= i <= zlen old) I ->
  zlen pre + zlen post < 2 ^ 30 -> malloc (zlen new) = Some junk -> zlen junk = zlen new ->
  zlen new + 24 <= Z.of_nat fuel -> zlen new + 1 <= Z.of_nat rounds ->
  exists f, bsdiff bz_compress old new I = Val f /\
    ApplyBSDiffPatchMem bz fuel malloc rounds old (pre ++ f ++ post) (zlen (pre ++ f ++ post)) (zlen pre) =
      Val (0, Some new).
Proof.
  intros Hbz Hold Hnew Ho Hn HIl HI Hpp Hm Hj Hfuel Hr.
  destruct (bsdiff_is_patch_file bz bz_compress rest Hbz old new ltac:(lia) I HIl HI Hn)
    as (f & ts & ctrl & db & eb & Hb & Hf & Hcov & Henc & Hts & Hlf).
  exists f. split; [done |].
  eapply (apply_patch_file bz bz_compress rest Hbz old new Hold Hnew); try done; [lia | zlia | zlia].
Qed.

Lemma bsdiff_bspatch_roundtrip_witness : exists f,
  @bsdiff LP64 store_all demo_old demo_new [10; 0; 1; 2; 3; 4; 5; 6; 7; 8; 9] = Val f /\
  @ApplyBSDiffPatchMem LP64 stored 100 demo_malloc 20 demo_old ([7; 7] ++ f ++ []) (zlen ([7; 7] ++ f ++ [])) (zlen [7; 7]) =
    Val (0, Some demo_new).
Proof.
  apply (@bsdiff_bspatch_roundtrip LP64 stored store_all eq demo_old demo_new
    [10; 0; 1; 2; 3; 4; 5; 6; 7; 8; 9] 100 20 demo_malloc (replicate 12 0) [7; 7] []).
  - exact stored_ok.
  - apply (bool_decide_unpack _). vm_compute. exact Logic.I.
  - apply (bool_decide_unpack _). vm_compute. exact Logic.I.
  - reflexivity.
  - reflexivity.
  - reflexivity.
  - repeat constructor; vm_compute; congruence.
  - reflexivity.
  - reflexivity.
  - reflexivity.
  - vm_compute. congruence.
  - vm_compute. congruence.
Defined.

(** A compressed block that ends early never makes [FillBuffer] fail: with no
    input left the library answers BZ_OK and gives nothing, and the loop goes on; no
    number of rounds is enough. *)
Theorem FillBuffer_truncated_diverges bz s size :
  (forall room, 0 < room -> BZ2_bzDecompress bz s room = (BZ_OK, [], s)) -> 0 < size < 2 ^ 31 ->
  forall fuel m, FillBuffer bz fuel m 0 size s = Trap NoFuel.
Proof.
  intros Hs Hsize fuel m. pose proof (zlen_nonneg m). unfold FillBuffer. rewrite wraps_id, wrapu_id by lia.
  induction fuel as [| fuel IH]; cbn [fill_loop]; rewrite (proj2 (Z.leb_gt _ _)) by lia; [done |].
  rewrite Hs by lia. rewrite store_bytes_nil by lia. cbn [mbind outcome_bind]. simpl negb. cbn [andb].
  change (zlen (@nil Z)) with 0. by rewrite Z.add_0_l, Z.sub_0_r.
Qed.

Lemma FillBuffer_truncated_diverges_witness : FillBuffer stored 1000 [] 0 24 ([] : bz_stream stored) = Trap NoFuel.
Proof.
  apply (FillBuffer_truncated_diverges stored ([] : bz_stream stored) 24).
  - intros room _. cbn. by rewrite take_nil, drop_nil.
  - lia.
Defined.

(** A negative first number of a triple passes the check [newpos + ctrl[0] > new_size]
    and becomes the size of a read into the new file, whose end the data run over. *)
Lemma negative_control_overruns :
  @ApplyBSDiffPatchMem LP64 stored 100 demo_malloc 5 []
    (str "BSDIFF40" ++ [25; 0; 0; 0; 0; 0; 0; 0; 6; 0; 0; 0; 0; 0; 0; 0; 2; 0; 0; 0; 0; 0; 0; 0] ++
     store_all ([1; 0; 0; 0; 0; 0; 0; 128] ++ replicate 16 0) ++ store_all [1; 2; 3; 4; 5] ++ store_all []) 64 0 =
  Trap OutOfBounds.
Proof. vm_compute. reflexivity. Qed.
