(* ===== verification/ImgPatch.v ===== *)
(** * applypatch/imgpatch.c: patches for images that contain compressed parts

    [ApplyImagePatch] reads a list of chunks.  A normal chunk is a bsdiff patch of part
    of the old file, a raw chunk carries its data, and a deflate chunk inflates part of
    the old file, patches the result and deflates it again with given parameters.
    zlib is outside the repository: one call of inflate and a stream of calls of deflate
    are the record [zlib].  The sink and SHA_update are those of Bspatch.v.  A part of the
    old file that does not lie in it counts as an access out of bounds when it is
    handed on. *)

From stdpp Require Import base numbers list.
From stdpp Require Import strings.
From S2P Require Import Prelude CString Bits Bspatch.

Definition CHUNK_NORMAL : Z := 0.
Definition CHUNK_DEFLATE : Z := 2.
Definition CHUNK_RAW : Z := 3.
Definition Z_OK : Z := 0.
Definition Z_STREAM_END : Z := 1.

(** [inflateInit2] (its answer), one call of [inflate] on some input with some room, and
    deflating: a stream opened with five parameters on the data, and one call with some
    room. *)
Record zlib := mkZ {
  z_inflateInit2 : Z;
  z_inflate : block -> Z -> Z * block;
  z_deflating : Type;
  z_deflateInit2 : Z -> Z -> Z -> Z -> Z -> block -> z_deflating;
  z_deflate : z_deflating -> Z -> Z * block * z_deflating
}.

Section Model.
Context `{Arch} (bz : bzlib) (fuel rounds : nat) (malloc : Z -> option block) (z : zlib).
Context {S D : Type} (sink : block -> S -> Z * S) (SHA_update : D -> block -> D).
Variables (old patch : block).

Abbreviation patch_size := (zlen patch).
Definition size_t (v : Z) : Z := wrapu word_bits v.
Definition ssize_t (v : Z) : Z := wraps word_bits v.

(** What a chunk leaves: whether to go on, the position, the sink and the digest. *)
Abbreviation progress := (bool * Z * S * D)%type.

Definition normal_chunk (pos : Z) (token : S) (ctx : D) : outcome progress :=
  let header := pos in
  let pos := pos + 24 in
  if patch_size <? pos then Val (false, pos, token, ctx) else
  let* src_start := Read8 patch header in
  let* src_len := Read8 patch (header + 8) in
  let* patch_offset := Read8 patch (header + 16) in
  let* source := load_bytes old (size_t src_start) (ssize_t (size_t src_len)) in
  let* (_, token, ctx') :=
    ApplyBSDiffPatch bz fuel malloc rounds source patch patch_size (ssize_t (size_t patch_offset))
      sink token SHA_update (Some ctx) in
  Val (true, pos, token, default ctx ctx').

Definition raw_chunk (pos : Z) (token : S) (ctx : D) : outcome progress :=
  let header := pos in
  let pos := pos + 4 in
  if patch_size <? pos then Val (false, pos, token, ctx) else
  let* data_len := Read4 patch header in
  if patch_size <? pos + data_len then Val (false, pos, token, ctx) else
  let* data := load_bytes patch pos data_len in
  let ctx := SHA_update ctx data in
  let '(n, token) := sink data token in
  if negb (n =? data_len) then Val (false, pos, token, ctx)
  else Val (true, pos + data_len, token, ctx).

(** [do ... while (ret != Z_STREAM_END)] *)
Fixpoint deflate_loop (n : nat) (strm : z_deflating z) (temp_size : Z) (token : S) (ctx : D) :
    outcome (bool * S * D) :=
  match n with
  | O => Trap NoFuel
  | Datatypes.S n =>
      let '(ret, out, strm) := z_deflate z strm (u32 temp_size) in
      if temp_size <? zlen out then Trap OutOfBounds else
      let '(k, token) := sink out token in
      if negb (k =? zlen out) then Val (false, token, ctx) else
      let ctx := SHA_update ctx out in
      if negb (ret =? Z_STREAM_END) then deflate_loop n strm temp_size token ctx
      else Val (true, token, ctx)
  end.

(** The source of a deflate chunk: the inflated data and the bonus data, or a failure. *)
Definition expand (source : block) (expanded_len bonus_size : Z) (bonus : block) : outcome (option block) :=
  match malloc expanded_len with
  | None => Val None
  | Some expanded =>
      if negb (z_inflateInit2 z =? Z_OK) then Val None else
      let '(ret, out) := z_inflate z source (u32 expanded_len) in
      let* expanded := store_bytes expanded 0 out in
      if negb (ret =? Z_STREAM_END) then Val None else
      if negb (u32 expanded_len - zlen out =? bonus_size) then Val None else
      if negb (bonus_size =? 0) then
        let* expanded := store_bytes expanded (expanded_len - bonus_size) bonus in Val (Some expanded)
      else Val (Some expanded)
  end.

Definition deflate_chunk (bonus_data : option block) (i pos : Z) (token : S) (ctx : D) : outcome progress :=
  let header := pos in
  let pos := pos + 60 in
  if patch_size <? pos then Val (false, pos, token, ctx) else
  let* src_start := Read8 patch header in
  let* src_len := Read8 patch (header + 8) in
  let* patch_offset := Read8 patch (header + 16) in
  let* expanded_len := Read8 patch (header + 24) in
  let* level := Read4 patch (header + 40) in
  let* method := Read4 patch (header + 44) in
  let* windowBits := Read4 patch (header + 48) in
  let* memLevel := Read4 patch (header + 52) in
  let* strategy := Read4 patch (header + 56) in
  let expanded_len := size_t expanded_len in
  let bonus := if i =? 1 then default [] bonus_data else [] in
  let* source := load_bytes old (size_t src_start) (u32 (size_t src_len)) in
  let* e := expand source expanded_len (zlen bonus) bonus in
  match e with
  | None => Val (false, pos, token, ctx)
  | Some expanded =>
      let* (r, target) := ApplyBSDiffPatchMem bz fuel malloc rounds expanded patch patch_size
                            (ssize_t (size_t patch_offset)) in
      if negb (r =? 0) then Val (false, pos, token, ctx) else
      match target with
      | None => Trap NullDeref
      | Some target =>
          let temp_size := if ssize_t expanded_len <? 32768 then 32768 else ssize_t expanded_len in
          let strm := z_deflateInit2 z level method windowBits memLevel strategy target in
          let* (ok, token, ctx) := deflate_loop fuel strm temp_size token ctx in
          Val (ok, pos, token, ctx)
      end
  end.

(** [num] chunks from the [i]th on. *)
Fixpoint chunk_loop (num : nat) (bonus_data : option block) (i pos : Z) (token : S) (ctx : D) :
    outcome (Z * S * D) :=
  match num with
  | O => Val (0, token, ctx)
  | Datatypes.S num =>
      if patch_size <? pos + 4 then Val (-1, token, ctx) else
      let* type := Read4 patch pos in
      let pos := pos + 4 in
      let* (ok, pos, token, ctx) :=
        if type =? CHUNK_NORMAL then normal_chunk pos token ctx
        else if type =? CHUNK_RAW then raw_chunk pos token ctx
        else if type =? CHUNK_DEFLATE then deflate_chunk bonus_data i pos token ctx
        else Val (false, pos, token, ctx) in
      if negb ok then Val (-1, token, ctx)
      else chunk_loop num bonus_data (i + 1) pos token ctx
  end.

Definition ApplyImagePatch (token : S) (ctx : D) (bonus_data : option block) : outcome (Z * S * D) :=
  if patch_size <? 12 then Val (-1, token, ctx) else
  let* magic := load_bytes patch 0 8 in
  if negb (bool_decide (magic = str "IMGDIFF2")) then Val (-1, token, ctx) else
  let* num_chunks := Read4 patch 8 in
  chunk_loop (Z.to_nat num_chunks) bonus_data 0 12 token ctx.
End Model.

(** ** The format and its meaning *)

Inductive chunk :=
| Normal (src_start src_len patch_offset : Z)
| Raw (data : block)
| Deflate (src_start src_len patch_offset expanded_len target_len level method windowBits memLevel strategy : Z).

Definition chunk_type (c : chunk) : Z :=
  match c with Normal _ _ _ => CHUNK_NORMAL | Raw _ => CHUNK_RAW | Deflate _ _ _ _ _ _ _ _ _ _ => CHUNK_DEFLATE end.
Definition chunk_body (c : chunk) : block :=
  match c with
  | Normal s l o => le_bytes 8 s ++ le_bytes 8 l ++ le_bytes 8 o
  | Raw d => le_bytes 4 (zlen d) ++ d
  | Deflate s l o e t lv me wb ml st =>
      le_bytes 8 s ++ le_bytes 8 l ++ le_bytes 8 o ++ le_bytes 8 e ++ le_bytes 8 t ++
      le_bytes 4 lv ++ le_bytes 4 me ++ le_bytes 4 wb ++ le_bytes 4 ml ++ le_bytes 4 st
  end.
Definition chunk_record (c : chunk) : block := le_bytes 4 (chunk_type c) ++ chunk_body c.

(** A patch file: the chunk records, then the bsdiff patches they point to. *)
Definition image_file (cs : list chunk) (tail : block) : block :=
  str "IMGDIFF2" ++ le_bytes 4 (zlen cs) ++ concat (chunk_record <$> cs) ++ tail.

(** Deflating [strm] to its end with this much room gives these pieces. *)
Inductive deflates (z : zlib) (room : Z) : z_deflating z -> list block -> Prop :=
| def_end strm out strm' :
    z_deflate z strm room = (Z_STREAM_END, out, strm') -> zlen out <= room -> deflates z room strm [out]
| def_more strm ret out strm' outs :
    z_deflate z strm room = (ret, out, strm') -> ret <> Z_STREAM_END -> zlen out <= room ->
    deflates z room strm' outs -> deflates z room strm (out :: outs).

Definition in_old (old : block) (s l : Z) : Prop := 0 <= s /\ 0 <= l /\ s + l <= zlen old.

(** The pieces of output of the [i]th chunk. *)
Inductive chunk_pieces `{Arch} (bz : bzlib) (fuel rounds : nat) (malloc : Z -> option block) (z : zlib)
    (old patch : block) (bonus_data : option block) (i : Z) : chunk -> list block -> Prop :=
| cp_normal s l o out :
    in_old old s l -> 0 <= o < 2 ^ 31 ->
    ApplyBSDiffPatchMem bz fuel malloc rounds (slice old s l) patch (zlen patch) o = Val (0, Some out) ->
    chunk_pieces bz fuel rounds malloc z old patch bonus_data i (Normal s l o) [out]
| cp_raw d : bytes_ok d -> chunk_pieces bz fuel rounds malloc z old patch bonus_data i (Raw d) [d]
| cp_deflate s l o e t lv me wb ml st src buf target outs :
    in_old old s l -> 0 <= o < 2 ^ 31 -> 0 <= e < 2 ^ 31 ->
    Forall (fun v => - 2 ^ 31 <= v < 2 ^ 31) [lv; me; wb; ml; st] ->
    malloc e = Some buf -> zlen buf = e ->
    z_inflate z (slice old s l) e = (Z_STREAM_END, src) ->
    zlen src + zlen (if i =? 1 then default [] bonus_data else []) = e ->
    ApplyBSDiffPatchMem bz fuel malloc rounds (src ++ if i =? 1 then default [] bonus_data else []) patch (zlen patch) o =
      Val (0, Some target) ->
    deflates z (Z.max e 32768) (z_deflateInit2 z lv me wb ml st target) outs -> (length outs <= fuel)%nat ->
    chunk_pieces bz fuel rounds malloc z old patch bonus_data i (Deflate s l o e t lv me wb ml st) outs.

(** The pieces of the chunks from the [i]th on. *)
Inductive all_pieces (P : Z -> chunk -> list block -> Prop) : Z -> list chunk -> list block -> Prop :=
| ap_nil i : all_pieces P i [] []
| ap_cons i c cs outs rest : P i c outs -> all_pieces P (i + 1) cs rest -> all_pieces P i (c :: cs) (outs ++ rest).

Lemma bytes_ok_app (a b : block) : bytes_ok (a ++ b) <-> bytes_ok a /\ bytes_ok b.
Proof. apply Forall_app. Qed.

Lemma Read4_at (m a c : block) v p :
  m = a ++ le_bytes 4 v ++ c -> p = zlen a -> bytes_ok m -> - 2 ^ 31 <= v < 2 ^ 31 -> Read4 m p = Val v.
Proof.
  intros -> -> Hm Hv. apply bytes_ok_app in Hm as [Ha Hm]. apply bytes_ok_app in Hm as [_ Hc].
  rewrite app_assoc, <- Write4_spec, Read4_Write4 by done. by rewrite wraps_id by lia.
Qed.

Lemma Read8_at (m a c : block) v p :
  m = a ++ le_bytes 8 v ++ c -> p = zlen a -> bytes_ok m -> - 2 ^ 31 <= v < 2 ^ 31 -> Read8 m p = Val v.
Proof.
  intros -> -> Hm Hv. apply bytes_ok_app in Hm as [Ha Hm]. apply bytes_ok_app in Hm as [_ Hc].
  rewrite app_assoc, <- Write8_spec, Read8_Write8 by done. by rewrite wraps_id by lia.
Qed.

Lemma zlen_le_bytes n v : zlen (le_bytes n v) = Z.of_nat n.
Proof. unfold zlen. by rewrite length_le_bytes. Qed.

Lemma records_len cs : zlen cs <= zlen (concat (chunk_record <$> cs)).
Proof.
  induction cs as [| c cs IH]; [done |]. rewrite fmap_cons. cbn [concat]. unfold chunk_record at 1.
  rewrite zlen_cons, !zlen_app, zlen_le_bytes. pose proof (zlen_nonneg (chunk_body c)). lia.
Qed.

Section Correct.
Context `{Arch} (bz : bzlib) (fuel rounds : nat) (malloc : Z -> option block) (z : zlib).
Context {S D : Type} (sink : block -> S -> Z * S) (SHA_update : D -> block -> D) (put : S -> block -> S).
Hypothesis Hsink : forall d t, sink d t = (zlen d, put t d).
Hypothesis Hinit : z_inflateInit2 z = Z_OK.
Variables (old patch : block).
Hypothesis Hpatch : bytes_ok patch.
Hypothesis Hold : zlen old < 2 ^ 31.
Hypothesis Hsize : zlen patch < 2 ^ 31.

Lemma word_pos : 2 ^ 31 <= 2 ^ (word_bits - 1) /\ 2 ^ 32 <= 2 ^ word_bits.
Proof. destruct word_bits_ok as [-> | ->]; simpl; lia. Qed.

Lemma size_t_id v : 0 <= v < 2 ^ 31 -> size_t v = v.
Proof. intros. pose proof word_pos. apply wrapu_id. lia. Qed.

Lemma ssize_t_id v : 0 <= v < 2 ^ 31 -> ssize_t v = v.
Proof. intros. pose proof word_pos. apply wraps_id; [destruct word_bits_ok; lia | lia]. Qed.

Lemma load_bytes_in (m : block) p n : 0 <= p -> 0 <= n -> p + n <= zlen m -> load_bytes m p n = Val (slice m p n).
Proof. intros. unfold load_bytes. by rewrite !(proj2 (Z.leb_le _ _)) by lia. Qed.

Lemma deflate_loop_spec n strm outs e token ctx :
  0 <= e < 2 ^ 31 -> deflates z e strm outs -> (length outs <= n)%nat ->
  deflate_loop z sink SHA_update n strm e token ctx =
    Val (true, foldl put token outs, foldl SHA_update ctx outs).
Proof.
  intros He Hd. revert n token ctx. induction Hd as [strm out strm' Ed Hl | strm ret out strm' outs Ed Hret Hl Hd IH];
    intros n token ctx Hn; (destruct n as [| n]; [simpl in Hn; lia |]); cbn [deflate_loop];
    rewrite (wrapu_id 32) by lia; rewrite Ed, (proj2 (Z.ltb_ge _ _)), Hsink, Z.eqb_refl by lia; cbn [negb].
  - done.
  - rewrite (proj2 (Z.eqb_neq _ _)) by done. cbn [negb]. rewrite IH; [done | simpl in Hn; lia].
Qed.

Lemma normal_chunk_spec pre tail s l o out token ctx :
  patch = pre ++ (le_bytes 8 s ++ le_bytes 8 l ++ le_bytes 8 o) ++ tail -> in_old old s l -> 0 <= o < 2 ^ 31 ->
  ApplyBSDiffPatchMem bz fuel malloc rounds (slice old s l) patch (zlen patch) o = Val (0, Some out) ->
  normal_chunk bz fuel rounds malloc sink SHA_update old patch (zlen pre) token ctx =
    Val (true, zlen pre + 24, put token out, SHA_update ctx out).
Proof.
  intros E (Hs & Hl & Hsl) Ho Happ. unfold normal_chunk.
  assert (zlen pre + 24 <= zlen patch) by (rewrite E, !zlen_app, !zlen_le_bytes; pose proof (zlen_nonneg tail); lia).
  rewrite (proj2 (Z.ltb_ge _ _)) by lia.
  rewrite (Read8_at patch pre (le_bytes 8 l ++ le_bytes 8 o ++ tail) s (zlen pre));
    [| by rewrite E, <- !app_assoc | done | done | lia].
  rewrite (Read8_at patch (pre ++ le_bytes 8 s) (le_bytes 8 o ++ tail) l (zlen pre + 8));
    [| by rewrite E, <- !app_assoc | by rewrite zlen_app, zlen_le_bytes | done | lia].
  rewrite (Read8_at patch (pre ++ le_bytes 8 s ++ le_bytes 8 l) tail o (zlen pre + 16));
    [| by rewrite E, <- !app_assoc | rewrite !zlen_app, !zlen_le_bytes; lia | done | lia].
  cbn [mbind outcome_bind]. rewrite !size_t_id, !ssize_t_id by lia. rewrite load_bytes_in by lia.
  cbn [mbind outcome_bind]. unfold ApplyBSDiffPatch. rewrite Happ. cbn [mbind outcome_bind]. simpl negb. cbv iota.
  rewrite Hsink, Z.ltb_irrefl. done.
Qed.

Lemma raw_chunk_spec pre tail d token ctx :
  patch = pre ++ (le_bytes 4 (zlen d) ++ d) ++ tail ->
  raw_chunk sink SHA_update patch (zlen pre) token ctx =
    Val (true, zlen pre + 4 + zlen d, put token d, SHA_update ctx d).
Proof.
  intros E. unfold raw_chunk. pose proof (zlen_nonneg d). pose proof (zlen_nonneg tail). pose proof (zlen_nonneg pre).
  assert (zlen pre + 4 + zlen d <= zlen patch) by (rewrite E, !zlen_app, !zlen_le_bytes; lia).
  rewrite (proj2 (Z.ltb_ge _ _)) by lia.
  rewrite (Read4_at patch pre (d ++ tail) (zlen d) (zlen pre)); [| by rewrite E, <- !app_assoc | done | done | lia].
  cbn [mbind outcome_bind]. rewrite (proj2 (Z.ltb_ge _ _)) by lia.
  replace (load_bytes patch (zlen pre + 4) (zlen d)) with (Val d).
  - cbn [mbind outcome_bind]. by rewrite Hsink, Z.eqb_refl.
  - symmetry. rewrite E. replace (pre ++ (le_bytes 4 (zlen d) ++ d) ++ tail) with ((pre ++ le_bytes 4 (zlen d)) ++ d ++ tail)
      by (by rewrite <- !app_assoc). apply load_bytes_app; [by rewrite zlen_app, zlen_le_bytes | done].
Qed.

(** The inflated source with the bonus data after it. *)
Lemma expand_spec source e bonus src buf :
  0 <= e < 2 ^ 31 -> malloc e = Some buf -> zlen buf = e -> z_inflate z source e = (Z_STREAM_END, src) ->
  zlen src + zlen bonus = e ->
  expand malloc z source e (zlen bonus) bonus = Val (Some (src ++ bonus)).
Proof.
  intros He Hm Hb Hi Hl. unfold expand. rewrite Hm, Hinit. cbn [negb Z.eqb Z_OK]. rewrite (wrapu_id 32) by lia.
  rewrite Hi. pose proof (zlen_nonneg src). pose proof (zlen_nonneg bonus).
  destruct (split_at buf (zlen src)) as (b1 & b2 & -> & Hb1); [lia |]. rewrite zlen_app in Hb.
  pose proof (store_bytes_app [] b1 b2 src 0 eq_refl ltac:(lia)) as Es. cbn [app] in Es. rewrite Es.
  cbn [mbind outcome_bind]. rewrite Z.eqb_refl. cbn [negb].
  replace (e - zlen src =? zlen bonus) with true by (symmetry; apply Z.eqb_eq; lia). cbn [negb].
  destruct (Z.eqb_spec (zlen bonus) 0) as [E0 | E0]; cbn [negb].
  - assert (bonus = []) as -> by (destruct bonus; [done | zlia]).
    assert (b2 = []) as -> by (destruct b2; [done | zlia]). done.
  - pose proof (store_bytes_app src b2 [] bonus (e - zlen bonus) ltac:(lia) ltac:(lia)) as Es2.
    rewrite !app_nil_r in Es2. rewrite Es2. done.
Qed.

Lemma deflate_chunk_spec pre tail bonus_data i s l o e t lv me wb ml st src buf target outs token ctx :
  patch = pre ++ (le_bytes 8 s ++ le_bytes 8 l ++ le_bytes 8 o ++ le_bytes 8 e ++ le_bytes 8 t ++
      le_bytes 4 lv ++ le_bytes 4 me ++ le_bytes 4 wb ++ le_bytes 4 ml ++ le_bytes 4 st) ++ tail ->
  in_old old s l -> 0 <= o < 2 ^ 31 -> 0 <= e < 2 ^ 31 ->
  Forall (fun v => - 2 ^ 31 <= v < 2 ^ 31) [lv; me; wb; ml; st] ->
  malloc e = Some buf -> zlen buf = e ->
  z_inflate z (slice old s l) e = (Z_STREAM_END, src) ->
  zlen src + zlen (if i =? 1 then default [] bonus_data else []) = e ->
  ApplyBSDiffPatchMem bz fuel malloc rounds (src ++ if i =? 1 then default [] bonus_data else []) patch (zlen patch) o =
    Val (0, Some target) ->
  deflates z (Z.max e 32768) (z_deflateInit2 z lv me wb ml st target) outs -> (length outs <= fuel)%nat ->
  deflate_chunk bz fuel rounds malloc z sink SHA_update old patch bonus_data i (zlen pre) token ctx =
    Val (true, zlen pre + 60, foldl put token outs, foldl SHA_update ctx outs).
Proof.
  intros E (Hs & Hl & Hsl) Ho He Hpar Hm Hb Hi Hlen Happ Hdef Hf.
  set (bonus := if i =? 1 then default [] bonus_data else []) in *.
  pose proof (zlen_nonneg pre). pose proof (zlen_nonneg tail).
  assert (zlen pre + 60 <= zlen patch) by (rewrite E, !zlen_app, !zlen_le_bytes; lia).
  unfold deflate_chunk. fold bonus. rewrite (proj2 (Z.ltb_ge _ _)) by lia.
  repeat (apply Forall_cons in Hpar as [? Hpar]).
  assert (forall a c v p, patch = a ++ le_bytes 8 v ++ c -> p = zlen a -> - 2 ^ 31 <= v < 2 ^ 31 -> Read8 patch p = Val v) as R8
    by (intros; eapply Read8_at; done).
  assert (forall a c v p, patch = a ++ le_bytes 4 v ++ c -> p = zlen a -> - 2 ^ 31 <= v < 2 ^ 31 -> Read4 patch p = Val v) as R4
    by (intros; eapply Read4_at; done).
  rewrite (R8 pre (le_bytes 8 l ++ le_bytes 8 o ++ le_bytes 8 e ++ le_bytes 8 t ++ le_bytes 4 lv ++ le_bytes 4 me ++
    le_bytes 4 wb ++ le_bytes 4 ml ++ le_bytes 4 st ++ tail) s (zlen pre)) by (lia || by rewrite E, <- !app_assoc).
  rewrite (R8 (pre ++ le_bytes 8 s) (le_bytes 8 o ++ le_bytes 8 e ++ le_bytes 8 t ++ le_bytes 4 lv ++ le_bytes 4 me ++
    le_bytes 4 wb ++ le_bytes 4 ml ++ le_bytes 4 st ++ tail) l (zlen pre + 8))
    by (rewrite ?zlen_app, ?zlen_le_bytes; lia || by rewrite E, <- !app_assoc).
  rewrite (R8 (pre ++ le_bytes 8 s ++ le_bytes 8 l) (le_bytes 8 e ++ le_bytes 8 t ++ le_bytes 4 lv ++ le_bytes 4 me ++
    le_bytes 4 wb ++ le_bytes 4 ml ++ le_bytes 4 st ++ tail) o (zlen pre + 16))
    by (rewrite ?zlen_app, ?zlen_le_bytes; lia || by rewrite E, <- !app_assoc).
  rewrite (R8 (pre ++ le_bytes 8 s ++ le_bytes 8 l ++ le_bytes 8 o) (le_bytes 8 t ++ le_bytes 4 lv ++ le_bytes 4 me ++
    le_bytes 4 wb ++ le_bytes 4 ml ++ le_bytes 4 st ++ tail) e (zlen pre + 24))
    by (rewrite ?zlen_app, ?zlen_le_bytes; lia || by rewrite E, <- !app_assoc).
  set (h40 := pre ++ le_bytes 8 s ++ le_bytes 8 l ++ le_bytes 8 o ++ le_bytes 8 e ++ le_bytes 8 t).
  assert (zlen h40 = zlen pre + 40) as L40 by (unfold h40; rewrite !zlen_app, !zlen_le_bytes; lia).
  assert (patch = h40 ++ le_bytes 4 lv ++ le_bytes 4 me ++ le_bytes 4 wb ++ le_bytes 4 ml ++ le_bytes 4 st ++ tail) as E40
    by (unfold h40; rewrite E; by rewrite <- !app_assoc).
  rewrite (R4 h40 (le_bytes 4 me ++ le_bytes 4 wb ++ le_bytes 4 ml ++ le_bytes 4 st ++ tail) lv (zlen pre + 40))
    by (lia || done).
  rewrite (R4 (h40 ++ le_bytes 4 lv) (le_bytes 4 wb ++ le_bytes 4 ml ++ le_bytes 4 st ++ tail) me (zlen pre + 44))
    by (rewrite ?zlen_app, ?zlen_le_bytes; lia || by rewrite E40, <- !app_assoc).
  rewrite (R4 (h40 ++ le_bytes 4 lv ++ le_bytes 4 me) (le_bytes 4 ml ++ le_bytes 4 st ++ tail) wb (zlen pre + 48))
    by (rewrite ?zlen_app, ?zlen_le_bytes; lia || by rewrite E40, <- !app_assoc).
  rewrite (R4 (h40 ++ le_bytes 4 lv ++ le_bytes 4 me ++ le_bytes 4 wb) (le_bytes 4 st ++ tail) ml (zlen pre + 52))
    by (rewrite ?zlen_app, ?zlen_le_bytes; lia || by rewrite E40, <- !app_assoc).
  rewrite (R4 (h40 ++ le_bytes 4 lv ++ le_bytes 4 me ++ le_bytes 4 wb ++ le_bytes 4 ml) tail st (zlen pre + 56))
    by (rewrite ?zlen_app, ?zlen_le_bytes; lia || by rewrite E40, <- !app_assoc).
  cbn [mbind outcome_bind]. rewrite !size_t_id, !ssize_t_id by lia. rewrite (wrapu_id 32) by lia.
  rewrite load_bytes_in by lia. cbn [mbind outcome_bind].
  rewrite (expand_spec (slice old s l) e bonus src buf) by done. cbn [mbind outcome_bind]. rewrite Happ.
  cbn [mbind outcome_bind]. simpl negb. cbv iota.
  replace (if e <? 32768 then 32768 else e) with (Z.max e 32768) by (destruct (Z.ltb_spec e 32768); lia).
  by rewrite (deflate_loop_spec fuel _ outs) by (done || lia).
Qed.

Lemma chunk_loop_spec bonus_data pre cs tail i pieces token ctx :
  patch = pre ++ concat (chunk_record <$> cs) ++ tail ->
  all_pieces (chunk_pieces bz fuel rounds malloc z old patch bonus_data) i cs pieces ->
  chunk_loop bz fuel rounds malloc z sink SHA_update old patch (length cs) bonus_data i (zlen pre) token ctx =
    Val (0, foldl put token pieces, foldl SHA_update ctx pieces).
Proof.
  intros E Hall. revert pre token ctx E. induction Hall as [i | i c cs outs pieces Hc Hall IH]; intros pre token ctx E; [done |].
  cbn [length chunk_loop]. cbn [fmap list_fmap concat] in E. unfold chunk_record at 1 in E.
  set (tl := concat (chunk_record <$> cs) ++ tail) in *.
  pose proof (zlen_nonneg (chunk_body c)). pose proof (zlen_nonneg tl).
  assert (zlen pre + 4 <= zlen patch)
    by (rewrite E, !zlen_app, !zlen_le_bytes; unfold tl in *; rewrite zlen_app in *; lia).
  assert (patch = (pre ++ le_bytes 4 (chunk_type c)) ++ chunk_body c ++ tl) as E'
    by (rewrite E; unfold tl; by rewrite <- !app_assoc).
  rewrite (proj2 (Z.ltb_ge _ _)) by lia.
  rewrite (Read4_at patch pre (chunk_body c ++ tl) (chunk_type c) (zlen pre));
    [| by rewrite E', <- !app_assoc | done | done | unfold chunk_type, CHUNK_NORMAL, CHUNK_RAW, CHUNK_DEFLATE; destruct c; lia].
  cbn [mbind outcome_bind].
  assert (zlen pre + 4 = zlen (pre ++ le_bytes 4 (chunk_type c))) as -> by (by rewrite zlen_app, zlen_le_bytes).
  rewrite !foldl_app.
  specialize (IH ((pre ++ le_bytes 4 (chunk_type c)) ++ chunk_body c) (foldl put token outs) (foldl SHA_update ctx outs)).
  rewrite <- app_assoc in IH. specialize (IH E'). rewrite zlen_app in IH.
  destruct Hc as [s l o out Hin Ho Happ | d Hd | s l o e t lv me wb ml st src buf target outs Hin Ho He Hpar Hm Hb Hi Hlen Happ Hdef Hf].
  - unfold chunk_type at 1. simpl Z.eqb. cbv iota.
    rewrite (normal_chunk_spec _ tl s l o out) by done. cbn [mbind outcome_bind negb]. rewrite <- IH.
    f_equal; cbn [chunk_body]; rewrite !zlen_app, !zlen_le_bytes; lia.
  - unfold chunk_type at 1. simpl Z.eqb. cbv iota.
    rewrite (raw_chunk_spec _ tl d) by done. cbn [mbind outcome_bind negb]. rewrite <- IH.
    f_equal; cbn [chunk_body]; rewrite !zlen_app, !zlen_le_bytes; lia.
  - unfold chunk_type at 1. simpl Z.eqb. cbv iota.
    rewrite (deflate_chunk_spec _ tl bonus_data i s l o e t lv me wb ml st src buf target outs) by done.
    cbn [mbind outcome_bind negb]. rewrite <- IH.
    f_equal; cbn [chunk_body]; rewrite !zlen_app, !zlen_le_bytes; lia.
Qed.

Lemma ApplyImagePatch_spec cs tail bonus_data pieces token ctx :
  patch = image_file cs tail -> all_pieces (chunk_pieces bz fuel rounds malloc z old patch bonus_data) 0 cs pieces ->
  ApplyImagePatch bz fuel rounds malloc z sink SHA_update old patch token ctx bonus_data =
    Val (0, foldl put token pieces, foldl SHA_update ctx pieces).
Proof.
  intros E Hall. unfold image_file in E. set (body := concat (chunk_record <$> cs) ++ tail) in *.
  assert (zlen (str "IMGDIFF2") = 8) as L8 by done.
  assert (patch = (str "IMGDIFF2" ++ le_bytes 4 (zlen cs)) ++ body) as E1 by (rewrite E; by rewrite <- !app_assoc).
  pose proof (zlen_nonneg body). pose proof (zlen_nonneg cs).
  assert (12 <= zlen patch) by (rewrite E1, !zlen_app, zlen_le_bytes; lia).
  assert (zlen cs <= zlen body).
  { unfold body. rewrite zlen_app. pose proof (zlen_nonneg tail). pose proof (records_len cs). lia. }
  assert (zlen cs < 2 ^ 31) by (rewrite E1, !zlen_app in Hsize; pose proof (zlen_nonneg (le_bytes 4 (zlen cs))); lia).
  unfold ApplyImagePatch. rewrite (proj2 (Z.ltb_ge _ _)) by lia.
  assert (load_bytes patch 0 8 = Val (str "IMGDIFF2")) as -> by (rewrite E; by apply (load_bytes_app [])).
  cbn [mbind outcome_bind]. rewrite bool_decide_true by done. cbn [negb].
  rewrite (Read4_at patch (str "IMGDIFF2") body (zlen cs) 8) by (done || lia). cbn [mbind outcome_bind].
  assert (Z.to_nat (zlen cs) = length cs) as -> by (unfold zlen; lia).
  replace 12 with (zlen (str "IMGDIFF2" ++ le_bytes 4 (zlen cs))) by (by rewrite zlen_app, zlen_le_bytes).
  by apply chunk_loop_spec with (tail := tail).
Qed.
End Correct.

(** ** Claims *)

(** C22: on a well-formed image patch, with a sink that accepts its data,
    [ApplyImagePatch] returns 0; the sink has received the output of every chunk in
    order (raw data, patched data, and patched data deflated again, bonus data included
    for chunk 1) and the digest has been updated with the same data. *)
Theorem ApplyImagePatch_correct `{Arch} bz fuel rounds malloc z {S D} (sink : block -> S -> Z * S)
    (SHA_update : D -> block -> D) (put : S -> block -> S) old cs tail bonus_data pieces token ctx :
  (forall d t, sink d t = (zlen d, put t d)) -> z_inflateInit2 z = Z_OK ->
  bytes_ok (image_file cs tail) -> zlen old < 2 ^ 31 -> zlen (image_file cs tail) < 2 ^ 31 ->
  all_pieces (chunk_pieces bz fuel rounds malloc z old (image_file cs tail) bonus_data) 0 cs pieces ->
  ApplyImagePatch bz fuel rounds malloc z sink SHA_update old (image_file cs tail) token ctx bonus_data =
    Val (0, foldl put token pieces, foldl SHA_update ctx pieces).
Proof. intros Hsink Hinit Hp Hold Hsize Hall. by apply ApplyImagePatch_spec with (cs := cs) (tail := tail). Qed.

(** A library that does not compress. *)
Definition plain_zlib : zlib := {|
  z_inflateInit2 := Z_OK;
  z_inflate src room := (Z_STREAM_END, src);
  z_deflating := block;
  z_deflateInit2 _ _ _ _ _ d := d;
  z_deflate s room := (Z_STREAM_END, s, [])
|}.

Definition demo_chunks : list chunk :=
  [Raw [1; 2]; Deflate 0 10 114 12 12 9 8 15 8 0; Normal 0 10 114].
Definition demo_patch : block := image_file demo_chunks demo_file.

Lemma demo_pieces : all_pieces (@chunk_pieces LP64 stored 100 5 demo_malloc plain_zlib demo_old demo_patch (Some [5; 6]))
  0 demo_chunks [[1; 2]; demo_new; demo_new].
Proof.
  apply (ap_cons _ 0 (Raw [1; 2]) _ [[1; 2]] [demo_new; demo_new]).
  { apply cp_raw. repeat constructor; vm_compute; congruence. }
  apply (ap_cons _ 1 _ _ [demo_new] [demo_new]).
  { apply (@cp_deflate LP64 stored 100 5 demo_malloc plain_zlib demo_old demo_patch (Some [5; 6]) 1
      0 10 114 12 12 9 8 15 8 0 demo_old (replicate 12 0) demo_new [demo_new]).
    - unfold in_old. vm_compute. intuition congruence.
    - lia.
    - lia.
    - repeat constructor; vm_compute; congruence.
    - reflexivity.
    - reflexivity.
    - reflexivity.
    - reflexivity.
    - vm_compute. reflexivity.
    - apply (def_end plain_zlib _ demo_new demo_new []); [reflexivity |]. vm_compute. congruence.
    - simpl. lia. }
  apply (ap_cons _ 2 _ _ [demo_new] []); [| apply ap_nil].
  apply cp_normal.
  - unfold in_old. vm_compute. intuition congruence.
  - lia.
  - vm_compute. reflexivity.
Qed.

Lemma ApplyImagePatch_correct_witness :
  @ApplyImagePatch LP64 stored 100 5 demo_malloc plain_zlib block block (fun d t => (zlen d, t ++ d))
    app demo_old (image_file demo_chunks demo_file) [] [] (Some [5; 6]) =
  Val (0, [1; 2] ++ demo_new ++ demo_new, [1; 2] ++ demo_new ++ demo_new).
Proof.
  etransitivity.
  - apply (@ApplyImagePatch_correct LP64 stored 100 5 demo_malloc plain_zlib block block (fun d t => (zlen d, t ++ d))
      app app demo_old demo_chunks demo_file (Some [5; 6]) [[1; 2]; demo_new; demo_new] [] []).
    + reflexivity.
    + reflexivity.
    + apply (bool_decide_unpack _). vm_compute. exact Logic.I.
    + vm_compute. reflexivity.
    + vm_compute. reflexivity.
    + exact demo_pieces.
  - vm_compute. reflexivity.
Defined.

(** The result of a normal chunk's patch is dropped: with a chunk whose bsdiff patch is
    no patch at all nothing is written and the answer is still 0. *)
Lemma failed_chunk_ignored :
  @ApplyImagePatch LP64 stored 100 5 demo_malloc plain_zlib block block (fun d t => (zlen d, t ++ d))
    app demo_old (image_file [Normal 0 10 40] (replicate 40 0)) [] [] None = Val (0, [], []).
Proof. vm_compute. reflexivity. Qed.

(** Compression parameters that zlib refuses make the deflating loop run for ever: the
    failure of deflateInit2 is not looked at, and deflate answers an error and nothing. *)
Lemma bad_parameters_diverge z {S D} (sink : block -> S -> Z * S) (SHA_update : D -> block -> D) strm ret size token ctx :
  ret <> Z_STREAM_END -> (forall room, z_deflate z strm room = (ret, [], strm)) -> 0 <= size ->
  (forall t, sink [] t = (0, t)) -> (forall c, SHA_update c [] = c) ->
  forall n, deflate_loop z sink SHA_update n strm size token ctx = Trap NoFuel.
Proof.
  intros Hret Hz Hs Hsink Hsha n. induction n as [| n IH]; cbn [deflate_loop]; [done |].
  rewrite Hz, Hsink, Hsha. change (zlen (@nil Z)) with 0. rewrite (proj2 (Z.ltb_ge _ _)) by lia. simpl (negb (0 =? 0)).
  cbv iota. by rewrite (proj2 (Z.eqb_neq _ _)) by done.
Qed.

(** A raw chunk with a negative length passes the check of the room that is left. *)
Lemma negative_raw_length_out_of_bounds :
  @ApplyImagePatch LP64 stored 100 5 demo_malloc plain_zlib block block (fun d t => (zlen d, t ++ d))
    app [] (str "IMGDIFF2" ++ le_bytes 4 1 ++ le_bytes 4 CHUNK_RAW ++ le_bytes 4 (-1)) [] [] None = Trap OutOfBounds.
Proof. vm_compute. reflexivity. Qed.
