(* ===== verification/Retouch.v ===== *)
(** * minelf/Retouch.c: masking address randomisation in binaries

    A retouched binary ends in a blob of compressed relocation entries, the record
    [retouch_info_t] and the record [prelink_info_t].  Each entry names a word of the
    file and its original value; retouching adds one random offset to all those words.
    [retouch_mask_data] sets the offset, or finds it out.  The target is little-endian.
    The two static variables of the decoder are the record [codec]. *)

From stdpp Require Import base numbers list.
From stdpp Require Import strings.
From S2P Require Import Prelude CString Bits.

(** ** The code *)

(** The word at an address of a little-endian machine. *)
Definition load32 (m : block) (p : Z) : outcome Z := let* bs := load_bytes m p 4 in Val (le_val bs).
Definition store32 (m : block) (p v : Z) : outcome block := store_bytes m p (le_bytes 4 v).

Record codec := mkCodec { offs_prev : Z; cont_prev : Z }.
Definition init_compression_state : codec := mkCodec 0 0.

(** The offset (an [int32_t]) and the contents (a [uint32_t]) of one entry.  Shifts into
    the sign bit are taken as two's complement, and the results stored in 32 bits. *)
Definition decode_bytes (input : block) (encoded_size : Z) (st : codec) : outcome (Z * Z) :=
  let* e0 := load input 0 in
  let* e1 := load input 1 in
  if encoded_size =? 2 then
    let* off := c_int 32 (offs_prev st + (Z.shiftr (Z.land e0 0x60) 5 + 1) * 4) in
    let tmp := Z.lor (Z.shiftl (Z.land e0 0x1f) 8) e1 in
    let tmp := if negb (Z.land tmp 0x1000 =? 0) then i32 (Z.lor 0xffffe000 tmp) else tmp in
    Val (off, u32 (cont_prev st + tmp))
  else
    let* e2 := load input 2 in
    if encoded_size =? 3 then
      let* off := c_int 32 (offs_prev st + (Z.shiftr (Z.land e0 0x30) 4 + 1) * 4) in
      let tmp := Z.lor (Z.lor (Z.shiftl (Z.land e0 0x0f) 16) (Z.shiftl e1 8)) e2 in
      let tmp := if negb (Z.land tmp 0x80000 =? 0) then i32 (Z.lor 0xfff00000 tmp) else tmp in
      Val (off, u32 (cont_prev st + tmp))
    else
      let* e3 := load input 3 in
      let* e4 := load input 4 in
      let* e5 := load input 5 in
      let* e6 := load input 6 in
      let* e7 := load input 7 in
      let off := i32 (Z.lor (Z.lor (Z.lor (Z.shiftl e0 24) (Z.shiftl e1 16)) (Z.shiftl e2 8)) e3) in
      let off := if off =? 0x3fffffff then -1 else off in
      Val (off, u32 (Z.lor (Z.lor (Z.lor (Z.shiftl e4 24) (Z.shiftl e5 16)) (Z.shiftl e6 8)) e7)).

(** How many bytes the entry that starts with [b] has. *)
Definition input_size (b : Z) : Z :=
  if negb (Z.land b 0x80 =? 0) then 2 else if negb (Z.land b 0x40 =? 0) then 3 else 8.

(** The entry at [p], the pointer after it, and the new decoder state. *)
Definition decode_in_memory (m : block) (p : Z) (st : codec) : outcome (Z * Z * Z * codec) :=
  let* b := load m p in
  let n := input_size b in
  let* input := load_bytes m p n in
  let* (off, cont) := decode_bytes input n st in
  Val (off, cont, p + n, mkCodec off cont).

Definition RETOUCH_DATA_ERROR : Z := 0.
Definition RETOUCH_DATA_MATCHED : Z := 1.
Definition RETOUCH_DATA_MISMATCHED : Z := 2.
Definition RETOUCH_DATA_NOTAPPLICABLE : Z := 3.
Definition sizeof_prelink_info_t : Z := 8.
Definition sizeof_retouch_info_t : Z := 12.

(** What the loop leaves: the error return, or the pointer, the inferred offset and
    whether entries disagreed. *)
Inductive retouched :=
| BadEntry
| Done (b_ptr candidate : Z) (mismatch : bool).

Fixpoint retouch_loop (fuel : nat) (m : block) (b_offs r_offs p_offs b_ptr : Z) (st : codec)
    (desired : option Z) (cand : Z) (offset_set mismatch : bool) : outcome (block * retouched) :=
  if negb (b_ptr <? r_offs) then Val (m, Done b_ptr cand mismatch) else
  match fuel with
  | O => Trap NoFuel
  | S fuel =>
      let* (off, orig, b_ptr, st) := decode_in_memory m b_ptr st in
      if (off <? -1) || (b_offs <=? off) then Val (m, BadEntry) else
      let entry := if off =? -1 then p_offs else off in
      let* m := match desired with
                | Some d => store32 m entry (u32 (orig + d))
                | None => Val m
                end in
      let* word := load32 m entry in
      let this := i32 (word - orig) in
      if negb offset_set then retouch_loop fuel m b_offs r_offs p_offs b_ptr st desired this true mismatch
      else retouch_loop fuel m b_offs r_offs p_offs b_ptr st desired cand true
             (if negb (cand =? this) then true else mismatch)
  end.

(** [desired] is [*desired_offset]; the last component is what is stored in
    [*retouch_offset], which may be left unset. *)
Definition retouch_mask_data (m : block) (binary_size : Z) (desired : option Z) :
    outcome (Z * block * option Z) :=
  let target_offset := default 0 desired in
  let p_offs := i32 (binary_size - sizeof_prelink_info_t) in
  let r_offs := i32 (p_offs - sizeof_retouch_info_t) in
  let unretouched := match desired with None => RETOUCH_DATA_NOTAPPLICABLE | Some _ => RETOUCH_DATA_MATCHED end in
  if r_offs <? 0 then Val (unretouched, m, Some target_offset) else
  let* c1 := c_strncmp 4 m (p_offs + 4) (str "PRE ") 0 in
  let* c2 := if negb (c1 =? 0) then Val 1 else c_strncmp 8 m r_offs (str "RETOUCH ") 0 in
  if negb (c2 =? 0) then Val (unretouched, m, Some target_offset) else
  let* blob_size := load32 m (r_offs + 8) in
  let b_offs := i32 (r_offs - blob_size) in
  if b_offs <? 0 then Val (RETOUCH_DATA_ERROR, m, Some target_offset) else
  let* (m, r) := retouch_loop (Z.to_nat r_offs) m b_offs r_offs p_offs b_offs init_compression_state
                   desired target_offset false false in
  match r with
  | BadEntry => Val (RETOUCH_DATA_ERROR, m, Some target_offset)
  | Done b_ptr cand mismatch =>
      if r_offs <? b_ptr then Val (RETOUCH_DATA_ERROR, m, Some target_offset)
      else if mismatch then Val (RETOUCH_DATA_MISMATCHED, m, Some target_offset)
      else Val (RETOUCH_DATA_MATCHED, m, Some cand)
  end.

(** ** Memory safety *)

Lemma land_bound e k : 0 <= k -> 0 <= Z.land e k <= k.
Proof.
  intros Hk. split; [apply Z.land_nonneg; by right |]. rewrite Z.land_comm.
  assert (Z.ldiff k e + Z.land k e = k) as E.
  { rewrite <- (Z.lor_ldiff_and k e) at 3. symmetry. apply lor_add.
    apply Z.bits_inj'. intros n Hn. rewrite !Z.land_spec, Z.ldiff_spec, Z.bits_0. by destruct (Z.testbit k n), (Z.testbit e n). }
  pose proof (proj2 (Z.ldiff_nonneg k e)). lia.
Qed.

(** A delta moves the offset forward by at most sixteen bytes. *)
Lemma step_bound e k s : 0 <= k -> 0 <= s -> k / 2 ^ s <= 3 -> 0 <= Z.shiftr (Z.land e k) s <= 3.
Proof.
  intros Hk Hs H3. pose proof (land_bound e k Hk). rewrite Z.shiftr_div_pow2 by lia.
  assert (0 < 2 ^ s) by (apply Z.pow_pos_nonneg; lia). split; [apply Z.div_pos; lia |].
  transitivity (k / 2 ^ s); [apply Z.div_le_mono; lia | done].
Qed.

Lemma decode_bytes_safe input n st :
  n = 2 \/ n = 3 \/ n = 8 -> zlen input = n -> -1 <= offs_prev st -> offs_prev st + 16 < 2 ^ 31 ->
  wp (decode_bytes input n st) (fun _ => True).
Proof.
  intros Hn Hl Ho1 Ho2. unfold decode_bytes.
  destruct (load_some input 0) as [e0 ->]; [lia |]. destruct (load_some input 1) as [e1 ->]; [lia |].
  cbn [mbind outcome_bind].
  pose proof (step_bound e0 0x60 5 ltac:(lia) ltac:(lia) ltac:(done)).
  pose proof (step_bound e0 0x30 4 ltac:(lia) ltac:(lia) ltac:(done)).
  destruct Hn as [-> | [-> | ->]]; cbn [Z.eqb Pos.eqb].
  - rewrite c_int_val by lia. done.
  - destruct (load_some input 2) as [e2 ->]; [lia |]. cbn [mbind outcome_bind]. rewrite c_int_val by lia. done.
  - destruct (load_some input 2) as [e2 ->]; [lia |]. destruct (load_some input 3) as [e3 ->]; [lia |].
    destruct (load_some input 4) as [e4 ->]; [lia |]. destruct (load_some input 5) as [e5 ->]; [lia |].
    destruct (load_some input 6) as [e6 ->]; [lia |]. destruct (load_some input 7) as [e7 ->]; [lia |]. done.
Qed.

Lemma input_size_cases b : input_size b = 2 \/ input_size b = 3 \/ input_size b = 8.
Proof. unfold input_size. repeat case_match; auto. Qed.

Lemma decode_in_memory_safe m p st :
  0 <= p -> p + 8 <= zlen m -> -1 <= offs_prev st -> offs_prev st + 16 < 2 ^ 31 ->
  wp (decode_in_memory m p st) (fun '(off, cont, p', st') =>
    p + 2 <= p' <= p + 8 /\ st' = mkCodec off cont).
Proof.
  intros Hp Hm Ho1 Ho2. unfold decode_in_memory. destruct (load_some m p) as [b ->]; [lia |].
  cbn [mbind outcome_bind]. pose proof (input_size_cases b) as Hc.
  apply wp_bind, wp_load_bytes; [lia .. |]. apply wp_bind. eapply wp_mono.
  - apply decode_bytes_safe; [done | rewrite zlen_slice by lia; done | done ..].
  - intros [off cont] _. simpl. split; [lia | done].
Qed.

(** Writing a word in memory. *)
Definition put32 (m : block) (p v : Z) : block :=
  take (Z.to_nat p) m ++ le_bytes 4 v ++ drop (Z.to_nat p + 4) m.

Lemma store32_put m p v : 0 <= p -> p + 4 <= zlen m -> store32 m p v = Val (put32 m p v).
Proof.
  intros Hp Hm. unfold store32, store_bytes. unfold zlen at 1. rewrite length_le_bytes.
  rewrite !(proj2 (Z.leb_le _ _)) by lia. done.
Qed.

Lemma zlen_put32 m p v : 0 <= p -> p + 4 <= zlen m -> zlen (put32 m p v) = zlen m.
Proof.
  intros Hp Hm. unfold put32, zlen in *. rewrite !length_app, length_take, length_drop, length_le_bytes. lia.
Qed.

Lemma wp_load32 m p (Q : Z -> Prop) : 0 <= p -> p + 4 <= zlen m -> (forall v, Q v) -> wp (load32 m p) Q.
Proof. intros Hp Hm HQ. unfold load32. apply wp_bind, wp_load_bytes; [lia .. |]. apply HQ. Qed.

(** ** What masking does *)

Definition entry_pos (p_offs off : Z) : Z := if off =? -1 then p_offs else off.

(** The entries in [p, stop) of the blob. *)
Inductive blob (m : block) (stop : Z) : Z -> codec -> list (Z * Z) -> Prop :=
| blob_end st : blob m stop stop st []
| blob_entry p st off orig p' st' es :
    p < stop -> decode_in_memory m p st = Val (off, orig, p', st') -> blob m stop p' st' es ->
    blob m stop p st ((off, orig) :: es).

(** Every word gets its original value plus [d]. *)
Definition set_words (p_offs d : Z) (es : list (Z * Z)) (m : block) : block :=
  foldl (fun m '(off, orig) => put32 m (entry_pos p_offs off) (u32 (orig + d))) m es.

(** A binary with the retouch entries [es] in its blob at [b_offs]. *)
Record retouch_image (m : block) (b_offs : Z) (es : list (Z * Z)) : Prop := {
  ri_size : 20 <= zlen m < 2 ^ 31;
  ri_offs : 0 <= b_offs <= zlen m - 20;
  ri_pre : slice m (zlen m - 4) 4 = str "PRE ";
  ri_tag : slice m (zlen m - 20) 8 = str "RETOUCH ";
  ri_blob_size : load32 m (zlen m - 12) = Val (zlen m - 20 - b_offs);
  ri_blob : blob m (zlen m - 20) b_offs init_compression_state es;
  ri_entries : Forall (fun '(off, orig) => (off = -1 \/ 0 <= off <= b_offs - 4) /\ 0 <= orig < 2 ^ 32) es
}.

Lemma put32_lookup m p v i : 0 <= p -> p + 4 <= zlen m -> 0 <= i ->
  put32 m p v !! Z.to_nat i =
    if (p <=? i) && (i <? p + 4) then le_bytes 4 v !! Z.to_nat (i - p) else m !! Z.to_nat i.
Proof.
  intros Hp Hm Hi. unfold put32, zlen in *.
  destruct (Z.leb_spec p i), (Z.ltb_spec i (p + 4)); cbn [andb]; try lia.
  - rewrite lookup_app_r by (rewrite length_take; lia). rewrite length_take.
    rewrite lookup_app_l by (rewrite length_le_bytes; lia). f_equal. lia.
  - rewrite lookup_app_r by (rewrite length_take; lia). rewrite length_take.
    rewrite lookup_app_r by (rewrite length_le_bytes; lia). rewrite length_le_bytes, lookup_drop. f_equal. lia.
  - rewrite lookup_app_l by (rewrite length_take; lia). by rewrite lookup_take_lt by lia.
Qed.

Lemma load32_put32 m p v : 0 <= p -> p + 4 <= zlen m -> load32 (put32 m p v) p = Val (u32 v).
Proof.
  intros Hp Hm. unfold load32, put32.
  rewrite (load_bytes_app _ (le_bytes 4 v)).
  - cbn [mbind outcome_bind]. by rewrite le_val_le_bytes.
  - unfold zlen in *. rewrite length_take. lia.
  - unfold zlen. by rewrite length_le_bytes.
Qed.

(** Two files of one length that agree at the offsets where [P] holds. *)
Definition agree (P : Z -> Prop) (m m' : block) : Prop :=
  zlen m = zlen m' /\ forall i, 0 <= i -> P i -> m !! Z.to_nat i = m' !! Z.to_nat i.

Lemma agree_sub (P Q : Z -> Prop) m m' : agree P m m' -> (forall i, Q i -> P i) -> agree Q m m'.
Proof. intros [Hl H] HQ. split; auto. Qed.

Lemma agree_refl P m : agree P m m.
Proof. split; auto. Qed.

Lemma agree_trans P m1 m2 m3 : agree P m1 m2 -> agree P m2 m3 -> agree P m1 m3.
Proof. intros [L1 H1] [L2 H2]. split; [by rewrite L1 |]. intros. rewrite H1; auto. Qed.

Lemma agree_load (P : Z -> Prop) m m' i : agree P m m' -> P i -> load m i = load m' i.
Proof.
  intros [Hl H] HP. unfold load. rewrite Hl. destruct (Z.leb_spec 0 i); [| done]. by rewrite (H i) by (lia || done).
Qed.

Lemma agree_slice (P : Z -> Prop) m m' p n :
  agree P m m' -> 0 <= p -> (forall i, p <= i < p + n -> P i) -> slice m p n = slice m' p n.
Proof.
  intros [Hl H] Hp HP. unfold slice. apply list_eq. intros i.
  destruct (decide (i < Z.to_nat n)%nat) as [Hi |]; [| by rewrite !lookup_take_ge by lia].
  rewrite !lookup_take_lt, !lookup_drop by lia. replace (Z.to_nat p + i)%nat with (Z.to_nat (p + Z.of_nat i)) by lia.
  apply H; [lia |]. apply HP. lia.
Qed.

Lemma agree_load_bytes (P : Z -> Prop) m m' p n :
  agree P m m' -> (forall i, p <= i < p + n -> P i) -> load_bytes m p n = load_bytes m' p n.
Proof.
  intros Ha HP. unfold load_bytes. destruct Ha as [Hl H]. rewrite Hl.
  destruct (Z.leb_spec 0 p); [| done]. by rewrite (agree_slice P m m' p n).
Qed.

Lemma agree_put32 (P : Z -> Prop) m m' p v :
  0 <= p -> p + 4 <= zlen m -> agree P m m' ->
  agree (fun i => P i \/ p <= i < p + 4) (put32 m p v) (put32 m' p v).
Proof.
  intros Hp Hm [Hl H]. split; [rewrite !zlen_put32; lia |]. intros i Hi HP.
  rewrite !put32_lookup by lia. destruct (Z.leb_spec p i), (Z.ltb_spec i (p + 4)); cbn [andb]; try done;
    (apply H; [lia |]; destruct HP; [done | lia]).
Qed.

Lemma put32_agree (P : Z -> Prop) m p v :
  0 <= p -> p + 4 <= zlen m -> (forall i, P i -> i < p \/ p + 4 <= i) -> agree P m (put32 m p v).
Proof.
  intros Hp Hm HP. split; [by rewrite zlen_put32 by lia |]. intros i Hi Hpi. apply HP in Hpi.
  rewrite put32_lookup by lia. destruct (Z.leb_spec p i), (Z.ltb_spec i (p + 4)); cbn [andb]; done || lia.
Qed.

Lemma decode_agree (P : Z -> Prop) m m' p st :
  agree P m m' -> (forall i, p <= i < p + 8 -> P i) -> decode_in_memory m p st = decode_in_memory m' p st.
Proof.
  intros Ha HP. unfold decode_in_memory. rewrite (agree_load P m m' p Ha) by (apply HP; lia).
  apply bind_ext. intros b _. pose proof (input_size_cases b).
  rewrite (agree_load_bytes P m m' p (input_size b) Ha) by (intros; apply HP; lia). done.
Qed.

Lemma decode_next m p st off orig p' st' : decode_in_memory m p st = Val (off, orig, p', st') -> p + 2 <= p' <= p + 8.
Proof.
  unfold decode_in_memory. intros Hd. apply bind_Val_inv in Hd as (b & _ & Hd).
  apply bind_Val_inv in Hd as (input & _ & Hd). apply bind_Val_inv in Hd as ([o c] & _ & Hd).
  injection Hd as _ _ <- _. pose proof (input_size_cases b). lia.
Qed.

Lemma blob_le m stop p st es : blob m stop p st es -> p <= stop.
Proof. induction 1; lia. Qed.

(** The blob and the records after it are not among the words that change. *)
Definition tail_of (m : block) (b_offs : Z) (i : Z) : Prop :=
  b_offs <= i /\ ~ (zlen m - 8 <= i < zlen m - 4).

Lemma blob_agree m m' b_offs p st es :
  agree (tail_of m b_offs) m m' -> b_offs <= p -> blob m (zlen m - 20) p st es -> blob m' (zlen m - 20) p st es.
Proof.
  intros Ha Hb Hblob. induction Hblob as [st | p st off orig p' st' es Hp Hd _ IH]; [constructor |].
  pose proof (decode_next _ _ _ _ _ _ _ Hd). apply (blob_entry _ _ _ _ _ _ p' st'); [done | | apply IH; lia].
  rewrite <- Hd. symmetry. apply (decode_agree _ _ _ _ _ Ha). intros i Hi. unfold tail_of. lia.
Qed.

Lemma wraps_sub_mod w z k : 0 < w -> wraps w (wrapu w z - k) = wraps w (z - k).
Proof. intros Hw. unfold wraps, wrapu. by rewrite Zminus_mod_idemp_l. Qed.

Lemma this_offset orig d : - 2 ^ 31 <= d < 2 ^ 31 -> i32 (u32 (orig + d) - orig) = d.
Proof. intros Hd. rewrite wraps_sub_mod by lia. replace (orig + d - orig) with d by lia. apply wraps_id; lia. Qed.

Section Masking.
Variables (m0 : block) (b_offs : Z).
Hypothesis Hsize : 20 <= zlen m0 < 2 ^ 31.
Hypothesis Hoffs : 0 <= b_offs <= zlen m0 - 20.

Definition entry_ok (e : Z * Z) : Prop := (e.1 = -1 \/ 0 <= e.1 <= b_offs - 4) /\ 0 <= e.2 < 2 ^ 32.

Lemma entry_pos_ok off orig : entry_ok (off, orig) ->
  0 <= entry_pos (zlen m0 - 8) off /\ entry_pos (zlen m0 - 8) off + 4 <= zlen m0 /\
  (forall i, tail_of m0 b_offs i -> i < entry_pos (zlen m0 - 8) off \/ entry_pos (zlen m0 - 8) off + 4 <= i) /\
  (off <? -1) || (b_offs <=? off) = false.
Proof.
  unfold entry_ok, entry_pos, tail_of. simpl. intros [H1 H2].
  rewrite orb_false_iff, Z.ltb_ge, Z.leb_gt. destruct (Z.eqb_spec off (-1)); split_and!; try lia; intros i Hi; lia.
Qed.

(** Nothing changes outside the words. *)
Definition outside (es : list (Z * Z)) (i : Z) : Prop :=
  Forall (fun e => ~ (entry_pos (zlen m0 - 8) e.1 <= i < entry_pos (zlen m0 - 8) e.1 + 4)) es.

Lemma set_words_outside d es m :
  zlen m = zlen m0 -> Forall entry_ok es -> agree (outside es) m (set_words (zlen m0 - 8) d es m).
Proof.
  intros Hm Hes. revert m Hm. induction Hes as [| [off orig] es He Hes IH]; intros m Hm; [apply agree_refl |].
  destruct (entry_pos_ok off orig He) as (H1 & H2 & _ & _). simpl.
  eapply agree_trans.
  - apply (put32_agree _ m (entry_pos (zlen m0 - 8) off) (u32 (orig + d))); [lia .. |].
    intros i Hi. apply Forall_cons in Hi as [Hi _]. simpl in Hi. lia.
  - eapply agree_sub; [apply IH; rewrite zlen_put32; lia |]. intros i Hi. by apply Forall_cons in Hi as [_ Hi].
Qed.

Lemma set_words_agree d es m :
  zlen m = zlen m0 -> Forall entry_ok es -> agree (tail_of m0 b_offs) m (set_words (zlen m0 - 8) d es m).
Proof.
  intros Hm Hes. eapply agree_sub; [by apply set_words_outside |]. intros i Hi.
  eapply Forall_impl; [exact Hes |]. intros [off orig] He. destruct (entry_pos_ok off orig He) as (_ & _ & H3 & _).
  specialize (H3 i Hi). simpl. lia.
Qed.

(** Masking with an offset. *)
Lemma retouch_loop_set d es n m p st cand set mm :
  - 2 ^ 31 <= d < 2 ^ 31 -> zlen m = zlen m0 -> Forall entry_ok es -> b_offs <= p ->
  blob m (zlen m0 - 20) p st es -> zlen m0 - 20 - p <= Z.of_nat n -> (set = true -> cand = d) ->
  retouch_loop n m b_offs (zlen m0 - 20) (zlen m0 - 8) p st (Some d) cand set mm =
    Val (set_words (zlen m0 - 8) d es m, Done (zlen m0 - 20) (match es with [] => cand | _ => d end) mm).
Proof.
  intros Hd. revert n m p st cand set. induction es as [| [off orig] es IH]; intros n m p st cand set Hm Hes Hp Hb Hn Hset.
  - inversion Hb; subst. destruct n; cbn [retouch_loop]; by rewrite Z.ltb_irrefl.
  - inversion Hb as [| ? ? ? ? p' st' ? Hlt Hdec Hb']; subst. apply Forall_cons in Hes as [He Hes].
    destruct n as [| n]; [lia |]. cbn [retouch_loop]. rewrite (proj2 (Z.ltb_lt _ _)) by lia. cbn [negb].
    rewrite Hdec. cbn [mbind outcome_bind]. destruct (entry_pos_ok off orig He) as (H1 & H2 & H3 & ->).
    fold (entry_pos (zlen m0 - 8) off). rewrite store32_put by lia. cbn [mbind outcome_bind].
    rewrite load32_put32 by lia. cbn [mbind outcome_bind].
    rewrite (wrapu_id 32 (u32 _)) by (apply wrapu_range; lia). rewrite this_offset by lia.
    pose proof (decode_next _ _ _ _ _ _ _ Hdec).
    assert (blob (put32 m (entry_pos (zlen m0 - 8) off) (u32 (orig + d))) (zlen m0 - 20) p' st' es) as Hb2.
    { replace (zlen m0 - 20) with (zlen m - 20) by lia. apply (blob_agree m _ b_offs); [| lia | by rewrite Hm].
      replace (tail_of m b_offs) with (tail_of m0 b_offs) by (unfold tail_of; by rewrite Hm).
      apply put32_agree; [lia .. | done]. }
    destruct set; cbn [negb].
    + rewrite Hset, Z.eqb_refl by done. cbn [negb]. rewrite IH; [| | done | lia | done | lia | done].
      * simpl. by destruct es.
      * rewrite zlen_put32; lia.
    + rewrite IH; [| | done | lia | done | lia | done].
      * simpl. by destruct es.
      * rewrite zlen_put32; lia.
Qed.

(** Finding the offset out. *)
Lemma retouch_loop_infer d es n m p st cand set mm :
  - 2 ^ 31 <= d < 2 ^ 31 -> zlen m = zlen m0 -> Forall entry_ok es -> b_offs <= p ->
  blob m (zlen m0 - 20) p st es -> zlen m0 - 20 - p <= Z.of_nat n -> (set = true -> cand = d) ->
  Forall (fun '(off, orig) => load32 m (entry_pos (zlen m0 - 8) off) = Val (u32 (orig + d))) es ->
  retouch_loop n m b_offs (zlen m0 - 20) (zlen m0 - 8) p st None cand set mm =
    Val (m, Done (zlen m0 - 20) (match es with [] => cand | _ => d end) mm).
Proof.
  intros Hd. revert n p st cand set. induction es as [| [off orig] es IH]; intros n p st cand set Hm Hes Hp Hb Hn Hset Hw.
  - inversion Hb; subst. destruct n; cbn [retouch_loop]; by rewrite Z.ltb_irrefl.
  - inversion Hb as [| ? ? ? ? p' st' ? Hlt Hdec Hb']; subst. apply Forall_cons in Hes as [He Hes].
    apply Forall_cons in Hw as [Hw1 Hw].
    destruct n as [| n]; [lia |]. cbn [retouch_loop]. rewrite (proj2 (Z.ltb_lt _ _)) by lia. cbn [negb].
    rewrite Hdec. cbn [mbind outcome_bind]. destruct (entry_pos_ok off orig He) as (_ & _ & _ & ->).
    fold (entry_pos (zlen m0 - 8) off). cbn [mbind outcome_bind]. rewrite Hw1. cbn [mbind outcome_bind].
    rewrite this_offset by lia. pose proof (decode_next _ _ _ _ _ _ _ Hdec).
    destruct set; cbn [negb].
    + rewrite Hset, Z.eqb_refl by done. cbn [negb]. rewrite IH; try done; [| lia ..]. by destruct es.
    + rewrite IH; try done; [| lia ..]. by destruct es.
Qed.

(** The words do not overlap. *)
Definition disjoint_entries (es : list (Z * Z)) : Prop :=
  forall i j e f, i <> j -> es !! i = Some e -> es !! j = Some f ->
    entry_pos (zlen m0 - 8) e.1 + 4 <= entry_pos (zlen m0 - 8) f.1 \/
    entry_pos (zlen m0 - 8) f.1 + 4 <= entry_pos (zlen m0 - 8) e.1.

Lemma load32_agree (P : Z -> Prop) m m' p :
  agree P m m' -> (forall i, p <= i < p + 4 -> P i) -> load32 m p = load32 m' p.
Proof. intros Ha HP. unfold load32. by rewrite (agree_load_bytes P m m' p 4 Ha HP). Qed.

Lemma set_words_other d es m p :
  zlen m = zlen m0 -> Forall entry_ok es ->
  Forall (fun e => entry_pos (zlen m0 - 8) e.1 + 4 <= p \/ p + 4 <= entry_pos (zlen m0 - 8) e.1) es ->
  load32 (set_words (zlen m0 - 8) d es m) p = load32 m p.
Proof.
  intros Hm Hes Hp. revert m Hm. induction Hes as [| [off orig] es He Hes IH]; intros m Hm; [done |].
  apply Forall_cons in Hp as [Hp1 Hp]. simpl in *. destruct (entry_pos_ok off orig He) as (H1 & H2 & _ & _).
  rewrite IH by (done || rewrite zlen_put32; lia). symmetry.
  apply (load32_agree (fun i => p <= i < p + 4)); [| done]. apply put32_agree; lia.
Qed.

Lemma set_words_values d es m :
  zlen m = zlen m0 -> Forall entry_ok es -> disjoint_entries es ->
  Forall (fun '(off, orig) => load32 (set_words (zlen m0 - 8) d es m) (entry_pos (zlen m0 - 8) off) = Val (u32 (orig + d))) es.
Proof.
  intros Hm Hes Hdis. revert m Hm. induction Hes as [| [off orig] es He Hes IH]; intros m Hm; [done |].
  destruct (entry_pos_ok off orig He) as (H1 & H2 & _ & _). apply Forall_cons. split.
  - simpl. rewrite set_words_other; [| by rewrite zlen_put32; lia | done |].
    + rewrite load32_put32 by lia. by rewrite (wrapu_id 32 (u32 _)) by (apply wrapu_range; lia).
    + apply Forall_lookup. intros i e Hi. destruct (Hdis 0%nat (S i) (off, orig) e) as [H | H]; try done; simpl in *; lia.
  - apply IH; [| by rewrite zlen_put32; lia].
    intros i j e f Hij Hi Hj. apply (Hdis (S i) (S j)); [lia | done | done].
Qed.

(** A second masking leaves no trace of the first. *)
Lemma set_words_override d es (Q : Z -> Prop) m m' :
  zlen m = zlen m0 -> Forall entry_ok es -> agree Q m m' ->
  (forall i, 0 <= i -> Q i \/ Exists (fun e => entry_pos (zlen m0 - 8) e.1 <= i < entry_pos (zlen m0 - 8) e.1 + 4) es) ->
  set_words (zlen m0 - 8) d es m = set_words (zlen m0 - 8) d es m'.
Proof.
  intros Hm Hes. revert Q m m' Hm. induction Hes as [| [off orig] es He Hes IH]; intros Q m m' Hm Ha HQ.
  - simpl. apply list_eq. intros i. destruct Ha as [_ Ha]. rewrite <- (Nat2Z.id i). apply Ha; [lia |].
    destruct (HQ (Z.of_nat i)) as [? | []%Exists_nil]; [lia | done].
  - destruct (entry_pos_ok off orig He) as (H1 & H2 & _ & _). simpl.
    eapply IH; [by rewrite zlen_put32; lia | apply agree_put32; [done | lia | exact Ha] |].
    intros i Hi. destruct (HQ i Hi) as [? | [? | ?]%Exists_cons]; auto.
Qed.
End Masking.

(** ** Every input *)

Lemma c_strncmp_total n m1 p1 m2 p2 (Q : Z -> Prop) :
  0 <= p1 -> p1 + Z.of_nat n <= zlen m1 -> 0 <= p2 -> p2 + Z.of_nat n <= zlen m2 -> (forall c, Q c) ->
  wp (c_strncmp n m1 p1 m2 p2) Q.
Proof.
  revert p1 p2. induction n as [| n IH]; intros p1 p2 H1 H2 H3 H4 HQ; [apply HQ |]. cbn [c_strncmp].
  destruct (load_some m1 p1) as [c1 ->]; [lia |]. destruct (load_some m2 p2) as [c2 ->]; [lia |].
  cbn [mbind outcome_bind]. case_match; [apply HQ |]. case_match; [apply HQ |]. apply IH; lia || done.
Qed.

(** The effect of a run: without a desired offset the file is only read; with one, no
    two entries can disagree. *)
Definition run_ok (desired : option Z) (m m' : block) (r : retouched) : Prop :=
  zlen m' = zlen m /\
  match desired with
  | None => m' = m
  | Some _ => match r with Done _ _ mm => mm = false | BadEntry => True end
  end.

Lemma retouch_loop_safe n m b_offs r_offs b_ptr st desired cand set mm :
  r_offs + 20 = zlen m -> zlen m < 2 ^ 31 -> 0 <= b_offs <= b_ptr -> r_offs - b_ptr <= Z.of_nat n ->
  -1 <= offs_prev st -> (b_ptr < r_offs -> offs_prev st < b_offs \/ offs_prev st = 0) ->
  (forall d, desired = Some d -> mm = false /\ (set = true -> cand = i32 d)) ->
  wp (retouch_loop n m b_offs r_offs (r_offs + 12) b_ptr st desired cand set mm) (fun '(m', r) => run_ok desired m m' r).
Proof.
  revert m b_ptr st cand set mm. induction n as [| n IH]; intros m b_ptr st cand set mm Hm Hmax Hb Hn Ho1 Ho2 Hd;
    cbn [retouch_loop]; (destruct (Z.ltb_spec b_ptr r_offs); cbn [negb];
      [| split; [done |]; destruct desired as [d |]; [by apply (Hd d) | done]]); [lia |].
  apply wp_bind. eapply wp_mono; [apply decode_in_memory_safe; lia |].
  intros [[[off orig] p'] st'] [Hp' ->].
  destruct (Z.ltb_spec off (-1)); [by destruct desired |]. destruct (Z.leb_spec b_offs off); [by destruct desired |].
  cbn [orb]. set (entry := if off =? -1 then r_offs + 12 else off).
  assert (0 <= entry /\ entry + 4 <= zlen m) as He by (unfold entry; destruct (Z.eqb_spec off (-1)); lia).
  destruct desired as [d |].
  - destruct (Hd d eq_refl) as [-> Hset]. rewrite store32_put by lia. cbn [mbind outcome_bind].
    rewrite load32_put32 by lia. cbn [mbind outcome_bind]. rewrite (wrapu_id 32 (u32 _)) by (apply wrapu_range; lia).
    rewrite wraps_sub_mod by lia. replace (orig + d - orig) with d by lia.
    assert (zlen (put32 m entry (u32 (orig + d))) = zlen m) as Hl by (apply zlen_put32; lia).
    destruct set; cbn [negb]; [rewrite Hset, Z.eqb_refl by done; cbn [negb] |];
      (eapply wp_mono; [apply IH; simpl; try lia; intros d' [= <-]; auto |]);
      intros [m2 r2] [Hz Hr]; (split; [lia | done]).
  - cbn [mbind outcome_bind]. apply wp_bind, wp_load32; [lia .. |]. intros word.
    destruct set; cbn [negb]; (eapply wp_mono; [apply IH; simpl; (lia || done) |]); intros [m2 r2] [Hz Hr]; by subst.
Qed.

Lemma mask_total m desired :
  zlen m < 2 ^ 31 ->
  wp (retouch_mask_data m (zlen m) desired) (fun '(r, m', _) => zlen m' = zlen m /\
    match desired with
    | Some _ => r = RETOUCH_DATA_ERROR \/ r = RETOUCH_DATA_MATCHED
    | None => m' = m
    end).
Proof.
  intros Hm. pose proof (zlen_nonneg m). unfold retouch_mask_data, sizeof_prelink_info_t, sizeof_retouch_info_t.
  rewrite (wraps_id 32 (zlen m - 8)), (wraps_id 32 (_ - 12)) by lia.
  destruct (Z.ltb_spec (zlen m - 8 - 12) 0); [destruct desired; simpl; auto |].
  apply wp_bind, c_strncmp_total; [lia | lia | lia | reflexivity |]. intros c1. apply wp_bind.
  assert (forall Q : Z -> Prop, (forall c, Q c) ->
    wp (if negb (c1 =? 0) then Val 1 else c_strncmp 8 m (zlen m - 8 - 12) (str "RETOUCH ") 0) Q) as Hc.
  { intros Q HQ. case_match; [apply HQ |]. apply c_strncmp_total; [lia | lia | lia | reflexivity | done]. }
  apply Hc. intros c2. clear Hc. destruct (negb (c2 =? 0)); [destruct desired; simpl; auto |].
  apply wp_bind, wp_load32; [lia .. |]. intros bsz. set (b_offs := i32 _).
  pose proof (wraps_range 32 (zlen m - 8 - 12 - bsz) ltac:(lia)).
  destruct (Z.ltb_spec b_offs 0); [destruct desired; simpl; auto |].
  apply wp_bind. replace (zlen m - 8) with (zlen m - 8 - 12 + 12) at 3 by lia. eapply wp_mono.
  - apply (retouch_loop_safe _ m b_offs (zlen m - 8 - 12) b_offs); simpl; lia || done.
  - intros [m' r] [Hz Hr]. destruct r as [| bp cand mm]; [destruct desired; simpl; auto |].
    destruct (_ <? bp); [destruct desired; simpl; auto |].
    destruct desired; [rewrite Hr; simpl; auto |]. destruct mm; simpl; auto.
Qed.

(** ** Well-formed files *)

Lemma tags_match m b_offs es : retouch_image m b_offs es ->
  c_strncmp 4 m (zlen m - 8 + 4) (str "PRE ") 0 = Val 0 /\ c_strncmp 8 m (zlen m - 8 - 12) (str "RETOUCH ") 0 = Val 0.
Proof.
  intros [Hsize _ Hpre Htag _ _ _].
  replace (zlen m - 8 + 4) with (zlen m - 4) by lia. replace (zlen m - 8 - 12) with (zlen m - 20) by lia.
  rewrite !strncmp_memcmp; try (lia || reflexivity).
  - change (Z.of_nat 4) with 4. change (Z.of_nat 8) with 8. rewrite Hpre, Htag. done.
  - change (Z.of_nat 8) with 8. rewrite Htag. by repeat constructor.
  - change (Z.of_nat 4) with 4. rewrite Hpre. by repeat constructor.
Qed.

(** A well-formed file goes to the loop. *)
Lemma mask_image m b_offs es desired m' cand : retouch_image m b_offs es ->
  retouch_loop (Z.to_nat (zlen m - 20)) m b_offs (zlen m - 20) (zlen m - 8) b_offs init_compression_state
    desired (default 0 desired) false false = Val (m', Done (zlen m - 20) cand false) ->
  retouch_mask_data m (zlen m) desired = Val (RETOUCH_DATA_MATCHED, m', Some cand).
Proof.
  intros Hi Hloop. destruct (tags_match _ _ _ Hi) as [E1 E2]. destruct Hi as [Hsize Hoffs _ _ Hbs _ _].
  unfold retouch_mask_data, sizeof_prelink_info_t, sizeof_retouch_info_t.
  rewrite (wraps_id 32 (zlen m - 8)), (wraps_id 32 (_ - 12)) by lia.
  rewrite (proj2 (Z.ltb_ge _ 0)), E1 by lia. cbn [mbind outcome_bind]. simpl negb. cbv iota. rewrite E2.
  cbn [mbind outcome_bind]. simpl negb. cbv iota.
  replace (zlen m - 8 - 12) with (zlen m - 20) by lia. replace (zlen m - 20 + 8) with (zlen m - 12) by lia.
  rewrite Hbs. cbn [mbind outcome_bind]. replace (zlen m - 20 - (zlen m - 20 - b_offs)) with b_offs by lia.
  rewrite wraps_id by lia. rewrite (proj2 (Z.ltb_ge _ 0)), Hloop by lia. cbn [mbind outcome_bind].
  by rewrite Z.ltb_irrefl.
Qed.

Lemma image_entries m b_offs es : retouch_image m b_offs es -> Forall (entry_ok b_offs) es.
Proof. intros Hi. eapply Forall_impl; [apply (ri_entries _ _ _ Hi) |]. by intros [off orig]. Qed.

Lemma mask_set m b_offs es d : retouch_image m b_offs es -> - 2 ^ 31 <= d < 2 ^ 31 ->
  retouch_mask_data m (zlen m) (Some d) = Val (RETOUCH_DATA_MATCHED, set_words (zlen m - 8) d es m, Some d).
Proof.
  intros Hi Hd. pose proof Hi as [Hsize Hoffs _ _ _ Hblob _]. eapply mask_image; [exact Hi |].
  rewrite (retouch_loop_set m b_offs Hsize Hoffs d es); [by destruct es | done | done | by apply (image_entries m) | lia |
    done | lia | done].
Qed.

Lemma image_agree m m' b_offs es :
  agree (tail_of m b_offs) m m' -> retouch_image m b_offs es -> retouch_image m' b_offs es.
Proof.
  intros Ha [Hsize Hoffs Hpre Htag Hbs Hblob Hes]. pose proof Ha as [Hl _].
  split; rewrite <- ?Hl; try done.
  - rewrite <- Hpre. symmetry. apply (agree_slice _ _ _ _ _ Ha); [lia |]. unfold tail_of. lia.
  - rewrite <- Htag. symmetry. apply (agree_slice _ _ _ _ _ Ha); [lia |]. unfold tail_of. lia.
  - rewrite <- Hbs. symmetry. apply (load32_agree _ _ _ _ Ha). unfold tail_of. lia.
  - apply (blob_agree m m' b_offs); done || lia.
Qed.

(** ** Claims *)

(** On every file below 2 GiB, however damaged its trailer, [retouch_mask_data]
    returns without leaving the file; without a desired offset it only reads, and with
    one it answers MATCHED or ERROR, never MISMATCHED. *)
Theorem retouch_mask_data_total m desired :
  zlen m < 2 ^ 31 ->
  wp (retouch_mask_data m (zlen m) desired) (fun '(r, m', _) => zlen m' = zlen m /\
    match desired with
    | Some _ => r = RETOUCH_DATA_ERROR \/ r = RETOUCH_DATA_MATCHED
    | None => m' = m
    end).
Proof. apply mask_total. Qed.

Lemma retouch_mask_data_total_witness :
  wp (retouch_mask_data (replicate 30 0) (zlen (replicate 30 0)) (Some 0)) (fun '(r, m', _) =>
    zlen m' = zlen (replicate 30 0) /\ (r = RETOUCH_DATA_ERROR \/ r = RETOUCH_DATA_MATCHED)).
Proof. apply (retouch_mask_data_total (replicate 30 0) (Some 0)). vm_compute. reflexivity. Defined.

(** C38: retouching a well-formed binary with an offset [d] sets every listed word to its
    original value plus [d], touches nothing else, and can be redone: the result is
    well formed again, a second retouching with any [d'] gives what it would have given
    on the original (so masking with 0 undoes randomisation), and from words that do not
    overlap the offset is found out again. *)
Theorem retouch_mask_data_correct m b_offs es d :
  retouch_image m b_offs es -> - 2 ^ 31 <= d < 2 ^ 31 ->
  exists m', retouch_mask_data m (zlen m) (Some d) = Val (RETOUCH_DATA_MATCHED, m', Some d) /\
    retouch_image m' b_offs es /\
    (forall i, 0 <= i -> outside m es i -> m' !! Z.to_nat i = m !! Z.to_nat i) /\
    (forall d', - 2 ^ 31 <= d' < 2 ^ 31 ->
       retouch_mask_data m' (zlen m') (Some d') = retouch_mask_data m (zlen m) (Some d')) /\
    (disjoint_entries m es ->
       Forall (fun '(off, orig) => load32 m' (entry_pos (zlen m - 8) off) = Val (u32 (orig + d))) es /\
       (es <> [] -> retouch_mask_data m' (zlen m') None = Val (RETOUCH_DATA_MATCHED, m', Some d))).
Proof.
  intros Hi Hd. pose proof (image_entries _ _ _ Hi) as Hes. pose proof Hi as [Hsize Hoffs _ _ _ Hblob _].
  pose proof (set_words_agree m b_offs Hsize Hoffs d es m eq_refl Hes) as Ha.
  set (m' := set_words (zlen m - 8) d es m) in *.
  pose proof (image_agree _ _ _ _ Ha Hi) as Hi'. pose proof Ha as [Hl _].
  exists m'. split_and!; [by apply mask_set with (b_offs := b_offs) | done | | |].
  - intros i Hi0 Hno. symmetry. by apply (set_words_outside m b_offs Hsize Hoffs d es m eq_refl Hes).
  - intros d' Hd'. rewrite (mask_set m b_offs es d' Hi Hd'), (mask_set m' b_offs es d' Hi' Hd'). rewrite <- Hl.
    do 3 f_equal. symmetry.
    apply (set_words_override m b_offs Hsize Hoffs d' es (outside m es)); [done | done | by apply (set_words_outside m b_offs) |].
    intros i Hi0. destruct (decide (Forall (fun e => ~ (entry_pos (zlen m - 8) e.1 <= i < entry_pos (zlen m - 8) e.1 + 4)) es)) as [| Hno]; [by left |]. right.
    unfold outside in Hno. apply not_Forall_Exists in Hno; [| apply _].
    eapply Exists_impl; [exact Hno |]. intros e He. simpl in He. lia.
  - intros Hdis. pose proof (set_words_values m b_offs Hsize Hoffs d es m eq_refl Hes Hdis) as Hw. split; [done |].
    intros Hne. eapply mask_image; [exact Hi' |]. rewrite <- Hl.
    rewrite (retouch_loop_infer m b_offs Hsize Hoffs d es); try done; try lia; [by destruct es |].
    rewrite Hl. apply (ri_blob _ _ _ Hi').
Qed.

(** Two words of data, and entries for them and for the prelink address. *)
Definition demo_image : block :=
  [9; 9; 9; 9; 9; 9; 9; 9] ++
  [0; 0; 0; 0; 0; 0; 0; 16] ++ [128; 1] ++ [63; 255; 255; 255; 0; 0; 0; 5] ++
  str "RETOUCH " ++ [18; 0; 0; 0] ++ [7; 7; 7; 7] ++ str "PRE ".
Definition demo_entries : list (Z * Z) := [(0, 16); (4, 17); (-1, 5)].

Lemma demo_image_ok : retouch_image demo_image 8 demo_entries.
Proof.
  split.
  - vm_compute. split; congruence.
  - vm_compute. split; congruence.
  - reflexivity.
  - reflexivity.
  - reflexivity.
  - change (zlen demo_image - 20) with 26.
    apply (blob_entry _ _ 8 _ 0 16 16 (mkCodec 0 16)); [done | reflexivity |].
    apply (blob_entry _ _ 16 _ 4 17 18 (mkCodec 4 17)); [done | reflexivity |].
    apply (blob_entry _ _ 18 _ (-1) 5 26 (mkCodec (-1) 5)); [done | reflexivity |]. constructor.
  - repeat constructor; simpl; lia.
Qed.

Lemma demo_disjoint : disjoint_entries demo_image demo_entries.
Proof.
  unfold disjoint_entries. change (zlen demo_image - 8) with 38. intros i j e f Hij He Hf.
  destruct i as [| [| [| i]]], j as [| [| [| j]]]; simpl in He, Hf; try congruence;
    simplify_eq; unfold entry_pos; simpl; lia.
Qed.

Lemma retouch_mask_data_correct_witness : exists m',
  retouch_mask_data demo_image (zlen demo_image) (Some 4096) = Val (RETOUCH_DATA_MATCHED, m', Some 4096) /\
  (forall d', - 2 ^ 31 <= d' < 2 ^ 31 ->
     retouch_mask_data m' (zlen m') (Some d') = retouch_mask_data demo_image (zlen demo_image) (Some d')) /\
  retouch_mask_data m' (zlen m') None = Val (RETOUCH_DATA_MATCHED, m', Some 4096).
Proof.
  destruct (retouch_mask_data_correct demo_image 8 demo_entries 4096 demo_image_ok) as (m' & H1 & _ & _ & H4 & H5);
    [lia |].
  exists m'. split; [exact H1 |]. split; [exact H4 |]. apply H5; [exact demo_disjoint | discriminate].
Defined.
