(* ===== verification/Sys.v ===== *)
(** * The operating system as the patch programs see it

    A system state is the regular files, the block devices and the flash partitions;
    [past] keeps every earlier state of the first two, in order: what a power failure
    could have left.  Each system call consumes one tick; its chance outcome (an error, a
    short count, the free space, a directory listing) is an answer of the environment
    [env] at that tick, on which nothing is assumed.  Changes reach the disk in the order
    of the calls.  The flash driver mtdutils is used through the interface [mtd_api]. *)

From stdpp Require Import base numbers list gmap.
From S2P Require Import Prelude.

Abbreviation path := block.

Record inode := mkFile { f_data : block; f_mode : Z; f_uid : Z; f_gid : Z }.

#[global] Instance inode_eq_dec : EqDecision inode.
Proof. solve_decision. Defined.

(** mtdutils.h: partitions, and contexts for reading and writing one of them. *)
Class mtd_api := {
  mtd_state : Type;
  mtd_partition : Type;
  mtd_reading : Type;
  mtd_writing : Type;
  mtd_scan_partitions : mtd_state -> outcome (Z * mtd_state);
  mtd_find_partition_by_name : mtd_state -> block -> option mtd_partition;
  mtd_read_partition : mtd_partition -> mtd_state -> option mtd_reading * mtd_state;
  mtd_read_data : mtd_reading -> Z -> mtd_state -> outcome (Z * block * mtd_reading * mtd_state);
  mtd_read_close : mtd_reading -> mtd_state -> mtd_state;
  mtd_write_partition : mtd_partition -> mtd_state -> option mtd_writing * mtd_state;
  mtd_write_data : mtd_writing -> block -> mtd_state -> outcome (Z * mtd_writing * mtd_state);
  mtd_erase_blocks : mtd_writing -> Z -> mtd_state -> outcome (Z * mtd_writing * mtd_state);
  mtd_write_close : mtd_writing -> mtd_state -> outcome (Z * mtd_state);
  (** the result, and the device that is mounted now *)
  mtd_mount_partition : mtd_partition -> block -> block -> bool -> mtd_state -> Z * option block * mtd_state
}.

(** The environment's answers.  [e_answer]: negative for an error; [e_listing]: the names
    a directory scan gives, unless opendir fails; [e_link]: the target of a symbolic link,
    unless readlink fails; [e_settle]: what a device really holds after its caches were
    dropped. *)
Record env := mkEnv {
  e_answer : nat -> Z;
  e_listing : nat -> option (list block);
  e_link : nat -> option block;
  e_settle : nat -> block -> block
}.

(** What survives a power failure: the regular files and the devices. *)
Abbreviation disk := (gmap path inode * gmap path block)%type.

Section Sys.
Context `{mtd_api} (E : env).

Record sys := mkSys {
  files : gmap path inode;
  disks : gmap path block;
  mtd : mtd_state;
  mtd_partitions_scanned : bool;
  tick : nat;
  past : list (gmap path inode * gmap path block)
}.

(** *** Ticks and changes *)

Definition tock (s : sys) : sys :=
  mkSys (files s) (disks s) (mtd s) (mtd_partitions_scanned s) (S (tick s)) (past s).
Definition answer (s : sys) : Z * sys := (e_answer E (tick s), tock s).
Definition set_files (fs : gmap path inode) (s : sys) : sys :=
  mkSys fs (disks s) (mtd s) (mtd_partitions_scanned s) (tick s) (past s ++ [(files s, disks s)]).
Definition set_disks (ds : gmap path block) (s : sys) : sys :=
  mkSys (files s) ds (mtd s) (mtd_partitions_scanned s) (tick s) (past s ++ [(files s, disks s)]).
Definition set_mtd (m : mtd_state) (s : sys) : sys :=
  mkSys (files s) (disks s) m (mtd_partitions_scanned s) (tick s) (past s).
Definition set_scanned (s : sys) : sys :=
  mkSys (files s) (disks s) (mtd s) true (tick s) (past s).

(** *** Regular files *)

Definition sys_stat (p : path) (s : sys) : option inode * sys :=
  let '(a, s) := answer s in (if a <? 0 then None else files s !! p, s).

(** fopen for reading and one fread of [n] bytes: the bytes, unless fopen fails. *)
Definition sys_fopen (p : path) (s : sys) : option block * sys :=
  let '(a, s) := answer s in (if a <? 0 then None else f_data <$> files s !! p, s).
Definition sys_fread (contents : block) (n : Z) (s : sys) : block * sys :=
  let '(a, s) := answer s in (if a <? 0 then [] else take (Z.to_nat n) contents, s).

(** open with O_WRONLY, O_CREAT, O_TRUNC and mode 0600: the file that is written to. *)
Definition sys_open_trunc (p : path) (s : sys) : option path * sys :=
  let '(a, s) := answer s in
  if a <? 0 then (None, s)
  else (Some p, set_files (<[p := match files s !! p with
                                  | Some f => mkFile [] (f_mode f) (f_uid f) (f_gid f)
                                  | None => mkFile [] 384 0 0
                                  end]> (files s)) s).

(** write at the end of an open file: the count or -1. *)
Definition sys_write (p : path) (data : block) (s : sys) : Z * sys :=
  let '(a, s) := answer s in
  if a <? 0 then (-1, s)
  else
    let n := Z.min a (zlen data) in
    (n, match files s !! p with
        | Some f => set_files (<[p := mkFile (f_data f ++ take (Z.to_nat n) data) (f_mode f) (f_uid f) (f_gid f)]> (files s)) s
        | None => s
        end).

Definition sys_chmod (p : path) (mode : Z) (s : sys) : Z * sys :=
  let '(a, s) := answer s in
  match (if a <? 0 then None else files s !! p) with
  | Some f => (0, set_files (<[p := mkFile (f_data f) mode (f_uid f) (f_gid f)]> (files s)) s)
  | None => (-1, s)
  end.

Definition sys_chown (p : path) (uid gid : Z) (s : sys) : Z * sys :=
  let '(a, s) := answer s in
  match (if a <? 0 then None else files s !! p) with
  | Some f => (0, set_files (<[p := mkFile (f_data f) (f_mode f) uid gid]> (files s)) s)
  | None => (-1, s)
  end.

Definition sys_unlink (p : path) (s : sys) : Z * sys :=
  let '(a, s) := answer s in
  match (if a <? 0 then None else files s !! p) with
  | Some _ => (0, set_files (delete p (files s)) s)
  | None => (-1, s)
  end.

Definition sys_rename (p q : path) (s : sys) : Z * sys :=
  let '(a, s) := answer s in
  match (if a <? 0 then None else files s !! p) with
  | Some f => (0, set_files (<[q := f]> (delete p (files s))) s)
  | None => (-1, s)
  end.

(** statfs: the bytes free, unless it fails. *)
Definition sys_statfs (s : sys) : option Z * sys :=
  let '(a, s) := answer s in (if a <? 0 then None else Some a, s).

(** opendir and the whole scan; readlink. *)
Definition sys_listing (s : sys) : option (list block) * sys := (e_listing E (tick s), tock s).
Definition sys_readlink (s : sys) : option block * sys := (e_link E (tick s), tock s).

(** *** Block devices, which have a fixed size *)

Inductive io_result := IoCount (n : Z) | IoInterrupted | IoError.

Definition io_answer (a : Z) (n : Z) : io_result :=
  if a =? -1 then IoInterrupted else if a <? 0 then IoError else IoCount (Z.min a n).

Definition sys_dev_write (p : path) (offset : Z) (data : block) (s : sys) : io_result * sys :=
  let '(a, s) := answer s in
  match disks s !! p with
  | None => (IoError, s)
  | Some d =>
      if zlen d <=? offset then (IoError, s) else  (** ENOSPC *)
      match io_answer a (Z.min (zlen data) (zlen d - offset)) with
      | IoCount n =>
          (IoCount n, set_disks (<[p := take (Z.to_nat offset) d ++ take (Z.to_nat n) data ++
                                        drop (Z.to_nat offset + Z.to_nat n) d]> (disks s)) s)
      | r => (r, s)
      end
  end.

Definition sys_dev_read (p : path) (offset n : Z) (s : sys) : io_result * block * sys :=
  let '(a, s) := answer s in
  match disks s !! p with
  | None => (IoError, [], s)
  | Some d =>
      match io_answer a (Z.max 0 (Z.min n (zlen d - offset))) with
      | IoCount k => (IoCount k, slice d offset k, s)
      | r => (r, [], s)
      end
  end.

(** Syncing and dropping the caches shows what the device really holds. *)
Definition sys_drop_caches (p : path) (s : sys) : sys :=
  match disks s !! p with
  | None => tock s
  | Some d => tock (set_disks (<[p := e_settle E (tick s) d]> (disks s)) s)
  end.

(** ** Histories *)

Definition now (s : sys) : disk := (files s, disks s).
Definition history (s : sys) : list disk := past s ++ [now s].

(** From [s] to [s'] the disks only pass through states in which [P] holds. *)
Definition evolves (P : disk -> Prop) (s s' : sys) : Prop :=
  exists l, history s' = history s ++ l /\ Forall P l.

Lemma evolves_refl P s : evolves P s s.
Proof. exists []. split; [by rewrite app_nil_r | done]. Qed.

Lemma evolves_trans P s1 s2 s3 : evolves P s1 s2 -> evolves P s2 s3 -> evolves P s1 s3.
Proof.
  intros (l1 & E1 & H1) (l2 & E2 & H2). exists (l1 ++ l2). rewrite E2, E1, app_assoc. split; [done |].
  by apply Forall_app.
Qed.

Lemma evolves_mono (P Q : disk -> Prop) s s' : evolves P s s' -> (forall d, P d -> Q d) -> evolves Q s s'.
Proof. intros (l & E1 & H1) HPQ. exists l. split; [done |]. by eapply Forall_impl. Qed.

Lemma evolves_same P s s' : history s' = history s -> evolves P s s'.
Proof. intros Eh. exists []. by rewrite app_nil_r. Qed.

Lemma evolves_set_files (P : disk -> Prop) fs s : P (fs, disks s) -> evolves P s (set_files fs s).
Proof. intros HP. exists [(fs, disks s)]. split; [done |]. by repeat constructor. Qed.

Lemma evolves_set_disks (P : disk -> Prop) ds s : P (files s, ds) -> evolves P s (set_disks ds s).
Proof. intros HP. exists [(files s, ds)]. split; [done |]. by repeat constructor. Qed.

Lemma evolves_tock P s s' : evolves P (tock s) s' -> evolves P s s'.
Proof. done. Qed.

(** The last state is one of those passed through, or nothing changed. *)
Lemma evolves_now (P : disk -> Prop) s s' : P (now s) -> evolves P s s' -> P (now s').
Proof.
  intros Hs (l & E1 & H1). unfold history in E1. destruct l as [| d l] using rev_ind.
  - rewrite app_nil_r in E1. apply app_inj_tail in E1 as [_ E1]. by rewrite E1.
  - rewrite app_assoc in E1. apply app_inj_tail in E1 as [_ ->]. by apply Forall_app in H1 as [_ [? _]%Forall_cons].
Qed.
End Sys.
Arguments evolves {_} P s s'.

Create HintDb evolves.
#[global] Hint Resolve evolves_refl : evolves.
