(* ===== verification/FreeCache.v ===== *)
(** * applypatch/freecache.c: making room on the cache partition

    [MakeFreeSpaceOnCache] deletes regular files of two directories until enough bytes
    are free.  Directory scans, /proc and readlink give what the environment answers; the
    array of names grows as needed.  [FreeSpaceForFile] of applypatch.c is here because
    both files use it. *)

From stdpp Require Import base numbers list gmap.
From stdpp Require Import strings.
From S2P Require Import Prelude CString Sys.

Section FreeCache.
Context `{Arch} `{mtd_api} (E : env).

Definition CACHE_TEMP_SOURCE : path := str "/cache/saved.file".

(** [statfs] of an existing name; -1 as a [size_t] on error. *)
Definition FreeSpaceForFile (s : sys) : Z * sys :=
  let '(r, s) := sys_statfs E s in
  match r with
  | None => (wrapu word_bits (-1), s)
  | Some n => (wrapu word_bits n, s)
  end.

Definition isdigit (c : Z) : bool := (48 <=? c) && (c <=? 57).
Definition starts_with (p s : block) : bool := bool_decide (take (length p) s = p).

(** The names equal to [link] become NULL. *)
Definition forget (link : path) (names : list (option path)) : list (option path) :=
  (fun n => match n with Some f => if bool_decide (f = link) then None else n | None => None end) <$> names.

(** One process's open descriptors. *)
Fixpoint fd_loop (fds : list block) (names : list (option path)) (s : sys) : list (option path) * sys :=
  match fds with
  | [] => (names, s)
  | _ :: fds =>
      let '(link, s) := sys_readlink E s in
      let names := match link with
                   | Some link => if starts_with (str "/cache/") link then forget link names else names
                   | None => names
                   end in
      fd_loop fds names s
  end.

Fixpoint proc_loop (procs : list block) (names : list (option path)) (s : sys) : list (option path) * sys :=
  match procs with
  | [] => (names, s)
  | name :: procs =>
      if negb (forallb isdigit name) then proc_loop procs names s else
      let '(fds, s) := sys_listing E s in
      match fds with
      | None => proc_loop procs names s
      | Some fds => let '(names, s) := fd_loop fds names s in proc_loop procs names s
      end
  end.

(** [None] stands for the result -1. *)
Definition EliminateOpenFiles (names : list (option path)) (s : sys) : option (list (option path)) * sys :=
  let '(procs, s) := sys_listing E s in
  match procs with
  | None => (None, s)
  | Some procs => let '(names, s) := proc_loop procs names s in (Some names, s)
  end.

Fixpoint expendable_in (dir : path) (entries : list block) (names : list path) (s : sys) : list path * sys :=
  match entries with
  | [] => (names, s)
  | d_name :: entries =>
      let p := dir ++ str "/" ++ d_name in
      if bool_decide (p = CACHE_TEMP_SOURCE) then expendable_in dir entries names s else
      let '(st, s) := sys_stat E p s in
      match st with
      | Some _ => expendable_in dir entries (names ++ [p]) s
      | None => expendable_in dir entries names s
      end
  end.

Definition expendable_dirs : list path := [str "/cache"; str "/cache/recovery/otatest"].

Fixpoint expendable_loop (dirs : list path) (names : list path) (s : sys) : list path * sys :=
  match dirs with
  | [] => (names, s)
  | dir :: dirs =>
      let '(entries, s) := sys_listing E s in
      match entries with
      | None => expendable_loop dirs names s
      | Some entries => let '(names, s) := expendable_in dir entries names s in expendable_loop dirs names s
      end
  end.

Definition FindExpendableFiles (s : sys) : option (list (option path)) * sys :=
  let '(names, s) := expendable_loop expendable_dirs [] s in
  EliminateOpenFiles (Some <$> names) s.

(** Delete files until enough is free: what is free at the end. *)
Fixpoint delete_loop (names : list (option path)) (free_now bytes_needed : Z) (s : sys) : Z * sys :=
  match names with
  | [] => (free_now, s)
  | n :: names =>
      if bytes_needed <=? free_now then (free_now, s) else
      match n with
      | None => delete_loop names free_now bytes_needed s
      | Some p =>
          let '(_, s) := sys_unlink E p s in
          let '(free_now, s) := FreeSpaceForFile s in
          delete_loop names free_now bytes_needed s
      end
  end.

Definition MakeFreeSpaceOnCache (bytes_needed : Z) (s : sys) : Z * sys :=
  let '(free_now, s) := FreeSpaceForFile s in
  if bytes_needed <=? free_now then (0, s) else
  let '(names, s) := FindExpendableFiles s in
  match names with
  | None => (-1, s)
  | Some names =>
      if bool_decide (names = []) then (-1, s) else
      let '(free_now, s) := delete_loop names free_now bytes_needed s in
      (if bytes_needed <=? free_now then 0 else -1, s)
  end.
End FreeCache.

(** ** What may be deleted *)

(** The saved source, and everything outside the two directories. *)
Definition protected (p : path) : Prop :=
  p = CACHE_TEMP_SOURCE \/ forall dir name, dir ∈ expendable_dirs -> p <> dir ++ str "/" ++ name.

Section Safety.
Context `{Arch} `{mtd_api} (E : env).

(** The rest of the system, and the protected files, are as in [s0]. *)
Definition kept (s0 : sys) (d : disk) : Prop :=
  d.2 = disks s0 /\ forall p, protected p -> d.1 !! p = files s0 !! p.

(** A call that changes nothing. *)
Definition quiet (s s' : sys) : Prop :=
  files s' = files s /\ disks s' = disks s /\ past s' = past s /\ mtd s' = mtd s /\
  mtd_partitions_scanned s' = mtd_partitions_scanned s.

Lemma quiet_refl s : quiet s s.
Proof. done. Qed.
Lemma quiet_trans s1 s2 s3 : quiet s1 s2 -> quiet s2 s3 -> quiet s1 s3.
Proof. unfold quiet. naive_solver congruence. Qed.
Lemma quiet_tock s s' : quiet (tock s) s' -> quiet s s'.
Proof. done. Qed.

Lemma fd_loop_quiet fds names s : quiet s (fd_loop E fds names s).2.
Proof. revert names s. induction fds as [| f fds IH]; intros names s; [apply quiet_refl |]. apply quiet_tock, IH. Qed.

Lemma proc_loop_quiet procs names s : quiet s (proc_loop E procs names s).2.
Proof.
  revert names s. induction procs as [| n procs IH]; intros names s; [apply quiet_refl |]. cbn [proc_loop sys_listing].
  destruct (negb _); [apply IH |]. destruct (e_listing E (tick s)) as [fds |]; [| apply quiet_tock, IH].
  pose proof (fd_loop_quiet fds names (tock s)) as Hq. destruct (fd_loop E fds names (tock s)) as [names1 s1]. simpl in Hq.
  eapply quiet_trans; [exact Hq | apply IH].
Qed.

Lemma expendable_in_quiet dir es names s : quiet s (expendable_in E dir es names s).2.
Proof.
  revert names s. induction es as [| n es IH]; intros names s; [apply quiet_refl |]. cbn [expendable_in].
  case_bool_decide; [apply IH |]. unfold sys_stat, answer. cbv zeta iota.
  destruct (if _ <? 0 then None else _); apply quiet_tock, IH.
Qed.

Lemma expendable_in_names dir es names s :
  Forall (fun p => p <> CACHE_TEMP_SOURCE /\ exists d n, d ∈ expendable_dirs /\ p = d ++ str "/" ++ n) names ->
  dir ∈ expendable_dirs ->
  Forall (fun p => p <> CACHE_TEMP_SOURCE /\ exists d n, d ∈ expendable_dirs /\ p = d ++ str "/" ++ n)
    (expendable_in E dir es names s).1.
Proof.
  intros Hn Hd. revert names s Hn. induction es as [| n es IH]; intros names s Hn; [done |]. cbn [expendable_in].
  case_bool_decide; [by apply IH |]. unfold sys_stat, answer. cbv zeta iota.
  destruct (if _ <? 0 then None else _); apply IH; [| done].
  apply Forall_app. split; [done |]. apply Forall_singleton. split; [done |]. by exists dir, n.
Qed.

Lemma expendable_loop_spec dirs names s :
  Forall (fun p => p <> CACHE_TEMP_SOURCE /\ exists d n, d ∈ expendable_dirs /\ p = d ++ str "/" ++ n) names ->
  (forall d, d ∈ dirs -> d ∈ expendable_dirs) ->
  quiet s (expendable_loop E dirs names s).2 /\ Forall (fun p => ~ protected p) (expendable_loop E dirs names s).1.
Proof.
  revert names s. induction dirs as [| d dirs IH]; intros names s Hn Hd.
  - split; [apply quiet_refl |]. eapply Forall_impl; [exact Hn |].
    intros p (Hp & d & n & Hin & ->) [? | Hno]; [done |]. by apply (Hno d n).
  - cbn [expendable_loop sys_listing]. destruct (e_listing E (tick s)) as [es |].
    + pose proof (expendable_in_quiet d es names (tock s)) as Hq.
      pose proof (expendable_in_names d es names (tock s) Hn ltac:(apply Hd; left)) as Hn'.
      destruct (expendable_in E d es names (tock s)) as [names1 s1]. simpl in *.
      destruct (IH names1 s1 Hn') as [Hq2 Hf]; [intros; apply Hd; by right |].
      split; [by eapply quiet_trans | done].
    + destruct (IH names (tock s) Hn) as [Hq2 Hf]; [intros; apply Hd; by right |]. by split.
Qed.

(** Names are only ever taken off the list. *)
Definition harmless (names : list (option path)) : Prop := Forall (fun n => forall p, n = Some p -> ~ protected p) names.

Lemma forget_harmless link names : harmless names -> harmless (forget link names).
Proof.
  unfold harmless, forget. intros Hn. apply Forall_fmap. eapply Forall_impl; [exact Hn |].
  intros [f |] Hf p; simpl; [case_bool_decide; [done |] |]; apply Hf.
Qed.

Lemma fd_loop_harmless fds names s : harmless names -> harmless (fd_loop E fds names s).1.
Proof.
  revert names s. induction fds as [| f fds IH]; intros names s Hn; [done |]. cbn [fd_loop sys_readlink].
  apply IH. destruct (e_link E (tick s)); [| done]. destruct (starts_with _ _); [by apply forget_harmless | done].
Qed.

Lemma proc_loop_harmless procs names s : harmless names -> harmless (proc_loop E procs names s).1.
Proof.
  revert names s. induction procs as [| n procs IH]; intros names s Hn; [done |]. cbn [proc_loop sys_listing].
  destruct (negb _); [by apply IH |]. destruct (e_listing E (tick s)) as [fds |]; [| by apply IH].
  pose proof (fd_loop_harmless fds names (tock s) Hn) as Hf. destruct (fd_loop E fds names (tock s)). by apply IH.
Qed.

Lemma FindExpendableFiles_spec s :
  quiet s (FindExpendableFiles E s).2 /\
  match (FindExpendableFiles E s).1 with Some names => harmless names | None => True end.
Proof.
  unfold FindExpendableFiles. destruct (expendable_loop_spec expendable_dirs [] s) as [Hq Hf]; [done | done |].
  destruct (expendable_loop E expendable_dirs [] s) as [names s1]. simpl in *.
  unfold EliminateOpenFiles, sys_listing. destruct (e_listing E (tick s1)) as [procs |]; [| done].
  pose proof (proc_loop_quiet procs (Some <$> names) (tock s1)) as Hq2.
  assert (harmless (Some <$> names)) as Hn.
  { apply Forall_fmap. eapply Forall_impl; [exact Hf |]. by intros p Hp q [= <-]. }
  pose proof (proc_loop_harmless procs _ (tock s1) Hn) as Hh.
  destruct (proc_loop E procs (Some <$> names) (tock s1)) as [names2 s2]. simpl in *.
  split; [by eapply quiet_trans | done].
Qed.

Lemma unlink_kept s0 p s : ~ protected p -> kept s0 (now s) ->
  let s' := (sys_unlink E p s).2 in evolves (kept s0) s s' /\ kept s0 (now s') /\ mtd s' = mtd s.
Proof.
  intros Hp [Hd Hf]. unfold sys_unlink, answer. cbv zeta iota. set (a := e_answer E (tick s)).
  destruct (if a <? 0 then None else files (tock s) !! p); [| by split; [apply evolves_same |]].
  assert (kept s0 (delete p (files s), disks s)) as Hk.
  { split; [done |]. intros q Hq. simpl. rewrite lookup_delete_ne by (intros ->; done). by apply Hf. }
  split; [| done]. apply evolves_tock. by apply evolves_set_files.
Qed.

(** The last call asked how much is free, and this was the answer. *)
Definition measured (s : sys) (free_now : Z) : Prop :=
  (0 < tick s)%nat /\ free_now = wrapu word_bits (let a := e_answer E (tick s - 1) in if a <? 0 then -1 else a).

Lemma FreeSpaceForFile_spec s : let '(free, s') := FreeSpaceForFile E s in s' = tock s /\ measured s' free.
Proof.
  unfold FreeSpaceForFile, sys_statfs, answer, measured. cbv zeta iota.
  destruct (e_answer E (tick s) <? 0) eqn:Ea; (split; [done |]); cbn [tick tock];
    rewrite Nat.sub_succ, Nat.sub_0_r, Ea; (split; [lia | done]).
Qed.

Lemma delete_loop_spec s0 names free need s :
  harmless names -> kept s0 (now s) -> (need <= free -> measured s free) ->
  let '(free', s') := delete_loop E names free need s in
  evolves (kept s0) s s' /\ mtd s' = mtd s /\ (need <= free' -> measured s' free').
Proof.
  revert free s. induction names as [| n names IH]; intros free s Hn Hk Hm; cbn [delete_loop].
  { by split; [apply evolves_refl |]. }
  destruct (Z.leb_spec need free); [by split; [apply evolves_refl |]; auto |].
  apply Forall_cons in Hn as [Hp Hn]. destruct n as [p |]; [| by apply IH].
  destruct (unlink_kept s0 p s (Hp p eq_refl) Hk) as (He & Hk1 & Hmtd).
  destruct (sys_unlink E p s) as [r s1]. simpl in He, Hk1, Hmtd.
  pose proof (FreeSpaceForFile_spec s1) as Hfs. destruct (FreeSpaceForFile E s1) as [free1 s2]. destruct Hfs as [-> Hm1].
  specialize (IH free1 (tock s1) Hn Hk1 (fun _ => Hm1)).
  destruct (delete_loop E names free1 need (tock s1)) as [free' s']. destruct IH as (G1 & G2 & G3).
  split_and!; [by eapply evolves_trans | by rewrite G2 | done].
Qed.

Lemma quiet_evolves P s s' : quiet s s' -> evolves P s s'.
Proof. intros (Q1 & Q2 & Q3 & _). apply evolves_same. unfold history, now. congruence. Qed.

Lemma make_free_space need s :
  let '(r, s') := MakeFreeSpaceOnCache E need s in
  evolves (kept s) s s' /\ mtd s' = mtd s /\ (r = 0 \/ r = -1) /\
  (r = 0 -> exists free, measured s' free /\ need <= free).
Proof.
  unfold MakeFreeSpaceOnCache. pose proof (FreeSpaceForFile_spec s) as Hfs.
  destruct (FreeSpaceForFile E s) as [free s1]. destruct Hfs as [-> Hm].
  destruct (Z.leb_spec need free).
  { split_and!; [by apply evolves_same | done | by left | by exists free]. }
  destruct (FindExpendableFiles_spec (tock s)) as [Hq Hh].
  destruct (FindExpendableFiles E (tock s)) as [[names |] s2]; simpl in Hq, Hh.
  2: { split_and!; [apply evolves_tock; by apply quiet_evolves | apply Hq | by right | done]. }
  case_bool_decide.
  { split_and!; [apply evolves_tock; by apply quiet_evolves | apply Hq | by right | done]. }
  assert (kept s (now s2)) as Hk by (destruct Hq as (Q1 & Q2 & _); split; simpl in *; congruence).
  pose proof (delete_loop_spec s names free need s2 Hh Hk ltac:(lia)) as Hd.
  destruct (delete_loop E names free need s2) as [free' s']. destruct Hd as (G1 & G2 & G3).
  assert (evolves (kept s) s s') by (apply evolves_tock; eapply evolves_trans; [by apply quiet_evolves | done]).
  assert (mtd s' = mtd s) by (rewrite G2; apply Hq).
  destruct (Z.leb_spec need free'); split_and!; try done; [by left | | by right].
  intros _. exists free'. auto.
Qed.
End Safety.

(** ** Claim *)


(** A failed statfs counts as room without end: [FreeSpaceForFile] returns -1, which is
    the largest [size_t]. *)
Lemma failed_statfs_is_enough `{Arch} `{mtd_api} (E : env) need s :
  e_answer E (tick s) < 0 -> need < 2 ^ word_bits -> MakeFreeSpaceOnCache E need s = (0, tock s).
Proof.
  intros Ha Hn. unfold MakeFreeSpaceOnCache, FreeSpaceForFile, sys_statfs, answer. cbv zeta iota.
  rewrite (proj2 (Z.ltb_lt _ 0)) by done. cbv iota.
  assert (wrapu word_bits (-1) = 2 ^ word_bits - 1) as -> by (by destruct word_bits_ok as [-> | ->]).
  by rewrite (proj2 (Z.leb_le _ _)) by lia.
Qed.
