(* ===== verification/DirUtil.v ===== *)
(** * Creating and deleting directory hierarchies (minzip/DirUtil.c)

    The two functions use the file system through the interface [dir_api], one operation
    per system call; the updater has its own instance.  Here the instance [tree_api], a
    file system as a map from component lists, in which any call may fail, shows that
    [dirUnlinkHierarchy] deletes exactly what is at and below its path and that
    [dirCreateHierarchy] creates exactly the missing directories. *)

From stdpp Require Import base numbers list gmap.
From stdpp Require Import strings.
From S2P Require Import Prelude CString CTokens Sys.

(** ** Data *)

Inductive DirStatus := DMISSING | DDIR | DILLEGAL.

(** What stat and lstat find: a directory, something else, ENOENT, another error. *)
Inductive stat_result := IsDir | NotDir | NoEntry | StatError.

#[global] Instance stat_result_eq_dec : EqDecision stat_result.
Proof. solve_decision. Defined.

Definition PATH_MAX : Z := 4096.

(** The calls; counts and errors as in C.  [d_opendir] gives the names that readdir will
    return; [d_selabel] is the context that selabel_lookup finds, null when it fails. *)
Class dir_api (W : Type) := {
  d_stat : path -> W -> stat_result * W;
  d_lstat : path -> W -> stat_result * W;
  d_unlink : path -> W -> Z * W;
  d_rmdir : path -> W -> Z * W;
  d_mkdir : path -> Z -> W -> Z * W;
  d_utime : path -> W -> Z * W;
  d_opendir : path -> W -> option (list block) * W;
  d_closedir : W -> Z * W;
  d_selabel : path -> Z -> W -> option block * W;
  d_setfscreatecon : option block -> W -> W;
  d_malloc : Z -> W -> option block * W
}.

(** ** The program *)

Section Program.
Context `{dir_api W}.

Definition getPathDirStatus (p : path) (w : W) : DirStatus * W :=
  let '(st, w) := d_stat p w in
  (match st with IsDir => DDIR | NotDir | StatError => DILLEGAL | NoEntry => DMISSING end, w).

(** From [c] back to a slash or to the start. *)
Fixpoint back_to_slash (n : nat) (cpath : block) (c : Z) : outcome Z :=
  if c =? 0 then Val 0 else
  let* x := load cpath c in
  if x =? 47 then Val c else
  match n with O => Trap NoFuel | S n => back_to_slash n cpath (c - 1) end.

(** From [p] on past the slashes, and to the next slash. *)
Fixpoint skip_slashes (n : nat) (cpath : block) (p : Z) : outcome Z :=
  let* x := load cpath p in
  if (x =? 0) || negb (x =? 47) then Val p else
  match n with O => Trap NoFuel | S n => skip_slashes n cpath (p + 1) end.
Fixpoint to_slash (n : nat) (cpath : block) (p : Z) : outcome Z :=
  let* x := load cpath p in
  if x =? 47 then Val p else
  match n with O => Trap NoFuel | S n => to_slash n cpath (p + 1) end.

(** A missing level: whether it could be made. *)
Definition make_level (level : path) (mode : Z) (timestamp sehnd : bool) (w : W) : bool * W :=
  let '(secontext, w) :=
    if sehnd then
      let '(secontext, w) := d_selabel level mode w in (secontext, d_setfscreatecon secontext w)
    else (None, w) in
  let '(err, w) := d_mkdir level mode w in
  let w := match secontext with Some _ => d_setfscreatecon None w | None => w end in
  if negb (err =? 0) then (false, w) else
  if timestamp then let '(r, w) := d_utime level w in (r =? 0, w) else (true, w).

Fixpoint walk (n : nat) (cpath : block) (p mode : Z) (timestamp sehnd : bool) (w : W) : outcome (Z * W) :=
  match n with
  | O => Trap NoFuel
  | S n =>
      let* x := load cpath p in
      if x =? 0 then Val (0, w) else
      let* p := skip_slashes (length cpath) cpath p in
      let* x := load cpath p in
      if x =? 0 then Val (0, w) else
      let* p := to_slash (length cpath) cpath p in
      let* cpath := store cpath p 0 in
      let* level := c_str cpath in
      let '(ds, w) := getPathDirStatus level w in
      match ds with
      | DILLEGAL => Val (-1, w)
      | DMISSING =>
          let '(ok, w) := make_level level mode timestamp sehnd w in
          if negb ok then Val (-1, w)
          else let* cpath := store cpath p 47 in walk n cpath p mode timestamp sehnd w
      | DDIR => let* cpath := store cpath p 47 in walk n cpath p mode timestamp sehnd w
      end
  end.

(** The copy of the path: cut after its last slash, or with a slash added. *)
Definition make_cpath (cpath : block) (p : path) (stripFileName : bool) : outcome (option block) :=
  let pathLen := zlen p in
  let* cpath := store_bytes cpath 0 p in
  if stripFileName then
    let* c := back_to_slash (length p) cpath (pathLen - 1) in
    if c =? 0 then Val None else let* cpath := store cpath (c + 1) 0 in Val (Some cpath)
  else
    let* cpath := store cpath pathLen 47 in
    let* cpath := store cpath (pathLen + 1) 0 in
    Val (Some cpath).

Definition dirCreateHierarchy (p : path) (mode : Z) (timestamp stripFileName sehnd : bool) (w : W) : outcome (Z * W) :=
  match p with
  | [] => Val (-1, w)
  | _ =>
      let '(cpath, w) := d_malloc (zlen p + 2) w in
      match cpath with
      | None => Val (-1, w)
      | Some cpath =>
          let* cpath := make_cpath cpath p stripFileName in
          match cpath with
          | None => Val (-1, w)
          | Some cpath =>
              let* whole := c_str cpath in
              let '(ds, w) := getPathDirStatus whole w in
              match ds with
              | DDIR => Val (0, w)
              | DILLEGAL => Val (-1, w)
              | DMISSING => walk (length cpath) cpath 0 mode timestamp sehnd w
              end
          end
      end
  end.

Definition entry_path (p : path) (name : block) : path := take (Z.to_nat (PATH_MAX - 1)) (p ++ [47] ++ name).

(** The loop over the entries: whether a deletion failed. *)
Fixpoint unlink_entries (rec : path -> W -> outcome (Z * W)) (p : path) (names : list block) (w : W) : outcome (bool * W) :=
  match names with
  | [] => Val (false, w)
  | name :: names =>
      if bool_decide (name = str "..") || bool_decide (name = str ".") then unlink_entries rec p names w else
      let* (r, w) := rec (entry_path p name) w in
      if r <? 0 then Val (true, w) else unlink_entries rec p names w
  end.

(** [n] bounds the depth of the recursion.  [errno] is never negative. *)
Fixpoint dirUnlinkHierarchy (n : nat) (p : path) (w : W) : outcome (Z * W) :=
  let '(st, w) := d_lstat p w in
  match st with
  | NoEntry | StatError => Val (-1, w)
  | NotDir => Val (d_unlink p w)
  | IsDir =>
      let '(dir, w) := d_opendir p w in
      match dir, n with
      | None, _ => Val (-1, w)
      | Some _, O => Trap NoFuel
      | Some names, S n =>
          let* (fail, w) := unlink_entries (dirUnlinkHierarchy n) p names w in
          let '(r, w) := d_closedir w in
          if fail : bool then Val (-1, w) else
          if r <? 0 then Val (-1, w) else Val (d_rmdir p w)
      end
  end.
End Program.

(** ** A file system *)

Inductive kind := Dir | Other.
#[global] Instance kind_eq_dec : EqDecision kind.
Proof. solve_decision. Defined.

(** The nodes by their components from the root, which is always a directory; the
    context for new nodes. *)
Record tree := mkTree { nodes : gmap (list block) kind; fscreate : option block; t_tick : nat }.

(** A negative answer makes the call fail; for readdir it cuts the listing short. *)
Record tree_env := mkTreeEnv { t_answer : nat -> Z; t_label : nat -> option block; t_malloc : Z -> option block }.

Definition is_slash (c : Z) : bool := c =? 47.
Definition comps (p : path) : list block := tokens is_slash p.

Section Tree.
Variable E : tree_env.

Definition t_ask (t : tree) : Z * tree := (t_answer E (t_tick t), mkTree (nodes t) (fscreate t) (S (t_tick t))).
Definition set_nodes (m : gmap (list block) kind) (t : tree) : tree := mkTree m (fscreate t) (t_tick t).

Definition node_at (m : gmap (list block) kind) (c : list block) : option kind := match c with [] => Some Dir | _ => m !! c end.

(** Some component before the last is not a directory. *)
Definition through_file (m : gmap (list block) kind) (c : list block) : bool :=
  existsb (fun n => bool_decide (m !! take n c = Some Other)) (seq 0 (length c)).

(** The node a path names; [NoEntry] and [StatError] are ENOENT and ENOTDIR, ENAMETOOLONG. *)
Definition resolve (p : path) (m : gmap (list block) kind) : stat_result :=
  match p with
  | [] => NoEntry
  | _ =>
      if PATH_MAX <=? zlen p then StatError else
      match node_at m (comps p) with
      | Some Dir => IsDir
      | Some Other => NotDir
      | None => if through_file m (comps p) then StatError else NoEntry
      end
  end.

Definition child_of (c k : list block) : option block := if decide (removelast k = c) then last k else None.
Definition children (c : list block) (m : gmap (list block) kind) : list block := omap (fun kv => child_of c kv.1) (map_to_list m).

Definition t_stat (p : path) (t : tree) : stat_result * tree :=
  let '(a, t) := t_ask t in (if a <? 0 then StatError else resolve p (nodes t), t).
Definition t_unlink (p : path) (t : tree) : Z * tree :=
  let '(a, t) := t_ask t in
  if (a <? 0) || negb (bool_decide (resolve p (nodes t) = NotDir)) then (-1, t)
  else (0, set_nodes (delete (comps p) (nodes t)) t).
Definition t_rmdir (p : path) (t : tree) : Z * tree :=
  let '(a, t) := t_ask t in
  if (a <? 0) || negb (bool_decide (resolve p (nodes t) = IsDir)) || negb (bool_decide (children (comps p) (nodes t) = []))
     || bool_decide (comps p = []) then (-1, t)
  else (0, set_nodes (delete (comps p) (nodes t)) t).
Definition t_mkdir (p : path) (mode : Z) (t : tree) : Z * tree :=
  let '(a, t) := t_ask t in
  if (a <? 0) || negb (bool_decide (resolve p (nodes t) = NoEntry)) || bool_decide (comps p = [])
     || negb (bool_decide (node_at (nodes t) (removelast (comps p)) = Some Dir)) then (-1, t)
  else (0, set_nodes (<[comps p := Dir]> (nodes t)) t).
Definition t_utime (p : path) (t : tree) : Z * tree :=
  let '(a, t) := t_ask t in
  if (a <? 0) || negb (bool_decide (resolve p (nodes t) = IsDir)) then (-1, t) else (0, t).
Definition t_opendir (p : path) (t : tree) : option (list block) * tree :=
  let '(a, t) := t_ask t in
  let '(b, t) := t_ask t in
  if (a <? 0) || negb (bool_decide (resolve p (nodes t) = IsDir)) then (None, t)
  else
    let names := str "." :: str ".." :: children (comps p) (nodes t) in
    (Some (if b <? 0 then take (Z.to_nat (- b - 1)) names else names), t).
Definition t_closedir (t : tree) : Z * tree := let '(a, t) := t_ask t in (if a <? 0 then -1 else 0, t).
Definition t_selabel (p : path) (mode : Z) (t : tree) : option block * tree := (t_label E (t_tick t), (t_ask t).2).
Definition t_setfscreatecon (con : option block) (t : tree) : tree := mkTree (nodes t) con (t_tick t).

Definition tree_api : dir_api tree := {|
  d_stat := t_stat; d_lstat := t_stat; d_unlink := t_unlink; d_rmdir := t_rmdir; d_mkdir := t_mkdir; d_utime := t_utime;
  d_opendir := t_opendir; d_closedir := t_closedir; d_selabel := t_selabel; d_setfscreatecon := t_setfscreatecon;
  d_malloc n t := (t_malloc E n, t)
|}.
End Tree.

(** ** Paths and components *)

Lemma tokens_from_split d cur s c t : d c = true -> tokens_from d cur (s ++ c :: t) = tokens_from d cur s ++ tokens d t.
Proof.
  intros Hc. revert cur. induction s as [| x s IH]; intros cur; simpl; [rewrite Hc; by destruct cur |].
  destruct (d x); [| apply IH]. rewrite IH. by destruct cur.
Qed.
Lemma tokens_split d s c t : d c = true -> tokens d (s ++ c :: t) = tokens d s ++ tokens d t.
Proof. apply tokens_from_split. Qed.

(** A name that a directory can hold. *)
Definition name_ok (n : block) : Prop := n <> [] /\ plain is_slash n /\ no_nul n /\ n <> str "." /\ n <> str "..".

#[global] Instance name_ok_dec n : Decision (name_ok n).
Proof. unfold name_ok, plain. apply _. Defined.

Lemma comps_entry p n : name_ok n -> comps (p ++ [47] ++ n) = comps p ++ [n].
Proof. intros (Hne & Hp & _). unfold comps. cbn [app]. rewrite tokens_split by done. by rewrite (tokens_last _ n). Qed.

Lemma entry_path_whole p n : zlen p + 1 + zlen n < PATH_MAX -> entry_path p n = p ++ [47] ++ n.
Proof.
  intros Hl. unfold entry_path. apply take_ge. unfold PATH_MAX, zlen in *. rewrite !length_app. simpl. lia.
Qed.

(** Cut off or not, the path of an entry stays at or below the directory. *)
Lemma entry_path_below p n : zlen p < PATH_MAX -> comps p `prefix_of` comps (entry_path p n).
Proof.
  intros Hl. unfold entry_path, comps. set (k := Z.to_nat (PATH_MAX - 1)).
  assert (length p <= k)%nat by (unfold k, PATH_MAX, zlen in *; lia).
  rewrite take_app_ge by done. destruct (k - length p)%nat; [by rewrite app_nil_r |].
  cbn [app take]. rewrite tokens_split by done. by eexists.
Qed.

(** Parents are directories. *)
Record tree_wf (m : gmap (list block) kind) : Prop := {
  wf_names : forall k, is_Some (m !! k) -> k <> [] /\ Forall name_ok k;
  wf_parent : forall k n, is_Some (m !! (k ++ [n])) -> node_at m k = Some Dir
}.

Lemma wf_above m c k : tree_wf m -> c `prefix_of` k -> c <> k -> is_Some (m !! k) -> node_at m c = Some Dir.
Proof.
  intros W [l ->] Hne. revert Hne. induction l as [| x l IH] using rev_ind; intros Hne Hs; [by rewrite app_nil_r in Hne |].
  rewrite app_assoc in Hs. apply (wf_parent _ W) in Hs. destruct l as [| y l]; [by rewrite app_nil_r in Hs |].
  apply IH.
  - intros Hk. apply (f_equal length) in Hk. rewrite length_app in Hk. simpl in Hk. lia.
  - unfold node_at in Hs. destruct (c ++ y :: l) eqn:Ec; [by destruct c |]. by rewrite Hs.
Qed.

Lemma elem_of_children c m n : n ∈ children c m <-> is_Some (m !! (c ++ [n])).
Proof.
  unfold children. rewrite list_elem_of_omap. split.
  - intros ([k x] & Hin%elem_of_map_to_list & Hc). unfold child_of in Hc. simpl in Hc. destruct (decide (removelast k = c)) as [<- |]; [| done].
    exists x. destruct (last k) as [y |] eqn:El; [| done]. injection Hc as <-.
    apply last_Some in El as [l ->]. by rewrite removelast_last.
  - intros [x Hx]. exists (c ++ [n], x). split; [by apply elem_of_map_to_list |]. unfold child_of. simpl.
    rewrite removelast_last, decide_True by done. apply last_snoc.
Qed.

(** ** Deleting *)

(** What is left when everything at and below [c] is gone. *)
Definition prune (c : list block) (m : gmap (list block) kind) : gmap (list block) kind :=
  filter (fun kv => ~ c `prefix_of` kv.1) m.

(** From [t] to [t'] only nodes at or below [c] went away. *)
Record shrinks (c : list block) (t t' : tree) : Prop := {
  sh_sub : nodes t' ⊆ nodes t;
  sh_frame : forall k, ~ c `prefix_of` k -> nodes t' !! k = nodes t !! k;
  sh_con : fscreate t' = fscreate t;
  sh_wf : tree_wf (nodes t) -> tree_wf (nodes t')
}.

Lemma shrinks_same c t t' : nodes t' = nodes t -> fscreate t' = fscreate t -> shrinks c t t'.
Proof. intros Hn Hf. split; [by rewrite Hn | by rewrite Hn | done | by rewrite Hn]. Qed.
Lemma shrinks_trans c t1 t2 t3 : shrinks c t1 t2 -> shrinks c t2 t3 -> shrinks c t1 t3.
Proof.
  intros [A1 A2 A3 A4] [B1 B2 B3 B4]. split; [by etrans | | congruence | auto].
  intros k Hk. by rewrite B2, A2.
Qed.
Lemma shrinks_weaken c c' t t' : c `prefix_of` c' -> shrinks c' t t' -> shrinks c t t'.
Proof. intros Hc [A1 A2 A3 A4]. split; try done. intros k Hk. apply A2. intros Hk'. apply Hk. by etrans. Qed.

(** A node without children may go. *)
Lemma wf_delete m c : tree_wf m -> (forall n, m !! (c ++ [n]) = None) -> tree_wf (delete c m).
Proof.
  intros [W1 W2] Hc. split.
  - intros k [x [_ Hk]%lookup_delete_Some]. apply W1. by exists x.
  - intros k n [x [Hne Hk]%lookup_delete_Some]. specialize (W2 k n ltac:(by exists x)).
    unfold node_at in *. destruct k as [| y k]; [done |]. rewrite lookup_delete_ne; [done |].
    intros ->. by rewrite Hc in Hk.
Qed.

Lemma shrinks_delete t c : (forall n, tree_wf (nodes t) -> nodes t !! (c ++ [n]) = None) -> shrinks c t (set_nodes (delete c (nodes t)) t).
Proof.
  intros Hc. split; [apply delete_subseteq | | done |].
  - intros k Hk. apply lookup_delete_ne. intros ->. by apply Hk.
  - intros W. apply wf_delete; [done |]. intros n. by apply Hc.
Qed.

Section Unlink.
Variable E : tree_env.

Lemma t_unlink_spec p t r t' : t_unlink E p t = (r, t') ->
  shrinks (comps p) t t' /\ (r = -1 \/ (r = 0 /\ comps p <> [] /\ nodes t' !! comps p = None)).
Proof.
  unfold t_unlink, t_ask. cbv zeta iota. cbn [nodes]. set (a := t_answer E (t_tick t)).
  destruct ((a <? 0) || negb (bool_decide (resolve p (nodes t) = NotDir))) eqn:Eb; intros [= <- <-]; [split; [by apply shrinks_same | by left] |].
  apply orb_false_iff in Eb as [_ Er]. apply negb_false_iff, bool_decide_eq_true in Er.
  split; [| right; split_and!; [done | | apply lookup_delete_eq]].
  2: { intros Hc. unfold resolve in Er. rewrite Hc in Er. destruct p; [done |]. by destruct (_ <=? _). }
  apply (shrinks_trans _ _ (mkTree (nodes t) (fscreate t) (S (t_tick t)))); [by apply shrinks_same |].
  apply (shrinks_delete (mkTree (nodes t) (fscreate t) (S (t_tick t)))). cbn [nodes]. intros n W.
  destruct (nodes t !! (comps p ++ [n])) as [x |] eqn:Ex; [| done]. exfalso.
  apply mk_is_Some, (wf_parent _ W) in Ex. unfold resolve in Er. destruct p; [done |]. destruct (_ <=? _); [done |]. by rewrite Ex in Er.
Qed.

Lemma t_rmdir_spec p t r t' : t_rmdir E p t = (r, t') ->
  shrinks (comps p) t t' /\ (r = -1 \/ (r = 0 /\ comps p <> [] /\ nodes t' !! comps p = None)).
Proof.
  unfold t_rmdir, t_ask. cbv zeta iota. cbn [nodes]. set (a := t_answer E (t_tick t)).
  destruct (_ || _) eqn:Eb; intros [= <- <-]; [split; [by apply shrinks_same | by left] |].
  apply orb_false_iff in Eb as [[[_ _]%orb_false_iff Ec]%orb_false_iff Hc]. apply negb_false_iff, bool_decide_eq_true in Ec.
  apply bool_decide_eq_false in Hc. split; [| right; split_and!; [done | done | apply lookup_delete_eq]].
  apply (shrinks_trans _ _ (mkTree (nodes t) (fscreate t) (S (t_tick t)))); [by apply shrinks_same |].
  apply (shrinks_delete (mkTree (nodes t) (fscreate t) (S (t_tick t)))). cbn [nodes]. intros n W.
  destruct (nodes t !! (comps p ++ [n])) as [x |] eqn:Ex; [| done]. exfalso.
  apply mk_is_Some, elem_of_children in Ex. rewrite Ec in Ex. by apply elem_of_nil in Ex.
Qed.

Definition unlink_ok (rec : path -> tree -> outcome (Z * tree)) : Prop := forall p t r t',
  rec p t = Val (r, t') -> shrinks (comps p) t t' /\ (r = -1 \/ (r = 0 /\ comps p <> [] /\ nodes t' !! comps p = None)).

Lemma unlink_entries_sound rec p names : unlink_ok rec -> zlen p < PATH_MAX -> forall t fail t',
  @unlink_entries tree rec p names t = Val (fail, t') -> shrinks (comps p) t t'.
Proof.
  intros Hrec Hl. induction names as [| n names IH]; intros t fail t'; cbn [unlink_entries].
  { intros [= <- <-]. by apply shrinks_same. }
  destruct (_ || _); [apply IH |]. intros Hr. apply bind_Val_inv in Hr as ([r t1] & H1 & Hr). apply Hrec in H1 as [S1 _].
  apply (shrinks_weaken (comps p)) in S1; [| by apply entry_path_below].
  destruct (r <? 0); [by injection Hr as <- <- |]. apply IH in Hr. by eapply shrinks_trans.
Qed.

Lemma dirUnlinkHierarchy_sound n : unlink_ok (@dirUnlinkHierarchy tree (tree_api E) n).
Proof.
  induction n as [| n IH]; intros p t r t'; cbn [dirUnlinkHierarchy d_lstat d_opendir d_unlink d_closedir d_rmdir tree_api];
    unfold t_stat, t_ask; cbv zeta iota; cbn [nodes]; set (t1 := mkTree (nodes t) (fscreate t) (S (t_tick t))).
  all: destruct (if t_answer E (t_tick t) <? 0 then StatError else resolve p (nodes t)) eqn:Est;
    [| intros Hu; injection Hu as Hu; apply (t_unlink_spec p t1 r t') in Hu as [Hs Hu];
       split; [eapply shrinks_trans; [| exact Hs]; by apply shrinks_same | exact Hu]
     | intros [= <- <-]; split; [by apply shrinks_same | by left] | intros [= <- <-]; split; [by apply shrinks_same | by left]].
  all: unfold t_opendir, t_ask; cbv zeta iota; cbn [nodes fscreate t_tick t1].
  all: set (t2 := mkTree (nodes t) (fscreate t) (S (S (S (t_tick t))))).
  all: destruct ((t_answer E (S (t_tick t)) <? 0) || negb (bool_decide (resolve p (nodes t) = IsDir)));
    [intros [= <- <-]; split; [by apply shrinks_same | by left] |].
  1: done.
  intros Hr. apply bind_Val_inv in Hr as ([fail t3] & He & Hr).
  assert (zlen p < PATH_MAX) as Hl.
  { destruct (t_answer E (t_tick t) <? 0); [done |]. unfold resolve in Est. destruct p; [done |].
    destruct (Z.leb_spec PATH_MAX (zlen (z :: p))); [done | lia]. }
  apply unlink_entries_sound in He; [| done | done].
  assert (shrinks (comps p) t t3) as S3 by (eapply shrinks_trans; [| exact He]; by apply shrinks_same). clear He.
  unfold t_closedir, t_ask in Hr. cbv zeta iota in Hr. set (t4 := mkTree (nodes t3) (fscreate t3) (S (t_tick t3))) in *.
  assert (shrinks (comps p) t t4) as S4 by (eapply shrinks_trans; [exact S3 |]; by apply shrinks_same).
  destruct fail; [injection Hr as <- <-; split; [done | by left] |].
  destruct ((if t_answer E (t_tick t3) <? 0 then -1 else 0) <? 0); [injection Hr as <- <-; split; [done | by left] |].
  injection Hr as Hr. apply t_rmdir_spec in Hr as [S5 Hr]. split; [by eapply shrinks_trans | done].
Qed.

Lemma pruned c t t' : tree_wf (nodes t) -> shrinks c t t' -> c <> [] -> nodes t' !! c = None -> nodes t' = prune c (nodes t).
Proof.
  intros W [S1 S2 _ S4] Hne Hc. specialize (S4 W). apply map_eq. intros k. unfold prune.
  destruct (decide (c `prefix_of` k)) as [Hk | Hk].
  - rewrite (map_lookup_filter_None_2 _ _ k) by (right; intros x _ Hn; by apply Hn).
    destruct (nodes t' !! k) as [x |] eqn:Ex; [| done]. destruct (decide (c = k)) as [-> |]; [congruence |].
    pose proof (wf_above _ c k S4 Hk ltac:(done) ltac:(by exists x)) as Ha. unfold node_at in Ha. destruct c; [done |]. congruence.
  - rewrite S2 by done. destruct (nodes t !! k) as [x |] eqn:Ex.
    + symmetry. by apply map_lookup_filter_Some.
    + symmetry. apply map_lookup_filter_None. by left.
Qed.

(** *** When no call fails *)

Hypothesis Hans : forall i, 0 <= t_answer E i.

Definition plen (l : list block) : Z := foldr (fun n z => 1 + zlen n + z) 0 l.

(** Below [p] there are fewer than [n] levels, and no path is too long. *)
Definition fits (p : path) (n : nat) (m : gmap (list block) kind) : Prop :=
  forall l, is_Some (m !! (comps p ++ l)) -> (length l < n)%nat /\ zlen p + plen l < PATH_MAX.

Lemma answer_calm i : (t_answer E i <? 0) = false.
Proof. apply Z.ltb_ge, Hans. Qed.

Lemma resolve_node p m x : p <> [] -> zlen p < PATH_MAX -> node_at m (comps p) = Some x ->
  resolve p m = match x with Dir => IsDir | Other => NotDir end.
Proof.
  intros Hne Hl Hx. unfold resolve. destruct p; [done |]. rewrite (proj2 (Z.leb_gt _ _)) by done. rewrite Hx. by destruct x.
Qed.

Lemma node_at_ne m c : c <> [] -> node_at m c = m !! c.
Proof. by destruct c. Qed.

Definition finishes (n : nat) : Prop := forall p t,
  tree_wf (nodes t) -> comps p <> [] -> is_Some (nodes t !! comps p) -> fits p n (nodes t) -> zlen p < PATH_MAX ->
  exists t', @dirUnlinkHierarchy tree (tree_api E) n p t = Val (0, t').

Lemma fits_entry p n m x : name_ok x -> zlen p + 1 + zlen x < PATH_MAX -> fits p (S n) m -> fits (entry_path p x) n m.
Proof.
  intros Hx Hl Hf. rewrite entry_path_whole by done. intros l Hs. unfold fits in Hf. rewrite comps_entry in Hs by done.
  rewrite <- app_assoc in Hs. apply Hf in Hs as [H1 H2]. cbn [plen foldr app length] in *. fold (plen l) in *. split; [lia | zlia].
Qed.

Lemma fits_sub p n m m' : m' ⊆ m -> fits p n m -> fits p n m'.
Proof. intros Hs Hf l [x Hx]. apply Hf. exists x. by eapply lookup_weaken. Qed.

Lemma unlink_entries_complete n p names : finishes n -> comps p <> [] -> NoDup names -> forall t,
  tree_wf (nodes t) -> fits p (S n) (nodes t) -> (forall x, x ∈ names -> is_Some (nodes t !! (comps p ++ [x]))) ->
  exists t', unlink_entries (@dirUnlinkHierarchy tree (tree_api E) n) p names t = Val (false, t') /\ shrinks (comps p) t t' /\
    nodes t' !! comps p = nodes t !! comps p /\ (forall x, x ∈ names -> nodes t' !! (comps p ++ [x]) = None).
Proof.
  intros IH Hp. induction 1 as [| x names Hx _ IHn]; intros t W F Hin; cbn [unlink_entries].
  { exists t. split_and!; [done | by apply shrinks_same | done | by intros x ?%elem_of_nil]. }
  destruct (Hin x ltac:(left)) as [y Hy].
  destruct (F [x] ltac:(by exists y)) as [_ Hl]. cbn [plen foldr] in Hl.
  pose proof (proj2 (wf_names _ W _ ltac:(by exists y))) as Hok. rewrite Forall_app, Forall_singleton in Hok. destruct Hok as [_ Hok].
  rewrite !bool_decide_false by apply Hok. cbn [orb].
  assert (entry_path p x = p ++ [47] ++ x) as Eep by (apply entry_path_whole; lia).
  assert (comps (entry_path p x) = comps p ++ [x]) as Ec by (rewrite Eep; by apply comps_entry).
  destruct (IH (entry_path p x) t W) as [t1 H1].
  - rewrite Ec. by destruct (comps p).
  - rewrite Ec. by exists y.
  - apply fits_entry; [done | lia | done].
  - rewrite Eep. zlia.
  - rewrite H1. cbn [mbind outcome_bind Z.ltb Z.compare]. apply dirUnlinkHierarchy_sound in H1 as [S1 [? | (_ & _ & Hn)]]; [done |].
    rewrite Ec in S1, Hn. assert (shrinks (comps p) t t1) as S1' by (by eapply shrinks_weaken; [| exact S1]; eexists).
    destruct (IHn t1) as (t' & -> & S2 & Hd & Hgone).
    + by apply S1.
    + eapply fits_sub; [apply S1 | done].
    + intros z Hz. rewrite (sh_frame _ _ _ S1); [apply Hin; by right |].
      intros [l El]. rewrite <- app_assoc in El. apply app_inv_head in El. injection El as -> _. done.
    + exists t'. split_and!; [done | by eapply shrinks_trans | |].
      * rewrite Hd. apply S1. intros [l El]. apply (f_equal length) in El. rewrite !length_app in El. simpl in El. lia.
      * intros z [-> | Hz]%elem_of_cons; [| by apply Hgone].
        destruct (nodes t' !! (comps p ++ [x])) as [u |] eqn:Eu; [| done].
        apply (lookup_weaken _ (nodes t1)) in Eu; [congruence | apply S2].
Qed.

Lemma NoDup_children c m : NoDup (children c m).
Proof.
  unfold children. pose proof (NoDup_fst_map_to_list m) as Hnd. induction (map_to_list m) as [| [k x] l IH]; [constructor |].
  cbn [fmap list_fmap fst] in Hnd. apply NoDup_cons in Hnd as [Hk Hnd]. cbn [omap list_omap fst].
  destruct (child_of c k) as [n |] eqn:Ec; [| by apply IH]. apply NoDup_cons. split; [| by apply IH].
  rewrite list_elem_of_omap. intros ([k' x'] & Hin & Ec'). apply Hk. apply list_elem_of_fmap. exists (k', x'). split; [| done].
  unfold child_of in *. simpl in *. destruct (decide (removelast k = c)) as [Ek |]; [| done].
  destruct (decide (removelast k' = c)) as [Ek' |]; [| done].
  apply last_Some in Ec as [l1 ->]. apply last_Some in Ec' as [l2 ->]. rewrite removelast_last in *. congruence.
Qed.

Lemma dirUnlinkHierarchy_complete n : finishes n.
Proof.
  induction n as [| n IH]; intros p t W Hc [x Hx] F Hl.
  { destruct (F [] ltac:(rewrite app_nil_r; by exists x)) as [? _]. lia. }
  assert (p <> []) as Hp by (by intros ->). pose proof (node_at_ne (nodes t) (comps p) Hc) as Hn. rewrite Hx in Hn.
  pose proof (resolve_node p (nodes t) x Hp Hl Hn) as Hr.
  cbn [dirUnlinkHierarchy d_lstat d_opendir d_unlink d_closedir d_rmdir tree_api]. unfold t_stat, t_ask. cbv zeta iota. cbn [nodes t_tick fscreate].
  rewrite answer_calm, Hr. destruct x.
  2: { unfold t_unlink, t_ask. cbv zeta iota. cbn [nodes t_tick fscreate]. rewrite answer_calm, Hr. cbn [orb negb bool_decide].
       rewrite bool_decide_true by done. cbn [negb]. by eexists. }
  unfold t_opendir, t_ask. cbv zeta iota. cbn [nodes t_tick fscreate]. rewrite !answer_calm, Hr, bool_decide_true by done. cbn [orb negb unlink_entries].
  change (bool_decide (str "." = str "..") || bool_decide (str "." = str ".")) with true.
  change (bool_decide (str ".." = str "..") || bool_decide (str ".." = str ".")) with true. cbv iota.
  destruct (unlink_entries_complete n p (children (comps p) (nodes t)) IH Hc (NoDup_children _ _)
    (mkTree (nodes t) (fscreate t) (S (S (S (t_tick t)))))) as (t1 & -> & S1 & Hd & Hgone); [done | done | by intros y ?%elem_of_children |].
  cbn [mbind outcome_bind]. unfold t_closedir, t_ask. cbv zeta iota. rewrite answer_calm. cbn [Z.ltb Z.compare].
  unfold t_rmdir, t_ask. cbv zeta iota. cbn [nodes t_tick fscreate]. rewrite answer_calm. cbn [nodes] in *.
  assert (resolve p (nodes t1) = IsDir) as ->.
  { apply (resolve_node p (nodes t1) Dir Hp Hl). rewrite node_at_ne by done. by rewrite Hd. }
  rewrite (bool_decide_true (children (comps p) (nodes t1) = [])).
  - rewrite bool_decide_true by done. rewrite (bool_decide_false (comps p = [])) by done. cbn [orb negb]. by eexists.
  - destruct (children (comps p) (nodes t1)) as [| y l] eqn:El; [done |]. exfalso.
    assert (y ∈ children (comps p) (nodes t1)) as Hy by (rewrite El; left). pose proof Hy as Hy'.
    apply elem_of_children in Hy as [z Hz]. rewrite Hgone in Hz; [done |].
    apply elem_of_children. exists z. by eapply lookup_weaken, (sh_sub _ _ _ S1).
Qed.
End Unlink.

(** ** Creating *)

(** From [t] to [t'] only directories on the way to [c] were added. *)
Record grows (c : list block) (t t' : tree) : Prop := {
  gr_sub : nodes t ⊆ nodes t';
  gr_new : forall k, nodes t !! k = None -> is_Some (nodes t' !! k) -> nodes t' !! k = Some Dir /\ k `prefix_of` c;
  gr_con : fscreate t = None -> fscreate t' = None;
  gr_wf : tree_wf (nodes t) -> tree_wf (nodes t')
}.

Lemma tree_grows_same c t t' : nodes t' = nodes t -> (fscreate t = None -> fscreate t' = None) -> grows c t t'.
Proof. intros Hn Hf. split; rewrite ?Hn; try done. intros k -> [? ?]. done. Qed.
Lemma tree_grows_trans c t1 t2 t3 : grows c t1 t2 -> grows c t2 t3 -> grows c t1 t3.
Proof.
  intros [A1 A2 A3 A4] [B1 B2 B3 B4]. split; [by etrans | | auto | auto].
  intros k Hk Hs. destruct (nodes t2 !! k) as [x |] eqn:Ek; [| by apply B2].
  destruct (A2 k Hk ltac:(by exists x)) as [HA HB]. split; [| done]. by eapply lookup_weaken.
Qed.

Lemma tree_grows_insert c k t : Forall name_ok k -> k <> [] -> k `prefix_of` c -> nodes t !! k = None ->
  node_at (nodes t) (removelast k) = Some Dir -> grows c t (set_nodes (<[k := Dir]> (nodes t)) t).
Proof.
  intros Hok Hne Hk Hn Hpar. split; [by apply insert_subseteq | | done |].
  - intros k' Hk' [x Hx]. cbn [nodes set_nodes] in *. destruct (decide (k' = k)) as [-> |]; [by rewrite lookup_insert_eq |].
    rewrite lookup_insert_ne in Hx by done. congruence.
  - cbn [nodes set_nodes]. intros [W1 W2]. split.
    + intros k' [x Hx]. destruct (decide (k' = k)) as [-> |]; [done |]. rewrite lookup_insert_ne in Hx by done. apply W1. by exists x.
    + intros k' n [x Hx]. assert (node_at (nodes t) k' = Some Dir) as Hd.
      { destruct (decide (k' ++ [n] = k)) as [<- |]; [by rewrite removelast_last in Hpar |].
        rewrite lookup_insert_ne in Hx by done. apply (W2 k' n). by exists x. }
      unfold node_at in *. destruct k' as [| y k']; [done |]. destruct (decide (k = y :: k')) as [-> |]; [by rewrite lookup_insert_eq |].
      by rewrite lookup_insert_ne.
Qed.

Section Create.
Variable E : tree_env.

Lemma make_level_spec level mode timestamp sehnd c t :
  Forall name_ok (comps level) -> comps level <> [] -> comps level `prefix_of` c -> resolve level (nodes t) = NoEntry ->
  node_at (nodes t) (removelast (comps level)) = Some Dir ->
  let '(ok, t') := @make_level tree (tree_api E) level mode timestamp sehnd t in
  grows c t t' /\ (ok = true -> nodes t' !! comps level = Some Dir) /\
  ((forall i, 0 <= t_answer E i) -> ok = true).
Proof.
  intros Hok Hne Hk Hr Hpar. unfold make_level.
  set (st := (if sehnd then _ else _) : option block * tree).
  assert (nodes st.2 = nodes t /\ (fscreate t = None -> match st.1 with None => fscreate st.2 = None | Some _ => True end)) as [Hn Hf].
  { unfold st. destruct sehnd; [| done]. cbn [d_selabel d_setfscreatecon tree_api]. unfold t_selabel, t_setfscreatecon, t_ask. simpl.
    split; [done |]. by destruct (t_label E (t_tick t)). }
  clearbody st. destruct st as [secon t1]. cbn [fst snd] in Hn, Hf. cbn [d_mkdir tree_api]. unfold t_mkdir, t_ask. cbv zeta iota. cbn [nodes].
  rewrite Hn, Hr, Hpar. rewrite !(bool_decide_true (_ = _)), (bool_decide_false (comps level = [])) by done. cbn [negb orb].
  assert (nodes t !! comps level = None) as Hno.
  { unfold resolve in Hr. destruct level; [done |]. destruct (_ <=? _); [done |]. rewrite node_at_ne in Hr by done.
    destruct (nodes t !! _) as [[] |]; done. }
  rewrite !orb_false_r. destruct (t_answer E (t_tick t1) <? 0) eqn:Ea.
  { cbn [negb Z.eqb]. split; [| split; [done |]].
    - destruct secon; apply tree_grows_same; simpl; auto.
    - intros Hans. specialize (Hans (t_tick t1)). lia. }
  cbn [negb Z.eqb]. set (t2 := match secon with Some _ => _ | None => _ end).
  assert (nodes t2 = <[comps level := Dir]> (nodes t) /\ (fscreate t = None -> fscreate t2 = None)) as [Hn2 Hf2].
  { unfold t2. destruct secon; simpl; auto. }
  clearbody t2. assert (grows c t t2) as G.
  { eapply tree_grows_trans; [by apply (tree_grows_insert c (comps level) t) |]. by apply tree_grows_same. }
  assert (nodes t2 !! comps level = Some Dir) as Hd by (rewrite Hn2; apply lookup_insert_eq).
  destruct timestamp; [| by split_and!]. cbn [d_utime tree_api]. unfold t_utime, t_ask. cbv zeta iota. cbn [nodes].
  set (t3 := mkTree (nodes t2) (fscreate t2) (S (t_tick t2))).
  assert (grows c t t3) as G3 by (eapply tree_grows_trans; [exact G |]; by apply tree_grows_same).
  assert (resolve level (nodes t2) = IsDir) as ->.
  { unfold resolve in *. destruct level; [done |]. destruct (_ <=? _); [done |]. by rewrite node_at_ne, Hd by done. }
  rewrite bool_decide_true by done. cbn [negb]. rewrite orb_false_r.
  destruct (Z.ltb_spec (t_answer E (t_tick t2)) 0); (split_and!; [done | done |]); [| done].
  intros Hans. specialize (Hans (t_tick t2)). lia.
Qed.

Lemma skip_slashes_spec n a ws x rest : Forall (fun c => c = 47) ws -> x <> 47 -> (length ws <= n)%nat ->
  skip_slashes n (a ++ ws ++ x :: rest) (zlen a) = Val (zlen (a ++ ws)).
Proof.
  intros Hws Hx. revert n a. induction Hws as [| c ws -> _ IH]; intros n a Hn.
  - rewrite app_nil_r. cbn [app]. destruct n; cbn [skip_slashes]; rewrite (load_middle a _ _ _ eq_refl); cbn [mbind outcome_bind];
      rewrite (proj2 (Z.eqb_neq x 47)) by done; by rewrite orb_true_r.
  - cbn [length] in Hn. destruct n as [| n]; [lia |]. cbn [skip_slashes app]. rewrite (load_middle a _ _ _ eq_refl). cbn [mbind outcome_bind Z.eqb Pos.eqb orb negb].
    specialize (IH n (a ++ [47]) ltac:(lia)). rewrite zlen_app in IH. change (zlen [47]) with 1 in IH.
    rewrite <- !app_assoc in IH. cbn [app] in IH. done.
Qed.

Lemma to_slash_spec n a tk rest : plain is_slash tk -> (length tk <= n)%nat ->
  to_slash n (a ++ tk ++ 47 :: rest) (zlen a) = Val (zlen (a ++ tk)).
Proof.
  intros Ht. revert n a. induction Ht as [| c tk Hc _ IH]; intros n a Hn.
  - rewrite app_nil_r. cbn [app]. destruct n; cbn [to_slash]; rewrite (load_middle a _ _ _ eq_refl); done.
  - cbn [length] in Hn. destruct n as [| n]; [lia |]. cbn [to_slash app]. rewrite (load_middle a _ _ _ eq_refl). cbn [mbind outcome_bind].
    unfold is_slash in Hc. rewrite Hc. specialize (IH n (a ++ [c]) ltac:(lia)). rewrite zlen_app in IH. change (zlen [c]) with 1 in IH.
    rewrite <- !app_assoc in IH. cbn [app] in IH. done.
Qed.

Lemma skip_delim_split s : exists ws, s = ws ++ skip_delim is_slash s /\ Forall (fun c => c = 47) ws.
Proof.
  induction s as [| c s (ws & IH & Hws)]; [by exists [] |]. simpl. destruct (is_slash c) eqn:Hc; [| by exists []].
  exists (c :: ws). split; [simpl; by rewrite <- IH |]. constructor; [by apply Z.eqb_eq |  done].
Qed.

Lemma comps_slashes a ws : Forall (fun c => c = 47) ws -> comps (a ++ ws) = comps a.
Proof.
  intros Hws. induction ws as [| c ws IH] using rev_ind; [by rewrite app_nil_r |].
  apply Forall_app in Hws as [Hws ->%Forall_singleton]. rewrite app_assoc. unfold comps. rewrite tokens_snoc by done. by apply IH.
Qed.

(** The next component after [a]: the slashes, the name and what follows. *)
Lemma next_component a b : last b = Some 47 -> a = [] \/ head b = Some 47 ->
  (Forall (fun c => c = 47) b /\ comps (a ++ b) = comps a) \/
  exists ws tk r, b = ws ++ tk ++ 47 :: r /\ Forall (fun c => c = 47) ws /\ plain is_slash tk /\ tk <> [] /\
    comps (a ++ ws ++ tk) = comps a ++ [tk] /\ comps (a ++ b) = comps (a ++ ws ++ tk) ++ comps r.
Proof.
  intros Hl Hh. destruct (skip_delim_split b) as (ws & Eb & Hws). destruct (skip_delim is_slash b) as [| z b1] eqn:Es.
  { left. rewrite app_nil_r in Eb. subst ws. split; [done | by apply comps_slashes]. }
  right. apply skip_delim_head in Es as Hz. pose proof (span_token_spec is_slash (z :: b1)) as Hsp.
  destruct (span_token is_slash (z :: b1)) as [tk r]. destruct Hsp as (Etk & Htk & Hr).
  assert (tk <> []) as Hne by (intros ->; simpl in Etk; subst r; congruence).
  destruct r as [| x r].
  { exfalso. rewrite Eb, Etk, app_nil_r, last_app in Hl. destruct (last tk) as [y |] eqn:El; [| by apply last_None in El].
    injection Hl as ->. apply last_Some in El as [l ->]. unfold plain in Htk. rewrite Forall_app, Forall_singleton in Htk. by destruct Htk. }
  assert (x = 47) as -> by (by apply Z.eqb_eq). rewrite Etk in Eb. exists ws, tk, r. split_and!; try done.
  - destruct ws as [| y ws _] using rev_ind.
    + assert (a = []) as -> by (destruct Hh as [? | Hh]; [done |]; rewrite Eb in Hh; destruct tk as [| y tk]; [done |];
        injection Hh as ->; by apply Forall_cons in Htk as [? _]).
      cbn [app]. unfold comps. by rewrite (tokens_last _ tk).
    + apply Forall_app in Hws as [Hws ->%Forall_singleton]. rewrite <- app_assoc, app_assoc. unfold comps. cbn [app].
      rewrite tokens_split by done. rewrite (tokens_last _ tk) by done. f_equal. by apply comps_slashes.
  - rewrite Eb. unfold comps. rewrite <- tokens_split with (c := 47) by done. by rewrite <- !app_assoc.
Qed.

(** No file is in the way to [c]. *)
Definition clear_way (c : list block) (m : gmap (list block) kind) : Prop := forall k, k `prefix_of` c -> m !! k <> Some Other.

Lemma clear_way_grows c t t' : grows c t t' -> clear_way c (nodes t) -> clear_way c (nodes t').
Proof.
  intros G Hc k Hk Ho. destruct (nodes t !! k) as [x |] eqn:Ex.
  - apply (Hc k Hk). rewrite Ex. eapply lookup_weaken in Ex; [| apply (gr_sub _ _ _ G)]. congruence.
  - destruct (gr_new _ _ _ G k Ex) as [Hd _]; [by exists Other | congruence].
Qed.

Lemma resolve_clear p c m : p <> [] -> zlen p < PATH_MAX -> comps p `prefix_of` c -> clear_way c m ->
  (resolve p m = IsDir /\ node_at m (comps p) = Some Dir) \/ resolve p m = NoEntry.
Proof.
  intros Hp Hl Hc Hw. unfold resolve. destruct p as [| x p]; [done |]. rewrite (proj2 (Z.leb_gt _ _)) by done.
  destruct (node_at m (comps (x :: p))) as [[] |] eqn:En.
  - by left.
  - exfalso. unfold node_at in En. destruct (comps (x :: p)) eqn:Ec; [done |]. by apply (Hw _ Hc).
  - right. destruct (through_file m (comps (x :: p))) eqn:Et; [| done]. exfalso.
    apply existsb_exists in Et as (n & _ & Hn). apply bool_decide_eq_true in Hn.
    apply (Hw (take n (comps (x :: p)))); [| done]. etrans; [apply prefix_take | done].
Qed.

Lemma resolve_dir p m : resolve p m = IsDir -> node_at m (comps p) = Some Dir.
Proof.
  unfold resolve. destruct p as [| x p]; [done |]. destruct (_ <=? _); [done |].
  destruct (node_at m (comps (x :: p))) as [[] |]; [done | done |]. by destruct (through_file _ _).
Qed.

(** One round of the loop, at the level [a ++ ws ++ tk]. *)
Lemma walk_next mode timestamp sehnd n a ws tk r post t :
  Forall (fun c => c = 47) ws -> plain is_slash tk -> tk <> [] -> no_nul (a ++ ws ++ tk) ->
  let level := a ++ ws ++ tk in
  let next := @walk tree (tree_api E) n (level ++ (47 :: r) ++ 0 :: post) (zlen level) mode timestamp sehnd in
  @walk tree (tree_api E) (S n) (a ++ (ws ++ tk ++ 47 :: r) ++ 0 :: post) (zlen a) mode timestamp sehnd t =
    (let '(ds, t) := @getPathDirStatus tree (tree_api E) level t in
     match ds with
     | DILLEGAL => Val (-1, t)
     | DMISSING =>
         let '(ok, t) := @make_level tree (tree_api E) level mode timestamp sehnd t in
         if negb ok then Val (-1, t) else next t
     | DDIR => next t
     end).
Proof.
  intros Hws Htk Hne Hnl level next. destruct tk as [| z tk]; [done |].
  assert (z <> 47) as Hz by (apply Forall_cons in Htk as [Hz _]; by apply Z.eqb_neq).
  assert (z <> 0) as Hz0 by (rewrite !Forall_app, Forall_cons in Hnl; naive_solver).
  set (cp := a ++ (ws ++ (z :: tk) ++ 47 :: r) ++ 0 :: post).
  assert (cp = a ++ ws ++ z :: tk ++ 47 :: r ++ 0 :: post) as E1 by (unfold cp; rewrite <- !app_assoc; done).
  assert (cp = (a ++ ws) ++ z :: tk ++ 47 :: r ++ 0 :: post) as E2 by (rewrite E1, <- !app_assoc; done).
  assert (cp = level ++ 47 :: r ++ 0 :: post) as E3 by (rewrite E1; unfold level; rewrite <- !app_assoc; done).
  assert (length ws <= length cp /\ length (z :: tk) <= length cp)%nat as [HN1 HN2] by (rewrite E3; unfold level; rewrite !length_app; lia).
  cbn [walk]. assert (exists x, load cp (zlen a) = Val x /\ x <> 0) as (x & -> & Hx).
  { destruct ws as [| x ws]; [exists z | exists x]; (split; [rewrite E1; by apply load_middle |]); [done |].
    apply Forall_cons in Hws as [-> _]. done. }
  cbn [mbind outcome_bind]. rewrite (proj2 (Z.eqb_neq x 0)) by done.
  rewrite E1 at 2. rewrite (skip_slashes_spec _ a ws z) by done. cbn [mbind outcome_bind].
  rewrite E2 at 1. rewrite (load_middle (a ++ ws) z _ _ eq_refl). cbn [mbind outcome_bind]. rewrite (proj2 (Z.eqb_neq z 0)) by done.
  rewrite E2 at 2. change (z :: tk ++ 47 :: r ++ 0 :: post) with ((z :: tk) ++ 47 :: r ++ 0 :: post).
  rewrite (to_slash_spec _ (a ++ ws) (z :: tk)) by done. cbn [mbind outcome_bind].
  replace (zlen ((a ++ ws) ++ z :: tk)) with (zlen level) by (unfold level; by rewrite app_assoc).
  rewrite E3, (store_app level _ 47 0 _ eq_refl). cbn [mbind outcome_bind]. rewrite c_str_app by done. cbn [mbind outcome_bind].
  destruct (getPathDirStatus level t) as [ds t1]. destruct ds; [| | done].
  - destruct (make_level level mode timestamp sehnd t1) as [ok t2]. destruct ok; cbn [negb]; [| done].
    by rewrite (store_app level _ 0 47 _ eq_refl).
  - by rewrite (store_app level _ 0 47 _ eq_refl).
Qed.

Lemma walk_spec mode timestamp sehnd c n : forall a b post t,
  no_nul (a ++ b) -> b = [] \/ last b = Some 47 -> a = [] \/ b = [] \/ head b = Some 47 ->
  node_at (nodes t) (comps a) = Some Dir -> comps (a ++ b) = c -> Forall name_ok c -> (length b < n)%nat ->
  exists r t', @walk tree (tree_api E) n (a ++ b ++ 0 :: post) (zlen a) mode timestamp sehnd t = Val (r, t') /\ grows c t t' /\
    (r = -1 \/ (r = 0 /\ node_at (nodes t') c = Some Dir)) /\
    ((forall i, 0 <= t_answer E i) -> zlen (a ++ b) <= PATH_MAX -> clear_way c (nodes t) -> r = 0).
Proof.
  induction n as [| n IH]; intros a b post t Hnn Hl Hh Hd Hc Hok Hn; [lia |].
  destruct b as [| y b].
  { cbn [walk app]. rewrite (load_middle a _ _ _ eq_refl). cbn [mbind outcome_bind Z.eqb]. exists 0, t. rewrite app_nil_r in Hc. subst c.
    split_and!; [done | by apply tree_grows_same | by right | done]. }
  destruct (next_component a (y :: b)) as [[Hs Hca] | (ws & tk & r & Eb & Hws & Htk & Hne & Hlev & Hrest)].
  { by destruct Hl. } { destruct Hh as [? | [? | ?]]; [by left | done | by right]. }
  { cbn [walk app]. rewrite (load_middle a y _ _ eq_refl). cbn [mbind outcome_bind]. pose proof (proj1 (proj1 (Forall_cons _ _ _) Hs)) as ->.
    pose proof (skip_slashes_spec (length (a ++ (47 :: b) ++ 0 :: post)) a (47 :: b) 0 post Hs ltac:(done)) as Hsk.
    cbn [app] in Hsk. cbn [Z.eqb]. rewrite Hsk by (rewrite length_app; simpl; rewrite length_app; lia). cbn [mbind outcome_bind].
    change (47 :: b ++ 0 :: post) with ((47 :: b) ++ 0 :: post). rewrite app_assoc, (load_middle (a ++ 47 :: b) _ _ _ eq_refl).
    cbn [mbind outcome_bind Z.eqb]. exists 0, t. split_and!; [done | by apply tree_grows_same | | done]. right. split; [done |]. congruence. }
  rewrite Eb in *. clear Eb. set (level := a ++ ws ++ tk) in *.
  assert (level ++ 47 :: r = a ++ ws ++ tk ++ 47 :: r) as Elv by (unfold level; by rewrite <- !app_assoc).
  rewrite <- Elv in *. assert (no_nul level) as Hnl by (apply Forall_app in Hnn; by destruct Hnn).
  rewrite walk_next by done. fold level. unfold getPathDirStatus. cbn [d_stat tree_api]. unfold t_stat, t_ask. cbv zeta iota. cbn [nodes].
  set (t1 := mkTree (nodes t) (fscreate t) (S (t_tick t))). assert (grows c t t1) as G1 by (by apply tree_grows_same).
  assert (comps level `prefix_of` c) as Hpre by (rewrite <- Hc, Hrest; by eexists).
  assert (level <> []) as Hlne by (unfold level; by destruct a, ws, tk).
  assert (zlen level < zlen (level ++ 47 :: r)) as Hll by (rewrite zlen_app, zlen_cons; zlia).
  assert (forall tt, node_at (nodes tt) (comps level) = Some Dir -> grows c t tt ->
    exists r' t', @walk tree (tree_api E) n (level ++ (47 :: r) ++ 0 :: post) (zlen level) mode timestamp sehnd tt = Val (r', t') /\
      grows c t t' /\ (r' = -1 \/ (r' = 0 /\ node_at (nodes t') c = Some Dir)) /\
      ((forall i, 0 <= t_answer E i) -> zlen (level ++ 47 :: r) <= PATH_MAX -> clear_way c (nodes t) -> r' = 0)) as Hgo.
  { intros tt Htt Gt. destruct (IH level (47 :: r) post tt) as (r' & t' & -> & G2 & Hr & Hcalm); try done.
    - right. destruct Hl as [Hl | Hl]; [by destruct ws, tk |]. rewrite !last_app in Hl. destruct (last (47 :: r)) eqn:Elr; [done |].
      by apply last_None in Elr.
    - by right; right.
    - rewrite !length_app in Hn. destruct tk; [done |]. cbn [length] in *. lia.
    - exists r', t'. split_and!; [done | by eapply tree_grows_trans | done |]. intros Ha Hle Hw. apply Hcalm; [done | done | by eapply clear_way_grows]. }
  destruct (if t_answer E (t_tick t) <? 0 then StatError else resolve level (nodes t)) eqn:Est.
  - apply Hgo; [| done]. destruct (t_answer E (t_tick t) <? 0); [done |]. by apply resolve_dir in Est.
  - exists (-1), t1. split_and!; [done | done | by left |]. intros Ha Hle Hw. rewrite (proj2 (Z.ltb_ge _ 0)) in Est by done.
    destruct (resolve_clear level c (nodes t) Hlne ltac:(lia) Hpre Hw) as [[? _] | ?]; congruence.
  - destruct (t_answer E (t_tick t) <? 0); [done |].
    pose proof (make_level_spec level mode timestamp sehnd c t1) as Hm.
    destruct (@make_level tree (tree_api E) level mode timestamp sehnd t1) as [ok t2].
    assert (Forall name_ok (comps level)) as Hokl by (destruct Hpre as [l Hl']; rewrite Hl', Forall_app in Hok; by destruct Hok).
    destruct Hm as (G2 & Hdir & Hcalm); [done | by rewrite Hlev; destruct (comps a) | done | done | by rewrite Hlev, removelast_last |].
    assert (grows c t t2) as G by (by eapply tree_grows_trans). destruct ok; cbn [negb].
    + apply Hgo; [| done]. rewrite node_at_ne by (rewrite Hlev; by destruct (comps a)). by apply Hdir.
    + exists (-1), t2. split_and!; [done | done | by left |]. intros Ha _ _. by specialize (Hcalm Ha).
  - exists (-1), t1. split_and!; [done | done | by left |]. intros Ha Hle Hw. rewrite (proj2 (Z.ltb_ge _ 0)) in Est by done.
    destruct (resolve_clear level c (nodes t) Hlne ltac:(lia) Hpre Hw) as [[? _] | ?]; congruence.
Qed.

(** The directory that is to exist, with its slash at the end: [None] when the path has no
    slash after its first character and its name is to be stripped. *)
Fixpoint drop_name (s : block) : block := match s with c :: s' => if is_slash c then s else drop_name s' | [] => [] end.
Definition dir_part (strip : bool) (p : path) : option path :=
  if strip then
    let d := reverse (drop_name (reverse p)) in if zlen d <=? 1 then None else Some d
  else Some (p ++ [47]).

Lemma back_to_slash_spec p : forall n rest, p <> [] -> (length p <= n)%nat ->
  back_to_slash n (p ++ rest) (zlen p - 1) = Val (Z.max 0 (zlen (reverse (drop_name (reverse p))) - 1)).
Proof.
  induction p as [| x p IH] using rev_ind; intros n rest Hne Hn; [done |].
  rewrite length_app in Hn. cbn [length] in Hn. destruct n as [| n]; [lia |]. cbn [back_to_slash].
  rewrite reverse_snoc. cbn [drop_name]. rewrite zlen_app. change (zlen [x]) with 1. replace (zlen p + 1 - 1) with (zlen p) by lia.
  destruct (Z.eqb_spec (zlen p) 0) as [Hp |].
  { destruct p; [| rewrite zlen_cons in Hp; zlia]. destruct (is_slash x); done. }
  rewrite <- app_assoc. cbn [app]. rewrite (load_middle p x _ _ eq_refl). cbn [mbind outcome_bind]. unfold is_slash at 1.
  destruct (x =? 47).
  - rewrite reverse_cons, reverse_involutive, zlen_app. change (zlen [x]) with 1. f_equal. zlia.
  - rewrite IH; [done | | lia]. intros ->. done.
Qed.

Lemma drop_name_prefix p : exists q, p = reverse (drop_name (reverse p)) ++ q.
Proof.
  assert (forall s, exists q, s = q ++ drop_name s) as Hs.
  { induction s as [| c s [q IH]]; [by exists [] |]. simpl. destruct (is_slash c); [by exists [] |].
    exists (c :: q). simpl. by rewrite <- IH. }
  destruct (Hs (reverse p)) as [q Hq]. exists (reverse q). rewrite <- reverse_app, <- Hq. by rewrite reverse_involutive.
Qed.

Lemma make_cpath_spec buf p strip : zlen buf = zlen p + 2 -> p <> [] ->
  exists post, make_cpath buf p strip = Val ((fun d => d ++ 0 :: post) <$> dir_part strip p).
Proof.
  intros Hb Hne. unfold make_cpath. destruct (split_at buf (zlen p)) as (h & tl & -> & Hh); [zlia |].
  pose proof (store_bytes_app [] h tl p 0) as Hst. cbn [app] in Hst. rewrite Hst by (done || lia). cbn [mbind outcome_bind].
  rewrite zlen_app in Hb. destruct tl as [| u [| v [| ? ?]]]; try (cbn in Hb; zlia). unfold dir_part. destruct strip.
  - rewrite back_to_slash_spec by (done || lia). cbn [mbind outcome_bind]. destruct (drop_name_prefix p) as [q Hq].
    set (d := reverse (drop_name (reverse p))) in *. clearbody d. destruct (Z.leb_spec (zlen d) 1).
    + rewrite Z.max_l by lia. exists []. done.
    + rewrite (proj2 (Z.eqb_neq _ 0)) by lia. rewrite Hq, <- app_assoc. replace (Z.max 0 (zlen d - 1) + 1) with (zlen d) by lia.
      destruct (q ++ [u; v]) as [| y l] eqn:El; [by destruct q |]. rewrite (store_app d _ y 0) by done. by exists l.
  - rewrite (store_app p _ u 47) by done. cbn [mbind outcome_bind].
    assert (p ++ [47; v] = (p ++ [47]) ++ [v]) as -> by (by rewrite <- app_assoc).
    rewrite (store_app (p ++ [47]) _ v 0) by zlia. by exists [].
Qed.

Lemma dir_part_spec strip p d : no_nul p -> dir_part strip p = Some d -> no_nul d /\ last d = Some 47 /\ zlen d <= zlen p + 1.
Proof.
  intros Hp. unfold dir_part. destruct strip.
  - destruct (drop_name_prefix p) as [q Hq]. destruct (Z.leb_spec (zlen (reverse (drop_name (reverse p)))) 1) as [|Hl]; [done |].
    intros [= <-]. assert (last (reverse (drop_name (reverse p))) = Some 47) as Hlast.
    { rewrite last_reverse. destruct (drop_name (reverse p)) as [| c l] eqn:Ed; [done |]. simpl. f_equal.
      clear -Ed. induction (reverse p) as [| x s IH]; [done |]. simpl in Ed. destruct (is_slash x) eqn:Ex; [| by apply IH].
      injection Ed as -> _. by apply Z.eqb_eq. }
    set (d := reverse (drop_name (reverse p))) in *. clearbody d. rewrite Hq in *. apply Forall_app in Hp as [Hp _]. split_and!; [done | done | zlia].
  - intros [= <-]. split_and!; [apply Forall_app; by repeat constructor | apply last_snoc | rewrite zlen_app; change (zlen [47]) with 1; lia].
Qed.
End Create.

(** ** Properties *)


(** C31: when no call fails and no path below is too long, [dirUnlinkHierarchy] returns 0, within a recursion as
    deep as the hierarchy. *)
Theorem dirUnlinkHierarchy_total (E : tree_env) n p t :
  (forall i, 0 <= t_answer E i) -> tree_wf (nodes t) -> comps p <> [] -> is_Some (nodes t !! comps p) ->
  fits p n (nodes t) -> zlen p < PATH_MAX ->
  exists t', @dirUnlinkHierarchy tree (tree_api E) n p t = Val (0, t').
Proof. intros Ha. by apply dirUnlinkHierarchy_complete. Qed.

(** C25: "mkdir -p": whatever calls fail, [dirCreateHierarchy] returns, only adds missing
    directories on the way to the one asked for, leaves the context for new files reset,
    and returns 0 only when the directory exists; when no call fails and no file is in the
    way it does return 0. *)
Theorem dirCreateHierarchy_correct (E : tree_env) p mode timestamp strip sehnd t :
  (forall n, 0 <= n -> match t_malloc E n with Some b => zlen b = n | None => True end) -> no_nul p ->
  (forall d, dir_part strip p = Some d -> Forall name_ok (comps d)) ->
  exists r t', @dirCreateHierarchy tree (tree_api E) p mode timestamp strip sehnd t = Val (r, t') /\
    match (if bool_decide (p = []) then None else dir_part strip p) with
    | None => r = -1 /\ nodes t' = nodes t
    | Some d =>
        grows (comps d) t t' /\ (r = -1 \/ (r = 0 /\ node_at (nodes t') (comps d) = Some Dir)) /\
        ((forall i, 0 <= t_answer E i) -> is_Some (t_malloc E (zlen p + 2)) -> zlen p + 1 < PATH_MAX ->
         clear_way (comps d) (nodes t) -> r = 0)
    end.
Proof.
  intros Hm Hnn Hok. unfold dirCreateHierarchy. destruct p as [| x p]; [by exists (-1), t |].
  rewrite bool_decide_false by done. set (q := x :: p) in *. assert (q <> []) as Hq by done. clearbody q. clear x p.
  cbn [d_malloc tree_api]. specialize (Hm (zlen q + 2) ltac:(zlia)). destruct (t_malloc E (zlen q + 2)) as [buf |].
  2: { exists (-1), t. split; [done |]. destruct (dir_part strip q); [| done]. split_and!; [by apply tree_grows_same | by left |]. by intros _ [? ?]. }
  destruct (make_cpath_spec buf q strip Hm Hq) as [post ->]. cbn [mbind outcome_bind].
  destruct (dir_part strip q) as [d |] eqn:Ed; cbn [fmap option_fmap option_map]; [| by exists (-1), t].
  destruct (dir_part_spec strip q d Hnn Ed) as (Hd & Hl & Hlen). rewrite c_str_app by done. cbn [mbind outcome_bind].
  unfold getPathDirStatus. cbn [d_stat tree_api]. unfold t_stat, t_ask. cbv zeta iota. cbn [nodes].
  set (t1 := mkTree (nodes t) (fscreate t) (S (t_tick t))). assert (grows (comps d) t t1) as G1 by (by apply tree_grows_same).
  assert (d <> []) as Hdne by (by intros ->).
  destruct (if t_answer E (t_tick t) <? 0 then StatError else resolve d (nodes t)) eqn:Est.
  - exists 0, t1. split_and!; [done | done | right; split; [done |] | done]. destruct (t_answer E (t_tick t) <? 0); [done |].
    by apply resolve_dir.
  - exists (-1), t1. split_and!; [done | done | by left |]. intros Ha _ Hle Hw. rewrite (proj2 (Z.ltb_ge _ 0)) in Est by done.
    destruct (resolve_clear d (comps d) (nodes t) Hdne ltac:(lia) ltac:(done) Hw) as [[? _] | ?]; congruence.
  - pose proof (walk_spec E mode timestamp sehnd (comps d) (length (d ++ 0 :: post)) [] d post t1) as Hw. cbn [app] in Hw.
    destruct Hw as (r & t' & Hr & G & Hr' & Hcalm); [done | by right | by left | done | done | by apply Hok | rewrite length_app; simpl; lia |].
    change (zlen (@nil Z)) with 0 in Hr. rewrite Hr. exists r, t'. split_and!; [done | by eapply tree_grows_trans | done |]. intros Ha _ Hle Hw. apply Hcalm; [done | lia | done].
  - exists (-1), t1. split_and!; [done | done | by left |]. intros Ha _ Hle Hw. rewrite (proj2 (Z.ltb_ge _ 0)) in Est by done.
    destruct (resolve_clear d (comps d) (nodes t) Hdne ltac:(lia) ltac:(done) Hw) as [[? _] | ?]; congruence.
Qed.

(** *** An example *)

(** /d holds the file f and the directory e, which holds f; /k is a file. *)
Definition demo_list : list (list block * kind) :=
  [([str "d"], Dir); ([str "d"; str "f"], Other); ([str "d"; str "e"], Dir); ([str "d"; str "e"; str "f"], Other); ([str "k"], Other)].
Definition demo_nodes : gmap (list block) kind := list_to_map demo_list.
Definition demo_tree : tree := mkTree demo_nodes None 0.
Definition demo_tree_env : tree_env := mkTreeEnv (fun _ => 0) (fun _ => Some (str "u:r")) (fun n => Some (replicate (Z.to_nat n) 7)).
(** The third unlink and later calls fail. *)
Definition failing_env : tree_env := mkTreeEnv (fun i => if Nat.ltb i 7 then 0 else -1) (fun _ => None) (fun n => None).

Lemma map_Forall_list {A} (P : list block * A -> Prop) (l : list (list block * A)) k x :
  Forall P l -> (list_to_map l : gmap (list block) A) !! k = Some x -> P (k, x).
Proof. intros Hl Hk. rewrite Forall_forall in Hl. apply Hl. by apply elem_of_list_to_map_2. Qed.

Definition key_ok_b (m : gmap (list block) kind) (k : list block) : bool :=
  negb (bool_decide (k = [])) && bool_decide (node_at m (removelast k) = Some Dir) &&
  forallb (fun n => negb (bool_decide (n = [])) && forallb (fun c => negb (is_slash c) && negb (c =? 0)) n &&
                    negb (bool_decide (n = str ".")) && negb (bool_decide (n = str ".."))) k.

Lemma tree_wf_b (l : list (list block * kind)) :
  forallb (fun kv => key_ok_b (list_to_map l) kv.1) l = true -> tree_wf (list_to_map l).
Proof.
  intros Hb. assert (forall k, is_Some ((list_to_map l : gmap (list block) kind) !! k) -> key_ok_b (list_to_map l) k = true) as Hk.
  { intros k [x Hx]. apply elem_of_list_to_map_2 in Hx. rewrite forallb_forall in Hb. apply (Hb (k, x)). by apply list_elem_of_In. }
  split.
  - intros k [[Hne _]%andb_true_iff Hn]%Hk%andb_true_iff. split; [by apply negb_true_iff, bool_decide_eq_false in Hne |].
    rewrite forallb_forall in Hn. apply Forall_forall. intros n Hin%list_elem_of_In%Hn. rewrite !andb_true_iff, !negb_true_iff in Hin.
    destruct Hin as [[[H1 H2] H3] H4]. apply bool_decide_eq_false in H1, H3, H4. rewrite forallb_forall in H2.
    assert (forall c, c ∈ n -> is_slash c = false /\ c <> 0) as Hc.
    { intros c Hc%list_elem_of_In%H2. apply andb_true_iff in Hc as [Ha Hb']. apply negb_true_iff in Ha, Hb'. split; [done | by apply Z.eqb_neq]. }
    split_and!; [done | apply Forall_forall; intros c Hc'; by apply Hc | apply Forall_forall; intros c Hc'; by apply Hc | done | done].
  - intros k n [[_ Hp]%andb_true_iff _]%Hk%andb_true_iff. apply bool_decide_eq_true in Hp. by rewrite removelast_last in Hp.
Qed.

Lemma demo_tree_wf : tree_wf (nodes demo_tree).
Proof. apply (tree_wf_b demo_list). by vm_compute. Qed.


(** Everything below /d fails or goes; with every call succeeding all of it goes. *)
Lemma dirUnlinkHierarchy_total_witness :
  fits (str "/d") 3 (nodes demo_tree) /\ exists t', @dirUnlinkHierarchy tree (tree_api demo_tree_env) 3 (str "/d") demo_tree = Val (0, t').
Proof.
  assert (fits (str "/d") 3 (nodes demo_tree)) as F.
  { intros l [x Hx].
    refine (map_Forall_list (fun kv => forall l, kv.1 = comps (str "/d") ++ l -> (length l < 3)%nat /\ zlen (str "/d") + plen l < PATH_MAX)
      demo_list _ _ _ Hx l eq_refl).
    unfold demo_list. repeat apply Forall_cons_2; [.. | apply Forall_nil_2]; intros l' Hl'; vm_compute in Hl'; try discriminate;
      injection Hl' as <-; (split; [vm_compute; lia | by vm_compute]). }
  split; [exact F |]. apply (dirUnlinkHierarchy_total demo_tree_env 3 (str "/d") demo_tree).
  - intros i. vm_compute. congruence.
  - exact demo_tree_wf.
  - vm_compute. congruence.
  - exists Dir. by vm_compute.
  - exact F.
  - by vm_compute.
Defined.

Lemma dirCreateHierarchy_correct_witness :
  exists t', @dirCreateHierarchy tree (tree_api demo_tree_env) (str "/d/x/y/name") 493 true true true demo_tree = Val (0, t') /\
    nodes t' !! [str "d"; str "x"; str "y"] = Some Dir.
Proof.
  destruct (dirCreateHierarchy_correct demo_tree_env (str "/d/x/y/name") 493 true true true demo_tree) as (r & t' & Hr & Hpost).
  - intros n Hn. cbn [t_malloc demo_tree_env]. unfold zlen. rewrite length_replicate. lia.
  - apply (bool_decide_unpack _). by vm_compute.
  - intros d Hd. vm_compute in Hd. injection Hd as <-. apply (bool_decide_unpack _). by vm_compute.
  - exists t'. vm_compute in Hr. injection Hr as <- <-. by vm_compute.
Defined.

(** A file directly under the root has a directory, but it is not found: the search for
    the last slash stops at the first character without looking at it. *)
Theorem root_file_has_no_directory (E : tree_env) mode timestamp sehnd t :
  (forall n, 0 <= n -> exists b, t_malloc E n = Some b /\ zlen b = n) ->
  node_at (nodes t) [] = Some Dir /\ @dirCreateHierarchy tree (tree_api E) (str "/name") mode timestamp true sehnd t = Val (-1, t).
Proof.
  intros Hm. split; [done |]. unfold dirCreateHierarchy. change (str "/name") with [47; 110; 97; 109; 101]. cbn [d_malloc tree_api].
  destruct (Hm 7 ltac:(lia)) as (b & Hb & Hl). change (zlen [47; 110; 97; 109; 101] + 2) with 7. rewrite Hb.
  destruct (make_cpath_spec b [47; 110; 97; 109; 101] true) as [post ->]; [done | done |]. done.
Qed.

(** The path of an entry is cut to fit its buffer.  For a directory with entries whose path
    is as long as the system allows, that is the directory itself, and the recursion does
    not end. *)
Theorem long_directory_never_ends (E : tree_env) n p t x :
  (forall i, 0 <= t_answer E i) -> tree_wf (nodes t) -> zlen p = PATH_MAX - 1 -> node_at (nodes t) (comps p) = Some Dir ->
  x ∈ children (comps p) (nodes t) ->
  @dirUnlinkHierarchy tree (tree_api E) n p t = Trap NoFuel.
Proof.
  intros Hans W Hl Hd Hx. assert (p <> []) as Hne by (by intros ->).
  assert (resolve p (nodes t) = IsDir) as Hr by (by apply (resolve_node p (nodes t) Dir Hne); [lia |]).
  assert (Forall name_ok (children (comps p) (nodes t))) as Hok.
  { apply Forall_forall. intros y Hy%elem_of_children. apply (wf_names _ W) in Hy as [_ Hy]. rewrite Forall_app, Forall_singleton in Hy. by destruct Hy. }
  remember (nodes t) as m eqn:Em. revert t Em. induction n as [| n IH]; intros t ->;
    cbn [dirUnlinkHierarchy d_lstat d_opendir tree_api]; unfold t_stat, t_opendir, t_ask; cbv zeta iota; cbn [nodes t_tick fscreate];
    rewrite !(answer_calm E Hans), Hr, bool_decide_true by done; cbn [orb negb]; [done |].
  cbn [unlink_entries]. change (bool_decide (str "." = str "..") || bool_decide (str "." = str ".")) with true.
  change (bool_decide (str ".." = str "..") || bool_decide (str ".." = str ".")) with true. cbv iota.
  destruct (children (comps p) (nodes t)) as [| y l]; [by apply elem_of_nil in Hx |]. apply Forall_cons in Hok as [Hy _].
  cbn [unlink_entries]. rewrite !bool_decide_false by apply Hy. cbn [orb].
  assert (entry_path p y = p) as ->.
  { unfold entry_path. replace (Z.to_nat (PATH_MAX - 1)) with (length p) by (unfold PATH_MAX, zlen in *; lia). apply take_app_length. }
  rewrite (IH (mkTree (nodes t) (fscreate t) (S (S (S (t_tick t)))))) by done. done.
Qed.
