(* ===== verification/ApplyPatch.v ===== *)
(** * applypatch/applypatch.c: patching a file or a partition

    The program runs on the system of Sys.v.  A function that can fail in C's own ways
    (a null pointer, an index out of range, a loop without end) returns an [outcome].
    mincrypt's SHA-1 is a parameter [sha1] on byte strings; a SHA context is the data it
    has been given.  A file name is the string without its terminating NUL.  Releasing
    memory and printing are not modelled; the name given to statfs only chooses the file
    system whose free space the environment answers. *)

From stdpp Require Import base numbers list gmap sorting.
From stdpp Require Import strings.
From S2P Require Import Prelude CString Bits Edify Bspatch ImgPatch Retouch Sys FreeCache.

Definition SHA_DIGEST_SIZE : nat := 20.

(** ** Digests *)

(** The value of a hexadecimal digit. *)
Definition hex_digit (c : Z) : option Z :=
  if (48 <=? c) && (c <=? 57) then Some (c - 48)
  else if (97 <=? c) && (c <=? 102) then Some (c - 97 + 10)
  else if (65 <=? c) && (c <=? 70) then Some (c - 65 + 10)
  else None.

(** [n] more bytes of the digest from the rest [ps] of the string, then its end; [None]
    is the result -1. *)
Fixpoint parse_digest (n : nat) (ps : block) : option block :=
  match n with
  | O => match ps with [] => Some [] | _ => None end
  | S n =>
      match ps with
      | c1 :: ps =>
          match hex_digit c1, ps with
          | Some d1, c2 :: ps =>
              match hex_digit c2 with
              | Some d2 => cons (Z.lor (u8 (Z.shiftl d1 4)) d2) <$> parse_digest n ps
              | None => None
              end
          | _, _ => None
          end
      | [] => None
      end
  end.

Definition ParseSha1 (s : block) : option block := parse_digest SHA_DIGEST_SIZE s.

(** The index of the first digest string that matches, or -1. *)
Fixpoint find_match (sha1 : block) (patch_sha1_str : list block) (i : Z) : Z :=
  match patch_sha1_str with
  | [] => -1
  | p :: ps => if bool_decide (ParseSha1 p = Some sha1) then i else find_match sha1 ps (i + 1)
  end.
Definition FindMatchingPatch (sha1 : block) (patch_sha1_str : list block) : Z := find_match sha1 patch_sha1_str 0.

(** ** Names of partitions *)

Definition colon : Z := 58.

(** [strtok(_, ":")]: the next token and what is left. *)
Fixpoint skip_colons (s : block) : block :=
  match s with
  | c :: r => if c =? colon then skip_colons r else s
  | [] => []
  end.
Fixpoint until_colon (s : block) : block * block :=
  match s with
  | [] => ([], [])
  | c :: r => if c =? colon then ([], r) else let '(t, r) := until_colon r in (c :: t, r)
  end.
Definition strtok (s : block) : option block * block :=
  match skip_colons s with
  | [] => (None, [])
  | s => let '(t, r) := until_colon s in (Some t, r)
  end.

Definition is_partition (filename : block) : bool :=
  starts_with (str "MTD:") filename || starts_with (str "EMMC:") filename.

Inductive PartitionType := MTD | EMMC.
#[global] Instance PartitionType_eq_dec : EqDecision PartitionType.
Proof. solve_decision. Defined.

(** The kind of partition and the rest of the name; [strcmp] of a null pointer traps. *)
Definition partition_type (filename : block) : outcome (option PartitionType * block) :=
  let '(magic, rest) := strtok filename in
  match magic with
  | None => Trap NullDeref
  | Some magic =>
      if bool_decide (magic = str "MTD") then Val (Some MTD, rest)
      else if bool_decide (magic = str "EMMC") then Val (Some EMMC, rest)
      else Val (None, rest)
  end.

Definition count_colons (s : block) : Z := zlen (filter (fun c => c = colon) s).

(** A (size, sha1) pair of the name; the second string may be missing. *)
Definition pair_le (a b : Z * option block) : Prop := a.1 <= b.1.
#[global] Instance pair_le_dec a b : Decision (pair_le a b).
Proof. unfold pair_le. apply _. Defined.

(** ** The program *)

Record FileContents := mkContents {
  fc_sha1 : block; fc_data : option block; fc_size : Z; fc_mode : Z; fc_uid : Z; fc_gid : Z
}.
Definition no_data (f : FileContents) : FileContents :=
  mkContents (fc_sha1 f) None (fc_size f) (fc_mode f) (fc_uid f) (fc_gid f).

Section Program.
Context `{Arch} `{mtd_api} (E : env).
Context (bz : bzlib) (fuel rounds : nat) (malloc : Z -> option block) (z : zlib) (sha1 : block -> block).

(** *** Loading *)

(** The (size, sha1) pairs; [None] is the early return for a size of zero. *)
Fixpoint read_pairs (n : nat) (rest : block) : outcome (option (list (Z * option block))) :=
  match n with
  | O => Val (Some [])
  | S n =>
      let '(size_str, rest) := strtok rest in
      match size_str with
      | None => Trap NullDeref
      | Some size_str =>
          let size := wrapu word_bits (strtol size_str).1 in
          if size =? 0 then Val None else
          let '(sha, rest) := strtok rest in
          let* more := read_pairs n rest in
          Val (cons (size, sha) <$> more)
      end
  end.

(** An open partition: the flash driver's context, or what is left to read. *)
Inductive reader := ReadMtd (ctx : mtd_reading) | ReadEmmc (rest : block).

(** The partitions are scanned once; the result is not looked at. *)
Definition scan_once (s : sys) : outcome sys :=
  if mtd_partitions_scanned s then Val s
  else let* (_, m) := mtd_scan_partitions (mtd s) in Val (set_scanned (set_mtd m s)).

Definition open_partition (type : PartitionType) (partition : block) (s : sys) : outcome (option reader * sys) :=
  match type with
  | MTD =>
      let* s := scan_once s in
      match mtd_find_partition_by_name (mtd s) partition with
      | None => Val (None, s)
      | Some p => let '(ctx, m) := mtd_read_partition p (mtd s) in Val (ReadMtd <$> ctx, set_mtd m s)
      end
  | EMMC =>
      let '(a, s) := answer E s in
      Val (if a <? 0 then None else ReadEmmc <$> disks s !! partition, s)
  end.

Definition read_some (r : reader) (n : Z) (s : sys) : outcome (Z * block * reader * sys) :=
  match r with
  | ReadMtd ctx =>
      let* (k, bytes, ctx, m) := mtd_read_data ctx n (mtd s) in
      Val (wrapu word_bits k, bytes, ReadMtd ctx, set_mtd m s)
  | ReadEmmc rest =>
      let '(bytes, s) := sys_fread E rest n s in
      Val (zlen bytes, bytes, ReadEmmc (drop (length bytes) rest), s)
  end.

Definition close_reader (r : reader) (s : sys) : sys :=
  match r with
  | ReadMtd ctx => set_mtd (mtd_read_close ctx (mtd s)) s
  | ReadEmmc _ => s
  end.

(** What the loop over the pairs leaves, with the bytes read so far. *)
Inductive matching := Matched (data : block) | NoMatch (so_far : block) | ReadFailed (so_far : block).

Fixpoint try_pairs (pairs : list (Z * option block)) (r : reader) (so_far : block) (s : sys) :
    outcome (matching * reader * sys) :=
  match pairs with
  | [] => Val (NoMatch so_far, r, s)
  | (size, sha) :: pairs =>
      let next := wrapu word_bits (size - zlen so_far) in
      let* (ok, so_far, r, s) :=
        if 0 <? next then
          let* (k, bytes, r, s) := read_some r next s in
          if negb (next =? k) then Val (false, so_far, r, s) else Val (true, so_far ++ bytes, r, s)
        else Val (true, so_far, r, s) in
      if negb ok then Val (ReadFailed so_far, r, s) else
      match sha with
      | None => Trap NullDeref
      | Some sha =>
          match ParseSha1 sha with
          | None => Val (ReadFailed so_far, r, s)
          | Some parsed =>
              if bool_decide (sha1 so_far = parsed) then Val (Matched so_far, r, s)
              else try_pairs pairs r so_far s
          end
      end
  end.

(** The contents after a failure: the data are freed, their size stays. *)
Definition unmatched (file : FileContents) (so_far : block) : FileContents :=
  mkContents (fc_sha1 file) None (zlen so_far) (fc_mode file) (fc_uid file) (fc_gid file).

Definition LoadPartitionContents (filename : block) (file : FileContents) (s : sys) :
    outcome (Z * FileContents * sys) :=
  let* (type, rest) := partition_type filename in
  match type with
  | None => Val (-1, file, s)
  | Some type =>
      let '(partition, rest) := strtok rest in
      let pairs := (count_colons filename - 1) / 2 in
      let* ps := read_pairs (Z.to_nat pairs) rest in
      match ps, partition with
      | None, _ => Val (-1, file, s)
      | Some _, None => Trap NullDeref
      | Some ps, Some partition =>
          let ps := merge_sort pair_le ps in
          let* (r, s) := open_partition type partition s in
          match r with
          | None => Val (-1, file, s)
          | Some r =>
              let* _ := load ps (pairs - 1) in  (** the largest size, for the allocation *)
              let* (m, r, s) := try_pairs ps r [] s in
              match m with
              | ReadFailed so_far => Val (-1, unmatched file so_far, s)
              | NoMatch so_far => Val (-1, unmatched file so_far, close_reader r s)
              | Matched data =>
                  Val (0, mkContents (sha1 data) (Some data) (zlen data) 420 0 0, close_reader r s)
              end
          end
      end
  end.

Definition LoadFileContents (filename : block) (file : FileContents) (do_mask : bool) (s : sys) :
    outcome (Z * FileContents * sys) :=
  let file := no_data file in
  if is_partition filename then LoadPartitionContents filename file s else
  let '(st, s) := sys_stat E filename s in
  match st with
  | None => Val (-1, file, s)
  | Some st =>
      let size := zlen (f_data st) in
      let file := mkContents (fc_sha1 file) None size (f_mode st) (f_uid st) (f_gid st) in
      let '(f, s) := sys_fopen E filename s in
      match f with
      | None => Val (-1, file, s)
      | Some contents =>
          let '(data, s) := sys_fread E contents size s in
          if negb (zlen data =? size) then Val (-1, file, s) else
          let* (r, data) :=
            if do_mask then
              let* (r, data, _) := retouch_mask_data data (i32 size) (Some 0) in Val (r, data)
            else Val (RETOUCH_DATA_MATCHED, data) in
          if negb (r =? RETOUCH_DATA_MATCHED) then Val (-1, file, s) else
          Val (0, mkContents (sha1 data) (Some data) size (f_mode st) (f_uid st) (f_gid st), s)
      end
  end.

(** *** Sinks *)

(** [write] until all is written or a call fails; each call that does not fail writes at
    least one byte. *)
Fixpoint sink_loop (n : nat) (fd : path) (data : block) (done : Z) (s : sys) : Z * sys :=
  match n, data with
  | _, [] => (done, s)
  | O, _ => (done, s)
  | S n, _ =>
      let '(wrote, s) := sys_write E fd data s in
      if wrote <=? 0 then (done, s)
      else sink_loop n fd (drop (Z.to_nat wrote) data) (done + wrote) s
  end.
Definition FileSink (fd : path) (data : block) (s : sys) : Z * sys := sink_loop (length data) fd data 0 s.

Record MemorySinkInfo := mkMsi { msi_buffer : block; msi_size : Z; msi_pos : Z }.

Definition MemorySink (data : block) (msi : MemorySinkInfo) : Z * MemorySinkInfo :=
  if msi_size msi - msi_pos msi <? zlen data then (-1, msi)
  else (zlen data,
        mkMsi (take (Z.to_nat (msi_pos msi)) (msi_buffer msi) ++ data ++
               drop (Z.to_nat (msi_pos msi) + length data) (msi_buffer msi))
          (msi_size msi) (msi_pos msi + zlen data)).

(** *** Saving *)

(** [write] of a null pointer fails. *)
Definition sink_contents (fd : path) (file : FileContents) (s : sys) : Z * sys :=
  match fc_data file with
  | Some data => FileSink fd data s
  | None => if 0 <? fc_size file then (0, tock s) else (0, s)
  end.

Definition SaveFileContents (filename : path) (file : FileContents) (s : sys) : Z * sys :=
  let '(fd, s) := sys_open_trunc E filename s in
  match fd with
  | None => (-1, s)
  | Some fd =>
      let '(bytes_written, s) := sink_contents fd file s in
      if negb (bytes_written =? fc_size file) then (-1, s) else
      let '(r, s) := sys_chmod E filename (fc_mode file) s in
      if negb (r =? 0) then (-1, s) else
      let '(r, s) := sys_chown E filename (fc_uid file) (fc_gid file) s in
      if negb (r =? 0) then (-1, s) else (0, s)
  end.

(** *** Writing a partition *)

Definition write_mtd (data : block) (partition : block) (s : sys) : outcome (Z * sys) :=
  let* s := scan_once s in
  match mtd_find_partition_by_name (mtd s) partition with
  | None => Val (-1, s)
  | Some p =>
      let '(ctx, m) := mtd_write_partition p (mtd s) in
      match ctx with
      | None => Val (-1, set_mtd m s)
      | Some ctx =>
          let* (written, ctx, m) := mtd_write_data ctx data m in
          if negb (wrapu word_bits written =? zlen data) then
            let* (_, m) := mtd_write_close ctx m in Val (-1, set_mtd m s)
          else
            let* (r, ctx, m) := mtd_erase_blocks ctx (-1) m in
            if r <? 0 then let* (_, m) := mtd_write_close ctx m in Val (-1, set_mtd m s)
            else let* (r, m) := mtd_write_close ctx m in Val (if negb (r =? 0) then -1 else 0, set_mtd m s)
      end
  end.

(** [while (start < len)]: all written, or an error. *)
Fixpoint dev_write_loop (n : nat) (p : path) (data : block) (start : Z) (s : sys) : outcome (bool * sys) :=
  if zlen data <=? start then Val (true, s) else
  match n with
  | O => Trap NoFuel
  | S n =>
      let to_write := Z.min (zlen data - start) 4096 in
      let '(r, s) := sys_dev_write E p start (slice data start to_write) s in
      match r with
      | IoError => Val (false, s)
      | IoInterrupted => dev_write_loop n p data start s
      | IoCount k => dev_write_loop n p data (start + k) s
      end
  end.

(** [while (so_far < to_read)] for the page at [p0]. *)
Fixpoint page_loop (n : nat) (p : path) (p0 to_read : Z) (buffer : block) (s : sys) : outcome (option block * sys) :=
  if to_read <=? zlen buffer then Val (Some buffer, s) else
  match n with
  | O => Trap NoFuel
  | S n =>
      let '(r, bytes, s) := sys_dev_read E p (p0 + zlen buffer) (to_read - zlen buffer) s in
      match r with
      | IoError => Val (None, s)
      | IoInterrupted => page_loop n p p0 to_read buffer s
      | IoCount _ => page_loop n p p0 to_read (buffer ++ bytes) s
      end
  end.

(** The verification from page [p0] on: where it first fails, the length of the data
    when it does not, or a read error. *)
Fixpoint verify_loop (n : nat) (p : path) (data : block) (p0 : Z) (s : sys) : outcome (option Z * sys) :=
  if zlen data <=? p0 then Val (Some (zlen data), s) else
  match n with
  | O => Trap NoFuel
  | S n =>
      let to_read := Z.min (zlen data - p0) 4096 in
      let* (page, s) := page_loop fuel p p0 to_read [] s in
      match page with
      | None => Val (None, s)
      | Some page =>
          if negb (bool_decide (page = slice data p0 to_read)) then Val (Some p0, s)
          else verify_loop n p data (p0 + 4096) s
      end
  end.

(** The attempts that are left; [None] is the early return. *)
Fixpoint attempts (n : nat) (p : path) (data : block) (start : Z) (s : sys) : outcome (option bool * sys) :=
  match n with
  | O => Val (Some false, s)
  | S n =>
      let* (ok, s) := dev_write_loop fuel p data start s in
      if negb ok then Val (None, s) else
      let s := sys_drop_caches E p s in
      let* (start, s) := verify_loop (length data) p data 0 s in
      match start with
      | None => Val (None, s)
      | Some start => if start =? zlen data then Val (Some true, s) else attempts n p data start s
      end
  end.

Definition write_emmc (data : block) (partition : path) (s : sys) : outcome (Z * sys) :=
  let '(a, s) := answer E s in
  match (if a <? 0 then None else disks s !! partition) with
  | None => Val (-1, s)
  | Some _ =>
      let* (success, s) := attempts 10 partition data 0 s in
      match success with
      | None | Some false => Val (-1, s)
      | Some true => let '(a, s) := answer E s in Val (if a <? 0 then -1 else 0, s)
      end
  end.

Definition WriteToPartition (data target : block) (s : sys) : outcome (Z * sys) :=
  let* (type, rest) := partition_type target in
  match type, (strtok rest).1 with
  | None, _ | _, None => Val (-1, s)
  | Some MTD, Some partition => write_mtd data partition s
  | Some EMMC, Some partition => write_emmc data partition s
  end.

Definition CacheSizeCheck (bytes : Z) (s : sys) : Z * sys :=
  let '(r, s) := MakeFreeSpaceOnCache E bytes s in (if r <? 0 then 1 else 0, s).

(** *** Checking *)

(** A variable of type [FileContents] before anything is stored in it. *)
Variable uninit : FileContents.

Definition applypatch_check (filename : block) (patch_sha1_str : list block) (s : sys) : outcome (Z * sys) :=
  let* (r, file, s) := LoadFileContents filename (no_data uninit) true s in
  if negb (r =? 0) ||
     ((0 <? zlen patch_sha1_str) && (FindMatchingPatch (fc_sha1 file) patch_sha1_str <? 0)) then
    let* (r, file, s) := LoadFileContents CACHE_TEMP_SOURCE (no_data file) true s in
    if negb (r =? 0) then Val (1, s)
    else if FindMatchingPatch (fc_sha1 file) patch_sha1_str <? 0 then Val (1, s)
    else Val (0, s)
  else Val (0, s).

(** *** Patching *)

(** The patch of the right kind applied to [source]; [None] for an unknown format. *)
Definition apply_any {S} (sink : block -> S -> Z * S) (source patch : block) (bonus : option block) (token : S) :
    outcome (option (Z * S * block)) :=
  if (8 <=? zlen patch) && bool_decide (take 8 patch = str "BSDIFF40") then
    let* (r, token, ctx) :=
      ApplyBSDiffPatch bz fuel malloc rounds source patch (zlen patch) 0 sink token app (Some []) in
    Val (Some (r, token, default [] ctx))
  else if (8 <=? zlen patch) && bool_decide (take 8 patch = str "IMGDIFF2") then
    let* (r, token, ctx) := ApplyImagePatch bz fuel rounds malloc z sink app source patch token [] bonus in
    Val (Some (r, token, ctx))
  else Val None.

(** One round before the patch is applied: whether to go on, [retry], [made_copy]. *)
Definition prepare (source_file : FileContents) (have_source_patch : bool) (source_filename target_filename : path)
    (target_size retry : Z) (made_copy : bool) (s : sys) : bool * Z * bool * sys :=
  if is_partition target_filename then
    let '(r, s) := MakeFreeSpaceOnCache E (wrapu word_bits (fc_size source_file)) s in
    if r <? 0 then (false, retry, made_copy, s) else
    let '(r, s) := SaveFileContents CACHE_TEMP_SOURCE source_file s in
    if r <? 0 then (false, retry, made_copy, s) else (true, 0, true, s)
  else
    let '(enough_space, s) :=
      if 0 <? retry then
        let '(free_space, s) := FreeSpaceForFile E s in
        ((262144 <? free_space) && (wrapu word_bits (target_size * 3) / 2 <? free_space), s)
      else (false, s) in
    let retry := if enough_space then retry else 0 in
    if negb enough_space && have_source_patch then
      if is_partition source_filename then (false, retry, made_copy, s) else
      let '(r, s) := MakeFreeSpaceOnCache E (wrapu word_bits (fc_size source_file)) s in
      if r <? 0 then (false, retry, made_copy, s) else
      let '(r, s) := SaveFileContents CACHE_TEMP_SOURCE source_file s in
      if r <? 0 then (false, retry, made_copy, s) else
      let '(_, s) := sys_unlink E source_filename s in
      let '(_, s) := FreeSpaceForFile E s in
      (true, retry, true, s)
    else (true, retry, made_copy, s).

(** Where the output went. *)
Inductive output := ToMemory (msi : MemorySinkInfo) | ToFile (outname : path).

(** What the loop leaves: the data that were hashed and where they are, or a failure. *)
Inductive generated := Generated (ctx : block) (out : output) | NotGenerated.

Definition outname_of (target_filename : path) : path := target_filename ++ str ".patch".

(** One application of the patch: its result and what it left; [None] for the early
    returns. *)
Definition produce (source patch : block) (target_filename : path) (target_size : Z) (bonus : option block) (s : sys) :
    outcome (option (Z * block * output) * sys) :=
  if is_partition target_filename then
    match malloc target_size with
    | None => Val (None, s)
    | Some buffer =>
        let* r := apply_any MemorySink source patch bonus (mkMsi buffer (wraps word_bits target_size) 0) in
        match r with
        | None => Val (None, s)
        | Some (r, msi, ctx) => Val (Some (r, ctx, ToMemory msi), s)
        end
    end
  else
    let outname := outname_of target_filename in
    let '(fd, s) := sys_open_trunc E outname s in
    match fd with
    | None => Val (None, s)
    | Some fd =>
        let* r := apply_any (FileSink fd) source patch bonus s in
        match r with
        | None => Val (None, s)
        | Some (r, s, ctx) => Val (Some (r, ctx, ToFile outname), s)
        end
    end.

(** No data of a null blob are looked at: its size -1 is too small for a patch. *)
Definition blob_data (v : Value) : block := match v with ValString d | ValBlob d => d | ValNoBlob => [] end.

(** [do ... while (retry-- > 0)]: [n] rounds at most. *)
Fixpoint generate_loop (n : nat) (source_file source_to_use : FileContents) (have_source_patch : bool) (patch : Value)
    (source_filename target_filename : path) (target_size : Z) (bonus : option block) (retry : Z) (made_copy : bool)
    (s : sys) : outcome (generated * bool * sys) :=
  match n with
  | O => Trap NoFuel
  | S n =>
      let '(go_on, retry, made_copy, s) :=
        prepare source_file have_source_patch source_filename target_filename target_size retry made_copy s in
      if negb go_on then Val (NotGenerated, made_copy, s) else
      if negb (val_type patch =? 2) then Val (NotGenerated, made_copy, s) else
      match fc_data source_to_use with
      | None => Trap NullDeref
      | Some source =>
          let* (p, s) := produce source (blob_data patch) target_filename target_size bonus s in
          match p with
          | None => Val (NotGenerated, made_copy, s)
          | Some (result, ctx, out) =>
              if result =? 0 then Val (Generated ctx out, made_copy, s)
              else if retry =? 0 then Val (NotGenerated, made_copy, s)
              else
                let s := match out with ToFile outname => (sys_unlink E outname s).2 | ToMemory _ => s end in
                if 0 <? retry then
                  generate_loop n source_file source_to_use have_source_patch patch source_filename target_filename
                    target_size bonus (retry - 1) made_copy s
                else Val (Generated ctx out, made_copy, s)
          end
      end
  end.

(** The output takes the target's place. *)
Definition install (source_to_use : FileContents) (target_filename : path) (out : output) (s : sys) : outcome (Z * sys) :=
  match out with
  | ToMemory msi =>
      let* (r, s) := WriteToPartition (take (Z.to_nat (msi_pos msi)) (msi_buffer msi)) target_filename s in
      Val (if negb (r =? 0) then 1 else 0, s)
  | ToFile outname =>
      let '(r, s) := sys_chmod E outname (fc_mode source_to_use) s in
      if negb (r =? 0) then Val (1, s) else
      let '(r, s) := sys_chown E outname (fc_uid source_to_use) (fc_gid source_to_use) s in
      if negb (r =? 0) then Val (1, s) else
      let '(r, s) := sys_rename E outname target_filename s in
      Val (if negb (r =? 0) then 1 else 0, s)
  end.

Definition GenerateTarget (source_file : FileContents) (source_patch_value : option Value) (copy_file : FileContents)
    (copy_patch_value : option Value) (source_filename target_filename : path) (target_sha1 : block) (target_size : Z)
    (bonus : option block) (s : sys) : outcome (Z * sys) :=
  let '(source_to_use, patch, have) :=
    match source_patch_value with
    | Some v => (source_file, Some v, true)
    | None => (copy_file, copy_patch_value, false)
    end in
  match patch with
  | None => Trap NullDeref
  | Some patch =>
      let* (g, made_copy, s) := generate_loop 2 source_file source_to_use have patch source_filename target_filename
                                  target_size bonus 1 false s in
      match g with
      | NotGenerated => Val (1, s)
      | Generated ctx out =>
          if negb (bool_decide (sha1 ctx = target_sha1)) then Val (1, s) else
          let* (r, s) := install source_to_use target_filename out s in
          if negb (r =? 0) then Val (1, s) else
          let s := if (made_copy : bool) then (sys_unlink E CACHE_TEMP_SOURCE s).2 else s in
          Val (0, s)
      end
  end.

(** The patch value for the contents, if some digest string matches. *)
Definition choose_patch (file : FileContents) (patch_sha1_str : list block) (patch_data : list Value) :
    outcome (option Value) :=
  let to_use := FindMatchingPatch (fc_sha1 file) patch_sha1_str in
  if 0 <=? to_use then let* v := load patch_data to_use in Val (Some v) else Val None.

Definition applypatch (source_filename target_filename : path) (target_sha1_str : block) (target_size : Z)
    (patch_sha1_str : list block) (patch_data : list Value) (bonus : option block) (s : sys) : outcome (Z * sys) :=
  let target_filename := if bool_decide (target_filename = str "-") then source_filename else target_filename in
  match ParseSha1 target_sha1_str with
  | None => Val (1, s)
  | Some target_sha1 =>
      let* (r, source_file, s) := LoadFileContents target_filename (no_data uninit) true s in
      if (r =? 0) && bool_decide (fc_sha1 source_file = target_sha1) then Val (0, s) else
      let* (source_file, s) :=
        if bool_decide (fc_data source_file = None) || negb (bool_decide (target_filename = source_filename)) then
          let* (_, source_file, s) := LoadFileContents source_filename (no_data source_file) true s in
          Val (source_file, s)
        else Val (source_file, s) in
      let* source_patch_value :=
        match fc_data source_file with
        | Some _ => choose_patch source_file patch_sha1_str patch_data
        | None => Val None
        end in
      match source_patch_value with
      | Some v =>
          GenerateTarget source_file (Some v) (no_data uninit) None source_filename target_filename
            target_sha1 target_size bonus s
      | None =>
          let source_file := no_data source_file in
          let* (r, copy_file, s) := LoadFileContents CACHE_TEMP_SOURCE (no_data uninit) true s in
          if r <? 0 then Val (1, s) else
          let* copy_patch_value := choose_patch copy_file patch_sha1_str patch_data in
          match copy_patch_value with
          | None => Val (1, s)
          | Some v =>
              GenerateTarget source_file None copy_file (Some v) source_filename target_filename
                target_sha1 target_size bonus s
          end
      end
  end.
End Program.

(** ** Digests *)

(** The lower-case hexadecimal digits of a byte. *)
Definition hex_char (d : Z) : Z := if d <? 10 then d + 48 else d - 10 + 97.
Definition hex_byte (b : Z) : block := [hex_char (b / 16); hex_char (b mod 16)].
Definition lower (c : Z) : Z := if (65 <=? c) && (c <=? 70) then c + 32 else c.

Lemma hex_digit_spec c d : hex_digit c = Some d <-> 0 <= d < 16 /\ lower c = hex_char d.
Proof.
  unfold hex_digit, lower, hex_char.
  repeat match goal with |- context [?a <=? ?b] => destruct (Z.leb_spec a b) end;
    destruct (Z.ltb_spec d 10); cbn [andb]; split; intros Hd; try (injection Hd as <-); try lia;
    try (f_equal; lia); done.
Qed.

Lemma pack_nibbles d1 d2 : 0 <= d1 < 16 -> 0 <= d2 < 16 -> Z.lor (u8 (Z.shiftl d1 4)) d2 = d1 * 16 + d2.
Proof.
  intros H1 H2. rewrite Z.shiftl_mul_pow2 by lia. change (2 ^ 4) with 16. rewrite wrapu_id by lia.
  rewrite Z.lor_comm. pose proof (lor_above 4 d2 d1 ltac:(lia) ltac:(lia)) as Hl.
  rewrite Z.shiftl_mul_pow2 in Hl by lia. change (2 ^ 4) with 16 in Hl. rewrite Hl. lia.
Qed.

Lemma parse_digest_spec n s d :
  parse_digest n s = Some d <-> length d = n /\ bytes_ok d /\ lower <$> s = concat (hex_byte <$> d).
Proof.
  revert s d. induction n as [| n IH]; intros s d; cbn [parse_digest].
  { destruct s as [| c s]; (split; [intros [= <-] | intros (Hl & _ & Hs)]); [by repeat split | by destruct d |].
    destruct d; [| done]. by rewrite fmap_nil in Hs. }
  split.
  - destruct s as [| c1 s]; [done |]. destruct (hex_digit c1) as [d1 |] eqn:E1; [| done].
    destruct s as [| c2 s]; [done |]. destruct (hex_digit c2) as [d2 |] eqn:E2; [| done].
    destruct (parse_digest n s) as [r |] eqn:Er; [| done]. intros [= <-].
    apply hex_digit_spec in E1 as [H1 L1]. apply hex_digit_spec in E2 as [H2 L2].
    apply IH in Er as (Hl & Hb & Hs). rewrite pack_nibbles by done.
    split_and!; [simpl; lia | constructor; [unfold is_byte; lia | done] |].
    rewrite !fmap_cons. cbn [concat]. rewrite L1, L2, Hs.
    assert (hex_byte (d1 * 16 + d2) = [hex_char d1; hex_char d2]) as ->; [| done]. unfold hex_byte.
    rewrite Z.div_add_l, (Z.div_small d2), Z.add_0_r by lia.
    by rewrite (Z.add_comm _ d2), Z.mod_add, Z.mod_small by lia.
  - intros (Hl & Hb & Hs). destruct d as [| b d]; [done |]. apply Forall_cons in Hb as [Hb1 Hb].
    rewrite fmap_cons in Hs. cbn [concat hex_byte app] in Hs.
    destruct s as [| c1 [| c2 s]]; [done | done |]. rewrite !fmap_cons in Hs. injection Hs as L1 L2 Hs.
    unfold is_byte in Hb1. pose proof (Z.div_mod b 16 ltac:(lia)). pose proof (Z.mod_pos_bound b 16 ltac:(lia)).
    assert (0 <= b / 16 < 16) by (split; [apply Z.div_pos | apply Z.div_lt_upper_bound]; lia).
    rewrite (proj2 (hex_digit_spec c1 (b / 16))), (proj2 (hex_digit_spec c2 (b mod 16))) by done.
    rewrite (proj2 (IH s d)) by (repeat split; [simpl in Hl; lia | done | done]). simpl. f_equal. f_equal.
    rewrite pack_nibbles by lia. lia.
Qed.

Lemma parse_length s d : ParseSha1 s = Some d -> zlen s = 40.
Proof.
  intros (Hl & _ & Hs)%parse_digest_spec. unfold zlen. rewrite <- (length_fmap lower), Hs.
  unfold SHA_DIGEST_SIZE in Hl. clear Hs. assert (forall l : block, length (concat (hex_byte <$> l)) = (2 * length l)%nat) as Hc.
  { induction l as [| x l IHl]; [done |]. rewrite fmap_cons. cbn [concat hex_byte app length]. rewrite IHl. lia. }
  rewrite Hc, Hl. done.
Qed.

Lemma find_match_spec sha1 l i : 0 <= i ->
  let r := find_match sha1 l i in
  (r = -1 /\ forall s, s ∈ l -> ParseSha1 s <> Some sha1) \/
  (i <= r < i + zlen l /\ (exists s, load l (r - i) = Val s /\ ParseSha1 s = Some sha1) /\
   forall j s, 0 <= j < r - i -> load l j = Val s -> ParseSha1 s <> Some sha1).
Proof.
  revert i. induction l as [| p l IH]; intros i Hi; cbn [find_match].
  { left. split; [done |]. by intros s ?%elem_of_nil. }
  case_bool_decide as Hp.
  - right. rewrite zlen_cons, Z.sub_diag. pose proof (zlen_nonneg l). split_and!; [lia | lia | by exists p | lia].
  - destruct (IH (i + 1) ltac:(lia)) as [[-> Hno] | (Hr & (s & Hs & Hps) & Hmin)].
    + left. split; [done |]. intros s [-> | Hs]%elem_of_cons; [done | by apply Hno].
    + right. rewrite zlen_cons. set (r := find_match sha1 l (i + 1)) in *.
      assert (forall j, 0 < j -> load (p :: l) j = load l (j - 1)) as Hld.
      { intros j Hj. unfold load. rewrite zlen_cons, (proj2 (Z.leb_le 0 j)), (proj2 (Z.leb_le 0 (j - 1))) by lia.
        replace (j <? 1 + zlen l) with (j - 1 <? zlen l)
          by (destruct (Z.ltb_spec (j - 1) (zlen l)), (Z.ltb_spec j (1 + zlen l)); lia).
        replace (Z.to_nat j) with (S (Z.to_nat (j - 1))) by lia. done. }
      split_and!; [lia | lia | |].
      * exists s. split; [| done]. rewrite Hld by lia. rewrite <- Hs. f_equal. lia.
      * intros j q Hj Hq. destruct (decide (j = 0)) as [-> | Hj0].
        -- by injection Hq as <-.
        -- rewrite Hld in Hq by lia. apply (Hmin (j - 1)); [lia | done].
Qed.

(** [ParseSha1] accepts exactly the strings of forty hexadecimal digits, of either
    case, and gives the twenty bytes they spell; so a digest printed in hexadecimal is
    read back, and nothing may follow it. *)
Theorem ParseSha1_correct (s d : block) :
  ParseSha1 s = Some d <-> length d = SHA_DIGEST_SIZE /\ bytes_ok d /\ lower <$> s = concat (hex_byte <$> d).
Proof. apply parse_digest_spec. Qed.

(** [FindMatchingPatch] gives the index of the first string that spells the digest,
    or -1 when none does; strings that do not parse are passed over. *)
Theorem FindMatchingPatch_correct (sha1 : block) (l : list block) :
  let r := FindMatchingPatch sha1 l in
  (r = -1 /\ forall s, s ∈ l -> ParseSha1 s <> Some sha1) \/
  (0 <= r < zlen l /\ (exists s, load l r = Val s /\ ParseSha1 s = Some sha1) /\
   forall j s, 0 <= j < r -> load l j = Val s -> ParseSha1 s <> Some sha1).
Proof. pose proof (find_match_spec sha1 l 0 ltac:(lia)) as Hf. cbv zeta in *. by rewrite Z.sub_0_r in Hf. Qed.

(** A digest with anything after it is refused, contrary to the comment on the
    function. *)
Lemma digest_with_suffix_refused (s t : block) d : ParseSha1 s = Some d -> ParseSha1 (s ++ str ":" ++ t) = None.
Proof.
  intros Hs. apply parse_length in Hs. destruct (ParseSha1 (s ++ str ":" ++ t)) as [d' |] eqn:E; [| done].
  apply parse_length in E. rewrite !zlen_app in E. change (zlen (str ":")) with 1 in E. pose proof (zlen_nonneg t). lia.
Qed.
