(* ===== verification/Mtd.v ===== *)
(** * Flash partitions (mtdutils/mtdutils.c)

    The partition table, and reading and writing of partitions around bad blocks.  A chip
    is the block of its bytes; a context keeps its file position.  What the driver
    answers is an [flash_env] over ticks: failures and short counts, the bytes a write
    really stores and a read really delivers, the ECC counter, which blocks are bad. *)

From stdpp Require Import base numbers list gmap pretty.
From stdpp Require Import strings.
From S2P Require Import Prelude CString Edify Sys.

Record MtdPartition := mkPart { device_index : Z; p_size : Z; erase_size : Z; p_name : option block }.

(** [g_mtd_state]; the length of the array is [partitions_allocd]. *)
Record MtdState := mkTable { partitions : option (list MtdPartition); partition_count : Z }.

Record MtdReadContext := mkReading { r_partition : MtdPartition; r_buffer : block; r_consumed : Z; r_pos : Z }.

Record MtdWriteContext := mkWriting {
  w_partition : MtdPartition; w_buffer : block; w_stored : Z; w_pos : Z;
  bad_block_offsets : list Z; bad_block_count : Z
}.

(** MEMGETBADBLOCK: 0, a positive number, -1, and -1 with EOPNOTSUPP. *)
Inductive bad_answer := IsGood | IsBad | BadError | BadUnsupported.

(** [m_stored t old new] is what the chip holds after it was told to replace [old] by
    [new]; [m_seen t b] what a read of [b] delivers. *)
Record flash_env := mkFlashEnv {
  m_answer : nat -> Z;
  m_bad : nat -> Z -> Z -> bad_answer;
  m_stored : nat -> block -> block -> block;
  m_seen : nat -> block -> block;
  m_failed : nat -> Z;
  m_proc : nat -> option block;
  m_info : nat -> option (Z * Z * Z);
  m_malloc : Z -> option block
}.

Record flash := mkFlash { table : MtdState; chips : gmap Z block; m_tick : nat }.

(** *** The partition table *)

Definition nump : nat := 32.

Definition digit_of (base c : Z) : option Z :=
  let d := if (48 <=? c) && (c <=? 57) then c - 48
           else if (97 <=? c) && (c <=? 122) then c - 97 + 10
           else if (65 <=? c) && (c <=? 90) then c - 65 + 10 else base in
  if d <? base then Some d else None.

(** The digits at the start; [None] before the first one. *)
Fixpoint radix_digits (base : Z) (s : block) (acc : option Z) : option Z * block :=
  match s with
  | c :: s' =>
      match digit_of base c with
      | Some d => radix_digits base s' (Some (default 0 acc * base + d))
      | None => (acc, s)
      end
  | [] => (acc, [])
  end.

(** The conversions [%d] (base 10) and [%x] (base 16, an optional 0x). *)
Definition scan_int (base : Z) (s : block) : option (Z * block) :=
  let s := skip_space s in
  let '(neg, s) := match s with
                   | c :: s' => if c =? 45 then (true, s') else if c =? 43 then (false, s') else (false, s)
                   | [] => (false, [])
                   end in
  let s := match s with
           | c :: x :: s' => if (base =? 16) && (c =? 48) && ((x =? 120) || (x =? 88)) then s' else s
           | _ => s
           end in
  match radix_digits base s None with
  | (Some v, rest) => Some (if neg : bool then - v else v, rest)
  | (None, _) => None
  end.

(** A literal of the format. *)
Fixpoint scan_lit (lit s : block) : option block :=
  match lit, s with
  | [], _ => Some s
  | l :: lit, c :: s => if l =? c then scan_lit lit s else None
  | _, [] => None
  end.

(** [%63[^Q]] with the double quote for [Q]. *)
Fixpoint scan_name (n : nat) (s : block) : block :=
  match n, s with
  | S n, c :: s => if c =? 34 then [] else c :: scan_name n s
  | _, _ => []
  end.

(** The call of sscanf on one line: the four values when all conversions succeed.  A
    number that its type cannot hold is undefined behaviour. *)
Definition scan_line (s : block) : outcome (option (Z * Z * Z * block)) :=
  match scan_lit (str "mtd") s with
  | None => Val None
  | Some s =>
      match scan_int 10 s with
      | None => Val None
      | Some (mtdnum, s) =>
          let* mtdnum := c_int 32 mtdnum in
          match scan_lit (str ":") s with
          | None => Val None
          | Some s =>
              match scan_int 16 s with
              | None => Val None
              | Some (mtdsize, s) =>
                  let* mtdsize := if in_int 33 mtdsize then Val (u32 mtdsize) else Trap IntOverflow in
                  match scan_int 16 s with
                  | None => Val None
                  | Some (mtderasesize, s) =>
                      let* mtderasesize := if in_int 33 mtderasesize then Val (u32 mtderasesize) else Trap IntOverflow in
                      match scan_lit [34] (skip_space s) with
                      | None => Val None
                      | Some s =>
                          let name := scan_name 63 s in
                          if bool_decide (name = []) then Val None
                          else Val (Some (mtdnum, mtdsize, mtderasesize, name))
                      end
                  end
              end
          end
      end
  end.

(** The rest after the end of the line. *)
Fixpoint next_line (s : block) : block :=
  match s with
  | c :: s => if c =? 10 then s else next_line s
  | [] => []
  end.

(** A C string ends at its first zero byte. *)
Fixpoint until_nul (s : block) : block :=
  match s with
  | c :: s => if c =? 0 then [] else c :: until_nul s
  | [] => []
  end.

Section Driver.
Context `{Arch} (M : flash_env).

Definition m_tock (s : flash) : flash := mkFlash (table s) (chips s) (S (m_tick s)).
Definition m_ask (s : flash) : Z * flash := (m_answer M (m_tick s), m_tock s).
Definition set_table (t : MtdState) (s : flash) : flash := mkFlash t (chips s) (m_tick s).
Definition set_chip (d : Z) (c : block) (s : flash) : flash := mkFlash (table s) (<[d := c]> (chips s)) (m_tick s).

(** The lines of [rest]; [None] is the jump to [bail]. *)
Fixpoint scan_lines (n : nat) (rest : block) (ps : list MtdPartition) (count : Z) :
    outcome (option (list MtdPartition * Z) * list MtdPartition) :=
  match rest, n with
  | [], _ => Val (Some (ps, count), ps)
  | _ :: _, O => Trap NoFuel
  | _ :: _, S n =>
      let* line := scan_line (until_nul rest) in
      match line with
      | None => scan_lines n (next_line rest) ps count
      | Some (mtdnum, mtdsize, mtderasesize, mtdname) =>
          let name := (fun _ => mtdname) <$> m_malloc M (zlen mtdname + 1) in
          let* ps := store ps mtdnum (mkPart mtdnum mtdsize mtderasesize name) in
          match name with
          | None => Val (None, ps)
          | Some _ => scan_lines n (next_line rest) ps (count + 1)
          end
      end
  end.

Definition mtd_scan_partitions (s : flash) : outcome (Z * flash) :=
  match (match partitions (table s) with
         | Some ps => Some ps
         | None => (fun _ => replicate nump (mkPart 0 0 0 None)) <$> m_malloc M (Z.of_nat nump * (8 + word_bits / 4))
         end) with
  | None => Val (-1, s)
  | Some ps =>
      let ps := (fun p => mkPart (-1) (p_size p) (erase_size p) None) <$> ps in
      let proc := m_proc M (m_tick s) in
      let s := m_tock s in
      match proc with
      | None => Val (-1, set_table (mkTable (Some ps) (-1)) s)
      | Some contents =>
          let buf := take 2047 contents in
          let* (r, ps) := scan_lines (length buf) buf ps 0 in
          match r with
          | None => Val (-1, set_table (mkTable (Some ps) (-1)) s)
          | Some (ps, count) => Val (count, set_table (mkTable (Some ps) count) s)
          end
      end
  end.

Definition named (name : block) (p : MtdPartition) : Prop := 0 <= device_index p /\ p_name p = Some name.
#[global] Instance named_dec name p : Decision (named name p).
Proof. unfold named. apply _. Defined.

Definition mtd_find_partition_by_name (s : flash) (name : block) : option MtdPartition :=
  match partitions (table s) with
  | None => None
  | Some ps => snd <$> list_find (named name) ps
  end.

(** *** System calls on a chip *)

Definition fit (n : nat) (b : block) : block := take n (b ++ replicate n 0).

(** open: whether the device is there. *)
Definition chip_open (d : Z) (s : flash) : bool * flash :=
  let '(a, s) := m_ask s in (negb (a <? 0) && bool_decide (is_Some (chips s !! d)), s).

(** lseek to [pos] and read of [n] bytes: the bytes when all arrived, and the position. *)
Definition chip_read (d pos n : Z) (s : flash) : option block * Z * flash :=
  let t := m_tick s in
  let '(a, s) := m_ask s in
  match (if a <? 0 then None else chips s !! d) with
  | None => (None, pos, s)
  | Some c =>
      let k := Z.min a (Z.max 0 (Z.min n (zlen c - pos))) in
      ((if k =? n then Some (fit (Z.to_nat n) (m_seen M t (slice c pos n))) else None), pos + k, s)
  end.

(** The chip is told to hold [b] at [pos]. *)
Definition chip_put (d pos : Z) (b : block) (s : flash) : flash :=
  match chips s !! d with
  | None => s
  | Some c =>
      let n := Z.to_nat (Z.max 0 (Z.min (zlen b) (zlen c - pos))) in
      set_chip d (take (Z.to_nat pos) c ++ fit n (m_stored M (m_tick s) (slice c pos (Z.of_nat n)) b) ++
                  drop (Z.to_nat pos + n) c) s
  end.

(** MEMERASE; lseek and write, whose result is only printed; MEMGETBADBLOCK; ECCGETSTATS. *)
Definition chip_erase (d pos n : Z) (s : flash) : bool * flash :=
  let s := chip_put d pos (replicate (Z.to_nat n) 255) s in
  let '(a, s) := m_ask s in (negb (a <? 0), s).
Definition chip_write (d pos : Z) (data : block) (s : flash) : flash := m_tock (chip_put d pos data s).
Definition chip_bad (d pos : Z) (s : flash) : bad_answer * flash := (m_bad M (m_tick s) d pos, m_tock s).
Definition chip_ecc (s : flash) : option Z * flash :=
  let t := m_tick s in
  let '(a, s) := m_ask s in (if a <? 0 then None else Some (m_failed M t), s).

(** *** Reading *)

Definition mtd_partition_info (p : MtdPartition) (s : flash) : option (Z * Z * Z) * flash :=
  let '(ok, s) := chip_open (device_index p) s in
  if negb ok then (None, s) else (m_info M (m_tick s), m_tock s).

Definition mtd_read_partition (p : MtdPartition) (s : flash) : option MtdReadContext * flash :=
  match m_malloc M (word_bits / 2) with
  | None => (None, s)
  | Some _ =>
      match m_malloc M (erase_size p) with
      | None => (None, s)
      | Some buffer =>
          let '(ok, s) := chip_open (device_index p) s in
          if negb ok then (None, s) else (Some (mkReading p buffer (erase_size p) 0), s)
      end
  end.

Definition mtd_read_skip_to (ctx : MtdReadContext) (offset : Z) : MtdReadContext :=
  mkReading (r_partition ctx) (r_buffer ctx) (r_consumed ctx) offset.

(** The blocks from [pos] on until one can be read: the result, the bytes and the file
    position. *)
Fixpoint read_from (n : nat) (p : MtdPartition) (before pos fd : Z) (s : flash) : outcome (Z * block * Z * flash) :=
  if negb (pos + wraps word_bits (erase_size p) <=? i32 (p_size p)) then Val (-1, [], fd, s) else
  match n with
  | O => Trap NoFuel
  | S n =>
      let '(data, fd, s) := chip_read (device_index p) pos (erase_size p) s in
      match data with
      | None => read_from n p before (pos + erase_size p) fd s
      | Some data =>
          let '(after, s) := chip_ecc s in
          match after with
          | None => Val (-1, [], fd, s)
          | Some after =>
              if negb (after =? before) then read_from n p after (pos + erase_size p) fd s else
              let '(mgbb, s) := chip_bad (device_index p) pos s in
              match mgbb with
              | IsGood => Val (0, data, fd, s)
              | _ => read_from n p before (pos + erase_size p) fd s
              end
          end
      end
  end.

(** Enough rounds for blocks of at least one byte. *)
Definition block_fuel (p : MtdPartition) : nat := S (S (Z.to_nat (i32 (p_size p)))).

Definition read_block (p : MtdPartition) (fd : Z) (s : flash) : outcome (Z * block * Z * flash) :=
  let '(before, s) := chip_ecc s in
  match before with
  | None => Val (-1, [], fd, s)
  | Some before => read_from (block_fuel p) p before fd fd s
  end.

(** The loop that reads complete blocks; [false] is the early return. *)
Fixpoint read_whole (n : nat) (ctx : MtdReadContext) (len : Z) (data : block) (s : flash) :
    outcome (bool * MtdReadContext * block * flash) :=
  let es := erase_size (r_partition ctx) in
  if (r_consumed ctx =? es) && (es <=? len - zlen data) then
    match n with
    | O => Trap NoFuel
    | S n =>
        let* (r, bytes, fd, s) := read_block (r_partition ctx) (r_pos ctx) s in
        let ctx := mkReading (r_partition ctx) (r_buffer ctx) (r_consumed ctx) fd in
        if negb (r =? 0) then Val (false, ctx, data, s) else read_whole n ctx len (data ++ bytes) s
    end
  else Val (true, ctx, data, s).

(** What is left in the buffer is copied first. *)
Definition read_buffered (ctx : MtdReadContext) (len : Z) (data : block) : outcome (MtdReadContext * block) :=
  let es := erase_size (r_partition ctx) in
  if r_consumed ctx <? es then
    let avail := es - r_consumed ctx in
    let copy := if len - zlen data <? avail then len - zlen data else avail in
    let* bytes := load_bytes (r_buffer ctx) (r_consumed ctx) copy in
    Val (mkReading (r_partition ctx) (r_buffer ctx) (r_consumed ctx + copy) (r_pos ctx), data ++ bytes)
  else Val (ctx, data).

Fixpoint read_loop (n : nat) (ctx : MtdReadContext) (len : Z) (data : block) (s : flash) :
    outcome (Z * block * MtdReadContext * flash) :=
  if len <=? zlen data then Val (wraps word_bits (zlen data), data, ctx, s) else
  match n with
  | O => Trap NoFuel
  | S n =>
      let* (ctx, data) := read_buffered ctx len data in
      let* (ok, ctx, data, s) := read_whole (Z.to_nat len) ctx len data s in
      if negb ok then Val (-1, data, ctx, s) else
      if len <=? zlen data then Val (wraps word_bits (zlen data), data, ctx, s) else
      if (r_consumed ctx =? erase_size (r_partition ctx)) && (zlen data <? len) then
        let* (r, bytes, fd, s) := read_block (r_partition ctx) (r_pos ctx) s in
        if negb (r =? 0) then Val (-1, data, mkReading (r_partition ctx) (r_buffer ctx) (r_consumed ctx) fd, s)
        else read_loop n (mkReading (r_partition ctx) bytes 0 fd) len data s
      else read_loop n ctx len data s
  end.

Definition mtd_read_data (ctx : MtdReadContext) (len : Z) (s : flash) : outcome (Z * block * MtdReadContext * flash) :=
  read_loop (Z.to_nat (2 * len)) ctx len [] s.

Definition mtd_read_close (ctx : MtdReadContext) (s : flash) : flash := m_tock s.

(** *** Writing *)

Definition mtd_write_partition (p : MtdPartition) (s : flash) : option MtdWriteContext * flash :=
  match m_malloc M (word_bits / 8 * 5 + 8) with
  | None => (None, s)
  | Some _ =>
      match m_malloc M (erase_size p) with
      | None => (None, s)
      | Some buffer =>
          let '(ok, s) := chip_open (device_index p) s in
          if negb ok then (None, s) else (Some (mkWriting p buffer 0 0 [] 0), s)
      end
  end.

(** Updates of a context. *)
Definition w_moved (fd : Z) (ctx : MtdWriteContext) : MtdWriteContext :=
  mkWriting (w_partition ctx) (w_buffer ctx) (w_stored ctx) fd (bad_block_offsets ctx) (bad_block_count ctx).
Definition w_filled (buffer : block) (stored : Z) (ctx : MtdWriteContext) : MtdWriteContext :=
  mkWriting (w_partition ctx) buffer stored (w_pos ctx) (bad_block_offsets ctx) (bad_block_count ctx).

(** realloc; the length of the array is [bad_block_alloc]. *)
Definition grow_offsets (offsets : list Z) (count : Z) : outcome (list Z) :=
  if zlen offsets <? count + 1 then
    let alloc := zlen offsets * 2 + 1 in
    match m_malloc M (alloc * (word_bits / 8)) with
    | None => Trap NullDeref
    | Some _ => Val (offsets ++ replicate (Z.to_nat (alloc - zlen offsets)) 0)
    end
  else Val offsets.

Definition add_bad_block_offset (ctx : MtdWriteContext) (pos : Z) : outcome MtdWriteContext :=
  let* offsets := grow_offsets (bad_block_offsets ctx) (bad_block_count ctx) in
  let* offsets := store offsets (bad_block_count ctx) pos in
  Val (mkWriting (w_partition ctx) (w_buffer ctx) (w_stored ctx) (w_pos ctx) offsets (bad_block_count ctx + 1)).

(** Erasing, writing and verifying one block, [n] times at most. *)
Fixpoint write_tries (n : nat) (ctx : MtdWriteContext) (data : block) (pos : Z) (s : flash) : bool * MtdWriteContext * flash :=
  match n with
  | O => (false, ctx, s)
  | S n =>
      let d := device_index (w_partition ctx) in
      let size := erase_size (w_partition ctx) in
      let '(erased, s) := chip_erase d pos size s in
      if negb erased then write_tries n ctx data pos s else
      let s := chip_write d pos data s in
      let '(verify, fd, s) := chip_read d pos size s in
      let ctx := w_moved fd ctx in
      match verify with
      | None => write_tries n ctx data pos s
      | Some verify => if bool_decide (data = verify) then (true, ctx, s) else write_tries n ctx data pos s
      end
  end.

Fixpoint write_from (n : nat) (ctx : MtdWriteContext) (data : block) (pos : Z) (s : flash) :
    outcome (Z * MtdWriteContext * flash) :=
  let p := w_partition ctx in
  let* e := c_int word_bits (pos + wraps word_bits (erase_size p)) in
  if negb (e <=? i32 (p_size p)) then Val (-1, ctx, s) else
  match n with
  | O => Trap NoFuel
  | S n =>
      let next := wraps word_bits (pos + erase_size p) in
      let '(ret, s) := chip_bad (device_index p) pos s in
      match ret with
      | IsBad | BadError =>
          let* ctx := add_bad_block_offset ctx pos in
          write_from n ctx data next s
      | IsGood | BadUnsupported =>
          let '(ok, ctx, s) := write_tries 2 ctx data pos s in
          if (ok : bool) then Val (0, ctx, s) else
          let* ctx := add_bad_block_offset ctx pos in
          let '(_, s) := chip_erase (device_index p) pos (erase_size p) s in
          write_from n ctx data next s
      end
  end.

Definition write_block (ctx : MtdWriteContext) (data : block) (s : flash) : outcome (Z * MtdWriteContext * flash) :=
  let '(a, s) := m_ask s in
  if a <? 0 then Val (1, ctx, s) else write_from (block_fuel (w_partition ctx)) ctx data (w_pos ctx) s.

(** Complete blocks from the user's buffer; [false] is the early return. *)
Fixpoint write_whole (n : nat) (ctx : MtdWriteContext) (data : block) (wrote : Z) (s : flash) :
    outcome (bool * MtdWriteContext * Z * flash) :=
  let es := erase_size (w_partition ctx) in
  if (w_stored ctx =? 0) && (es <=? zlen data - wrote) then
    match n with
    | O => Trap NoFuel
    | S n =>
        let* bytes := load_bytes data wrote es in
        let* (r, ctx, s) := write_block ctx bytes s in
        if negb (r =? 0) then Val (false, ctx, wrote, s) else write_whole n ctx data (wrote + es) s
    end
  else Val (true, ctx, wrote, s).

(** Partial writes are coalesced: bytes go to the buffer first. *)
Definition write_buffered (ctx : MtdWriteContext) (data : block) (wrote : Z) : outcome (MtdWriteContext * Z) :=
  let es := erase_size (w_partition ctx) in
  if (0 <? w_stored ctx) || (zlen data - wrote <? es) then
    let avail := es - w_stored ctx in
    let copy := if zlen data - wrote <? avail then zlen data - wrote else avail in
    let* bytes := load_bytes data wrote copy in
    let* buffer := store_bytes (w_buffer ctx) (w_stored ctx) bytes in
    Val (w_filled buffer (w_stored ctx + copy) ctx, wrote + copy)
  else Val (ctx, wrote).

(** A complete buffer is written; [false] is the early return. *)
Definition flush_full (ctx : MtdWriteContext) (s : flash) : outcome (bool * MtdWriteContext * flash) :=
  if w_stored ctx =? erase_size (w_partition ctx) then
    let* (r, ctx, s) := write_block ctx (w_buffer ctx) s in
    if negb (r =? 0) then Val (false, ctx, s) else Val (true, w_filled (w_buffer ctx) 0 ctx, s)
  else Val (true, ctx, s).

Fixpoint mtd_write_loop (n : nat) (ctx : MtdWriteContext) (data : block) (wrote : Z) (s : flash) :
    outcome (Z * MtdWriteContext * flash) :=
  if zlen data <=? wrote then Val (wraps word_bits wrote, ctx, s) else
  match n with
  | O => Trap NoFuel
  | S n =>
      let* (ctx, wrote) := write_buffered ctx data wrote in
      let* (ok, ctx, s) := flush_full ctx s in
      if negb ok then Val (-1, ctx, s) else
      let* (ok, ctx, wrote, s) := write_whole (length data) ctx data wrote s in
      if negb ok then Val (-1, ctx, s) else mtd_write_loop n ctx data wrote s
  end.

Definition mtd_write_data (ctx : MtdWriteContext) (data : block) (s : flash) : outcome (Z * MtdWriteContext * flash) :=
  mtd_write_loop (length data) ctx data 0 s.

(** [blocks] blocks from [pos] on are erased, bad ones excepted. *)
Fixpoint erase_loop (blocks : nat) (p : MtdPartition) (pos : Z) (s : flash) : Z * flash :=
  match blocks with
  | O => (pos, s)
  | S blocks =>
      let next := wraps word_bits (pos + erase_size p) in
      let '(b, s) := chip_bad (device_index p) pos s in
      match b with
      | IsBad => erase_loop blocks p next s
      | _ =>
          let '(_, s) := chip_erase (device_index p) pos (erase_size p) s in
          erase_loop blocks p next s
      end
  end.

(** The pending bytes are padded with zeros and written. *)
Definition flush_padded (ctx : MtdWriteContext) (s : flash) : outcome (Z * MtdWriteContext * flash) :=
  if 0 <? w_stored ctx then
    let zero := erase_size (w_partition ctx) - w_stored ctx in
    let* buffer := store_bytes (w_buffer ctx) (w_stored ctx) (replicate (Z.to_nat zero) 0) in
    let* (r, ctx, s) := write_block (w_filled buffer (w_stored ctx) ctx) buffer s in
    Val (r, if r =? 0 then w_filled buffer 0 ctx else ctx, s)
  else Val (0, ctx, s).

Definition mtd_erase_blocks (ctx : MtdWriteContext) (blocks : Z) (s : flash) : outcome (Z * MtdWriteContext * flash) :=
  let p := w_partition ctx in
  let es := erase_size p in
  let* (r, ctx, s) := flush_padded ctx s in
  if negb (r =? 0) then Val (-1, ctx, s) else
  let '(a, s) := m_ask s in
  if a <? 0 then Val (-1, ctx, s) else
  let pos := w_pos ctx in
  if es =? 0 then Trap Aborted else  (** division by zero *)
  let room := if word_bits =? 32 then u32 (p_size p - pos) else p_size p - pos in
  let total := i32 (Z.quot room es) in
  let blocks := if blocks <? 0 then total else blocks in
  if total <? blocks then Val (-1, ctx, s) else
  let '(pos, s) := erase_loop (Z.to_nat blocks) p pos s in
  Val (pos, ctx, s).

Definition mtd_write_close (ctx : MtdWriteContext) (s : flash) : outcome (Z * flash) :=
  let* (pos, _, s) := mtd_erase_blocks ctx 0 s in
  let '(a, s) := m_ask s in
  Val (if (pos =? -1) || (a <? 0) then -1 else 0, s).

Fixpoint find_start (es : Z) (bad : list Z) (pos : Z) : Z :=
  match bad with
  | [] => pos
  | b :: bad => if b =? pos then find_start es bad (pos + es) else if pos <? b then pos else find_start es bad pos
  end.

Definition mtd_find_write_start (ctx : MtdWriteContext) (pos : Z) : outcome Z :=
  let* bad := load_bytes (bad_block_offsets ctx) 0 (bad_block_count ctx) in
  Val (find_start (erase_size (w_partition ctx)) bad pos).

(** *** Mounting *)

(** mount with its arguments and the flags' sum; chmod. *)
Inductive mount_call := Mount (devname mount_point filesystem : block) (flags : Z) | Chmod (path : block) (mode : Z).

Definition MS_NOATIME : Z := 1024.
Definition MS_NODEV : Z := 4.
Definition MS_NODIRATIME : Z := 2048.
Definition MS_RDONLY : Z := 1.

(** The result and the calls that were made; [m_answer] gives the results of mount and
    chmod and, from stat, the mode. *)
Definition mtd_mount_partition (p : MtdPartition) (mount_point filesystem : block) (read_only : bool) (s : flash) :
    Z * list mount_call * flash :=
  let flags := Z.lor (Z.lor MS_NOATIME MS_NODEV) MS_NODIRATIME in
  let devname := str "/dev/block/mtdblock" ++ str (pretty (device_index p)) in
  let '(rv, calls, s) :=
    if read_only then (-1, [], s)
    else let '(rv, s) := m_ask s in (rv, [Mount devname mount_point filesystem flags], s) in
  let '(rv, calls, s) :=
    if read_only || (rv <? 0) then
      let '(rv, s) := m_ask s in (rv, calls ++ [Mount devname mount_point filesystem (Z.lor flags MS_RDONLY)], s)
    else (rv, calls, s) in
  if 0 <=? rv then
    let '(mode, s) := m_ask s in
    if mode <? 0 then (mode, calls, s) else
    let new_mode := Z.lor mode 73 in
    if negb (new_mode =? mode) then
      let '(rv, s) := m_ask s in (rv, calls ++ [Chmod mount_point new_mode], s)
    else (0, calls, s)
  else (rv, calls, s).

(** The device, when one of the mount calls succeeds. *)
Definition mounted_device (p : MtdPartition) (read_only : bool) (s : flash) : option block :=
  if (0 <=? m_answer M (m_tick s)) || (negb read_only && (0 <=? m_answer M (S (m_tick s)))) then
    Some (str "/dev/block/mtdblock" ++ str (pretty (device_index p)))
  else None.
End Driver.

(** mtdutils discharges the interface that applypatch uses. *)
Definition mtdutils `{Arch} (M : flash_env) : mtd_api := {|
  mtd_state := flash; mtd_partition := MtdPartition; mtd_reading := MtdReadContext; mtd_writing := MtdWriteContext;
  Sys.mtd_scan_partitions := mtd_scan_partitions M;
  Sys.mtd_find_partition_by_name := mtd_find_partition_by_name;
  Sys.mtd_read_partition := mtd_read_partition M;
  Sys.mtd_read_data := mtd_read_data M;
  Sys.mtd_read_close := mtd_read_close;
  Sys.mtd_write_partition := mtd_write_partition M;
  Sys.mtd_write_data := mtd_write_data M;
  Sys.mtd_erase_blocks := mtd_erase_blocks M;
  Sys.mtd_write_close := mtd_write_close M;
  Sys.mtd_mount_partition p point fs read_only s :=
    let '(rv, _, s') := mtd_mount_partition M p point fs read_only s in (rv, mounted_device M p read_only s, s')
|}.
