(* ===== verification/PartitionIO.v ===== *)
(** * Partitions: what applypatch.c reads from them and writes to them

    [WriteToPartition] on a block device writes, drops the caches and reads everything
    back; [LoadPartitionContents] finds out how long the contents of a partition are by
    trying the sizes and digests its name lists. *)

From stdpp Require Import base numbers list gmap sorting.
From stdpp Require Import strings.
From S2P Require Import Prelude CString Edify Sys FreeCache ApplyPatch.

Lemma slice_prefix {A} (a b : list A) n : n = zlen a -> slice (a ++ b) 0 n = a.
Proof. intros ->. unfold slice, zlen. rewrite Nat2Z.id. apply take_app_length. Qed.

(** ** Writing a block device *)

Section Write.
Context `{Arch} `{mtd_api} (E : env) (fuel : nat).
Variables (p : path) (data : block).

(** Only the device may change. *)
Definition only_device (s0 s : sys) : Prop :=
  files s = files s0 /\ mtd s = mtd s0 /\ (forall q, q <> p -> disks s !! q = disks s0 !! q) /\
  (is_Some (disks s0 !! p) -> is_Some (disks s !! p)).

Lemma only_device_refl s : only_device s s.
Proof. done. Qed.
Lemma only_device_trans s1 s2 s3 : only_device s1 s2 -> only_device s2 s3 -> only_device s1 s3.
Proof.
  intros (F1 & F2 & F3 & F4) (G1 & G2 & G3 & G4). split_and!; [congruence | congruence | | auto].
  intros q Hq. by rewrite G3, F3.
Qed.

Lemma dev_write_frame off v s : only_device s (sys_dev_write E p off v s).2.
Proof.
  unfold sys_dev_write, answer. cbv zeta iota. destruct (disks (tock s) !! p) as [d |]; [| done].
  destruct (_ <=? off); [done |]. destruct (io_answer _ _); [| done | done].
  split_and!; [done | done | intros q Hq; simpl; by rewrite lookup_insert_ne |].
  intros _. simpl. by rewrite lookup_insert_eq.
Qed.

Lemma dev_write_loop_frame n start s ok s' :
  dev_write_loop E n p data start s = Val (ok, s') -> only_device s s'.
Proof.
  revert start s. induction n as [| n IH]; intros start s; cbn [dev_write_loop];
    (destruct (_ <=? start); [by intros [= <- <-] |]); [done |].
  pose proof (dev_write_frame start (slice data start (Z.min (zlen data - start) 4096)) s) as Hf.
  destruct (sys_dev_write E p start _ s) as [r s1]. simpl in Hf.
  destruct r; [| | by intros [= <- <-]]; intros Hr; apply IH in Hr; by eapply only_device_trans.
Qed.

Lemma dev_read_spec off n s :
  let '(r, bytes, s') := sys_dev_read E p off n s in
  disks s' = disks s /\ only_device s s' /\
  match r with
  | IoCount k => exists d, disks s !! p = Some d /\ bytes = slice d off k /\ 0 <= k /\ (k = 0 \/ (k <= n /\ off + k <= zlen d))
  | _ => True
  end.
Proof.
  unfold sys_dev_read, answer. cbv zeta iota. cbn [disks tock]. destruct (disks s !! p) as [d |] eqn:Ed; [| done].
  unfold io_answer. set (a := e_answer E (tick s)).
  destruct (Z.eqb_spec a (-1)); [done |]. destruct (Z.ltb_spec a 0); [done |].
  split; [done |]. split; [done |]. exists d. split_and!; [done | done | lia |]. lia.
Qed.

(** A page is read back as the device holds it. *)
Lemma page_loop_spec n p0 to_read buffer s d :
  0 <= p0 -> disks s !! p = Some d -> buffer = slice d p0 (zlen buffer) -> zlen buffer <= to_read ->
  forall r s', page_loop E n p p0 to_read buffer s = Val (r, s') ->
  disks s' = disks s /\ only_device s s' /\ (forall page, r = Some page -> page = slice d p0 to_read /\ zlen page = to_read).
Proof.
  intros Hp0. revert buffer s. induction n as [| n IH]; intros buffer s Hd Hb Hl r s'; cbn [page_loop];
    (destruct (Z.leb_spec to_read (zlen buffer)) as [Hle |];
      [intros [= <- <-]; split_and!; [done | done |]; intros page [= <-]; assert (to_read = zlen buffer) as -> by lia; done |]);
    [done |].
  pose proof (dev_read_spec (p0 + zlen buffer) (to_read - zlen buffer) s) as Hr.
  destruct (sys_dev_read E p _ _ s) as [[res bytes] s1]. destruct Hr as (Hd1 & Hf & Hres).
  destruct res as [k | |]; [| | by intros [= <- <-]; split_and!].
  - destruct Hres as (d' & Hd' & -> & Hk & Hkb). rewrite Hd in Hd'. injection Hd' as <-. intros Hr.
    pose proof (zlen_nonneg buffer).
    assert (zlen (slice d (p0 + zlen buffer) k) = k) as Lk.
    { destruct Hkb as [-> | Hkb]; [done |]. apply zlen_slice; lia. }
    apply IH in Hr as (G1 & G2 & G3); [| by rewrite Hd1 | | rewrite zlen_app, Lk; lia].
    + split_and!; [congruence | by eapply only_device_trans | done].
    + rewrite zlen_app, Lk. rewrite Hb at 1. by rewrite slice_app by lia.
  - intros Hr. apply IH in Hr as (G1 & G2 & G3); [| by rewrite Hd1 | done | done].
    split_and!; [congruence | by eapply only_device_trans | done].
Qed.

(** The verification succeeds only when the device starts with the data. *)
Lemma verify_loop_spec n p0 s d :
  0 <= p0 -> disks s !! p = Some d -> slice d 0 (Z.min p0 (zlen data)) = slice data 0 (Z.min p0 (zlen data)) ->
  forall r s', verify_loop E fuel n p data p0 s = Val (r, s') ->
  disks s' = disks s /\ only_device s s' /\
  (r = Some (zlen data) -> slice d 0 (zlen data) = data).
Proof.
  revert p0 s. induction n as [| n IH]; intros p0 s Hp0 Hd Heq r s'; cbn [verify_loop];
    (destruct (Z.leb_spec (zlen data) p0) as [Hle |];
      [intros [= <- <-]; split_and!; [done | done |]; intros _; rewrite Z.min_r in Heq by lia; rewrite Heq;
       unfold slice, zlen; rewrite Nat2Z.id; apply take_ge; simpl; lia |]); [done |].
  intros Hv. apply bind_Val_inv in Hv as ([page s1] & Hpage & Hv).
  set (to_read := Z.min (zlen data - p0) 4096) in *.
  eapply page_loop_spec in Hpage as (G1 & G2 & G3); [| done | done | done | zlia].
  destruct page as [page |]; [| injection Hv as <- <-; by split_and!].
  destruct (G3 page eq_refl) as [-> Hlen]. case_bool_decide as Hpg; cbn [negb] in Hv.
  - apply IH in Hv as (F1 & F2 & F3); [| lia | by rewrite G1 |].
    + split_and!; [congruence | by eapply only_device_trans | done].
    + rewrite Z.min_l in Heq by lia.
      replace (Z.min (p0 + 4096) (zlen data)) with (p0 + to_read) by lia.
      rewrite !slice_app by lia. rewrite Heq, !Z.add_0_l. by rewrite Hpg.
  - injection Hv as <- <-. split_and!; [done | done |]. intros [= Heq0]. lia.
Qed.

Lemma drop_caches_frame s : only_device s (sys_drop_caches E p s).
Proof.
  unfold sys_drop_caches. destruct (disks s !! p); [| done].
  split_and!; [done | done | intros q Hq; simpl; by rewrite lookup_insert_ne |].
  intros _. simpl. by rewrite lookup_insert_eq.
Qed.

Lemma attempts_spec n start s : is_Some (disks s !! p) ->
  forall r s', attempts E fuel n p data start s = Val (r, s') ->
  only_device s s' /\ (r = Some true -> exists d, disks s' !! p = Some d /\ slice d 0 (zlen data) = data).
Proof.
  revert start s. induction n as [| n IH]; intros start s Hs r s'; cbn [attempts]; [by intros [= <- <-] |].
  intros Ha. apply bind_Val_inv in Ha as ([ok s1] & Hw & Ha). apply dev_write_loop_frame in Hw.
  destruct ok; cbn [negb] in Ha; [| by injection Ha as <- <-].
  apply bind_Val_inv in Ha as ([st s2] & Hv & Ha). pose proof (drop_caches_frame s1) as Hdc.
  set (s1' := sys_drop_caches E p s1) in *.
  assert (only_device s s1') as Hf1 by (by eapply only_device_trans).
  destruct (proj2 (proj2 (proj2 Hf1)) Hs) as [d Ed].
  eapply verify_loop_spec in Hv as (F1 & F2 & F3); [| done | exact Ed | by rewrite Z.min_l by apply zlen_nonneg].
  assert (only_device s s2) as Hf by (by eapply only_device_trans).
  destruct st as [st |]; [| by injection Ha as <- <-].
  destruct (Z.eqb_spec st (zlen data)) as [-> | Hne].
  - injection Ha as <- <-. split; [done |]. intros _. exists d. rewrite F1. auto.
  - apply IH in Ha as [Hf2 Hd]; [| by apply Hf]. split; [by eapply only_device_trans | done].
Qed.

(** A success means that the device really starts with the data. *)
Lemma write_emmc_sound s r s' : write_emmc E fuel data p s = Val (r, s') ->
  only_device s s' /\ (r = 0 -> exists d, disks s' !! p = Some d /\ slice d 0 (zlen data) = data).
Proof.
  unfold write_emmc, answer. cbv zeta iota. set (a := e_answer E (tick s)).
  destruct (if a <? 0 then None else disks (tock s) !! p) as [d |] eqn:Ed; [| by intros [= <- <-]].
  assert (is_Some (disks (tock s) !! p)) as Hs by (destruct (a <? 0); [done | by exists d]).
  intros Hw. apply bind_Val_inv in Hw as ([ok s1] & Ha & Hw). apply (attempts_spec _ _ _ Hs) in Ha as [Hf Hd].
  destruct ok as [[] |]; injection Hw as <- <-; (split; [done |]); [| done | done].
  destruct (_ <? 0); [done |]. intros _. by apply Hd.
Qed.

(** *** When nothing goes wrong *)

Hypothesis Hans : forall t, 4096 <= e_answer E t.
Hypothesis Hsettle : forall t d, e_settle E t d = d.
Hypothesis Hfuel : zlen data <= Z.of_nat fuel.

Lemma dev_write_all n start s d :
  disks s !! p = Some d -> zlen data <= zlen d -> 0 <= start <= zlen data ->
  slice d 0 start = slice data 0 start -> zlen data - start <= Z.of_nat n ->
  exists s' d', dev_write_loop E n p data start s = Val (true, s') /\ disks s' !! p = Some d' /\
    zlen d' = zlen d /\ slice d' 0 (zlen data) = data.
Proof.
  revert start s d. induction n as [| n IH]; intros start s d Hd Hlen Hst Heq Hn; cbn [dev_write_loop];
    (destruct (Z.leb_spec (zlen data) start) as [Hle |];
     [exists s, d; split_and!; [done | done | done |]; assert (start = zlen data) as -> by lia; rewrite Heq;
      unfold slice, zlen; rewrite Nat2Z.id; apply take_ge; simpl; lia |]); [lia |].
  set (k := Z.min (zlen data - start) 4096). pose proof (Hans (tick s)).
  assert (zlen (slice data start k) = k) as Lk by (apply zlen_slice; lia).
  unfold sys_dev_write, answer. cbv zeta iota. cbn [disks tock]. rewrite Hd.
  rewrite (proj2 (Z.leb_gt _ _)) by lia. unfold io_answer.
  rewrite (proj2 (Z.eqb_neq _ _)), (proj2 (Z.ltb_ge _ 0)) by lia.
  replace (Z.min (e_answer E (tick s)) (Z.min (zlen (slice data start k)) (zlen d - start))) with k by lia.
  set (d1 := take _ d ++ _). set (s1 := set_disks _ _).
  assert (d1 = slice data 0 start ++ slice data start k ++ drop (Z.to_nat (start + k)) d) as Ed1.
  { unfold d1. f_equal; [rewrite <- Heq; done |]. f_equal; [apply take_ge; unfold zlen in Lk; lia | f_equal; lia]. }
  assert (zlen (slice data 0 start) = start) as Lst by (apply zlen_slice; lia).
  destruct (IH (start + k) s1 d1) as (s' & d' & G1 & G2 & G3 & G4).
  - simpl. by rewrite lookup_insert_eq.
  - rewrite Ed1, !zlen_app, Lst, Lk. unfold zlen in *. rewrite length_drop. lia.
  - lia.
  - rewrite Ed1, app_assoc. assert (slice data 0 start ++ slice data start k = slice data 0 (start + k)) as ->
      by (by rewrite slice_app by lia).
    apply slice_prefix. symmetry. apply zlen_slice; lia.
  - lia.
  - exists s', d'. split_and!; [done | done | | done]. rewrite G3, Ed1, !zlen_app, Lst, Lk.
    unfold zlen in *. rewrite length_drop. lia.
Qed.

Lemma page_read n p0 to_read s d :
  disks s !! p = Some d -> 0 <= p0 -> 0 < to_read <= 4096 -> p0 + to_read <= zlen d -> (0 < n)%nat ->
  exists s', page_loop E n p p0 to_read [] s = Val (Some (slice d p0 to_read), s') /\ disks s' = disks s.
Proof.
  intros Hd Hp0 Ht Hl Hn. destruct n as [| n]; [lia |]. cbn [page_loop]. change (zlen (@nil Z)) with 0.
  rewrite (proj2 (Z.leb_gt _ _)) by lia. unfold sys_dev_read, answer. cbv zeta iota. cbn [disks tock]. rewrite Hd.
  pose proof (Hans (tick s)). unfold io_answer. rewrite (proj2 (Z.eqb_neq _ _)), (proj2 (Z.ltb_ge _ 0)) by lia.
  rewrite Z.add_0_r, Z.sub_0_r.
  replace (Z.min (e_answer E (tick s)) (Z.max 0 (Z.min to_read (zlen d - p0)))) with to_read by lia.
  exists (tock s). cbn [app]. assert (zlen (slice d p0 to_read) = to_read) as Ls by (apply zlen_slice; lia).
  destruct n; cbn [page_loop]; by rewrite Ls, Z.leb_refl.
Qed.

Lemma verify_all n p0 s d :
  disks s !! p = Some d -> slice d 0 (zlen data) = data -> zlen data <= zlen d -> 0 <= p0 ->
  zlen data - p0 <= Z.of_nat n ->
  exists s', verify_loop E fuel n p data p0 s = Val (Some (zlen data), s') /\ disks s' = disks s.
Proof.
  intros Hd Heq Hlen. revert p0 s Hd. induction n as [| n IH]; intros p0 s Hd Hp0 Hn; cbn [verify_loop];
    (destruct (Z.leb_spec (zlen data) p0); [by exists s |]); [lia |].
  set (k := Z.min (zlen data - p0) 4096).
  destruct (page_read fuel p0 k s d) as (s1 & -> & Hs1); [done | lia | lia | lia | lia |]. cbn [mbind outcome_bind].
  assert (slice d p0 k = slice data p0 k) as Es.
  { rewrite <- Heq at 1. unfold slice. rewrite drop_0. rewrite skipn_firstn_comm, take_take. f_equal.
    unfold zlen in *. lia. }
  rewrite bool_decide_true by done. cbn [negb].
  destruct (IH (p0 + 4096) s1) as (s' & -> & Hs'); [by rewrite Hs1 | lia | lia |]. exists s'. by rewrite Hs', Hs1.
Qed.

Lemma write_emmc_complete s d : disks s !! p = Some d -> zlen data <= zlen d ->
  exists s', write_emmc E fuel data p s = Val (0, s').
Proof.
  intros Hd Hlen. unfold write_emmc, answer. cbv zeta iota. pose proof (Hans (tick s)).
  rewrite (proj2 (Z.ltb_ge _ 0)) by lia. cbn [disks tock]. rewrite Hd. cbn [attempts].
  destruct (dev_write_all fuel 0 (tock s) d) as (s1 & d1 & -> & Hd1 & Hl1 & Heq1); [done | done | pose proof (zlen_nonneg data); lia |
    done | lia |]. cbn [mbind outcome_bind negb].
  assert (disks (sys_drop_caches E p s1) !! p = Some d1) as Hd2.
  { unfold sys_drop_caches. rewrite Hd1. simpl. by rewrite lookup_insert_eq, Hsettle. }
  destruct (verify_all (length data) 0 (sys_drop_caches E p s1) d1) as (s2 & -> & _);
    [done | done | lia | done | unfold zlen; lia |].
  cbn [mbind outcome_bind]. rewrite Z.eqb_refl. cbn [mbind outcome_bind].
  pose proof (Hans (tick s2)). rewrite (proj2 (Z.ltb_ge _ 0)) by lia. by eexists.
Qed.
End Write.

(** ** Names *)

(** A field of a partition name. *)
Definition field (t : block) : Prop := t <> [] /\ Forall (fun c => c <> colon) t.

Lemma until_colon_app t r : Forall (fun c => c <> colon) t -> until_colon (t ++ colon :: r) = (t, r).
Proof.
  induction 1 as [| c t Hc Ht IH]; cbn [app until_colon]; [done |]. by rewrite (proj2 (Z.eqb_neq _ _)), IH by done.
Qed.

Lemma until_colon_end t : Forall (fun c => c <> colon) t -> until_colon t = (t, []).
Proof. induction 1 as [| c t Hc Ht IH]; cbn [until_colon]; [done |]. by rewrite (proj2 (Z.eqb_neq _ _)), IH by done. Qed.

Lemma strtok_field t r : field t -> strtok (t ++ colon :: r) = (Some t, r).
Proof.
  intros [Hne Ht]. destruct t as [| c t]; [done |]. pose proof (until_colon_app (c :: t) r Ht) as Hu.
  apply Forall_cons in Ht as [Hc Ht]. unfold strtok. cbn [app skip_colons] in *.
  rewrite (proj2 (Z.eqb_neq c colon)) by done. by rewrite Hu.
Qed.

Lemma strtok_last t : field t -> strtok t = (Some t, []).
Proof.
  intros [Hne Ht]. destruct t as [| c t]; [done |]. pose proof (until_colon_end (c :: t) Ht) as Hu.
  apply Forall_cons in Ht as [Hc Ht]. unfold strtok. cbn [skip_colons].
  rewrite (proj2 (Z.eqb_neq c colon)) by done. by rewrite Hu.
Qed.

Lemma emmc_field : field (str "EMMC").
Proof. split; [done |]. repeat constructor; done. Qed.

Lemma strtok_device dev suffix : field dev -> suffix = [] \/ (exists r, suffix = colon :: r) ->
  (strtok (dev ++ suffix)).1 = Some dev.
Proof. intros Hd [-> | [r ->]]; [by rewrite app_nil_r, strtok_last | by rewrite strtok_field]. Qed.

Lemma WriteToPartition_is_emmc `{Arch} `{mtd_api} (E : env) fuel data dev suffix s :
  field dev -> suffix = [] \/ (exists r, suffix = colon :: r) ->
  WriteToPartition E fuel data (str "EMMC" ++ colon :: dev ++ suffix) s = write_emmc E fuel data dev s.
Proof.
  intros Hd Hs. unfold WriteToPartition, partition_type. rewrite (strtok_field _ _ emmc_field).
  rewrite bool_decide_false by done. rewrite bool_decide_true by done. cbn [mbind outcome_bind].
  by rewrite strtok_device.
Qed.

(** C19: writing to a block device changes nothing else, and when it answers 0 the device
    starts with exactly the data, even if writes were short, interrupted or lost in the
    cache.  When no call fails and the device is large enough it does answer 0. *)
Theorem WriteToPartition_emmc_correct `{Arch} `{mtd_api} (E : env) fuel data dev suffix s :
  field dev -> suffix = [] \/ (exists r, suffix = colon :: r) ->
  (forall r s', WriteToPartition E fuel data (str "EMMC" ++ colon :: dev ++ suffix) s = Val (r, s') ->
     only_device dev s s' /\ (r = 0 -> exists d, disks s' !! dev = Some d /\ slice d 0 (zlen data) = data)) /\
  (forall d, disks s !! dev = Some d -> zlen data <= zlen d -> zlen data <= Z.of_nat fuel ->
     (forall t, 4096 <= e_answer E t) -> (forall t b, e_settle E t b = b) ->
     exists s', WriteToPartition E fuel data (str "EMMC" ++ colon :: dev ++ suffix) s = Val (0, s')).
Proof.
  intros Hd Hs. rewrite WriteToPartition_is_emmc by done. split.
  - intros r s'. apply write_emmc_sound.
  - intros d Hdk Hlen Hfuel Hans Hset. by apply (write_emmc_complete E fuel dev data Hans Hset Hfuel s d).
Qed.

(** A device without flash, and an environment in which nothing fails. *)
#[local] Instance no_mtd : mtd_api := {|
  mtd_state := unit; mtd_partition := Empty_set; mtd_reading := Empty_set; mtd_writing := Empty_set;
  mtd_scan_partitions u := Val (-1, u);
  mtd_find_partition_by_name _ _ := None;
  mtd_read_partition p _ := match p with end;
  mtd_read_data c _ _ := match c with end;
  mtd_read_close c _ := match c with end;
  mtd_write_partition p _ := match p with end;
  mtd_write_data c _ _ := match c with end;
  mtd_erase_blocks c _ _ := match c with end;
  mtd_write_close c _ := match c with end;
  mtd_mount_partition p _ _ _ _ := match p with end
|}.
Definition calm : env := mkEnv (fun _ => 1000000) (fun _ => None) (fun _ => None) (fun _ b => b).
Definition demo_disk : sys := mkSys ∅ {[ str "mmc" := [9; 9; 9; 9; 9] ]} tt false 0 [].

Lemma WriteToPartition_emmc_correct_witness : exists s',
  @WriteToPartition LP64 no_mtd calm 10 [1; 2; 3] (str "EMMC" ++ colon :: str "mmc" ++ []) demo_disk = Val (0, s') /\
  exists d, disks s' !! str "mmc" = Some d /\ slice d 0 3 = [1; 2; 3].
Proof.
  destruct (@WriteToPartition_emmc_correct LP64 no_mtd calm 10 [1; 2; 3] (str "mmc") [] demo_disk) as [H1 H2].
  - split; [discriminate |]. repeat constructor; discriminate.
  - by left.
  - destruct (H2 [9; 9; 9; 9; 9]) as [s' Hs'].
    + reflexivity.
    + vm_compute. discriminate.
    + vm_compute. discriminate.
    + intros t. vm_compute. discriminate.
    + reflexivity.
    + exists s'. split; [exact Hs' |]. exact (proj2 (H1 0 s' Hs') eq_refl).
Defined.

(** ** Loading a partition *)

Section Load.
Context `{Arch} `{mtd_api} (E : env) (sha1 : block -> block).
Variable d : block.

(** The device's first [size] bytes have the digest that [sha] spells. *)
Definition pair_matches (size : Z) (sha : block) : Prop := ParseSha1 sha = Some (sha1 (slice d 0 size)).

(** Reading on to the next size. *)
Lemma read_next so_far size s :
  so_far = slice d 0 (zlen so_far) -> zlen so_far <= zlen d -> zlen so_far <= size ->
  exists ok so_far' r s1,
    (if 0 <? size - zlen so_far then
       let* (k, bytes, r, s) := read_some E (ReadEmmc (drop (length so_far) d)) (size - zlen so_far) s in
       if negb (size - zlen so_far =? k) then Val (false, so_far, r, s) else Val (true, so_far ++ bytes, r, s)
     else Val (true, so_far, ReadEmmc (drop (length so_far) d), s)) = Val (ok, so_far', r, s1) /\ quiet s s1 /\
    (exists rest, r = ReadEmmc rest) /\
    (if ok then size <= zlen d /\ so_far' = slice d 0 size /\ r = ReadEmmc (drop (length so_far') d)
     else (exists t, e_answer E t < 0) \/ zlen d < size).
Proof.
  intros Hso Hl Hsz1. pose proof (zlen_nonneg so_far).
  destruct (Z.ltb_spec 0 (size - zlen so_far)).
  2: { assert (size = zlen so_far) as -> by lia. do 4 eexists. split; [done |]. split_and!; [done | by eexists | done | done | done]. }
  unfold read_some, sys_fread, answer. cbv zeta iota. cbn [mbind outcome_bind]. destruct (Z.ltb_spec (e_answer E (tick s)) 0) as [Ha | Ha].
  - change (zlen (@nil Z)) with 0. rewrite (proj2 (Z.eqb_neq _ _)) by lia. do 4 eexists. split; [done |].
    split_and!; [done | by eexists | left; by exists (tick s)].
  - set (bytes := take _ _). assert (zlen bytes = Z.min (size - zlen so_far) (zlen d - zlen so_far)) as Lb.
    { unfold bytes, zlen in *. rewrite length_take, length_drop. lia. }
    destruct (Z.eqb_spec (size - zlen so_far) (zlen bytes)) as [Ek | Ek]; cbn [negb]; do 4 eexists; (split; [done |]).
    + assert (so_far ++ bytes = slice d 0 size) as Eb.
      { replace size with (zlen so_far + (size - zlen so_far)) by lia. rewrite slice_app by lia.
        rewrite Z.add_0_l. f_equal; [done |]. unfold bytes, slice, zlen. by rewrite Nat2Z.id. }
      split_and!; [done | by eexists | lia | done |]. rewrite drop_drop. f_equal. f_equal.
      rewrite length_app. done.
    + split_and!; [done | by eexists | right; lia].
Qed.

Lemma try_pairs_spec pairs so_far s :
  so_far = slice d 0 (zlen so_far) -> zlen so_far <= zlen d ->
  Forall (fun q => zlen so_far <= q.1 < 2 ^ word_bits) pairs -> StronglySorted (fun a b => a.1 <= b.1) pairs ->
  exists m r s', try_pairs E sha1 (prod_map id Some <$> pairs) (ReadEmmc (drop (length so_far) d)) so_far s = Val (m, r, s') /\
    quiet s s' /\ (exists rest, r = ReadEmmc rest) /\
    match m with
    | Matched data => exists size sha, (size, sha) ∈ pairs /\ size <= zlen d /\ data = slice d 0 size /\
        pair_matches size sha /\ forall size' sha', (size', sha') ∈ pairs -> pair_matches size' sha' -> size <= size'
    | NoMatch _ => forall size sha, (size, sha) ∈ pairs -> ~ pair_matches size sha
    | ReadFailed _ => (exists t, e_answer E t < 0) \/
        exists size sha, (size, sha) ∈ pairs /\ (zlen d < size \/ ParseSha1 sha = None)
    end.
Proof.
  intros Hso Hl Hsz Hsort. revert so_far s Hso Hl Hsz.
  induction Hsort as [| [size sha] pairs Hsort IH Hall]; intros so_far s Hso Hl Hsz.
  { do 3 eexists. split; [done |]. split_and!; [done | by eexists |]. by intros size sha ?%elem_of_nil. }
  apply Forall_cons in Hsz as [Hsz1 Hsz]. cbn [fst snd] in *. pose proof (zlen_nonneg so_far).
  rewrite fmap_cons. cbn [try_pairs prod_map id fst snd]. rewrite wrapu_id by lia.
  destruct (read_next so_far size s Hso Hl ltac:(lia)) as (ok & so_far' & r & s1 & -> & Hq & [rest Hrest] & Hok).
  cbn [mbind outcome_bind]. destruct ok; cbn [negb].
  2: { do 3 eexists. split; [done |]. split_and!; [done | by eexists |]. destruct Hok as [Ht | Hd]; [by left |].
       right. exists size, sha. split; [left | by left]. }
  destruct Hok as (Hle & -> & ->).
  destruct (ParseSha1 sha) as [parsed |] eqn:Ep.
  2: { do 3 eexists. split; [done |]. split_and!; [done | by eexists |]. right. exists size, sha. split; [left | by right]. }
  assert (zlen (slice d 0 size) = size) as Ls by (apply zlen_slice; lia).
  case_bool_decide as Hm.
  - do 3 eexists. split; [done |]. split_and!; [done | by eexists |]. exists size, sha.
    split_and!; [left | lia | done | unfold pair_matches; congruence |].
    intros size' sha' [[= -> ->] | Hin]%elem_of_cons Hm'; [done |].
    rewrite Forall_forall in Hall. by apply (Hall (size', sha')).
  - destruct (IH (slice d 0 size) s1) as (m & r' & s' & Htp & Hq2 & Hr & Hspec).
    + by rewrite Ls.
    + lia.
    + rewrite Ls. rewrite Forall_forall in *. intros q Hin. specialize (Hall q Hin). specialize (Hsz q Hin). simpl in *. lia.
    + exists m, r', s'. split; [done |]. split; [by eapply quiet_trans |]. split; [done |]. destruct m as [data | |].
      * destruct Hspec as (sz & sh & Hin & Hsz' & Hdata & Hpm & Hmin). exists sz, sh.
        split_and!; [by right | done | done | done |].
        intros size' sha' [[= -> ->] | Hin']%elem_of_cons Hm'; [unfold pair_matches in Hm'; congruence | by apply (Hmin _ sha')].
      * intros sz sh [[= -> ->] | Hin]%elem_of_cons; [unfold pair_matches; congruence | by apply Hspec].
      * destruct Hspec as [Ht | (sz & sh & Hin & Hbad)]; [by left | right; exists sz, sh; split; [by right | done]].
Qed.

(** *** The name of a partition with its sizes and digests *)

Definition size_of (sz : block) : Z := wrapu word_bits (strtol sz).1.
Definition pair_fields (ps : list (block * block)) : block :=
  concat ((fun q => colon :: q.1 ++ colon :: q.2) <$> ps).
Definition rest_of (ps : list (block * block)) : block := match pair_fields ps with [] => [] | _ :: r => r end.
Definition listed (ps : list (block * block)) : list (Z * block) := prod_map size_of id <$> ps.

Definition pair_ok (q : block * block) : Prop := field q.1 /\ field q.2 /\ size_of q.1 <> 0.

Lemma strtok_pairs t ps : field t -> strtok (t ++ pair_fields ps) = (Some t, rest_of ps).
Proof.
  intros Ht. destruct ps as [| q ps].
  - unfold rest_of, pair_fields. simpl. by rewrite app_nil_r, strtok_last.
  - unfold rest_of, pair_fields. rewrite fmap_cons. cbn [concat app]. by apply strtok_field.
Qed.

Lemma read_pairs_spec ps : Forall pair_ok ps ->
  read_pairs (length ps) (rest_of ps) = Val (Some (prod_map id Some <$> listed ps)).
Proof.
  induction 1 as [| [sz sha] ps (Hf1 & Hf2 & Hnz) Hps IH]; [done |]. cbn [fst snd] in *.
  cbn [length read_pairs]. unfold rest_of, pair_fields. rewrite fmap_cons. cbn [concat app fst snd].
  rewrite <- app_assoc. cbn [app]. rewrite strtok_field by done. fold (size_of sz).
  rewrite (proj2 (Z.eqb_neq _ _)) by done. fold (pair_fields ps).
  rewrite strtok_pairs by done. rewrite IH. done.
Qed.

Lemma colons_app a b : count_colons (a ++ b) = count_colons a + count_colons b.
Proof. unfold count_colons. by rewrite filter_app, zlen_app. Qed.

Lemma count_colon r : count_colons (colon :: r) = 1 + count_colons r.
Proof. unfold count_colons. rewrite filter_cons_True by done. by rewrite zlen_cons. Qed.

Lemma count_field t : field t -> count_colons t = 0.
Proof.
  intros [_ Ht]. unfold count_colons. induction Ht as [| c t Hc Ht IH]; [done |]. by rewrite filter_cons_False.
Qed.

Lemma count_pairs ps : Forall pair_ok ps -> count_colons (pair_fields ps) = 2 * zlen ps.
Proof.
  induction 1 as [| [sz sha] ps (Hf1 & Hf2 & _) Hps IH]; [done |]. unfold pair_fields. rewrite fmap_cons.
  cbn [concat fst snd] in *. fold (pair_fields ps). rewrite colons_app, count_colon, colons_app, count_colon, !count_field by done.
  rewrite IH, zlen_cons. lia.
Qed.

(** Sorting keeps the pairs. *)
Lemma sorted_pairs (l : list (Z * block)) :
  exists l', merge_sort pair_le (prod_map id Some <$> l) = prod_map id Some <$> l' /\ l ≡ₚ l' /\
    StronglySorted (fun a b : Z * block => a.1 <= b.1) l'.
Proof.
  assert (Transitive pair_le) by (intros a b c; unfold pair_le; lia).
  assert (Total pair_le) by (intros a b; unfold pair_le; lia).
  pose proof (StronglySorted_merge_sort pair_le (prod_map id Some <$> l)) as Hs.
  pose proof (merge_sort_Permutation pair_le (prod_map id Some <$> l)) as Hp.
  apply Permutation_map_inv in Hp as (l' & Hl' & Hp). exists l'. split; [done |]. split; [done |].
  rewrite Hl' in Hs. clear Hl' Hp. induction l' as [| q l' IH]; [constructor |].
  inversion Hs as [| ? ? Hs' Hall]; subst. constructor; [by apply IH |].
  apply (proj1 (Forall_fmap (prod_map id Some) _ l')) in Hall. eapply Forall_impl; [exact Hall |].
  intros [n b]. by destruct q.
Qed.

Lemma LoadPartition_spec file dev ps s :
  field dev -> ps <> [] -> Forall pair_ok ps -> disks s !! dev = Some d ->
  exists r f s', LoadPartitionContents E sha1 (str "EMMC" ++ colon :: dev ++ pair_fields ps) file s = Val (r, f, s') /\
    quiet s s' /\
    ((r = 0 /\ exists size sha, (size, sha) ∈ listed ps /\ fc_data f = Some (slice d 0 size) /\ fc_size f = size /\
        fc_sha1 f = sha1 (slice d 0 size) /\ pair_matches size sha /\
        forall size' sha', (size', sha') ∈ listed ps -> pair_matches size' sha' -> size <= size') \/
     (r = -1 /\ ((forall size sha, (size, sha) ∈ listed ps -> ~ pair_matches size sha) \/
        (exists t, e_answer E t < 0) \/
        exists size sha, (size, sha) ∈ listed ps /\ (zlen d < size \/ ParseSha1 sha = None)))).
Proof.
  intros Hdev Hne Hps Hd. unfold LoadPartitionContents, partition_type.
  rewrite (strtok_field _ _ emmc_field). rewrite bool_decide_false by done. rewrite bool_decide_true by done.
  cbn [mbind outcome_bind]. rewrite strtok_pairs by done.
  assert (count_colons (str "EMMC" ++ colon :: dev ++ pair_fields ps) = 1 + 2 * zlen ps) as Ec.
  { rewrite colons_app, count_colon, colons_app, count_pairs, !count_field by (done || apply emmc_field). lia. }
  rewrite Ec. replace ((1 + 2 * zlen ps - 1) / 2) with (zlen ps)
    by (replace (1 + 2 * zlen ps - 1) with (zlen ps * 2) by lia; by rewrite Z.div_mul).
  assert (Z.to_nat (zlen ps) = length ps) as -> by (unfold zlen; lia).
  rewrite read_pairs_spec by done. cbn [mbind outcome_bind].
  destruct (sorted_pairs (listed ps)) as (l & -> & Hp & Hs). unfold open_partition, answer. cbv zeta iota.
  destruct (Z.ltb_spec (e_answer E (tick s)) 0) as [Ha | Ha].
  { do 3 eexists. split; [done |]. split; [done |]. right. split; [done |]. right. left. by exists (tick s). }
  cbn [disks tock]. rewrite Hd. cbn [fmap option_fmap option_map].
  destruct (load_some (prod_map id Some <$> l) (zlen ps - 1)) as [q ->].
  { unfold zlen. rewrite length_fmap, <- Hp. unfold listed. rewrite length_fmap. destruct ps; [done |]. simpl. lia. }
  cbn [mbind outcome_bind].
  destruct (try_pairs_spec l [] (tock s)) as (m & r & s' & Htp & Hq & [rest ->] & Hspec); [done | zlia | | done |].
  { rewrite <- Hp. unfold listed. apply Forall_fmap, Forall_forall. intros q' _. change (zlen (@nil Z)) with 0. simpl.
    apply wrapu_range. destruct word_bits_ok; lia. }
  cbn [length] in Htp. rewrite drop_0 in Htp. rewrite Htp. cbn [mbind outcome_bind]. clear Htp.
  destruct m as [data | |].
  - destruct Hspec as (size & sha & Hin & Hle & -> & Hm & Hmin). do 3 eexists. split; [done |]. split; [done |].
    left. split; [done |]. rewrite <- Hp in Hin. exists size, sha. cbn [fc_data fc_size fc_sha1].
    assert (0 <= size).
    { unfold listed in Hin. apply list_elem_of_fmap in Hin as ([sz sh] & Eq & _). injection Eq as -> _.
      apply wrapu_range. destruct word_bits_ok; lia. }
    split_and!; [done | done | apply zlen_slice; lia | done | done |].
    intros size' sha' Hin'. rewrite Hp in Hin'. by apply Hmin.
  - do 3 eexists. split; [done |]. split; [done |]. right. split; [done |]. left.
    intros size sha Hin. rewrite Hp in Hin. by apply Hspec.
  - do 3 eexists. split; [done |]. split; [done |]. right. split; [done |]. right.
    destruct Hspec as [? | (size & sha & Hin & Hbad)]; [by left | right; exists size, sha]. by rewrite Hp.
Qed.
End Load.

(** C20: loading a block device whose name lists sizes and digests returns, changes
    nothing, and finds the smallest listed size for which the start of the device has
    the listed digest; it answers -1 only when no pair matches, a system call failed, a
    listed size is larger than the device or a listed digest cannot be parsed. *)
Theorem LoadPartitionContents_correct `{Arch} `{mtd_api} (E : env) (sha1 : block -> block) (d : block)
    file dev ps s :
  field dev -> ps <> [] -> Forall pair_ok ps -> disks s !! dev = Some d ->
  exists r f s', LoadPartitionContents E sha1 (str "EMMC" ++ colon :: dev ++ pair_fields ps) file s = Val (r, f, s') /\
    quiet s s' /\
    ((r = 0 /\ exists size sha, (size, sha) ∈ listed ps /\ fc_data f = Some (slice d 0 size) /\ fc_size f = size /\
        fc_sha1 f = sha1 (slice d 0 size) /\ pair_matches sha1 d size sha /\
        forall size' sha', (size', sha') ∈ listed ps -> pair_matches sha1 d size' sha' -> size <= size') \/
     (r = -1 /\ ((forall size sha, (size, sha) ∈ listed ps -> ~ pair_matches sha1 d size sha) \/
        (exists t, e_answer E t < 0) \/
        exists size sha, (size, sha) ∈ listed ps /\ (zlen d < size \/ ParseSha1 sha = None)))).
Proof. apply LoadPartition_spec. Qed.

(** A stand-in digest: the length of the data. *)
Definition length_digest (b : block) : block := u8 (zlen b) :: replicate 19 0.
Definition demo_sha (n : Z) : block := concat (hex_byte <$> (n :: replicate 19 0)).
Definition demo_pairs : list (block * block) := [(str "4", demo_sha 9); (str "2", demo_sha 2)].

Lemma LoadPartitionContents_correct_witness : exists r f s',
  @LoadPartitionContents LP64 no_mtd calm length_digest (str "EMMC" ++ colon :: str "mmc" ++ pair_fields demo_pairs)
    (mkContents [] None 0 0 0 0) demo_disk = Val (r, f, s') /\ quiet demo_disk s'.
Proof.
  destruct (@LoadPartitionContents_correct LP64 no_mtd calm length_digest [9; 9; 9; 9; 9]
    (mkContents [] None 0 0 0 0) (str "mmc") demo_pairs demo_disk) as (r & f & s' & Hr & Hq & _).
  - split; [discriminate |]. repeat constructor; discriminate.
  - discriminate.
  - repeat constructor; discriminate.
  - reflexivity.
  - exists r, f, s'. split; [exact Hr | exact Hq].
Defined.

(** The same run, evaluated: the two bytes are found although the larger size is listed
    first. *)
Example load_two_bytes :
  @LoadPartitionContents LP64 no_mtd calm length_digest (str "EMMC" ++ colon :: str "mmc" ++ pair_fields demo_pairs)
    (mkContents [] None 0 0 0 0) demo_disk =
  Val (0, mkContents (2 :: replicate 19 0) (Some [9; 9]) 2 420 0 0, mkSys ∅ {[ str "mmc" := [9; 9; 9; 9; 9] ]} tt false 2 []).
Proof. vm_compute. reflexivity. Qed.

(** A name without sizes is reported as bad and then used: the size of the allocation is
    read in front of the array. *)
Lemma bad_name_out_of_bounds :
  @LoadPartitionContents LP64 no_mtd calm length_digest (str "EMMC:mmc") (mkContents [] None 0 0 0 0) demo_disk =
  Trap OutOfBounds.
Proof. vm_compute. reflexivity. Qed.
