(* ===== verification/MtdScan.v ===== *)
(** * Scanning the partition table

    A table printed in the format of /proc/mtd is read back by [mtd_scan_partitions], and
    partitions are found by their names. *)

From stdpp Require Import base numbers list gmap.
From stdpp Require Import strings.
From S2P Require Import Prelude CString Edify Sys Mtd.

(** ** The format *)

(** A line of the table: number, size, erase size, name. *)
Record line := mkLine { l_num : Z; l_size : Z; l_erase : Z; l_name : block }.

Definition radix_char (d : Z) : Z := if d <? 10 then d + 48 else d - 10 + 97.

(** [n] digits of [v] in base [b]. *)
Fixpoint radix (b : Z) (n : nat) (v : Z) : list Z :=
  match n with O => [] | S n => radix b n (v / b) ++ [v mod b] end.

Definition dec (v : Z) : block := radix_char <$> radix 10 (if v <? 10 then 1 else 2) v.
Definition hex8 (v : Z) : block := radix_char <$> radix 16 8 v.

(** mtd%d: %08x %08x and the name in quotes. *)
Definition print_line (l : line) : block :=
  str "mtd" ++ dec (l_num l) ++ str ": " ++ hex8 (l_size l) ++ str " " ++ hex8 (l_erase l) ++ str " " ++
  [34] ++ l_name l ++ [34; 10].
Definition header : block := str "dev:    size   erasesize  name" ++ [10].
Definition print_table (ls : list line) : block := header ++ concat (print_line <$> ls).

Definition line_ok (l : line) : Prop :=
  0 <= l_num l < 32 /\ 0 <= l_size l < 2 ^ 32 /\ 0 <= l_erase l < 2 ^ 32 /\ 0 < zlen (l_name l) <= 63 /\
  Forall (fun c => c <> 0 /\ c <> 10 /\ c <> 34) (l_name l).

(** ** Reading numbers back *)

Lemma digit_of_char b d : 0 <= d < b -> b <= 16 -> digit_of b (radix_char d) = Some d.
Proof.
  intros Hd Hb. unfold digit_of, radix_char. destruct (Z.ltb_spec d 10).
  - rewrite (proj2 (Z.leb_le _ _)), (proj2 (Z.leb_le _ _)) by lia. cbn [andb].
    replace (d + 48 - 48) with d by lia. by rewrite (proj2 (Z.ltb_lt _ _)) by lia.
  - rewrite (proj2 (Z.leb_le 48 _)), (proj2 (Z.leb_gt _ 57)) by lia. cbn [andb].
    rewrite (proj2 (Z.leb_le 97 _)), (proj2 (Z.leb_le _ 122)) by lia. cbn [andb].
    replace (d - 10 + 97 - 97 + 10) with d by lia. by rewrite (proj2 (Z.ltb_lt _ _)) by lia.
Qed.

Lemma radix_range b n v : 0 < b -> Forall (fun d => 0 <= d < b) (radix b n v).
Proof.
  intros Hb. revert v. induction n as [| n IH]; intros v; [constructor |]. cbn [radix].
  apply Forall_app. split; [apply IH |]. repeat constructor; apply Z.mod_pos_bound; done.
Qed.

Lemma radix_value b n v : 0 < b -> 0 <= v < b ^ Z.of_nat n ->
  foldl (fun acc d => acc * b + d) 0 (radix b n v) = v.
Proof.
  intros Hb. revert v. induction n as [| n IH]; intros v Hv; [simpl in *; lia |]. cbn [radix].
  rewrite foldl_app. cbn [foldl]. rewrite IH.
  - pose proof (Z.div_mod v b ltac:(lia)). lia.
  - rewrite Nat2Z.inj_succ, Z.pow_succ_r in Hv by lia. split; [apply Z.div_pos; lia | apply Z.div_lt_upper_bound; lia].
Qed.

Lemma radix_digits_read b ds acc c t : b <= 16 -> Forall (fun d => 0 <= d < b) ds -> digit_of b c = None ->
  radix_digits b ((radix_char <$> ds) ++ c :: t) acc =
    (if bool_decide (ds = []) then acc else Some (foldl (fun acc d => acc * b + d) (default 0 acc) ds), c :: t).
Proof.
  intros Hb Hds Hc. revert acc. induction Hds as [| d ds Hd Hds IH]; intros acc.
  { cbn [fmap list_fmap app radix_digits]. by rewrite Hc. }
  rewrite fmap_cons. cbn [app radix_digits]. rewrite digit_of_char by done. rewrite IH.
  rewrite (bool_decide_false (d :: ds = [])) by done. f_equal. case_bool_decide; [by subst | done].
Qed.

Lemma char_range d : 0 <= d < 16 -> 48 <= radix_char d <= 57 \/ 97 <= radix_char d <= 102.
Proof. intros Hd. unfold radix_char. destruct (Z.ltb_spec d 10); lia. Qed.

Lemma digit_not_space c : 48 <= c <= 57 \/ 97 <= c <= 102 -> is_space c = false.
Proof. intros Hc. unfold is_space. apply orb_false_iff. rewrite andb_false_iff, Z.eqb_neq, Z.leb_gt, Z.leb_gt. lia. Qed.

(** A number of [n] digits after blanks, and what follows. *)
Lemma scan_int_read b n v c t ws : 0 < b <= 16 -> 0 <= v < b ^ Z.of_nat (S n) -> digit_of b c = None -> c <> 120 -> c <> 88 ->
  spaces ws -> scan_int b (ws ++ (radix_char <$> radix b (S n) v) ++ c :: t) = Some (v, c :: t).
Proof.
  intros Hb Hv Hc Hx1 Hx2 Hws. pose proof (radix_range b (S n) v ltac:(lia)) as Hr.
  pose proof (radix_value b (S n) v ltac:(lia) Hv) as Hval.
  destruct (radix b (S n) v) as [| d ds] eqn:Eds; [cbn [radix] in Eds; by destruct (radix b n (v / b)) |].
  rewrite fmap_cons. unfold scan_int. pose proof Hr as [Hd Hds]%Forall_cons.
  pose proof (char_range d ltac:(lia)) as Hcd. cbn [app].
  rewrite skip_space_app by (done || by apply digit_not_space).
  rewrite (proj2 (Z.eqb_neq _ 45)), (proj2 (Z.eqb_neq _ 43)) by lia.
  assert (match radix_char d :: (radix_char <$> ds) ++ c :: t with
          | c0 :: x :: s' => if (b =? 16) && (c0 =? 48) && ((x =? 120) || (x =? 88)) then s'
                             else radix_char d :: (radix_char <$> ds) ++ c :: t
          | _ => radix_char d :: (radix_char <$> ds) ++ c :: t
          end = radix_char d :: (radix_char <$> ds) ++ c :: t) as ->.
  { destruct ds as [| d2 ds].
    - cbn [fmap list_fmap app]. rewrite (proj2 (Z.eqb_neq c 120)), (proj2 (Z.eqb_neq c 88)) by done. by rewrite andb_false_r.
    - rewrite fmap_cons. cbn [app]. apply Forall_cons in Hds as [Hd2 _]. pose proof (char_range d2 ltac:(lia)).
      rewrite (proj2 (Z.eqb_neq _ 120)), (proj2 (Z.eqb_neq _ 88)) by lia. by rewrite andb_false_r. }
  pose proof (radix_digits_read b (d :: ds) None c t ltac:(lia) Hr Hc) as Hrd. rewrite fmap_cons in Hrd. cbn [app] in Hrd.
  rewrite Hrd, bool_decide_false by done. cbn [default]. by rewrite Hval.
Qed.

(** ** Reading lines back *)

Definition part_of (l : line) : MtdPartition := mkPart (l_num l) (l_size l) (l_erase l) (Some (l_name l)).

Lemma scan_name_read n name t : (length name <= n)%nat -> Forall (fun c => c <> 34) name ->
  scan_name n (name ++ 34 :: t) = name.
Proof.
  intros Hn Hname. revert n Hn. induction Hname as [| c name Hc _ IH]; intros n Hn; [by destruct n |].
  destruct n as [| n]; [simpl in Hn; lia |]. simpl. rewrite (proj2 (Z.eqb_neq c 34)) by done. f_equal. apply IH. simpl in Hn. lia.
Qed.

Lemma dec_read v t : 0 <= v < 32 -> scan_int 10 (dec v ++ 58 :: t) = Some (v, 58 :: t).
Proof.
  intros Hv. unfold dec. destruct (Z.ltb_spec v 10).
  - apply (scan_int_read 10 0 v 58 t []); [lia | lia | done | done | done | constructor].
  - apply (scan_int_read 10 1 v 58 t []); [lia | lia | done | done | done | constructor].
Qed.

Lemma hex8_read v t : 0 <= v < 2 ^ 32 -> scan_int 16 (32 :: hex8 v ++ 32 :: t) = Some (v, 32 :: t).
Proof. intros Hv. apply (scan_int_read 16 7 v 32 t [32]); [lia | lia | done | done | done | repeat constructor]. Qed.

Lemma scan_line_read l t : line_ok l ->
  scan_line (print_line l ++ t) = Val (Some (l_num l, l_size l, l_erase l, l_name l)).
Proof.
  intros (Hnum & Hsize & Her & Hlen & Hname). unfold scan_line, print_line. rewrite <- !app_assoc.
  assert (forall x, scan_lit (str "mtd") (str "mtd" ++ x) = Some x) as -> by done.
  change (str ": ") with [58; 32]. cbn [app]. rewrite dec_read by done. rewrite c_int_val by lia. cbn [mbind outcome_bind].
  assert (forall x, scan_lit (str ":") (58 :: x) = Some x) as -> by done.
  change (str " ") with [32]. cbn [app]. rewrite hex8_read by done.
  assert (forall v, 0 <= v < 2 ^ 32 -> in_int 33 v = true) as Hin.
  { intros v Hv. unfold in_int. rewrite (proj2 (Z.leb_le _ _)), (proj2 (Z.ltb_lt _ _)) by lia. done. }
  rewrite Hin, wrapu_id by lia. cbn [mbind outcome_bind].
  rewrite hex8_read by done. rewrite Hin, wrapu_id by lia. cbn [mbind outcome_bind].
  assert (forall x, scan_lit [34] (skip_space (32 :: 34 :: x)) = Some x) as -> by done.
  rewrite scan_name_read; [| unfold zlen in *; lia | eapply Forall_impl; [exact Hname |]; simpl; tauto].
  rewrite bool_decide_false; [done |]. intros E. rewrite E in Hlen. unfold zlen in Hlen. simpl in Hlen. lia.
Qed.

Lemma next_line_app body t : Forall (fun c => c <> 0 /\ c <> 10) body -> next_line (body ++ 10 :: t) = t.
Proof. induction 1 as [| c body Hc _ IH]; [done |]. simpl. by rewrite (proj2 (Z.eqb_neq c 10)) by tauto. Qed.

Lemma until_nul_id s : Forall (fun c => c <> 0) s -> until_nul s = s.
Proof. induction 1 as [| c s Hc _ IH]; [done |]. simpl. by rewrite (proj2 (Z.eqb_neq c 0)), IH by done. Qed.

Lemma radix_chars_plain b n v : 0 < b <= 16 -> Forall (fun c => c <> 0 /\ c <> 10) (radix_char <$> radix b n v).
Proof.
  intros Hb. apply Forall_fmap. eapply Forall_impl; [apply (radix_range b n v); lia |].
  intros d Hd. simpl in *. pose proof (char_range d ltac:(lia)). lia.
Qed.

(** A line is plain text and the end of the line. *)
Lemma print_line_split l : line_ok l ->
  exists body, print_line l = body ++ [10] /\ Forall (fun c => c <> 0 /\ c <> 10) body.
Proof.
  intros (_ & _ & _ & _ & Hname). unfold print_line.
  exists (str "mtd" ++ dec (l_num l) ++ str ": " ++ hex8 (l_size l) ++ str " " ++ hex8 (l_erase l) ++ str " " ++ [34] ++ l_name l ++ [34]).
  split; [rewrite <- !app_assoc; done |]. rewrite !Forall_app. unfold dec, hex8.
  split_and!; try (apply radix_chars_plain; lia); try (repeat constructor; done).
  eapply Forall_impl; [exact Hname |]. simpl. tauto.
Qed.

Lemma print_line_plain l : line_ok l -> Forall (fun c => c <> 0) (print_line l) /\ (0 < length (print_line l))%nat.
Proof.
  intros Hl. destruct (print_line_split l Hl) as (body & -> & Hb). split; [| rewrite length_app; simpl; lia].
  apply Forall_app. split; [| by repeat constructor]. eapply Forall_impl; [exact Hb |]. simpl. tauto.
Qed.

Definition put_lines (ls : list line) (ps : list MtdPartition) : list MtdPartition :=
  foldl (fun ps l => <[Z.to_nat (l_num l) := part_of l]> ps) ps ls.

Section Scan.
Context `{Arch} (M : flash_env).
Hypothesis Hmalloc : forall n, 0 <= n -> is_Some (m_malloc M n).

Lemma scan_lines_skip n c r ps count : scan_line (until_nul (c :: r)) = Val None ->
  scan_lines M (S n) (c :: r) ps count = scan_lines M n (next_line (c :: r)) ps count.
Proof. intros Hs. cbn [scan_lines]. by rewrite Hs. Qed.

Lemma scan_lines_read n ls ps count : Forall line_ok ls -> length ps = 32%nat ->
  (length (concat (print_line <$> ls)) <= n)%nat ->
  scan_lines M n (concat (print_line <$> ls)) ps count =
    Val (Some (put_lines ls ps, count + zlen ls), put_lines ls ps).
Proof.
  intros Hls. revert n ps count. induction Hls as [| l ls Hl Hls IH]; intros n ps count Hps Hn.
  { destruct n; simpl; by rewrite Z.add_0_r. }
  rewrite fmap_cons in *. cbn [concat] in *. destruct (print_line_plain l Hl) as [Hpl Hlen]. rewrite length_app in Hn.
  destruct n as [| n]; [lia |].
  assert (exists c r, print_line l ++ concat (print_line <$> ls) = c :: r) as (c & r & Ecr).
  { destruct (print_line l) as [| c r] eqn:E; [simpl in Hlen; lia |]. by do 2 eexists. }
  unfold scan_lines. rewrite Ecr. fold (scan_lines M). rewrite <- Ecr.
  rewrite until_nul_id.
  2: { apply Forall_app. split; [done |]. clear -Hls. induction Hls as [| l ls Hl _ IH]; [constructor |].
       rewrite fmap_cons. cbn [concat]. apply Forall_app. split; [by apply print_line_plain | done]. }
  rewrite scan_line_read by done. cbn [mbind outcome_bind].
  destruct Hl as (Hnum & Hl'). destruct (Hmalloc (zlen (l_name l) + 1)) as [b ->]; [pose proof (zlen_nonneg (l_name l)); lia |].
  cbn [fmap option_fmap option_map]. unfold store. unfold zlen at 1. rewrite Hps.
  rewrite (proj2 (Z.leb_le _ _)), (proj2 (Z.ltb_lt _ _)) by lia. cbn [andb mbind outcome_bind].
  destruct (print_line_split l (conj Hnum Hl')) as (body & -> & Hb). rewrite <- app_assoc. cbn [app].
  rewrite next_line_app by done. rewrite IH; [| by rewrite length_insert | lia].
  cbn [put_lines foldl]. unfold part_of. rewrite zlen_cons. do 4 f_equal. lia.
Qed.
End Scan.

(** ** Finding partitions *)

Lemma put_length ls ps : length (put_lines ls ps) = length ps.
Proof. revert ps. induction ls as [| l ls IH]; intros ps; [done |]. cbn [put_lines foldl]. unfold put_lines in IH. by rewrite IH, length_insert. Qed.

Lemma put_inv ls ps i q : put_lines ls ps !! i = Some q ->
  (exists l, l ∈ ls /\ Z.to_nat (l_num l) = i /\ q = part_of l) \/ ps !! i = Some q.
Proof.
  revert ps. induction ls as [| l ls IH]; intros ps; [by right |]. cbn [put_lines foldl]. intros Hi.
  destruct (IH _ Hi) as [(l' & Hin & Hl') | Hps]; [left; exists l'; split; [by right | done] |].
  apply list_lookup_insert_Some in Hps as [(<- & <- & _) | [_ Hps]]; [left; exists l; split; [left | done] | by right].
Qed.

Lemma put_get ls ps l : NoDup (Z.to_nat ∘ l_num <$> ls) -> l ∈ ls -> (Z.to_nat (l_num l) < length ps)%nat ->
  put_lines ls ps !! Z.to_nat (l_num l) = Some (part_of l).
Proof.
  revert ps. induction ls as [| l0 ls IH]; intros ps Hnd Hin Hlt; [by apply elem_of_nil in Hin |].
  rewrite fmap_cons in Hnd. apply NoDup_cons in Hnd as [Hni Hnd]. cbn [put_lines foldl]. unfold put_lines in IH.
  apply elem_of_cons in Hin as [<- | Hin]; [| apply IH; [done | done | by rewrite length_insert]].
  destruct (foldl _ _ ls !! Z.to_nat (l_num l)) as [q |] eqn:E.
  - apply put_inv in E as [(l' & Hin' & Hnum & ->) | E].
    + exfalso. apply Hni. apply list_elem_of_fmap. by exists l'.
    + rewrite list_lookup_insert_eq in E by done. congruence.
  - apply lookup_ge_None in E. fold (put_lines ls (<[Z.to_nat (l_num l):=part_of l]> ps)) in E. rewrite put_length, length_insert in E. lia.
Qed.

Section Find.
Context `{Arch} (M : flash_env).

Lemma scan_table (ls : list line) (s : flash) :
  (forall n, 0 <= n -> is_Some (m_malloc M n)) -> m_proc M (m_tick s) = Some (print_table ls) ->
  Forall line_ok ls -> zlen (print_table ls) <= 2047 ->
  (forall ps, partitions (table s) = Some ps -> length ps = nump) ->
  exists s' ps, mtd_scan_partitions M s = Val (zlen ls, s') /\ chips s' = chips s /\ length ps = nump /\
    (forall i q, ps !! i = Some q -> device_index q = -1) /\ partitions (table s') = Some (put_lines ls ps).
Proof.
  intros Hm Hproc Hls Hlen Hps. unfold mtd_scan_partitions.
  assert (exists ps, (match partitions (table s) with
         | Some ps => Some ps
         | None => (fun _ => replicate nump (mkPart 0 0 0 None)) <$> m_malloc M (Z.of_nat nump * (8 + word_bits / 4))
         end) = Some ps /\ length ps = nump) as (ps & -> & Hpl).
  { destruct (partitions (table s)) as [ps |]; [exists ps; by split; [| apply Hps] |].
    destruct (Hm (Z.of_nat nump * (8 + word_bits / 4))) as [b ->]; [by destruct word_bits_ok as [-> | ->] |].
    eexists. split; [done |]. apply length_replicate. }
  rewrite Hproc. rewrite take_ge by (unfold zlen in Hlen; lia).
  set (ps0 := _ <$> ps). assert (length ps0 = 32%nat) as Hp0 by (unfold ps0; by rewrite length_fmap).
  assert (scan_lines M (length (print_table ls)) (print_table ls) ps0 0 =
    Val (Some (put_lines ls ps0, zlen ls), put_lines ls ps0)) as ->.
  { unfold print_table. rewrite length_app. set (text := concat (print_line <$> ls)).
    change (length header + length text)%nat with (S (30 + length text)).
    change (header ++ text) with (100 :: (str "ev:    size   erasesize  name" ++ [10]) ++ text).
    rewrite scan_lines_skip by done.
    change (next_line (100 :: (str "ev:    size   erasesize  name" ++ [10]) ++ text)) with text.
    unfold text. rewrite (scan_lines_read M Hm); [done | done | done | lia]. }
  cbn [mbind outcome_bind]. eexists _, ps0. split; [done |]. split; [done |]. split; [done |]. split; [| done].
  intros i q. unfold ps0. rewrite list_lookup_fmap. destruct (ps !! i); [| done]. by intros [= <-].
Qed.

Lemma find_listed ls ps l s : NoDup (Z.to_nat ∘ l_num <$> ls) -> NoDup (l_name <$> ls) -> Forall line_ok ls -> length ps = nump ->
  (forall i q, ps !! i = Some q -> device_index q = -1) -> partitions (table s) = Some (put_lines ls ps) -> l ∈ ls ->
  mtd_find_partition_by_name s (l_name l) = Some (part_of l).
Proof.
  intros Hnum Hnames Hls Hps Hdev Ht Hin. unfold mtd_find_partition_by_name. rewrite Ht.
  assert (list_find (named (l_name l)) (put_lines ls ps) = Some (Z.to_nat (l_num l), part_of l)) as ->; [| done].
  rewrite Forall_forall in Hls. destruct (Hls l Hin) as [Hl _]. apply list_find_Some. split_and!.
  - apply put_get; [done | done |]. rewrite Hps. unfold nump. lia.
  - split; [simpl; lia | done].
  - intros j q Hq Hj [Hd Hn]. apply put_inv in Hq as [(l' & Hin' & <- & ->) | Hq]; [| specialize (Hdev _ _ Hq); lia].
    simpl in Hn. injection Hn as Hn. assert (l' = l) as ->; [| lia].
    apply list_elem_of_lookup_1 in Hin as [i Hi]. apply list_elem_of_lookup_1 in Hin' as [i' Hi'].
    assert (i = i') as ->; [| congruence]. eapply NoDup_lookup; [exact Hnames | |]; rewrite list_lookup_fmap.
    + rewrite Hi. done.
    + rewrite Hi'. simpl. congruence.
Qed.

Lemma find_unlisted ls ps name s : (forall i q, ps !! i = Some q -> device_index q = -1) ->
  partitions (table s) = Some (put_lines ls ps) -> name ∉ l_name <$> ls -> mtd_find_partition_by_name s name = None.
Proof.
  intros Hdev Ht Hn. unfold mtd_find_partition_by_name. rewrite Ht.
  assert (list_find (named name) (put_lines ls ps) = None) as ->; [| done].
  apply list_find_None, Forall_forall. intros q Hq [Hd Hname]. apply list_elem_of_lookup_1 in Hq as [i Hi].
  apply put_inv in Hi as [(l & Hin & _ & ->) | Hi]; [| specialize (Hdev _ _ Hi); lia].
  apply Hn, list_elem_of_fmap. exists l. simpl in Hname. by injection Hname as ->.
Qed.
End Find.

(** C24: reading the table back: when /proc/mtd holds a table of at most 2047 bytes in
    the kernel's format, whose numbers are below 32 and different and whose names are
    different, the scan returns the number of partitions and changes nothing on the
    chips; afterwards each listed partition is found by its name, with its number, size
    and erase size, and no other name is found. *)
Theorem mtd_scan_roundtrip `{Arch} (M : flash_env) (ls : list line) (s : flash) :
  (forall n, 0 <= n -> is_Some (m_malloc M n)) -> m_proc M (m_tick s) = Some (print_table ls) ->
  Forall line_ok ls -> NoDup (Z.to_nat ∘ l_num <$> ls) -> NoDup (l_name <$> ls) -> zlen (print_table ls) <= 2047 ->
  (forall ps, partitions (table s) = Some ps -> length ps = nump) ->
  exists s', mtd_scan_partitions M s = Val (zlen ls, s') /\ chips s' = chips s /\
    (forall l, l ∈ ls -> mtd_find_partition_by_name s' (l_name l) = Some (part_of l)) /\
    (forall name, name ∉ l_name <$> ls -> mtd_find_partition_by_name s' name = None).
Proof.
  intros Hm Hproc Hls Hnum Hnames Hlen Hps. destruct (scan_table M ls s) as (s' & ps & Hr & Hc & Hpl & Hdev & Ht); try done.
  exists s'. split; [done |]. split; [done |]. split.
  - intros l. by apply (find_listed ls ps).
  - intros name. by apply (find_unlisted ls ps).
Qed.

(** The table in the comment of the function, in part. *)
Definition demo_lines : list line :=
  [mkLine 0 524288 131072 (str "bootloader"); mkLine 4 67108864 131072 (str "system")].
Definition demo_table_env (proc : block) : flash_env :=
  mkFlashEnv (fun _ => 0) (fun _ _ _ => IsGood) (fun _ _ new => new) (fun _ b => b)
    (fun _ => 0) (fun _ => Some proc) (fun _ => None) (fun n => Some []).
Definition blank_flash : flash := mkFlash (mkTable None (-1)) ∅ 0.

Lemma mtd_scan_roundtrip_witness : exists s', @mtd_scan_partitions LP64 (demo_table_env (print_table demo_lines)) blank_flash = Val (2, s') /\
  mtd_find_partition_by_name s' (str "system") = Some (mkPart 4 67108864 131072 (Some (str "system"))).
Proof.
  destruct (@mtd_scan_roundtrip LP64 (demo_table_env (print_table demo_lines)) demo_lines blank_flash) as (s' & H1 & _ & H2 & _).
  - intros n _. eexists. reflexivity.
  - reflexivity.
  - repeat constructor; cbn; try lia; vm_compute; congruence.
  - apply (bool_decide_unpack _). vm_compute. exact Logic.I.
  - apply (bool_decide_unpack _). vm_compute. exact Logic.I.
  - vm_compute. congruence.
  - discriminate.
  - exists s'. split; [exact H1 |]. apply (H2 (mkLine 4 67108864 131072 (str "system"))). right. left.
Defined.

(** The number is not compared with the size of the array. *)
Lemma partition_number_out_of_bounds :
  @mtd_scan_partitions LP64 (demo_table_env (print_line (mkLine 40 524288 131072 (str "big")))) blank_flash = Trap OutOfBounds.
Proof. vm_compute. reflexivity. Qed.
