(* ===== verification/MtdRoundtrip.v ===== *)
(** * Flash partitions: what is written is read back

    On a chip that keeps what it is told and with bad blocks that stay bad, the writer of
    Mtd.v fills the good blocks in order and the reader delivers their contents in order;
    so WriteToPartition followed by LoadPartitionContents of applypatch.c gives the data
    back. *)

From stdpp Require Import base numbers list sorting gmap.
From stdpp Require Import strings.
From S2P Require Import Prelude CString Edify Bspatch ImgPatch Retouch Sys FreeCache ApplyPatch Mtd PartitionIO.

(** ** Around the bad blocks *)

Section Good.
Context `{Arch}.
Variables (es sz : Z) (bad : Z -> bool).
Hypothesis Hes : 0 < es.

(** The positions of the good blocks from [pos] on. *)
Fixpoint goods_n (n : nat) (pos : Z) : list Z :=
  match n with
  | O => []
  | S n => if bad pos then goods_n n (pos + es) else pos :: goods_n n (pos + es)
  end.
Definition goods (pos : Z) : list Z := goods_n (Z.to_nat ((sz - pos) / es)) pos.

Lemma goods_step pos :
  goods pos = if pos + es <=? sz then if bad pos then goods (pos + es) else pos :: goods (pos + es) else [].
Proof.
  unfold goods. destruct (Z.leb_spec (pos + es) sz).
  - replace ((sz - pos) / es) with (1 + (sz - (pos + es)) / es).
    2: { rewrite <- Z.div_add_l by lia. f_equal. lia. }
    assert (0 <= (sz - (pos + es)) / es) by (apply Z.div_pos; lia).
    rewrite Z2Nat.inj_add by lia. done.
  - assert ((sz - pos) / es < 1) by (apply Z.div_lt_upper_bound; lia).
    by replace (Z.to_nat ((sz - pos) / es)) with O by lia.
Qed.

(** The contents of the blocks at [l]. *)
Definition blocks (c : block) (l : list Z) : block := concat ((fun q => slice c q es) <$> l).

Lemma blocks_nil c : blocks c [] = [].
Proof. done. Qed.

Lemma blocks_cons c q l : blocks c (q :: l) = slice c q es ++ blocks c l.
Proof. done. Qed.

Lemma blocks_app c l k : blocks c (l ++ k) = blocks c l ++ blocks c k.
Proof. unfold blocks. by rewrite fmap_app, concat_app. Qed.

Definition inside (top : Z) (l : list Z) : Prop := Forall (fun q => 0 <= q /\ q + es <= top) l.

Lemma inside_mono a b l : inside a l -> a <= b -> inside b l.
Proof. intros Hl Hab. eapply Forall_impl; [exact Hl |]. simpl. lia. Qed.

Lemma goods_inside_aux n pos : 0 <= pos -> Z.of_nat n <= (sz - pos) / es -> inside sz (goods_n n pos).
Proof.
  revert pos. induction n as [| n IH]; intros pos Hp Hn; [by constructor |]. cbn [goods_n].
  assert (pos + es <= sz) by (pose proof (Z.mul_div_le (sz - pos) es Hes); nia).
  assert (Z.of_nat n <= (sz - (pos + es)) / es).
  { replace (sz - pos) with (1 * es + (sz - (pos + es))) in Hn by lia. rewrite Z.div_add_l in Hn by lia. lia. }
  destruct (bad pos); [apply IH; lia |]. constructor; [lia |]. apply IH; lia.
Qed.

Lemma goods_inside pos : 0 <= pos -> inside sz (goods pos).
Proof.
  intros Hp. unfold goods. destruct (decide (0 <= (sz - pos) / es)).
  - apply goods_inside_aux; lia.
  - replace (Z.to_nat ((sz - pos) / es)) with O by lia. by constructor.
Qed.

Lemma zlen_blocks c l : inside (zlen c) l -> zlen (blocks c l) = es * zlen l.
Proof.
  induction 1 as [| q l Hq _ IH]; [rewrite blocks_nil; unfold zlen; simpl; lia |].
  rewrite blocks_cons, zlen_app, IH, zlen_slice, zlen_cons by lia. lia.
Qed.

(** Blocks below [top] do not depend on what follows. *)
Lemma blocks_agree top c c' l :
  inside top l -> take (Z.to_nat top) c = take (Z.to_nat top) c' -> blocks c l = blocks c' l.
Proof.
  intros Hl Ht. induction Hl as [| q l Hq _ IH]; [done |]. rewrite !blocks_cons, IH. f_equal. unfold slice.
  assert (forall x : block, take (Z.to_nat es) (drop (Z.to_nat q) x) =
    take (Z.to_nat es) (drop (Z.to_nat q) (take (Z.to_nat top) x))) as Hx.
  { intros x. rewrite !take_drop_commute, take_take. do 2 f_equal. lia. }
  by rewrite (Hx c), (Hx c'), Ht.
Qed.
End Good.

Section Calm.
Context `{Arch} (M : flash_env).
Variables (p : MtdPartition) (bad : Z -> bool).
Abbreviation d := (device_index p).
Abbreviation es := (erase_size p).
Abbreviation sz := (p_size p).
Abbreviation Goods := (goods es sz bad).
Abbreviation Blocks := (blocks es).

(** Nothing fails, the chip keeps what it is told, and a block is bad or not. *)
Record calm_flash : Prop := {
  cf_answer : forall t, 2 ^ 30 <= m_answer M t;
  cf_bad : forall t pos, m_bad M t d pos = if bad pos then IsBad else IsGood;
  cf_stored : forall t old new, m_stored M t old new = new;
  cf_seen : forall t b, m_seen M t b = b;
  cf_failed : forall t t', m_failed M t = m_failed M t';
  cf_malloc : forall n, 0 <= n -> exists b, m_malloc M n = Some b /\ zlen b = n
}.
Hypothesis Hcalm : calm_flash.
Hypothesis Hes : 0 < es < 2 ^ 30.
Hypothesis Hsz : 0 <= sz < 2 ^ 30.

Lemma m_not_neg t : m_answer M t <? 0 = false.
Proof. apply Z.ltb_ge. pose proof (cf_answer Hcalm t). lia. Qed.

Lemma word_id v : - 2 ^ 31 <= v < 2 ^ 31 -> wraps word_bits v = v.
Proof. intros Hv. destruct word_bits_ok as [-> | ->]; apply wraps_id; lia. Qed.

Lemma word_int v : - 2 ^ 31 <= v < 2 ^ 31 -> c_int word_bits v = Val v.
Proof.
  intros Hv. apply c_int_val. destruct word_bits_ok as [-> | ->]; [exact Hv |].
  change (2 ^ (64 - 1)) with (2 ^ 63). lia.
Qed.

(** The chip of the partition holds [c]. *)
Definition holds_chip (s : flash) (c : block) : Prop := chips s !! d = Some c /\ sz <= zlen c.

Lemma fit_id n (b : block) : length b = n -> fit n b = b.
Proof. intros <-. apply take_app_length. Qed.

Lemma chip_read_calm pos s c : holds_chip s c -> 0 <= pos -> pos + es <= sz ->
  chip_read M d pos es s = (Some (slice c pos es), pos + es, m_tock s).
Proof.
  intros [Hc Hl] Hp He. unfold chip_read, m_ask. cbv zeta iota. rewrite m_not_neg. cbn [chips m_tock]. rewrite Hc.
  pose proof (cf_answer Hcalm (m_tick s)). replace (Z.min _ _) with es by lia. rewrite Z.eqb_refl, (cf_seen Hcalm).
  rewrite fit_id; [done |]. pose proof (zlen_slice c pos es ltac:(lia) ltac:(lia) ltac:(lia)). unfold zlen in *. lia.
Qed.

Lemma chip_ecc_calm s : chip_ecc M s = (Some (m_failed M 0), m_tock s).
Proof. unfold chip_ecc, m_ask. cbv zeta iota. by rewrite m_not_neg, (cf_failed Hcalm _ 0). Qed.

Lemma read_from_calm n before pos fd s c :
  holds_chip s c -> before = m_failed M 0 -> 0 <= pos -> sz - pos < Z.of_nat n ->
  exists s', chips s' = chips s /\
    match Goods pos with
    | [] => exists fd', read_from M n p before pos fd s = Val (-1, [], fd', s')
    | q :: rest => read_from M n p before pos fd s = Val (0, slice c q es, q + es, s') /\ rest = Goods (q + es) /\ 0 <= q
    end.
Proof.
  intros Hc -> . revert pos fd s Hc. induction n as [| n IH]; intros pos fd s Hc Hp Hn.
  { rewrite goods_step, (proj2 (Z.leb_gt _ _)) by lia. exists s. split; [done |]. exists fd. cbn [read_from].
    rewrite word_id, wraps_id by lia. by rewrite (proj2 (Z.leb_gt _ _)) by lia. }
  cbn [read_from]. rewrite goods_step, word_id, wraps_id by lia.
  destruct (Z.leb_spec (pos + es) sz) as [He | He]; cbn [negb]; [| exists s; split; [done | by exists fd]].
  rewrite (chip_read_calm pos s c) by done. rewrite chip_ecc_calm, Z.eqb_refl. cbn [negb].
  unfold chip_bad. rewrite (cf_bad Hcalm). destruct (bad pos).
  - apply (IH (pos + es) (pos + es) (m_tock (m_tock (m_tock s)))); [done | lia | lia].
  - exists (m_tock (m_tock (m_tock s))). done.
Qed.

Lemma read_block_calm fd s c : holds_chip s c -> 0 <= fd ->
  exists s', chips s' = chips s /\
    match Goods fd with
    | [] => exists fd', read_block M p fd s = Val (-1, [], fd', s')
    | q :: rest => read_block M p fd s = Val (0, slice c q es, q + es, s') /\ rest = Goods (q + es) /\ 0 <= q
    end.
Proof.
  intros Hc Hfd. unfold read_block. rewrite chip_ecc_calm.
  apply (read_from_calm _ _ fd fd (m_tock s)); [done | done | done |]. unfold block_fuel. rewrite wraps_id by lia. lia.
Qed.

(** *** Reading *)

(** The bytes that [ctx] has still to deliver. *)
Definition reads (s : flash) (ctx : MtdReadContext) (rest : block) : Prop :=
  exists c, holds_chip s c /\ r_partition ctx = p /\ zlen (r_buffer ctx) = es /\ 0 <= r_consumed ctx <= es /\
    0 <= r_pos ctx /\ rest = drop (Z.to_nat (r_consumed ctx)) (r_buffer ctx) ++ Blocks c (Goods (r_pos ctx)).

Lemma reads_chips s s' ctx rest : chips s' = chips s -> reads s ctx rest -> reads s' ctx rest.
Proof. unfold reads, holds_chip. by intros ->. Qed.

(** A block that is read from the chip is the next piece of the rest. *)
Lemma next_block s ctx rest : reads s ctx rest -> r_consumed ctx = es -> 0 < zlen rest ->
  exists b s' fd, read_block M p (r_pos ctx) s = Val (0, b, fd, s') /\ zlen b = es /\ chips s' = chips s /\
    exists rest', rest = b ++ rest' /\ forall buffer k, zlen buffer = es -> 0 <= k <= es ->
      reads s' (mkReading p buffer k fd) (drop (Z.to_nat k) buffer ++ rest').
Proof.
  intros (c & Hc & Hp & Hb & Hk & Hpos & ->) Hcons Hlen.
  assert (drop (Z.to_nat (r_consumed ctx)) (r_buffer ctx) = []) as E by (apply drop_ge; unfold zlen in *; lia).
  rewrite E in *. cbn [app] in *. destruct (read_block_calm (r_pos ctx) s c Hc Hpos) as (s' & Hs' & Hr).
  pose proof (goods_inside es sz bad (proj1 Hes) (r_pos ctx) Hpos) as Hin.
  destruct (Goods (r_pos ctx)) as [| q l]; [by rewrite blocks_nil in Hlen |]. destruct Hr as (-> & -> & Hq).
  apply Forall_cons in Hin as [Hq2 Hin]. destruct Hc as [Hc Hcl].
  exists (slice c q es), s', (q + es). split; [done |]. split; [apply zlen_slice; lia |]. split; [done |].
  exists (Blocks c (Goods (q + es))). split; [done |]. intros buffer k Hbl Hkk. exists c. cbn.
  split_and!; try done; try lia. split; [by rewrite Hs' | done].
Qed.

Lemma read_whole_calm n ctx len data s rest : reads s ctx rest -> len - zlen data <= zlen rest -> len - zlen data < 2 ^ 30 ->
  len - zlen data <= Z.of_nat n ->
  exists ctx' data' s', read_whole M n ctx len data s = Val (true, ctx', data', s') /\ chips s' = chips s /\
    (exists done rest', rest = done ++ rest' /\ data' = data ++ done /\ reads s' ctx' rest') /\
    (r_consumed ctx' = r_consumed ctx) /\ (r_consumed ctx' = es -> len - zlen data' < es) /\
    (zlen data <= len -> zlen data' <= len).
Proof.
  revert ctx data s rest. induction n as [| n IH]; intros ctx data s rest Hr Hl Hb Hn; cbn [read_whole].
  all: pose proof Hr as (c & Hc & Hp & Hbuf & Hk & Hpos & Hrest); rewrite Hp.
  all: destruct (Z.eqb_spec (r_consumed ctx) es) as [Hk2 | Hk2]; cbn [andb].
  all: try (destruct (Z.leb_spec es (len - zlen data)) as [Hle | Hle]).
  all: try lia.
  all: try (exists ctx, data, s; split_and!; try done; try lia; exists [], rest; by rewrite app_nil_r).
  destruct (next_block s ctx rest Hr Hk2 ltac:(lia)) as (b & s1 & fd & -> & Hlb & Hs1 & rest1 & -> & Hnext).
  cbn [mbind outcome_bind Z.eqb negb]. specialize (Hnext (r_buffer ctx) (r_consumed ctx) Hbuf Hk).
  rewrite drop_ge in Hnext by (unfold zlen in *; lia). cbn [app] in Hnext. rewrite zlen_app in Hl.
  destruct (IH _ (data ++ b) s1 rest1 Hnext) as (ctx' & data' & s' & -> & Hs' & (dn & rest' & -> & -> & Hr') & H1 & H2 & H3);
    try (rewrite zlen_app; lia).
  exists ctx', ((data ++ b) ++ dn), s'. split; [done |]. split; [congruence |].
  split; [exists (b ++ dn), rest'; split_and!; [by rewrite app_assoc | by rewrite app_assoc | done] |].
  split_and!; [done | done |]. intros _. apply H3. rewrite zlen_app. lia.
Qed.

Lemma drop_prefix (a b : block) k : 0 <= k <= zlen a -> drop (Z.to_nat k) (a ++ b) = drop (Z.to_nat k) a ++ b.
Proof. intros Hk. apply drop_app_le. unfold zlen in *. lia. Qed.

(** One copy out of the buffer. *)
Lemma copy_out s ctx rest n : reads s ctx rest -> 0 <= n -> r_consumed ctx + n <= es ->
  exists b rest', load_bytes (r_buffer ctx) (r_consumed ctx) n = Val b /\ zlen b = n /\ rest = b ++ rest' /\
    reads s (mkReading p (r_buffer ctx) (r_consumed ctx + n) (r_pos ctx)) rest'.
Proof.
  intros (c & Hc & Hp & Hbuf & Hk & Hpos & ->) Hn Hfit.
  destruct (wp_elim _ _ (wp_load_bytes (r_buffer ctx) (r_consumed ctx) n (fun b => b = slice (r_buffer ctx) (r_consumed ctx) n)
    ltac:(lia) ltac:(lia) ltac:(lia) eq_refl)) as (b & -> & ->).
  exists (slice (r_buffer ctx) (r_consumed ctx) n).
  exists (drop (Z.to_nat (r_consumed ctx + n)) (r_buffer ctx) ++ Blocks c (Goods (r_pos ctx))).
  split; [done |]. split; [apply zlen_slice; lia |]. split.
  - rewrite app_assoc. f_equal. unfold slice. rewrite Z2Nat.inj_add, <- drop_drop by lia. by rewrite take_drop.
  - exists c. cbn. split_and!; try done; lia.
Qed.

Lemma read_buffered_calm ctx len data s rest : reads s ctx rest -> zlen data < len ->
  exists ctx1 b rest1, read_buffered ctx len data = Val (ctx1, data ++ b) /\ rest = b ++ rest1 /\ reads s ctx1 rest1 /\
    zlen b <= len - zlen data /\ (r_consumed ctx < es -> 0 < zlen b) /\ (r_consumed ctx1 = es \/ zlen b = len - zlen data).
Proof.
  intros Hr Hle. pose proof Hr as (c & Hc & Hp & Hbuf & Hk & Hpos & Hrest). unfold read_buffered. rewrite Hp.
  destruct (Z.ltb_spec (r_consumed ctx) es) as [Hk2 | Hk2].
  2: { exists ctx, [], rest. rewrite app_nil_r. change (zlen (@nil Z)) with 0. split_and!; try done; lia. }
  cbv zeta. set (copy := if _ <? _ then _ else _).
  assert (0 < copy /\ copy <= len - zlen data /\ copy <= es - r_consumed ctx /\
    (copy = len - zlen data \/ copy = es - r_consumed ctx)) as (Hc1 & Hc2 & Hc3 & Hc4).
  { unfold copy. destruct (Z.ltb_spec (len - zlen data) (es - r_consumed ctx)); lia. }
  destruct (copy_out s ctx rest copy Hr ltac:(lia) ltac:(lia)) as (b & rest1 & -> & Hlb & -> & Hr1).
  eexists _, b, rest1. cbn [mbind outcome_bind]. split; [done |]. split_and!; [done | exact Hr1 | lia | lia |]. cbn. lia.
Qed.

Lemma read_loop_calm n ctx len data s rest : reads s ctx rest -> len - zlen data <= zlen rest -> zlen data <= len < 2 ^ 30 ->
  2 * (len - zlen data) - (if r_consumed ctx <? es then 1 else 0) <= Z.of_nat n ->
  exists dn rest' ctx' s', read_loop M n ctx len data s = Val (len, data ++ dn, ctx', s') /\ chips s' = chips s /\
    rest = dn ++ rest' /\ zlen dn = len - zlen data /\ reads s' ctx' rest'.
Proof.
  revert ctx data s rest. induction n as [| n IH]; intros ctx data s rest Hr Hl Hd Hn; cbn [read_loop].
  all: pose proof (zlen_nonneg data) as Hd0.
  all: destruct (Z.leb_spec len (zlen data)) as [Hle | Hle];
    [exists [], rest, ctx, s; rewrite app_nil_r; change (zlen (@nil Z)) with 0;
     assert (zlen data = len) as -> by lia; rewrite word_id by lia; by split_and!; try lia |].
  { destruct (r_consumed ctx <? es); lia. }
  destruct (read_buffered_calm ctx len data s rest Hr ltac:(lia)) as (ctx1 & b & rest1 & -> & -> & Hr1 & Hb & Hb2 & Hb3).
  cbn [mbind outcome_bind]. rewrite zlen_app in Hl.
  destruct (read_whole_calm (Z.to_nat len) ctx1 len (data ++ b) s rest1 Hr1)
    as (ctx2 & data2 & s2 & -> & Hs2 & (dn & rest2 & -> & -> & Hr2) & Hk2 & Hend & Hle2).
  1-3: rewrite zlen_app; pose proof (zlen_nonneg b); lia.
  cbn [mbind outcome_bind negb]. rewrite !zlen_app in *. specialize (Hle2 ltac:(lia)).
  pose proof (zlen_nonneg b). pose proof (zlen_nonneg dn).
  destruct (Z.leb_spec len (zlen data + zlen b + zlen dn)) as [Hfin | Hfin].
  { exists (b ++ dn), rest2, ctx2, s2. rewrite zlen_app, word_id by lia. rewrite !app_assoc.
    replace (zlen data + zlen b + zlen dn) with len by lia. split_and!; try done; lia. }
  assert (r_consumed ctx2 = es) as Hc2 by (rewrite Hk2; destruct Hb3 as [? | Hb3]; [done | lia]).
  pose proof Hr2 as (c2 & _ & Hp2 & _). rewrite Hp2, Hc2, Z.eqb_refl, (proj2 (Z.ltb_lt _ _)) by lia. cbn [andb].
  destruct (next_block s2 ctx2 rest2 Hr2 Hc2 ltac:(lia)) as (blk & s3 & fd & -> & Hlb & Hs3 & rest3 & -> & Hnext).
  cbn [mbind outcome_bind Z.eqb negb]. specialize (Hnext blk 0 Hlb ltac:(lia)). change (drop (Z.to_nat 0) blk) with blk in Hnext.
  destruct (IH _ ((data ++ b) ++ dn) s3 _ Hnext) as (dn3 & rest4 & ctx4 & s4 & -> & Hs4 & Hrest4 & Hdn3 & Hr4).
  { rewrite !zlen_app in *. lia. }
  { rewrite !zlen_app in *. lia. }
  { cbn [r_consumed]. rewrite (proj2 (Z.ltb_lt 0 es)) by lia. rewrite !zlen_app.
    destruct (Z.ltb_spec (r_consumed ctx) es); lia. }
  exists (b ++ dn ++ dn3), rest4, ctx4, s4. rewrite !zlen_app in *. rewrite Hrest4, <- !app_assoc.
  split_and!; try done; [congruence | lia].
Qed.

Lemma mtd_read_data_calm ctx len s rest : reads s ctx rest -> 0 <= len <= zlen rest -> len < 2 ^ 30 ->
  exists dn rest' ctx' s', mtd_read_data M ctx len s = Val (len, dn, ctx', s') /\ chips s' = chips s /\
    rest = dn ++ rest' /\ zlen dn = len /\ reads s' ctx' rest'.
Proof.
  intros Hr Hl Hb. destruct (read_loop_calm (Z.to_nat (2 * len)) ctx len [] s rest Hr) as (dn & rest' & ctx' & s' & Hx).
  - change (zlen (@nil Z)) with 0. lia.
  - change (zlen (@nil Z)) with 0. lia.
  - change (zlen (@nil Z)) with 0. destruct (r_consumed ctx <? es); lia.
  - exists dn, rest', ctx', s'. change (zlen (@nil Z)) with 0 in Hx. rewrite Z.sub_0_r in Hx. exact Hx.
Qed.

(** *** Writing *)

(** [b] put at [pos]. *)
Definition upd (c : block) (pos : Z) (b : block) : block :=
  take (Z.to_nat pos) c ++ b ++ drop (Z.to_nat pos + length b) c.

Lemma upd_facts c pos b : 0 <= pos -> pos + zlen b <= zlen c ->
  zlen (upd c pos b) = zlen c /\ take (Z.to_nat pos) (upd c pos b) = take (Z.to_nat pos) c /\
  slice (upd c pos b) pos (zlen b) = b /\ forall b', zlen b' = zlen b -> upd (upd c pos b) pos b' = upd c pos b'.
Proof.
  intros Hp Hl. unfold upd. assert (length (take (Z.to_nat pos) c) = Z.to_nat pos) as Ht.
  { rewrite length_take. unfold zlen in *. lia. }
  split_and!.
  - unfold zlen in *. rewrite !length_app, length_drop, Ht. lia.
  - by rewrite take_app_length' by done.
  - assert (zlen (take (Z.to_nat pos) c) = pos) as Hz by (unfold zlen in *; lia). rewrite <- Hz at 3. by apply slice_length_app.
  - intros b' Hb'. assert (length b' = length b) as -> by (unfold zlen in *; lia). f_equal.
    + by rewrite take_app_length' by done.
    + f_equal. rewrite app_assoc. rewrite drop_app_length' by (rewrite length_app; lia). done.
Qed.

Lemma chip_put_calm pos b s c : holds_chip s c -> 0 <= pos -> pos + zlen b <= sz ->
  chip_put M d pos b s = set_chip d (upd c pos b) s.
Proof.
  intros [Hc Hl] Hp Hb. unfold chip_put. rewrite Hc. pose proof (zlen_nonneg b).
  assert (Z.to_nat (Z.max 0 (Z.min (zlen b) (zlen c - pos))) = length b) as -> by (unfold zlen in *; lia).
  by rewrite (cf_stored Hcalm), fit_id by done.
Qed.

Lemma holds_set s c c' : holds_chip s c -> zlen c' = zlen c -> holds_chip (set_chip d c' s) c'.
Proof. intros [Hc Hl] He. split; [simpl; by rewrite lookup_insert_eq | lia]. Qed.

Lemma holds_eq s s' c : chips s' = chips s -> holds_chip s c -> holds_chip s' c.
Proof. unfold holds_chip. by intros ->. Qed.

Lemma write_tries_calm n ctx data pos s c :
  holds_chip s c -> w_partition ctx = p -> zlen data = es -> 0 <= pos -> pos + es <= sz ->
  exists s', write_tries M (S n) ctx data pos s = (true, w_moved (pos + es) ctx, s') /\
    chips s' = <[d := upd c pos data]> (chips s).
Proof.
  intros Hc Hp Hd Hpos He. cbn [write_tries]. rewrite Hp. unfold chip_erase, m_ask. cbv zeta iota.
  set (ff := replicate (Z.to_nat es) 255).
  assert (zlen ff = es) as Hff by (unfold ff, zlen; rewrite length_replicate; lia).
  destruct Hc as [Hc0 Hcl]. assert (holds_chip s c) as Hc by done.
  rewrite (chip_put_calm pos ff s c) by (done || lia). rewrite m_not_neg. cbn [negb].
  destruct (upd_facts c pos ff) as (L1 & _ & _ & U1); [done | lia |].
  pose proof (holds_set s c (upd c pos ff) Hc L1) as Hc1.
  unfold chip_write. rewrite (chip_put_calm pos data _ (upd c pos ff)) by (done || lia).
  rewrite U1 by lia. destruct (upd_facts c pos data) as (L2 & _ & S2 & _); [done | lia |].
  rewrite (chip_read_calm pos _ (upd c pos data)); [| | done | done].
  - rewrite Hd in S2. rewrite S2, bool_decide_true by done. eexists. split; [done |]. simpl. by rewrite insert_insert_eq.
  - split; [simpl; by rewrite lookup_insert_eq | lia].
Qed.

(** The offsets recorded as bad so far. *)
Definition bad_list (ctx : MtdWriteContext) : list Z := take (Z.to_nat (bad_block_count ctx)) (bad_block_offsets ctx).

Definition recorded (ctx : MtdWriteContext) : Prop := 0 <= bad_block_count ctx <= zlen (bad_block_offsets ctx).

(** The same context but for the position and the recorded blocks. *)
Definition same_buffer (ctx ctx' : MtdWriteContext) : Prop :=
  w_partition ctx' = w_partition ctx /\ w_buffer ctx' = w_buffer ctx /\ w_stored ctx' = w_stored ctx.

Lemma add_bad_calm ctx pos : recorded ctx ->
  exists ctx', add_bad_block_offset M ctx pos = Val ctx' /\ recorded ctx' /\ same_buffer ctx ctx' /\ w_pos ctx' = w_pos ctx /\
    bad_list ctx' = bad_list ctx ++ [pos].
Proof.
  intros Hr. unfold recorded in Hr. unfold add_bad_block_offset.
  assert (exists offsets, grow_offsets M (bad_block_offsets ctx) (bad_block_count ctx) = Val offsets /\ bad_block_count ctx < zlen offsets /\
    take (Z.to_nat (bad_block_count ctx)) offsets = bad_list ctx) as (offsets & -> & Hlt & Hpre).
  { unfold grow_offsets. destruct (Z.ltb_spec (zlen (bad_block_offsets ctx)) (bad_block_count ctx + 1)).
    - destruct (cf_malloc Hcalm ((zlen (bad_block_offsets ctx) * 2 + 1) * (word_bits / 8))) as (b & -> & _).
      { destruct word_bits_ok as [-> | ->]; [change (32 / 8) with 4 | change (64 / 8) with 8]; lia. }
      eexists. split; [done |]. split; [rewrite zlen_app; unfold zlen in *; rewrite length_replicate; lia |].
      unfold bad_list. apply take_app_le. unfold zlen in *. lia.
    - eexists. split; [done |]. split; [lia | done]. }
  cbn [mbind outcome_bind]. unfold store. rewrite (proj2 (Z.leb_le _ _)), (proj2 (Z.ltb_lt _ _)) by lia.
  cbn [andb mbind outcome_bind]. eexists. split; [done |]. unfold recorded. cbn.
  split; [rewrite zlen_insert; lia |]. split; [done |]. split; [done |]. unfold bad_list at 1. cbn.
  replace (Z.to_nat (bad_block_count ctx + 1)) with (S (Z.to_nat (bad_block_count ctx))) by lia.
  rewrite (take_S_r _ _ pos) by (rewrite list_lookup_insert_eq by (unfold zlen in *; lia); done).
  by rewrite take_insert_ge by lia; rewrite Hpre.
Qed.

(** [k] positions from [pos] on. *)
Fixpoint run (k : nat) (pos : Z) : list Z :=
  match k with O => [] | S k => pos :: run k (pos + es) end.

Lemma write_from_calm n ctx data pos s c :
  holds_chip s c -> w_partition ctx = p -> zlen data = es -> recorded ctx -> 0 <= pos <= sz -> sz - pos < Z.of_nat n ->
  exists r ctx' s', write_from M n ctx data pos s = Val (r, ctx', s') /\ recorded ctx' /\ same_buffer ctx ctx' /\
    match Goods pos with
    | [] => r = -1 /\ chips s' = chips s
    | q :: rest => r = 0 /\ chips s' = <[d := upd c q data]> (chips s) /\ w_pos ctx' = q + es /\ rest = Goods (q + es) /\
        pos <= q /\ q + es <= sz /\ exists k, q = pos + Z.of_nat k * es /\ bad_list ctx' = bad_list ctx ++ run k pos
    end.
Proof.
  intros Hc Hp Hd Hr Hpos. revert ctx pos s Hc Hp Hr Hpos. induction n as [| n IH]; intros ctx pos s Hc Hp Hr Hpos Hn; [lia |].
  cbn [write_from]. rewrite Hp, (word_id es) by lia. rewrite (word_int (pos + es)) by lia.
  cbn [mbind outcome_bind]. rewrite wraps_id by lia. rewrite goods_step by lia.
  destruct (Z.leb_spec (pos + es) sz) as [He | He]; cbn [negb].
  2: { by exists (-1), ctx, s. }
  unfold chip_bad. rewrite (cf_bad Hcalm). destruct (bad pos) eqn:Hb.
  - destruct (add_bad_calm ctx pos Hr) as (ctx1 & -> & Hr1 & (S1 & S2 & S3) & _ & Hbl). cbn [mbind outcome_bind].
    rewrite word_id by lia.
    destruct (IH ctx1 (pos + es) (m_tock s)) as (r & ctx' & s' & -> & Hr' & (T1 & T2 & T3) & Hres); try done; try lia; [congruence |].
    exists r, ctx', s'. split; [done |]. split; [done |]. split; [split_and!; congruence |].
    destruct (Goods (pos + es)) as [| q rest]; [done |].
    destruct Hres as (-> & Hs' & Hw & Hrest & Hle & Hq & k & Hk & Hbl'). split_and!; try done; try lia.
    exists (S k). split; [lia |]. rewrite Hbl', Hbl, <- app_assoc. done.
  - destruct (write_tries_calm 1 ctx data pos (m_tock s) c) as (s' & -> & Hs'); try done; try lia.
    exists 0, (w_moved (pos + es) ctx), s'. split; [done |]. split; [done |]. split; [done |].
    split_and!; try done; try lia. exists O. split; [lia |]. simpl. by rewrite app_nil_r.
Qed.

(** The complete blocks written so far. *)
Definition wrote_blocks (s : flash) (ctx : MtdWriteContext) (blks : block) : Prop :=
  exists c pre, holds_chip s c /\ w_partition ctx = p /\ zlen (w_buffer ctx) = es /\ 0 <= w_pos ctx <= sz /\ recorded ctx /\
    Goods 0 = pre ++ Goods (w_pos ctx) /\ inside es (w_pos ctx) pre /\ blks = Blocks c pre.

(** What fits on the chip. *)
Definition capacity : Z := es * zlen (Goods 0).

Lemma wrote_size s ctx blks : wrote_blocks s ctx blks ->
  zlen blks + es * zlen (Goods (w_pos ctx)) = capacity.
Proof.
  intros (c & pre & [_ Hc] & _ & _ & Hpos & _ & Hg & Hin & ->). unfold capacity. rewrite Hg, zlen_app.
  rewrite zlen_blocks; [lia | lia |]. eapply inside_mono; [exact Hin | lia].
Qed.

Lemma write_block_calm ctx data s blks : wrote_blocks s ctx blks -> zlen data = es ->
  exists r ctx' s', write_block M ctx data s = Val (r, ctx', s') /\ same_buffer ctx ctx' /\
    (zlen blks + es <= capacity -> r = 0 /\ wrote_blocks s' ctx' (blks ++ data)) /\
    (capacity < zlen blks + es -> r = -1).
Proof.
  intros Hw Hd. pose proof (wrote_size _ _ _ Hw) as Hcap.
  destruct Hw as (c & pre & Hc & Hp & Hbuf & Hpos & Hr & Hg & Hin & ->).
  unfold write_block, m_ask. cbv zeta iota. rewrite m_not_neg, Hp.
  destruct (write_from_calm (block_fuel p) ctx data (w_pos ctx) (m_tock s) c)
    as (r & ctx' & s' & -> & Hr' & (S1 & S2 & S3) & Hres); try done.
  { unfold block_fuel. rewrite wraps_id by lia. lia. }
  exists r, ctx', s'. split; [done |]. split; [done |]. destruct (Goods (w_pos ctx)) as [| q rest] eqn:Hgp.
  - destruct Hres as [-> _]. split; [| done]. intros Hfit. change (zlen (@nil Z)) with 0 in Hcap. lia.
  - destruct Hres as (-> & Hs' & Hw & Hrest & Hle & Hq & _). rewrite zlen_cons in Hcap. pose proof (zlen_nonneg rest).
    split; [| intros; nia]. intros _. split; [done |]. destruct Hc as [Hc0 Hcl].
    destruct (upd_facts c q data) as (L & T & Sl & _); [lia | lia |]. rewrite Hd in Sl.
    exists (upd c q data), (pre ++ [q]). split_and!; try done; try lia.
    + split; [rewrite Hs'; by rewrite lookup_insert_eq | lia].
    + congruence.
    + congruence.
    + rewrite Hg, Hrest, Hw, <- app_assoc. done.
    + apply Forall_app. split; [eapply inside_mono; [exact Hin | lia] |]. repeat constructor; lia.
    + rewrite blocks_app, blocks_cons, blocks_nil, app_nil_r, Sl. f_equal.
      apply (blocks_agree es (proj1 Hes) q); [eapply inside_mono; [exact Hin | lia] | done].
Qed.

(** Everything that was handed to the writer: the blocks and what waits in the buffer. *)
Definition written (s : flash) (ctx : MtdWriteContext) (data : block) : Prop :=
  exists blks, wrote_blocks s ctx blks /\ 0 <= w_stored ctx < es /\
    data = blks ++ take (Z.to_nat (w_stored ctx)) (w_buffer ctx).

Lemma wrote_filled s ctx blks buffer k : wrote_blocks s ctx blks -> zlen buffer = es ->
  wrote_blocks s (w_filled buffer k ctx) blks.
Proof.
  intros (c & pre & Hc & Hp & Hbuf & Hpos & Hr & Hg & Hin & ->) Hb. exists c, pre. cbn. split_and!; try done; lia.
Qed.

Lemma wrote_buffer s ctx blks : wrote_blocks s ctx blks -> w_partition ctx = p /\ zlen (w_buffer ctx) = es.
Proof. by intros (c & pre & Hc & Hp & Hbuf & _). Qed.

Lemma take_len (b : block) k : 0 <= k <= zlen b -> zlen (take (Z.to_nat k) b) = k.
Proof. intros Hk. unfold zlen in *. rewrite length_take. lia. Qed.

Lemma write_whole_calm n ctx data wrote s blks :
  wrote_blocks s ctx blks -> 0 <= wrote <= zlen data -> zlen blks + (zlen data - wrote) <= capacity ->
  zlen data - wrote <= Z.of_nat n ->
  exists ctx' wrote' s', write_whole M n ctx data wrote s = Val (true, ctx', wrote', s') /\ same_buffer ctx ctx' /\
    wrote <= wrote' <= zlen data /\ wrote_blocks s' ctx' (blks ++ slice data wrote (wrote' - wrote)) /\
    (w_stored ctx = 0 -> zlen data - wrote' < es) /\ (w_stored ctx <> 0 -> wrote' = wrote).
Proof.
  revert ctx wrote s blks. induction n as [| n IH]; intros ctx wrote s blks Hw Hwr Hfit Hn; cbn [write_whole].
  all: destruct (wrote_buffer _ _ _ Hw) as [Hp Hbuf]; rewrite Hp.
  all: destruct (Z.eqb_spec (w_stored ctx) 0) as [H0 | H0]; cbn [andb].
  all: try (destruct (Z.leb_spec es (zlen data - wrote)) as [Hle | Hle]).
  all: try lia.
  all: try (exists ctx, wrote, s; rewrite Z.sub_diag, slice_0, app_nil_r; by split_and!; try lia).
  destruct (wp_elim _ _ (wp_load_bytes data wrote es (fun b => b = slice data wrote es)
    ltac:(lia) ltac:(lia) ltac:(lia) eq_refl)) as (b & -> & ->). cbn [mbind outcome_bind].
  destruct (write_block_calm ctx (slice data wrote es) s blks Hw) as (r & ctx1 & s1 & -> & (S1 & S2 & S3) & Hok & _);
    [apply zlen_slice; lia |].
  destruct Hok as [-> Hw1]; [lia |]. cbn [mbind outcome_bind Z.eqb negb].
  destruct (IH ctx1 (wrote + es) s1 _ Hw1) as (ctx2 & wrote2 & s2 & -> & (T1 & T2 & T3) & Hwr2 & Hw2 & Hend & _); try lia.
  { rewrite zlen_app, zlen_slice by lia. lia. }
  exists ctx2, wrote2, s2. split; [done |]. split; [split_and!; congruence |]. split; [lia |].
  split; [| split; [intros _; apply Hend; congruence | done]]. rewrite <- app_assoc in Hw2.
  replace (wrote2 - wrote) with (es + (wrote2 - (wrote + es))) by lia. rewrite slice_app by lia. done.
Qed.

(** Coalescing: the buffer takes bytes, and is written when it is full. *)
Lemma write_step ctx data wrote s blks :
  wrote_blocks s ctx blks -> 0 <= w_stored ctx < es -> 0 <= wrote < zlen data ->
  zlen blks + w_stored ctx + (zlen data - wrote) <= capacity ->
  exists ctx1 wrote1, write_buffered ctx data wrote = Val (ctx1, wrote1) /\ wrote <= wrote1 <= zlen data /\
  exists ctx2 s2, flush_full M ctx1 s = Val (true, ctx2, s2) /\ exists blks2, wrote_blocks s2 ctx2 blks2 /\ 0 <= w_stored ctx2 < es /\
    blks2 ++ take (Z.to_nat (w_stored ctx2)) (w_buffer ctx2) =
      (blks ++ take (Z.to_nat (w_stored ctx)) (w_buffer ctx)) ++ slice data wrote (wrote1 - wrote) /\
    (wrote < wrote1 \/ w_stored ctx2 = 0 /\ es <= zlen data - wrote1).
Proof.
  intros Hw Hst Hwr Hfit. destruct (wrote_buffer _ _ _ Hw) as [Hp Hbuf]. unfold write_buffered. rewrite Hp.
  destruct ((0 <? w_stored ctx) || (zlen data - wrote <? es)) eqn:Eb.
  2: { apply orb_false_iff in Eb as [E1 E2]. apply Z.ltb_ge in E1, E2. do 2 eexists. split; [done |]. split; [lia |].
       unfold flush_full. rewrite Hp, (proj2 (Z.eqb_neq _ _)) by lia. do 2 eexists. split; [done |]. exists blks.
       rewrite Z.sub_diag, slice_0, app_nil_r. split_and!; try done; try lia. }
  cbv zeta. set (copy := if _ <? _ then _ else _).
  assert (0 < copy /\ copy <= zlen data - wrote /\ copy <= es - w_stored ctx) as (Hc1 & Hc2 & Hc3).
  { unfold copy. destruct (Z.ltb_spec (zlen data - wrote) (es - w_stored ctx)); lia. }
  clearbody copy.
  destruct (wp_elim _ _ (wp_load_bytes data wrote copy (fun b => b = slice data wrote copy)
    ltac:(lia) ltac:(lia) ltac:(lia) eq_refl)) as (b & -> & ->). cbn [mbind outcome_bind].
  set (b := slice data wrote copy). assert (zlen b = copy) as Hb by (apply zlen_slice; lia).
  destruct (wp_elim _ _ (wp_store_bytes (w_buffer ctx) b (w_stored ctx) (fun m => m = upd (w_buffer ctx) (w_stored ctx) b)
    ltac:(lia) ltac:(lia) ltac:(intros; reflexivity))) as (buf & -> & ->). cbn [mbind outcome_bind].
  do 2 eexists. split; [done |]. split; [lia |].
  destruct (upd_facts (w_buffer ctx) (w_stored ctx) b) as (L & T & _ & _); [lia | lia |].
  assert (take (Z.to_nat (w_stored ctx + copy)) (upd (w_buffer ctx) (w_stored ctx) b) =
    take (Z.to_nat (w_stored ctx)) (w_buffer ctx) ++ b) as Tk.
  { unfold upd. rewrite app_assoc. apply take_app_length'. rewrite length_app.
    pose proof (take_len (w_buffer ctx) (w_stored ctx) ltac:(lia)). unfold zlen in *. lia. }
  pose proof (wrote_filled s ctx blks (upd (w_buffer ctx) (w_stored ctx) b) (w_stored ctx + copy) Hw ltac:(lia)) as Hw1.
  replace (wrote + copy - wrote) with copy by lia. fold b. unfold flush_full. cbn [w_stored w_filled w_partition w_buffer]. rewrite Hp.
  destruct (Z.eqb_spec (w_stored ctx + copy) es) as [Hfull | Hfull].
  - destruct (write_block_calm _ (upd (w_buffer ctx) (w_stored ctx) b) s blks Hw1) as (r & ctx2 & s2 & -> & (S1 & S2 & S3) & Hok & _);
      [lia |]. destruct Hok as [-> Hw2]; [lia |]. cbn [mbind outcome_bind Z.eqb negb]. do 2 eexists. split; [done |].
    exists (blks ++ upd (w_buffer ctx) (w_stored ctx) b). cbn [w_stored w_filled w_buffer].
    split_and!; [apply wrote_filled; [done |]; rewrite S2; cbn; lia | lia | lia | | left; lia].
    rewrite app_nil_r, <- app_assoc, <- Tk. f_equal. rewrite Hfull. symmetry. apply take_ge. unfold zlen in *. lia.
  - do 2 eexists. split; [done |]. exists blks. cbn [w_stored w_filled w_buffer].
    split_and!; [done | lia | lia | by rewrite Tk, app_assoc | left; lia].
Qed.

Lemma write_loop_calm n ctx data wrote s blks :
  wrote_blocks s ctx blks -> 0 <= w_stored ctx < es -> 0 <= wrote <= zlen data -> zlen data < 2 ^ 30 ->
  zlen blks + w_stored ctx + (zlen data - wrote) <= capacity -> zlen data - wrote <= Z.of_nat n ->
  exists ctx' s', mtd_write_loop M n ctx data wrote s = Val (zlen data, ctx', s') /\
    written s' ctx' ((blks ++ take (Z.to_nat (w_stored ctx)) (w_buffer ctx)) ++ slice data wrote (zlen data - wrote)).
Proof.
  revert ctx wrote s blks. induction n as [| n IH]; intros ctx wrote s blks Hw Hst Hwr Hlen Hfit Hn; cbn [mtd_write_loop].
  all: destruct (Z.leb_spec (zlen data) wrote) as [Hle | Hle];
    [exists ctx, s; assert (wrote = zlen data) as -> by lia; rewrite word_id, Z.sub_diag, slice_0, app_nil_r by lia;
     split; [done |]; by exists blks | try lia].
  destruct (write_step ctx data wrote s blks) as (ctx1 & wrote1 & -> & Hwr1 & ctx2 & s2 & Hfl & blks2 & Hw2 & Hst2 & Heq & Hprog);
    try done; try lia.
  cbn [mbind outcome_bind]. rewrite Hfl. cbn [mbind outcome_bind negb].
  destruct (wrote_buffer _ _ _ Hw) as [Hp Hbuf]. destruct (wrote_buffer _ _ _ Hw2) as [Hp2 Hbuf2].
  assert (zlen blks2 + w_stored ctx2 = zlen blks + w_stored ctx + (wrote1 - wrote)) as Hsum.
  { apply (f_equal zlen) in Heq. rewrite !zlen_app, !take_len, zlen_slice in Heq by lia. lia. }
  destruct (write_whole_calm (length data) ctx2 data wrote1 s2 blks2) as (ctx3 & wrote3 & s3 & -> & (S1 & S2 & S3) & Hwr3 & Hw3 & Hend & Hsame);
    try done; try lia; [unfold zlen; lia |].
  cbn [mbind outcome_bind negb].
  destruct (decide (w_stored ctx2 = 0)) as [Hz | Hz].
  - destruct (IH ctx3 wrote3 s3 _ Hw3) as (ctx4 & s4 & -> & Hw4); try lia.
    { rewrite zlen_app, zlen_slice by lia. lia. }
    exists ctx4, s4. split; [done |]. rewrite S2, S3, Hz in Hw4. cbn [take] in Hw4. rewrite Hz in Heq. cbn [take] in Heq.
    change (take (Z.to_nat 0) (w_buffer ctx2)) with (@nil Z) in *. rewrite app_nil_r in Hw4, Heq. rewrite Heq in Hw4.
    rewrite <- !app_assoc in *. replace (zlen data - wrote) with ((wrote1 - wrote) + ((wrote3 - wrote1) + (zlen data - wrote3))) by lia.
    rewrite slice_app by lia. rewrite slice_app by lia.
    replace (wrote + (wrote1 - wrote)) with wrote1 by lia. by replace (wrote1 + (wrote3 - wrote1)) with wrote3 by lia.
  - specialize (Hsame Hz). subst wrote3. rewrite Z.sub_diag, slice_0, app_nil_r in Hw3.
    destruct (IH ctx3 wrote1 s3 _ Hw3) as (ctx4 & s4 & -> & Hw4); try lia.
    exists ctx4, s4. split; [done |]. rewrite S2, S3, Heq, <- app_assoc in Hw4.
    replace (zlen data - wrote) with ((wrote1 - wrote) + (zlen data - wrote1)) by lia. rewrite slice_app by lia.
    by replace (wrote + (wrote1 - wrote)) with wrote1 by lia.
Qed.

Lemma mtd_write_data_calm ctx data s data0 : written s ctx data0 -> zlen data0 + zlen data <= capacity -> zlen data < 2 ^ 30 ->
  exists ctx' s', mtd_write_data M ctx data s = Val (zlen data, ctx', s') /\ written s' ctx' (data0 ++ data).
Proof.
  intros (blks & Hw & Hst & ->) Hfit Hlen. destruct (wrote_buffer _ _ _ Hw) as [Hp Hbuf].
  rewrite zlen_app, take_len in Hfit by lia. pose proof (zlen_nonneg data).
  destruct (write_loop_calm (length data) ctx data 0 s blks) as (ctx' & s' & Hr & Hw'); try done; try lia.
  { unfold zlen. lia. }
  exists ctx', s'. split; [done |]. rewrite Z.sub_0_r in Hw'. unfold slice in Hw'. change (Z.to_nat 0) with O in Hw'.
  rewrite drop_0, (take_ge data) in Hw' by (unfold zlen; lia). done.
Qed.

Lemma flush_padded_calm ctx s data : written s ctx data -> zlen data <= capacity ->
  exists pad ctx' s', flush_padded M ctx s = Val (0, ctx', s') /\ w_stored ctx' = 0 /\ wrote_blocks s' ctx' (data ++ pad).
Proof.
  intros (blks & Hw & Hst & ->) Hfit. destruct (wrote_buffer _ _ _ Hw) as [Hp Hbuf]. unfold flush_padded. rewrite Hp.
  destruct (Z.ltb_spec 0 (w_stored ctx)) as [Hpos | Hpos].
  2: { assert (w_stored ctx = 0) as E by lia. rewrite E. exists [], ctx, s. split; [done |]. split; [done |].
       change (take (Z.to_nat 0) (w_buffer ctx)) with (@nil Z). by rewrite !app_nil_r. }
  set (zs := replicate _ 0). assert (zlen zs = es - w_stored ctx) as Hz by (unfold zs, zlen; rewrite length_replicate; lia).
  destruct (wp_elim _ _ (wp_store_bytes (w_buffer ctx) zs (w_stored ctx) (fun m => m = upd (w_buffer ctx) (w_stored ctx) zs)
    ltac:(lia) ltac:(lia) ltac:(intros; reflexivity))) as (buf & -> & ->). cbn [mbind outcome_bind].
  destruct (upd_facts (w_buffer ctx) (w_stored ctx) zs) as (L & _ & _ & _); [lia | lia |].
  pose proof (wrote_size _ _ _ Hw) as Hcap. rewrite zlen_app, take_len in Hfit by lia.
  pose proof (wrote_filled s ctx blks _ (w_stored ctx) Hw ltac:(rewrite L; exact Hbuf)) as Hw1.
  destruct (write_block_calm _ (upd (w_buffer ctx) (w_stored ctx) zs) s blks Hw1) as (r & ctx' & s' & -> & (S1 & S2 & S3) & Hok & _);
    [lia |].
  assert (1 <= zlen (Goods (w_pos ctx))).
  { pose proof (zlen_nonneg (Goods (w_pos ctx))). destruct (Z.le_gt_cases 1 (zlen (Goods (w_pos ctx)))); [done |].
    assert (zlen (Goods (w_pos ctx)) = 0) as E by lia. rewrite E in Hcap. lia. }
  destruct Hok as [-> Hw2]; [nia |]. cbn [mbind outcome_bind Z.eqb]. exists zs. do 2 eexists. split; [done |]. split; [done |].
  apply wrote_filled; [| lia]. rewrite <- app_assoc.
  replace (take (Z.to_nat (w_stored ctx)) (w_buffer ctx) ++ zs) with (upd (w_buffer ctx) (w_stored ctx) zs); [done |].
  unfold upd. f_equal. rewrite drop_ge by (unfold zlen in *; lia). by rewrite app_nil_r.
Qed.

(** Erasing what follows the position. *)
Lemma erase_loop_calm n pos s c : holds_chip s c -> 0 <= pos -> pos + Z.of_nat n * es <= sz ->
  exists c' s', erase_loop M n p pos s = (pos + Z.of_nat n * es, s') /\ holds_chip s' c' /\
    take (Z.to_nat pos) c' = take (Z.to_nat pos) c.
Proof.
  revert pos s c. induction n as [| n IH]; intros pos s c Hc Hp Hn.
  { exists c, s. split; [| done]. simpl. f_equal. lia. }
  cbn [erase_loop]. rewrite word_id by lia. unfold chip_bad. rewrite (cf_bad Hcalm).
  assert (exists c1 s1, (if bad pos then erase_loop M n p (pos + es) (m_tock s)
      else let '(_, s) := chip_erase M d pos es (m_tock s) in erase_loop M n p (pos + es) s) =
      erase_loop M n p (pos + es) s1 /\ holds_chip s1 c1 /\ take (Z.to_nat pos) c1 = take (Z.to_nat pos) c)
    as (c1 & s1 & Heq & Hc1 & Ht1).
  { destruct (bad pos); [by exists c, (m_tock s) |]. unfold chip_erase, m_ask. cbv zeta iota.
    set (ff := replicate _ 255). assert (zlen ff = es) as Hff by (unfold ff, zlen; rewrite length_replicate; lia).
    rewrite (chip_put_calm pos ff (m_tock s) c) by (done || lia). destruct Hc as [Hc0 Hcl].
    destruct (upd_facts c pos ff) as (L & T & _ & _); [done | lia |].
    exists (upd c pos ff). eexists. split; [done |]. split; [| done].
    split; [simpl; by rewrite lookup_insert_eq | lia]. }
  destruct (IH (pos + es) s1 c1 Hc1) as (c2 & s2 & Hr & Hc2 & Ht2); [lia | lia |].
  exists c2, s2. split; [| split; [done |]].
  - replace (pos + Z.of_nat (S n) * es) with (pos + es + Z.of_nat n * es) by lia. rewrite <- Hr, <- Heq. by destruct (bad pos).
  - rewrite <- Ht1. apply (f_equal (take (Z.to_nat pos))) in Ht2. rewrite !take_take in Ht2.
    by replace (Z.to_nat pos `min` Z.to_nat (pos + es))%nat with (Z.to_nat pos) in Ht2 by lia.
Qed.

Lemma mtd_erase_blocks_calm ctx blocks s data : written s ctx data -> zlen data <= capacity -> blocks <= 0 ->
  exists pos pad ctx' s', mtd_erase_blocks M ctx blocks s = Val (pos, ctx', s') /\ 0 <= pos /\
    w_stored ctx' = 0 /\ wrote_blocks s' ctx' (data ++ pad).
Proof.
  intros Hw Hfit Hb. assert (w_partition ctx = p) as Hp by (destruct Hw as (blks & Hw & _); exact (proj1 (wrote_buffer _ _ _ Hw))).
  unfold mtd_erase_blocks. destruct (flush_padded_calm ctx s data Hw Hfit) as (pad & ctx1 & s1 & -> & Hst & Hw1).
  cbn [mbind outcome_bind Z.eqb negb]. unfold m_ask. cbv zeta iota. rewrite m_not_neg, Hp.
  rewrite (proj2 (Z.eqb_neq es 0)) by lia.
  destruct Hw1 as (c & pre & Hc & Hp1 & Hbuf & Hpos & Hr & Hg & Hin & Hblk).
  assert ((if word_bits =? 32 then u32 (sz - w_pos ctx1) else sz - w_pos ctx1) = sz - w_pos ctx1) as ->.
  { destruct (word_bits =? 32); [apply wrapu_id; lia | done]. }
  rewrite Z.quot_div_nonneg by lia. set (total := (sz - w_pos ctx1) / es).
  assert (0 <= total /\ total * es <= sz - w_pos ctx1) as [Ht0 Ht1].
  { split; [apply Z.div_pos; lia |]. pose proof (Z.mul_div_le (sz - w_pos ctx1) es). unfold total. lia. }
  rewrite wraps_id by nia. set (n := if blocks <? 0 then total else blocks).
  assert (0 <= n <= total) as Hn by (unfold n; destruct (Z.ltb_spec blocks 0); lia).
  rewrite (proj2 (Z.ltb_ge _ _)) by lia.
  destruct (erase_loop_calm (Z.to_nat n) (w_pos ctx1) (m_tock s1) c) as (c' & s' & -> & Hc' & Ht); [done | lia | nia |].
  do 2 eexists. exists ctx1, s'. split; [done |]. split; [nia |]. split; [done |].
  exists c', pre. split_and!; try done; try lia. rewrite Hblk. symmetry. by apply (blocks_agree es (proj1 Hes) (w_pos ctx1)).
Qed.

End Calm.

(** ** The table is only changed by a scan *)

Section Table.
Context `{Arch} (M : flash_env).

Lemma chip_put_table d pos b s : table (chip_put M d pos b s) = table s.
Proof. unfold chip_put. by destruct (chips s !! d). Qed.

Lemma chip_erase_table d pos n s : table (chip_erase M d pos n s).2 = table s.
Proof. unfold chip_erase. simpl. apply chip_put_table. Qed.

Lemma chip_read_table d pos n s : table (chip_read M d pos n s).2 = table s.
Proof. unfold chip_read, m_ask. cbv zeta iota. by destruct (if _ <? 0 then None else _). Qed.

Lemma write_tries_table n ctx data pos s : table (write_tries M n ctx data pos s).2 = table s.
Proof.
  revert ctx s. induction n as [| n IH]; intros ctx s; [done |]. cbn [write_tries].
  pose proof (chip_erase_table (device_index (w_partition ctx)) pos (erase_size (w_partition ctx)) s) as He.
  destruct (chip_erase _ _ _ _ _) as [erased s1]. simpl in He. destruct erased; cbn [negb]; [| by rewrite IH].
  set (s2 := chip_write _ _ _ _ _). assert (table s2 = table s) as H2 by (unfold s2; simpl; by rewrite chip_put_table). clearbody s2.
  pose proof (chip_read_table (device_index (w_partition ctx)) pos (erase_size (w_partition ctx)) s2) as Hr.
  destruct (chip_read _ _ _ _ _) as [[verify fd] s3]. simpl in Hr. destruct verify as [v |]; [| rewrite IH; congruence].
  case_bool_decide; simpl; [congruence | rewrite IH; congruence].
Qed.

Lemma write_from_table n ctx data pos s r ctx' s' :
  write_from M n ctx data pos s = Val (r, ctx', s') -> table s' = table s.
Proof.
  revert ctx pos s. induction n as [| n IH]; intros ctx pos s; cbn [write_from]; intros Hw; outcome_inv.
  all: destruct (_ <=? _) in Hw; cbn [negb] in Hw; [| by injection Hw as <- <- <-]; [done || idtac].
  unfold chip_bad in Hw. destruct (m_bad _ _ _ _).
  all: try (apply bind_Val_inv in Hw as (? & _ & Hw); by apply IH in Hw).
  all: pose proof (write_tries_table 2 ctx data pos (m_tock s)) as Ht;
    destruct (write_tries _ _ _ _ _ _) as [[ok ctx1] s1]; simpl in Ht; destruct ok; [injection Hw as <- <- <-; done |].
  all: apply bind_Val_inv in Hw as (? & _ & Hw);
    pose proof (chip_erase_table (device_index (w_partition ctx)) pos (erase_size (w_partition ctx)) s1) as He;
    destruct (chip_erase _ _ _ _ _) as [? s2]; simpl in He; apply IH in Hw; congruence.
Qed.

Lemma write_block_table ctx data s r ctx' s' : write_block M ctx data s = Val (r, ctx', s') -> table s' = table s.
Proof.
  unfold write_block, m_ask. cbv zeta iota. destruct (_ <? 0); [by intros [= <- <- <-] |]. by intros Hw%write_from_table.
Qed.

Lemma write_whole_table n ctx data wrote s ok ctx' wrote' s' :
  write_whole M n ctx data wrote s = Val (ok, ctx', wrote', s') -> table s' = table s.
Proof.
  revert ctx wrote s. induction n as [| n IH]; intros ctx wrote s; cbn [write_whole];
    (destruct (_ && _); [| by intros [= <- <- <- <-]]); [done |].
  intros Hw. apply bind_Val_inv in Hw as (b & _ & Hw). apply bind_Val_inv in Hw as ([[r ctx1] s1] & Hb & Hw).
  apply write_block_table in Hb. destruct (r =? 0); cbn [negb] in Hw; [apply IH in Hw; congruence |].
  by injection Hw as <- <- <- <-.
Qed.

Lemma write_loop_table n ctx data wrote s r ctx' s' :
  mtd_write_loop M n ctx data wrote s = Val (r, ctx', s') -> table s' = table s.
Proof.
  revert ctx wrote s. induction n as [| n IH]; intros ctx wrote s; cbn [mtd_write_loop];
    (destruct (_ <=? _); [by intros [= <- <- <-] |]); [done |].
  intros Hw. apply bind_Val_inv in Hw as ([ctx1 w1] & _ & Hw). apply bind_Val_inv in Hw as ([[ok ctx2] s2] & Hf & Hw).
  assert (table s2 = table s) as H2.
  { unfold flush_full in Hf. destruct (_ =? _); [| by injection Hf as <- <- <-].
    apply bind_Val_inv in Hf as ([[r2 c2] s3] & Hb%write_block_table & Hf). by destruct (r2 =? 0); injection Hf as <- <- <-. }
  destruct ok; cbn [negb] in Hw; [| by injection Hw as <- <- <-].
  apply bind_Val_inv in Hw as ([[[ok ctx3] w3] s3] & Hb%write_whole_table & Hw).
  destruct ok; cbn [negb] in Hw; [apply IH in Hw; congruence |]. injection Hw as <- <- <-. congruence.
Qed.

Lemma erase_loop_table n p pos s : table (erase_loop M n p pos s).2 = table s.
Proof.
  revert pos s. induction n as [| n IH]; intros pos s; [done |]. cbn [erase_loop]. unfold chip_bad.
  pose proof (chip_erase_table (device_index p) pos (erase_size p) (m_tock s)) as He.
  destruct (m_bad _ _ _ _), (chip_erase _ _ _ _ _) as [? s1]; rewrite IH; done.
Qed.

Lemma erase_blocks_table ctx blocks s r ctx' s' : mtd_erase_blocks M ctx blocks s = Val (r, ctx', s') -> table s' = table s.
Proof.
  unfold mtd_erase_blocks. intros Hw. apply bind_Val_inv in Hw as ([[r1 ctx1] s1] & Hf & Hw).
  assert (table s1 = table s) as H1.
  { unfold flush_padded in Hf. destruct (_ <? _); [| by injection Hf as <- <- <-].
    apply bind_Val_inv in Hf as (b & _ & Hf). apply bind_Val_inv in Hf as ([[r2 c2] s3] & Hb%write_block_table & Hf).
    by injection Hf as <- <- <-. }
  destruct (r1 =? 0); cbn [negb] in Hw; [| by injection Hw as <- <- <-]. unfold m_ask in Hw. cbv zeta iota in Hw.
  destruct (_ <? 0) in Hw; [by injection Hw as <- <- <- |]. destruct (_ =? 0) in Hw; [done |].
  destruct (_ <? _) in Hw; [by injection Hw as <- <- <- |].
  pose proof (erase_loop_table (Z.to_nat (if blocks <? 0 then i32 (Z.quot (if word_bits =? 32 then u32 (p_size (w_partition ctx) - w_pos ctx1)
    else p_size (w_partition ctx) - w_pos ctx1) (erase_size (w_partition ctx))) else blocks)) (w_partition ctx) (w_pos ctx1) (m_tock s1)) as He.
  destruct (erase_loop _ _ _ _ _) as [pos s2]. simpl in He. injection Hw as <- <- <-. congruence.
Qed.

Lemma write_close_table ctx s r s' : mtd_write_close M ctx s = Val (r, s') -> table s' = table s.
Proof.
  unfold mtd_write_close. intros Hw. apply bind_Val_inv in Hw as ([[pos c] s1] & He%erase_blocks_table & Hw).
  unfold m_ask in Hw. cbv zeta iota in Hw. by injection Hw as <- <-.
Qed.
End Table.

(** ** applypatch on a flash partition *)

Section Program.
Context `{Arch} (M : flash_env) (E : env) (fuel : nat) (sha1 : block -> block).
Variables (p : MtdPartition) (bad : Z -> bool).
Hypothesis Hcalm : calm_flash M p bad.
Hypothesis Hes : 0 < erase_size p < 2 ^ 30.
Hypothesis Hsz : 0 <= p_size p < 2 ^ 30.

Lemma chip_open_calm m c : holds_chip p m c -> chip_open M (device_index p) m = (true, m_tock m).
Proof.
  intros [Hc _]. unfold chip_open, m_ask. cbv zeta iota. rewrite (m_not_neg M p bad Hcalm). cbn [chips m_tock]. rewrite Hc.
  by rewrite bool_decide_true by eauto.
Qed.

Lemma open_writing m c : holds_chip p m c ->
  exists ctx m', mtd_write_partition M p m = (Some ctx, m') /\ written p bad m' ctx [] /\ table m' = table m.
Proof.
  intros Hc. unfold mtd_write_partition.
  destruct (cf_malloc M p bad Hcalm (word_bits / 8 * 5 + 8)) as (b0 & -> & _); [by destruct word_bits_ok as [-> | ->] |].
  destruct (cf_malloc M p bad Hcalm (erase_size p)) as (b & -> & Hb); [lia |].
  rewrite (chip_open_calm m c) by done. cbn [negb]. do 2 eexists. split; [done |]. split; [| done].
  exists []. cbn. split; [| split; [lia | done]]. exists c, []. cbn. split_and!; try done; try lia. by constructor.
Qed.

Lemma open_reading m c : holds_chip p m c ->
  exists ctx m', mtd_read_partition M p m = (Some ctx, m') /\
    reads p bad m' ctx (blocks (erase_size p) c (goods (erase_size p) (p_size p) bad 0)).
Proof.
  intros Hc. unfold mtd_read_partition.
  destruct (cf_malloc M p bad Hcalm (word_bits / 2)) as (b0 & -> & _); [by destruct word_bits_ok as [-> | ->] |].
  destruct (cf_malloc M p bad Hcalm (erase_size p)) as (b & -> & Hb); [lia |].
  rewrite (chip_open_calm m c) by done. cbn [negb]. do 2 eexists. split; [done |].
  exists c. cbn. split_and!; try done; try lia. rewrite drop_ge by (unfold zlen in *; lia). done.
Qed.

(** All of [data] written, with the rest of the chip erased. *)
Lemma write_mtd_calm (s : @sys (mtdutils M)) name data c :
  mtd_partitions_scanned s = true -> mtd_find_partition_by_name (mtd s) name = Some p -> holds_chip p (mtd s) c ->
  zlen data <= capacity p bad -> zlen data < 2 ^ 30 ->
  exists s' c' rest, @write_mtd _ (mtdutils M) data name s = Val (0, s') /\ mtd_partitions_scanned s' = true /\
    table (mtd s') = table (mtd s) /\ holds_chip p (mtd s') c' /\
    blocks (erase_size p) c' (goods (erase_size p) (p_size p) bad 0) = data ++ rest.
Proof.
  intros Hscan Hfind Hc Hfit Hlen. unfold write_mtd, scan_once. rewrite Hscan. cbn [mbind outcome_bind].
  cbn [Sys.mtd_find_partition_by_name Sys.mtd_write_partition Sys.mtd_write_data Sys.mtd_erase_blocks Sys.mtd_write_close mtdutils].
  rewrite Hfind.
  destruct (open_writing (mtd s) c Hc) as (ctx & m1 & -> & Hw1 & T1).
  pose proof (zlen_nonneg data).
  destruct (mtd_write_data_calm M p bad Hcalm Hes Hsz ctx data m1 [] Hw1 ltac:(done) Hlen) as (ctx2 & m2 & E2 & Hw2).
  rewrite E2. cbn [mbind outcome_bind app] in *. apply write_loop_table in E2.
  rewrite wrapu_id by (destruct word_bits_ok as [-> | ->]; lia). rewrite Z.eqb_refl. cbn [negb].
  destruct (mtd_erase_blocks_calm M p bad Hcalm Hes Hsz ctx2 (-1) m2 data Hw2 Hfit ltac:(lia)) as (pos & pad & ctx3 & m3 & E3 & Hpos & Hst & Hw3).
  rewrite E3. apply erase_blocks_table in E3. cbn [mbind outcome_bind]. rewrite (proj2 (Z.ltb_ge _ _)) by done.
  assert (written p bad m3 ctx3 (data ++ pad)) as Hw3'.
  { exists (data ++ pad). split; [done |]. rewrite Hst. split; [lia |]. by rewrite app_nil_r. }
  assert (zlen (data ++ pad) <= capacity p bad) as Hfit3.
  { pose proof (wrote_size _ _ Hes _ _ _ Hw3). pose proof (zlen_nonneg (goods (erase_size p) (p_size p) bad (w_pos ctx3))). nia. }
  destruct (mtd_erase_blocks_calm M p bad Hcalm Hes Hsz ctx3 0 m3 _ Hw3' Hfit3 ltac:(lia)) as (pos4 & pad4 & ctx4 & m4 & E4 & Hpos4 & _ & Hw4).
  unfold mtd_write_close. rewrite E4. apply erase_blocks_table in E4. cbn [mbind outcome_bind]. unfold m_ask. cbv zeta iota.
  rewrite (m_not_neg M p bad Hcalm), (proj2 (Z.eqb_neq pos4 (-1))) by lia. cbn [orb mbind outcome_bind Z.eqb negb].
  destruct Hw4 as (c4 & pre & Hc4 & _ & _ & _ & _ & Hg & _ & Hblk).
  eexists _, c4, _. split; [done |]. split; [done |]. split; [cbn; congruence |]. split; [done |].
  rewrite Hg, blocks_app, <- Hblk, <- !app_assoc. done.
Qed.

Lemma mtd_field : field (str "MTD").
Proof. split; [done |]. repeat constructor; done. Qed.

(** The name of the partition with one size and digest. *)
Definition listing (name size sha : block) : block := str "MTD" ++ colon :: name ++ pair_fields [(size, sha)].

Lemma load_mtd_calm (s : @sys (mtdutils M)) name size sha file data rest c :
  mtd_partitions_scanned s = true -> mtd_find_partition_by_name (mtd s) name = Some p -> holds_chip p (mtd s) c ->
  blocks (erase_size p) c (goods (erase_size p) (p_size p) bad 0) = data ++ rest ->
  field name -> pair_ok (size, sha) -> size_of size = zlen data -> ParseSha1 sha = Some (sha1 data) -> zlen data < 2 ^ 30 ->
  exists s', @LoadPartitionContents _ (mtdutils M) E sha1 (listing name size sha) file s =
    Val (0, mkContents (sha1 data) (Some data) (zlen data) 420 0 0, s').
Proof.
  intros Hscan Hfind Hc Hblk Hname Hpair Hsize Hsha Hlen. unfold LoadPartitionContents, partition_type, listing.
  rewrite (strtok_field _ _ mtd_field). rewrite bool_decide_true by done. cbn [mbind outcome_bind].
  rewrite strtok_pairs by done.
  assert (count_colons (str "MTD" ++ colon :: name ++ pair_fields [(size, sha)]) = 3) as ->.
  { rewrite colons_app, count_colon, colons_app, count_pairs by (by constructor).
    rewrite (count_field name Hname), (count_field _ mtd_field). done. }
  change ((3 - 1) / 2) with 1. change (Z.to_nat 1) with (length [(size, sha)]).
  rewrite read_pairs_spec by (by constructor). cbn [mbind outcome_bind].
  change (merge_sort pair_le (prod_map id Some <$> listed [(size, sha)])) with [(size_of size, Some sha)].
  unfold open_partition, scan_once. rewrite Hscan. cbn [mbind outcome_bind].
  cbn [Sys.mtd_find_partition_by_name Sys.mtd_read_partition mtdutils]. rewrite Hfind.
  destruct (open_reading (mtd s) c Hc) as (ctx & m1 & -> & Hr). cbn [mbind outcome_bind fmap option_fmap option_map].
  change (load [(size_of size, Some sha)] (1 - 1)) with (Val (size_of size, Some sha)). cbn [mbind outcome_bind try_pairs].
  change (zlen (@nil Z)) with 0. rewrite Z.sub_0_r, Hsize.
  assert (0 < zlen data) as Hpos by (destruct Hpair as (_ & _ & Hnz); pose proof (zlen_nonneg data); cbn in Hnz; lia).
  rewrite wrapu_id by (destruct word_bits_ok as [-> | ->]; lia). rewrite (proj2 (Z.ltb_lt _ _)) by done.
  unfold read_some. cbn [Sys.mtd_read_data mtdutils mtd set_mtd].
  rewrite Hblk in Hr. pose proof (zlen_nonneg rest).
  destruct (mtd_read_data_calm M p bad Hcalm Hes Hsz ctx (zlen data) m1 _ Hr) as (dn & rest' & ctx' & m2 & -> & _ & Heq & Hl & _);
    [rewrite zlen_app; lia | done |].
  apply app_inj_1 in Heq as [<- _]; [| unfold zlen in *; lia]. cbn [mbind outcome_bind].
  rewrite wrapu_id by (destruct word_bits_ok as [-> | ->]; lia). rewrite Z.eqb_refl. cbn [negb mbind outcome_bind app].
  rewrite Hsha, bool_decide_true by done. cbn [mbind outcome_bind]. by eexists.
Qed.
End Program.

(** C21: the flash driver and applypatch together: on a chip that keeps what it is told,
    whichever blocks are bad, data that fit on the good blocks are written by
    [WriteToPartition] with the result 0, and [LoadPartitionContents], given their size
    and digest, reads exactly them back. *)
Theorem mtd_write_load_roundtrip `{Arch} (M : flash_env) (E : env) (fuel : nat) (sha1 : block -> block)
    (p : MtdPartition) (bad : Z -> bool) (s : @sys (mtdutils M)) name size sha data c file :
  calm_flash M p bad -> 0 < erase_size p < 2 ^ 30 -> 0 <= p_size p < 2 ^ 30 ->
  mtd_partitions_scanned s = true -> mtd_find_partition_by_name (mtd s) name = Some p -> holds_chip p (mtd s) c ->
  field name -> pair_ok (size, sha) -> size_of size = zlen data -> ParseSha1 sha = Some (sha1 data) ->
  zlen data <= capacity p bad -> zlen data < 2 ^ 30 ->
  exists s1 s2, @WriteToPartition _ (mtdutils M) E fuel data (listing name size sha) s = Val (0, s1) /\
    @LoadPartitionContents _ (mtdutils M) E sha1 (listing name size sha) file s1 =
      Val (0, mkContents (sha1 data) (Some data) (zlen data) 420 0 0, s2).
Proof.
  intros Hcalm Hes Hsz Hscan Hfind Hc Hname Hpair Hsize Hsha Hfit Hlen.
  destruct (write_mtd_calm M p bad Hcalm Hes Hsz s name data c Hscan Hfind Hc Hfit Hlen)
    as (s1 & c1 & rest & Hw & Hscan1 & Ht & Hc1 & Hblk).
  destruct (load_mtd_calm M E sha1 p bad Hcalm Hes Hsz s1 name size sha file data rest c1) as (s2 & Hl); try done.
  { unfold mtd_find_partition_by_name in *. by rewrite Ht. }
  exists s1, s2. split; [| done]. unfold WriteToPartition, partition_type, listing.
  rewrite (strtok_field _ _ mtd_field). rewrite bool_decide_true by done. cbn [mbind outcome_bind].
  by rewrite strtok_pairs by done.
Qed.

(** *** Concrete chips *)

(** Three blocks of four bytes, the middle one bad. *)
Definition demo_part : MtdPartition := mkPart 0 12 4 (Some (str "boot")).
Definition demo_bad (pos : Z) : bool := pos =? 4.
Definition demo_flash_env (mid : bad_answer) (stored : nat -> block -> block -> block) : flash_env :=
  mkFlashEnv (fun _ => 2 ^ 30) (fun _ _ pos => if demo_bad pos then mid else IsGood) stored (fun _ b => b)
    (fun _ => 0) (fun _ => None) (fun _ => None) (fun n => Some (replicate (Z.to_nat n) 0)).
Definition good_flash : flash_env := demo_flash_env IsBad (fun _ _ new => new).
Definition demo_flash_sys (M : flash_env) : @sys (@mtdutils LP64 M) :=
  @mkSys (@mtdutils LP64 M) ∅ ∅
    (mkFlash (mkTable (Some [demo_part]) 1) {[ 0 := [9; 9; 9; 9; 77; 77; 77; 77; 9; 9; 9; 9] ]} 0) true 0 [].
Definition demo_data : block := [1; 2; 3; 4; 5; 6].

Lemma good_flash_calm : calm_flash good_flash demo_part demo_bad.
Proof.
  split; try reflexivity.
  intros n Hn. eexists. split; [reflexivity |]. unfold zlen. rewrite length_replicate. lia.
Qed.

Lemma mtd_write_load_roundtrip_witness : exists s1 s2,
  @WriteToPartition LP64 (@mtdutils LP64 good_flash) calm 10 demo_data (listing (str "boot") (str "6") (demo_sha 6))
    (demo_flash_sys good_flash) = Val (0, s1) /\
  @LoadPartitionContents LP64 (@mtdutils LP64 good_flash) calm length_digest (listing (str "boot") (str "6") (demo_sha 6))
    (mkContents [] None 0 0 0 0) s1 = Val (0, mkContents (length_digest demo_data) (Some demo_data) 6 420 0 0, s2).
Proof.
  apply (@mtd_write_load_roundtrip LP64 good_flash calm 10 length_digest demo_part demo_bad (demo_flash_sys good_flash)
    (str "boot") (str "6") (demo_sha 6) demo_data [9; 9; 9; 9; 77; 77; 77; 77; 9; 9; 9; 9] (mkContents [] None 0 0 0 0)).
  - exact good_flash_calm.
  - cbn. lia.
  - cbn. lia.
  - reflexivity.
  - reflexivity.
  - split; [reflexivity | vm_compute; congruence].
  - split; [discriminate |]. repeat constructor; discriminate.
  - split_and!; [split; [discriminate |]; repeat constructor; discriminate .. | vm_compute; discriminate].
  - reflexivity.
  - vm_compute. reflexivity.
  - vm_compute. congruence.
  - vm_compute. reflexivity.
Defined.

(** A write and then a load of the six bytes: both results and what was loaded. *)
Definition write_then_load (M : flash_env) : outcome (Z * Z * option block) :=
  let name := listing (str "boot") (str "6") (demo_sha 6) in
  let* (w, s) := @WriteToPartition LP64 (@mtdutils LP64 M) calm 10 demo_data name (demo_flash_sys M) in
  let* (r, f, _) := @LoadPartitionContents LP64 (@mtdutils LP64 M) calm length_digest name (mkContents [] None 0 0 0 0) s in
  Val (w, r, fc_data f).

(** A driver that cannot tell bad blocks (EOPNOTSUPP): writing takes every block as good,
    reading takes every block as bad; what was written cannot be read. *)
Definition unsupported_flash : flash_env :=
  mkFlashEnv (fun _ => 2 ^ 30) (fun _ _ _ => BadUnsupported) (fun _ _ new => new) (fun _ b => b)
    (fun _ => 0) (fun _ => None) (fun _ => None) (fun n => Some (replicate (Z.to_nat n) 0)).

Lemma unsupported_unreadable : write_then_load unsupported_flash = Val (0, -1, None).
Proof. vm_compute. reflexivity. Qed.

(** A block that holds 77 keeps it: the writer finds out and goes on to the next block,
    the reader takes it for good. *)
Definition worn_flash : flash_env :=
  demo_flash_env IsGood (fun _ old new => match old with 77 :: _ => old | _ => new end).

Lemma worn_block_read_back : write_then_load worn_flash = Val (0, 0, Some [1; 2; 3; 4; 77; 77]).
Proof. vm_compute. reflexivity. Qed.
