(* ===== verification/PatchSafety.v ===== *)
(** * Patching a file is safe

    applypatch.c says of itself that it is safe (the original is not touched until its
    replacement is there) and idempotent.  For regular files and bsdiff patches: in every
    state the disks pass through, a power failure in between included, some usable source
    or the finished target is there; and a result of 0 means that the target is. *)

From stdpp Require Import base numbers list gmap.
From stdpp Require Import strings.
From S2P Require Import Prelude CString Bits Edify Bspatch ImgPatch Retouch Sys FreeCache ApplyPatch PartitionIO.

Section Frames.
Context `{Arch} `{mtd_api} (E : env).

(** Only the file at [p] may change. *)
Definition frame (p : path) (s0 : sys) (d : disk) : Prop :=
  d.2 = disks s0 /\ forall q, q <> p -> d.1 !! q = files s0 !! q.

Definition touches (p : path) (s s' : sys) : Prop := evolves (frame p s) s s'.

Lemma frame_now p s : frame p s (now s).
Proof. done. Qed.

Lemma touches_now p s s' : touches p s s' -> frame p s (now s').
Proof. apply evolves_now, frame_now. Qed.

Lemma touches_trans p s1 s2 s3 : touches p s1 s2 -> touches p s2 s3 -> touches p s1 s3.
Proof.
  intros H1 H2. pose proof (touches_now _ _ _ H1) as [D2 F2]. eapply evolves_trans; [exact H1 |].
  eapply evolves_mono; [exact H2 |]. intros d [D3 F3]. split; [by rewrite D3 |].
  intros q Hq. rewrite F3 by done. by apply F2.
Qed.

Lemma touches_set_files p fs s : (forall q, q <> p -> fs !! q = files s !! q) -> touches p s (set_files fs s).
Proof. intros Hq. apply evolves_set_files. by split. Qed.

Lemma touches_tock p s s' : touches p (tock s) s' -> touches p s s'.
Proof. done. Qed.

Lemma touches_refl p s : touches p s s.
Proof. apply evolves_refl. Qed.

Lemma write_spec p data s f : files s !! p = Some f ->
  let '(n, s') := sys_write E p data s in
  touches p s s' /\ (n <= 0 \/ 0 < n <= zlen data) /\
  files s' !! p = Some (mkFile (f_data f ++ take (Z.to_nat n) data) (f_mode f) (f_uid f) (f_gid f)).
Proof.
  intros Hf. unfold sys_write, answer. cbv zeta iota. cbn [files tock].
  destruct (Z.ltb_spec (e_answer E (tick s)) 0).
  - split; [by apply touches_tock, touches_refl |]. split; [by left |]. simpl. rewrite app_nil_r. by destruct f.
  - rewrite Hf. split; [apply touches_tock, touches_set_files; intros q Hq; by rewrite lookup_insert_ne |].
    split; [lia |]. simpl. by rewrite lookup_insert_eq.
Qed.

(** A file sink appends a prefix of the data and says how long it is. *)
Lemma sink_loop_spec n p data done s f : files s !! p = Some f -> (length data <= n)%nat ->
  let '(k, s') := sink_loop E n p data done s in
  touches p s s' /\ exists w rest, data = w ++ rest /\ k = done + zlen w /\
    files s' !! p = Some (mkFile (f_data f ++ w) (f_mode f) (f_uid f) (f_gid f)).
Proof.
  assert (forall (g : inode), mkFile (f_data g ++ []) (f_mode g) (f_uid g) (f_gid g) = g) as Hnil
    by (intros []; simpl; by rewrite app_nil_r).
  revert data done s f. induction n as [| n IH]; intros data done s f Hf Hn.
  { destruct data; [| simpl in Hn; lia]. simpl. split; [apply touches_refl |]. exists [], []. rewrite Hnil. split_and!; [done | zlia | done]. }
  destruct data as [| b data].
  { simpl. split; [apply touches_refl |]. exists [], []. rewrite Hnil. split_and!; [done | zlia | done]. }
  cbn [sink_loop]. pose proof (write_spec p (b :: data) s f Hf) as Hw.
  destruct (sys_write E p (b :: data) s) as [k s1]. destruct Hw as (Ht & Hk & Hf1).
  destruct (Z.leb_spec k 0).
  - split; [done |]. exists [], (b :: data). rewrite Hnil. split_and!; [done | zlia |].
    rewrite Hf1. replace (Z.to_nat k) with 0%nat by lia. by rewrite take_0, Hnil.
  - specialize (IH (drop (Z.to_nat k) (b :: data)) (done + k) s1 _ Hf1).
    destruct (sink_loop E n p (drop (Z.to_nat k) (b :: data)) (done + k) s1) as [k' s'].
    destruct IH as (Ht' & w & rest & Hd & -> & Hf').
    { rewrite length_drop. simpl in *. lia. }
    split; [by eapply touches_trans |]. exists (take (Z.to_nat k) (b :: data) ++ w), rest.
    split_and!.
    + rewrite <- app_assoc, <- Hd. by rewrite take_drop.
    + rewrite zlen_app. unfold zlen at 2. rewrite length_take. unfold zlen in *. lia.
    + rewrite Hf'. simpl. by rewrite <- app_assoc.
Qed.

Lemma FileSink_spec p data s f : files s !! p = Some f ->
  let '(k, s') := FileSink E p data s in
  touches p s s' /\ exists w rest, data = w ++ rest /\ k = zlen w /\
    files s' !! p = Some (mkFile (f_data f ++ w) (f_mode f) (f_uid f) (f_gid f)).
Proof. intros Hf. exact (sink_loop_spec (length data) p data 0 s f Hf (Nat.le_refl _)). Qed.

Lemma open_trunc_spec p s :
  let '(fd, s') := sys_open_trunc E p s in
  touches p s s' /\ (fd = None \/ fd = Some p /\ exists f, files s' !! p = Some f /\ f_data f = []).
Proof.
  unfold sys_open_trunc, answer. cbv zeta iota. destruct (_ <? 0); [by split; [apply touches_tock, touches_refl | left] |].
  split; [apply touches_tock, touches_set_files; intros q Hq; by rewrite lookup_insert_ne |]. right. split; [done |].
  cbn [files tock set_files]. rewrite lookup_insert_eq. destruct (files s !! p); by eexists.
Qed.

Lemma chmod_spec p m s :
  let '(r, s') := sys_chmod E p m s in
  touches p s s' /\ f_data <$> files s' !! p = f_data <$> files s !! p.
Proof.
  unfold sys_chmod, answer. cbv zeta iota. cbn [files tock].
  destruct (if _ <? 0 then None else files s !! p) as [f |] eqn:Ef; [| by split; [apply touches_tock, touches_refl |]].
  assert (files s !! p = Some f) as Hf by (by destruct (_ <? 0)).
  split; [apply touches_tock, touches_set_files; intros q Hq; by rewrite lookup_insert_ne |].
  cbn [files set_files tock]. by rewrite lookup_insert_eq, Hf.
Qed.

Lemma chown_spec p u g s :
  let '(r, s') := sys_chown E p u g s in
  touches p s s' /\ f_data <$> files s' !! p = f_data <$> files s !! p.
Proof.
  unfold sys_chown, answer. cbv zeta iota. cbn [files tock].
  destruct (if _ <? 0 then None else files s !! p) as [f |] eqn:Ef; [| by split; [apply touches_tock, touches_refl |]].
  assert (files s !! p = Some f) as Hf by (by destruct (_ <? 0)).
  split; [apply touches_tock, touches_set_files; intros q Hq; by rewrite lookup_insert_ne |].
  cbn [files set_files tock]. by rewrite lookup_insert_eq, Hf.
Qed.

Lemma unlink_spec p s : touches p s (sys_unlink E p s).2.
Proof.
  unfold sys_unlink, answer. cbv zeta iota. destruct (if _ <? 0 then None else _); [| apply touches_tock, touches_refl].
  apply touches_tock, touches_set_files. intros q Hq. by rewrite lookup_delete_ne.
Qed.

(** Saving touches one file, and on success that file has the contents. *)
Lemma SaveFileContents_spec p file s data :
  fc_data file = Some data -> fc_size file = zlen data ->
  let '(r, s') := SaveFileContents E p file s in
  touches p s s' /\ (r = 0 \/ r = -1) /\ (r = 0 -> exists f, files s' !! p = Some f /\ f_data f = data).
Proof.
  intros Hd Hsz. unfold SaveFileContents. pose proof (open_trunc_spec p s) as Ho.
  destruct (sys_open_trunc E p s) as [fd s1]. destruct Ho as [T1 [-> | (-> & f & Hf & Hnil)]]; [by split_and!; auto |].
  unfold sink_contents. rewrite Hd. pose proof (FileSink_spec p data s1 f Hf) as Hs.
  destruct (FileSink E p data s1) as [k s2]. destruct Hs as (T2 & w & rest & Hw & -> & Hf2). rewrite Hsz, Hnil in *. cbn [app] in Hf2.
  assert (touches p s s2) as T12 by (by eapply touches_trans).
  destruct (Z.eqb_spec (zlen w) (zlen data)) as [Hl | Hl]; cbn [negb]; [| by split_and!; auto].
  assert (w = data) as Ew by (rewrite Hw in Hl |- *; destruct rest; [by rewrite app_nil_r | zlia]).
  pose proof (chmod_spec p (fc_mode file) s2) as Hc. destruct (sys_chmod E p (fc_mode file) s2) as [r1 s3]. destruct Hc as [T3 D3].
  assert (touches p s s3) by (by eapply touches_trans).
  destruct (r1 =? 0); cbn [negb]; [| by split_and!; auto].
  pose proof (chown_spec p (fc_uid file) (fc_gid file) s3) as Hc.
  destruct (sys_chown E p (fc_uid file) (fc_gid file) s3) as [r2 s4]. destruct Hc as [T4 D4].
  assert (touches p s s4) by (by eapply touches_trans).
  destruct (r2 =? 0); cbn [negb]; [| by split_and!; auto]. split; [done |]. split; [by left |]. intros _.
  rewrite D3, Hf2 in D4. simpl in D4. destruct (files s4 !! p) as [f4 |]; [| done]. exists f4. split; [done |].
  injection D4 as ->. done.
Qed.
End Frames.

(** ** Masking keeps the length *)

Lemma retouch_loop_length n m b_offs r_offs p_offs b_ptr st desired cand set mm m' r :
  retouch_loop n m b_offs r_offs p_offs b_ptr st desired cand set mm = Val (m', r) -> zlen m' = zlen m.
Proof.
  revert m b_ptr st cand set mm. induction n as [| n IH]; intros m b_ptr st cand set mm; cbn [retouch_loop];
    (destruct (negb (b_ptr <? r_offs)); [by intros [= <- _] |]); [done |].
  intros Hr. apply bind_Val_inv in Hr as ([[[off orig] p'] st'] & _ & Hr). destruct (_ || _); [by injection Hr as <- _ |].
  apply bind_Val_inv in Hr as (m1 & Hm1 & Hr). apply bind_Val_inv in Hr as (word & _ & Hr).
  assert (zlen m1 = zlen m) as El.
  { destruct desired as [d |]; [| by injection Hm1 as <-]. unfold store32, store_bytes in Hm1.
    destruct (Z.leb_spec 0 (if off =? -1 then p_offs else off)); [| done].
    destruct (Z.leb_spec ((if off =? -1 then p_offs else off) + zlen (le_bytes 4 (u32 (orig + d)))) (zlen m)); [| done].
    apply Val_inj in Hm1 as <-. by apply zlen_store_bytes. }
  rewrite <- El. destruct (negb set); by eapply IH.
Qed.

Lemma mask_length m n desired r m' o : retouch_mask_data m n desired = Val (r, m', o) -> zlen m' = zlen m.
Proof.
  unfold retouch_mask_data. intros Hr. destruct (_ <? 0); [by injection Hr as _ <- _ |].
  apply bind_Val_inv in Hr as (c1 & _ & Hr). apply bind_Val_inv in Hr as (c2 & _ & Hr).
  destruct (negb (c2 =? 0)); [by injection Hr as _ <- _ |]. apply bind_Val_inv in Hr as (bs & _ & Hr).
  destruct (_ <? 0); [by injection Hr as _ <- _ |]. apply bind_Val_inv in Hr as ([m1 res] & Hl & Hr).
  apply retouch_loop_length in Hl. destruct res as [| bp cand mm]; [by injection Hr as _ <- _ |].
  destruct (_ <? bp); [by injection Hr as _ <- _ |]. destruct mm; by injection Hr as _ <- _.
Qed.

(** ** What has to survive *)

(** [data] with its retouching masked is [m]. *)
Definition masks (data m : block) : Prop :=
  exists o, retouch_mask_data data (i32 (zlen data)) (Some 0) = Val (RETOUCH_DATA_MATCHED, m, o).

Section Loading.
Context `{Arch} `{mtd_api} (E : env) (sha1 : block -> block).

Lemma load_file p file s r file' s' : is_partition p = false ->
  LoadFileContents E sha1 p file true s = Val (r, file', s') ->
  quiet s s' /\
  ((r = 0 /\ exists f m, files s !! p = Some f /\ masks (f_data f) m /\
      file' = mkContents (sha1 m) (Some m) (zlen (f_data f)) (f_mode f) (f_uid f) (f_gid f)) \/
   (r = -1 /\ fc_data file' = None)).
Proof.
  intros Hp. unfold LoadFileContents. rewrite Hp. unfold sys_stat, sys_fopen, sys_fread, answer. cbv zeta iota. cbn [files tock].
  destruct (if _ <? 0 then None else files s !! p) as [st |] eqn:Est; [| by intros [= <- <- <-]; split; [| right]].
  assert (files s !! p = Some st) as Hst by (by destruct (_ <? 0)).
  destruct (if e_answer E (tick (tock s)) <? 0 then None else f_data <$> files s !! p) as [contents |] eqn:Ec;
    [| by intros [= <- <- <-]; split; [| right]].
  assert (contents = f_data st) as -> by (rewrite Hst in Ec; destruct (e_answer E (tick (tock s)) <? 0); cbn in Ec; congruence).
  set (data := if _ <? 0 then [] else _).
  destruct (Z.eqb_spec (zlen data) (zlen (f_data st))) as [El | El]; cbn [negb]; [| by intros [= <- <- <-]; split; [| right]].
  assert (data = f_data st) as Ed.
  { revert El. unfold data. destruct (e_answer E (tick (tock (tock s))) <? 0).
    - destruct (f_data st) as [| b l]; [done |]. intros El. zlia.
    - intros _. apply take_ge. unfold zlen. lia. }
  rewrite Ed. intros Hr. apply bind_Val_inv in Hr as ([rr m] & Hm & Hr).
  apply bind_Val_inv in Hm as ([[rr' m'] o] & Hm & Hmm). apply Val_inj in Hmm as [= -> ->].
  destruct (Z.eqb_spec rr RETOUCH_DATA_MATCHED) as [-> |]; cbn [negb] in Hr; injection Hr as <- <- <-;
    (split; [done |]); [| by right].
  left. split; [done |]. exists st, m. split_and!; [done | by exists o | done].
Qed.
End Loading.

Section Safety.
Context `{Arch} `{mtd_api} (E : env) (bz : bzlib) (fuel rounds : nat) (malloc : Z -> option block) (z : zlib).
Context (sha1 : block -> block) (uninit : FileContents).
Variables (source target : path) (patch_sha1_str : list block) (target_sha1 : block).

(** Contents a listed patch can be applied to. *)
Definition usable (data : block) : Prop :=
  exists m, masks data m /\ 0 <= FindMatchingPatch (sha1 m) patch_sha1_str.

(** Contents with the target's digest. *)
Definition installed (data : block) : Prop :=
  sha1 data = target_sha1 \/ exists m, masks data m /\ sha1 m = target_sha1.

Definition holds (p : path) (P : block -> Prop) (d : disk) : Prop := exists f, d.1 !! p = Some f /\ P (f_data f).

(** A usable source, in its place or saved. *)
Definition held (d : disk) : Prop := holds source usable d \/ holds CACHE_TEMP_SOURCE usable d.
Definition recoverable (d : disk) : Prop := held d \/ holds target installed d.

(** Names that have to be different, and a source that making room leaves alone. *)
Hypothesis Hsource : is_partition source = false.
Hypothesis Htarget : is_partition target = false.
Hypothesis Hsc : source <> CACHE_TEMP_SOURCE.
Hypothesis Htc : target <> CACHE_TEMP_SOURCE.
Hypothesis Hso : source <> outname_of target.
Hypothesis Hprot : protected source.

Lemma cache_not_partition : is_partition CACHE_TEMP_SOURCE = false.
Proof. done. Qed.

Lemma outname_not_cache : outname_of target <> CACHE_TEMP_SOURCE.
Proof.
  unfold outname_of. intros Ho. apply (f_equal reverse) in Ho. rewrite reverse_app in Ho. done.
Qed.

Lemma outname_not_target : outname_of target <> target.
Proof. unfold outname_of. intros Ho. apply (f_equal length) in Ho. rewrite length_app in Ho. simpl in Ho. lia. Qed.

Lemma holds_frame p q P s d : p <> q -> holds p P (now s) -> frame q s d -> holds p P d.
Proof. intros Hpq (f & Hf & HP) [_ Hfr]. exists f. split; [by rewrite Hfr | done]. Qed.

Lemma held_frame s d : held (now s) -> frame (outname_of target) s d -> held d.
Proof.
  intros [Hh | Hh] Hf; [left | right]; (eapply holds_frame; [| exact Hh | exact Hf]).
  - done.
  - intros Hq. by apply outname_not_cache.
Qed.

Lemma holds_quiet p P s s' : quiet s s' -> holds p P (now s) -> holds p P (now s').
Proof. intros (Q1 & _) (f & Hf & HP). exists f. split; [| done]. simpl in *. by rewrite Q1. Qed.

(** *** The source's own contents *)

Variable source_file : FileContents.

(** [source_file] was loaded from the source, which is as it was then. *)
Definition source_loaded (d : disk) : Prop :=
  exists f m, d.1 !! source = Some f /\ masks (f_data f) m /\ masks m m /\ fc_data source_file = Some m /\
    fc_size source_file = zlen m /\ 0 <= FindMatchingPatch (sha1 m) patch_sha1_str.

Lemma source_loaded_held d : source_loaded d -> held d.
Proof. intros (f & m & Hf & Hm & _ & _ & _ & Hu). left. exists f. split; [done |]. by exists m. Qed.

(** The state in which a round starts: the source, or the saved copy, is to be used. *)
Definition entering (have : bool) (d : disk) : Prop :=
  if have then source_loaded d else holds CACHE_TEMP_SOURCE usable d.

Lemma entering_held have d : entering have d -> held d.
Proof. destruct have; [apply source_loaded_held | by right]. Qed.

Lemma quiet_now s s' : quiet s s' -> now s' = now s.
Proof. intros (Q1 & Q2 & _). unfold now. congruence. Qed.

Lemma free_quiet s : quiet s (FreeSpaceForFile E s).2.
Proof. pose proof (FreeSpaceForFile_spec E s) as Hf. destruct (FreeSpaceForFile E s). by destruct Hf as [-> _]. Qed.

(** Saving the source and then deleting it. *)
Lemma save_and_unlink need s : source_loaded (now s) ->
  let '(r, s1) := MakeFreeSpaceOnCache E need s in
  evolves held s s1 /\ held (now s1) /\
  (let '(r, s2) := SaveFileContents E CACHE_TEMP_SOURCE source_file s1 in
   evolves held s1 s2 /\ held (now s2) /\
   (~ r < 0 -> let s3 := (sys_unlink E source s2).2 in evolves held s2 s3 /\ held (now s3))).
Proof.
  intros Hsl. pose proof (make_free_space E need s) as Hm. destruct (MakeFreeSpaceOnCache E need s) as [r s1].
  destruct Hm as (He & _ & _ & _). pose proof Hsl as (f & m & Hf & Hfm & Hmm & Hd & Hz & Hu).
  assert (forall d, kept s d -> source_loaded d) as Hk.
  { intros d [_ Hp]. exists f, m. split_and!; try done. by rewrite Hp. }
  assert (source_loaded (now s1)) as Hsl1 by (apply (evolves_now _ s); [done |]; by eapply evolves_mono).
  split; [eapply evolves_mono; [exact He |]; intros d Hd'; by apply source_loaded_held, Hk |].
  split; [by apply source_loaded_held |].
  pose proof (SaveFileContents_spec E CACHE_TEMP_SOURCE source_file s1 m Hd Hz) as Hs.
  destruct (SaveFileContents E CACHE_TEMP_SOURCE source_file s1) as [r2 s2]. destruct Hs as (T & Hr & Hok).
  assert (holds source usable (now s1)) as Hs1.
  { destruct Hsl1 as (f1 & m1 & Hf1 & Hfm1 & _ & _ & _ & Hu1). exists f1. split; [done |]. by exists m1. }
  assert (forall d, frame CACHE_TEMP_SOURCE s1 d -> held d) as Hfr
    by (intros d Hd'; left; eapply holds_frame; [exact Hsc | exact Hs1 | exact Hd']).
  split; [by eapply evolves_mono |]. split; [by apply Hfr, touches_now |].
  intros Hnn. assert (r2 = 0) as -> by lia. destruct (Hok eq_refl) as (fc & Hfc & Hfd).
  assert (holds CACHE_TEMP_SOURCE usable (now s2)) as Hc2.
  { exists fc. split; [done |]. rewrite Hfd. by exists m. }
  pose proof (unlink_spec E source s2) as Tu. set (s3 := (sys_unlink E source s2).2) in *. cbv zeta.
  assert (forall d, frame source s2 d -> held d) as Hfr2
    by (intros d Hd'; right; eapply holds_frame; [| exact Hc2 | exact Hd']; by apply not_eq_sym).
  split; [by eapply evolves_mono | by apply Hfr2, touches_now].
Qed.

Lemma prepare_spec have target_size retry mc s : entering have (now s) -> 0 <= retry ->
  let '(go, retry', mc', s') := prepare E source_file have source target target_size retry mc s in
  evolves held s s' /\ held (now s') /\ (retry' = 0 \/ retry' = retry /\ mc' = mc /\ quiet s s').
Proof.
  intros He Hr. pose proof (entering_held _ _ He) as Hh. unfold prepare. rewrite Htarget.
  assert (exists enough s1, (if 0 <? retry then let '(free_space, s) := FreeSpaceForFile E s in
      ((262144 <? free_space) && (wrapu word_bits (target_size * 3) / 2 <? free_space), s) else (false, s)) = (enough, s1) /\
      quiet s s1) as (enough & s1 & -> & Hq).
  { destruct (0 <? retry); [| by do 2 eexists]. pose proof (free_quiet s). destruct (FreeSpaceForFile E s). by do 2 eexists. }
  assert (evolves held s s1) as Hev by (by apply quiet_evolves).
  rewrite <- (quiet_now _ _ Hq) in Hh, He.
  destruct enough; cbn [negb andb].
  { split_and!; [done | done | by right]. }
  destruct have; [| split_and!; [done | done | by left]]. rewrite Hsource.
  pose proof (save_and_unlink (wrapu word_bits (fc_size source_file)) s1 He) as Hsu.
  destruct (MakeFreeSpaceOnCache E (wrapu word_bits (fc_size source_file)) s1) as [r1 s2]. destruct Hsu as (E1 & K1 & Hsu).
  assert (evolves held s s2) as Hev2 by (by eapply evolves_trans).
  destruct (Z.ltb_spec r1 0); [split_and!; [done | done | by left] |].
  destruct (SaveFileContents E CACHE_TEMP_SOURCE source_file s2) as [r2 s3]. destruct Hsu as (E2 & K2 & Hsu).
  assert (evolves held s s3) as Hev3 by (by eapply evolves_trans).
  destruct (Z.ltb_spec r2 0); [split_and!; [done | done | by left] |].
  destruct Hsu as [E3 K3]; [lia |]. destruct (sys_unlink E source s3) as [r3 s4]. simpl in E3, K3.
  pose proof (free_quiet s4) as Hq4. destruct (FreeSpaceForFile E s4) as [fs s5]. simpl in Hq4.
  split_and!; [| by rewrite (quiet_now _ _ Hq4) | by left].
  eapply evolves_trans; [exact Hev3 |]. eapply evolves_trans; [exact E3 |]. by apply quiet_evolves.
Qed.

(** *** Producing the new file *)

Lemma bsdiff_result {S} source_data patch (sink : block -> S -> Z * S) token r token' ctx :
  ApplyBSDiffPatch bz fuel malloc rounds source_data patch (zlen patch) 0 sink token app (Some []) = Val (r, token', ctx) ->
  (token' = token /\ r <> 0) \/
  exists new, token' = (sink new token).2 /\ (r = 0 -> ctx = Some new /\ zlen new <= (sink new token).1).
Proof.
  unfold ApplyBSDiffPatch. intros Hr. apply bind_Val_inv in Hr as ([r0 new] & _ & Hr).
  destruct (r0 =? 0); cbn [negb] in Hr; [| injection Hr as <- <- <-; left; by split].
  destruct new as [new |]; [| done]. right. exists new. destruct (sink new token) as [k t].
  destruct (Z.ltb_spec k (zlen new)); injection Hr as <- <- <-; (split; [done |]); [done |]. by intros _.
Qed.

Lemma produce_spec source_data patch target_size bonus s p s' :
  take 8 patch <> str "IMGDIFF2" ->
  produce E bz fuel rounds malloc z source_data patch target target_size bonus s = Val (p, s') ->
  touches (outname_of target) s s' /\
  match p with
  | Some (r, ctx, out) => out = ToFile (outname_of target) /\
      (r = 0 -> exists f, files s' !! outname_of target = Some f /\ f_data f = ctx)
  | None => True
  end.
Proof.
  intros Himg. unfold produce. rewrite Htarget. set (o := outname_of target).
  pose proof (open_trunc_spec E o s) as Ho. destruct (sys_open_trunc E o s) as [fd s1].
  destruct Ho as [T1 [-> | (-> & f & Hf & Hnil)]]; [by intros [= <- <-] |].
  intros Hr. apply bind_Val_inv in Hr as (res & Ha & Hr). unfold apply_any in Ha.
  rewrite (bool_decide_false (take 8 patch = str "IMGDIFF2")) in Ha by done. rewrite andb_false_r in Ha.
  destruct (_ && _); [| injection Ha as <-; by injection Hr as <- <-].
  apply bind_Val_inv in Ha as ([[r token] ctx] & Hb & Ha). injection Ha as <-. injection Hr as <- <-.
  apply bsdiff_result in Hb as [[-> Hne] | (new & -> & Hok)]; [by split |].
  pose proof (FileSink_spec E o new s1 f Hf) as Hs. destruct (FileSink E o new s1) as [k s2].
  destruct Hs as (T2 & w & rest & Hw & -> & Hf2). simpl in *. split; [by eapply touches_trans |]. split; [done |].
  intros ->. destruct (Hok eq_refl) as [-> Hl]. rewrite Hf2. eexists. split; [done |]. simpl. rewrite Hnil. simpl.
  rewrite Hw in Hl |- *. destruct rest; [by rewrite app_nil_r | zlia].
Qed.

Lemma entering_frame have s d : entering have (now s) -> frame (outname_of target) s d -> entering have d.
Proof.
  destruct have; simpl; intros He Hf.
  - destruct He as (f & m & Hsrc & Hrest). exists f, m. split; [| done]. destruct Hf as [_ Hf]. by rewrite Hf.
  - eapply holds_frame; [| exact He | exact Hf]. intros Hq. by apply outname_not_cache.
Qed.

Definition produced (g : generated) (s : sys) : Prop :=
  match g with
  | Generated ctx out => out = ToFile (outname_of target) /\ exists f, files s !! outname_of target = Some f /\ f_data f = ctx
  | NotGenerated => True
  end.

Lemma generate_loop_spec n use have patch target_size bonus retry mc s g mc' s' :
  entering have (now s) -> 0 <= retry ->
  match patch with ValBlob d => take 8 d <> str "IMGDIFF2" | _ => True end ->
  generate_loop E bz fuel rounds malloc z n source_file use have patch source target target_size bonus retry mc s =
    Val (g, mc', s') ->
  evolves held s s' /\ held (now s') /\ produced g s'.
Proof.
  intros He Hr Hp. revert retry mc s He Hr. induction n as [| n IH]; intros retry mc s He Hr; cbn [generate_loop]; [done |].
  pose proof (prepare_spec have target_size retry mc s He Hr) as Hpr.
  destruct (prepare E source_file have source target target_size retry mc s) as [[[go retry'] mc1] s1].
  destruct Hpr as (E1 & K1 & Hq). destruct go; cbn [negb]; [| by intros [= <- <- <-]].
  destruct (Z.eqb_spec (val_type patch) 2) as [Hv |]; cbn [negb]; [| by intros [= <- <- <-]].
  assert (take 8 (blob_data patch) <> str "IMGDIFF2") as Hp' by (by destruct patch).
  destruct (fc_data use) as [src |]; [| done].
  intros Hg. apply bind_Val_inv in Hg as ([p s2] & Hprod & Hg). apply produce_spec in Hprod as [T Hout]; [| done].
  assert (forall d, frame (outname_of target) s1 d -> held d) as Hfr by (intros d; by apply held_frame).
  assert (evolves held s s2) as E2 by (eapply evolves_trans; [exact E1 |]; by eapply evolves_mono).
  assert (held (now s2)) as K2 by (by apply Hfr, touches_now).
  destruct p as [[[r ctx] out] |]; [| by injection Hg as <- <- <-]. destruct Hout as [-> Hok].
  destruct (Z.eqb_spec r 0) as [-> |].
  { injection Hg as <- <- <-. split; [done |]. split; [done |]. split; [done | by apply Hok]. }
  destruct (Z.eqb_spec retry' 0); [by injection Hg as <- <- <- |].
  destruct Hq as [? | (-> & -> & Hq)]; [done |].
  pose proof (unlink_spec E (outname_of target) s2) as Tu. set (s3 := (sys_unlink E (outname_of target) s2).2) in *.
  assert (touches (outname_of target) s1 s3) as T3 by (by eapply touches_trans).
  rewrite (proj2 (Z.ltb_lt 0 retry)) in Hg by lia.
  apply IH in Hg as (E4 & K4 & P4); [| | lia].
  - split_and!; [| done | done]. eapply evolves_trans; [exact E1 |]. eapply evolves_trans; [| exact E4].
    by eapply evolves_mono.
  - apply (entering_frame _ s1); [by rewrite (quiet_now _ _ Hq) | by apply touches_now].
Qed.

(** *** Putting it in place *)

Lemma rename_spec p q s f : files s !! p = Some f -> p <> q ->
  let '(r, s') := sys_rename E p q s in
  (r = 0 /\ s' = set_files (<[q := f]> (delete p (files s))) (tock s)) \/ (r = -1 /\ s' = tock s).
Proof.
  intros Hf Hpq. unfold sys_rename, answer. cbv zeta iota. cbn [files tock]. rewrite Hf.
  destruct (_ <? 0); [by right | by left].
Qed.

Lemma install_spec use ctx s r s' f :
  held (now s) -> files s !! outname_of target = Some f -> f_data f = ctx -> sha1 ctx = target_sha1 ->
  install E fuel use target (ToFile (outname_of target)) s = Val (r, s') ->
  evolves recoverable s s' /\ (r = 0 -> holds target installed (now s')).
Proof.
  intros Hh Hf Hd Hsha. unfold install. set (o := outname_of target) in *.
  pose proof (chmod_spec E o (fc_mode use) s) as Hc. destruct (sys_chmod E o (fc_mode use) s) as [r1 s1]. destruct Hc as [T1 D1].
  assert (forall d, frame o s d -> recoverable d) as Hfr by (intros d Hd'; left; by eapply held_frame).
  destruct (r1 =? 0); cbn [negb]; [| intros [= <- <-]; split; [by eapply evolves_mono | done]].
  pose proof (chown_spec E o (fc_uid use) (fc_gid use) s1) as Hc.
  destruct (sys_chown E o (fc_uid use) (fc_gid use) s1) as [r2 s2]. destruct Hc as [T2 D2].
  assert (touches o s s2) as T by (by eapply touches_trans).
  destruct (r2 =? 0); cbn [negb]; [| intros [= <- <-]; split; [by eapply evolves_mono | done]].
  rewrite D1, Hf in D2. cbn in D2. destruct (files s2 !! o) as [f2 |] eqn:Hf2; [| done]. injection D2 as D2.
  pose proof (rename_spec o target s2 f2 Hf2 outname_not_target) as Hrn.
  destruct (sys_rename E o target s2) as [r3 s3]. intros [= <- <-].
  destruct Hrn as [[-> ->] | [-> ->]]; cbn [negb Z.eqb].
  - assert (holds target installed (<[target := f2]> (delete o (files s2)), disks s2)) as Hin.
    { exists f2. split; [simpl; by rewrite lookup_insert_eq |]. left. congruence. }
    split; [| done]. eapply evolves_trans; [by eapply evolves_mono |]. apply evolves_tock, evolves_set_files. by right.
  - split; [| done]. by eapply evolves_mono.
Qed.

Lemma GenerateTarget_spec spv copy cpv target_size bonus s r s' :
  entering (bool_decide (is_Some spv)) (now s) ->
  (forall v, spv = Some v \/ cpv = Some v -> match v with ValBlob d => take 8 d <> str "IMGDIFF2" | _ => True end) ->
  GenerateTarget E bz fuel rounds malloc z sha1 source_file spv copy cpv source target target_sha1 target_size bonus s = Val (r, s') ->
  evolves recoverable s s' /\ (r = 0 -> holds target installed (now s')).
Proof.
  intros He Hv. unfold GenerateTarget.
  assert (exists use patch have, (match spv with Some v => (source_file, Some v, true) | None => (copy, cpv, false) end) = (use, patch, have) /\
    have = bool_decide (is_Some spv) /\
    (forall v, patch = Some v -> match v with ValBlob d => take 8 d <> str "IMGDIFF2" | _ => True end))
    as (use & patch & have & -> & Hhave & Hv').
  { destruct spv as [v |].
    - exists source_file, (Some v), true. split_and!; [done | by rewrite bool_decide_true by eauto |]. intros v' Hv'. apply Hv. by left.
    - exists copy, cpv, false. split_and!; [done | by rewrite bool_decide_false by (by intros []) |]. intros v' Hv'. apply Hv. by right. }
  destruct patch as [patch |]; [| done]. intros Hg. apply bind_Val_inv in Hg as ([[g mc] s1] & Hl & Hg).
  apply generate_loop_spec in Hl as (E1 & K1 & P1); [| by rewrite Hhave | lia | by apply Hv'].
  assert (evolves recoverable s s1) as E1' by (eapply evolves_mono; [exact E1 | by left]).
  destruct g as [ctx out |]; [| injection Hg as <- <-; by split].
  destruct P1 as [-> (f & Hf & Hd)].
  case_bool_decide as Hsha; cbn [negb] in Hg; [| injection Hg as <- <-; by split].
  apply bind_Val_inv in Hg as ([r2 s2] & Hi & Hg). eapply install_spec in Hi as [E2 K2]; try done.
  assert (evolves recoverable s s2) as E2' by (by eapply evolves_trans).
  destruct (Z.eqb_spec r2 0) as [-> |]; cbn [negb] in Hg; [| injection Hg as <- <-; by split].
  specialize (K2 eq_refl). injection Hg as <- <-. destruct mc; [| by split].
  pose proof (unlink_spec E CACHE_TEMP_SOURCE s2) as Tu. set (s3 := (sys_unlink E CACHE_TEMP_SOURCE s2).2) in *.
  assert (forall d, frame CACHE_TEMP_SOURCE s2 d -> holds target installed d) as Hfr by (intros d; by apply holds_frame).
  split; [| intros _; by apply Hfr, touches_now].
  eapply evolves_trans; [exact E2' |]. eapply evolves_mono; [exact Tu |]. intros d Hd'. right. by apply Hfr.
Qed.
End Safety.

(** ** The whole program *)

(** A patch that is not an image patch. *)
Definition not_image (v : Value) : Prop :=
  match v with ValBlob d => take 8 d <> str "IMGDIFF2" | _ => True end.

Lemma choose_patch_some file strs pd v : choose_patch file strs pd = Val (Some v) ->
  0 <= FindMatchingPatch (fc_sha1 file) strs /\ v ∈ pd.
Proof.
  unfold choose_patch. destruct (Z.leb_spec 0 (FindMatchingPatch (fc_sha1 file) strs)); [| done].
  intros Hc. apply bind_Val_inv in Hc as (v' & Hl & Hc). injection Hc as ->. split; [done |].
  apply load_Val in Hl as [_ Hl]. by apply list_elem_of_lookup_2 in Hl.
Qed.

Section Program.
Context `{Arch} `{mtd_api} (E : env) (bz : bzlib) (fuel rounds : nat) (malloc : Z -> option block) (z : zlib).
Context (sha1 : block -> block) (uninit : FileContents).
Variables (source target_arg : path) (target_sha1 : block) (strs : list block) (pd : list Value).

Definition target_of : path := if bool_decide (target_arg = str "-") then source else target_arg.

(** The assumptions on the names, and that masking the source twice is masking it once
    (as it is for files without retouch entries and for well-formed ones). *)
Record patch_setup (s : sys) : Prop := {
  ps_source : is_partition source = false;
  ps_target : is_partition target_of = false;
  ps_sc : source <> CACHE_TEMP_SOURCE;
  ps_tc : target_of <> CACHE_TEMP_SOURCE;
  ps_so : source <> outname_of target_of;
  ps_prot : protected source;
  ps_mask : forall f m, files s !! source = Some f -> masks (f_data f) m -> masks m m;
  ps_patches : Forall not_image pd
}.

Abbreviation Recoverable := (recoverable sha1 source target_of strs target_sha1).
Abbreviation Installed := (installed sha1 target_sha1).

(** What a variable that holds the source's contents looks like. *)
Definition loaded_from (p : path) (s : sys) (file : FileContents) : Prop :=
  exists f m, files s !! p = Some f /\ masks (f_data f) m /\
    file = mkContents (sha1 m) (Some m) (zlen (f_data f)) (f_mode f) (f_uid f) (f_gid f).

(** Loading the source, unless the target is the source and was loaded. *)
Lemma load_source f0 s s0 sf s1 :
  is_partition source = false -> quiet s s0 -> loaded_from target_of s f0 \/ fc_data f0 = None ->
  (if bool_decide (fc_data f0 = None) || negb (bool_decide (target_of = source)) then
     let* (_, source_file, s) := LoadFileContents E sha1 source (no_data f0) true s0 in Val (source_file, s)
   else Val (f0, s0)) = Val (sf, s1) ->
  quiet s s1 /\ (loaded_from source s sf \/ fc_data sf = None).
Proof.
  intros Hp Q0 Hf0 Hl. case_bool_decide as Hn; cbn [orb] in Hl.
  2: case_bool_decide as Ht; cbn [negb] in Hl.
  2: { injection Hl as <- <-. split; [done |]. by rewrite Ht in Hf0. }
  all: apply bind_Val_inv in Hl as ([[r1 f1] s2] & Hl1 & Hl); injection Hl as <- <-; apply load_file in Hl1 as [Q2 Hl1]; [| done].
  all: split; [by eapply quiet_trans |].
  all: destruct Hl1 as [(_ & f & m & Hf & Hm & Hmk) | [_ Hn']]; [left; exists f, m; by rewrite <- (proj1 Q0) | by right].
Qed.

Lemma use_source sf v target_size bonus s0 s r s' :
  patch_setup s0 -> quiet s0 s -> loaded_from source s0 sf -> 0 <= FindMatchingPatch (fc_sha1 sf) strs -> v ∈ pd ->
  GenerateTarget E bz fuel rounds malloc z sha1 sf (Some v) (no_data uninit) None source target_of target_sha1 target_size bonus s =
    Val (r, s') ->
  evolves Recoverable s s' /\ (r = 0 -> holds target_of Installed (now s')).
Proof.
  intros [P1 P2 P3 P4 P5 P6 P7 P8] Q (f & m & Hf & Hm & ->) Hfind Hv. rewrite Forall_forall in P8.
  apply GenerateTarget_spec with (patch_sha1_str := strs); try done.
  - rewrite bool_decide_true by eauto. exists f, m. rewrite (quiet_now _ _ Q). simpl in *. split_and!; try done.
    + by eapply P7.
    + destruct Hm as [o Hm]. apply mask_length in Hm. done.
  - intros v' [[= ->] | ?]; [by apply P8 | done].
Qed.

Lemma use_copy sf cf v target_size bonus s0 s r s' :
  patch_setup s0 -> loaded_from CACHE_TEMP_SOURCE s cf -> 0 <= FindMatchingPatch (fc_sha1 cf) strs -> v ∈ pd ->
  GenerateTarget E bz fuel rounds malloc z sha1 sf None cf (Some v) source target_of target_sha1 target_size bonus s =
    Val (r, s') ->
  evolves Recoverable s s' /\ (r = 0 -> holds target_of Installed (now s')).
Proof.
  intros [P1 P2 P3 P4 P5 P6 P7 P8] (f & m & Hf & Hm & ->) Hfind Hv. rewrite Forall_forall in P8.
  apply GenerateTarget_spec with (patch_sha1_str := strs); try done.
  - rewrite bool_decide_false by (by intros []). exists f. split; [done |]. by exists m.
  - intros v' [? | [= ->]]; [done | by apply P8].
Qed.

Lemma applypatch_spec target_sha1_str target_size bonus s r s' :
  patch_setup s -> ParseSha1 target_sha1_str = Some target_sha1 ->
  applypatch E bz fuel rounds malloc z sha1 uninit source target_arg target_sha1_str target_size strs pd bonus s = Val (r, s') ->
  evolves Recoverable s s' /\ (r = 0 -> holds target_of Installed (now s')).
Proof.
  intros Hset Hsha. unfold applypatch. fold target_of. rewrite Hsha.
  intros Hr. apply bind_Val_inv in Hr as ([[r0 f0] s0] & Hl & Hr).
  apply load_file in Hl as [Q0 Hl]; [| apply Hset].
  destruct ((r0 =? 0) && bool_decide (fc_sha1 f0 = target_sha1)) eqn:Eb.
  { apply andb_true_iff in Eb as [Er Ed]. apply Z.eqb_eq in Er. apply bool_decide_eq_true in Ed. injection Hr as <- <-.
    split; [by apply quiet_evolves |]. intros _. destruct Hl as [(_ & f & m & Hf & Hm & ->) | [? _]]; [| lia].
    exists f. split; [by rewrite (quiet_now _ _ Q0) |]. right. by exists m. }
  clear Eb. apply bind_Val_inv in Hr as ([sf s1] & Hsf & Hr).
  apply (load_source f0 s s0) in Hsf as [Q1 Hsf]; [| apply Hset | done |].
  2: { destruct Hl as [[_ Hl] | [_ Hn]]; [by left | by right]. }
  assert (evolves Recoverable s s1) as Ev by (by apply quiet_evolves).
  apply bind_Val_inv in Hr as (spv & Hspv & Hr). destruct spv as [v |].
  { destruct Hsf as [Hsf | Hn]; [| by rewrite Hn in Hspv].
    assert (choose_patch sf strs pd = Val (Some v)) as Hc by (destruct Hsf as (f & m & _ & _ & ->); done).
    apply choose_patch_some in Hc as [Hfind Hin].
    apply (use_source sf v target_size bonus s s1) in Hr as [E2 K2]; try done. split; [by eapply evolves_trans | done]. }
  apply bind_Val_inv in Hr as ([[r2 cf] s2] & Hl2 & Hr). apply load_file in Hl2 as [Q2 Hl2]; [| done].
  assert (evolves Recoverable s s2) as Ev2 by (eapply evolves_trans; [exact Ev | by apply quiet_evolves]).
  destruct (Z.ltb_spec r2 0); [injection Hr as <- <-; by split |].
  destruct Hl2 as [(-> & f & m & Hf & Hm & Hcf) | [-> _]]; [| lia].
  apply bind_Val_inv in Hr as (cpv & Hcpv & Hr). destruct cpv as [v |]; [| injection Hr as <- <-; by split].
  apply choose_patch_some in Hcpv as [Hfind Hin].
  apply (use_copy _ cf v target_size bonus s s2) in Hr as [E2 K2]; try done; [split; [by eapply evolves_trans | done] |].
  exists f, m. split_and!; try done. by rewrite (proj1 Q2).
Qed.
End Program.

(** ** When nothing goes wrong *)

Section Calm.
Context `{Arch} `{mtd_api} (E : env) (bz : bzlib) (fuel rounds : nat) (malloc : Z -> option block) (z : zlib).
Context (sha1 : block -> block) (uninit : FileContents).
Variables (source target_arg : path) (target_sha1 : block) (strs : list block) (pd : list Value).
Hypothesis Hans : forall t, 262144 < e_answer E t < 2 ^ 31.
Variable target_size : Z.
Hypothesis Hroom : forall t, 0 <= target_size * 3 / 2 < e_answer E t.

Lemma not_neg t : e_answer E t <? 0 = false.
Proof. apply Z.ltb_ge. specialize (Hans t). lia. Qed.

(** Loading always returns, and succeeds on a file that can be masked. *)
Lemma load_total p file s : is_partition p = false ->
  (forall f, files s !! p = Some f -> zlen (f_data f) < 2 ^ 31) ->
  exists r file' s', LoadFileContents E sha1 p file true s = Val (r, file', s') /\
    (forall f m, files s !! p = Some f -> masks (f_data f) m -> r = 0).
Proof.
  intros Hp Hlen. unfold LoadFileContents. rewrite Hp. unfold sys_stat, sys_fopen, sys_fread, answer. cbv zeta iota.
  rewrite !not_neg. cbn [files tock]. destruct (files s !! p) as [st |]; [| by do 3 eexists].
  cbn [fmap option_fmap option_map]. specialize (Hlen st eq_refl).
  rewrite take_ge by (unfold zlen; lia). rewrite Z.eqb_refl. cbn [negb].
  destruct (wp_elim _ _ (mask_total (f_data st) (Some 0) Hlen)) as ([[r m] o] & Hm & _).
  pose proof (zlen_nonneg (f_data st)). rewrite wraps_id by lia. rewrite Hm. cbn [mbind outcome_bind].
  destruct (Z.eqb_spec r RETOUCH_DATA_MATCHED) as [-> | Hr]; cbn [negb]; (do 3 eexists; split; [done |]); [done |].
  intros f m' [= <-] [o' Hm']. rewrite wraps_id in Hm' by lia. congruence.
Qed.

Lemma sink_all n p data done s f : files s !! p = Some f -> (length data <= n)%nat ->
  exists s', sink_loop E n p data done s = (done + zlen data, s').
Proof.
  revert data done s f. induction n as [| n IH]; intros data done s f Hf Hn.
  { destruct data; [| simpl in Hn; lia]. exists s. simpl. f_equal. zlia. }
  destruct data as [| b data]; [exists s; simpl; f_equal; zlia |]. cbn [sink_loop].
  pose proof (write_spec E p (b :: data) s f Hf) as Hw.
  assert (0 < (sys_write E p (b :: data) s).1) as Hpos.
  { unfold sys_write, answer. cbv zeta iota. rewrite not_neg. simpl. specialize (Hans (tick s)). rewrite zlen_cons.
    pose proof (zlen_nonneg data). lia. }
  destruct (sys_write E p (b :: data) s) as [k s1]. simpl in Hpos. destruct Hw as (_ & Hk & Hf1).
  rewrite (proj2 (Z.leb_gt _ _)) by lia.
  destruct (IH (drop (Z.to_nat k) (b :: data)) (done + k) s1 _ Hf1) as (s' & ->).
  { rewrite length_drop. simpl in *. lia. }
  exists s'. f_equal. unfold zlen in *. rewrite length_drop. lia.
Qed.

(** A patch that turns [m] into a file with the target's digest. *)
Definition good_patch (m : block) (v : Value) : Prop :=
  exists patch new, v = ValBlob patch /\ 8 <= zlen patch /\ take 8 patch = str "BSDIFF40" /\
    ApplyBSDiffPatchMem bz fuel malloc rounds m patch (zlen patch) 0 = Val (0, Some new) /\ sha1 new = target_sha1.

Abbreviation target := (target_of source target_arg).

Lemma prepare_calm sf have mc s : is_partition target = false -> 0 <= target_size * 3 < 2 ^ 32 ->
  prepare E sf have source target target_size 1 mc s = (true, 1, mc, tock s).
Proof.
  intros Ht Hts. unfold prepare. rewrite Ht. cbn [Z.ltb Z.compare].
  unfold FreeSpaceForFile, sys_statfs, answer. cbv zeta iota. rewrite not_neg. cbv iota.
  pose proof (Hans (tick s)). pose proof (Hroom (tick s)). pose proof word_pos.
  rewrite !wrapu_id by lia. rewrite !(proj2 (Z.ltb_lt _ _)) by lia. done.
Qed.

Lemma produce_calm m patch new bonus s :
  is_partition target = false -> 8 <= zlen patch -> take 8 patch = str "BSDIFF40" ->
  ApplyBSDiffPatchMem bz fuel malloc rounds m patch (zlen patch) 0 = Val (0, Some new) ->
  exists s' f, produce E bz fuel rounds malloc z m patch target target_size bonus s =
    Val (Some (0, new, ToFile (outname_of target)), s') /\ files s' !! outname_of target = Some f.
Proof.
  intros Ht Hl8 Hmg Happ. unfold produce. rewrite Ht.
  pose proof (open_trunc_spec E (outname_of target) s) as Ho.
  assert ((sys_open_trunc E (outname_of target) s).1 = Some (outname_of target)) as Hfd.
  { unfold sys_open_trunc, answer. cbv zeta iota. by rewrite not_neg. }
  destruct (sys_open_trunc E (outname_of target) s) as [fd s1]. simpl in Hfd. subst fd.
  destruct Ho as [_ [? | (_ & f & Hf & Hnil)]]; [done |].
  unfold apply_any. rewrite (proj2 (Z.leb_le _ _)) by done. rewrite bool_decide_true by done. cbn [andb].
  unfold ApplyBSDiffPatch. rewrite Happ. cbn [mbind outcome_bind]. simpl negb. cbv iota.
  pose proof (FileSink_spec E (outname_of target) new s1 f Hf) as Hs.
  destruct (sink_all (length new) (outname_of target) new 0 s1 f Hf) as (s2 & E2); [lia |]. unfold FileSink in *. rewrite E2 in *.
  destruct Hs as (_ & w & rest & Hw & Hk & Hf2). rewrite Z.add_0_l, Z.ltb_irrefl.
  eexists s2, _. split; [done | exact Hf2].
Qed.

Lemma install_calm use s f : files s !! outname_of target = Some f ->
  exists s', install E fuel use target (ToFile (outname_of target)) s = Val (0, s').
Proof.
  intros Hf. unfold install, sys_chmod, sys_chown, sys_rename, answer. cbv zeta iota.
  rewrite !not_neg. cbn [files tock]. rewrite Hf. cbn [negb Z.eqb]. rewrite ?not_neg.
  cbn [files set_files tock]. rewrite lookup_insert_eq. cbn [negb Z.eqb]. rewrite ?not_neg. cbn [files set_files tock].
  rewrite lookup_insert_eq. cbn [negb Z.eqb]. by eexists.
Qed.

Lemma generate_loop_calm n sf use have m patch new bonus s :
  is_partition target = false -> 0 <= target_size * 3 < 2 ^ 32 -> fc_data use = Some m -> 8 <= zlen patch ->
  take 8 patch = str "BSDIFF40" -> ApplyBSDiffPatchMem bz fuel malloc rounds m patch (zlen patch) 0 = Val (0, Some new) ->
  exists s' f, generate_loop E bz fuel rounds malloc z (S n) sf use have (ValBlob patch) source target target_size bonus 1 false s =
    Val (Generated new (ToFile (outname_of target)), false, s') /\ files s' !! outname_of target = Some f.
Proof.
  intros Ht Hts Huse Hl8 Hmg Happ. cbn [generate_loop]. rewrite prepare_calm by done. cbn [negb val_type blob_data Z.eqb Pos.eqb]. rewrite Huse.
  destruct (produce_calm m patch new bonus (tock s)) as (s' & f & -> & Hf); try done.
  cbn [mbind outcome_bind Z.eqb]. by exists s', f.
Qed.

Lemma GenerateTarget_calm sf spv cf cpv m v s :
  is_partition target = false -> 0 <= target_size * 3 < 2 ^ 32 ->
  (spv = Some v /\ fc_data sf = Some m) \/ (spv = None /\ cpv = Some v /\ fc_data cf = Some m) -> good_patch m v ->
  forall bonus, exists s', GenerateTarget E bz fuel rounds malloc z sha1 sf spv cf cpv source target target_sha1 target_size bonus s =
    Val (0, s').
Proof.
  intros Ht Hts Hv (patch & new & -> & Hl8 & Hmg & Happ & Hsha) bonus. unfold GenerateTarget.
  assert (exists use have, (match spv with Some v => (sf, Some v, true) | None => (cf, cpv, false) end) = (use, Some (ValBlob patch), have) /\
    fc_data use = Some m) as (use & have & -> & Huse).
  { destruct Hv as [[-> Hd] | (-> & -> & Hd)]; by do 2 eexists. }
  destruct (generate_loop_calm 1 sf use have m patch new bonus s) as (s1 & f & -> & Hf); try done.
  cbn [mbind outcome_bind]. rewrite bool_decide_true by done. cbn [negb].
  destruct (install_calm use s1 f Hf) as (s2 & ->). cbn [mbind outcome_bind negb Z.eqb]. by eexists.
Qed.

(** Whatever listed patch matches is good for the contents at hand, and the files are of
    a size that can be masked. *)
Definition patches_good (s : sys) : Prop := forall p f, p = source \/ p = CACHE_TEMP_SOURCE \/ p = target ->
  files s !! p = Some f -> zlen (f_data f) < 2 ^ 31 /\
  forall m, masks (f_data f) m -> 0 <= FindMatchingPatch (sha1 m) strs ->
    exists v, load pd (FindMatchingPatch (sha1 m) strs) = Val v /\ good_patch m v.

(** The patch chosen for contents that were loaded. *)
Lemma choose_good p f m s : p = source \/ p = CACHE_TEMP_SOURCE \/ p = target -> patches_good s ->
  files s !! p = Some f -> masks (f_data f) m -> forall size mode uid gid,
  let file := mkContents (sha1 m) (Some m) size mode uid gid in
  (exists v, choose_patch file strs pd = Val (Some v) /\ good_patch m v) \/
  (choose_patch file strs pd = Val None /\ ~ 0 <= FindMatchingPatch (sha1 m) strs).
Proof.
  intros Hpp Hgood Hf Hm size mode uid gid. destruct (Hgood p f Hpp Hf) as [_ Hg]. unfold choose_patch. cbn [fc_sha1].
  destruct (Z.leb_spec 0 (FindMatchingPatch (sha1 m) strs)) as [Hi | Hi]; [| right; split; [done | lia]].
  destruct (Hg m Hm Hi) as (v & -> & Hv). left. by exists v.
Qed.

(** The source is loaded unless it cannot be used. *)
Lemma load_source_calm f0 s s0 :
  is_partition source = false -> quiet s s0 -> loaded_from sha1 target s f0 \/ fc_data f0 = None ->
  (forall f, files s !! source = Some f -> zlen (f_data f) < 2 ^ 31) ->
  exists sf s1, (if bool_decide (fc_data f0 = None) || negb (bool_decide (target = source)) then
      let* (_, source_file, s) := LoadFileContents E sha1 source (no_data f0) true s0 in Val (source_file, s)
    else Val (f0, s0)) = Val (sf, s1) /\ quiet s s1 /\
    (loaded_from sha1 source s sf \/ fc_data sf = None /\ ~ holds source (usable sha1 strs) (now s)).
Proof.
  intros Hp Q0 Hl0 Hsz. destruct (load_total source (no_data f0) s0 Hp) as (r1 & f1 & s1 & El1 & Hok1).
  { intros f. rewrite (proj1 Q0). apply Hsz. }
  destruct (bool_decide (fc_data f0 = None) || negb (bool_decide (target = source))) eqn:Eb.
  - rewrite El1. cbn [mbind outcome_bind]. exists f1, s1. split; [done |]. apply load_file in El1 as [Q2 Hl1]; [| done].
    split; [by eapply quiet_trans |]. destruct Hl1 as [(_ & f & m & Hf & Hm & Hmk) | [-> Hn]].
    + left. exists f, m. rewrite <- (proj1 Q0). done.
    + right. split; [done |]. intros (f & Hf & m & Hm & _).
      enough (-1 = 0) by lia. apply (Hok1 f m); [| done]. by rewrite (proj1 Q0).
  - exists f0, s0. split; [done |]. split; [done |]. apply orb_false_iff in Eb as [E1 E2].
    apply bool_decide_eq_false in E1. apply negb_false_iff, bool_decide_eq_true in E2. left. rewrite <- E2.
    by destruct Hl0 as [Hl0 | Hn].
Qed.

(** A patch is chosen for it when there is one. *)
Lemma choose_source_calm sf s : patches_good s ->
  loaded_from sha1 source s sf \/ fc_data sf = None /\ ~ holds source (usable sha1 strs) (now s) ->
  exists spv, match fc_data sf with Some _ => choose_patch sf strs pd | None => Val None end = Val spv /\
    match spv with
    | Some v => exists m, fc_data sf = Some m /\ good_patch m v
    | None => ~ holds source (usable sha1 strs) (now s)
    end.
Proof.
  intros Hgood [(f & m & Hf & Hm & ->) | [-> Hn]]; [| by exists None]. cbn [fc_data].
  destruct (choose_good source f m s (or_introl eq_refl) Hgood Hf Hm (zlen (f_data f)) (f_mode f) (f_uid f) (f_gid f))
    as [(v & -> & Hv) | [-> Hn]]; [exists (Some v); split; [done |]; by exists m |].
  exists None. split; [done |]. intros (f' & Hf' & m' & Hm' & Hfind). simpl in Hf'. rewrite Hf in Hf'. injection Hf' as <-.
  destruct Hm as [o Hm], Hm' as [o' Hm']. rewrite Hm in Hm'. by injection Hm' as <- _.
Qed.

Lemma applypatch_calm target_sha1_str bonus s :
  is_partition source = false -> is_partition target = false -> 0 <= target_size * 3 < 2 ^ 32 ->
  ParseSha1 target_sha1_str = Some target_sha1 -> patches_good s -> held sha1 source strs (now s) ->
  exists s', applypatch E bz fuel rounds malloc z sha1 uninit source target_arg target_sha1_str target_size strs pd bonus s = Val (0, s').
Proof.
  intros Hp Ht Hts Hsha Hgood Hheld. unfold applypatch. fold (target_of source target_arg). rewrite Hsha.
  destruct (load_total target (no_data uninit) s Ht) as (r0 & f0 & s0 & El0 & _).
  { intros f Hf. apply (Hgood target f); auto. }
  rewrite El0. cbn [mbind outcome_bind]. apply load_file in El0 as [Q0 Hl0]; [| done].
  destruct ((r0 =? 0) && bool_decide (fc_sha1 f0 = target_sha1)); [by eexists |].
  destruct (load_source_calm f0 s s0 Hp Q0) as (sf & s1' & -> & Q1 & Hsf).
  { destruct Hl0 as [[_ Hl0] | [_ Hn]]; [by left | by right]. }
  { intros f Hf. apply (Hgood source f); auto. }
  cbn [mbind outcome_bind]. destruct (choose_source_calm sf s Hgood Hsf) as (spv & -> & Hspv).
  cbn [mbind outcome_bind]. destruct spv as [v |].
  { destruct Hspv as (m & Hm & Hv). apply (GenerateTarget_calm sf (Some v) _ None m v); auto. }
  destruct Hheld as [? | (f & Hf & m & Hm & Hfind)]; [done |]. simpl in Hf.
  destruct (load_total CACHE_TEMP_SOURCE (no_data uninit) s1' eq_refl) as (r2 & cf & s2 & El2 & Hok2).
  { intros g Hg. rewrite (proj1 Q1) in Hg. apply (Hgood CACHE_TEMP_SOURCE g); auto. }
  rewrite (Hok2 f m) in *; [| by rewrite (proj1 Q1) | done]. rewrite El2. cbn [mbind outcome_bind Z.ltb Z.compare].
  apply load_file in El2 as [Q2 [(_ & f2 & m2 & Hf2 & Hm2 & ->) | [? _]]]; [| done | done].
  rewrite (proj1 Q1), Hf in Hf2. injection Hf2 as <-. destruct Hm as [o Hm], Hm2 as [o' Hm2]. rewrite Hm in Hm2. injection Hm2 as <- _.
  destruct (choose_good CACHE_TEMP_SOURCE f m s (or_intror (or_introl eq_refl)) Hgood Hf (ex_intro _ o Hm)
    (zlen (f_data f)) (f_mode f) (f_uid f) (f_gid f)) as [(v & -> & Hv) | [_ Hn]]; [| done].
  cbn [mbind outcome_bind]. apply (GenerateTarget_calm _ None _ (Some v) m v); auto.
Qed.

Lemma applypatch_already target_sha1_str bonus s :
  is_partition target = false -> ParseSha1 target_sha1_str = Some target_sha1 ->
  (forall f, files s !! target = Some f -> zlen (f_data f) < 2 ^ 31) ->
  holds target (fun data => exists m, masks data m /\ sha1 m = target_sha1) (now s) ->
  exists s', applypatch E bz fuel rounds malloc z sha1 uninit source target_arg target_sha1_str target_size strs pd bonus s =
    Val (0, s') /\ quiet s s'.
Proof.
  intros Ht Hsha Hsz (f & Hf & m & Hm & Hd). unfold applypatch. fold (target_of source target_arg). rewrite Hsha.
  destruct (load_total target (no_data uninit) s Ht Hsz) as (r0 & f0 & s0 & El0 & Hok).
  rewrite (Hok f m) in El0 by done. rewrite El0. cbn [mbind outcome_bind].
  apply load_file in El0 as [Q0 [(_ & f' & m' & Hf' & Hm' & ->) | [? _]]]; [| done | done].
  simpl in Hf. rewrite Hf in Hf'. injection Hf' as <-. destruct Hm as [o Hm], Hm' as [o' Hm']. rewrite Hm in Hm'.
  injection Hm' as <- _. cbn [fc_sha1]. rewrite bool_decide_true by done. by exists s0.
Qed.

(** What the check accepts of the file itself. *)
Definition acceptable (data : block) : Prop :=
  exists m, masks data m /\ (strs = [] \/ 0 <= FindMatchingPatch (sha1 m) strs).

Lemma mask_unique data m m' : masks data m -> masks data m' -> m = m'.
Proof. intros [o Hm] [o' Hm']. rewrite Hm in Hm'. by injection Hm' as <- _. Qed.

Lemma load_exact p file s : is_partition p = false -> (forall f, files s !! p = Some f -> zlen (f_data f) < 2 ^ 31) ->
  exists r file' s', LoadFileContents E sha1 p file true s = Val (r, file', s') /\ quiet s s' /\
    ((r = 0 /\ loaded_from sha1 p s file') \/ (r = -1 /\ forall f m, files s !! p = Some f -> ~ masks (f_data f) m)).
Proof.
  intros Hp Hsz. destruct (load_total p file s Hp Hsz) as (r & file' & s' & Hl & Hok). exists r, file', s'.
  split; [done |]. pose proof Hl as Hl'. apply load_file in Hl' as [Hq Hl']; [| done]. split; [done |].
  destruct Hl' as [[-> Hl'] | [-> _]]; [by left | right]. split; [done |]. intros f m Hf Hm. specialize (Hok f m Hf Hm). lia.
Qed.

Lemma check_calm filename s : is_partition filename = false ->
  (forall p f, p = filename \/ p = CACHE_TEMP_SOURCE -> files s !! p = Some f -> zlen (f_data f) < 2 ^ 31) ->
  exists r s', applypatch_check E sha1 uninit filename strs s = Val (r, s') /\ quiet s s' /\ (r = 0 \/ r = 1) /\
    (r = 0 <-> holds filename acceptable (now s) \/ holds CACHE_TEMP_SOURCE (usable sha1 strs) (now s)).
Proof.
  intros Hp Hsz. unfold applypatch_check.
  destruct (load_exact filename (no_data uninit) s Hp) as (r1 & f1 & s1 & -> & Q1 & Hl1); [intros f; apply Hsz; by left |].
  cbn [mbind outcome_bind].
  assert ((negb (r1 =? 0) || (0 <? zlen strs) && (FindMatchingPatch (fc_sha1 f1) strs <? 0) = false /\ holds filename acceptable (now s)) \/
    (negb (r1 =? 0) || (0 <? zlen strs) && (FindMatchingPatch (fc_sha1 f1) strs <? 0) = true /\ ~ holds filename acceptable (now s)))
    as [[-> Hacc] | [-> Hacc]].
  { destruct Hl1 as [(-> & f & m & Hf & Hm & ->) | [-> Hno]]; cbn [Z.eqb negb orb fc_sha1].
    2: { right. split; [done |]. intros (f & Hf & m & Hm & _). by apply (Hno f m). }
    destruct ((0 <? zlen strs) && (FindMatchingPatch (sha1 m) strs <? 0)) eqn:Eb; [right | left]; (split; [done |]).
    - apply andb_true_iff in Eb as [E1 E2]. apply Z.ltb_lt in E1, E2. intros (f' & Hf' & m' & Hm' & Hd). simpl in Hf'.
      rewrite Hf in Hf'. injection Hf' as <-. rewrite (mask_unique _ _ _ Hm' Hm) in Hd. destruct Hd as [-> | ?]; [done | lia].
    - exists f. split; [done |]. exists m. split; [done |]. apply andb_false_iff in Eb as [E1 | E2].
      + left. apply Z.ltb_ge in E1. apply nil_length_inv. unfold zlen in E1. lia.
      + right. by apply Z.ltb_ge. }
  { exists 0, s1. split; [done |]. split; [done |]. split; [by left |]. split; [by left | done]. }
  destruct (load_exact CACHE_TEMP_SOURCE (no_data f1) s1 eq_refl) as (r2 & f2 & s2 & -> & Q2 & Hl2).
  { intros f. rewrite (proj1 Q1). apply Hsz. by right. }
  assert (quiet s s2) as Q by (by eapply quiet_trans). cbn [mbind outcome_bind].
  destruct Hl2 as [(-> & f & m & Hf & Hm & ->) | [-> Hno]]; cbn [Z.eqb negb fc_sha1]; rewrite (proj1 Q1) in *.
  - destruct (Z.ltb_spec (FindMatchingPatch (sha1 m) strs) 0) as [Hlt | Hge].
    + exists 1, s2. split_and!; [done | done | by right |]. split; [done |]. intros [? | (f' & Hf' & m' & Hm' & Hd)]; [done |].
      simpl in Hf'. rewrite Hf in Hf'. injection Hf' as <-. rewrite (mask_unique _ _ _ Hm' Hm) in Hd. lia.
    + exists 0, s2. split_and!; [done | done | by left |]. split; [| done]. intros _. right. exists f. split; [done |]. by exists m.
  - exists 1, s2. split_and!; [done | done | by right |]. split; [done |].
    intros [? | (f & Hf & m & Hm & _)]; [done |]. exfalso. by apply (Hno f m).
Qed.
End Calm.

(** *** The claims *)

(** An environment in which every call succeeds and there is room for the target. *)
Definition calm_env (E : env) (target_size : Z) : Prop :=
  (forall t, 262144 < e_answer E t < 2 ^ 31) /\ forall t, 0 <= target_size * 3 / 2 < e_answer E t.

(** C5: patching a regular file with bsdiff patches is safe: whatever fails on the way,
    every state the disks pass through holds a source that a listed patch fits (in its
    place or saved in the cache) or the finished target; and the result 0 is only given
    when the target has the wanted digest. *)
Theorem applypatch_crash_safe `{Arch} `{mtd_api} (E : env) bz fuel rounds malloc z sha1 uninit source target_arg
    target_sha1 strs pd target_sha1_str target_size bonus s r s' :
  patch_setup source target_arg pd s -> ParseSha1 target_sha1_str = Some target_sha1 ->
  applypatch E bz fuel rounds malloc z sha1 uninit source target_arg target_sha1_str target_size strs pd bonus s = Val (r, s') ->
  evolves (recoverable sha1 source (target_of source target_arg) strs target_sha1) s s' /\
  (r = 0 -> holds (target_of source target_arg) (installed sha1 target_sha1) (now s')).
Proof. apply applypatch_spec. Qed.

(** C14: when every call succeeds, there is room and the listed patches are good,
    [applypatch] returns, and with 0, wherever a usable source is; and it changes nothing
    when the target is finished already. *)
Theorem applypatch_completes `{Arch} `{mtd_api} (E : env) bz fuel rounds malloc z sha1 uninit source target_arg
    target_sha1 strs pd target_sha1_str target_size bonus s :
  calm_env E target_size -> is_partition source = false -> is_partition (target_of source target_arg) = false ->
  0 <= target_size * 3 < 2 ^ 32 -> ParseSha1 target_sha1_str = Some target_sha1 ->
  patches_good bz fuel rounds malloc sha1 source target_arg target_sha1 strs pd s ->
  let run := applypatch E bz fuel rounds malloc z sha1 uninit source target_arg target_sha1_str target_size strs pd bonus s in
  (held sha1 source strs (now s) -> exists s', run = Val (0, s')) /\
  (holds (target_of source target_arg) (fun data => exists m, masks data m /\ sha1 m = target_sha1) (now s) ->
   exists s', run = Val (0, s') /\ quiet s s').
Proof.
  intros [Hans Hroom] Hp Ht Hts Hsha Hgood. split; intros Hh.
  - by apply (applypatch_calm E bz fuel rounds malloc z sha1 uninit source target_arg target_sha1).
  - apply (applypatch_already E bz fuel rounds malloc z sha1 uninit source target_arg target_sha1); try done.
    intros f Hf. apply (Hgood (target_of source target_arg) f); auto.
Qed.

(** C13: an update that was interrupted can be resumed: from any state the disks passed
    through, a second run in which nothing fails returns 0. *)
Theorem applypatch_resumes `{Arch} `{mtd_api} (E E' : env) bz fuel rounds malloc z sha1 uninit source target_arg
    target_sha1 strs pd target_sha1_str target_size bonus s r s' d s1 :
  patch_setup source target_arg pd s -> ParseSha1 target_sha1_str = Some target_sha1 ->
  applypatch E bz fuel rounds malloc z sha1 uninit source target_arg target_sha1_str target_size strs pd bonus s = Val (r, s') ->
  d ∈ drop (length (history s)) (history s') -> now s1 = d -> calm_env E' target_size -> 0 <= target_size * 3 < 2 ^ 32 ->
  patches_good bz fuel rounds malloc sha1 source target_arg target_sha1 strs pd s1 ->
  (forall f, files s1 !! target_of source target_arg = Some f -> sha1 (f_data f) = target_sha1 -> masks (f_data f) (f_data f)) ->
  exists s2, applypatch E' bz fuel rounds malloc z sha1 uninit source target_arg target_sha1_str target_size strs pd bonus s1 =
    Val (0, s2).
Proof.
  intros Hset Hsha Hrun Hd Hnow [Hans Hroom] Hts Hgood Hmask. apply (applypatch_spec E) with (target_sha1 := target_sha1) in Hrun as [(l & Hl & HF) _]; [| done | done].
  rewrite Hl, drop_app_length in Hd. rewrite Forall_forall in HF. specialize (HF d Hd). rewrite <- Hnow in HF. clear Hl Hd.
  destruct Hset as [P1 P2 _ _ _ _ _ _]. destruct HF as [Hh | (f & Hf & Hi)].
  { by apply (applypatch_calm E' bz fuel rounds malloc z sha1 uninit source target_arg target_sha1). }
  destruct (applypatch_already E' bz fuel rounds malloc z sha1 uninit source target_arg target_sha1 strs pd Hans target_size target_sha1_str bonus s1)
    as (s2 & Hs2 & _); try done; [| | by exists s2].
  - intros g Hg. apply (Hgood (target_of source target_arg) g); auto.
  - exists f. split; [done |]. destruct Hi as [Hi | Hi]; [| done]. exists (f_data f). split; [by apply Hmask | done].
Qed.

(** The check of a regular file returns, changes nothing, and when no call fails it
    answers 0 exactly when the file has one of the listed digests (or is readable, when
    none is listed) or the saved copy has one; every other case is the error 1. *)
Theorem applypatch_check_correct `{Arch} `{mtd_api} (E : env) sha1 uninit strs filename s :
  (forall t, 262144 < e_answer E t < 2 ^ 31) -> is_partition filename = false ->
  (forall p f, p = filename \/ p = CACHE_TEMP_SOURCE -> files s !! p = Some f -> zlen (f_data f) < 2 ^ 31) ->
  exists r s', applypatch_check E sha1 uninit filename strs s = Val (r, s') /\ quiet s s' /\ (r = 0 \/ r = 1) /\
    (r = 0 <-> holds filename (acceptable sha1 strs) (now s) \/ holds CACHE_TEMP_SOURCE (usable sha1 strs) (now s)).
Proof. intros Hans. by apply check_calm. Qed.

(** *** Concrete runs *)

(** [calm] has room; [low_space] has not, and the call at tick [k] fails. *)
Definition low_space (k : nat) : env :=
  mkEnv (fun t => if (t =? k)%nat then -1 else 1000) (fun _ => None) (fun _ => None) (fun _ b => b).
Definition demo_source : path := str "/system/a".
Definition demo_sys : @sys no_mtd := @mkSys no_mtd {[ demo_source := mkFile demo_old 420 1 2 ]} ∅ tt false 0 [].
Definition demo_run (E : env) (target : block) (s : @sys no_mtd) : outcome (Z * @sys no_mtd) :=
  @applypatch LP64 no_mtd E stored 100 5 demo_malloc plain_zlib length_digest (mkContents [] None 0 0 0 0)
    demo_source target (demo_sha 12) 12 [demo_sha 10] [ValBlob demo_file] None s.
(** The state a run stops in. *)
Definition left_by (r : outcome (Z * @sys no_mtd)) : @sys no_mtd := match r with Val (_, s) => s | Trap _ => demo_sys end.

Lemma masks_old m : masks demo_old m -> m = demo_old.
Proof. intros [o Hm]. vm_compute in Hm. injection Hm as <- _. reflexivity. Qed.

Lemma masks_old_old : masks demo_old demo_old.
Proof. exists (Some 0). vm_compute. reflexivity. Qed.

Lemma demo_good_patch : @good_patch LP64 stored 100 5 demo_malloc length_digest (12 :: replicate 19 0) demo_old (ValBlob demo_file).
Proof. exists demo_file, demo_new. split_and!; try reflexivity; vm_compute; congruence. Qed.

Lemma demo_setup : patch_setup demo_source (str "-") [ValBlob demo_file] demo_sys.
Proof.
  split; try discriminate; try reflexivity.
  - right. intros dir name Hdir. unfold expendable_dirs in Hdir. rewrite !elem_of_cons, elem_of_nil in Hdir.
    destruct Hdir as [-> | [-> | []]]; discriminate.
  - intros f m Hf Hm. vm_compute in Hf. injection Hf as <-. apply masks_old in Hm as ->. exact masks_old_old.
  - repeat constructor. discriminate.
Qed.

Lemma calm_demo : calm_env calm 12.
Proof. split; intros t; cbn; vm_compute; intuition congruence. Qed.

(** What the only file holds decides whether the patches are good. *)
Lemma demo_patches_good (s : @sys no_mtd) p f : files s = {[ p := f ]} -> f_data f = demo_old ->
  @patches_good LP64 no_mtd stored 100 5 demo_malloc length_digest demo_source (str "-") (12 :: replicate 19 0)
    [demo_sha 10] [ValBlob demo_file] s.
Proof.
  intros Hs Hd q g _ Hg. rewrite Hs in Hg. apply lookup_singleton_Some in Hg as [_ <-]. rewrite Hd. split; [done |].
  intros m Hm _. apply masks_old in Hm as ->. exists (ValBlob demo_file). split; [reflexivity | exact demo_good_patch].
Qed.

(** The source was saved and deleted; the last rename failed. *)
Lemma applypatch_crash_safe_witness : exists s',
  demo_run (low_space 15) (str "-") demo_sys = Val (1, s') /\
  evolves (recoverable length_digest demo_source demo_source [demo_sha 10] (12 :: replicate 19 0)) demo_sys s'.
Proof.
  exists (left_by (demo_run (low_space 15) (str "-") demo_sys)). split; [vm_compute; reflexivity |].
  apply (@applypatch_crash_safe LP64 no_mtd (low_space 15) stored 100 5 demo_malloc plain_zlib length_digest
    (mkContents [] None 0 0 0 0) demo_source (str "-") (12 :: replicate 19 0) [demo_sha 10] [ValBlob demo_file]
    (demo_sha 12) 12 None demo_sys 1).
  - exact demo_setup.
  - vm_compute. reflexivity.
  - vm_compute. reflexivity.
Defined.

Lemma applypatch_completes_witness : exists s', demo_run calm (str "-") demo_sys = Val (0, s').
Proof.
  apply (@applypatch_completes LP64 no_mtd calm stored 100 5 demo_malloc plain_zlib length_digest
    (mkContents [] None 0 0 0 0) demo_source (str "-") (12 :: replicate 19 0) [demo_sha 10] [ValBlob demo_file]
    (demo_sha 12) 12 None demo_sys).
  - exact calm_demo.
  - reflexivity.
  - reflexivity.
  - lia.
  - vm_compute. reflexivity.
  - exact (demo_patches_good demo_sys demo_source _ eq_refl eq_refl).
  - left. exists (mkFile demo_old 420 1 2). split; [vm_compute; reflexivity |]. exists demo_old.
    split; [exact masks_old_old |]. vm_compute. congruence.
Defined.

(** The state left when the call that opens the output fails, after the source was
    deleted: only the saved copy is there. *)
Definition demo_crashed : @sys no_mtd := left_by (demo_run (low_space 11) (str "-") demo_sys).

Lemma applypatch_resumes_witness : exists s2, demo_run calm (str "-") demo_crashed = Val (0, s2).
Proof.
  apply (@applypatch_resumes LP64 no_mtd (low_space 11) calm stored 100 5 demo_malloc plain_zlib length_digest
    (mkContents [] None 0 0 0 0) demo_source (str "-") (12 :: replicate 19 0) [demo_sha 10] [ValBlob demo_file]
    (demo_sha 12) 12 None demo_sys 1 demo_crashed (now demo_crashed)).
  - exact demo_setup.
  - vm_compute. reflexivity.
  - vm_compute. reflexivity.
  - apply (list_elem_of_lookup_2 _ (pred (length (past demo_crashed)))). vm_compute. reflexivity.
  - reflexivity.
  - exact calm_demo.
  - lia.
  - apply (demo_patches_good demo_crashed CACHE_TEMP_SOURCE (mkFile demo_old 420 1 2)); vm_compute; reflexivity.
  - intros f Hf. vm_compute in Hf. discriminate.
Defined.

Lemma applypatch_check_correct_witness : exists r s',
  @applypatch_check LP64 no_mtd calm length_digest (mkContents [] None 0 0 0 0) demo_source [demo_sha 10] demo_sys = Val (r, s') /\ r = 0.
Proof.
  destruct (@applypatch_check_correct LP64 no_mtd calm length_digest (mkContents [] None 0 0 0 0) [demo_sha 10] demo_source demo_sys)
    as (r & s' & Hr & _ & _ & Hiff).
  - exact (proj1 calm_demo).
  - reflexivity.
  - intros p f _ Hf. cbn [files demo_sys] in Hf. apply lookup_singleton_Some in Hf as [_ <-]. reflexivity.
  - exists r, s'. split; [exact Hr |]. apply Hiff. left. exists (mkFile demo_old 420 1 2). split; [vm_compute; reflexivity |].
    exists demo_old. split; [exact masks_old_old |]. right. vm_compute. congruence.
Defined.

(** *** Departures from the description *)

(** With little room the source is deleted although the target is another file, which
    the description of the function excludes ("is NOT deleted on success"). *)
Lemma source_deleted_on_success : exists s',
  demo_run (low_space 100) (str "/system/b") demo_sys = Val (0, s') /\ files s' !! demo_source = None.
Proof.
  exists (left_by (demo_run (low_space 100) (str "/system/b") demo_sys)). split; vm_compute; reflexivity.
Qed.

(** A partition that an earlier run left half written, and the copy that run saved. *)
Definition half_written : @sys no_mtd :=
  @mkSys no_mtd {[ CACHE_TEMP_SOURCE := mkFile demo_old 420 1 2 ]} {[ str "mmc" := replicate 30 9 ]} tt false 0 [].

(** The next run finds the copy, then opens it for writing to save the source it could
    not load, and fails: the copy is empty and no source is left. *)
Lemma saved_copy_destroyed : exists s',
  @applypatch LP64 no_mtd calm stored 100 5 demo_malloc plain_zlib length_digest (mkContents [] None 0 0 0 0)
    (str "EMMC:mmc:10:" ++ demo_sha 99) (str "-") (demo_sha 12) 12 [demo_sha 10] [ValBlob demo_file] None half_written =
    Val (1, s') /\ files s' !! CACHE_TEMP_SOURCE = Some (mkFile [] 420 1 2).
Proof.
  exists (left_by (@applypatch LP64 no_mtd calm stored 100 5 demo_malloc plain_zlib length_digest (mkContents [] None 0 0 0 0)
    (str "EMMC:mmc:10:" ++ demo_sha 99) (str "-") (demo_sha 12) 12 [demo_sha 10] [ValBlob demo_file] None half_written)).
  split; vm_compute; reflexivity.
Qed.
