(* ===== verification/Fdevent.v ===== *)
(** * The event loop of minadbd (minadbd/fdevent.c, fdevent.h)

    Event objects live in a heap and are linked into the circular list of pending events
    through pointers in themselves; the table of descriptors points to them too.  The
    variant with select() is modelled, which is the one that is compiled.  A callback is
    an event of the trace; the only callback of the file itself,
    fdevent_subproc_event_func, is run. *)

From stdpp Require Import base numbers list gmap.
From S2P Require Import Prelude.

(** Pointers: 0 is NULL, -1 the static list head. *)
Definition NULL : Z := 0.
Definition LIST : Z := -1.

Definition FDE_READ : Z := 1.
Definition FDE_WRITE : Z := 2.
Definition FDE_ERROR : Z := 4.
Definition FDE_DONT_CLOSE : Z := 128.
Definition FDE_EVENTMASK : Z := 255.
Definition FDE_STATEMASK : Z := 65280.
Definition FDE_ACTIVE : Z := 256.
Definition FDE_PENDING : Z := 512.
Definition FDE_CREATED : Z := 1024.
Definition FD_SETSIZE : Z := 1024.

(** [func] is a code pointer; this one is fdevent_subproc_event_func. *)
Definition SUBPROC : Z := 1.

Record fdevent := mkFde {
  next : Z; prev : Z; fd : Z; force_eof : Z; state : Z; events : Z; func : Z; arg : Z
}.

Inductive event := Callback (fd events func arg : Z) | Closed (fd : Z).

Record world := mkWorld {
  heap : gmap Z fdevent;
  fd_table : list Z;
  read_fds : gset Z; write_fds : gset Z; error_fds : gset Z;
  select_n : Z;
  trace : list event
}.

(** *** The heap *)

Definition deref (p : Z) (w : world) : outcome fdevent :=
  match heap w !! p with
  | Some f => Val f
  | None => if p =? NULL then Trap NullDeref else Trap WildPointer
  end.

Definition put (p : Z) (f : fdevent) (w : world) : world :=
  mkWorld (<[p := f]> (heap w)) (fd_table w) (read_fds w) (write_fds w) (error_fds w) (select_n w) (trace w).
Definition upd (p : Z) (g : fdevent -> fdevent) (w : world) : outcome world :=
  let* f := deref p w in Val (put p (g f) w).

Definition with_next (v : Z) (f : fdevent) : fdevent :=
  mkFde v (prev f) (fd f) (force_eof f) (state f) (events f) (func f) (arg f).
Definition with_prev (v : Z) (f : fdevent) : fdevent :=
  mkFde (next f) v (fd f) (force_eof f) (state f) (events f) (func f) (arg f).
Definition with_state (v : Z) (f : fdevent) : fdevent :=
  mkFde (next f) (prev f) (fd f) (force_eof f) v (events f) (func f) (arg f).
Definition with_events (v : Z) (f : fdevent) : fdevent :=
  mkFde (next f) (prev f) (fd f) (force_eof f) (state f) v (func f) (arg f).
Definition with_eof (v : Z) (f : fdevent) : fdevent :=
  mkFde (next f) (prev f) (fd f) v (state f) (events f) (func f) (arg f).

Definition with_table (t : list Z) (w : world) : world :=
  mkWorld (heap w) t (read_fds w) (write_fds w) (error_fds w) (select_n w) (trace w).
Definition with_sets (r wr e : gset Z) (w : world) : world :=
  mkWorld (heap w) (fd_table w) r wr e (select_n w) (trace w).
Definition with_select (n : Z) (w : world) : world :=
  mkWorld (heap w) (fd_table w) (read_fds w) (write_fds w) (error_fds w) n (trace w).
Definition emit (ev : event) (w : world) : world :=
  mkWorld (heap w) (fd_table w) (read_fds w) (write_fds w) (error_fds w) (select_n w) (trace w ++ [ev]).

Definition flag (s bit : Z) : bool := negb (Z.land s bit =? 0).

(** *** The list of pending events *)

Definition fdevent_plist_enqueue (node : Z) (w : world) : outcome world :=
  let* w := upd node (with_next LIST) w in
  let* list := deref LIST w in
  let* w := upd node (with_prev (prev list)) w in
  let* n := deref node w in
  let* w := upd (prev n) (with_next node) w in
  upd LIST (with_prev node) w.

Definition fdevent_plist_remove (node : Z) (w : world) : outcome world :=
  let* n := deref node w in
  let* w := upd (prev n) (with_next (next n)) w in
  let* n := deref node w in
  let* w := upd (next n) (with_prev (prev n)) w in
  let* w := upd node (with_next NULL) w in
  upd node (with_prev NULL) w.

Definition fdevent_plist_dequeue (w : world) : outcome (Z * world) :=
  let* list := deref LIST w in
  let node := next list in
  if node =? LIST then Val (NULL, w) else
  let* n := deref node w in
  let* w := upd LIST (with_next (next n)) w in
  let* list := deref LIST w in
  let* w := upd (next list) (with_prev LIST) w in
  let* w := upd node (with_next NULL) w in
  let* w := upd node (with_prev NULL) w in
  Val (node, w).

(** *** select() *)

(** Outside its range the macros write outside the set. *)
Definition FD_SET (i : Z) (s : gset Z) : outcome (gset Z) :=
  if (0 <=? i) && (i <? FD_SETSIZE) then Val ({[ i ]} ∪ s) else Trap OutOfBounds.
Definition FD_CLR (i : Z) (s : gset Z) : outcome (gset Z) :=
  if (0 <=? i) && (i <? FD_SETSIZE) then Val (s ∖ {[ i ]}) else Trap OutOfBounds.

Definition fdevent_init (w : world) : world := with_sets ∅ ∅ ∅ w.

Definition fdevent_connect (p : Z) (w : world) : outcome world :=
  let* f := deref p w in
  Val (if select_n w <=? fd f then with_select (fd f + 1) w else w).

(** The last used index below [i + k], or [n]. *)
Fixpoint last_used (k : nat) (i n : Z) (w : world) : outcome Z :=
  match k with
  | O => Val n
  | S k => let* p := load (fd_table w) i in last_used k (i + 1) (if negb (p =? NULL) then i else n) w
  end.

Definition fdevent_disconnect (p : Z) (w : world) : outcome world :=
  let* f := deref p w in
  let* r := FD_CLR (fd f) (read_fds w) in
  let* wr := FD_CLR (fd f) (write_fds w) in
  let* e := FD_CLR (fd f) (error_fds w) in
  let w := with_sets r wr e w in
  let* n := last_used (Z.to_nat (select_n w)) 0 0 w in
  Val (with_select (n + 1) w).

Definition set_or_clear (on : bool) (i : Z) (s : gset Z) : outcome (gset Z) :=
  if on then FD_SET i s else FD_CLR i s.

Definition fdevent_update (p evs : Z) (w : world) : outcome world :=
  let* f := deref p w in
  let* r := set_or_clear (flag evs FDE_READ) (fd f) (read_fds w) in
  let* wr := set_or_clear (flag evs FDE_WRITE) (fd f) (write_fds w) in
  let* e := set_or_clear (flag evs FDE_ERROR) (fd f) (error_fds w) in
  upd p (with_state (Z.lor (Z.land (state f) FDE_STATEMASK) evs)) (with_sets r wr e w).

(** The descriptors in the table for which fcntl fails ([bad]) are added to [fds]. *)
Fixpoint fd_check_loop (bad : Z -> bool) (k : nat) (i n : Z) (fds : gset Z) (w : world) : outcome (Z * gset Z) :=
  match k with
  | O => Val (n, fds)
  | S k =>
      let* p := load (fd_table w) i in
      if p =? NULL then fd_check_loop bad k (i + 1) n fds w
      else if bad i then let* fds := FD_SET i fds in fd_check_loop bad k (i + 1) (n + 1) fds w
      else fd_check_loop bad k (i + 1) n fds w
  end.

Definition fdevent_fd_check (bad : Z -> bool) (fds : gset Z) (w : world) : outcome (Z * gset Z) :=
  fd_check_loop bad (Z.to_nat (select_n w)) 0 0 fds w.

(** What select() answers: the number of bits and the three sets, or an error. *)
Inductive select_result :=
| Ready (n : Z) (r wr e : gset Z)
| Interrupted
| BadDescriptor
| OtherError.

(** The events of descriptor [i]. *)
Definition events_of (i : Z) (r wr e : gset Z) : Z :=
  Z.lor (Z.lor (if bool_decide (i ∈ r) then FDE_READ else 0) (if bool_decide (i ∈ wr) then FDE_WRITE else 0))
    (if bool_decide (i ∈ e) then FDE_ERROR else 0).
Definition bits_of (i : Z) (r wr e : gset Z) : Z :=
  (if bool_decide (i ∈ r) then 1 else 0) + (if bool_decide (i ∈ wr) then 1 else 0) + (if bool_decide (i ∈ e) then 1 else 0).

(** Descriptor [i] has events [evs]. *)
Definition signal (i evs : Z) (w : world) : outcome world :=
  let* p := load (fd_table w) i in
  if p =? NULL then Trap Aborted else
  let* w := upd p (fun f => with_events (Z.lor (events f) evs) f) w in
  let* f := deref p w in
  if flag (state f) FDE_PENDING then Val w else
  let* w := upd p (fun f => with_state (Z.lor (state f) FDE_PENDING) f) w in
  fdevent_plist_enqueue p w.

(** The loop over the descriptors while bits are left. *)
Fixpoint ready_loop (k : nat) (i n : Z) (r wr e : gset Z) (w : world) : outcome world :=
  match k with
  | O => Val w
  | S k =>
      if negb (0 <? n) then Val w else
      let evs := events_of i r wr e in
      let n := n - bits_of i r wr e in
      let* w := if negb (evs =? 0) then signal i evs w else Val w in
      ready_loop k (i + 1) n r wr e w
  end.

Definition fdevent_process (res : select_result) (bad : Z -> bool) (w : world) : outcome world :=
  match res with
  | Interrupted | OtherError => Val w
  | BadDescriptor =>
      let* (n, r) := fdevent_fd_check bad ∅ w in
      ready_loop (Z.to_nat (select_n w)) 0 n r ∅ ∅ w
  | Ready n r wr e =>
      let* (n, r) := if n <=? 0 then fdevent_fd_check bad r w else Val (n, r) in
      ready_loop (Z.to_nat (select_n w)) 0 n r wr e w
  end.

(** *** The table *)

Section Table.
Context `{Arch}.
(** realloc to [n] entries; what it adds is arbitrary. *)
Variable realloc : Z -> option (list Z).

Fixpoint double_past (k : nat) (m i : Z) : outcome Z :=
  if i <? m then Val m else match k with O => Trap NoFuel | S k => double_past k (m * 2) i end.

(** The table with room for [i].  The new part is cleared for the size of an [int] per
    entry. *)
Definition grow_table (i : Z) (w : world) : outcome world :=
  let oldmax := zlen (fd_table w) in
  if 32000 <? i then Trap Aborted else
  let w := if oldmax =? 0 then fdevent_init w else w in
  let* max := double_past 32 (if oldmax =? 0 then 256 else oldmax) i in
  match realloc max with
  | None => Trap Aborted
  | Some new =>
      let added := drop (Z.to_nat oldmax) new in
      let cleared := Z.to_nat (4 * (max - oldmax) / (word_bits / 8)) in
      Val (with_table (fd_table w ++ replicate cleared NULL ++ drop cleared added) w)
  end.

Definition fdevent_register (p : Z) (w : world) : outcome world :=
  let* f := deref p w in
  if fd f <? 0 then Trap Aborted else
  let* w := if zlen (fd_table w) <=? fd f then grow_table (fd f) w else Val w in
  let* t := store (fd_table w) (fd f) p in
  Val (with_table t w).

Definition fdevent_unregister (p : Z) (w : world) : outcome world :=
  let* f := deref p w in
  if (fd f <? 0) || (zlen (fd_table w) <=? fd f) then Trap Aborted else
  let* q := load (fd_table w) (fd f) in
  if negb (q =? p) then Trap Aborted else
  let* t := store (fd_table w) (fd f) NULL in
  let w := with_table t w in
  Val (if negb (flag (state f) FDE_DONT_CLOSE) then emit (Closed (fd f)) w else w).

(** *** The interface *)

Definition fdevent_set (p evs : Z) (w : world) : outcome world :=
  let evs := Z.land evs FDE_EVENTMASK in
  let* f := deref p w in
  if Z.land (state f) FDE_EVENTMASK =? evs then Val w else
  let* w := if flag (state f) FDE_ACTIVE then fdevent_update p evs w else Val w in
  let* w := upd p (fun f => with_state (Z.lor (Z.land (state f) FDE_STATEMASK) evs) f) w in
  let* f := deref p w in
  if flag (state f) FDE_PENDING then
    let* w := upd p (fun f => with_events (Z.land (events f) (Z.lnot evs)) f) w in
    let* f := deref p w in
    if events f =? 0 then
      let* w := fdevent_plist_remove p w in
      upd p (fun f => with_state (Z.land (state f) (Z.lnot FDE_PENDING)) f) w
    else Val w
  else Val w.

Definition fdevent_add (p evs : Z) (w : world) : outcome world :=
  let* f := deref p w in
  fdevent_set p (Z.lor (Z.land (state f) FDE_EVENTMASK) (Z.land evs FDE_EVENTMASK)) w.

Definition fdevent_del (p evs : Z) (w : world) : outcome world :=
  let* f := deref p w in
  fdevent_set p (Z.land (Z.land (state f) FDE_EVENTMASK) (Z.lnot (Z.land evs FDE_EVENTMASK))) w.

Definition fdevent_install (p i fn a : Z) (w : world) : outcome world :=
  let* w := upd p (fun _ => mkFde NULL NULL i 0 FDE_ACTIVE 0 fn a) w in
  let* w := fdevent_register p w in
  let* w := fdevent_connect p w in
  upd p (fun f => with_state (Z.lor (state f) FDE_ACTIVE) f) w.

(** malloc gave the object at [p], with arbitrary contents; or NULL. *)
Definition fdevent_create (p : Z) (junk : fdevent) (i fn a : Z) (w : world) : outcome world :=
  if p =? NULL then Val w else
  let w := put p junk w in
  let* w := fdevent_install p i fn a w in
  upd p (fun f => with_state (Z.lor (state f) FDE_CREATED) f) w.

Definition fdevent_remove (p : Z) (w : world) : outcome world :=
  let* f := deref p w in
  let* w := if flag (state f) FDE_PENDING then fdevent_plist_remove p w else Val w in
  let* f := deref p w in
  let* w := if flag (state f) FDE_ACTIVE then
              let* w := fdevent_disconnect p w in fdevent_unregister p w
            else Val w in
  let* w := upd p (with_state 0) w in
  upd p (with_events 0) w.

Definition fdevent_destroy (p : Z) (w : world) : outcome world :=
  if p =? NULL then Val w else
  let* f := deref p w in
  if negb (flag (state f) FDE_CREATED) then Trap Aborted else fdevent_remove p w.

(** *** Dispatch *)

(** The callback is called; [subs] are the messages in the socket that
    fdevent_subproc_event_func reads: descriptors, with the number of bytes that FIONREAD
    reports for each.  Without a message the read fails. *)
Fixpoint fdevent_call_fdfunc (subs : list (Z * Z)) (p : Z) (w : world) : outcome world :=
  let* f := deref p w in
  let evs := events f in
  let* w := upd p (with_events 0) w in
  if negb (flag (state f) FDE_PENDING) then Val w else
  let* w := upd p (fun f => with_state (Z.land (state f) (Z.lnot FDE_PENDING)) f) w in
  let w := emit (Callback (fd f) evs (func f) (arg f)) w in
  if negb (func f =? SUBPROC) then Val w else
  (** fdevent_subproc_event_func *)
  if (fd f <? 0) || (zlen (fd_table w) <=? fd f) then Trap Aborted else
  let* fde := load (fd_table w) (fd f) in
  let* w := fdevent_add fde FDE_READ w in
  if negb (flag evs FDE_READ) then Val w else
  match subs with
  | [] => Trap Aborted
  | (subproc_fd, rcount) :: subs =>
      if (subproc_fd <? 0) || (zlen (fd_table w) <=? subproc_fd) then Val w else
      let* q := load (fd_table w) subproc_fd in
      if q =? NULL then Val w else
      let* g := deref q w in
      if negb (fd g =? subproc_fd) then Val w else
      let* w := upd q (with_eof 1) w in
      if negb (rcount =? 0) then Val w else
      let* w := upd q (fun f => with_events (Z.lor (events f) FDE_READ) f) w in
      let* g := deref q w in
      if flag (state g) FDE_PENDING then Val w else
      let* w := upd q (fun f => with_state (Z.lor (state f) FDE_PENDING) f) w in
      fdevent_call_fdfunc subs q w
  end.

(** One round of the inner loop of fdevent_loop; [false] when nothing is pending. *)
Definition dispatch (subs : list (Z * Z)) (w : world) : outcome (bool * world) :=
  let* (p, w) := fdevent_plist_dequeue w in
  if p =? NULL then Val (false, w) else
  let* w := fdevent_call_fdfunc subs p w in
  Val (true, w).

(** The sockets are [s0], [s1]; malloc gave [p]. *)
Definition fdevent_subproc_setup (s1 p : Z) (junk : fdevent) (w : world) : outcome world :=
  let* w := fdevent_create p junk s1 SUBPROC NULL w in
  if p =? NULL then Trap Aborted else fdevent_add p FDE_READ w.
End Table.

(** ** The list *)

Definition with_heap (h : gmap Z fdevent) (w : world) : world :=
  mkWorld h (fd_table w) (read_fds w) (write_fds w) (error_fds w) (select_n w) (trace w).

Definition nxt (h : gmap Z fdevent) (p : Z) : option Z := next <$> h !! p.
Definition prv (h : gmap Z fdevent) (p : Z) : option Z := prev <$> h !! p.

(** An object without its links. *)
Definition core (f : fdevent) : fdevent := with_next NULL (with_prev NULL f).
Definition same_core (h h' : gmap Z fdevent) : Prop := forall q, core <$> h' !! q = core <$> h !! q.

Definition link (h : gmap Z fdevent) (u v : Z) : Prop := nxt h u = Some v /\ prv h v = Some u.

(** Each element is linked to the next one. *)
Fixpoint chain (h : gmap Z fdevent) (L : list Z) : Prop :=
  match L with
  | u :: (v :: _) as t => link h u v /\ chain h t
  | _ => True
  end.
Definition cycle (h : gmap Z fdevent) (l : list Z) : Prop := chain h (LIST :: l ++ [LIST]).

Lemma chain_app h A u v B : chain h (A ++ u :: v :: B) <-> chain h (A ++ [u]) /\ link h u v /\ chain h (v :: B).
Proof.
  induction A as [| x A IH]; [simpl; tauto |]. destruct A as [| y A]; simpl in *; tauto.
Qed.

Lemma chain_frame h h' L : forall x a A u, L = x :: a -> L = A ++ [u] -> (forall q, q ∈ A -> nxt h' q = nxt h q) ->
  (forall q, q ∈ a -> prv h' q = prv h q) -> chain h L -> chain h' L.
Proof.
  induction L as [| z L IH]; intros x a A u E1 E2 Hn Hp Hc; [done |]. injection E1 as -> ->.
  destruct a as [| v a]; [done |]. destruct A as [| y A]; [done |]. injection E2 as <- E2.
  destruct Hc as [[H1 H2] Hc]. split.
  - split; [rewrite Hn by (by left); done | rewrite Hp by (by left); done].
  - apply (IH v a A u); [done | done | | | done]; intros q Hq; [apply Hn | apply Hp]; by right.
Qed.

Lemma same_core_refl h : same_core h h.
Proof. done. Qed.

Lemma same_core_trans h1 h2 h3 : same_core h1 h2 -> same_core h2 h3 -> same_core h1 h3.
Proof. intros H1 H2 q. by rewrite H2. Qed.

Lemma same_core_some h h' p : same_core h h' -> is_Some (h !! p) -> is_Some (h' !! p).
Proof. intros Hs [f Hf]. specialize (Hs p). rewrite Hf in Hs. destruct (h' !! p); [eauto | done]. Qed.

Lemma deref_Val p w f : heap w !! p = Some f -> deref p w = Val f.
Proof. unfold deref. by intros ->. Qed.

Lemma upd_Val p g w f : heap w !! p = Some f -> upd p g w = Val (with_heap (<[p := g f]> (heap w)) w).
Proof. intros Hf. unfold upd. by rewrite (deref_Val p w f). Qed.

Lemma upd_next p v w : is_Some (heap w !! p) ->
  exists h', upd p (with_next v) w = Val (with_heap h' w) /\ same_core (heap w) h' /\
    (forall q, nxt h' q = if decide (q = p) then Some v else nxt (heap w) q) /\ (forall q, prv h' q = prv (heap w) q).
Proof.
  intros [f Hf]. eexists. split; [by apply upd_Val |]. unfold nxt, prv.
  split_and!; intros q; (destruct (decide (q = p)) as [-> | Hq]; [rewrite lookup_insert_eq | by rewrite lookup_insert_ne by done]); simpl; [| done |]; by rewrite Hf.
Qed.

Lemma upd_prev p v w : is_Some (heap w !! p) ->
  exists h', upd p (with_prev v) w = Val (with_heap h' w) /\ same_core (heap w) h' /\
    (forall q, nxt h' q = nxt (heap w) q) /\ (forall q, prv h' q = if decide (q = p) then Some v else prv (heap w) q).
Proof.
  intros [f Hf]. eexists. split; [by apply upd_Val |]. unfold nxt, prv.
  split_and!; intros q; (destruct (decide (q = p)) as [-> | Hq]; [rewrite lookup_insert_eq | by rewrite lookup_insert_ne by done]); simpl; [| | done]; by rewrite Hf.
Qed.

Lemma with_heap_heap h h' w : with_heap h' (with_heap h w) = with_heap h' w.
Proof. done. Qed.

Lemma chain_some h L q : chain h L -> q ∈ L -> (1 < length L)%nat -> is_Some (h !! q).
Proof.
  assert (forall r v, nxt h r = Some v -> is_Some (h !! r)) as Hn by (unfold nxt; intros r v; destruct (h !! r); [eauto | done]).
  assert (forall r v, prv h r = Some v -> is_Some (h !! r)) as Hp by (unfold prv; intros r v; destruct (h !! r); [eauto | done]).
  induction L as [| u L IH]; intros Hc Hq Hl; [simpl in Hl; lia |]. destruct L as [| v L]; [simpl in Hl; lia |].
  destruct Hc as [[H1 H2] Hc]. apply elem_of_cons in Hq as [-> | Hq]; [eauto |].
  destruct L as [| t L]; [| apply IH; [done | done | simpl; lia]].
  apply elem_of_cons in Hq as [-> | []%elem_of_nil]. eauto.
Qed.

Lemma cycle_some h l q : cycle h l -> q ∈ LIST :: l -> is_Some (h !! q).
Proof.
  intros Hc Hq. apply (chain_some h (LIST :: l ++ [LIST])); [done | | rewrite length_cons, length_app; simpl; lia].
  rewrite app_comm_cons. apply elem_of_app. by left.
Qed.

Lemma snoc_of (x : Z) l : exists A u, x :: l = A ++ [u].
Proof. destruct l as [| u l _] using rev_ind; [by exists [], x | by exists (x :: l), u]. Qed.

(** Elements of a part are not elements of the rest. *)
Lemma snoc_fresh (A : list Z) u : NoDup (A ++ [u]) -> u ∉ A.
Proof. rewrite NoDup_app. intros (_ & Hd & _) Hu. by apply (Hd u Hu), list_elem_of_singleton. Qed.

Lemma get_links h p f : h !! p = Some f -> nxt h p = Some (next f) /\ prv h p = Some (prev f).
Proof. unfold nxt, prv. by intros ->. Qed.

Lemma enqueue_spec node w l : cycle (heap w) l -> NoDup (LIST :: l) -> node ∉ LIST :: l -> is_Some (heap w !! node) ->
  exists h', fdevent_plist_enqueue node w = Val (with_heap h' w) /\ same_core (heap w) h' /\ cycle h' (l ++ [node]).
Proof.
  intros Hc Hnd Hni Hnode. destruct (snoc_of LIST l) as (A & q0 & EA).
  assert (chain (heap w) (A ++ [q0]) /\ link (heap w) q0 LIST) as [HcA [Hq1 Hq2]].
  { unfold cycle in Hc. rewrite app_comm_cons, EA, <- app_assoc in Hc. apply chain_app in Hc. tauto. }
  assert (q0 ∈ LIST :: l) as Hq0 by (rewrite EA; apply elem_of_app; right; by left).
  unfold fdevent_plist_enqueue.
  destruct (upd_next node LIST w Hnode) as (h1 & -> & C1 & N1 & P1). cbn [mbind outcome_bind].
  assert (is_Some (h1 !! LIST)) as [f1 Hf1] by (apply (same_core_some (heap w)); [done | apply (cycle_some _ l); [done | by left]]).
  rewrite (deref_Val LIST (with_heap h1 w) f1 Hf1). cbn [mbind outcome_bind].
  assert (prev f1 = q0) as -> by (destruct (get_links _ _ _ Hf1) as [_ E]; rewrite P1, Hq2 in E; congruence).
  destruct (upd_prev node q0 (with_heap h1 w)) as (h2 & -> & C2 & N2 & P2); [by apply (same_core_some (heap w)) |].
  cbn [mbind outcome_bind heap with_heap] in *. rewrite with_heap_heap.
  assert (same_core (heap w) h2) as C12 by (by eapply same_core_trans).
  destruct (same_core_some (heap w) h2 node C12 Hnode) as [f2 Hf2].
  rewrite (deref_Val node (with_heap h2 w) f2 Hf2). cbn [mbind outcome_bind].
  assert (prev f2 = q0) as ->.
  { destruct (get_links _ _ _ Hf2) as [_ E]. rewrite P2, decide_True in E by done. congruence. }
  destruct (upd_next q0 node (with_heap h2 w)) as (h3 & -> & C3 & N3 & P3);
    [by apply (same_core_some (heap w)); [| apply (cycle_some _ l)] |].
  cbn [mbind outcome_bind heap with_heap] in *. rewrite with_heap_heap.
  assert (same_core (heap w) h3) as C13 by (by eapply same_core_trans).
  destruct (upd_prev LIST node (with_heap h3 w)) as (h4 & -> & C4 & N4 & P4);
    [by apply (same_core_some (heap w)); [| apply (cycle_some _ l); [| left]] |].
  cbn [heap with_heap] in *. rewrite with_heap_heap. exists h4. split; [done |]. split; [by eapply same_core_trans |].
  assert (node <> q0) as Hne by (by intros ->). assert (node <> LIST) as HneL by (intros ->; apply Hni; left).
  unfold cycle. rewrite <- app_assoc, app_comm_cons, EA, <- app_assoc. cbn [app]. apply chain_app. split; [| split; [split |]].
  - apply (chain_frame (heap w) h4 (A ++ [q0]) LIST l A q0); [done | done | | | done].
    + intros q Hq. rewrite N4, N3, N2, N1. rewrite !decide_False; [done | |].
      * intros ->. apply Hni. rewrite EA. apply elem_of_app. by left.
      * intros ->. apply (snoc_fresh A q0); [by rewrite <- EA | done].
    + intros q Hq. rewrite P4, P3, P2, P1. apply NoDup_cons in Hnd as [Hl _]. rewrite !decide_False; [done | |].
      * intros ->. apply Hni. by right.
      * by intros ->.
  - by rewrite N4, N3, decide_True.
  - by rewrite P4, P3, decide_False, P2, decide_True.
  - split; [| done]. split; [by rewrite N4, N3, decide_False, N2, N1, decide_True | by rewrite P4, decide_True].
Qed.

(** The links after [node] was taken out between [p0] and [n0]. *)
Lemma unlink_cycle h h' l1 node l2 A p0 n0 B : cycle h (l1 ++ node :: l2) -> NoDup (LIST :: l1 ++ node :: l2) ->
  LIST :: l1 = A ++ [p0] -> l2 ++ [LIST] = n0 :: B ->
  (forall q, q <> node -> nxt h' q = if decide (q = p0) then Some n0 else nxt h q) ->
  (forall q, q <> node -> prv h' q = if decide (q = n0) then Some p0 else prv h q) -> cycle h' (l1 ++ l2).
Proof.
  intros Hc Hnd EA EB Hn Hp. unfold cycle in *. rewrite <- app_assoc, app_comm_cons, EA in Hc. cbn [app] in Hc.
  rewrite EB, <- app_assoc in Hc. cbn [app] in Hc. apply chain_app in Hc as (HA & _ & HB).
  assert (chain h (n0 :: B)) as HB' by (by destruct HB). clear HB.
  rewrite app_comm_cons in Hnd. apply NoDup_app in Hnd as (Hnd1 & Hd & Hnd2). apply NoDup_cons in Hnd2 as [Hnode Hnd2].
  assert (node ∉ LIST :: l1) as Hnode1 by (intros Hx; apply (Hd _ Hx); by left).
  assert (NoDup (n0 :: B)) as HndB.
  { rewrite <- EB. apply NoDup_app. split_and!; [done | | apply NoDup_singleton].
    intros x Hx ->%list_elem_of_singleton. apply (Hd LIST); [by left | by right]. }
  assert (p0 ∈ LIST :: l1) as Hp0 by (rewrite EA; apply elem_of_app; right; by left).
  assert (n0 ∈ l2 \/ n0 = LIST) as Hn0.
  { assert (n0 ∈ l2 ++ [LIST]) as Hx by (rewrite EB; by left). apply elem_of_app in Hx as [? | ?%list_elem_of_singleton]; auto. }
  assert (node <> p0) by (by intros ->). assert (node <> n0).
  { intros ->. destruct Hn0 as [| ->]; [done | apply Hnode1; by left]. }
  rewrite <- app_assoc, EB, app_comm_cons, EA, <- app_assoc. cbn [app]. apply chain_app. split; [| split; [split |]].
  - apply (chain_frame h h' (A ++ [p0]) LIST l1 A p0); [done | done | | | done]; intros q Hq.
    + rewrite Hn, decide_False; [done | |].
      * intros ->. by apply (snoc_fresh A p0); [rewrite <- EA |].
      * intros ->. apply Hnode1. rewrite EA. apply elem_of_app. by left.
    + rewrite Hp, decide_False; [done | |].
      * intros ->. apply NoDup_cons in Hnd1 as [Hl _]. destruct Hn0 as [Hn0 | ->]; [| done].
        apply (Hd n0); by right.
      * intros ->. apply Hnode1. by right.
  - by rewrite Hn, decide_True by auto.
  - by rewrite Hp, decide_True by auto.
  - apply (chain_frame h h' (n0 :: B) n0 B l2 LIST); [done | done | | | done]; intros q Hq.
    + rewrite Hn, decide_False; [done | |].
      * intros ->. apply (Hd p0 Hp0). by right.
      * by intros ->.
    + rewrite Hp, decide_False; [done | |].
      * intros ->. by apply NoDup_cons in HndB as [].
      * intros ->. assert (node ∈ l2 ++ [LIST]) as Hx by (rewrite EB; by right).
        apply elem_of_app in Hx as [? | ->%list_elem_of_singleton]; [done | apply Hnode1; by left].
Qed.

(** The neighbours of an element. *)
Lemma cycle_split h l1 node l2 : cycle h (l1 ++ node :: l2) ->
  exists A p0 n0 B, LIST :: l1 = A ++ [p0] /\ l2 ++ [LIST] = n0 :: B /\ link h p0 node /\ link h node n0.
Proof.
  intros Hc. destruct (snoc_of LIST l1) as (A & p0 & EA).
  assert (exists n0 B, l2 ++ [LIST] = n0 :: B) as (n0 & B & EB) by (destruct l2; eauto).
  exists A, p0, n0, B. split; [done |]. split; [done |]. unfold cycle in Hc. rewrite <- app_assoc, app_comm_cons, EA in Hc.
  cbn [app] in Hc. rewrite EB, <- app_assoc in Hc. apply chain_app in Hc as (_ & H1 & H2 & _). done.
Qed.

Lemma link_get h p f u v : h !! p = Some f -> (link h p v -> next f = v) /\ (link h u p -> prev f = u).
Proof. intros [En Ep]%get_links. split; intros [H1 H2]; congruence. Qed.

Lemma link_some h u v : link h u v -> is_Some (h !! u) /\ is_Some (h !! v).
Proof. unfold link, nxt, prv. destruct (h !! u), (h !! v); naive_solver. Qed.

(** Both links of [node] are cleared. *)
Lemma clear_links node w : is_Some (heap w !! node) ->
  exists h', (let* w := upd node (with_next NULL) w in upd node (with_prev NULL) w) = Val (with_heap h' w) /\
    same_core (heap w) h' /\
    (forall q, q <> node -> nxt h' q = nxt (heap w) q) /\ (forall q, q <> node -> prv h' q = prv (heap w) q).
Proof.
  intros Hnode. destruct (upd_next node NULL w Hnode) as (h1 & -> & C1 & N1 & P1). cbn [mbind outcome_bind].
  destruct (upd_prev node NULL (with_heap h1 w)) as (h2 & -> & C2 & N2 & P2); [by apply (same_core_some (heap w)) |].
  cbn [heap with_heap] in *. rewrite with_heap_heap. exists h2. split; [done |]. split; [by eapply same_core_trans |].
  split; intros q Hq; [by rewrite N2, N1, decide_False | by rewrite P2, decide_False].
Qed.

Lemma unlink_ne l1 node l2 A p0 n0 B : NoDup (LIST :: l1 ++ node :: l2) -> LIST :: l1 = A ++ [p0] -> l2 ++ [LIST] = n0 :: B ->
  p0 <> node /\ n0 <> node.
Proof.
  intros Hnd EA EB. rewrite app_comm_cons in Hnd. apply NoDup_app in Hnd as (_ & Hd & [Hn _]%NoDup_cons). split; intros ->.
  - apply (Hd node); [rewrite EA; apply elem_of_app; right; by left | by left].
  - assert (node ∈ l2 ++ [LIST]) as [? | ->%list_elem_of_singleton]%elem_of_app by (rewrite EB; by left); [done |].
    apply (Hd LIST); by left.
Qed.

Lemma remove_spec node w l1 l2 : cycle (heap w) (l1 ++ node :: l2) -> NoDup (LIST :: l1 ++ node :: l2) ->
  exists h', fdevent_plist_remove node w = Val (with_heap h' w) /\ same_core (heap w) h' /\ cycle h' (l1 ++ l2).
Proof.
  intros Hc Hnd. destruct (cycle_split _ _ _ _ Hc) as (A & p0 & n0 & B & EA & EB & Hl1 & Hl2).
  destruct (unlink_ne _ _ _ _ _ _ _ Hnd EA EB) as [Hp0 Hn0].
  destruct (link_some _ _ _ Hl1) as [Sp [f Hf]], (link_some _ _ _ Hl2) as [_ Sn].
  unfold fdevent_plist_remove. rewrite (deref_Val _ _ _ Hf). cbn [mbind outcome_bind].
  assert (next f = n0) as -> by (by apply (link_get _ _ _ p0 n0 Hf)).
  assert (prev f = p0) as -> by (by apply (link_get _ _ _ p0 n0 Hf)).
  destruct (upd_next p0 n0 w Sp) as (h1 & -> & C1 & N1 & P1). cbn [mbind outcome_bind].
  assert (is_Some (h1 !! node)) as [f1 Hf1] by (apply (same_core_some (heap w)); eauto).
  rewrite (deref_Val node (with_heap h1 w) f1 Hf1). cbn [mbind outcome_bind].
  assert (next f1 = n0 /\ prev f1 = p0) as [-> ->].
  { destruct (get_links _ _ _ Hf1) as [En Ep]. rewrite N1, decide_False in En by done. rewrite P1 in Ep.
    destruct Hl1, Hl2. split; congruence. }
  destruct (upd_prev n0 p0 (with_heap h1 w)) as (h2 & -> & C2 & N2 & P2); [by apply (same_core_some (heap w)) |].
  cbn [mbind outcome_bind heap with_heap] in *. rewrite with_heap_heap.
  assert (same_core (heap w) h2) as C12 by (by eapply same_core_trans).
  destruct (clear_links node (with_heap h2 w)) as (h3 & E3 & C3 & N3 & P3); [apply (same_core_some (heap w)); [done | eauto] |].
  cbn [heap with_heap] in *. unfold mbind, outcome_bind in E3 |- *. rewrite E3. exists h3.
  split; [done |]. split; [by eapply same_core_trans |].
  apply (unlink_cycle (heap w) h3 l1 node l2 A p0 n0 B); try done; intros q Hq.
  - by rewrite N3, N2, N1 by done.
  - by rewrite P3, P2, P1 by done.
Qed.

Lemma dequeue_nil w : cycle (heap w) [] -> fdevent_plist_dequeue w = Val (NULL, w).
Proof.
  intros [Hl _]. destruct (link_some _ _ _ Hl) as [[f Hf] _]. unfold fdevent_plist_dequeue.
  rewrite (deref_Val _ _ _ Hf). cbn [mbind outcome_bind]. assert (next f = LIST) as -> by (by apply (link_get _ _ _ LIST LIST Hf)). done.
Qed.

Lemma dequeue_cons node w l2 : cycle (heap w) (node :: l2) -> NoDup (LIST :: node :: l2) ->
  exists h', fdevent_plist_dequeue w = Val (node, with_heap h' w) /\ same_core (heap w) h' /\ cycle h' l2.
Proof.
  intros Hc Hnd. destruct (cycle_split _ [] _ _ Hc) as (A & p0 & n0 & B & EA & EB & Hl1 & Hl2).
  assert (A = [] /\ p0 = LIST) as [-> ->] by (destruct A as [| ? []]; naive_solver).
  destruct (unlink_ne [] _ _ _ _ _ _ Hnd EA EB) as [Hp0 Hn0].
  destruct (link_some _ _ _ Hl1) as [[f0 Hf0] [f Hf]], (link_some _ _ _ Hl2) as [_ Sn].
  unfold fdevent_plist_dequeue. rewrite (deref_Val _ _ _ Hf0). cbn [mbind outcome_bind].
  assert (next f0 = node) as -> by (by apply (link_get _ _ _ LIST node Hf0)). rewrite (proj2 (Z.eqb_neq node LIST)) by done.
  rewrite (deref_Val _ _ _ Hf). cbn [mbind outcome_bind]. assert (next f = n0) as -> by (by apply (link_get _ _ _ LIST n0 Hf)).
  destruct (upd_next LIST n0 w) as (h1 & -> & C1 & N1 & P1); [eauto |]. cbn [mbind outcome_bind].
  assert (is_Some (h1 !! LIST)) as [f1 Hf1] by (apply (same_core_some (heap w)); eauto).
  rewrite (deref_Val LIST (with_heap h1 w) f1 Hf1). cbn [mbind outcome_bind].
  assert (next f1 = n0) as ->.
  { destruct (get_links _ _ _ Hf1) as [En _]. rewrite N1, decide_True in En by done. congruence. }
  destruct (upd_prev n0 LIST (with_heap h1 w)) as (h2 & -> & C2 & N2 & P2); [by apply (same_core_some (heap w)) |].
  cbn [mbind outcome_bind heap with_heap] in *. rewrite with_heap_heap.
  assert (same_core (heap w) h2) as C12 by (by eapply same_core_trans).
  destruct (clear_links node (with_heap h2 w)) as (h3 & E3 & C3 & N3 & P3); [apply (same_core_some (heap w)); [done | eauto] |].
  cbn [heap with_heap] in *. unfold mbind, outcome_bind in E3 |- *.
  destruct (upd node (with_next NULL) (with_heap h2 w)); [| done]. rewrite E3. exists h3.
  split; [done |]. split; [by eapply same_core_trans |].
  apply (unlink_cycle (heap w) h3 [] node l2 [] LIST n0 B); try done; intros q Hq.
  - by rewrite N3, N2, N1 by done.
  - by rewrite P3, P2, P1 by done.
Qed.

(** ** Flags *)

Class SingleBit (b : Z) := single_bit : exists k, 0 <= k /\ b = 2 ^ k.
#[export] Instance bit_read : SingleBit FDE_READ.
Proof. by exists 0. Qed.
#[export] Instance bit_write : SingleBit FDE_WRITE.
Proof. by exists 1. Qed.
#[export] Instance bit_error : SingleBit FDE_ERROR.
Proof. by exists 2. Qed.
#[export] Instance bit_active : SingleBit FDE_ACTIVE.
Proof. by exists 8. Qed.
#[export] Instance bit_pending : SingleBit FDE_PENDING.
Proof. by exists 9. Qed.

Lemma flag_testbit k s : 0 <= k -> flag s (2 ^ k) = Z.testbit s k.
Proof.
  intros Hk. unfold flag. destruct (Z.testbit s k) eqn:E.
  - apply negb_true_iff, Z.eqb_neq. intros E0. assert (Z.testbit (Z.land s (2 ^ k)) k = false) as Hf by (by rewrite E0, Z.bits_0).
    by rewrite Z.land_spec, E, Z.pow2_bits_true in Hf.
  - apply negb_false_iff, Z.eqb_eq, Z.bits_inj'. intros j Hj. rewrite Z.land_spec, Z.bits_0.
    destruct (decide (j = k)) as [-> | Hne]; [by rewrite E | rewrite Z.pow2_bits_false by done; apply andb_false_r].
Qed.

Section Bits.
Context (b : Z) `{Hb : !SingleBit b}.
Lemma flag_lor s s' : flag (Z.lor s s') b = flag s b || flag s' b.
Proof. destruct Hb as (k & Hk & ->). by rewrite !flag_testbit, Z.lor_spec. Qed.
Lemma flag_land s s' : flag (Z.land s s') b = flag s b && flag s' b.
Proof. destruct Hb as (k & Hk & ->). by rewrite !flag_testbit, Z.land_spec. Qed.
Lemma flag_lnot s : flag (Z.lnot s) b = negb (flag s b).
Proof. destruct Hb as (k & Hk & ->). by rewrite !flag_testbit, Z.lnot_spec. Qed.
End Bits.

(** Reduces the flags of a computed state to those of its parts. *)
Ltac flags :=
  rewrite ?flag_lor, ?flag_land, ?flag_lnot by apply _;
  repeat match goal with
  | |- context [flag ?a ?b] =>
      is_const b; first [is_const a | match a with 0 => idtac end];
      let v := eval vm_compute in (flag a b) in change (flag a b) with v
  end;
  rewrite ?andb_true_r, ?andb_false_r, ?orb_true_r, ?orb_false_r; cbn [negb andb orb].

(** ** The invariant *)

(** The objects other than the head of the list. *)
Definition object (w : world) (p : Z) : option fdevent := if decide (p = LIST) then None else heap w !! p.
Definition st (w : world) (p : Z) : Z := from_option state 0 (object w p).
Definition fd_of (w : world) (p : Z) : Z := from_option fd (-1) (object w p).

(** A set of descriptors holds those whose object in the table has the flag. *)
Definition watched (t : list Z) (s : Z -> Z) (bit : Z) (X : gset Z) : Prop :=
  forall i, i ∈ X <-> exists p, load t i = Val p /\ flag (s p) bit = true.

(** [l] are the pending objects, in order. *)
Record wf (w : world) (l : list Z) : Prop := {
  wf_nodup : NoDup (LIST :: l);
  wf_cycle : cycle (heap w) l;
  wf_null : heap w !! NULL = None;
  wf_pending p : flag (st w p) FDE_PENDING = true <-> p ∈ l;
  wf_live p : flag (st w p) FDE_PENDING = true -> flag (st w p) FDE_ACTIVE = true;
  wf_active p : flag (st w p) FDE_ACTIVE = true -> 0 <= fd_of w p < select_n w /\ load (fd_table w) (fd_of w p) = Val p;
  wf_table i p : load (fd_table w) i = Val p -> p <> NULL -> flag (st w p) FDE_ACTIVE = true /\ fd_of w p = i;
  wf_select : 0 <= select_n w <= zlen (fd_table w) /\ select_n w <= FD_SETSIZE;
  wf_read : watched (fd_table w) (st w) FDE_READ (read_fds w);
  wf_write : watched (fd_table w) (st w) FDE_WRITE (write_fds w);
  wf_error : watched (fd_table w) (st w) FDE_ERROR (error_fds w)
}.

Lemma object_put p g w q : p <> LIST -> object (put p g w) q = if decide (q = p) then Some g else object w q.
Proof.
  intros Hp. unfold object. cbn [heap put]. destruct (decide (q = p)) as [-> | Hq].
  - by rewrite decide_False, lookup_insert_eq.
  - by rewrite lookup_insert_ne by done.
Qed.

Lemma st_put p g w q : p <> LIST -> st (put p g w) q = if decide (q = p) then state g else st w q.
Proof. intros Hp. unfold st. rewrite object_put by done. by case_decide. Qed.
Lemma fd_put p g w q : p <> LIST -> fd_of (put p g w) q = if decide (q = p) then fd g else fd_of w q.
Proof. intros Hp. unfold fd_of. rewrite object_put by done. by case_decide. Qed.

Lemma st_at p f w : p <> LIST -> heap w !! p = Some f -> st w p = state f /\ fd_of w p = fd f.
Proof. intros Hp Hf. unfold st, fd_of, object. by rewrite decide_False, Hf. Qed.

Lemma flag_0 b : flag 0 b = false.
Proof. unfold flag. by rewrite Z.land_0_l. Qed.

Lemma st_some w p bit : flag (st w p) bit = true -> p <> LIST /\ exists f, heap w !! p = Some f.
Proof.
  unfold st, object. case_decide; [simpl; by rewrite flag_0 |]. destruct (heap w !! p) eqn:E; [eauto | simpl; by rewrite flag_0].
Qed.

Lemma core_views w h : same_core (heap w) h -> (forall q, st (with_heap h w) q = st w q) /\ (forall q, fd_of (with_heap h w) q = fd_of w q).
Proof.
  intros Hs. split; intros q; unfold st, fd_of, object; case_decide; try done; specialize (Hs q); cbn [heap with_heap];
    destruct (h !! q), (heap w !! q); try done; simpl in *; unfold core, with_next, with_prev in Hs; simpl in Hs; congruence.
Qed.

Lemma cycle_put h p f g l : h !! p = Some f -> next g = next f -> prev g = prev f -> cycle h l -> cycle (<[p := g]> h) l.
Proof.
  intros Hf En Ep Hc. assert ((forall q, nxt (<[p := g]> h) q = nxt h q) /\ (forall q, prv (<[p := g]> h) q = prv h q)) as [Hn Hp].
  { split; intros q; unfold nxt, prv; (destruct (decide (q = p)) as [-> | Hq]; [| by rewrite lookup_insert_ne]);
      rewrite lookup_insert_eq, Hf; simpl; congruence. }
  unfold cycle in *. apply (chain_frame h _ _ LIST (l ++ [LIST]) (LIST :: l) LIST); auto.
Qed.

Lemma wf_ne w l p f : wf w l -> heap w !! p = Some f -> p <> NULL.
Proof. intros Hw Hf ->. by rewrite (wf_null _ _ Hw) in Hf. Qed.

(** ** Steps that keep the invariant *)

(** The state of one object, not its activity, and the list change. *)
Lemma wf_change w w' l l' p : wf w l -> (forall q, q <> p -> st w' q = st w q) -> (forall q, fd_of w' q = fd_of w q) ->
  flag (st w' p) FDE_ACTIVE = flag (st w p) FDE_ACTIVE ->
  (flag (st w' p) FDE_PENDING = true <-> p ∈ l') -> (p ∈ l' -> flag (st w p) FDE_ACTIVE = true) ->
  (forall q, q <> p -> q ∈ l' <-> q ∈ l) -> NoDup (LIST :: l') -> cycle (heap w') l' -> heap w' !! NULL = None ->
  fd_table w' = fd_table w -> select_n w' = select_n w ->
  watched (fd_table w) (st w') FDE_READ (read_fds w') -> watched (fd_table w) (st w') FDE_WRITE (write_fds w') ->
  watched (fd_table w) (st w') FDE_ERROR (error_fds w') -> wf w' l'.
Proof.
  intros Hw Hst Hfd Ha Hp Hpa Hl Hnd Hc Hnull Ht Hsel Hr Hwr He.
  assert (forall q, flag (st w' q) FDE_ACTIVE = flag (st w q) FDE_ACTIVE) as HA.
  { intros q. destruct (decide (q = p)) as [-> | Hq]; [done | by rewrite Hst]. }
  split; rewrite ?Ht, ?Hsel; try done.
  - intros q. destruct (decide (q = p)) as [-> | Hq]; [done | rewrite Hst, Hl by done; apply (wf_pending _ _ Hw)].
  - intros q Hq. rewrite HA. destruct (decide (q = p)) as [-> | Hne]; [by apply Hpa, Hp |].
    rewrite Hst in Hq by done. by apply (wf_live _ _ Hw).
  - intros q. rewrite HA, Hfd. apply (wf_active _ _ Hw).
  - intros i q. rewrite HA, Hfd. apply (wf_table _ _ Hw).
  - apply (wf_select _ _ Hw).
Qed.

Lemma watched_same t s s' bit X : (forall q, flag (s' q) bit = flag (s q) bit) -> watched t s bit X -> watched t s' bit X.
Proof. intros Hs Hx i. rewrite (Hx i). split; intros (p & Hp & Hf); exists p; split; congruence. Qed.

(** Where the event flags stay, the sets do. *)
Lemma wf_change_links w w' l l' p : wf w l -> (forall q, q <> p -> st w' q = st w q) -> (forall q, fd_of w' q = fd_of w q) ->
  (forall bit, bit ∈ [FDE_ACTIVE; FDE_READ; FDE_WRITE; FDE_ERROR] -> flag (st w' p) bit = flag (st w p) bit) ->
  (flag (st w' p) FDE_PENDING = true <-> p ∈ l') -> (p ∈ l' -> flag (st w p) FDE_ACTIVE = true) ->
  (forall q, q <> p -> q ∈ l' <-> q ∈ l) -> NoDup (LIST :: l') -> cycle (heap w') l' -> heap w' !! NULL = None ->
  fd_table w' = fd_table w -> select_n w' = select_n w -> read_fds w' = read_fds w -> write_fds w' = write_fds w ->
  error_fds w' = error_fds w -> wf w' l'.
Proof.
  intros Hw Hst Hfd Hb Hp Hpa Hl Hnd Hc Hnull Ht Hsel Hr Hwr He.
  assert (forall bit, bit ∈ [FDE_ACTIVE; FDE_READ; FDE_WRITE; FDE_ERROR] -> forall q, flag (st w' q) bit = flag (st w q) bit) as Hs.
  { intros bit Hbit q. destruct (decide (q = p)) as [-> | Hq]; [by apply Hb | by rewrite Hst]. }
  apply (wf_change w w' l l' p); rewrite ?Hr, ?Hwr, ?He; try done.
  - apply Hb. set_solver.
  - apply (watched_same _ (st w)); [apply Hs; set_solver | apply (wf_read _ _ Hw)].
  - apply (watched_same _ (st w)); [apply Hs; set_solver | apply (wf_write _ _ Hw)].
  - apply (watched_same _ (st w)); [apply Hs; set_solver | apply (wf_error _ _ Hw)].
Qed.

(** An object of which the links, the descriptor and the state stay. *)
Lemma wf_put w l p f g : wf w l -> p <> LIST -> heap w !! p = Some f -> next g = next f -> prev g = prev f -> fd g = fd f ->
  state g = state f -> wf (put p g w) l.
Proof.
  intros Hw Hp Hf En Ep Ed Es. destruct (st_at p f w Hp Hf) as [Est Efd].
  assert (forall q, st (put p g w) q = st w q) as Hs by (intros q; rewrite st_put by done; case_decide; congruence).
  apply (wf_change_links w _ l l p Hw); try done; intros; rewrite ?Hs; try done.
  - rewrite fd_put by done. case_decide; congruence.
  - apply (wf_pending _ _ Hw).
  - by apply (wf_live _ _ Hw), (wf_pending _ _ Hw).
  - apply (wf_nodup _ _ Hw).
  - by apply (cycle_put _ _ f), (wf_cycle _ _ Hw).
  - cbn [heap put]. rewrite lookup_insert_ne by (by eapply wf_ne). apply (wf_null _ _ Hw).
Qed.

Lemma wf_emit ev w l : wf w l -> wf (emit ev w) l.
Proof. intros []. by split. Qed.

(** What the calls of the interface leave: the table and the callbacks. *)
Definition func_of (w : world) (p : Z) : option Z := func <$> heap w !! p.
Definition steady (w w' : world) : Prop := fd_table w' = fd_table w /\ forall q, func_of w' q = func_of w q.

Lemma steady_trans w1 w2 w3 : steady w1 w2 -> steady w2 w3 -> steady w1 w3.
Proof. intros [H1 H2] [H3 H4]. split; [congruence | intros q; by rewrite H4]. Qed.

Lemma steady_put p f g w : heap w !! p = Some f -> func g = func f -> steady w (put p g w).
Proof.
  intros Hf Hg. split; [done |]. intros q. unfold func_of. cbn [heap put].
  destruct (decide (q = p)) as [-> | Hq]; [rewrite lookup_insert_eq, Hf; simpl; congruence | by rewrite lookup_insert_ne].
Qed.

Lemma steady_core w h : same_core (heap w) h -> steady w (with_heap h w).
Proof.
  intros Hs. split; [done |]. intros q. specialize (Hs q). unfold func_of. cbn [heap with_heap].
  destruct (h !! q), (heap w !! q); try done. simpl in *. unfold core, with_next, with_prev in Hs. simpl in Hs. congruence.
Qed.

Lemma upd_put p g w f : heap w !! p = Some f -> upd p g w = Val (put p (g f) w).
Proof. intros Hf. unfold upd. by rewrite (deref_Val p w f). Qed.

Lemma heap_put p g w : heap (put p g w) !! p = Some g.
Proof. apply lookup_insert_eq. Qed.
Lemma put_put p g g' w : put p g' (put p g w) = put p g' w.
Proof. unfold put. cbn [heap]. by rewrite insert_insert_eq. Qed.

Definition st_with (p s : Z) (w : world) (q : Z) : Z := if decide (q = p) then s else st w q.

Lemma wf_set_state w l p f s r wr e : wf w l -> p <> LIST -> heap w !! p = Some f ->
  flag s FDE_ACTIVE = flag (state f) FDE_ACTIVE -> flag s FDE_PENDING = flag (state f) FDE_PENDING ->
  watched (fd_table w) (st_with p s w) FDE_READ r -> watched (fd_table w) (st_with p s w) FDE_WRITE wr ->
  watched (fd_table w) (st_with p s w) FDE_ERROR e -> wf (put p (with_state s f) (with_sets r wr e w)) l.
Proof.
  intros Hw Hp Hf Ha Hpe Hr Hwr He. destruct (st_at p f w Hp Hf) as [Est Efd].
  assert (forall q, st (put p (with_state s f) (with_sets r wr e w)) q = st_with p s w q) as Hs by (intros q; by rewrite st_put).
  assert (st_with p s w p = s) as Hsp by (unfold st_with; by rewrite decide_True).
  apply (wf_change w _ l l p Hw); try done.
  - intros q Hq. rewrite Hs. unfold st_with. by rewrite decide_False.
  - intros q. rewrite fd_put by done. case_decide; [subst; done | done].
  - by rewrite Hs, Hsp, Ha, Est.
  - rewrite Hs, Hsp, Hpe, <- Est. apply (wf_pending _ _ Hw).
  - intros Hin. by apply (wf_live _ _ Hw), (wf_pending _ _ Hw).
  - apply (wf_nodup _ _ Hw).
  - by apply (cycle_put _ _ f), (wf_cycle _ _ Hw).
  - cbn [heap put with_sets]. rewrite lookup_insert_ne by (by eapply wf_ne). apply (wf_null _ _ Hw).
  - apply (watched_same _ (st_with p s w)); [intros q; by rewrite Hs | done].
  - apply (watched_same _ (st_with p s w)); [intros q; by rewrite Hs | done].
  - apply (watched_same _ (st_with p s w)); [intros q; by rewrite Hs | done].
Qed.

Lemma watched_inactive w l p s bit X : wf w l -> p <> NULL -> flag (st w p) FDE_ACTIVE = false ->
  watched (fd_table w) (st w) bit X -> watched (fd_table w) (st_with p s w) bit X.
Proof.
  intros Hw Hp Ha Hx i. rewrite (Hx i). split; intros (q & Hq & Hf); exists q; (split; [done |]); unfold st_with in *;
    destruct (decide (q = p)) as [-> |]; try done; destruct (wf_table _ _ Hw i p Hq Hp); congruence.
Qed.

(** The update of a set for an active object. *)
Lemma watched_update w l p s bit X : wf w l -> flag (st w p) FDE_ACTIVE = true -> watched (fd_table w) (st w) bit X ->
  exists X', set_or_clear (flag s bit) (fd_of w p) X = Val X' /\ watched (fd_table w) (st_with p s w) bit X'.
Proof.
  intros Hw Ha Hx. destruct (wf_active _ _ Hw p Ha) as [Hfd Hload]. pose proof (wf_select _ _ Hw) as [_ Hsel].
  assert (p <> NULL) as Hp by (destruct (st_some _ _ _ Ha) as (_ & f & Hf); by eapply wf_ne).
  assert (forall i q, i <> fd_of w p -> load (fd_table w) i = Val q -> q <> p) as Hother.
  { intros i q Hi Hq ->. destruct (wf_table _ _ Hw i p Hq Hp) as [_ E]. congruence. }
  unfold set_or_clear, FD_SET, FD_CLR. rewrite (proj2 (Z.leb_le 0 (fd_of w p))), (proj2 (Z.ltb_lt (fd_of w p) FD_SETSIZE)) by lia.
  cbn [andb].
  assert (forall i, (exists q, load (fd_table w) i = Val q /\ flag (st_with p s w q) bit = true) <->
    (i = fd_of w p /\ flag s bit = true) \/ (i <> fd_of w p /\ i ∈ X)) as Heq.
  { intros i. destruct (decide (i = fd_of w p)) as [-> | Hi].
    - rewrite Hload. unfold st_with. split; [intros (q & [= <-] & Hf); rewrite decide_True in Hf by done; auto |].
      intros [[_ Hs] | [? _]]; [| done]. exists p. by rewrite decide_True.
    - rewrite (Hx i). split; [| intros [[? _] | [_ (q & Hq & Hf)]]; [done |]].
      + intros (q & Hq & Hf). right. split; [done |]. exists q. unfold st_with in Hf. by rewrite decide_False in Hf by (by eapply Hother).
      + exists q. unfold st_with. by rewrite decide_False by (by eapply Hother). }
  destruct (flag s bit); eexists; (split; [reflexivity |]); intros i; rewrite Heq.
  - rewrite elem_of_union, elem_of_singleton. destruct (decide (i = fd_of w p)); naive_solver.
  - rewrite elem_of_difference, elem_of_singleton. naive_solver.
Qed.

(** fdevent_update on an active object. *)
Lemma update_spec w l p f evs : wf w l -> p <> LIST -> heap w !! p = Some f -> flag (state f) FDE_ACTIVE = true ->
  exists r wr e, fdevent_update p evs w = Val (put p (with_state (Z.lor (Z.land (state f) FDE_STATEMASK) evs) f) (with_sets r wr e w)) /\
    forall s, flag s FDE_READ = flag evs FDE_READ -> flag s FDE_WRITE = flag evs FDE_WRITE -> flag s FDE_ERROR = flag evs FDE_ERROR ->
      watched (fd_table w) (st_with p s w) FDE_READ r /\ watched (fd_table w) (st_with p s w) FDE_WRITE wr /\
      watched (fd_table w) (st_with p s w) FDE_ERROR e.
Proof.
  intros Hw Hp Hf Ha. destruct (st_at p f w Hp Hf) as [Est Efd]. assert (flag (st w p) FDE_ACTIVE = true) as Hact by (by rewrite Est).
  destruct (watched_update w l p evs FDE_READ _ Hw Hact (wf_read _ _ Hw)) as (r & Er & Hr).
  destruct (watched_update w l p evs FDE_WRITE _ Hw Hact (wf_write _ _ Hw)) as (wr & Ew & Hwr).
  destruct (watched_update w l p evs FDE_ERROR _ Hw Hact (wf_error _ _ Hw)) as (e & Ee & He).
  exists r, wr, e. rewrite Efd in *. unfold fdevent_update. rewrite (deref_Val _ _ _ Hf). cbn [mbind outcome_bind].
  rewrite Er. cbn [mbind outcome_bind]. rewrite Ew. cbn [mbind outcome_bind]. rewrite Ee. cbn [mbind outcome_bind].
  split; [by apply (upd_put p _ (with_sets r wr e w) f) |]. intros s H1 H2 H3.
  split_and!; (eapply watched_same; [| done]); intros q; unfold st_with; by case_decide.
Qed.

(** Flags of the state that fdevent_set stores. *)
Lemma set_state_flags s evs : let evs := Z.land evs FDE_EVENTMASK in let s' := Z.lor (Z.land s FDE_STATEMASK) evs in
  flag s' FDE_ACTIVE = flag s FDE_ACTIVE /\ flag s' FDE_PENDING = flag s FDE_PENDING /\
  flag s' FDE_READ = flag evs FDE_READ /\ flag s' FDE_WRITE = flag evs FDE_WRITE /\ flag s' FDE_ERROR = flag evs FDE_ERROR.
Proof. cbv zeta. flags. done. Qed.

(** An object leaves the list. *)
Lemma wf_leave w l1 l2 p h g : wf w (l1 ++ p :: l2) -> same_core (heap w) h -> cycle h (l1 ++ l2) ->
  (forall f, h !! p = Some f -> next g = next f /\ prev g = prev f) -> fd g = fd_of w p -> flag (state g) FDE_PENDING = false ->
  (forall bit, bit ∈ [FDE_ACTIVE; FDE_READ; FDE_WRITE; FDE_ERROR] -> flag (state g) bit = flag (st w p) bit) ->
  wf (put p g (with_heap h w)) (l1 ++ l2).
Proof.
  intros Hw Hs Hc Hg Hd Hpe Hb. destruct (core_views w h Hs) as [Hst Hfd].
  assert (p ∈ l1 ++ p :: l2) as Hin by (apply elem_of_app; right; by left).
  destruct (st_some w p FDE_PENDING) as (Hp & f & Hf); [by apply (wf_pending _ _ Hw) |].
  assert (is_Some (h !! p)) as [f' Hf'] by (apply (same_core_some (heap w)); eauto).
  pose proof (wf_nodup _ _ Hw) as Hnd. assert (NoDup (p :: LIST :: l1 ++ l2)) as [Hpn Hnd']%NoDup_cons.
  { eapply NoDup_Permutation_proper; [| exact Hnd]. rewrite perm_swap, Permutation_middle. done. }
  destruct (Hg f' Hf') as [En Ep]. apply (wf_change_links w _ (l1 ++ p :: l2) (l1 ++ l2) p Hw); try done.
  - intros q Hq. by rewrite st_put, decide_False, Hst.
  - intros q. rewrite fd_put by done. case_decide; [by subst | apply Hfd].
  - intros bit Hbit. rewrite st_put, decide_True by done. auto.
  - rewrite st_put, decide_True, Hpe by done. split; [done |]. intros Hx. destruct Hpn. by right.
  - intros Hx. destruct Hpn. by right.
  - intros q Hq. rewrite !elem_of_app, elem_of_cons. naive_solver.
  - by apply (cycle_put _ _ f').
  - cbn [heap put with_heap]. rewrite lookup_insert_ne by (by eapply wf_ne). specialize (Hs NULL).
    rewrite (wf_null _ _ Hw) in Hs. by destruct (h !! NULL).
Qed.

Lemma core_fd w h p f : same_core (heap w) h -> p <> LIST -> h !! p = Some f -> fd f = fd_of w p /\ state f = st w p.
Proof.
  intros Hs Hp Hf. destruct (core_views w h Hs) as [<- <-]. by destruct (st_at p f (with_heap h w) Hp Hf) as [-> ->].
Qed.

(** fdevent_set on a state that is already stored: the end of the function. *)
Lemma drop_events_spec w l p f evs : wf w l -> p <> LIST -> heap w !! p = Some f ->
  exists w' l', (let* f := deref p w in
    if flag (state f) FDE_PENDING then
      let* w := upd p (fun f => with_events (Z.land (events f) (Z.lnot evs)) f) w in
      let* f := deref p w in
      if events f =? 0 then
        let* w := fdevent_plist_remove p w in
        upd p (fun f => with_state (Z.land (state f) (Z.lnot FDE_PENDING)) f) w
      else Val w
    else Val w) = Val w' /\ wf w' l' /\ steady w w'.
Proof.
  intros Hw Hp Hf. rewrite (deref_Val _ _ _ Hf). cbn [mbind outcome_bind].
  destruct (flag (state f) FDE_PENDING) eqn:Hpe; [| by exists w, l].
  rewrite (upd_put _ _ _ _ Hf). cbn [mbind outcome_bind]. set (w1 := put p _ w).
  assert (heap w1 !! p = Some (with_events (Z.land (events f) (Z.lnot evs)) f)) as Hf1 by apply heap_put.
  assert (wf w1 l) as Hw1 by (by apply (wf_put w l p f)). assert (steady w w1) as Hs1 by (by apply (steady_put p f)).
  rewrite (deref_Val _ _ _ Hf1). cbn [mbind outcome_bind].
  destruct (_ =? 0); [| by exists w1, l].
  assert (p ∈ l) as (l1 & l2 & ->)%list_elem_of_split.
  { apply (wf_pending _ _ Hw). by destruct (st_at p f w Hp Hf) as [-> _]. }
  destruct (remove_spec p w1 l1 l2) as (h & Eh & Hs & Hc); [apply Hw1 | apply Hw1 |]. rewrite Eh. cbn [mbind outcome_bind].
  assert (is_Some (h !! p)) as [f2 Hf2] by (apply (same_core_some (heap w1)); eauto).
  rewrite (upd_put p _ (with_heap h w1) f2 Hf2). eexists _, (l1 ++ l2). split; [done |].
  destruct (core_fd w1 h p f2 Hs Hp Hf2) as [Efd Est]. split.
  - apply wf_leave; try done.
    + intros f3 Hf3. by simplify_eq.
    + simpl. by flags.
    + intros bit Hbit. simpl. rewrite <- Est. repeat (apply elem_of_cons in Hbit as [-> | Hbit]; [by flags |]). by apply elem_of_nil in Hbit.
  - eapply steady_trans; [done |]. eapply steady_trans; [by apply steady_core |]. by apply (steady_put p f2).
Qed.

Lemma set_spec w l p f evs : wf w l -> p <> LIST -> heap w !! p = Some f ->
  exists w' l', fdevent_set p evs w = Val w' /\ wf w' l' /\ steady w w'.
Proof.
  intros Hw Hp Hf. unfold fdevent_set. rewrite (deref_Val _ _ _ Hf). cbn [mbind outcome_bind].
  destruct (_ =? _); [by exists w, l |]. destruct (st_at p f w Hp Hf) as [Est Efd].
  pose proof (set_state_flags (state f) evs) as Hfl. cbv zeta in Hfl. set (ev := Z.land evs FDE_EVENTMASK) in *.
  set (s1 := Z.lor (Z.land (state f) FDE_STATEMASK) ev) in *. destruct Hfl as (Fa & Fp & Fr & Fw & Fe).
  destruct (flag (state f) FDE_ACTIVE) eqn:Ha.
  - destruct (update_spec w l p f ev Hw Hp Hf Ha) as (r & wr & e & -> & Hsets). fold s1. cbn [mbind outcome_bind].
    rewrite (upd_put _ _ _ _ (heap_put p _ _)). cbn [mbind outcome_bind]. rewrite put_put. cbn [state with_state].
    pose proof (set_state_flags s1 evs) as (Ga & Gp & Gr & Gw & Ge). fold ev in Ga, Gp, Gr, Gw, Ge.
    set (s2 := Z.lor (Z.land s1 FDE_STATEMASK) ev) in *. set (w1 := put p _ _).
    assert (wf w1 l) as Hw1.
    { destruct (Hsets s2 Gr Gw Ge) as (H1 & H2 & H3). by apply (wf_set_state w l p f s2 r wr e); try congruence. }
    assert (steady w w1) as Hs1 by (by apply (steady_put p f _ (with_sets r wr e w))).
    destruct (drop_events_spec w1 l p (with_state s2 f) ev Hw1 Hp (heap_put p _ _)) as (w' & l' & E & Hw' & Hs').
    exists w', l'. split; [exact E |]. split; [done | by eapply steady_trans].
  - cbn [mbind outcome_bind]. rewrite (upd_put _ _ _ _ Hf). cbn [mbind outcome_bind]. fold s1. set (w1 := put p _ _).
    assert (p <> NULL) as Hn by (by eapply wf_ne). assert (flag (st w p) FDE_ACTIVE = false) as Hin by (by rewrite Est).
    assert (wf w1 l) as Hw1.
    { apply (wf_set_state w l p f s1 (read_fds w) (write_fds w) (error_fds w)); try congruence;
        eapply watched_inactive; try done; apply Hw. }
    assert (steady w w1) as Hs1 by (by apply (steady_put p f)).
    destruct (drop_events_spec w1 l p (with_state s1 f) ev Hw1 Hp (heap_put p _ _)) as (w' & l' & E & Hw' & Hs').
    exists w', l'. split; [exact E |]. split; [done | by eapply steady_trans].
Qed.

Lemma add_spec w l p f evs : wf w l -> p <> LIST -> heap w !! p = Some f ->
  exists w' l', fdevent_add p evs w = Val w' /\ wf w' l' /\ steady w w'.
Proof. intros Hw Hp Hf. unfold fdevent_add. rewrite (deref_Val _ _ _ Hf). by apply (set_spec w l p f). Qed.

Lemma del_spec w l p f evs : wf w l -> p <> LIST -> heap w !! p = Some f ->
  exists w' l', fdevent_del p evs w = Val w' /\ wf w' l' /\ steady w w'.
Proof. intros Hw Hp Hf. unfold fdevent_del. rewrite (deref_Val _ _ _ Hf). by apply (set_spec w l p f). Qed.

(** ** Events from select() *)

(** An active object becomes pending. *)
Lemma enqueue_pending w l p f : wf w l -> p <> LIST -> heap w !! p = Some f -> flag (state f) FDE_ACTIVE = true ->
  flag (state f) FDE_PENDING = false ->
  exists w', fdevent_plist_enqueue p (put p (with_state (Z.lor (state f) FDE_PENDING) f) w) = Val w' /\ wf w' (l ++ [p]) /\
    fd_table w' = fd_table w /\ select_n w' = select_n w.
Proof.
  intros Hw Hp Hf Ha Hpe. destruct (st_at p f w Hp Hf) as [Est Efd]. set (w1 := put p _ w).
  assert (p ∉ LIST :: l) as Hni.
  { intros [-> | Hin]%elem_of_cons; [done |]. apply (wf_pending _ _ Hw) in Hin. congruence. }
  destruct (enqueue_spec p w1 l) as (h & -> & Hs & Hc).
  { by apply (cycle_put _ _ f), (wf_cycle _ _ Hw). }
  { apply Hw. } { done. } { subst w1. rewrite heap_put. eauto. }
  eexists. split; [done |]. split; [| done]. destruct (core_views w1 h Hs) as [Hst Hfd].
  apply (wf_change_links w _ l (l ++ [p]) p Hw); try done.
  - intros q Hq. subst w1. by rewrite Hst, st_put, decide_False.
  - intros q. subst w1. rewrite Hfd, fd_put by done. case_decide; [by subst | done].
  - intros bit Hbit. subst w1. rewrite Hst, st_put, decide_True, Est by done. cbn [state with_state].
    repeat (apply elem_of_cons in Hbit as [-> | Hbit]; [by flags |]). by apply elem_of_nil in Hbit.
  - subst w1. rewrite Hst, st_put, decide_True by done. cbn [state with_state]. flags.
    split; [| done]. intros _. apply elem_of_app. right. by left.
  - intros _. by rewrite Est.
  - intros q Hq. rewrite elem_of_app, list_elem_of_singleton. naive_solver.
  - rewrite app_comm_cons. apply NoDup_app. split_and!; [apply Hw | | apply NoDup_singleton].
    intros q Hq ->%list_elem_of_singleton. done.
  - specialize (Hs NULL). subst w1. cbn [heap put] in Hs. rewrite lookup_insert_ne in Hs by (by eapply wf_ne).
    rewrite (wf_null _ _ Hw) in Hs. cbn [heap with_heap]. by destruct (h !! NULL).
Qed.

Lemma signal_spec w l i p evs : wf w l -> load (fd_table w) i = Val p -> p <> NULL ->
  exists w' l', signal i evs w = Val w' /\ wf w' l' /\ fd_table w' = fd_table w /\ select_n w' = select_n w.
Proof.
  intros Hw Hi Hn. destruct (wf_table _ _ Hw i p Hi Hn) as [Ha _]. destruct (st_some _ _ _ Ha) as (Hp & f & Hf).
  destruct (st_at p f w Hp Hf) as [Est _]. rewrite Est in Ha. unfold signal. rewrite Hi. cbn [mbind outcome_bind].
  rewrite (proj2 (Z.eqb_neq p NULL)) by done. rewrite (upd_put _ _ _ _ Hf). cbn [mbind outcome_bind]. set (w1 := put p _ w).
  assert (wf w1 l) as Hw1 by (by apply (wf_put w l p f)). rewrite (deref_Val _ w1 _ (heap_put p _ w)). cbn [mbind outcome_bind state with_events].
  destruct (flag (state f) FDE_PENDING) eqn:Hpe; [by exists w1, l |].
  rewrite (upd_put _ _ w1 _ (heap_put p _ w)). cbn [mbind outcome_bind].
  destruct (enqueue_pending w1 l p _ Hw1 Hp (heap_put p _ w) Ha Hpe) as (w' & E & Hw' & Ht). cbn [state with_events] in *.
  by exists w', (l ++ [p]).
Qed.

(** All the descriptors of the set have an object. *)
Definition covered (t : list Z) (X : gset Z) : Prop := forall i, i ∈ X -> exists p, load t i = Val p /\ p <> NULL.

Lemma events_of_covered t i r wr e : covered t r -> covered t wr -> covered t e -> events_of i r wr e <> 0 ->
  exists p, load t i = Val p /\ p <> NULL.
Proof.
  intros Hr Hw He. unfold events_of. repeat case_bool_decide; try done; intros; auto.
Qed.

Lemma ready_loop_spec r wr e k : forall i n w l, wf w l -> covered (fd_table w) r -> covered (fd_table w) wr -> covered (fd_table w) e ->
  exists w' l', ready_loop k i n r wr e w = Val w' /\ wf w' l'.
Proof.
  induction k as [| k IH]; intros i n w l Hw Hr Hwr He; simpl; [by exists w, l |]. destruct (0 <? n); simpl; [| by exists w, l].
  destruct (Z.eqb_spec (events_of i r wr e) 0) as [E | E]; simpl; [by apply (IH _ _ w l) |].
  destruct (events_of_covered (fd_table w) i r wr e) as (p & Hp & Hn); try done.
  destruct (signal_spec w l i p (events_of i r wr e) Hw Hp Hn) as (w1 & l1 & -> & Hw1 & Ht & _). cbn [mbind outcome_bind].
  apply (IH _ _ w1 l1); rewrite ?Ht; done.
Qed.

Lemma fd_check_loop_spec bad w l k : forall i n fds, wf w l -> 0 <= i -> i + Z.of_nat k <= select_n w -> covered (fd_table w) fds ->
  exists n' fds', fd_check_loop bad k i n fds w = Val (n', fds') /\ covered (fd_table w) fds'.
Proof.
  induction k as [| k IH]; intros i n fds Hw Hi Hk Hc; simpl; [eauto |]. pose proof (wf_select _ _ Hw) as [Hs1 Hs2].
  destruct (load_some (fd_table w) i) as [p Hp]; [lia |]. rewrite Hp. cbn [mbind outcome_bind].
  destruct (Z.eqb_spec p NULL) as [_ | Hn]; [apply IH; [done | lia | lia | done] |].
  destruct (bad i); [| apply IH; [done | lia | lia | done]]. unfold FD_SET.
  rewrite (proj2 (Z.leb_le 0 i)), (proj2 (Z.ltb_lt i FD_SETSIZE)) by lia. cbn [andb mbind outcome_bind].
  apply IH; [done | lia | lia |]. intros j [->%elem_of_singleton | Hj]%elem_of_union; eauto.
Qed.

Lemma watched_covered w l bit X Y : wf w l -> watched (fd_table w) (st w) bit X -> Y ⊆ X -> covered (fd_table w) Y.
Proof.
  intros Hw Hx HY i Hi%HY. apply Hx in Hi as (p & Hp & Hf). exists p. split; [done |].
  apply st_some in Hf as (_ & f & Hf). by eapply wf_ne.
Qed.

(** select() only leaves descriptors in a set that were there. *)
Definition select_contract (w : world) (res : select_result) : Prop :=
  match res with
  | Ready _ r wr e => r ⊆ read_fds w /\ wr ⊆ write_fds w /\ e ⊆ error_fds w
  | _ => True
  end.

Lemma fde_process_spec w l res bad : wf w l -> select_contract w res ->
  exists w' l', fdevent_process res bad w = Val w' /\ wf w' l'.
Proof.
  intros Hw Hres. pose proof (wf_select _ _ Hw) as [Hs1 Hs2].
  assert (forall fds, covered (fd_table w) fds -> exists n fds', fdevent_fd_check bad fds w = Val (n, fds') /\ covered (fd_table w) fds') as Hchk.
  { intros fds Hc. apply (fd_check_loop_spec bad w l); [done | lia | lia | done]. }
  assert (covered (fd_table w) ∅) as H0 by (intros i []%elem_of_empty).
  destruct res as [n r wr e | | |]; simpl; [| by exists w, l | | by exists w, l].
  - destruct Hres as (Hr & Hwr & He).
    assert (covered (fd_table w) r) as Cr by (eapply watched_covered; [done | apply (wf_read _ _ Hw) | done]).
    assert (covered (fd_table w) wr) as Cw by (eapply watched_covered; [done | apply (wf_write _ _ Hw) | done]).
    assert (covered (fd_table w) e) as Ce by (eapply watched_covered; [done | apply (wf_error _ _ Hw) | done]).
    destruct (n <=? 0); [| by apply (ready_loop_spec r wr e _ _ _ w l)].
    destruct (Hchk r Cr) as (n' & r' & -> & Cr'). by apply (ready_loop_spec r' wr e _ _ _ w l).
  - destruct (Hchk ∅ H0) as (n' & r' & -> & Cr'). by apply (ready_loop_spec r' ∅ ∅ _ _ _ w l).
Qed.

(** ** Callbacks *)

(** The object when its callback is called. *)
Definition cleared (f : fdevent) : fdevent := with_state (Z.land (state f) (Z.lnot FDE_PENDING)) (with_events 0 f).

Lemma pend_unpend s : flag s FDE_PENDING = false -> Z.land (Z.lor s FDE_PENDING) (Z.lnot FDE_PENDING) = s.
Proof.
  change FDE_PENDING with (2 ^ 9). rewrite flag_testbit by lia. intros Hs. apply Z.bits_inj'. intros j Hj.
  rewrite Z.land_spec, Z.lor_spec, Z.lnot_spec by done. destruct (decide (j = 9)) as [-> | Hne].
  - by rewrite Hs, Z.pow2_bits_true.
  - by rewrite Z.pow2_bits_false, orb_false_r, andb_true_r by done.
Qed.

Lemma call_plain `{Arch} subs p f w : heap w !! p = Some f -> flag (state f) FDE_PENDING = true -> func f <> SUBPROC ->
  fdevent_call_fdfunc subs p w = Val (emit (Callback (fd f) (events f) (func f) (arg f)) (put p (cleared f) w)).
Proof.
  intros Hf Hpe Hfn. destruct subs; cbn [fdevent_call_fdfunc]; rewrite (deref_Val _ _ _ Hf); cbn [mbind outcome_bind];
    rewrite (upd_put _ _ _ _ Hf); cbn [mbind outcome_bind]; rewrite Hpe; cbn [negb];
    rewrite (upd_put _ _ _ _ (heap_put p _ w)); cbn [mbind outcome_bind]; rewrite put_put;
    by rewrite (proj2 (Z.eqb_neq (func f) SUBPROC) Hfn).
Qed.

(** A message about descriptor [s] that fdevent_subproc_event_func reads. *)
Lemma force_eof_spec `{Arch} subs s rcount w l : wf w l ->
  (forall q, load (fd_table w) s = Val q -> func_of w q <> Some SUBPROC) ->
  exists w' l', (if (s <? 0) || (zlen (fd_table w) <=? s) then Val w else
      let* q := load (fd_table w) s in
      if q =? NULL then Val w else
      let* g := deref q w in
      if negb (fd g =? s) then Val w else
      let* w := upd q (with_eof 1) w in
      if negb (rcount =? 0) then Val w else
      let* w := upd q (fun f => with_events (Z.lor (events f) FDE_READ) f) w in
      let* g := deref q w in
      if flag (state g) FDE_PENDING then Val w else
      let* w := upd q (fun f => with_state (Z.lor (state f) FDE_PENDING) f) w in
      fdevent_call_fdfunc subs q w) = Val w' /\ wf w' l'.
Proof.
  intros Hw Hmsg. destruct (Z.ltb_spec s 0); [by exists w, l |]. destruct (Z.leb_spec (zlen (fd_table w)) s); [by exists w, l |].
  destruct (load_some (fd_table w) s) as [q Hq]; [lia |]. cbn [orb]. rewrite Hq. cbn [mbind outcome_bind].
  destruct (Z.eqb_spec q NULL) as [| Hn]; [by exists w, l |]. destruct (wf_table _ _ Hw s q Hq Hn) as [Ha Hfd].
  destruct (st_some _ _ _ Ha) as (Hp & g & Hg). destruct (st_at q g w Hp Hg) as [Est Efd].
  rewrite (deref_Val _ _ _ Hg). cbn [mbind outcome_bind]. destruct (fd g =? s); cbn [negb]; [| by exists w, l].
  rewrite (upd_put _ _ _ _ Hg). cbn [mbind outcome_bind].
  destruct (rcount =? 0); cbn [negb]; [| eexists _, l; split; [done | by apply (wf_put w l q g)]].
  rewrite (upd_put _ _ _ _ (heap_put q _ w)). cbn [mbind outcome_bind]. rewrite put_put.
  rewrite (deref_Val _ _ _ (heap_put q _ w)). cbn [mbind outcome_bind state with_events with_eof].
  destruct (flag (state g) FDE_PENDING) eqn:Hpe; [eexists _, l; split; [done | by apply (wf_put w l q g)] |].
  rewrite (upd_put _ _ _ _ (heap_put q _ w)). cbn [mbind outcome_bind]. rewrite put_put.
  eexists _, l. split.
  - apply call_plain; [apply heap_put | simpl; by flags |]. specialize (Hmsg q Hq). unfold func_of in Hmsg. rewrite Hg in Hmsg. simpl in *. intros E. by rewrite E in Hmsg.
  - apply wf_emit. rewrite put_put. apply (wf_put w l q g); try done. simpl. by apply pend_unpend.
Qed.

(** The messages are about descriptors that are not those of the notification itself. *)
Definition messages_ok (w : world) (subs : list (Z * Z)) : Prop :=
  subs <> [] /\ forall s rcount q, (s, rcount) ∈ subs -> load (fd_table w) s = Val q -> func_of w q <> Some SUBPROC.

Lemma fde_call_spec `{Arch} subs p f w l : p <> LIST -> heap w !! p = Some f -> flag (state f) FDE_PENDING = true ->
  flag (state f) FDE_ACTIVE = true -> wf (put p (cleared f) w) l -> messages_ok w subs ->
  exists w' l', fdevent_call_fdfunc subs p w = Val w' /\ wf w' l'.
Proof.
  intros Hp Hf Hpe Ha Hw [Hne Hmsg]. destruct (decide (func f = SUBPROC)) as [Efn | Hfn].
  2: { eexists _, l. split; [by apply call_plain | by apply wf_emit]. }
  destruct subs as [| [s rcount] subs]; [done |]. cbn [fdevent_call_fdfunc].
  rewrite (deref_Val _ _ _ Hf). cbn [mbind outcome_bind]. rewrite (upd_put _ _ _ _ Hf). cbn [mbind outcome_bind].
  rewrite Hpe. cbn [negb]. rewrite (upd_put _ _ _ _ (heap_put p _ w)). cbn [mbind outcome_bind]. rewrite put_put, Efn.
  change (with_state _ (with_events 0 f)) with (cleared f). cbn [negb Z.eqb SUBPROC Pos.eqb].
  set (w1 := emit _ _). assert (wf w1 l) as Hw1 by (by apply wf_emit).
  assert (st w1 p = state (cleared f) /\ fd_of w1 p = fd f) as [Est Efd] by (apply (st_at p (cleared f) w1 Hp), heap_put).
  assert (flag (st w1 p) FDE_ACTIVE = true) as Ha1 by (rewrite Est; simpl; by flags).
  destruct (wf_active _ _ Hw1 p Ha1) as [Hr Hl]. rewrite Efd in Hr, Hl. pose proof (load_range _ _ _ Hl).
  rewrite (proj2 (Z.ltb_ge (fd f) 0)), (proj2 (Z.leb_gt (zlen (fd_table w1)) (fd f))) by lia. cbn [orb].
  rewrite Hl. cbn [mbind outcome_bind].
  destruct (add_spec w1 l p (cleared f) FDE_READ Hw1 Hp (heap_put p _ w)) as (w2 & l2 & E2 & Hw2 & Ht2 & Hf2).
  rewrite E2. cbn [mbind outcome_bind]. destruct (flag (events f) FDE_READ); cbn [negb]; [| by exists w2, l2].
  apply (force_eof_spec subs s rcount w2 l2 Hw2). intros q. rewrite Ht2, Hf2. intros Hq.
  assert (func_of w1 q = func_of w q) as ->.
  { assert (steady w (put p (cleared f) w)) as [_ Hs] by (by apply (steady_put p f)). apply Hs. }
  apply (Hmsg s rcount); [by left | done].
Qed.

Lemma dispatch_spec `{Arch} subs w l : wf w l -> messages_ok w subs ->
  exists b w' l', dispatch subs w = Val (b, w') /\ wf w' l'.
Proof.
  intros Hw Hm. unfold dispatch. destruct l as [| p l].
  - rewrite dequeue_nil by apply Hw. cbn. by exists false, w, [].
  - assert (flag (st w p) FDE_PENDING = true) as Hpe by (apply (wf_pending _ _ Hw); by left).
    pose proof (wf_live _ _ Hw p Hpe) as Ha. destruct (st_some _ _ _ Hpe) as (Hp & f0 & Hf0).
    assert (p <> NULL) as Hn by (by eapply wf_ne).
    destruct (dequeue_cons p w l) as (h & -> & Hs & Hc); [apply Hw | apply Hw |]. cbn [mbind outcome_bind].
    rewrite (proj2 (Z.eqb_neq p NULL)) by done. assert (is_Some (h !! p)) as [f Hf] by (apply (same_core_some (heap w)); eauto).
    destruct (core_fd w h p f Hs Hp Hf) as [Efd Est]. rewrite <- Est in Hpe, Ha.
    destruct (fde_call_spec subs p f (with_heap h w) l) as (w' & l' & -> & Hw'); try done; [| | by exists true, w', l'].
    + apply (wf_leave w [] l p h); try done.
      * intros f' Hf'. by simplify_eq.
      * simpl. by flags.
      * intros bit Hbit. simpl. rewrite <- Est. repeat (apply elem_of_cons in Hbit as [-> | Hbit]; [by flags |]). by apply elem_of_nil in Hbit.
    + destruct Hm as [Hne Hm]. split; [done |]. intros s rc q Hin Hq.
      destruct (steady_core w h Hs) as [_ ->]. by apply (Hm s rc).
Qed.

(** ** Removing an object *)

Lemma last_used_spec w k : forall i n, 0 <= i -> n <= i -> i + Z.of_nat k <= zlen (fd_table w) ->
  exists m, last_used k i n w = Val m /\ n <= m /\ (m = n \/ m < i + Z.of_nat k) /\
    forall j p, i <= j < i + Z.of_nat k -> load (fd_table w) j = Val p -> p <> NULL -> j <= m.
Proof.
  induction k as [| k IH]; intros i n Hi Hn Hk; cbn [last_used].
  { exists n. split_and!; [done | lia | by left | lia]. }
  destruct (load_some (fd_table w) i) as [p Hp]; [lia |]. rewrite Hp. cbn [mbind outcome_bind].
  set (n' := if negb (p =? NULL) then i else n). assert (n <= n' <= i /\ (p <> NULL -> n' = i)) as [Hn' Hpn].
  { subst n'. destruct (Z.eqb_spec p NULL); simpl; naive_solver lia. }
  destruct (IH (i + 1) n') as (m & -> & H1 & H2 & H3); [lia | lia | lia |]. exists m. split_and!; [done | lia | |].
  - destruct H2 as [-> | H2]; [| right; lia]. destruct (decide (n' = n)); [by left | right; lia].
  - intros j q Hj Hq Hqn. destruct (decide (j = i)) as [-> | Hne]; [| apply (H3 j q); [lia | done | done]].
    rewrite Hp in Hq. injection Hq as ->. specialize (Hpn Hqn). lia.
Qed.

Lemma FD_CLR_in (i : Z) (s : gset Z) : 0 <= i < FD_SETSIZE -> FD_CLR i s = Val (s ∖ {[ i ]}).
Proof. intros Hi. unfold FD_CLR. by rewrite (proj2 (Z.leb_le 0 i)), (proj2 (Z.ltb_lt i FD_SETSIZE)) by lia. Qed.

Lemma watched_remove w w' l p bit X : wf w l -> flag (st w p) FDE_ACTIVE = true -> heap w' !! NULL = None ->
  (forall q, q <> p -> st w' q = st w q) -> fd_table w' = <[Z.to_nat (fd_of w p) := NULL]> (fd_table w) ->
  watched (fd_table w) (st w) bit X -> watched (fd_table w') (st w') bit (X ∖ {[ fd_of w p ]}).
Proof.
  intros Hw Ha Hnull Hst Ht Hx i. destruct (wf_active _ _ Hw p Ha) as [Hfd Hload]. pose proof (load_range _ _ _ Hload) as Hrange.
  assert (p <> NULL) as Hp by (destruct (st_some _ _ _ Ha) as (_ & f & Hf); by eapply wf_ne).
  rewrite elem_of_difference, elem_of_singleton, Ht. setoid_rewrite load_insert; [| done]. split.
  - intros [Hi Hne]. rewrite decide_False by done. apply Hx in Hi as (q & Hq & Hf). exists q. split; [done |].
    rewrite Hst; [done |]. intros ->. destruct (wf_table _ _ Hw i p Hq Hp). congruence.
  - intros (q & Hq & Hf). destruct (decide (i = fd_of w p)) as [-> | Hne].
    + injection Hq as <-. apply st_some in Hf as (_ & f & Hf). congruence.
    + split; [| done]. apply Hx. exists q. split; [done |]. rewrite <- Hst; [done |].
      intros ->. destruct (wf_table _ _ Hw i p Hq Hp). congruence.
Qed.

(** An active object that is out of the list leaves the table. *)
Lemma wf_removed w w' l l' p m : wf w l -> flag (st w p) FDE_ACTIVE = true -> p ∉ l' -> (forall q, q <> p -> q ∈ l' <-> q ∈ l) ->
  NoDup (LIST :: l') -> cycle (heap w') l' -> heap w' !! NULL = None -> st w' p = 0 -> (forall q, q <> p -> st w' q = st w q) ->
  (forall q, fd_of w' q = fd_of w q) -> fd_table w' = <[Z.to_nat (fd_of w p) := NULL]> (fd_table w) ->
  read_fds w' = read_fds w ∖ {[ fd_of w p ]} -> write_fds w' = write_fds w ∖ {[ fd_of w p ]} ->
  error_fds w' = error_fds w ∖ {[ fd_of w p ]} -> select_n w' = m + 1 -> 0 <= m < select_n w ->
  (forall j q, 0 <= j < select_n w -> load (fd_table w) j = Val q -> q <> NULL -> j <= m) -> wf w' l'.
Proof.
  intros Hw Ha Hpl Hl Hnd Hc Hnull Hp0 Hst Hfd Ht Hr Hwr He Hsel Hm Hlast.
  destruct (wf_active _ _ Hw p Ha) as [Hpfd Hload]. pose proof (load_range _ _ _ Hload) as Hrange.
  assert (forall q bit, flag (st w' q) bit = true -> q <> p) as Hne by (intros q bit Hq ->; by rewrite Hp0, flag_0 in Hq).
  pose proof (wf_select _ _ Hw) as Hs. split; try done.
  - intros q. destruct (decide (q = p)) as [-> | Hq]; [by rewrite Hp0, flag_0 | rewrite Hst, Hl by done; apply (wf_pending _ _ Hw)].
  - intros q Hq. rewrite Hst in * by (by eapply Hne). by apply (wf_live _ _ Hw).
  - intros q Hq. pose proof (Hne _ _ Hq) as Hqp. rewrite Hst in Hq by done. destruct (wf_active _ _ Hw q Hq) as [H1 H2].
    assert (q <> NULL) as Hqn by (destruct (st_some _ _ _ Hq) as (_ & f & Hf); by eapply wf_ne).
    specialize (Hlast _ _ H1 H2 Hqn). rewrite Hfd, Hsel, Ht, load_insert by done. split; [lia |].
    rewrite decide_False; [done |]. intros E. rewrite E in H2. congruence.
  - intros i q. rewrite Ht, load_insert by done. case_decide as E; [intros [= <-]; done |]. intros Hq Hqn.
    destruct (wf_table _ _ Hw i q Hq Hqn) as [H1 H2]. rewrite Hfd, Hst; [done |]. intros ->. congruence.
  - rewrite Hsel, Ht, zlen_insert. lia.
  - rewrite Hr. apply (watched_remove w w' l p); [done.. | apply Hw].
  - rewrite Hwr. apply (watched_remove w w' l p); [done.. | apply Hw].
  - rewrite He. apply (watched_remove w w' l p); [done.. | apply Hw].
Qed.

(** The list without [p], which is unlinked when it is pending. *)
Lemma fde_unlink_spec w l p f : wf w l -> p <> LIST -> heap w !! p = Some f ->
  exists h l', (if flag (state f) FDE_PENDING then fdevent_plist_remove p w else Val w) = Val (with_heap h w) /\
    same_core (heap w) h /\ cycle h l' /\ p ∉ l' /\ NoDup (LIST :: l') /\ (forall q, q <> p -> q ∈ l' <-> q ∈ l).
Proof.
  intros Hw Hp Hf. destruct (st_at p f w Hp Hf) as [Est _]. destruct (flag (state f) FDE_PENDING) eqn:Hpe; rewrite <- Est in Hpe.
  - apply (wf_pending _ _ Hw) in Hpe as (l1 & l2 & ->)%list_elem_of_split. pose proof (wf_nodup _ _ Hw) as Hnd.
    destruct (remove_spec p w l1 l2) as (h & E & Hs & Hc); [apply Hw | done |]. exists h, (l1 ++ l2).
    assert (NoDup (p :: LIST :: l1 ++ l2)) as [Hpn Hnd']%NoDup_cons.
    { eapply NoDup_Permutation_proper; [| exact Hnd]. rewrite perm_swap, Permutation_middle. done. }
    split_and!; try done.
    + intros Hx. apply Hpn. by right.
    + intros q Hq. rewrite !elem_of_app, elem_of_cons. naive_solver.
  - exists (heap w), l. split_and!; try done; [by destruct w | apply Hw | | apply Hw].
    intros Hin. apply (wf_pending _ _ Hw) in Hin. congruence.
Qed.

(** Disconnecting and unregistering an active object of a well-formed state; [h] are its
    objects after the list was relinked. *)
Lemma disconnect_spec w l p h f : wf w l -> p <> LIST -> same_core (heap w) h -> h !! p = Some f -> flag (state f) FDE_ACTIVE = true ->
  exists m tr, (let* w := fdevent_disconnect p (with_heap h w) in fdevent_unregister p w) =
      Val (mkWorld h (<[Z.to_nat (fd_of w p) := NULL]> (fd_table w)) (read_fds w ∖ {[ fd_of w p ]}) (write_fds w ∖ {[ fd_of w p ]})
             (error_fds w ∖ {[ fd_of w p ]}) (m + 1) tr) /\
    0 <= m < select_n w /\ (forall j q, 0 <= j < select_n w -> load (fd_table w) j = Val q -> q <> NULL -> j <= m).
Proof.
  intros Hw Hp Hs Hf Ha. destruct (core_fd w h p f Hs Hp Hf) as [Efd Est]. rewrite Est in Ha.
  destruct (wf_active _ _ Hw p Ha) as [Hfd Hload]. pose proof (load_range _ _ _ Hload) as Hrange. pose proof (wf_select _ _ Hw) as Hsel.
  unfold fdevent_disconnect. rewrite (deref_Val p (with_heap h w) f Hf). cbn [mbind outcome_bind]. rewrite Efd.
  rewrite !FD_CLR_in by lia. cbn [mbind outcome_bind]. set (w1 := with_sets _ _ _ _).
  destruct (last_used_spec w1 (Z.to_nat (select_n w1)) 0 0) as (m & -> & H1 & H2 & H3); [lia | lia | simpl; lia |].
  assert (Z.of_nat (Z.to_nat (select_n w1)) = select_n w) as En by (simpl; lia). rewrite En in H2, H3.
  cbn [mbind outcome_bind]. unfold fdevent_unregister. rewrite (deref_Val p (with_select (m + 1) w1) f Hf). cbn [mbind outcome_bind].
  cbn [fd_table with_select with_sets with_heap w1]. rewrite Efd, Hload.
  rewrite (proj2 (Z.ltb_ge (fd_of w p) 0)), (proj2 (Z.leb_gt (zlen (fd_table w)) (fd_of w p))) by lia. cbn [orb mbind outcome_bind].
  rewrite Z.eqb_refl. cbn [negb]. rewrite (proj2 (store_Val (fd_table w) _ (fd_of w p) NULL) (conj Hrange eq_refl)). cbn [mbind outcome_bind].
  destruct (negb _); eexists m, _; (split; [reflexivity |]); (split; [lia | exact H3]).
Qed.

Lemma fdevent_remove_ok w l p f : wf w l -> p <> LIST -> heap w !! p = Some f ->
  exists w' l', fdevent_remove p w = Val w' /\ wf w' l'.
Proof.
  intros Hw Hp Hf. destruct (st_at p f w Hp Hf) as [Est Efd0]. assert (p <> NULL) as Hpn by (by eapply wf_ne).
  destruct (fde_unlink_spec w l p f Hw Hp Hf) as (h & l' & Eu & Hs & Hc & Hpl & Hnd & Hl).
  unfold fdevent_remove. rewrite (deref_Val _ _ _ Hf). cbn [mbind outcome_bind]. rewrite Eu. cbn [mbind outcome_bind].
  assert (is_Some (h !! p)) as [f1 Hf1] by (apply (same_core_some (heap w)); eauto).
  rewrite (deref_Val p (with_heap h w) f1 Hf1). cbn [mbind outcome_bind].
  destruct (core_fd w h p f1 Hs Hp Hf1) as [Efd Est1]. destruct (core_views w h Hs) as [Vs Vf].
  assert (h !! NULL = None) as Hhn by (specialize (Hs NULL); rewrite (wf_null _ _ Hw) in Hs; by destruct (h !! NULL)).
  destruct (flag (state f1) FDE_ACTIVE) eqn:Ha.
  - destruct (disconnect_spec w l p h f1 Hw Hp Hs Hf1 Ha) as (m & tr & -> & Hm & Hlast). cbn [mbind outcome_bind].
    rewrite (upd_put p (with_state 0) _ f1) by done. cbn [mbind outcome_bind]. rewrite (upd_put _ _ _ _ (heap_put p _ _)), put_put.
    eexists _, l'. split; [done |]. set (w2 := mkWorld _ _ _ _ _ _ _). rewrite Est1 in Ha.
    apply (wf_removed w (put p (with_events 0 (with_state 0 f1)) w2) l l' p m); try done.
    + by apply (cycle_put _ _ f1).
    + cbn [heap put w2]. by rewrite lookup_insert_ne.
    + by rewrite st_put, decide_True.
    + intros q Hq. rewrite st_put, decide_False by done. apply Vs.
    + intros q. rewrite fd_put by done. case_decide; [by subst | apply Vf].
  - cbn [mbind outcome_bind]. assert (flag (state f) FDE_PENDING = false) as Hpe.
    { destruct (flag (state f) FDE_PENDING) eqn:Hpe; [| done]. rewrite <- Est in Hpe. apply (wf_live _ _ Hw) in Hpe. congruence. }
    rewrite Hpe in Eu. injection Eu as Eu. assert (h = heap w) as -> by (symmetry; exact (f_equal heap Eu)). rewrite <- Eu.
    rewrite (upd_put _ _ _ _ Hf). cbn [mbind outcome_bind]. rewrite (upd_put _ _ _ _ (heap_put p _ _)), put_put.
    eexists _, l. split; [done |]. rewrite Est1, Est in Ha.
    assert (wf (put p (with_state 0 f) w) l) as Hw1.
    { rewrite <- Est in Ha. apply (wf_set_state w l p f 0 (read_fds w) (write_fds w) (error_fds w)); try done;
        rewrite ?flag_0; try congruence; eapply watched_inactive; try done; apply Hw. }
    rewrite <- (put_put p (with_state 0 f)). apply (wf_put _ l p (with_state 0 f)); try done. apply heap_put.
Qed.

(** ** Installing an object *)

Lemma double_past_spec k : forall m i, 0 < m -> i < m * 2 ^ Z.of_nat k -> exists m', double_past k m i = Val m' /\ m <= m' /\ i < m'.
Proof.
  induction k as [| k IH]; intros m i Hm Hi; cbn [double_past].
  - rewrite (proj2 (Z.ltb_lt i m)) by lia. exists m. split; [done | lia].
  - destruct (Z.ltb_spec i m); [exists m; split; [done | lia] |].
    destruct (IH (m * 2) i) as (m' & E & H1 & H2); [lia | | exists m'; split; [done | lia]].
    rewrite Nat2Z.inj_succ, Z.pow_succ_r in Hi by lia. lia.
Qed.

Section Install.
Context `{A : Arch}.
Hypothesis Hbits : word_bits = 32.
Variable realloc : Z -> option (list Z).
Hypothesis Hrealloc : forall n, 0 < n -> exists t, realloc n = Some t /\ zlen t = n.

Lemma grow_table_spec i w : zlen (fd_table w) <= i -> 0 <= i < FD_SETSIZE ->
  (zlen (fd_table w) = 0 -> read_fds w = ∅ /\ write_fds w = ∅ /\ error_fds w = ∅) ->
  exists k, grow_table realloc i w = Val (with_table (fd_table w ++ replicate k NULL) w) /\ i < zlen (fd_table w ++ replicate k NULL).
Proof.
  intros Hlen Hi Hsets. pose proof (zlen_nonneg (fd_table w)) as Hz. unfold FD_SETSIZE in Hi. unfold grow_table.
  rewrite (proj2 (Z.ltb_ge 32000 i)) by lia.
  assert ((if zlen (fd_table w) =? 0 then fdevent_init w else w) = w) as ->.
  { destruct (Z.eqb_spec (zlen (fd_table w)) 0) as [E |]; [| done]. destruct (Hsets E) as (E1 & E2 & E3).
    unfold fdevent_init, with_sets. rewrite <- E1 at 1. destruct w; simpl in *. by subst. }
  destruct (double_past_spec 32 (if zlen (fd_table w) =? 0 then 256 else zlen (fd_table w)) i) as (m & -> & H1 & H2).
  { destruct (Z.eqb_spec (zlen (fd_table w)) 0); lia. }
  { change (2 ^ Z.of_nat 32) with 4294967296. destruct (Z.eqb_spec (zlen (fd_table w)) 0); lia. }
  cbn [mbind outcome_bind]. destruct (Hrealloc m) as (t & -> & Ht); [lia |]. rewrite Hbits.
  replace (4 * (m - zlen (fd_table w)) / (32 / 8)) with (m - zlen (fd_table w)) by (change (32 / 8) with 4; by rewrite Z.mul_comm, Z.div_mul).
  exists (Z.to_nat (m - zlen (fd_table w))). rewrite drop_drop, (drop_ge t) by (unfold zlen in *; lia). rewrite app_nil_r. split; [done |].
  rewrite zlen_app. unfold zlen at 2. rewrite length_replicate. lia.
Qed.
End Install.

Lemma load_grown (t : list Z) k i q : load (t ++ replicate k NULL) i = Val q -> load t i = Val q \/ q = NULL.
Proof.
  intros [Hi Hq]%load_Val. apply lookup_app_Some in Hq as [Hq | [_ Hq]]; [left; by apply load_Val | right].
  by apply lookup_replicate in Hq as [-> _].
Qed.

Lemma wf_grow w l k : wf w l -> wf (with_table (fd_table w ++ replicate k NULL) w) l.
Proof.
  intros Hw. assert (forall bit X, watched (fd_table w) (st w) bit X -> watched (fd_table w ++ replicate k NULL) (st w) bit X) as Hx.
  { intros bit X HX i. rewrite (HX i). split; intros (q & Hq & Hf); exists q; (split; [| done]).
    - rewrite load_app_l; [done |]. apply load_range in Hq. lia.
    - apply load_grown in Hq as [| ->]; [done |]. apply st_some in Hf as (_ & f & Hf). by rewrite (wf_null _ _ Hw) in Hf. }
  destruct Hw as [H1 H2 H3 H4 H5 H6 H7 H8 H9 H10 H11]. split; try done.
  - intros p Hp. destruct (H6 p Hp) as [H Hl]. split; [done |]. cbn [fd_table with_table].
    change (fd_of (with_table _ w) p) with (fd_of w p). rewrite load_app_l; [done |]. apply load_range in Hl. lia.
  - intros i p Hl Hn. apply load_grown in Hl as [Hl | ->]; [by apply H7 | done].
  - cbn [fd_table with_table select_n]. rewrite zlen_app. pose proof (zlen_nonneg (replicate k NULL)). lia.
  - by apply Hx.
  - by apply Hx.
  - by apply Hx.
Qed.

Lemma chain_fresh h p g L : p ∉ L -> chain h L -> chain (<[p := g]> h) L.
Proof.
  induction L as [| u L IH]; intros Hp Hc; [done |]. destruct L as [| v L]; [done |]. destruct Hc as [[H1 H2] Hc].
  apply not_elem_of_cons in Hp as [Hu Hp]. split; [| by apply IH]. apply not_elem_of_cons in Hp as [Hv _].
  split; unfold nxt, prv in *; by rewrite lookup_insert_ne.
Qed.

Lemma watched_join w w' l p i bit X : wf w l -> p <> NULL -> flag (st w p) FDE_ACTIVE = false -> flag (st w' p) bit = false ->
  (forall q, q <> p -> st w' q = st w q) -> load (fd_table w) i = Val NULL -> fd_table w' = <[Z.to_nat i := p]> (fd_table w) ->
  watched (fd_table w) (st w) bit X -> watched (fd_table w') (st w') bit X.
Proof.
  intros Hw Hp Ha Hb Hst Hi Ht Hx j. rewrite (Hx j), Ht. pose proof (load_range _ _ _ Hi) as Hr.
  setoid_rewrite load_insert; [| done]. split; intros (q & Hq & Hf).
  - rewrite decide_False by (intros ->; rewrite Hi in Hq; injection Hq as <-; apply st_some in Hf as (_ & f & Hf); by rewrite (wf_null _ _ Hw) in Hf).
    exists q. split; [done |]. rewrite Hst; [done |]. intros ->. destruct (wf_table _ _ Hw j p Hq Hp). congruence.
  - destruct (decide (j = i)) as [-> | Hj]; [injection Hq as <-; congruence |]. exists q. split; [done |].
    rewrite <- Hst; [done |]. intros ->. congruence.
Qed.

(** A new active object without events enters the table. *)
Lemma wf_installed w l p g i : wf w l -> p <> LIST -> p <> NULL -> flag (st w p) FDE_ACTIVE = false -> load (fd_table w) i = Val NULL ->
  i < FD_SETSIZE -> fd g = i -> flag (state g) FDE_ACTIVE = true ->
  (forall bit, bit ∈ [FDE_PENDING; FDE_READ; FDE_WRITE; FDE_ERROR] -> flag (state g) bit = false) ->
  wf (with_select (Z.max (select_n w) (i + 1)) (with_table (<[Z.to_nat i := p]> (fd_table w)) (put p g w))) l.
Proof.
  intros Hw HpL HpN Ha Hi Hmax Hfd Hga Hb. pose proof (load_range _ _ _ Hi) as Hr. set (w' := with_select _ _).
  assert (forall q, st w' q = if decide (q = p) then state g else st w q) as Hst by (intros q; apply (st_put p g w q HpL)).
  assert (forall q, fd_of w' q = if decide (q = p) then fd g else fd_of w q) as Hfo by (intros q; apply (fd_put p g w q HpL)).
  assert (st w' p = state g) as Hsp by (by rewrite Hst, decide_True).
  assert (forall q, q <> p -> st w' q = st w q) as Hsq by (intros q Hq; by rewrite Hst, decide_False).
  assert (p ∉ l) as Hpl by (intros Hin; apply (wf_pending _ _ Hw), (wf_live _ _ Hw) in Hin; congruence).
  assert (forall bit X, bit ∈ [FDE_PENDING; FDE_READ; FDE_WRITE; FDE_ERROR] -> watched (fd_table w) (st w) bit X -> watched (fd_table w') (st w') bit X) as Hx.
  { intros bit X Hbit. apply (watched_join w w' l p i); try done. rewrite Hsp. auto. }
  pose proof (wf_select _ _ Hw) as Hs. split.
  - apply Hw.
  - apply (chain_fresh _ p g); [| apply (wf_cycle _ _ Hw)]. rewrite elem_of_cons, elem_of_app, list_elem_of_singleton. tauto.
  - cbn [heap w' with_select with_table put]. rewrite lookup_insert_ne by done. apply Hw.
  - intros q. destruct (decide (q = p)) as [-> | Hq]; [| rewrite Hsq by done; apply Hw]. rewrite Hsp, Hb by set_solver. done.
  - intros q. destruct (decide (q = p)) as [-> | Hq]; [by rewrite Hsp | rewrite Hsq by done; apply Hw].
  - intros q Hq. rewrite Hfo. cbn [fd_table w' with_select with_table select_n]. rewrite load_insert by done.
    destruct (decide (q = p)) as [-> | Hne]; [rewrite Hfd, decide_True by done; split; [lia | done] |].
    rewrite Hsq in Hq by done. destruct (wf_active _ _ Hw q Hq) as [H1 H2]. rewrite decide_False; [split; [lia | done] |].
    intros E. rewrite E, Hi in H2. injection H2 as <-. apply st_some in Hq as (_ & f & Hf). by rewrite (wf_null _ _ Hw) in Hf.
  - intros j q. cbn [fd_table w' with_select with_table]. rewrite load_insert by done. rewrite Hfo.
    destruct (decide (j = i)) as [-> | Hj]; [intros [= <-] _; by rewrite Hsp, decide_True |]. intros Hq Hqn.
    destruct (wf_table _ _ Hw j q Hq Hqn) as [H1 H2]. rewrite decide_False, Hsq; [done | |]; by intros ->; congruence.
  - cbn [fd_table w' with_select with_table select_n]. rewrite zlen_insert. lia.
  - apply Hx; [set_solver | apply Hw].
  - apply Hx; [set_solver | apply Hw].
  - apply Hx; [set_solver | apply Hw].
Qed.

(** ** Sequences of calls *)

Definition init_world : world := mkWorld {[ LIST := mkFde LIST LIST 0 0 0 0 0 0 ]} [] ∅ ∅ ∅ 0 [].

Lemma wf_init : wf init_world [].
Proof.
  assert (forall p, st init_world p = 0) as Hst.
  { intros p. unfold st, object. case_decide; [done |]. unfold init_world. cbn [heap]. by rewrite lookup_singleton_ne. }
  assert (forall i q, load (@nil Z) i <> Val q) as Hl.
  { intros i q [Hi Hq]%load_Val. done. }
  assert (forall bit, watched [] (st init_world) bit ∅) as Hw.
  { intros bit i. split; [by intros []%elem_of_empty | intros (q & Hq & _); by apply Hl in Hq]. }
  split; try apply Hw; try done.
  - apply NoDup_singleton.
  - intros p. rewrite Hst, flag_0. split; [done | by intros ?%elem_of_nil].
  - intros p. by rewrite Hst, flag_0.
  - intros p. by rewrite Hst, flag_0.
  - intros i p Hp. by apply Hl in Hp.
Qed.

(** The calls that the rest of minadbd makes; [Alloc] is storage for an object that
    fdevent_install will initialise. *)
Inductive op :=
| Alloc (p : Z)
| Create (p : Z) (junk : fdevent) (i fn a : Z)
| Install (p i fn a : Z)
| Set_ (p evs : Z)
| Add (p evs : Z)
| Del (p evs : Z)
| Remove (p : Z)
| Destroy (p : Z)
| SubprocSetup (s1 p : Z) (junk : fdevent)
| Process (res : select_result) (bad : Z -> bool)
| Dispatch (subs : list (Z * Z)).

Section Run.
Context `{A : Arch}.
Variable realloc : Z -> option (list Z).

Definition step (o : op) (w : world) : outcome world :=
  match o with
  | Alloc p => Val (put p (mkFde 0 0 0 0 0 0 0 0) w)
  | Create p junk i fn a => fdevent_create realloc p junk i fn a w
  | Install p i fn a => fdevent_install realloc p i fn a w
  | Set_ p evs => fdevent_set p evs w
  | Add p evs => fdevent_add p evs w
  | Del p evs => fdevent_del p evs w
  | Remove p => fdevent_remove p w
  | Destroy p => fdevent_destroy p w
  | SubprocSetup s1 p junk => fdevent_subproc_setup realloc s1 p junk w
  | Process res bad => fdevent_process res bad w
  | Dispatch subs => let* (_, w) := dispatch subs w in Val w
  end.

(** A descriptor that select() can watch and that no object has. *)
Definition free_fd (i : Z) (w : world) : Prop :=
  0 <= i < FD_SETSIZE /\ forall q, load (fd_table w) i = Val q -> q = NULL.
Definition fresh (p : Z) (w : world) : Prop := p <> NULL /\ p <> LIST /\ heap w !! p = None.
Definition valid (p : Z) (w : world) : Prop := p <> LIST /\ is_Some (heap w !! p).

(** What a caller has to respect. *)
Definition legal (o : op) (w : world) : Prop :=
  match o with
  | Alloc p => fresh p w
  | Create p _ i _ _ => p = NULL \/ (fresh p w /\ free_fd i w)
  | Install p i _ _ => valid p w /\ flag (st w p) FDE_ACTIVE = false /\ free_fd i w
  | Set_ p _ | Add p _ | Del p _ | Remove p => valid p w
  | Destroy p => p = NULL \/ (p <> LIST /\ flag (st w p) FDE_CREATED = true)
  | SubprocSetup s1 p _ => fresh p w /\ free_fd s1 w
  | Process res _ => select_contract w res
  | Dispatch subs => messages_ok w subs
  end.

Inductive reachable : world -> Prop :=
| reach_init : reachable init_world
| reach_step o w w' : reachable w -> legal o w -> step o w = Val w' -> reachable w'.

Hypothesis Hbits : word_bits = 32.
Hypothesis Hrealloc : forall n, 0 < n -> exists t, realloc n = Some t /\ zlen t = n.

Lemma empty_sets w l : wf w l -> zlen (fd_table w) = 0 -> read_fds w = ∅ /\ write_fds w = ∅ /\ error_fds w = ∅.
Proof.
  intros Hw Hz. assert (forall bit X, watched (fd_table w) (st w) bit X -> X = ∅) as He.
  { intros bit X HX. apply leibniz_equiv, elem_of_equiv_empty. intros i Hi. apply HX in Hi as (q & Hq & _). apply load_range in Hq. lia. }
  split_and!; eapply He; apply Hw.
Qed.

Lemma fde_install_spec w l p junk i fn a : wf w l -> p <> NULL -> p <> LIST -> flag (st w p) FDE_ACTIVE = false -> free_fd i w ->
  exists t n, fdevent_install realloc p i fn a (put p junk w) =
      Val (with_select n (with_table t (put p (mkFde NULL NULL i 0 FDE_ACTIVE 0 fn a) w))) /\
    forall g, fd g = i -> flag (state g) FDE_ACTIVE = true ->
      (forall bit, bit ∈ [FDE_PENDING; FDE_READ; FDE_WRITE; FDE_ERROR] -> flag (state g) bit = false) ->
      wf (with_select n (with_table t (put p g w))) l.
Proof.
  intros Hw HpN HpL Ha [Hi Hfree]. set (g0 := mkFde NULL NULL i 0 FDE_ACTIVE 0 fn a).
  assert (exists T, (if zlen (fd_table w) <=? i then grow_table realloc i (put p g0 w) else Val (put p g0 w)) = Val (with_table T (put p g0 w)) /\
    wf (with_table T w) l /\ load T i = Val NULL) as (T & ET & HwT & HiT).
  { destruct (Z.leb_spec (zlen (fd_table w)) i) as [Hlen | Hlen].
    - destruct (grow_table_spec Hbits realloc Hrealloc i (put p g0 w)) as (k & -> & Hk); [done | done | by apply (empty_sets w l) |].
      exists (fd_table w ++ replicate k NULL). split; [done |]. split; [by apply wf_grow |].
      destruct (load_some (fd_table w ++ replicate k NULL) i) as [q Hq]; [cbn [fd_table put] in Hk; lia |].
      destruct (load_grown _ _ _ _ Hq) as [Hq' | ->]; [| done]. by rewrite (Hfree q Hq') in Hq.
    - exists (fd_table w). split; [done |]. split; [by destruct w |].
      destruct (load_some (fd_table w) i) as [q Hq]; [lia |]. by rewrite (Hfree q Hq) in Hq. }
  pose proof (load_range _ _ _ HiT) as HrT.
  exists (<[Z.to_nat i := p]> T), (Z.max (select_n w) (i + 1)). split.
  - unfold fdevent_install. rewrite (upd_put _ _ _ _ (heap_put p _ w)), put_put. fold g0. cbn [mbind outcome_bind].
    unfold fdevent_register. rewrite (deref_Val _ _ _ (heap_put p _ w)). cbn [mbind outcome_bind fd g0].
    rewrite (proj2 (Z.ltb_ge i 0)) by lia. change (fd_table (put p g0 w)) with (fd_table w). fold g0. rewrite ET. cbn [mbind outcome_bind].
    cbn [fd_table with_table]. rewrite (proj2 (store_Val T _ i p) (conj HrT eq_refl)). cbn [mbind outcome_bind].
    unfold fdevent_connect. rewrite (deref_Val p _ g0) by apply heap_put. cbn [mbind outcome_bind fd g0 select_n with_table put].
    assert (forall n x, (if n <=? i then with_select (i + 1) x else with_select n x) = with_select (Z.max n (i + 1)) x) as Hmax.
    { intros n x. destruct (Z.leb_spec n i); f_equal; lia. }
    specialize (Hmax (select_n w) (with_table (<[Z.to_nat i := p]> T) (put p g0 w))).
    change (with_select (select_n w) _) with (with_table (<[Z.to_nat i := p]> T) (put p g0 w)) in Hmax.
    change (with_table _ (with_table T _)) with (with_table (<[Z.to_nat i := p]> T) (put p g0 w)). rewrite Hmax.
    rewrite (upd_put p _ _ g0) by apply heap_put. f_equal.
    exact (f_equal (fun x => with_select _ (with_table _ x)) (put_put p g0 g0 w)).
  - intros g Hg1 Hg2 Hg3. apply (wf_installed (with_table T w) l p g i); try done; lia.
Qed.

Lemma put_self w p f : heap w !! p = Some f -> put p f w = w.
Proof. intros Hf. unfold put. rewrite insert_id by done. by destruct w. Qed.

Lemma fresh_inactive p w bit : fresh p w -> flag (st w p) bit = false.
Proof. intros (H1 & H2 & H3). unfold st, object. rewrite decide_False, H3 by done. apply flag_0. Qed.

Lemma active_only bit : bit ∈ [FDE_PENDING; FDE_READ; FDE_WRITE; FDE_ERROR] ->
  flag FDE_ACTIVE bit = false /\ flag (Z.lor FDE_ACTIVE FDE_CREATED) bit = false.
Proof. intros Hb. repeat (apply elem_of_cons in Hb as [-> | Hb]; [done |]). by apply elem_of_nil in Hb. Qed.

Lemma put_inner p g g' t n w : put p g' (with_select n (with_table t (put p g w))) = with_select n (with_table t (put p g' w)).
Proof. exact (f_equal (fun x => with_select n (with_table t x)) (put_put p g g' w)). Qed.

Lemma fde_create_ok w l p junk i fn a : wf w l -> fresh p w -> free_fd i w ->
  exists w' f, fdevent_create realloc p junk i fn a w = Val w' /\ wf w' l /\ heap w' !! p = Some f.
Proof.
  intros Hw Hp Hi. pose proof (fresh_inactive p w FDE_ACTIVE Hp) as Ha. destruct Hp as (HpN & HpL & HpH).
  unfold fdevent_create. rewrite (proj2 (Z.eqb_neq p NULL) HpN).
  destruct (fde_install_spec w l p junk i fn a) as (t & n & -> & Hg); try done. cbn [mbind outcome_bind].
  rewrite (upd_put p _ _ (mkFde NULL NULL i 0 FDE_ACTIVE 0 fn a)) by apply heap_put.
  eexists _, _. split; [done |]. split; [| apply heap_put]. rewrite put_inner. apply Hg; [done | done |].
  intros bit Hbit. by apply active_only.
Qed.

Lemma install_ok w l p i fn a : wf w l -> valid p w -> flag (st w p) FDE_ACTIVE = false -> free_fd i w ->
  exists w', fdevent_install realloc p i fn a w = Val w' /\ wf w' l.
Proof.
  intros Hw [HpL [f Hf]] Ha Hi. assert (p <> NULL) as HpN by (by eapply wf_ne).
  destruct (fde_install_spec w l p f i fn a) as (t & n & E & Hg); try done. rewrite (put_self w p f Hf) in E.
  eexists. split; [exact E |]. apply Hg; [done | done |]. intros bit Hbit. by apply active_only.
Qed.

Lemma alloc_ok w l p : wf w l -> fresh p w -> wf (put p (mkFde 0 0 0 0 0 0 0 0) w) l.
Proof.
  intros Hw Hp. assert (forall q, st (put p (mkFde 0 0 0 0 0 0 0 0) w) q = st w q) as Hst.
  { intros q. rewrite st_put by apply Hp. case_decide as E; [| done]. subst q. unfold st, object.
    destruct Hp as (_ & H2 & H3). by rewrite decide_False, H3. }
  assert (p ∉ l) as Hpl.
  { intros Hin. apply (wf_pending _ _ Hw) in Hin. by rewrite fresh_inactive in Hin. }
  destruct Hp as (HpN & HpL & HpH).
  assert (forall q bit, flag (st w q) bit = true -> fd_of (put p (mkFde 0 0 0 0 0 0 0 0) w) q = fd_of w q) as Hfd.
  { intros q bit Hq. rewrite fd_put, decide_False; [done | | done]. intros ->. apply st_some in Hq as (_ & f & Hf). congruence. }
  destruct Hw as [H1 H2 H3 H4 H5 H6 H7 H8 H9 H10 H11]. split; try done.
  - apply chain_fresh; [| done]. rewrite elem_of_cons, elem_of_app, list_elem_of_singleton. tauto.
  - cbn [heap put]. by rewrite lookup_insert_ne.
  - intros q. rewrite Hst. apply H4.
  - intros q. rewrite Hst. apply H5.
  - intros q Hq. rewrite Hst in Hq. rewrite (Hfd q _ Hq). by apply H6.
  - intros i q Hl Hn. rewrite Hst. destruct (H7 i q Hl Hn) as [Hq1 Hq2]. by rewrite (Hfd q _ Hq1).
  - eapply watched_same; [| exact H9]. intros q. by rewrite Hst.
  - eapply watched_same; [| exact H10]. intros q. by rewrite Hst.
  - eapply watched_same; [| exact H11]. intros q. by rewrite Hst.
Qed.

(** Every legal call returns and keeps the invariant. *)
Lemma step_ok o w l : wf w l -> legal o w -> exists w' l', step o w = Val w' /\ wf w' l'.
Proof.
  intros Hw Hl. destruct o; cbn [legal step] in *.
  - eexists _, l. split; [done | by apply alloc_ok].
  - destruct Hl as [-> | [Hp Hi]]; [by exists w, l |].
    destruct (fde_create_ok w l p junk i fn a Hw Hp Hi) as (w' & f & E & Hw' & _). eauto.
  - destruct Hl as (Hp & Ha & Hi). destruct (install_ok w l p i fn a Hw Hp Ha Hi) as (w' & E & Hw'). eauto.
  - destruct Hl as [Hp [f Hf]]. destruct (set_spec w l p f evs Hw Hp Hf) as (w' & l' & E & Hw' & _). eauto.
  - destruct Hl as [Hp [f Hf]]. destruct (add_spec w l p f evs Hw Hp Hf) as (w' & l' & E & Hw' & _). eauto.
  - destruct Hl as [Hp [f Hf]]. destruct (del_spec w l p f evs Hw Hp Hf) as (w' & l' & E & Hw' & _). eauto.
  - destruct Hl as [Hp [f Hf]]. by apply (fdevent_remove_ok w l p f).
  - destruct Hl as [-> | [Hp Hc]]; [by exists w, l |]. destruct (st_some _ _ _ Hc) as (_ & f & Hf). unfold fdevent_destroy.
    rewrite (proj2 (Z.eqb_neq p NULL)) by (by eapply wf_ne). rewrite (deref_Val _ _ _ Hf). cbn [mbind outcome_bind].
    destruct (st_at p f w Hp Hf) as [Est _]. rewrite Est in Hc. rewrite Hc. by apply (fdevent_remove_ok w l p f).
  - destruct Hl as [Hp Hi]. destruct (fde_create_ok w l p junk s1 SUBPROC NULL Hw Hp Hi) as (w' & f & E & Hw' & Hf).
    unfold fdevent_subproc_setup. rewrite E. cbn [mbind outcome_bind]. destruct Hp as (HpN & HpL & _).
    rewrite (proj2 (Z.eqb_neq p NULL) HpN). destruct (add_spec w' l p f FDE_READ Hw' HpL Hf) as (w2 & l2 & E2 & Hw2 & _). eauto.
  - by apply (fde_process_spec w l).
  - destruct (dispatch_spec subs w l Hw Hl) as (b & w' & l' & -> & Hw'). by exists w', l'.
Qed.

Lemma reachable_wf w : reachable w -> exists l, wf w l.
Proof.
  induction 1 as [| o w w' _ [l Hw] Hl E]; [exists []; apply wf_init |].
  destruct (step_ok o w l Hw Hl) as (w1 & l1 & E1 & Hw1). rewrite E in E1. injection E1 as ->. eauto.
Qed.

End Run.

(** ** Runs *)

Fixpoint run `{Arch} (realloc : Z -> option (list Z)) (os : list op) (w : world) : outcome world :=
  match os with [] => Val w | o :: os => let* w := step realloc o w in run realloc os w end.

(** Memory from realloc that holds 77 everywhere. *)
Definition dirty (n : Z) : option (list Z) := Some (replicate (Z.to_nat n) 77).
Definition blank : fdevent := mkFde 77 77 77 77 77 77 77 77.

Lemma dirty_ok n : 0 < n -> exists t, dirty n = Some t /\ zlen t = n.
Proof. intros Hn. eexists. split; [done |]. unfold zlen. rewrite length_replicate. lia. Qed.

(** The notification socket is descriptor 3, another object has descriptor 5. *)
Definition demo_world : world :=
  match run (H := ILP32) dirty [SubprocSetup 3 100 blank; Create 200 blank 5 2 9; Add 200 (FDE_READ + FDE_WRITE)] init_world with
  | Val w => w | Trap _ => init_world end.


(** The filter in fdevent_set is inverted.  Object 200 is pending for a read; when its
    owner only wants to write from now on, the read is still delivered, and when it wants
    both, the read is dropped. *)
Definition after (os : list op) : list event :=
  match run (H := ILP32) dirty os demo_world with Val w => trace w | Trap _ => [] end.
Definition pending_read : op := Process (Ready 1 {[ 5 ]} ∅ ∅) (fun _ => false).

Example unwanted_event_delivered : after [pending_read; Del 200 FDE_READ; Dispatch [(7, 0)]] = [Callback 5 FDE_READ 2 9].
Proof. vm_compute. reflexivity. Qed.

Example wanted_event_dropped : after [Del 200 FDE_WRITE; pending_read; Add 200 FDE_WRITE; Dispatch [(7, 0)]] = [].
Proof. vm_compute. reflexivity. Qed.

(** With 64-bit pointers only half of the new table is cleared: after descriptor 200 was
    registered, the check of the descriptors takes the garbage in entry 128 for an object. *)
Example half_cleared_table :
  run (H := LP64) dirty [Create 300 blank 200 2 9; Process BadDescriptor (fun i => i =? 128)] init_world = Trap WildPointer.
Proof. vm_compute. reflexivity. Qed.

(** The table takes descriptors up to 32000, the sets of select() end at 1024. *)
Example descriptor_outside_set :
  run (H := ILP32) dirty [Create 300 blank 1024 2 9; Add 300 FDE_READ] init_world = Trap OutOfBounds.
Proof. vm_compute. reflexivity. Qed.
