(* ===== verification/Asn1.v ===== *)
(** * The DER decoder and the signature block (asn1_decoder.cpp, verifier.cpp: read_pkcs7)

    A context is an offset and a length in a block of memory.  The decoder is shown to
    recognise exactly a grammar of tag-length-value elements, and read_pkcs7 to find the
    signature of a PKCS#7 structure exactly when there is one, inside the given bytes. *)

From stdpp Require Import base numbers list.
From S2P Require Import Prelude.

Definition kMaskConstructed : Z := 0xE0.
Definition kMaskTag : Z := 0x7F.
Definition kMaskAppType : Z := 0x1F.
Definition kTagOctetString : Z := 0x04.
Definition kTagOid : Z := 0x06.
Definition kTagSequence : Z := 0x30.
Definition kTagSet : Z := 0x31.
Definition kTagConstructed : Z := 0xA0.

Record asn1_context := mkCtx { c_length : Z; c_p : Z; app_type : Z }.

(** A result that may be absent, in an outcome; the function gives up without it. *)
Notation "'let?' x ':=' m 'in' k" :=
  (mbind (M := outcome) (fun r => match r with Some x => k | None => Val None end) m)
  (at level 10, x pattern, m at level 100, k at level 200) : c_scope.

Section Decoder.
Context `{Arch} (mem : block).

(** [ok]: calloc succeeded. *)
Definition asn1_context_new (ok : bool) (buffer length : Z) : option asn1_context :=
  if ok then Some (mkCtx length buffer 0) else None.

Definition peek_byte (ctx : asn1_context) : outcome Z :=
  if c_length ctx <=? 0 then Val (-1) else load mem (c_p ctx).

Definition get_byte (ctx : asn1_context) : outcome (Z * asn1_context) :=
  if c_length ctx <=? 0 then Val (-1, ctx) else
  let* byte := load mem (c_p ctx) in
  Val (byte, mkCtx (c_length ctx - 1) (c_p ctx + 1) (app_type ctx)).

Definition skip_bytes (ctx : asn1_context) (num_skip : Z) : bool * asn1_context :=
  if c_length ctx <? num_skip then (false, ctx)
  else (true, mkCtx (c_length ctx - num_skip) (c_p ctx + num_skip) (app_type ctx)).

Fixpoint length_loop (i : nat) (length : Z) (ctx : asn1_context) : outcome (option Z * asn1_context) :=
  match i with
  | O => Val (Some length, ctx)
  | S i =>
      let* (byte, ctx) := get_byte ctx in
      if byte =? -1 then Val (None, ctx) else
      length_loop i (wrapu word_bits (wrapu word_bits (Z.shiftl length 8) + byte)) ctx
  end.

Definition decode_length (ctx : asn1_context) : outcome (option Z * asn1_context) :=
  let* (num_octets, ctx) := get_byte ctx in
  if num_octets =? -1 then Val (None, ctx) else
  if Z.land num_octets 0x80 =? 0 then Val (Some num_octets, ctx) else
  let num_octets := Z.land num_octets kMaskTag in
  if word_bits / 8 <=? num_octets then Val (None, ctx) else
  length_loop (Z.to_nat num_octets) 0 ctx.

(** The length, which must fit, and the context of the contents. *)
Definition sub_context (ok : bool) (ctx : asn1_context) : outcome (option asn1_context) :=
  let* (length, ctx) := decode_length ctx in
  match length with
  | Some length => if c_length ctx <? length then Val None else Val (asn1_context_new ok (c_p ctx) length)
  | None => Val None
  end.

Definition asn1_constructed_get (ok : bool) (ctx : asn1_context) : outcome (option asn1_context) :=
  let* (type, ctx) := get_byte ctx in
  if (type =? -1) || negb (Z.land type kMaskConstructed =? kTagConstructed) then Val None else
  let* (length, ctx) := decode_length ctx in
  match length with
  | None => Val None
  | Some length =>
      if c_length ctx <? length then Val None else
      match asn1_context_new ok (c_p ctx) length with
      | None => Trap NullDeref
      | Some app_ctx => Val (Some (mkCtx (c_length app_ctx) (c_p app_ctx) (Z.land type kMaskAppType)))
      end
  end.

Fixpoint skip_all_loop (fuel : nat) (byte : Z) (ctx : asn1_context) : outcome (bool * asn1_context) :=
  if negb (byte =? -1) && (Z.land byte kMaskConstructed =? kTagConstructed) then
    match fuel with
    | O => Trap NoFuel
    | S fuel =>
        let (_, ctx) := skip_bytes ctx 1 in
        let* (length, ctx) := decode_length ctx in
        match length with
        | None => Val (false, ctx)
        | Some length =>
            let (ok, ctx) := skip_bytes ctx length in
            if negb ok then Val (false, ctx) else
            let* byte := peek_byte ctx in skip_all_loop fuel byte ctx
        end
    end
  else Val (negb (byte =? -1), ctx).

(** Every round consumes a byte. *)
Definition asn1_constructed_skip_all (ctx : asn1_context) : outcome (bool * asn1_context) :=
  let* byte := peek_byte ctx in skip_all_loop (S (Z.to_nat (c_length ctx))) byte ctx.

Definition asn1_constructed_type (ctx : asn1_context) : Z := app_type ctx.

Definition asn1_sequence_get (ok : bool) (ctx : asn1_context) : outcome (option asn1_context) :=
  let* (byte, ctx) := get_byte ctx in
  if negb (Z.land byte kMaskTag =? kTagSequence) then Val None else sub_context ok ctx.

Definition asn1_set_get (ok : bool) (ctx : asn1_context) : outcome (option asn1_context) :=
  let* (byte, ctx) := get_byte ctx in
  if negb (Z.land byte kMaskTag =? kTagSet) then Val None else sub_context ok ctx.

Definition asn1_sequence_next (ctx : asn1_context) : outcome (bool * asn1_context) :=
  let* (byte, ctx) := get_byte ctx in
  if byte =? -1 then Val (false, ctx) else
  let* (length, ctx) := decode_length ctx in
  match length with
  | None => Val (false, ctx)
  | Some length => Val (skip_bytes ctx length)
  end.

(** The pointer and the length of a string with tag [tag]. *)
Definition string_get (tag : Z) (ctx : asn1_context) : outcome (option (Z * Z)) :=
  let* (byte, ctx) := get_byte ctx in
  if negb (byte =? tag) then Val None else
  let* (length, ctx) := decode_length ctx in
  match length with
  | None => Val None
  | Some length => if (length =? 0) || (c_length ctx <? length) then Val None else Val (Some (c_p ctx, length))
  end.
Definition asn1_oid_get : asn1_context -> outcome (option (Z * Z)) := string_get kTagOid.
Definition asn1_octet_string_get : asn1_context -> outcome (option (Z * Z)) := string_get kTagOctetString.

(** *** read_pkcs7 *)

(** The context after an element, or a failure. *)
Definition next (ctx : asn1_context) : outcome (option asn1_context) :=
  let* (ok, ctx) := asn1_sequence_next ctx in Val (if (ok : bool) then Some ctx else None).
Definition skip_all (ctx : asn1_context) : outcome (option asn1_context) :=
  let* (ok, ctx) := asn1_constructed_skip_all ctx in Val (if (ok : bool) then Some ctx else None).

(** [calloc i]: the i-th allocation of a context succeeds; [malloc]: that of the copy. *)
Definition read_pkcs7 (calloc : nat -> bool) (malloc : bool) (pkcs7_der pkcs7_der_len : Z) : outcome (option block) :=
  let? ctx := Val (asn1_context_new (calloc 0%nat) pkcs7_der pkcs7_der_len) in
  let? pkcs7_seq := asn1_sequence_get (calloc 1%nat) ctx in
  let? pkcs7_seq := next pkcs7_seq in
  let? signed_data_app := asn1_constructed_get (calloc 2%nat) pkcs7_seq in
  let? signed_data_seq := asn1_sequence_get (calloc 3%nat) signed_data_app in
  let? signed_data_seq := next signed_data_seq in
  let? signed_data_seq := next signed_data_seq in
  let? signed_data_seq := next signed_data_seq in
  let? signed_data_seq := skip_all signed_data_seq in
  let? sig_set := asn1_set_get (calloc 4%nat) signed_data_seq in
  let? sig_seq := asn1_sequence_get (calloc 5%nat) sig_set in
  let? sig_seq := next sig_seq in
  let? sig_seq := next sig_seq in
  let? sig_seq := next sig_seq in
  let? sig_seq := next sig_seq in
  let? (sig_der_ptr, sig_der_length) := asn1_octet_string_get sig_seq in
  if malloc then let* sig := load_bytes mem sig_der_ptr sig_der_length in Val (Some sig) else Val None.
End Decoder.

(** ** The grammar *)

(** The number with base-256 digits [ds] after [a]. *)
Fixpoint be_acc (a : Z) (ds : block) : Z :=
  match ds with [] => a | d :: ds => be_acc (a * 256 + d) ds end.

Section Grammar.
Context `{Arch}.

(** [ls] spells the length [n]: one byte below 128, or the number of digits, marked, and
    the digits, fewer than in a size_t. *)
Definition is_len (n : Z) (ls : block) : Prop :=
  (0 <= n < 128 /\ ls = [n]) \/
  exists ds, ls = (128 + zlen ds) :: ds /\ zlen ds < word_bits / 8 /\ n = be_acc 0 ds.

(** [bs] starts with an element with tag [t] and contents [c]; [rest] follows. *)
Definition tlv (bs : block) (t : Z) (c rest : block) : Prop :=
  exists ls, bs = t :: ls ++ c ++ rest /\ is_len (zlen c) ls.

Definition is_constructed (t : Z) : Prop := Z.land t kMaskConstructed = kTagConstructed.

(** [rest] is what follows the constructed elements at the start of [bs]. *)
Inductive past_constructed : block -> block -> Prop :=
| past_none b bs : ~ is_constructed b -> past_constructed (b :: bs) (b :: bs)
| past_one bs t c rest r : tlv bs t c rest -> is_constructed t -> past_constructed rest r -> past_constructed bs r.

(** What the contents of an element with a tag that satisfies [P] are. *)
Definition inside (P : Z -> Prop) (bs c : block) : Prop := exists t rest, P t /\ tlv bs t c rest.
Definition after (bs rest : block) : Prop := exists t c, tlv bs t c rest.

Definition sequence_tag (t : Z) : Prop := Z.land t kMaskTag = kTagSequence.
Definition set_tag (t : Z) : Prop := Z.land t kMaskTag = kTagSet.

(** The signature of a PKCS#7 structure, as verifier.cpp describes it. *)
Definition signer_info (bs sig : block) : Prop :=
  exists b1, inside sequence_tag bs b1 /\ exists b2, after b1 b2 /\ exists b3, after b2 b3 /\ exists b4, after b3 b4 /\
  exists b5, after b4 b5 /\ sig <> [] /\ inside (fun t => t = kTagOctetString) b5 sig.
Definition signed_data (bs sig : block) : Prop :=
  exists b1, inside sequence_tag bs b1 /\ exists b2, after b1 b2 /\ exists b3, after b2 b3 /\ exists b4, after b3 b4 /\
  exists b5, past_constructed b4 b5 /\ exists b6, inside set_tag b5 b6 /\ signer_info b6 sig.
Definition pkcs7_signature (bs sig : block) : Prop :=
  exists b1, inside sequence_tag bs b1 /\ exists b2, after b1 b2 /\
  exists b3, inside is_constructed b2 b3 /\ signed_data b3 sig.

(** Lengths are prefix-free, so an element is determined by the bytes it starts. *)
Lemma is_len_head n ls : is_len n ls -> exists b ds, ls = b :: ds.
Proof. intros [[_ ->] | (ds & -> & _)]; eauto. Qed.

Lemma is_len_fun n ls n' ls' r r' : is_len n ls -> is_len n' ls' -> ls ++ r = ls' ++ r' -> n = n' /\ ls = ls' /\ r = r'.
Proof.
  intros [[Hn ->] | (ds & -> & Hd & ->)] [[Hn' ->] | (ds' & -> & Hd' & ->)] E; simpl in E.
  - by injection E as -> ->.
  - injection E as E _. zlia.
  - injection E as E _. zlia.
  - injection E as E1 E2. apply app_inj_1 in E2 as [-> ->]; [done | unfold zlen in E1; lia].
Qed.

Lemma tlv_fun bs t c r t' c' r' : tlv bs t c r -> tlv bs t' c' r' -> t = t' /\ c = c' /\ r = r'.
Proof.
  intros (ls & -> & Hl) (ls' & E & Hl'). injection E as -> E.
  destruct (is_len_fun _ _ _ _ _ _ Hl Hl' E) as (En & -> & Er). apply app_inj_1 in Er as [-> ->]; [done | unfold zlen in En; lia].
Qed.

Lemma inside_fun P bs c c' : inside P bs c -> inside P bs c' -> c = c'.
Proof. intros (t & r & _ & E1) (t' & r' & _ & E2). by destruct (tlv_fun _ _ _ _ _ _ _ E1 E2) as (_ & -> & _). Qed.

Lemma after_fun bs r r' : after bs r -> after bs r' -> r = r'.
Proof. intros (t & c & E1) (t' & c' & E2). by destruct (tlv_fun _ _ _ _ _ _ _ E1 E2) as (_ & _ & ->). Qed.

Lemma tlv_head bs t c r : tlv bs t c r -> exists bs', bs = t :: bs'.
Proof. intros (ls & -> & _). eauto. Qed.

Lemma past_constructed_fun bs r r' : past_constructed bs r -> past_constructed bs r' -> r = r'.
Proof.
  intros Hp. revert r'. induction Hp as [b bs Hb | bs t c rest r Ht Hc _ IH]; intros r' Hp'; inversion Hp' as [b' bs' Hb' | bs' t' c' rest' r2 Ht' Hc' Hp2]; subst.
  - done.
  - destruct (tlv_head _ _ _ _ Ht') as [? [= -> ->]]. done.
  - destruct (tlv_head _ _ _ _ Ht) as [? [= -> ->]]. done.
  - destruct (tlv_fun _ _ _ _ _ _ _ Ht Ht') as (_ & _ & ->). auto.
Qed.
End Grammar.

(** ** The decoder recognises the grammar *)

Lemma be_acc_app a ds d : be_acc a (ds ++ [d]) = be_acc a ds * 256 + d.
Proof. revert a. induction ds; simpl; auto. Qed.

Lemma be_acc_bound ds : bytes_ok ds -> forall a, 0 <= a -> 0 <= be_acc a ds < (a + 1) * 256 ^ zlen ds.
Proof.
  induction 1 as [| d ds Hd _ IH]; intros a Ha; [change (zlen (@nil Z)) with 0; simpl; lia |]. cbn [be_acc]. unfold is_byte in Hd.
  destruct (IH (a * 256 + d)) as [H1 H2]; [lia |]. split; [done |]. rewrite zlen_cons, Z.pow_add_r by zlia.
  change (256 ^ 1) with 256. assert (0 < 256 ^ zlen ds) by (apply Z.pow_pos_nonneg; zlia). nia.
Qed.

Section Correct.
Context `{Arch} (mem : block).
Hypothesis Hmem : bytes_ok mem.

Definition view (ctx : asn1_context) : block := slice mem (c_p ctx) (c_length ctx).
Definition valid (ctx : asn1_context) : Prop := 0 <= c_p ctx /\ 0 <= c_length ctx /\ c_p ctx + c_length ctx <= zlen mem.

Lemma view_len ctx : valid ctx -> zlen (view ctx) = c_length ctx.
Proof. intros (H1 & H2 & H3). by apply zlen_slice. Qed.

Lemma view_bytes ctx : bytes_ok (view ctx).
Proof. by apply bytes_ok_slice. Qed.

Lemma valid_nil ctx : valid ctx -> c_length ctx <= 0 -> view ctx = [].
Proof. intros (H1 & H2 & H3) H4. unfold view. by replace (c_length ctx) with 0 by lia. Qed.

Lemma get_byte_spec ctx : valid ctx ->
  (get_byte mem ctx = Val (-1, ctx) /\ view ctx = []) \/
  exists b ctx', get_byte mem ctx = Val (b, ctx') /\ is_byte b /\ valid ctx' /\ view ctx = b :: view ctx'.
Proof.
  intros Hv. unfold get_byte. destruct (Z.leb_spec (c_length ctx) 0); [left; split; [done | by apply valid_nil] |].
  right. destruct Hv as (H1 & H2 & H3). destruct (load_ex mem (c_p ctx)) as (b & Hb & Hbyte); [done | lia |].
  rewrite Hb. eexists _, _. split; [done |]. split; [done |]. split; [unfold valid; simpl; lia |]. by apply slice_cons.
Qed.

Lemma skip_bytes_spec ctx n : valid ctx -> 0 <= n ->
  match skip_bytes ctx n with
  | (true, ctx') => valid ctx' /\ exists c, view ctx = c ++ view ctx' /\ zlen c = n
  | (false, _) => zlen (view ctx) < n
  end.
Proof.
  intros Hv Hn. unfold skip_bytes. rewrite view_len by done. destruct (Z.ltb_spec (c_length ctx) n); [done |].
  destruct Hv as (H1 & H2 & H3). split; [unfold valid; simpl; lia |]. exists (slice mem (c_p ctx) n). split; [| apply zlen_slice; lia].
  unfold view. simpl. rewrite <- slice_app by lia. f_equal. lia.
Qed.

Lemma length_loop_spec k : forall a ctx, valid ctx -> 0 <= a -> (a + 1) * 256 ^ Z.of_nat k <= 2 ^ word_bits ->
  exists r ctx', length_loop mem k a ctx = Val (r, ctx') /\ valid ctx' /\
    match r with
    | Some n => exists ds, view ctx = ds ++ view ctx' /\ zlen ds = Z.of_nat k /\ n = be_acc a ds
    | None => zlen (view ctx) < Z.of_nat k
    end.
Proof.
  induction k as [| k IH]; intros a ctx Hv Ha Hb; cbn [length_loop].
  { eexists _, _. split; [done |]. split; [done |]. by exists []. }
  destruct (get_byte_spec ctx Hv) as [[-> E] | (b & ctx1 & -> & Hbyte & Hv1 & E)]; cbn [mbind outcome_bind].
  { eexists _, _. split; [done |]. split; [done |]. rewrite E. change (zlen (@nil Z)) with 0. lia. }
  unfold is_byte in Hbyte. rewrite (proj2 (Z.eqb_neq b (-1))) by lia.
  rewrite Nat2Z.inj_succ, Z.pow_succ_r in Hb by lia. assert (0 < 256 ^ Z.of_nat k) by (apply Z.pow_pos_nonneg; lia).
  rewrite Z.shiftl_mul_pow2 by lia. change (2 ^ 8) with 256.
  rewrite (wrapu_id _ (a * 256)) by nia. rewrite (wrapu_id _ (a * 256 + b)) by nia.
  destruct (IH (a * 256 + b) ctx1 Hv1) as (r & ctx2 & -> & Hv2 & Hr); [lia | nia |].
  exists r, ctx2. split; [done |]. split; [done |]. rewrite E. destruct r as [n |]; [| rewrite zlen_cons; lia].
  destruct Hr as (ds & -> & Hl & ->). exists (b :: ds). rewrite zlen_cons. split_and!; [done | lia | done].
Qed.

Lemma word_pow : 256 ^ (word_bits / 8) = 2 ^ word_bits.
Proof. by destruct word_bits_ok as [-> | ->]. Qed.

Lemma decode_length_spec ctx : valid ctx ->
  exists r ctx', decode_length mem ctx = Val (r, ctx') /\ valid ctx' /\
    match r with
    | Some n => 0 <= n /\ exists ls, view ctx = ls ++ view ctx' /\ is_len n ls
    | None => forall n ls rest, view ctx = ls ++ rest -> ~ is_len n ls
    end.
Proof.
  intros Hv. unfold decode_length.
  destruct (get_byte_spec ctx Hv) as [[-> E] | (b & ctx1 & -> & Hbyte & Hv1 & E)]; cbn [mbind outcome_bind].
  { eexists _, _. split; [done |]. split; [done |]. intros n ls rest E' Hl. destruct (is_len_head _ _ Hl) as (? & ? & ->). by rewrite E in E'. }
  unfold is_byte in Hbyte. rewrite (proj2 (Z.eqb_neq b (-1))) by lia.
  assert (Z.land b 128 = if b <? 128 then 0 else 128) as E8.
  { assert (forall x, (0 <= x < 256)%nat -> Z.land (Z.of_nat x) 128 = if Z.of_nat x <? 128 then 0 else 128) as Hall.
    { intros x Hx. do 256 (destruct x as [| x]; [reflexivity |]). lia. }
    specialize (Hall (Z.to_nat b)). rewrite Z2Nat.id in Hall by lia. apply Hall. lia. }
  assert (Z.land b kMaskTag = b mod 128) as E7 by (apply (Z.land_ones b 7); lia).
  rewrite E8. destruct (Z.ltb_spec b 128); cbn [Z.eqb].
  { eexists _, _. split; [done |]. split; [done |]. split; [lia |]. exists [b]. split; [done |]. left. split; [lia | done]. }
  rewrite E7. replace (b mod 128) with (b - 128) by (apply (Z.mod_unique_pos _ _ 1); lia).
  assert (forall n ls rest, view ctx = ls ++ rest -> is_len n ls -> exists ds, view ctx1 = ds ++ rest /\ zlen ds = b - 128 /\ zlen ds < word_bits / 8) as Hinv.
  { intros n ls rest E' [[Hn ->] | (ds & -> & Hd & _)]; rewrite E in E'; injection E' as -> E'; [lia |]. exists ds. split_and!; [done | zlia | done]. }
  destruct (Z.leb_spec (word_bits / 8) (b - 128)).
  { eexists _, _. split; [done |]. split; [done |]. intros n ls rest E' Hl. destruct (Hinv _ _ _ E' Hl) as (ds & _ & ? & ?). lia. }
  assert (256 ^ (b - 128) <= 2 ^ word_bits) by (rewrite <- word_pow; apply Z.pow_le_mono_r; lia).
  destruct (length_loop_spec (Z.to_nat (b - 128)) 0 ctx1 Hv1) as (r & ctx2 & -> & Hv2 & Hr); [lia | rewrite Z2Nat.id; lia |].
  rewrite Z2Nat.id in Hr by lia. exists r, ctx2. split; [done |]. split; [done |]. destruct r as [n |].
  - destruct Hr as (ds & E' & Hl & ->). split.
    + apply be_acc_bound; [| done]. pose proof (view_bytes ctx1) as Hbs. rewrite E' in Hbs. by apply Forall_app in Hbs as [? _].
    + exists (b :: ds). split; [by rewrite E, E' |]. right. exists ds. split_and!; [f_equal; lia | lia | done].
  - intros n ls rest E' Hl. destruct (Hinv _ _ _ E' Hl) as (ds & Ed & Hd & _). rewrite Ed in Hr. zlia.
Qed.
Lemma no_tlv_nil t c r : ~ tlv [] t c r.
Proof. by intros (ls & ? & _). Qed.

(** The length and the contents of an element whose tag has been read. *)
Lemma element_spec ctx b ctx1 : valid ctx1 -> view ctx = b :: view ctx1 ->
  exists r ctx2, decode_length mem ctx1 = Val (r, ctx2) /\ valid ctx2 /\
    match r with
    | Some n => 0 <= n /\
        if decide (n <= c_length ctx2)
        then exists rest, view ctx2 = slice mem (c_p ctx2) n ++ rest /\ tlv (view ctx) b (slice mem (c_p ctx2) n) rest
        else forall t c r, ~ tlv (view ctx) t c r
    | None => forall t c r, ~ tlv (view ctx) t c r
    end.
Proof.
  intros Hv E. destruct (decode_length_spec ctx1 Hv) as (r & ctx2 & Ed & Hv2 & Hr). exists r, ctx2. split; [done |]. split; [done |].
  destruct r as [n |].
  - destruct Hr as (Hn & ls & El & Hl). split; [done |]. case_decide as Hc.
    + destruct Hv2 as (H1 & H2 & H3). exists (slice mem (c_p ctx2 + n) (c_length ctx2 - n)). split.
      * unfold view. rewrite <- slice_app by lia. f_equal. lia.
      * exists ls. rewrite zlen_slice by lia. split; [| done]. rewrite E, El. f_equal. f_equal. unfold view.
        rewrite <- slice_app by lia. f_equal. lia.
    + intros t c r (ls' & E' & Hl'). rewrite E, El in E'. injection E' as _ E'.
      destruct (is_len_fun _ _ _ _ _ _ Hl Hl' E') as (-> & _ & Ev). pose proof (view_len _ Hv2) as Hlen. rewrite Ev in Hlen. zlia.
  - intros t c rest (ls & E' & Hl). rewrite E in E'. injection E' as _ E'. by apply (Hr (zlen c) ls (c ++ rest)).
Qed.

(** [m] finds the contents that [R] describes exactly when there are some. *)
Definition decides {A} (ok : A -> Prop) (abs : A -> block) (m : outcome (option A)) (R : block -> Prop) : Prop :=
  exists r, m = Val r /\ match r with Some x => ok x /\ R (abs x) | None => forall v, ~ R v end.

Lemma decides_bind {A B} (okA : A -> Prop) absA (okB : B -> Prop) absB m k (R : block -> Prop) (S : block -> block -> Prop) :
  decides okA absA m R -> (forall a b, R a -> R b -> a = b) -> (forall x, okA x -> R (absA x) -> decides okB absB (k x) (S (absA x))) ->
  decides okB absB (let? x := m in k x) (fun v => exists u, R u /\ S u v).
Proof.
  intros (r & -> & Hr) Hfun Hk. cbn [mbind outcome_bind]. destruct r as [x |].
  - destruct Hr as [Hok HR]. destruct (Hk x Hok HR) as (r & -> & Hr). exists r. split; [done |]. destruct r as [y |].
    + destruct Hr as [Hy HS]. split; [done |]. eauto.
    + intros v (u & Hu & HS). rewrite (Hfun u (absA x) Hu HR) in HS. by apply (Hr v).
  - exists None. split; [done |]. intros v (u & Hu & _). by apply (Hr u).
Qed.

(** An element whose tag is tested by [f]. *)
Lemma tagged_spec (P : Z -> Prop) (f : Z -> bool) ctx : valid ctx -> f (-1) = false ->
  (forall b, is_byte b -> f b = true <-> P b) ->
  decides valid view (let* (byte, ctx) := get_byte mem ctx in if negb (f byte) then Val None else sub_context mem true ctx)
    (inside P (view ctx)).
Proof.
  intros Hv Hm Hf. destruct (get_byte_spec ctx Hv) as [[-> E] | (b & ctx1 & -> & Hbyte & Hv1 & E)]; cbn [mbind outcome_bind].
  { rewrite Hm. exists None. split; [done |]. rewrite E. by intros c (t & r & _ & ?%no_tlv_nil). }
  destruct (f b) eqn:Eb; cbn [negb].
  - apply Hf in Eb; [| done]. unfold sub_context. destruct (element_spec ctx b ctx1 Hv1 E) as (r & ctx2 & -> & Hv2 & Hr). cbn [mbind outcome_bind].
    destruct r as [n |]; [| exists None; split; [done |]; by intros c (t & r & _ & ?%Hr)].
    destruct Hr as [Hn Hr]. destruct (Z.ltb_spec (c_length ctx2) n); case_decide; try lia.
    + exists None. split; [done |]. by intros c (t & r & _ & ?%Hr).
    + destruct Hr as (rest & Er & Ht). eexists. split; [done |]. destruct Hv2 as (Hva & Hvb & Hvc).
      split; [unfold valid; simpl; lia |]. exists b, rest. done.
  - exists None. split; [done |]. intros c (t & r & HP & Ht). destruct (tlv_head _ _ _ _ Ht) as [bs' Eh]. rewrite E in Eh. injection Eh as -> _.
    apply Hf in HP; [congruence | done].
Qed.

Lemma sequence_get_spec ctx : valid ctx -> decides valid view (asn1_sequence_get mem true ctx) (inside sequence_tag (view ctx)).
Proof.
  intros Hv. apply (tagged_spec _ (fun b => Z.land b kMaskTag =? kTagSequence)); [done | done |]. intros b _. apply Z.eqb_eq.
Qed.

Lemma set_get_spec ctx : valid ctx -> decides valid view (asn1_set_get mem true ctx) (inside set_tag (view ctx)).
Proof.
  intros Hv. apply (tagged_spec _ (fun b => Z.land b kMaskTag =? kTagSet)); [done | done |]. intros b _. apply Z.eqb_eq.
Qed.

Lemma constructed_get_spec ctx : valid ctx -> decides valid view (asn1_constructed_get mem true ctx) (inside is_constructed (view ctx)).
Proof.
  intros Hv. destruct (tagged_spec is_constructed (fun b => negb (b =? -1) && (Z.land b kMaskConstructed =? kTagConstructed)) ctx Hv) as (r & E & Hr).
  { done. } { intros b Hb. unfold is_byte in Hb. rewrite (proj2 (Z.eqb_neq b (-1))) by lia. apply Z.eqb_eq. }
  unfold asn1_constructed_get, sub_context in *. destruct (get_byte mem ctx) as [[b ctx1] |]; [| done]. cbn [mbind outcome_bind] in *.
  rewrite negb_andb, negb_involutive in E. destruct (_ || _); [by exists r |]. destruct (decode_length mem ctx1) as [[[n |] ctx2] |]; cbn [mbind outcome_bind] in *; [| by exists r | done].
  destruct (c_length ctx2 <? n); [by exists r |]. simpl in *. injection E as <-. eexists. split; [done |]. done.
Qed.

Lemma sequence_next_spec ctx : valid ctx -> decides valid view (next mem ctx) (after (view ctx)).
Proof.
  intros Hv. unfold next, asn1_sequence_next. destruct (get_byte_spec ctx Hv) as [[-> E] | (b & ctx1 & -> & Hbyte & Hv1 & E)]; cbn [mbind outcome_bind].
  { exists None. split; [done |]. rewrite E. by intros r (t & c & ?%no_tlv_nil). }
  unfold is_byte in Hbyte. rewrite (proj2 (Z.eqb_neq b (-1))) by lia.
  destruct (element_spec ctx b ctx1 Hv1 E) as (r & ctx2 & -> & Hv2 & Hr). cbn [mbind outcome_bind].
  destruct r as [n |]; cbn [mbind outcome_bind]; [| exists None; split; [done |]; by intros r (t & c & ?%Hr)].
  destruct Hr as [Hn Hr]. pose proof (skip_bytes_spec ctx2 n Hv2 Hn) as Hs. rewrite view_len in Hs by done.
  destruct (skip_bytes ctx2 n) as [[] ctx3].
  - destruct Hs as (Hv3 & c & Ec & Hc). eexists. split; [done |]. split; [done |]. pose proof (view_len _ Hv2) as Hl. rewrite Ec in Hl. pose proof (zlen_nonneg (view ctx3)).
    assert (n <= c_length ctx2) as Hle by zlia. rewrite decide_True in Hr by done. destruct Hr as (rest & Er & Ht).
    exists b, (slice mem (c_p ctx2) n). rewrite Er in Ec. apply app_inj_1 in Ec as [_ <-]; [done |].
    destruct Hv2 as (H1 & H2 & H3). assert (zlen (slice mem (c_p ctx2) n) = n) as Hz by (apply zlen_slice; lia). unfold zlen in Hz, Hc. lia.
  - exists None. split; [done |]. rewrite decide_False in Hr by lia. by intros r (t & c & ?%Hr).
Qed.

Lemma peek_byte_spec ctx : valid ctx ->
  (peek_byte mem ctx = Val (-1) /\ view ctx = []) \/ exists b bs, peek_byte mem ctx = Val b /\ is_byte b /\ view ctx = b :: bs.
Proof.
  intros Hv. unfold peek_byte. destruct (Z.leb_spec (c_length ctx) 0); [left; split; [done | by apply valid_nil] |].
  right. destruct Hv as (H1 & H2 & H3). destruct (load_ex mem (c_p ctx)) as (b & Hb & Hbyte); [done | lia |].
  rewrite Hb. eexists _, _. split; [done |]. split; [done |]. by apply slice_cons.
Qed.

Lemma no_past_nil r : ~ past_constructed [] r.
Proof. inversion 1; subst. by eapply no_tlv_nil. Qed.

Lemma skip_all_loop_spec fuel : forall byte ctx, valid ctx -> c_length ctx < Z.of_nat fuel -> peek_byte mem ctx = Val byte ->
  exists b ctx', skip_all_loop mem fuel byte ctx = Val (b, ctx') /\ 
    if b : bool then valid ctx' /\ past_constructed (view ctx) (view ctx') else forall r, ~ past_constructed (view ctx) r.
Proof.
  induction fuel as [| fuel IH]; intros byte ctx Hv Hf Hp; [destruct Hv as (_ & ? & _); lia |].
  destruct (peek_byte_spec ctx Hv) as [[Ep E] | (b & bs & Ep & Hb & E)]; rewrite Ep in Hp; injection Hp as <-; cbn [skip_all_loop].
  { exists false, ctx. split; [done |]. rewrite E. apply no_past_nil. }
  unfold is_byte in Hb. rewrite (proj2 (Z.eqb_neq b (-1))) by lia. cbn [negb andb].
  destruct (Z.eqb_spec (Z.land b kMaskConstructed) kTagConstructed) as [Hc | Hc].
  2: { exists true, ctx. split; [done |]. split; [done |]. rewrite E. by constructor. }
  pose proof (skip_bytes_spec ctx 1 Hv ltac:(lia)) as Hs. rewrite E in Hs. pose proof (view_len ctx Hv) as Hl. rewrite E in Hl.
  destruct (skip_bytes ctx 1) as [[] ctx1] eqn:Es; [| zlia]. destruct Hs as (Hv1 & c1 & E1 & Hc1).
  assert (c1 = [b] /\ view ctx = b :: view ctx1) as [-> Ev1].
  { destruct c1 as [| x [| y c1]]; [done | | zlia]. simpl in E1. injection E1 as -> ->. done. }
  pose proof (view_len ctx1 Hv1) as Hl1. assert (c_length ctx = 1 + c_length ctx1) as Hlen.
  { rewrite <- E, Ev1, zlen_cons in Hl. lia. }
  destruct (element_spec ctx b ctx1 Hv1 Ev1) as (r & ctx2 & Ed & Hv2 & Hr). rewrite Ed. cbn [mbind outcome_bind].
  destruct r as [n |]; [| exists false, ctx2; split; [done |]; inversion 1; subst; [congruence |]; by eapply Hr].
  destruct Hr as [Hn Hr]. assert (c_length ctx2 <= c_length ctx1) as Hl2.
  { destruct (decode_length_spec ctx1 Hv1) as (r' & ctx2' & Ed' & _ & Hr'). rewrite Ed in Ed'. injection Ed' as <- <-.
    pose proof (view_len ctx2 Hv2). destruct Hr' as (_ & ls & El & _). rewrite El in Hl1. zlia. }
  pose proof (skip_bytes_spec ctx2 n Hv2 Hn) as Hs. rewrite view_len in Hs by done. destruct (skip_bytes ctx2 n) as [[] ctx3]; cbn [negb].
  2: { exists false, ctx3. split; [done |]. rewrite decide_False in Hr by lia. inversion 1; subst; [congruence |]. by eapply Hr. }
  destruct Hs as (Hv3 & c & Ec & Hcl). pose proof (view_len ctx3 Hv3) as Hl3. pose proof (view_len ctx2 Hv2) as Hl2'. rewrite Ec, zlen_app in Hl2'.
  assert (n <= c_length ctx2) as Hle by (pose proof (zlen_nonneg (view ctx3)); lia). rewrite decide_True in Hr by done. destruct Hr as (rest & Er & Ht).
  assert (rest = view ctx3) as ->.
  { rewrite Er in Ec. apply app_inj_1 in Ec as [_ <-]; [done |]. destruct Hv2 as (K1 & K2 & K3).
    assert (zlen (slice mem (c_p ctx2) n) = n) as Hz by (apply zlen_slice; lia). unfold zlen in Hz, Hcl. lia. }
  assert (exists byte, peek_byte mem ctx3 = Val byte) as [byte Hp3] by (destruct (peek_byte_spec ctx3 Hv3) as [[? _] | (? & ? & ? & _)]; eauto).
  rewrite Hp3. cbn [mbind outcome_bind]. destruct (IH byte ctx3 Hv3) as (ok & ctx4 & -> & Hok); [lia | done |]. exists ok, ctx4. split; [done |].
  destruct ok; [split; [apply Hok | by eapply past_one; [| | apply Hok]] |]. intros r Hp. inversion Hp as [| ? t' c' rest' ? Ht' ? Hp']; subst; [congruence |].
  destruct (tlv_fun _ _ _ _ _ _ _ Ht Ht') as (_ & _ & <-). by apply (Hok r).
Qed.

Lemma skip_all_spec ctx : valid ctx -> decides valid view (skip_all mem ctx) (past_constructed (view ctx)).
Proof.
  intros Hv. unfold skip_all, asn1_constructed_skip_all.
  assert (exists byte, peek_byte mem ctx = Val byte) as [byte Hp] by (destruct (peek_byte_spec ctx Hv) as [[? _] | (? & ? & ? & _)]; eauto).
  rewrite Hp. cbn [mbind outcome_bind]. destruct (skip_all_loop_spec (S (Z.to_nat (c_length ctx))) byte ctx Hv) as (b & ctx' & -> & Hb); [lia | done |].
  cbn [mbind outcome_bind]. destruct b; [exists (Some ctx') | exists None]; done.
Qed.

Lemma string_get_spec tag ctx : valid ctx -> 0 <= tag ->
  decides (fun x => 0 <= fst x /\ 0 <= snd x /\ fst x + snd x <= zlen mem) (fun x => slice mem (fst x) (snd x)) (string_get mem tag ctx)
    (fun s => s <> [] /\ inside (fun t => t = tag) (view ctx) s).
Proof.
  intros Hv Htag. unfold string_get. destruct (get_byte_spec ctx Hv) as [[-> E] | (b & ctx1 & -> & Hbyte & Hv1 & E)]; cbn [mbind outcome_bind].
  { rewrite (proj2 (Z.eqb_neq (-1) tag)) by lia. exists None. split; [done |]. rewrite E. by intros c (_ & t & r & _ & ?%no_tlv_nil). }
  destruct (Z.eqb_spec b tag) as [-> | Hne]; cbn [negb].
  2: { exists None. split; [done |]. intros s (_ & t & r & -> & Ht). destruct (tlv_head _ _ _ _ Ht) as [? Eh]. rewrite E in Eh. congruence. }
  destruct (element_spec ctx tag ctx1 Hv1 E) as (r & ctx2 & -> & Hv2 & Hr). cbn [mbind outcome_bind].
  destruct r as [n |]; [| exists None; split; [done |]; by intros s (_ & t & r & _ & ?%Hr)]. destruct Hr as [Hn Hr].
  destruct (Z.eqb_spec n 0) as [-> | Hn0]; cbn [orb].
  { exists None. split; [done |]. rewrite decide_True in Hr by apply Hv2. destruct Hr as (rest & _ & Ht).
    intros s (Hs & t & r & _ & Ht'). destruct (tlv_fun _ _ _ _ _ _ _ Ht Ht') as (_ & <- & _). done. }
  destruct (Z.ltb_spec (c_length ctx2) n); case_decide; try lia.
  - exists None. split; [done |]. by intros s (_ & t & r & _ & ?%Hr).
  - destruct Hr as (rest & _ & Ht). eexists. split; [done |]. destruct Hv2 as (K1 & K2 & K3). simpl. split; [lia |].
    split; [| by exists tag, rest]. intros Es. assert (zlen (slice mem (c_p ctx2) n) = n) as Hz by (apply zlen_slice; lia).
    rewrite Es in Hz. change (zlen (@nil Z)) with 0 in Hz. lia.
Qed.

(** One step into the structure. *)
Ltac chain spec :=
  eapply decides_bind; [by apply spec | intros; solve [by eapply inside_fun | by eapply after_fun | by eapply past_constructed_fun] |];
  let x := fresh "c" in let Hx := fresh "Hx" in intros x Hx _; cbv beta.

(** read_pkcs7 returns the signature of the structure, exactly when it has one. *)
Lemma read_pkcs7_spec der len : 0 <= der -> 0 <= len -> der + len <= zlen mem ->
  decides (fun _ => True) id (read_pkcs7 mem (fun _ => true) true der len) (pkcs7_signature (slice mem der len)).
Proof.
  intros Hd Hl Hlen. assert (valid (mkCtx len der 0)) as Hv by done. unfold read_pkcs7. cbn [mbind outcome_bind asn1_context_new].
  change (slice mem der len) with (view (mkCtx len der 0)).
  chain sequence_get_spec. chain sequence_next_spec. chain constructed_get_spec. chain sequence_get_spec.
  chain sequence_next_spec. chain sequence_next_spec. chain sequence_next_spec. chain skip_all_spec. chain set_get_spec.
  chain sequence_get_spec. chain sequence_next_spec. chain sequence_next_spec. chain sequence_next_spec. chain sequence_next_spec.
  destruct (string_get_spec kTagOctetString c12 Hx12) as (r & Er & Hr); [done |]. unfold asn1_octet_string_get. rewrite Er. cbn [mbind outcome_bind].
  destruct r as [[p n] |]; [| by exists None]. destruct Hr as [(Hp & Hn & Hpn) Hr]. simpl in *. unfold load_bytes. rewrite !(proj2 (Z.leb_le _ _)) by lia.
  cbn [andb mbind outcome_bind]. eexists. split; [done |]. done.
Qed.

Ltac unique :=
  repeat match goal with
  | H : exists _, _ |- _ => destruct H
  | H : _ /\ _ |- _ => destruct H
  | H1 : inside ?P ?b ?x, H2 : inside ?P ?b ?y |- _ => assert (x = y) by (by eapply inside_fun); subst; clear H2
  | H1 : after ?b ?x, H2 : after ?b ?y |- _ => assert (x = y) by (by eapply after_fun); subst; clear H2
  | H1 : past_constructed ?b ?x, H2 : past_constructed ?b ?y |- _ => assert (x = y) by (by eapply past_constructed_fun); subst; clear H2
  end.

Lemma pkcs7_signature_fun bs s s' : pkcs7_signature bs s -> pkcs7_signature bs s' -> s = s'.
Proof. unfold pkcs7_signature, signed_data, signer_info. intros. unique. done. Qed.
End Correct.

(** C34: on any bytes the decoder stays inside them and returns; it returns a signature
    exactly when the bytes are a PKCS#7 structure with that signature. *)
Theorem read_pkcs7_correct `{Arch} mem der len : bytes_ok mem -> 0 <= der -> 0 <= len -> der + len <= zlen mem ->
  exists r, read_pkcs7 mem (fun _ => true) true der len = Val r /\
    forall sig, r = Some sig <-> pkcs7_signature (slice mem der len) sig.
Proof.
  intros Hm Hd Hl Hlen. destruct (read_pkcs7_spec mem Hm der len Hd Hl Hlen) as (r & E & Hr). exists r. split; [done |].
  intros sig. destruct r as [s |].
  - destruct Hr as [_ Hs]. split; [intros [= ->]; done |]. intros Hs'. f_equal. by eapply pkcs7_signature_fun.
  - split; [done |]. intros Hs. by apply Hr in Hs.
Qed.

(** A structure with two bytes of signature, between bytes that do not belong to it. *)
Definition sample_pkcs7 : block :=
  [9; 9; 9; 0x30; 34; 6; 1; 42; 0xA0; 29; 0x30; 0x81; 26; 2; 1; 1; 0x31; 0; 0x30; 0; 0xA0; 1; 7; 0x31; 14; 0x30; 12;
   2; 0; 0x30; 0; 0x30; 0; 0x30; 0; 4; 2; 0xAB; 0xCD; 8].

Example sample_pkcs7_read : read_pkcs7 (H := ILP32) sample_pkcs7 (fun _ => true) true 3 37 = Val (Some [0xAB; 0xCD]).
Proof. vm_compute. reflexivity. Qed.

Lemma read_pkcs7_correct_witness : exists r,
  read_pkcs7 (H := ILP32) sample_pkcs7 (fun _ => true) true 3 37 = Val r /\
  forall sig, r = Some sig <-> pkcs7_signature (H := ILP32) (slice sample_pkcs7 3 37) sig.
Proof.
  apply (@read_pkcs7_correct ILP32); [| lia | lia | vm_compute; discriminate].
  repeat (constructor; [unfold is_byte; lia |]). constructor.
Defined.
