(* ===== verification/Verifier.v ===== *)
(** * Verification of update packages (verifier.cpp: verify_file)

    The file is the list of its bytes behind a stdio stream whose calls fail when the
    environment says so.  mincrypt is a parameter.  The theorems: success means that the
    bytes before the archive comment carry a signature by one of the keys, and that the
    archive parser (Zip.v) finds its directory through exactly these bytes; without I/O
    failures the answer is exactly whether the file is signed. *)

From stdpp Require Import base numbers list.
From S2P Require Import Prelude Bits Zip Asn1.

Definition SHA_DIGEST_SIZE : Z := 20.
Definition SHA256_DIGEST_SIZE : Z := 32.
Definition RSANUMBYTES : Z := 256.
Definition RSANUMWORDS : Z := 64.
Definition P256_NBYTES : Z := 32.
Definition VERIFY_SUCCESS : Z := 0.
Definition VERIFY_FAILURE : Z := 1.
Definition FOOTER_SIZE : Z := 6.
Definition EOCD_HEADER_SIZE : Z := 22.
Definition BUFFER_SIZE : Z := 4096.

(** mincrypt/rsa.h *)
Record RSAPublicKey := mkRsa { rsa_len : Z; n0inv : Z; rsa_n : list Z; rr : list Z; exponent : Z }.

(** mincrypt: digests, and the checks of signatures of a digest. *)
Class mincrypt := {
  p256_int : Type;
  SHA : block -> block;
  SHA256 : block -> block;
  RSA_verify : RSAPublicKey -> block -> block -> Z -> bool;
  dsa_sig_unpack : block -> option (p256_int * p256_int);
  p256_from_bin : block -> p256_int;
  p256_ecdsa_verify : p256_int -> p256_int -> p256_int -> p256_int -> p256_int -> bool
}.

Section Verify.
Context `{Arch} `{mincrypt}.

Record ECPublicKey := mkEc { ec_x : p256_int; ec_y : p256_int }.
Inductive KeyType := RSA | EC.
(** The pointers may be null. *)
Record Certificate := mkCert { hash_len : Z; key_type : KeyType; rsa : option RSAPublicKey; ec : option ECPublicKey }.

(** *** Streams *)

(** [s_calls] counts the calls; the [i]-th succeeds when [io i]. *)
Variable io : nat -> bool.
Record stream := mkStream { s_data : block; s_pos : Z; s_calls : nat }.

Definition fseek_to (pos : Z) (f : stream) : bool * stream :=
  if io (s_calls f) && (0 <=? pos) then (true, mkStream (s_data f) pos (S (s_calls f)))
  else (false, mkStream (s_data f) (s_pos f) (S (s_calls f))).
Definition fseek_end (off : Z) (f : stream) : bool * stream := fseek_to (zlen (s_data f) + off) f.

(** The bytes that were read. *)
Definition fread (n : Z) (f : stream) : block * stream :=
  if io (s_calls f) then
    let d := slice (s_data f) (s_pos f) n in (d, mkStream (s_data f) (s_pos f + zlen d) (S (s_calls f)))
  else ([], mkStream (s_data f) (s_pos f) (S (s_calls f))).

(** *** verify_file *)

(** The test for $50 $4b $05 $06 at [i]. *)
Definition marker_at (eocd : block) (i : Z) : outcome bool :=
  let* b0 := load eocd i in
  if negb (b0 =? 0x50) then Val false else
  let* b1 := load eocd (i + 1) in
  if negb (b1 =? 0x4b) then Val false else
  let* b2 := load eocd (i + 2) in
  if negb (b2 =? 0x05) then Val false else
  let* b3 := load eocd (i + 3) in Val (b3 =? 0x06).

(** The marker occurs at one of the [k] offsets from [i] on. *)
Fixpoint later_marker (k : nat) (i : Z) (eocd : block) : outcome bool :=
  match k with
  | O => Val false
  | S k => let* b := marker_at eocd i in if (b : bool) then Val true else later_marker k (i + 1) eocd
  end.

Definition needs (len : Z) (pKeys : list Certificate) : bool := existsb (fun c => hash_len c =? len) pKeys.

(** What the two hash contexts have taken in. *)
Fixpoint hash_loop (fuel : nat) (need_sha1 need_sha256 : bool) (signed_len so_far : Z) (sha1 sha256 : block) (f : stream) :
    outcome (option (block * block)) :=
  if negb (so_far <? signed_len) then Val (Some (sha1, sha256)) else
  match fuel with
  | O => Trap NoFuel
  | S fuel =>
      let size := if signed_len - so_far <? BUFFER_SIZE then signed_len - so_far else BUFFER_SIZE in
      let (buffer, f) := fread size f in
      if negb (zlen buffer =? size) then Val None else
      hash_loop fuel need_sha1 need_sha256 signed_len (so_far + size)
        (if need_sha1 then sha1 ++ buffer else sha1) (if need_sha256 then sha256 ++ buffer else sha256) f
  end.

(** The attempt with one key. *)
Definition try_key (c : Certificate) (sha1 sha256 sig_der : block) : outcome bool :=
  let hash := if hash_len c =? SHA_DIGEST_SIZE then Some sha1 else if hash_len c =? SHA256_DIGEST_SIZE then Some sha256 else None in
  match hash with
  | None => Val false
  | Some hash =>
      match key_type c with
      | RSA =>
          if zlen sig_der <? RSANUMBYTES then Val false else
          match rsa c with
          | None => Trap NullDeref
          | Some k => Val (RSA_verify k (take (Z.to_nat RSANUMBYTES) sig_der) hash (hash_len c))
          end
      | EC =>
          if negb (hash_len c =? SHA256_DIGEST_SIZE) then Val false else
          match dsa_sig_unpack sig_der with
          | None => Val false
          | Some (r, s) =>
              match ec c with
              | None => Trap NullDeref
              | Some k => Val (p256_ecdsa_verify (ec_x k) (ec_y k) (p256_from_bin hash) r s)
              end
          end
      end
  end.

Fixpoint try_keys (pKeys : list Certificate) (sha1 sha256 sig_der : block) : outcome Z :=
  match pKeys with
  | [] => Val VERIFY_FAILURE
  | c :: pKeys =>
      let* ok := try_key c sha1 sha256 sig_der in
      if (ok : bool) then Val VERIFY_SUCCESS else try_keys pKeys sha1 sha256 sig_der
  end.

(** Two bytes of the footer. *)
Definition footer_u16 (footer : block) (i : Z) : outcome Z :=
  let* b0 := load footer i in let* b1 := load footer (i + 1) in Val (b0 + Z.shiftl b1 8).

(** The end of the function: the signed bytes are hashed and the keys tried.  [mem]:
    whether the allocations succeed. *)
Definition check_signature (mem : nat -> bool) (pKeys : list Certificate) (eocd : block) (signature_start signed_len : Z) (f : stream) :
    outcome Z :=
  if negb (mem 1%nat) then Val VERIFY_FAILURE else
  let (_, f) := fseek_to 0 f in
  let* hashed := hash_loop (Z.to_nat signed_len) (needs SHA_DIGEST_SIZE pKeys) (needs SHA256_DIGEST_SIZE pKeys) signed_len 0 [] [] f in
  match hashed with
  | None => Val VERIFY_FAILURE
  | Some (sha1, sha256) =>
      let* sig := read_pkcs7 eocd (fun i => mem (3 + i)%nat) (mem 2%nat) (zlen eocd - signature_start) (signature_start - FOOTER_SIZE) in
      match sig with
      | None => Val VERIFY_FAILURE
      | Some sig_der => try_keys pKeys (SHA sha1) (SHA256 sha256) sig_der
      end
  end.

(** From the size of the comment on: the end record. *)
Definition check_record (mem : nat -> bool) (pKeys : list Certificate) (comment_size signature_start : Z) (f : stream) : outcome Z :=
  let eocd_size := comment_size + EOCD_HEADER_SIZE in
  let (ok, f) := fseek_end (wraps word_bits (wrapu word_bits (- eocd_size))) f in
  if negb ok then Val VERIFY_FAILURE else
  let signed_len := wrapu word_bits (s_pos f + EOCD_HEADER_SIZE - 2) in
  if negb (mem 0%nat) then Val VERIFY_FAILURE else
  let (eocd, f) := fread eocd_size f in
  if negb (zlen eocd =? eocd_size) then Val VERIFY_FAILURE else
  let* first := marker_at eocd 0 in
  if negb first then Val VERIFY_FAILURE else
  let* again := later_marker (Z.to_nat (eocd_size - 3 - 4)) 4 eocd in
  if (again : bool) then Val VERIFY_FAILURE else
  check_signature mem pKeys eocd signature_start signed_len f.

(** [file]: what fopen opens, unless it fails. *)
Definition verify_file (file : option block) (mem : nat -> bool) (pKeys : list Certificate) : outcome Z :=
  match file with
  | None => Val VERIFY_FAILURE
  | Some data =>
      let f := mkStream data 0 0 in
      let (ok, f) := fseek_end (- FOOTER_SIZE) f in
      if negb ok then Val VERIFY_FAILURE else
      let (footer, f) := fread FOOTER_SIZE f in
      if negb (zlen footer =? FOOTER_SIZE) then Val VERIFY_FAILURE else
      let* f2 := load footer 2 in
      let* f3 := load footer 3 in
      if negb (f2 =? 0xff) || negb (f3 =? 0xff) then Val VERIFY_FAILURE else
      let* comment_size := footer_u16 footer 4 in
      let* signature_start := footer_u16 footer 0 in
      if signature_start <=? FOOTER_SIZE then Val VERIFY_FAILURE else
      check_record mem pKeys comment_size signature_start f
  end.
End Verify.

(** ** What a signed file is *)

Definition marker : block := [0x50; 0x4b; 0x05; 0x06].

(** [data] ends in a comment of [c] bytes whose last six are the footer; the end record
    starts 20 bytes before the end of [signed], and nowhere else from there on; the
    signature [sig] is where the footer says, inside the record. *)
Definition signed_file `{Arch} (data signed sig : block) : Prop :=
  exists rest c0 c1 s0 s1, let c := c0 + 256 * c1 in let s := s0 + 256 * s1 in
    data = signed ++ rest /\ zlen rest = c + 2 /\ 20 <= zlen signed /\
    slice data (zlen data - 6) 6 = [s0; s1; 0xff; 0xff; c0; c1] /\ 6 < s <= c + 22 /\
    slice data (zlen signed - 20) 4 = marker /\
    (forall i, zlen signed - 20 < i -> i + 4 <= zlen data -> slice data i 4 <> marker) /\
    pkcs7_signature (slice data (zlen data - s) (s - 6)) sig.

Section Sound.
Context `{A : Arch} `{M : mincrypt}.

(** The digest that the key signs, and whether it accepts the signature. *)
Definition digest (c : Certificate) (signed : block) : option block :=
  if hash_len c =? SHA_DIGEST_SIZE then Some (SHA signed)
  else if hash_len c =? SHA256_DIGEST_SIZE then Some (SHA256 signed) else None.
Definition accepts (c : Certificate) (signed sig : block) : Prop :=
  exists hash, digest c signed = Some hash /\
    match key_type c with
    | RSA => RSANUMBYTES <= zlen sig /\ exists k, rsa c = Some k /\ RSA_verify k (take 256 sig) hash (hash_len c) = true
    | EC => hash_len c = SHA256_DIGEST_SIZE /\ exists r s k, dsa_sig_unpack sig = Some (r, s) /\ ec c = Some k /\
              p256_ecdsa_verify (ec_x k) (ec_y k) (p256_from_bin hash) r s = true
    end.

(** A key whose data are there, as load_keys makes them. *)
Definition key_ok (c : Certificate) : Prop := match key_type c with RSA => is_Some (rsa c) | EC => is_Some (ec c) end.

(** *** The end record *)

Lemma marker_at_spec eocd i : 0 <= i -> i + 4 <= zlen eocd -> marker_at eocd i = Val (bool_decide (slice eocd i 4 = marker)).
Proof.
  intros Hi Hl. unfold marker_at. destruct (load_some eocd i) as [b0 E0]; [lia |]. destruct (load_some eocd (i + 1)) as [b1 E1]; [lia |].
  destruct (load_some eocd (i + 2)) as [b2 E2]; [lia |]. destruct (load_some eocd (i + 3)) as [b3 E3]; [lia |].
  assert (slice eocd i 4 = [b0; b1; b2; b3]) as ->.
  { rewrite (slice_cons _ _ _ _ E0) by lia. f_equal. replace (4 - 1) with 3 by lia. rewrite (slice_cons _ _ _ _ E1) by lia. f_equal.
    replace (i + 1 + 1) with (i + 2) by lia. rewrite (slice_cons _ _ _ _ E2) by lia. f_equal. replace (i + 2 + 1) with (i + 3) by lia.
    rewrite (slice_cons _ _ _ _ E3) by lia. done. }
  rewrite E0, E1, E2, E3. cbn [mbind outcome_bind]. unfold marker.
  destruct (Z.eqb_spec b0 80), (Z.eqb_spec b1 75), (Z.eqb_spec b2 5), (Z.eqb_spec b3 6); simpl; f_equal; symmetry;
    (apply bool_decide_eq_true_2; congruence) || (apply bool_decide_eq_false_2; congruence).
Qed.

Lemma later_marker_spec eocd k : forall i, 0 <= i -> i + Z.of_nat k + 3 <= zlen eocd ->
  exists b, later_marker k i eocd = Val b /\ (b = false <-> forall j, i <= j < i + Z.of_nat k -> slice eocd j 4 <> marker).
Proof.
  induction k as [| k IH]; intros i Hi Hl; cbn [later_marker]; [exists false; split; [done |]; split; [lia | done] |].
  rewrite marker_at_spec by lia. cbn [mbind outcome_bind]. case_bool_decide as E.
  - exists true. split; [done |]. split; [done |]. intros Hn. exfalso. apply (Hn i); [lia | done].
  - destruct (IH (i + 1)) as (b & -> & Hb); [lia | lia |]. exists b. split; [done |]. rewrite Hb. split.
    + intros Hn j Hj. destruct (decide (j = i)) as [-> |]; [done | apply Hn; lia].
    + intros Hn j Hj. apply Hn. lia.
Qed.

(** A marker does not overlap itself. *)
Lemma marker_no_overlap (m : block) i j : 0 <= i -> i + 4 <= zlen m -> slice m i 4 = marker -> slice m j 4 = marker -> i < j < i + 4 -> False.
Proof.
  intros Hi Hl E1 E2 Hj. assert (forall k x, m !! k = Some x -> slice m i 4 !! (k - Z.to_nat i)%nat = Some x \/ ~ (Z.to_nat i <= k < Z.to_nat i + 4)%nat) as Hk.
  { intros k x Hx. destruct (decide (Z.to_nat i <= k < Z.to_nat i + 4)%nat) as [Hin |]; [left | by right].
    unfold slice. rewrite lookup_take_lt, lookup_drop by lia. rewrite <- Hx. f_equal. lia. }
  assert (m !! Z.to_nat j = Some 80) as Hx.
  { assert (slice m j 4 !! 0%nat = Some 80) as Hx by (by rewrite E2). unfold slice in Hx. rewrite lookup_take_lt, lookup_drop in Hx by lia.
    rewrite <- Hx. f_equal. lia. }
  apply Hk in Hx as [Hx | Hx]; [| lia]. rewrite E1 in Hx.
  assert (Z.to_nat j - Z.to_nat i = 1 \/ Z.to_nat j - Z.to_nat i = 2 \/ Z.to_nat j - Z.to_nat i = 3)%nat as [E | [E | E]] by lia; rewrite E in Hx; done.
Qed.

(** minzip's scan from the end stops at the last marker. *)
Lemma marker_u4 (m : block) i : bytes_ok m -> 0 <= i -> i + 4 <= zlen m -> (slice m i 4 = marker <-> le_val (slice m i 4) = ENDSIG).
Proof.
  intros Hm Hi Hl. pose proof (bytes_ok_slice m i 4 Hm) as Hb. pose proof (zlen_slice m i 4 Hi ltac:(lia) Hl) as Hz.
  destruct (slice m i 4) as [| b0 [| b1 [| b2 [| b3 [| b4 l]]]]]; try zlia. split; [by intros [= -> -> -> ->] |].
  repeat match goal with Hx : bytes_ok (_ :: _) |- _ => apply Forall_cons in Hx as [? Hx] end. unfold is_byte, ENDSIG, marker in *.
  cbn [le_val]. intros E. assert (b0 = 80 /\ b1 = 75 /\ b2 = 5 /\ b3 = 6) as (-> & -> & -> & ->) by lia. done.
Qed.

Lemma find_eocd_last (m : block) e fuel : forall p, bytes_ok m -> p < Z.of_nat fuel -> p + 4 <= zlen m -> 0 <= e <= p -> slice m e 4 = marker ->
  (forall i, e < i <= p -> slice m i 4 <> marker) -> find_eocd fuel m p = Val e.
Proof.
  induction fuel as [| fuel IH]; intros p Hm Hf Hl He Hmk Hno; [lia |]. cbn [find_eocd]. rewrite (proj2 (Z.ltb_ge p 0)) by lia.
  destruct (load_ex m p) as (b & Hb & _); [done | lia |]. rewrite Hb. cbn [mbind outcome_bind].
  rewrite get4LE_spec by (done || lia). cbn [mbind outcome_bind].
  assert (e <> p -> find_eocd fuel m (p - 1) = Val e) as Hnext.
  { intros Hne. apply IH; try done; try lia. intros i Hi. apply Hno. lia. }
  destruct (decide (e = p)) as [-> | Hne].
  - rewrite (proj1 (marker_u4 m p Hm ltac:(lia) Hl) Hmk), Z.eqb_refl.
    rewrite (slice_cons _ _ _ _ Hb) in Hmk by lia. unfold marker in Hmk. injection Hmk as -> _. reflexivity.
  - rewrite Hnext by done. destruct (b =? _); [| done]. destruct (Z.eqb_spec (le_val (slice m p 4)) ENDSIG) as [E |]; [| done].
    exfalso. apply (Hno p); [lia |]. apply marker_u4; [done | lia | lia | done].
Qed.

Lemma signed_file_eocd data signed sig : bytes_ok data -> signed_file data signed sig ->
  find_eocd (length data) data (zlen data - ENDHDR) = Val (zlen signed - 20).
Proof.
  intros Hb (rest & c0 & c1 & s0 & s1 & E & Hr & Hs & Hf & Hc & Hm & Hno & _). assert (zlen data = zlen signed + zlen rest) as El by (rewrite E; zlia).
  assert (bytes_ok [s0; s1; 0xff; 0xff; c0; c1]) as Hby by (rewrite <- Hf; by apply bytes_ok_slice).
  assert (is_byte c0 /\ is_byte c1) as [B0 B1] by (split; [apply (Forall_lookup_1 _ _ 4 _ Hby) | apply (Forall_lookup_1 _ _ 5 _ Hby)]; done).
  unfold is_byte in B0, B1. unfold ENDHDR. apply find_eocd_last; try done; [unfold zlen in *; lia | lia | lia |].
  intros i Hi. apply Hno; lia.
Qed.

(** *** Hashing *)

Lemma fread_spec io n f d f' : fread io n f = (d, f') -> zlen d = n -> 0 < n -> 0 <= s_pos f ->
  d = slice (s_data f) (s_pos f) n /\ s_data f' = s_data f /\ s_pos f' = s_pos f + n /\ s_pos f + n <= zlen (s_data f).
Proof.
  unfold fread. destruct (io _); intros [= <- <-] Hz Hn Hp; [| change (zlen (@nil Z)) with 0 in Hz; lia].
  simpl. rewrite Hz. split_and!; [done | done | done |]. unfold zlen, slice in *. rewrite length_take, length_drop in Hz. lia.
Qed.

Lemma hash_loop_sound io n1 n2 len fuel : forall so_far a b f r1 r2,
  0 <= so_far <= len -> s_pos f = so_far -> hash_loop io fuel n1 n2 len so_far a b f = Val (Some (r1, r2)) ->
  (so_far < len -> len <= zlen (s_data f)) /\
  r1 = (if n1 then a ++ slice (s_data f) so_far (len - so_far) else a) /\ r2 = (if n2 then b ++ slice (s_data f) so_far (len - so_far) else b).
Proof.
  induction fuel as [| fuel IH]; intros so_far a b f r1 r2 Hs Hp; cbn [hash_loop]; destruct (Z.ltb_spec so_far len) as [Hlt | Hge]; cbn [negb]; try done.
  1, 3: intros [= <- <-]; split; [lia |]; replace (len - so_far) with 0 by lia; rewrite slice_0, !app_nil_r; by destruct n1, n2.
  set (size := if len - so_far <? BUFFER_SIZE then len - so_far else BUFFER_SIZE). destruct (fread io size f) as [buf f'] eqn:Ef. destruct (Z.eqb_spec (zlen buf) size) as [Hz |]; cbn [negb]; [| done].
  assert (0 < size <= len - so_far) as Hsz by (subst size; unfold BUFFER_SIZE; destruct (Z.ltb_spec (len - so_far) 4096); lia).
  destruct (fread_spec _ _ _ _ _ Ef Hz) as (-> & Ed & Epos & Hin); [lia | lia |]. intros Hh.
  apply IH in Hh as (Hlen & -> & ->); [| lia | lia]. rewrite Ed in *. split.
  { intros _. destruct (decide (so_far + size < len)); [auto | lia]. }
  assert (slice (s_data f) so_far (len - so_far) = slice (s_data f) so_far size ++ slice (s_data f) (so_far + size) (len - (so_far + size))) as ->.
  { rewrite <- slice_app by lia. f_equal. lia. }
  rewrite Hp. destruct n1, n2; by rewrite ?app_assoc.
Qed.

Lemma hash_loop_total n1 n2 len fuel : forall so_far a b f, 0 <= so_far <= len -> s_pos f = so_far -> len <= zlen (s_data f) ->
  len - so_far <= Z.of_nat fuel -> exists r, hash_loop (fun _ => true) fuel n1 n2 len so_far a b f = Val (Some r).
Proof.
  induction fuel as [| fuel IH]; intros so_far a b f Hs Hp Hl Hf; cbn [hash_loop]; destruct (Z.ltb_spec so_far len); cbn [negb]; try lia; eauto.
  set (size := if len - so_far <? BUFFER_SIZE then len - so_far else BUFFER_SIZE).
  assert (0 < size <= len - so_far) as Hsz by (subst size; unfold BUFFER_SIZE; destruct (Z.ltb_spec (len - so_far) 4096); lia).
  unfold fread. rewrite Hp. assert (zlen (slice (s_data f) so_far size) = size) as -> by (apply zlen_slice; lia). rewrite Z.eqb_refl. cbn [negb].
  apply IH; simpl; lia.
Qed.
(** *** Keys *)

Lemma try_key_accepts c signed sha1 sha256 sig b : (hash_len c = SHA_DIGEST_SIZE -> sha1 = SHA signed) ->
  (hash_len c = SHA256_DIGEST_SIZE -> sha256 = SHA256 signed) -> try_key c sha1 sha256 sig = Val b -> (b = true <-> accepts c signed sig).
Proof.
  intros E1 E2. unfold try_key, accepts.
  assert ((if hash_len c =? SHA_DIGEST_SIZE then Some sha1 else if hash_len c =? SHA256_DIGEST_SIZE then Some sha256 else None) = digest c signed) as ->.
  { unfold digest. destruct (Z.eqb_spec (hash_len c) SHA_DIGEST_SIZE); [by rewrite E1 |].
    destruct (Z.eqb_spec (hash_len c) SHA256_DIGEST_SIZE); [by rewrite E2 | done]. }
  destruct (digest c signed) as [hash |]; [| intros [= <-]; split; [done | by intros (? & ? & _)]].
  destruct (key_type c).
  - destruct (Z.ltb_spec (zlen sig) RSANUMBYTES); [intros [= <-]; split; [done | intros (? & _ & ? & _); lia] |].
    destruct (rsa c) as [k |] eqn:Ek; [| done]. intros [= <-]. split; [eauto 8 |]. intros (? & [= <-] & _ & ? & [= <-] & ?). done.
  - destruct (Z.eqb_spec (hash_len c) SHA256_DIGEST_SIZE); cbn [negb]; [| intros [= <-]; split; [done | by intros (? & _ & ? & _)]].
    destruct (dsa_sig_unpack sig) as [[r s] |]; [| intros [= <-]; split; [done | by intros (? & _ & _ & ? & ? & ? & ? & _)]].
    destruct (ec c) as [k |]; [| done]. intros [= <-]. split; [eauto 12 |].
    intros (? & [= <-] & _ & ? & ? & ? & [= <- <-] & [= <-] & ?). done.
Qed.

Lemma try_key_total c sha1 sha256 sig : key_ok c -> exists b, try_key c sha1 sha256 sig = Val b.
Proof.
  intros Hk. unfold try_key, key_ok in *. cbv zeta. generalize (hash_len c =? SHA_DIGEST_SIZE), (hash_len c =? SHA256_DIGEST_SIZE).
  intros b1 b2. destruct (key_type c), Hk as [k ->], b1, b2; simpl; try destruct (zlen sig <? RSANUMBYTES);
    try destruct (dsa_sig_unpack sig) as [[] |]; eauto.
Qed.

Lemma needs_in c keys : c ∈ keys -> needs (hash_len c) keys = true.
Proof. intros Hc. apply existsb_exists. exists c. split; [by apply list_elem_of_In | apply Z.eqb_refl]. Qed.

Lemma try_keys_accepts keys signed sha1 sha256 sig r :
  (forall c, c ∈ keys -> hash_len c = SHA_DIGEST_SIZE -> sha1 = SHA signed) ->
  (forall c, c ∈ keys -> hash_len c = SHA256_DIGEST_SIZE -> sha256 = SHA256 signed) -> try_keys keys sha1 sha256 sig = Val r ->
  (r = VERIFY_SUCCESS <-> exists c, c ∈ keys /\ accepts c signed sig) /\ (r = VERIFY_SUCCESS \/ r = VERIFY_FAILURE).
Proof.
  induction keys as [| c keys IH]; intros E1 E2; cbn [try_keys].
  { intros [= <-]. split; [| by right]. split; [done | by intros (c & ?%elem_of_nil & _)]. }
  destruct (try_key c sha1 sha256 sig) as [b |] eqn:Eb; [| done]. cbn [mbind outcome_bind].
  apply (try_key_accepts c signed) in Eb; [| by apply E1; left | by apply E2; left]. destruct b.
  - intros [= <-]. split; [| by left]. split; [| done]. intros _. exists c. split; [by left | by apply Eb].
  - intros Hr. destruct IH as [IH1 IH2]; [| | done |]; [intros c' Hc'; apply E1; by right | intros c' Hc'; apply E2; by right |].
    split; [| done]. rewrite IH1. split; intros (c' & Hc' & Ha); exists c'; [split; [by right | done] |].
    apply elem_of_cons in Hc' as [-> | Hc']; [| done]. apply Eb in Ha. done.
Qed.

Lemma try_keys_total keys sha1 sha256 sig : Forall key_ok keys -> exists r, try_keys keys sha1 sha256 sig = Val r.
Proof.
  induction 1 as [| c keys Hc _ IH]; cbn [try_keys]; [eauto |]. destruct (try_key_total c sha1 sha256 sig Hc) as [b ->].
  cbn [mbind outcome_bind]. destruct b; eauto.
Qed.

(** A signature is only returned when every allocation succeeded. *)
Lemma sub_context_false m ctx x : sub_context m false ctx <> Val (Some x).
Proof. unfold sub_context. destruct (decode_length m ctx) as [[[n |] ?] |]; cbn [mbind outcome_bind]; try done. by destruct (_ <? _). Qed.

Lemma sequence_get_false m ctx x : asn1_sequence_get m false ctx <> Val (Some x).
Proof.
  unfold asn1_sequence_get. destruct (get_byte m ctx) as [[] |]; cbn [mbind outcome_bind]; [| done].
  destruct (negb _); [done | apply sub_context_false].
Qed.

Lemma set_get_false m ctx x : asn1_set_get m false ctx <> Val (Some x).
Proof.
  unfold asn1_set_get. destruct (get_byte m ctx) as [[] |]; cbn [mbind outcome_bind]; [| done].
  destruct (negb _); [done | apply sub_context_false].
Qed.

Lemma constructed_get_false m ctx x : asn1_constructed_get m false ctx <> Val (Some x).
Proof.
  unfold asn1_constructed_get. destruct (get_byte m ctx) as [[] |]; cbn [mbind outcome_bind]; [| done].
  destruct (_ || _); [done |]. destruct (decode_length m _) as [[[n |] ?] |]; cbn [mbind outcome_bind]; try done. by destruct (_ <? _).
Qed.

(** One step of a computation that gave a result. *)
Ltac peel H :=
  let x := fresh "x" in let E := fresh "E" in
  apply bind_Val_inv in H as ([x |] & E & H); [| done];
  try match goal with
  | Ex : asn1_sequence_get _ (?c ?i) _ = Val (Some _) |- _ =>
      let Ec := fresh "Ec" in destruct (c i) eqn:Ec; [clear Ec | by apply sequence_get_false in Ex]
  | Ex : asn1_set_get _ (?c ?i) _ = Val (Some _) |- _ =>
      let Ec := fresh "Ec" in destruct (c i) eqn:Ec; [clear Ec | by apply set_get_false in Ex]
  | Ex : asn1_constructed_get _ (?c ?i) _ = Val (Some _) |- _ =>
      let Ec := fresh "Ec" in destruct (c i) eqn:Ec; [clear Ec | by apply constructed_get_false in Ex]
  end;
  match goal with Ex : _ = Val (Some x) |- _ => rewrite Ex; cbn [mbind outcome_bind]; clear Ex end.

Lemma read_pkcs7_ok m calloc malloc der len sig :
  read_pkcs7 m calloc malloc der len = Val (Some sig) -> read_pkcs7 m (fun _ => true) true der len = Val (Some sig).
Proof.
  unfold read_pkcs7. intros Hr. destruct (calloc 0%nat); [| done]. cbn [asn1_context_new mbind outcome_bind] in *.
  do 14 (peel Hr). apply bind_Val_inv in Hr as ([[p n] |] & E & Hr); [| done]. rewrite E. cbn [mbind outcome_bind].
  by destruct malloc.
Qed.

(** *** The whole file *)

(** At the end of the file nothing can be hashed. *)
Lemma hash_loop_eof io n1 n2 len fuel a b f r : s_pos f = zlen (s_data f) -> 0 < len -> hash_loop io fuel n1 n2 len 0 a b f <> Val (Some r).
Proof.
  intros Hp Hl. destruct fuel as [| fuel]; cbn [hash_loop]; rewrite (proj2 (Z.ltb_lt 0 len)) by lia; cbn [negb]; [done |].
  set (size := if len - 0 <? BUFFER_SIZE then len - 0 else BUFFER_SIZE).
  assert (0 < size) as Hsz by (subst size; unfold BUFFER_SIZE; destruct (Z.ltb_spec (len - 0) 4096); lia).
  destruct (fread io size f) as [buf f'] eqn:Ef. destruct (Z.eqb_spec (zlen buf) size) as [Hz |]; cbn [negb]; [| done].
  destruct (fread_spec _ _ _ _ _ Ef Hz) as (_ & _ & _ & Hin); [lia | rewrite Hp; apply zlen_nonneg | lia].
Qed.

Lemma seek_offset c : 0 <= c < 2 ^ 16 -> wraps word_bits (wrapu word_bits (- (c + 22))) = - (c + 22).
Proof.
  intros Hc. assert (2 ^ 31 <= 2 ^ (word_bits - 1)) by (apply Z.pow_le_mono_r; [lia | destruct word_bits_ok; lia]).
  rewrite wraps_wrapu. apply wraps_id; [destruct word_bits_ok; lia | lia].
Qed.

Lemma footer_bytes (d : block) : bytes_ok d -> zlen d = 6 -> exists s0 s1 f2 f3 c0 c1, d = [s0; s1; f2; f3; c0; c1] /\
  is_byte s0 /\ is_byte s1 /\ is_byte c0 /\ is_byte c1.
Proof.
  intros Hb Hl. destruct d as [| s0 [| s1 [| f2 [| f3 [| c0 [| c1 [| x d]]]]]]]; try zlia.
  repeat match goal with Hx : bytes_ok (_ :: _) |- _ => apply Forall_cons in Hx as [? Hx] end. exists s0, s1, f2, f3, c0, c1. done.
Qed.

(** The answer once the footer has been read: [data] ends in it. *)
Definition signed_by (keys : list Certificate) (data : block) : Prop :=
  exists signed sig c, signed_file data signed sig /\ c ∈ keys /\ accepts c signed sig.

(** The end record in terms of the whole file. *)
Lemma record_markers (data eocd : block) pos size : 0 <= pos -> 7 <= size -> pos + size = zlen data -> eocd = slice data pos size ->
  slice eocd 0 4 = slice data pos 4 /\ forall i, 0 <= i -> i + 4 <= size -> slice eocd i 4 = slice data (pos + i) 4.
Proof.
  intros Hp Hs Hl ->. assert (forall i, 0 <= i -> i + 4 <= size -> slice (slice data pos size) i 4 = slice data (pos + i) 4) as Hi.
  { intros i Hi Hi4. unfold slice. rewrite skipn_firstn_comm, take_take, drop_drop. f_equal; [lia | f_equal; lia]. }
  split; [| done]. rewrite Hi by lia. f_equal. lia.
Qed.

Lemma no_marker_iff (data eocd : block) pos size : 0 <= pos -> 7 <= size -> pos + size = zlen data -> eocd = slice data pos size ->
  slice data pos 4 = marker ->
  ((forall j, 4 <= j < 4 + Z.of_nat (Z.to_nat (size - 3 - 4)) -> slice eocd j 4 <> marker) <->
   forall i, pos < i -> i + 4 <= zlen data -> slice data i 4 <> marker).
Proof.
  intros Hp Hs Hl He Hm. destruct (record_markers data eocd pos size Hp Hs Hl He) as [_ Hi]. split; intros Hno.
  - intros i Hgt Hle. destruct (decide (i < pos + 4)) as [Hlt | Hge].
    + intros E. by apply (marker_no_overlap data pos i); try done; lia.
    + replace i with (pos + (i - pos)) by lia. rewrite <- Hi by lia. apply Hno. lia.
  - intros j Hj. rewrite Hi by lia. apply Hno; lia.
Qed.

(** From the parts that verify_file has checked to the specification. *)
Lemma signed_file_intro data signed s0 s1 c0 c1 sig : bytes_ok data -> is_byte c0 -> is_byte c1 -> let c := c0 + 256 * c1 in let s := s0 + 256 * s1 in
  slice data (zlen data - 6) 6 = [s0; s1; 0xff; 0xff; c0; c1] -> c + 22 <= zlen data -> 6 < s <= c + 22 ->
  signed = take (Z.to_nat (zlen data - c - 2)) data -> slice data (zlen data - (c + 22)) 4 = marker ->
  (forall i, zlen data - (c + 22) < i -> i + 4 <= zlen data -> slice data i 4 <> marker) ->
  pkcs7_signature (slice data (zlen data - s) (s - 6)) sig -> signed_file data signed sig /\ zlen signed = zlen data - c - 2.
Proof.
  intros Hb B0 B1 c s Hf Hc Hs -> Hm Hno Hsig. unfold is_byte in *.
  assert (zlen (take (Z.to_nat (zlen data - c - 2)) data) = zlen data - c - 2) as Hl by (unfold zlen in *; rewrite length_take; lia).
  split; [| done]. exists (drop (Z.to_nat (zlen data - c - 2)) data), c0, c1, s0, s1. cbv zeta. rewrite Hl. fold c s.
  replace (zlen data - c - 2 - 20) with (zlen data - (c + 22)) by lia. split_and!; try done; try lia.
  - by rewrite take_drop.
  - unfold zlen in *. rewrite length_drop. lia.
Qed.

(** The part of verify_file after the end record was accepted. *)
Lemma hashes_sound io keys (data : block) len f fuel r1 r2 : s_pos f = 0 -> s_data f = data -> 0 <= len ->
  hash_loop io fuel (needs SHA_DIGEST_SIZE keys) (needs SHA256_DIGEST_SIZE keys) len 0 [] [] f = Val (Some (r1, r2)) ->
  (forall c, c ∈ keys -> hash_len c = SHA_DIGEST_SIZE -> SHA r1 = SHA (take (Z.to_nat len) data)) /\
  (forall c, c ∈ keys -> hash_len c = SHA256_DIGEST_SIZE -> SHA256 r2 = SHA256 (take (Z.to_nat len) data)).
Proof.
  intros Hp Hd Hl Hh. apply hash_loop_sound in Hh as (_ & -> & ->); [| lia | done].
  assert (slice (s_data f) 0 (len - 0) = take (Z.to_nat len) data) as -> by (unfold slice; rewrite Hd; simpl; f_equal; lia).
  split; intros c Hc Hlen; apply needs_in in Hc; rewrite Hlen in Hc; by rewrite Hc.
Qed.

Lemma sig_slice (data : block) size s : 0 <= size <= zlen data -> 0 <= s <= size ->
  slice (slice data (zlen data - size) size) (size - s) (s - 6) = slice data (zlen data - s) (s - 6).
Proof.
  intros Hs Hss. unfold slice. rewrite skipn_firstn_comm, take_take, drop_drop. f_equal; [lia | f_equal; lia].
Qed.

Lemma fseek_inv io pos f b f' : fseek_to io pos f = (b, f') -> s_data f' = s_data f /\
  (b = true -> 0 <= pos /\ s_pos f' = pos) /\ (b = false -> s_pos f' = s_pos f).
Proof.
  unfold fseek_to. destruct (io _), (Z.leb_spec 0 pos); intros [= <- <-]; simpl; naive_solver lia.
Qed.

(** [c]: the size of the comment; [eocd]: the record. *)
Definition record_of (data : block) (c : Z) : block := slice data (zlen data - (c + 22)) (c + 22).

(** Hashing, decoding and the keys: success means a signature that a key accepts. *)
Lemma check_signature_sound io mem keys (data : block) c s f : bytes_ok data -> 0 <= c -> c + 22 <= zlen data -> 6 < s -> s_data f = data -> s_pos f = zlen data ->
  check_signature io mem keys (record_of data c) s (zlen data - c - 2) f = Val VERIFY_SUCCESS ->
  s <= c + 22 /\ exists sig k, pkcs7_signature (slice data (zlen data - s) (s - 6)) sig /\ k ∈ keys /\
    accepts k (take (Z.to_nat (zlen data - c - 2)) data) sig.
Proof.
  intros Hb Hc Hl Hs Hd Hp. unfold check_signature. destruct (negb (mem 1%nat)); [discriminate |].
  destruct (fseek_to io 0 f) as [ok f5] eqn:Es. apply fseek_inv in Es as (Ed5 & Ep5 & Ep5'). rewrite Hd in Ed5. rewrite Hp in Ep5'.
  set (len := zlen data - c - 2). destruct (hash_loop io _ _ _ len 0 [] [] f5) as [[[r1 r2] |] |] eqn:Eh; cbn [mbind outcome_bind]; [| discriminate | discriminate].
  destruct ok; [| exfalso; apply hash_loop_eof in Eh; [done | rewrite Ed5; by apply Ep5' | lia]].
  destruct (Ep5 eq_refl) as [_ Ep5'']. destruct (hashes_sound io keys data len f5 _ r1 r2 Ep5'' Ed5 ltac:(lia) Eh) as [Hh1 Hh2].
  assert (zlen (record_of data c) = c + 22) as Hz by (apply zlen_slice; lia). rewrite Hz. unfold FOOTER_SIZE.
  destruct (read_pkcs7 (record_of data c) _ _ _ _) as [[sig |] |] eqn:Er; cbn [mbind outcome_bind]; [| discriminate | discriminate].
  intros Ht. apply (try_keys_accepts keys (take (Z.to_nat len) data)) in Ht as [[Ht _] _]; [| done | done].
  destruct (Ht eq_refl) as (k & Hk & Hacc). apply read_pkcs7_ok in Er. assert (s <= c + 22) as Hsc.
  { destruct (Z.le_gt_cases s (c + 22)) as [| Hgt]; [done |]. exfalso. unfold read_pkcs7, asn1_sequence_get, get_byte in Er.
    cbn [mbind outcome_bind asn1_context_new c_length c_p] in Er. rewrite (proj2 (Z.leb_gt (s - 6) 0)) in Er by lia.
    unfold load in Er. by rewrite (proj2 (Z.leb_gt 0 (c + 22 - s))) in Er by lia. }
  split; [done |]. exists sig, k. split; [| done].
  destruct (read_pkcs7_spec (record_of data c) (bytes_ok_slice _ _ _ Hb) (c + 22 - s) (s - 6)) as (r & Er' & Hr); [lia | lia | lia |].
  rewrite Er in Er'. injection Er' as <-. destruct Hr as [_ Hr]. unfold record_of in Hr. rewrite sig_slice in Hr by lia. done.
Qed.

Lemma check_record_sound io mem keys (data : block) c s f : bytes_ok data -> zlen data < 2 ^ (word_bits - 1) -> 0 <= c < 2 ^ 16 -> 6 < s -> s_data f = data ->
  check_record io mem keys c s f = Val VERIFY_SUCCESS ->
  c + 22 <= zlen data /\ slice data (zlen data - (c + 22)) 4 = marker /\
  (forall i, zlen data - (c + 22) < i -> i + 4 <= zlen data -> slice data i 4 <> marker) /\
  s <= c + 22 /\ exists sig k, pkcs7_signature (slice data (zlen data - s) (s - 6)) sig /\ k ∈ keys /\
    accepts k (take (Z.to_nat (zlen data - c - 2)) data) sig.
Proof.
  intros Hb Hlen Hc Hs Hd. unfold check_record, EOCD_HEADER_SIZE. rewrite seek_offset by lia.
  destruct (fseek_end io (- (c + 22)) f) as [ok f3] eqn:Es. apply fseek_inv in Es as (Ed3 & Ep3 & _). destruct ok; cbn [negb]; [| discriminate].
  destruct (Ep3 eq_refl) as [Hp3 Ep3']. rewrite Hd in Ep3', Hp3, Ed3. rewrite Ep3'.
  assert (2 ^ word_bits = 2 * 2 ^ (word_bits - 1)) as Epow by (rewrite <- Z.pow_succ_r; [f_equal; lia | destruct word_bits_ok; lia]).
  rewrite wrapu_id by lia. destruct (negb (mem 0%nat)); [discriminate |]. destruct (fread io (c + 22) f3) as [eocd f4] eqn:Ef4.
  destruct (Z.eqb_spec (zlen eocd) (c + 22)) as [Hz4 |]; cbn [negb]; [| discriminate].
  destruct (fread_spec _ _ _ _ _ Ef4 Hz4) as (Eeo & Ed4 & Ep4 & _); [lia | lia |]. rewrite Ed3, Ep3' in Eeo. rewrite Ep3' in Ep4. rewrite Ed3 in Ed4.
  replace (zlen data + - (c + 22)) with (zlen data - (c + 22)) in * by lia. fold (record_of data c) in Eeo.
  rewrite marker_at_spec by lia. cbn [mbind outcome_bind]. case_bool_decide as Hmk; cbn [negb]; [| discriminate].
  destruct (record_markers data eocd (zlen data - (c + 22)) (c + 22)) as [E0 _]; [lia | lia | lia | done |]. rewrite E0 in Hmk.
  destruct (later_marker_spec eocd (Z.to_nat (c + 22 - 3 - 4)) 4) as (again & -> & Hag); [lia | lia |]. cbn [mbind outcome_bind].
  destruct again; [discriminate |]. destruct Hag as [Hag _]. specialize (Hag eq_refl).
  rewrite (no_marker_iff data eocd (zlen data - (c + 22)) (c + 22)) in Hag by (done || lia).
  replace (zlen data - (c + 22) + 22 - 2) with (zlen data - c - 2) by lia. rewrite Eeo. intros Hsig.
  apply check_signature_sound in Hsig; try done; try lia. destruct Hsig as [Hsc Hex]. split_and!; done || lia.
Qed.

Lemma verify_file_signed io data mem keys : bytes_ok data -> zlen data < 2 ^ (word_bits - 1) ->
  verify_file io (Some data) mem keys = Val VERIFY_SUCCESS -> signed_by keys data.
Proof.
  intros Hb Hlen. unfold verify_file. destruct (fseek_end io (- FOOTER_SIZE) _) as [ok f1] eqn:Es.
  apply fseek_inv in Es as (Ed1 & Ep1 & _). destruct ok; cbn [negb]; [| discriminate]. destruct (Ep1 eq_refl) as [Hp1 Ep1']. simpl in Ed1, Ep1', Hp1.
  unfold FOOTER_SIZE in Hp1, Ep1'. destruct (fread io FOOTER_SIZE f1) as [footer f2] eqn:Ef. destruct (Z.eqb_spec (zlen footer) FOOTER_SIZE) as [Hz |]; cbn [negb]; [| discriminate].
  destruct (fread_spec _ _ _ _ _ Ef Hz) as (Efo & Ed2 & _ & _); [unfold FOOTER_SIZE; lia | lia |]. rewrite Ed1, Ep1' in Efo.
  destruct (footer_bytes footer) as (s0 & s1 & g2 & g3 & c0 & c1 & -> & B0 & B1 & B2 & B3); [rewrite Efo; by apply bytes_ok_slice | done |].
  unfold footer_u16. change (load _ 2) with (Val g2). change (load _ 3) with (Val g3). change (load _ 4) with (Val c0).
  change (load _ (4 + 1)) with (Val c1). change (load _ 0) with (Val s0). change (load _ (0 + 1)) with (Val s1). cbn [mbind outcome_bind].
  destruct (Z.eqb_spec g2 255) as [-> |]; cbn [negb orb]; [| discriminate]. destruct (Z.eqb_spec g3 255) as [-> |]; cbn [negb orb]; [| discriminate].
  rewrite !Z.shiftl_mul_pow2 by lia. change (2 ^ 8) with 256. rewrite (Z.mul_comm s1), (Z.mul_comm c1). unfold is_byte in *.
  destruct (Z.leb_spec (s0 + 256 * s1) FOOTER_SIZE) as [| Hs]; [discriminate |]. unfold FOOTER_SIZE in Hs. intros Hr.
  apply (check_record_sound io mem keys data) in Hr as (H1 & H2 & H3 & H4 & sig & k & Hsig & Hk & Hacc); try done; try lia; [| congruence].
  destruct (signed_file_intro data (take (Z.to_nat (zlen data - (c0 + 256 * c1) - 2)) data) s0 s1 c0 c1 sig) as [Hsf _]; try done; try lia.
  exists (take (Z.to_nat (zlen data - (c0 + 256 * c1) - 2)) data), sig, k. done.
Qed.

(** *** Without failures *)

(** Every call and every allocation succeeds. *)
Definition yes : nat -> bool := fun _ => true.
Definition answers (m : outcome Z) (P : Prop) : Prop := exists r, m = Val r /\ (r = VERIFY_SUCCESS \/ r = VERIFY_FAILURE) /\ (P -> r = VERIFY_SUCCESS).

Lemma answers_no P : ~ P -> answers (Val VERIFY_FAILURE) P.
Proof. intros HP. exists VERIFY_FAILURE. split_and!; [done | by right | done]. Qed.

Lemma check_signature_total keys (data : block) c s f : bytes_ok data -> 0 <= c -> c + 22 <= zlen data -> 6 < s <= c + 22 -> s_data f = data ->
  Forall key_ok keys ->
  answers (check_signature yes yes keys (record_of data c) s (zlen data - c - 2) f)
    (exists sig k, pkcs7_signature (slice data (zlen data - s) (s - 6)) sig /\ k ∈ keys /\ accepts k (take (Z.to_nat (zlen data - c - 2)) data) sig).
Proof.
  intros Hb Hc Hl Hs Hd Hkeys. unfold check_signature. cbn [yes negb]. set (len := zlen data - c - 2).
  unfold fseek_to. cbn [yes andb Z.leb Z.compare]. set (f5 := mkStream _ _ _).
  destruct (hash_loop_total (needs SHA_DIGEST_SIZE keys) (needs SHA256_DIGEST_SIZE keys) len (Z.to_nat len) 0 [] [] f5) as [[r1 r2] Eh];
    [lia | done | simpl; rewrite Hd; lia | lia |]. fold yes in Eh. rewrite Eh. cbn [mbind outcome_bind].
  destruct (hashes_sound yes keys data len f5 (Z.to_nat len) r1 r2) as [Hh1 Hh2]; [done | done | lia | exact Eh |].
  assert (zlen (record_of data c) = c + 22) as Hz by (apply zlen_slice; lia). rewrite Hz. unfold FOOTER_SIZE.
  destruct (read_pkcs7_spec (record_of data c) (bytes_ok_slice _ _ _ Hb) (c + 22 - s) (s - 6)) as (r & Er & Hr); [lia | lia | lia |].
  assert (slice (record_of data c) (c + 22 - s) (s - 6) = slice data (zlen data - s) (s - 6)) as Esl by (apply sig_slice; lia). rewrite Esl in Hr.
  change (read_pkcs7 _ _ _ _ _) with (read_pkcs7 (record_of data c) (fun _ => true) true (c + 22 - s) (s - 6)). rewrite Er. cbn [mbind outcome_bind].
  destruct r as [sig |]; [| apply answers_no; intros (sig & k & Hsig & _); by apply Hr in Hsig]. destruct Hr as [_ Hsig].
  destruct (try_keys_total keys (SHA r1) (SHA256 r2) sig Hkeys) as [r Et]. exists r. split; [done |].
  apply (try_keys_accepts keys (take (Z.to_nat len) data)) in Et as [[_ Ht] Hor]; [| done | done]. split; [done |].
  intros (sig' & k & Hsig' & Hk & Hacc). apply Ht. exists k. split; [done |].
  by rewrite (pkcs7_signature_fun _ sig sig' Hsig Hsig').
Qed.

Lemma check_record_total keys (data : block) c s f : bytes_ok data -> zlen data < 2 ^ (word_bits - 1) -> 0 <= c < 2 ^ 16 -> 6 < s <= c + 22 -> s_data f = data ->
  Forall key_ok keys ->
  answers (check_record yes yes keys c s f)
    (c + 22 <= zlen data /\ slice data (zlen data - (c + 22)) 4 = marker /\
     (forall i, zlen data - (c + 22) < i -> i + 4 <= zlen data -> slice data i 4 <> marker) /\
     exists sig k, pkcs7_signature (slice data (zlen data - s) (s - 6)) sig /\ k ∈ keys /\ accepts k (take (Z.to_nat (zlen data - c - 2)) data) sig).
Proof.
  intros Hb Hlen Hc Hs Hd Hkeys. unfold check_record, EOCD_HEADER_SIZE. rewrite seek_offset by lia.
  unfold fseek_end, fseek_to. rewrite Hd. cbn [yes andb]. destruct (Z.leb_spec 0 (zlen data + - (c + 22))) as [Hp |]; cbn [negb]; [| apply answers_no; lia].
  assert (2 ^ word_bits = 2 * 2 ^ (word_bits - 1)) as Epow by (rewrite <- Z.pow_succ_r; [f_equal; lia | destruct word_bits_ok; lia]).
  cbn [s_pos]. rewrite wrapu_id by lia. unfold fread. cbn [yes s_calls s_data s_pos].
  replace (zlen data + - (c + 22)) with (zlen data - (c + 22)) in * by lia. fold (record_of data c).
  assert (zlen (record_of data c) = c + 22) as Hz by (apply zlen_slice; lia). rewrite Hz, Z.eqb_refl. cbn [negb].
  rewrite marker_at_spec by lia. cbn [mbind outcome_bind].
  destruct (record_markers data (record_of data c) (zlen data - (c + 22)) (c + 22)) as [-> _]; [lia | lia | lia | done |].
  case_bool_decide as Hmk; cbn [negb]; [| apply answers_no; naive_solver].
  destruct (later_marker_spec (record_of data c) (Z.to_nat (c + 22 - 3 - 4)) 4) as (again & -> & Hag); [lia | lia |]. cbn [mbind outcome_bind].
  rewrite (no_marker_iff data (record_of data c) (zlen data - (c + 22)) (c + 22)) in Hag by (done || lia).
  destruct again; [apply answers_no; intros (_ & _ & Hno & _); by apply Hag in Hno |].
  replace (zlen data - (c + 22) + 22 - 2) with (zlen data - c - 2) by lia.
  destruct (check_signature_total keys data c s (mkStream data (zlen data - (c + 22) + (c + 22)) (S (S (s_calls f)))))
    as (r & E & Hor & Hr); try done; try lia. exists r. split; [exact E |]. split; [done |]. intros (_ & _ & _ & Hex). auto.
Qed.

(** The six bytes at the end, when there are. *)
Definition footer_ok (data : block) : Prop :=
  forall s0 s1 c0 c1, slice data (zlen data - 6) 6 = [s0; s1; 0xff; 0xff; c0; c1] -> s0 + 256 * s1 <= c0 + 256 * c1 + 22.

Lemma verify_file_total data keys : bytes_ok data -> zlen data < 2 ^ (word_bits - 1) -> Forall key_ok keys -> footer_ok data ->
  answers (verify_file yes (Some data) yes keys) (signed_by keys data).
Proof.
  intros Hb Hlen Hkeys Hfoot. unfold verify_file, fseek_end, fseek_to, fread. cbn [yes andb s_data s_calls s_pos].
  assert (zlen data < 6 -> ~ signed_by keys data) as Hshort.
  { intros Hl (signed & sig & k & (rest & c0 & c1 & s0 & s1 & E & Hr & Hs & _) & _). rewrite E in Hl. zlia. }
  destruct (Z.leb_spec 0 (zlen data + - FOOTER_SIZE)) as [Hp |]; cbn [negb]; [| apply answers_no, Hshort; unfold FOOTER_SIZE in *; lia].
  unfold FOOTER_SIZE in *. cbn [yes s_data s_calls s_pos]. replace (zlen data + Z.opp 6) with (zlen data - 6) by lia.
  assert (zlen (slice data (zlen data - 6) 6) = 6) as Hz by (apply zlen_slice; lia). rewrite Hz. cbn [Z.eqb negb Pos.eqb].
  destruct (footer_bytes (slice data (zlen data - 6) 6)) as (s0 & s1 & g2 & g3 & c0 & c1 & Ef & B0 & B1 & B2 & B3); [by apply bytes_ok_slice | done |].
  assert (signed_by keys data -> exists signed sig k, g2 = 255 /\ g3 = 255 /\ 6 < s0 + 256 * s1 /\ signed_file data signed sig /\
    zlen signed = zlen data - (c0 + 256 * c1) - 2 /\ k ∈ keys /\ accepts k signed sig /\ pkcs7_signature (slice data (zlen data - (s0 + 256 * s1)) (s0 + 256 * s1 - 6)) sig) as Hinv.
  { intros (signed & sig & k & Hsf & Hk & Ha). exists signed, sig, k. pose proof Hsf as (rest & c0' & c1' & s0' & s1' & E & Hr & Hs & Hf & Hss & _ & _ & Hsig).
    rewrite Ef in Hf. injection Hf as <- <- -> -> <- <-. assert (zlen data = zlen signed + zlen rest) by (rewrite E; zlia). split_and!; try done; lia. }
  rewrite Ef. unfold footer_u16. change (load _ 2) with (Val g2). change (load _ 3) with (Val g3). change (load _ 4) with (Val c0).
  change (load _ (4 + 1)) with (Val c1). change (load _ 0) with (Val s0). change (load _ (0 + 1)) with (Val s1). cbn [mbind outcome_bind].
  destruct (Z.eqb_spec g2 255) as [-> |]; cbn [negb orb]; [| apply answers_no; naive_solver].
  destruct (Z.eqb_spec g3 255) as [-> |]; cbn [negb orb]; [| apply answers_no; naive_solver].
  rewrite !Z.shiftl_mul_pow2 by lia. change (2 ^ 8) with 256. rewrite (Z.mul_comm s1), (Z.mul_comm c1). unfold is_byte in *.
  destruct (Z.leb_spec (s0 + 256 * s1) 6) as [| Hs]; [apply answers_no; intros Hx; destruct (Hinv Hx) as (? & ? & ? & _ & _ & ? & _); lia |].
  specialize (Hfoot _ _ _ _ Ef). edestruct (check_record_total keys data (c0 + 256 * c1) (s0 + 256 * s1)) as (r & E & Hor & Hr); [done | done | lia | lia | | done |];
    [| exists r; split; [exact E |]; split; [done |]]; [done |].
  intros Hx. destruct (Hinv Hx) as (signed & sig & k & _ & _ & _ & Hsf & Hlen' & Hk & Ha & Hsig). apply Hr.
  destruct Hsf as (rest & c0' & c1' & s0' & s1' & Ed & Hrest & H20 & Hf & Hss & Hmk & Hno & _). rewrite Hlen' in *.
  replace (zlen data - (c0 + 256 * c1) - 2 - 20) with (zlen data - (c0 + 256 * c1 + 22)) in * by lia. split_and!; [lia | done | done |].
  exists sig, k. split_and!; try done. rewrite <- Hlen'. rewrite Ed. unfold zlen. rewrite Nat2Z.id, take_app_length. done.
Qed.

End Sound.

(** C4: whatever fails, success is only answered for a file whose bytes before the archive
    comment carry a signature, at the place the footer names, that one of the keys
    accepts; and the scan of the archive parser (Zip.v) for the end record stops at the
    record that the signature covers. *)
Theorem verify_file_sound `{Arch} `{mincrypt} io data mem keys : bytes_ok data -> zlen data < 2 ^ (word_bits - 1) ->
  verify_file io (Some data) mem keys = Val VERIFY_SUCCESS ->
  exists signed sig k, signed_file data signed sig /\ k ∈ keys /\ accepts k signed sig /\
    find_eocd (length data) data (zlen data - ENDHDR) = Val (zlen signed - 20).
Proof.
  intros Hb Hlen Hv. destruct (verify_file_signed io data mem keys Hb Hlen Hv) as (signed & sig & k & Hsf & Hk & Ha).
  exists signed, sig, k. split_and!; try done. by eapply signed_file_eocd.
Qed.


(** ** A signed file *)

(** A toy instance: the digest is the length, a signature is the digest. *)
Definition toy : mincrypt := {|
  p256_int := block; SHA := fun d => [zlen d]; SHA256 := fun d => [zlen d];
  RSA_verify := fun _ sig hash _ => bool_decide (take 1 sig = hash);
  dsa_sig_unpack := fun sig => Some (sig, sig); p256_from_bin := fun b => b;
  p256_ecdsa_verify := fun _ _ hash r _ => bool_decide (hash = r) |}.

Definition toy_signature : block :=
  [0x30; 33; 6; 1; 42; 0xA0; 28; 0x30; 0x81; 25; 2; 1; 1; 0x31; 0; 0x30; 0; 0xA0; 1; 7; 0x31; 13; 0x30; 11;
   2; 0; 0x30; 0; 0x30; 0; 0x30; 0; 4; 1; 22].
Definition toy_record : block := [0x50; 0x4b; 5; 6; 0; 0; 0; 0; 0; 0; 0; 0; 0; 0; 0; 0; 0; 0; 0; 0; 41; 0].
Definition toy_file (start : Z) : block := [1; 2] ++ toy_record ++ toy_signature ++ [start; 0; 0xff; 0xff; 41; 0].
Definition toy_key : @Certificate toy := @mkCert toy SHA256_DIGEST_SIZE EC None (Some (@mkEc toy [] [])).

Lemma toy_file_bytes start : is_byte start -> bytes_ok (toy_file start).
Proof. intros Hs. repeat (constructor; [unfold is_byte; first [exact Hs | lia] |]). constructor. Qed.

Lemma verify_file_sound_witness : exists signed sig k, @signed_file ILP32 (toy_file 41) signed sig /\ k ∈ [toy_key] /\ @accepts toy k signed sig /\
  find_eocd (length (toy_file 41)) (toy_file 41) (zlen (toy_file 41) - ENDHDR) = Val (zlen signed - 20).
Proof.
  apply (@verify_file_sound ILP32 toy yes (toy_file 41) yes [toy_key]); [apply toy_file_bytes; unfold is_byte; lia | vm_compute; reflexivity |].
  vm_compute. reflexivity.
Defined.


(** The start of the signature is not compared with the size of the comment: a footer
    that points before the end record makes the decoder read outside its buffer. *)
Example signature_start_out_of_bounds : @verify_file ILP32 toy yes (Some (toy_file 200)) yes [toy_key] = Trap OutOfBounds.
Proof. vm_compute. reflexivity. Qed.
