(* ===== verification/Keys.v ===== *)
(** * The file of public keys (verifier.cpp: load_keys)

    fscanf is run on its format strings.  A number that its type cannot hold is undefined
    behaviour.  Keys printed in the format that the comment before the function describes
    are read back. *)

From stdpp Require Import base numbers list.
From stdpp Require Import strings.
From S2P Require Import Prelude CString Edify Sys Mtd MtdScan Verifier.

(** [%i]: the base is that of the prefix. *)
Definition scan_auto (s : block) : option (Z * block) :=
  let t := skip_space s in
  let t := match t with c :: t' => if (c =? 45) || (c =? 43) then t' else t | [] => [] end in
  match t with
  | 48 :: x :: _ => if (x =? 120) || (x =? 88) then scan_int 16 s else scan_int 8 s
  | 48 :: _ => scan_int 8 s
  | _ => scan_int 10 s
  end.

(** One conversion; [None] when nothing matches. *)
Definition convert (k : Z) (s : block) : outcome (option (Z * block)) :=
  let signed r := match r with Some (v, s) => let* v := c_int 32 v in Val (Some (v, s)) | None => Val None end in
  let unsigned r := match r with
                    | Some (v, s) => if in_int 33 v then Val (Some (u32 v, s)) else Trap IntOverflow
                    | None => Val None
                    end in
  if k =? 99 (* c *) then Val match s with c :: s => Some (c, s) | [] => None end
  else if k =? 100 (* d *) then signed (scan_int 10 s)
  else if k =? 105 (* i *) then signed (scan_auto s)
  else if k =? 117 (* u *) then unsigned (scan_int 10 s)
  else unsigned (scan_int 16 s).

(** The values converted, of which fscanf returns the number, and the rest of the file. *)
Fixpoint fscanf (fmt s : block) : outcome (list Z * block) :=
  match fmt with
  | [] => Val ([], s)
  | c :: fmt =>
      if is_space c then fscanf fmt (skip_space s)
      else if c =? 37 (* % *) then
        match fmt with
        | [] => Val ([], s)
        | k :: fmt =>
            let* r := convert k s in
            match r with
            | None => Val ([], s)
            | Some (v, s) => let* (vs, s) := fscanf fmt s in Val (v :: vs, s)
            end
        end
      else
        match s with
        | c' :: s' => if c =? c' then fscanf fmt s' else Val ([], s)
        | [] => Val ([], s)
        end
  end.

Section Keys.
Context `{mincrypt}.

(** [k] more numbers, after commas. *)
Fixpoint more_words (k : nat) (s : block) : outcome (option (list Z * block)) :=
  match k with
  | O => Val (Some ([], s))
  | S k =>
      let* (vs, s) := fscanf (str " , %u") s in
      match vs with
      | [v] =>
          let* r := more_words k s in
          Val match r with Some (ws, s) => Some (v :: ws, s) | None => None end
      | _ => Val None
      end
  end.

(** [key]: the exponent of the object that the values are stored in, unless it is null. *)
Definition read_rsa (key : option Z) (s : block) : outcome (option (RSAPublicKey * block)) :=
  let* (vs, s) := fscanf (str " %i , 0x%x , { %u") s in
  match key with
  | None => if negb (zlen vs =? 0) then Trap NullDeref else Val None
  | Some e =>
      match vs with
      | [len; n0inv; n0] =>
          if negb (len =? RSANUMWORDS) then Val None else
          let* ns := more_words (Z.to_nat (len - 1)) s in
          match ns with
          | None => Val None
          | Some (ns, s) =>
              let* (vs, s) := fscanf (str " } , { %u") s in
              match vs with
              | [r0] =>
                  let* rs := more_words (Z.to_nat (len - 1)) s in
                  match rs with
                  | None => Val None
                  | Some (rs, s) =>
                      let* (_, s) := fscanf (str " } } ") s in
                      Val (Some (mkRsa len n0inv (n0 :: ns) (r0 :: rs) e, s))
                  end
              | _ => Val None
              end
          end
      | _ => Val None
      end
  end.

(** The bytes are stored from the end of the array. *)
Definition read_ec (s : block) : outcome (option (ECPublicKey * block)) :=
  let* (vs, s) := fscanf (str " %i , { %u") s in
  match vs with
  | [key_len; x0] =>
      if negb (key_len =? P256_NBYTES) then Val None else
      let* xs := more_words (Z.to_nat (P256_NBYTES - 1)) s in
      match xs with
      | None => Val None
      | Some (xs, s) =>
          let* (vs, s) := fscanf (str " } , { %u") s in
          match vs with
          | [y0] =>
              let* ys := more_words (Z.to_nat (P256_NBYTES - 1)) s in
              match ys with
              | None => Val None
              | Some (ys, s) =>
                  let* (_, s) := fscanf (str " } } ") s in
                  let bin l := p256_from_bin (reverse (wrapu 8 <$> l)) in
                  Val (Some (mkEc (bin (x0 :: xs)) (bin (y0 :: ys)), s))
              end
          | _ => Val None
          end
      end
  | _ => Val None
  end.

(** The hash, the type and the exponent of a version. *)
Definition version_of (version : Z) : option (Z * KeyType * option Z) :=
  if version =? 2 then Some (SHA_DIGEST_SIZE, RSA, Some 65537)
  else if version =? 3 then Some (SHA256_DIGEST_SIZE, RSA, Some 3)
  else if version =? 4 then Some (SHA256_DIGEST_SIZE, RSA, Some 65537)
  else if version =? 5 then Some (SHA256_DIGEST_SIZE, EC, None)
  else None.

(** Up to the opening brace.  An unknown first character leaves the cleared object: type
    RSA, and no key. *)
Definition key_start (s : block) : outcome (option (Z * KeyType * option Z * block)) :=
  let* (vs, s) := fscanf (str " %c") s in
  match vs with
  | [start_char] =>
      if start_char =? 123 (* { *) then Val (Some (SHA_DIGEST_SIZE, RSA, Some 3, s))
      else if start_char =? 118 (* v *) then
        let* (vs, s) := fscanf (str "%d {") s in
        Val match vs with
            | [version] => match version_of version with Some (h, t, e) => Some (h, t, e, s) | None => None end
            | _ => None
            end
      else Val (Some (0, RSA, None, s))
  | _ => Val None
  end.

Definition read_key (s : block) : outcome (option (Certificate * block)) :=
  let* start := key_start s in
  match start with
  | None => Val None
  | Some (h, RSA, e, s) =>
      let* k := read_rsa e s in
      Val match k with Some (k, s) => Some (mkCert h RSA (Some k) None, s) | None => None end
  | Some (h, EC, e, s) =>
      let* k := read_ec s in
      Val match k with Some (k, s) => Some (mkCert h EC None (Some k), s) | None => None end
  end.

(** The keys read so far are [out]; every round consumes a character. *)
Fixpoint keys_loop (fuel : nat) (out : list Certificate) (s : block) : outcome (option (list Certificate)) :=
  match fuel with
  | O => Trap NoFuel
  | S fuel =>
      let* k := read_key s in
      match k with
      | None => Val None
      | Some (k, s) =>
          match s with
          | [] => Val (Some (out ++ [k]))
          | c :: s => if c =? 44 (* , *) then keys_loop fuel (out ++ [k]) s else Val None
          end
      end
  end.

(** [file]: what fopen opens.  The allocations are taken to succeed; the code does not
    check them. *)
Definition load_keys (file : option block) : outcome (option (list Certificate)) :=
  match file with
  | None => Val None
  | Some s => keys_loop (S (length s)) [] s
  end.
End Keys.

(** ** The format *)

(** The number of digits of [v] in base [b], less one. *)
Fixpoint extra (b : Z) (fuel : nat) (v : Z) : nat :=
  match fuel with O => O | S fuel => if v <? b then O else S (extra b fuel (v / b)) end.
Definition digits_of (b v : Z) : block := radix_char <$> radix b (S (extra b 64 v)) v.

(** A word, printed as a signed int. *)
Definition print_word (w : Z) : block := if w <? 2 ^ 31 then digits_of 10 w else 45 :: digits_of 10 (2 ^ 32 - w).
Definition print_words (ws : list Z) : block := foldr (fun w s => 44 :: print_word w ++ s) [] ws.
Definition print_array (w : Z) (ws : list Z) : block := 123 :: print_word w ++ print_words ws ++ [125].

(** The numbers of a key, by version. *)
Inductive key_data :=
| RsaData (version : Z) (n0inv n0 : Z) (ns : list Z) (r0 : Z) (rs : list Z)
| EcData (x0 : Z) (xs : list Z) (y0 : Z) (ys : list Z).

Definition print_version (version : Z) : block := if version =? 1 then [] else 118 :: digits_of 10 version ++ [32].
Definition print_key (k : key_data) : block :=
  match k with
  | RsaData version n0inv n0 ns r0 rs =>
      print_version version ++ str "{64,0x" ++ digits_of 16 n0inv ++ [44] ++ print_array n0 ns ++ [44] ++ print_array r0 rs ++ [125]
  | EcData x0 xs y0 ys => str "v5 {32," ++ print_array x0 xs ++ [44] ++ print_array y0 ys ++ [125]
  end.
Fixpoint print_keys (k : key_data) (ks : list key_data) : block :=
  match ks with [] => print_key k | k' :: ks => print_key k ++ 44 :: print_keys k' ks end.

Definition is_word (w : Z) : Prop := 0 <= w < 2 ^ 32.
Definition key_data_ok (k : key_data) : Prop :=
  match k with
  | RsaData version n0inv n0 ns r0 rs =>
      1 <= version <= 4 /\ is_word n0inv /\ Forall is_word (n0 :: ns) /\ zlen ns = 63 /\ Forall is_word (r0 :: rs) /\ zlen rs = 63
  | EcData x0 xs y0 ys => bytes_ok (x0 :: xs) /\ zlen xs = 31 /\ bytes_ok (y0 :: ys) /\ zlen ys = 31
  end.

Section Roundtrip.
Context `{mincrypt}.

Definition cert_of (k : key_data) : Certificate :=
  match k with
  | RsaData version n0inv n0 ns r0 rs =>
      mkCert (if version <=? 2 then SHA_DIGEST_SIZE else SHA256_DIGEST_SIZE) RSA
        (Some (mkRsa 64 n0inv (n0 :: ns) (r0 :: rs) (if (version =? 1) || (version =? 3) then 3 else 65537))) None
  | EcData x0 xs y0 ys =>
      mkCert SHA256_DIGEST_SIZE EC None (Some (mkEc (p256_from_bin (reverse (x0 :: xs))) (p256_from_bin (reverse (y0 :: ys)))))
  end.

(** *** Numbers *)

Lemma extra_bound b fuel : forall v, 1 < b -> 0 <= v < 2 ^ Z.of_nat fuel -> v < b ^ Z.of_nat (S (extra b fuel v)).
Proof.
  induction fuel as [| fuel IH]; intros v Hb Hv; cbn [extra].
  { change (2 ^ Z.of_nat 0) with 1 in Hv. change (Z.of_nat 1) with 1. rewrite Z.pow_1_r. lia. }
  destruct (Z.ltb_spec v b); [change (Z.of_nat 1) with 1; rewrite Z.pow_1_r; lia |].
  rewrite Nat2Z.inj_succ, Z.pow_succ_r by lia. rewrite Nat2Z.inj_succ, Z.pow_succ_r in Hv by lia.
  assert (v / b < b ^ Z.of_nat (S (extra b fuel (v / b)))) as Hd.
  { apply IH; [done |]. split; [apply Z.div_pos; lia |]. apply Z.div_lt_upper_bound; [lia |].
    assert (0 < 2 ^ Z.of_nat fuel) by (apply Z.pow_pos_nonneg; lia). nia. }
  pose proof (Z.div_mod v b ltac:(lia)). pose proof (Z.mod_pos_bound v b ltac:(lia)). nia.
Qed.

(** What follows a number in the format. *)
Definition stops (c : Z) : Prop := c = 44 \/ c = 125 \/ c = 32 \/ c = 123.

Lemma stops_digit b c : stops c -> digit_of b c = None /\ c <> 120 /\ c <> 88.
Proof. unfold digit_of. by intros [-> | [-> | [-> | ->]]]; simpl; rewrite Z.ltb_irrefl. Qed.

Lemma digits_read b v c t : 1 < b <= 16 -> 0 <= v < 2 ^ 64 -> stops c -> scan_int b (digits_of b v ++ c :: t) = Some (v, c :: t).
Proof.
  intros Hb Hv Hc. destruct (stops_digit b c Hc) as (H1 & H2 & H3). unfold digits_of.
  apply (scan_int_read b (extra b 64 v) v c t []); try done; [lia | | constructor]. split; [lia |]. apply extra_bound; [lia | exact Hv].
Qed.
Lemma digits_head b v : 1 < b <= 16 -> exists c t, digits_of b v = c :: t /\ (48 <= c <= 57 \/ 97 <= c <= 102).
Proof.
  intros Hb. unfold digits_of. pose proof (radix_range b (S (extra b 64 v)) v ltac:(lia)) as Hr.
  destruct (radix b (S (extra b 64 v)) v) as [| d ds] eqn:E; [cbn [radix] in E; by destruct (radix b _ _) |].
  rewrite fmap_cons. eexists _, _. split; [done |]. apply Forall_cons in Hr as [Hd _]. apply char_range. lia.
Qed.

(** A sign before a number. *)
Lemma scan_int_neg b c t : 48 <= c <= 57 \/ 97 <= c <= 102 ->
  scan_int b (45 :: c :: t) = match scan_int b (c :: t) with Some (v, r) => Some (- v, r) | None => None end.
Proof.
  intros Hc. unfold scan_int. change (skip_space (45 :: c :: t)) with (45 :: c :: t).
  assert (skip_space (c :: t) = c :: t) as -> by (cbn [skip_space]; by rewrite (digit_not_space c Hc)).
  rewrite (proj2 (Z.eqb_neq c 45)), (proj2 (Z.eqb_neq c 43)) by lia. rewrite Z.eqb_refl. by destruct (radix_digits b _ None) as [[v |] r].
Qed.

Lemma word_read w c t : is_word w -> stops c -> convert 117 (print_word w ++ c :: t) = Val (Some (w, c :: t)).
Proof.
  intros Hw Hc. unfold is_word in Hw. unfold convert. cbn [Z.eqb Pos.eqb]. unfold print_word. destruct (Z.ltb_spec w (2 ^ 31)).
  - rewrite digits_read by (done || lia). assert (in_int 33 w = true) as -> by (apply andb_true_iff; rewrite Z.leb_le, Z.ltb_lt; lia).
    by rewrite wrapu_id by lia.
  - pose proof (digits_read 10 (2 ^ 32 - w) c t ltac:(lia) ltac:(lia) Hc) as Hd. destruct (digits_head 10 (2 ^ 32 - w) ltac:(lia)) as (d & ds & Ed & Hr).
    rewrite Ed in Hd |- *. cbn [app] in Hd |- *. rewrite scan_int_neg, Hd by done.
    assert (in_int 33 (- (2 ^ 32 - w)) = true) as -> by (apply andb_true_iff; rewrite Z.leb_le, Z.ltb_lt; lia).
    unfold wrapu. do 3 f_equal. symmetry. apply (Z.mod_unique_pos _ _ (-1)); lia.
Qed.

Lemma word_head w : is_word w -> exists c t, print_word w = c :: t /\ is_space c = false /\ c <> 44.
Proof.
  intros Hw. unfold print_word. destruct (w <? 2 ^ 31); [| by eexists _, _].
  destruct (digits_head 10 w ltac:(lia)) as (c & t & -> & Hc). eexists _, _. split; [done |]. split; [by apply digit_not_space | lia].
Qed.

(** *** Arrays *)

Lemma skip_none c t : is_space c = false -> skip_space (c :: t) = c :: t.
Proof. intros Hc. cbn [skip_space]. by rewrite Hc. Qed.

(** One step of fscanf on the text that follows. *)
Lemma fscanf_space fmt s : fscanf (32 :: fmt) s = fscanf fmt (skip_space s).
Proof. done. Qed.
Lemma fscanf_lit c fmt s : is_space c = false -> c <> 37 -> fscanf (c :: fmt) (c :: s) = fscanf fmt s.
Proof. intros H1 H2. cbn [fscanf]. by rewrite H1, (proj2 (Z.eqb_neq c 37)), Z.eqb_refl by done. Qed.
Lemma fscanf_conv k fmt s v s' : convert k s = Val (Some (v, s')) ->
  fscanf (37 :: k :: fmt) s = (let* (vs, s) := fscanf fmt s' in Val (v :: vs, s)).
Proof. intros E. cbn [fscanf]. change (is_space 37) with false. cbn iota. by rewrite E. Qed.

Lemma word_skip w s : is_word w -> skip_space (print_word w ++ s) = print_word w ++ s.
Proof. intros Hw. destruct (word_head w Hw) as (c & t & -> & Hc & _). by apply skip_none. Qed.

Lemma scan_word w c t : is_word w -> stops c -> fscanf (str " , %u") (44 :: print_word w ++ c :: t) = Val ([w], c :: t).
Proof.
  intros Hw Hc. change (str " , %u") with [32; 44; 32; 37; 117]. rewrite fscanf_space, skip_none, fscanf_lit, fscanf_space, word_skip by done.
  by rewrite (fscanf_conv _ _ _ _ _ (word_read w c t Hw Hc)).
Qed.

Lemma words_read ws t : Forall is_word ws -> more_words (length ws) (print_words ws ++ 125 :: t) = Val (Some (ws, 125 :: t)).
Proof.
  induction 1 as [| w ws Hw Hws IH]; [done |]. cbn [length more_words print_words foldr]. fold (print_words ws).
  rewrite <- app_comm_cons, <- app_assoc.
  assert (exists c s, print_words ws ++ 125 :: t = c :: s /\ stops c) as (c & s & E & Hc).
  { destruct ws; [exists 125, t; split; [done | right; by left] | eexists 44, _; split; [done | by left]]. }
  rewrite E in IH |- *. rewrite scan_word by done. cbn [mbind outcome_bind]. by rewrite IH.
Qed.
(** A file ends here or goes on with a comma. *)
Definition ends (rest : block) : Prop := rest = [] \/ exists t, rest = 44 :: t.
Lemma ends_skip rest : ends rest -> skip_space rest = rest.
Proof. by intros [-> | [t ->]]. Qed.

Lemma scan_close rest : ends rest -> fscanf (str " } } ") (125 :: 125 :: rest) = Val ([], rest).
Proof.
  intros He. change (str " } } ") with [32; 125; 32; 125; 32]. rewrite fscanf_space, skip_none, fscanf_lit, fscanf_space, skip_none, fscanf_lit, fscanf_space by done.
  by rewrite ends_skip.
Qed.

(** The first word of an array, and the rest of it. *)
Lemma first_stop ws t : exists c s, print_words ws ++ 125 :: t = c :: s /\ stops c.
Proof. destruct ws; [exists 125, t; split; [done | right; by left] | eexists 44, _; split; [done | by left]]. Qed.

Lemma scan_array w ws t : is_word w ->
  fscanf (str " } , { %u") (125 :: 44 :: print_array w ws ++ t) = Val ([w], print_words ws ++ 125 :: t).
Proof.
  intros Hw. change (str " } , { %u") with [32; 125; 32; 44; 32; 123; 32; 37; 117].
  unfold print_array. rewrite <- app_comm_cons, <- !app_assoc.
  rewrite fscanf_space, skip_none, fscanf_lit, fscanf_space, skip_none, fscanf_lit, fscanf_space, skip_none, fscanf_lit, fscanf_space, word_skip by done.
  cbn [app]. destruct (first_stop ws t) as (c & s & -> & Hc). by rewrite (fscanf_conv _ _ _ _ _ (word_read w c s Hw Hc)).
Qed.

Lemma hex_read v t : is_word v -> convert 120 (digits_of 16 v ++ 44 :: t) = Val (Some (v, 44 :: t)).
Proof.
  intros Hv. unfold is_word in Hv. unfold convert. cbn [Z.eqb Pos.eqb]. rewrite digits_read by (try lia; by left).
  assert (in_int 33 v = true) as -> by (apply andb_true_iff; rewrite Z.leb_le, Z.ltb_lt; lia). by rewrite wrapu_id by lia.
Qed.

Lemma read_rsa_text e n0inv n0 ns r0 rs rest : is_word n0inv -> Forall is_word (n0 :: ns) -> zlen ns = 63 -> Forall is_word (r0 :: rs) -> zlen rs = 63 ->
  ends rest ->
  read_rsa (Some e) (54 :: 52 :: 44 :: 48 :: 120 :: digits_of 16 n0inv ++ 44 :: print_array n0 ns ++ 44 :: print_array r0 rs ++ 125 :: rest) =
    Val (Some (mkRsa 64 n0inv (n0 :: ns) (r0 :: rs) e, rest)).
Proof.
  intros Hi [Hn0 Hns]%Forall_cons Hln [Hr0 Hrs]%Forall_cons Hlr He. unfold read_rsa.
  change (str " %i , 0x%x , { %u") with [32; 37; 105; 32; 44; 32; 48; 120; 37; 120; 32; 44; 32; 123; 32; 37; 117].
  rewrite fscanf_space, skip_none by done. set (t1 := _ ++ 44 :: print_array n0 ns ++ _).
  assert (convert 105 (54 :: 52 :: 44 :: 48 :: 120 :: t1) = Val (Some (64, 44 :: 48 :: 120 :: t1))) as E by reflexivity.
  rewrite (fscanf_conv _ _ _ _ _ E). subst t1.
  rewrite fscanf_space, skip_none, fscanf_lit, fscanf_space, skip_none, fscanf_lit, fscanf_lit by done.
  rewrite (fscanf_conv _ _ _ _ _ (hex_read n0inv _ Hi)). rewrite fscanf_space, skip_none, fscanf_lit, fscanf_space by done.
  unfold print_array at 1. rewrite <- !app_comm_cons, <- !app_assoc. rewrite skip_none, fscanf_lit, fscanf_space, word_skip by done. cbn [app].
  destruct (first_stop ns (44 :: print_array r0 rs ++ 125 :: rest)) as (c & s & Ew & Hc). rewrite Ew.
  rewrite (fscanf_conv _ _ _ _ _ (word_read n0 c s Hn0 Hc)). cbn [fscanf mbind outcome_bind]. change (64 =? RSANUMWORDS) with true. cbn [negb].
  assert (Z.to_nat (64 - 1) = length ns) as El by (unfold zlen in Hln; lia). rewrite El, <- Ew, words_read by done. cbn [mbind outcome_bind].
  rewrite scan_array by done. cbn [mbind outcome_bind]. assert (length ns = length rs) as -> by (unfold zlen in *; lia). rewrite words_read by done.
  cbn [mbind outcome_bind]. by rewrite scan_close.
Qed.

Lemma byte_word b : is_byte b -> is_word b.
Proof. unfold is_byte, is_word. lia. Qed.

Lemma bytes_wrap l : bytes_ok l -> wrapu 8 <$> l = l.
Proof. induction 1 as [| b l Hb _ IH]; [done |]. rewrite fmap_cons, IH. f_equal. by apply wrapu_id. Qed.

Lemma read_ec_text x0 xs y0 ys rest : bytes_ok (x0 :: xs) -> zlen xs = 31 -> bytes_ok (y0 :: ys) -> zlen ys = 31 -> ends rest ->
  read_ec (51 :: 50 :: 44 :: print_array x0 xs ++ 44 :: print_array y0 ys ++ 125 :: rest) =
    Val (Some (mkEc (p256_from_bin (reverse (x0 :: xs))) (p256_from_bin (reverse (y0 :: ys))), rest)).
Proof.
  intros Hx Hlx Hy Hly He. pose proof (Forall_impl _ _ _ Hx byte_word) as [Wx0 Wx]%Forall_cons. pose proof (Forall_impl _ _ _ Hy byte_word) as [Wy0 Wy]%Forall_cons.
  unfold read_ec. change (str " %i , { %u") with [32; 37; 105; 32; 44; 32; 123; 32; 37; 117]. rewrite fscanf_space, skip_none by done.
  set (t1 := print_array x0 xs ++ _). assert (convert 105 (51 :: 50 :: 44 :: t1) = Val (Some (32, 44 :: t1))) as E by reflexivity.
  rewrite (fscanf_conv _ _ _ _ _ E). subst t1. rewrite fscanf_space, skip_none, fscanf_lit, fscanf_space by done.
  unfold print_array at 1. rewrite <- !app_comm_cons, <- !app_assoc. rewrite skip_none, fscanf_lit, fscanf_space, word_skip by done. cbn [app].
  destruct (first_stop xs (44 :: print_array y0 ys ++ 125 :: rest)) as (c & s & Ew & Hc). rewrite Ew.
  rewrite (fscanf_conv _ _ _ _ _ (word_read x0 c s Wx0 Hc)). cbn [fscanf mbind outcome_bind]. change (32 =? P256_NBYTES) with true. cbn [negb].
  assert (Z.to_nat (P256_NBYTES - 1) = length xs) as El by (unfold zlen, P256_NBYTES in *; lia). rewrite El, <- Ew, words_read by done. cbn [mbind outcome_bind].
  rewrite scan_array by done. cbn [mbind outcome_bind]. assert (length xs = length ys) as -> by (unfold zlen in *; lia). rewrite words_read by done.
  cbn [mbind outcome_bind]. rewrite scan_close by done. cbn [mbind outcome_bind]. by rewrite !bytes_wrap.
Qed.

(** *** Keys *)

Lemma key_start_rsa version t : 1 <= version <= 4 ->
  key_start (print_version version ++ 123 :: t) =
    Val (Some (if version <=? 2 then SHA_DIGEST_SIZE else SHA256_DIGEST_SIZE, RSA, Some (if (version =? 1) || (version =? 3) then 3 else 65537), t)).
Proof. intros Hv. assert (version = 1 \/ version = 2 \/ version = 3 \/ version = 4) as [-> | [-> | [-> | ->]]] by lia; reflexivity. Qed.

Lemma read_key_text k rest : key_data_ok k -> ends rest -> read_key (print_key k ++ rest) = Val (Some (cert_of k, rest)).
Proof.
  intros Hk He. unfold read_key. destruct k as [version n0inv n0 ns r0 rs | x0 xs y0 ys]; cbn [print_key].
  - destruct Hk as (Hv & Hi & Hns & Hln & Hrs & Hlr). change (str "{64,0x") with [123; 54; 52; 44; 48; 120]. rewrite <- !app_assoc. cbn [app].
    rewrite key_start_rsa by done. cbn [mbind outcome_bind]. by rewrite read_rsa_text.
  - destruct Hk as (Hx & Hlx & Hy & Hly). change (str "v5 {32,") with [118; 53; 32; 123; 51; 50; 44]. rewrite <- !app_assoc. cbn [app].
    change (key_start _) with (Val (A := option (Z * KeyType * option Z * block))
      (Some (SHA256_DIGEST_SIZE, EC, None, 51 :: 50 :: 44 :: print_array x0 xs ++ 44 :: print_array y0 ys ++ 125 :: rest))).
    cbn [mbind outcome_bind]. by rewrite read_ec_text.
Qed.

Lemma keys_loop_text ks : forall fuel k out, (length ks < fuel)%nat -> Forall key_data_ok (k :: ks) ->
  keys_loop fuel out (print_keys k ks) = Val (Some (out ++ (cert_of <$> k :: ks))).
Proof.
  induction ks as [| k' ks IH]; intros fuel k out Hf [Hk Hks]%Forall_cons; (destruct fuel as [| fuel]; [simpl in Hf; lia |]); cbn [keys_loop print_keys].
  - rewrite <- (app_nil_r (print_key k)), read_key_text by (done || by left). done.
  - rewrite read_key_text by (done || (right; eauto)). cbn [mbind outcome_bind]. change (44 =? 44) with true. cbn iota.
    rewrite IH by (done || (simpl in Hf; lia)). by rewrite <- app_assoc.
Qed.

Lemma print_keys_length ks : forall k, (length ks <= length (print_keys k ks))%nat.
Proof. induction ks as [| k' ks IH]; intros k; cbn [print_keys]; [simpl; lia |]. rewrite length_app. simpl. specialize (IH k'). lia. Qed.

(** What load_keys gives can be used by verify_file. *)
Lemma keys_loop_ok fuel : forall out s ks, Forall key_ok out -> keys_loop fuel out s = Val (Some ks) -> ks <> [] /\ Forall key_ok ks.
Proof.
  induction fuel as [| fuel IH]; intros out s ks Hout; cbn [keys_loop]; [done |].
  destruct (read_key s) as [[[k s'] |] |] eqn:E; cbn [mbind outcome_bind]; try done.
  assert (key_ok k) as Hk.
  { unfold read_key in E. destruct (key_start s) as [[[[[h []] e] t] |] |]; cbn [mbind outcome_bind] in E; try done.
    - destruct (read_rsa e t) as [[[r ?] |] |]; cbn [mbind outcome_bind] in E; try done. injection E as <- _. by eexists.
    - destruct (read_ec t) as [[[r ?] |] |]; cbn [mbind outcome_bind] in E; try done. injection E as <- _. by eexists. }
  assert (Forall key_ok (out ++ [k])) as Hok by (apply Forall_app; split; [done | by constructor]).
  destruct s' as [| c s']; [intros [= <-]; split; [by destruct out | done] |]. destruct (c =? 44); [| done]. by apply IH.
Qed.

End Roundtrip.

(** C36: a file of keys in the documented format, of any versions, is read back: every
    number, and the hash and the exponent that the version implies; and whatever file is
    accepted, there is at least one key and every key has its data, as verify_file needs. *)
Theorem load_keys_roundtrip `{mincrypt} k ks : Forall key_data_ok (k :: ks) ->
  load_keys (Some (print_keys k ks)) = Val (Some (cert_of <$> k :: ks)) /\
  forall file certs, load_keys file = Val (Some certs) -> certs <> [] /\ Forall key_ok certs.
Proof.
  intros Hks. split.
  - unfold load_keys. rewrite keys_loop_text; [done | | done]. pose proof (print_keys_length ks k). lia.
  - intros [s |] certs E; [| done]. by apply (keys_loop_ok (S (length s)) [] s).
Qed.

(** Two keys: one of version 3, one on the curve. *)
Definition sample_keys : list key_data :=
  [RsaData 3 0xc926ad21 5 (replicate 63 4294967295) 7 (replicate 63 10); EcData 1 (replicate 31 255) 2 (replicate 31 0)].

Lemma load_keys_roundtrip_witness : Forall key_data_ok sample_keys /\
  load_keys (H := toy) (Some (print_keys (RsaData 3 0xc926ad21 5 (replicate 63 4294967295) 7 (replicate 63 10)) [EcData 1 (replicate 31 255) 2 (replicate 31 0)])) =
    Val (Some (cert_of (H := toy) <$> sample_keys)) /\
  forall file certs, load_keys (H := toy) file = Val (Some certs) -> certs <> [] /\ Forall (key_ok (M := toy)) certs.
Proof.
  assert (Forall key_data_ok sample_keys) as Hk.
  { constructor; [| constructor; [| constructor]].
    - split_and!; try lia; try reflexivity; try (unfold is_word; lia); (constructor; [unfold is_word; lia |]); apply Forall_replicate; unfold is_word; lia.
    - split_and!; try reflexivity; (constructor; [unfold is_byte; lia |]); apply Forall_replicate; unfold is_byte; lia. }
  split; [exact Hk |]. apply (@load_keys_roundtrip toy). exact Hk.
Defined.

(** A key that starts with another character than a brace or a v is taken for a key
    without object, and its numbers are stored through a null pointer. *)
Example unknown_start_null_dereference : load_keys (H := toy) (Some (str "x64,0x1,{1")) = Trap NullDeref.
Proof. vm_compute. reflexivity. Qed.
