(* ===== verification/Mounts.v ===== *)
(** * The table of mounted volumes (mtdutils/mounts.c)

    The static state is passed explicitly; [proc] is what reading /proc/mounts gives.  A
    table that fits is read back, and the searches agree with it. *)

From stdpp Require Import base numbers list.
From stdpp Require Import strings.
From S2P Require Import Prelude CString Edify Sys Mtd MtdScan.

(** The strings are null after an unmount. *)
Record MountedVolume := mkVolume { device : option block; mount_point : option block; filesystem : option block; flags : option block }.
Definition no_volume : MountedVolume := mkVolume None None None None.

(** [volumes] is the array, once it has been allocated. *)
Record MountsState := mkMounts { volumes : option (list MountedVolume); volume_count : Z }.
Definition g_mounts_state : MountsState := mkMounts None 0.
Definition numv : nat := 32.

Definition free_volume_internals (v : MountedVolume) (zero : bool) : MountedVolume := if zero then no_volume else v.

(** [%ns] of sscanf: white space is skipped, then up to [n] other characters are taken. *)
Fixpoint span_word (n : nat) (s : block) : block * block :=
  match n, s with
  | S n, c :: s' => if is_space c then ([], s) else let (w, r) := span_word n s' in (c :: w, r)
  | _, _ => ([], s)
  end.
Definition scan_string (n : nat) (s : block) : option (block * block) :=
  match span_word n (skip_space s) with
  | ([], _) => None
  | (w, r) => Some (w, r)
  end.

(** The four fields, when all conversions match. *)
Definition scan_fields (s : block) : option (block * block * block * block) :=
  match scan_string 63 s with
  | None => None
  | Some (d, s) =>
      match scan_string 63 s with
      | None => None
      | Some (m, s) =>
          match scan_string 63 s with
          | None => None
          | Some (f, s) => match scan_string 127 s with None => None | Some (fl, _) => Some (d, m, f, fl) end
          end
      end
  end.

(** The lines of [bufp]. *)
Fixpoint mount_lines (n : nat) (bufp : block) (vs : list MountedVolume) (count : Z) : outcome (list MountedVolume * Z) :=
  match bufp, n with
  | [], _ => Val (vs, count)
  | _ :: _, O => Trap NoFuel
  | _ :: _, S n =>
      match scan_fields (until_nul bufp) with
      | Some (d, m, f, fl) =>
          let* vs := store vs count (mkVolume (Some d) (Some m) (Some f) (Some fl)) in
          mount_lines n (next_line bufp) vs (count + 1)
      | None => mount_lines n (next_line bufp) vs count
      end
  end.

(** [malloc]: the allocation of the array succeeds; [proc]: the contents of the file,
    unless it cannot be opened or read. *)
Definition scan_mounted_volumes (malloc : bool) (proc : option block) (g : MountsState) : outcome (Z * MountsState) :=
  match (match volumes g with
         | None => if malloc then Some (replicate numv no_volume) else None
         | Some vs => Some (((fun v => free_volume_internals v true) <$> take (Z.to_nat (volume_count g)) vs) ++ drop (Z.to_nat (volume_count g)) vs)
         end) with
  | None => Val (-1, g)
  | Some vs =>
      match proc with
      | None => Val (-1, mkMounts (Some vs) 0)
      | Some text =>
          let buf := take 2047 text in
          let* (vs, count) := mount_lines (length buf) buf vs 0 in
          Val (0, mkMounts (Some vs) count)
      end
  end.

(** The first of the [n] volumes from [i] on whose string given by [field] is [s]. *)
Fixpoint find_volume (field : MountedVolume -> option block) (s : block) (n : nat) (i : Z) (vs : list MountedVolume) : outcome (option Z) :=
  match n with
  | O => Val None
  | S n =>
      let* v := load vs i in
      match field v with
      | Some t => if bool_decide (t = s) then Val (Some i) else find_volume field s n (i + 1) vs
      | None => find_volume field s n (i + 1) vs
      end
  end.

(** The index of the volume stands for the pointer. *)
Definition find_mounted_volume_by_device (s : block) (g : MountsState) : outcome (option Z) :=
  match volumes g with None => Val None | Some vs => find_volume device s (Z.to_nat (volume_count g)) 0 vs end.
Definition find_mounted_volume_by_mount_point (s : block) (g : MountsState) : outcome (option Z) :=
  match volumes g with None => Val None | Some vs => find_volume mount_point s (Z.to_nat (volume_count g)) 0 vs end.

(** [umount]: the result of the system call on the mount point, which may be null. *)
Definition unmount_mounted_volume (umount : option block -> Z) (i : Z) (g : MountsState) : outcome (Z * MountsState) :=
  match volumes g with
  | None => Trap NullDeref
  | Some vs =>
      let* v := load vs i in
      let ret := umount (mount_point v) in
      if ret =? 0 then let* vs := store vs i (free_volume_internals v true) in Val (0, mkMounts (Some vs) (volume_count g))
      else Val (ret, g)
  end.

(** [mount]: the result of the system call with the flags of a remount. *)
Definition remount_read_only (mount : option block -> option block -> option block -> Z) (i : Z) (g : MountsState) : outcome Z :=
  match volumes g with
  | None => Trap NullDeref
  | Some vs => let* v := load vs i in Val (mount (device v) (mount_point v) (filesystem v))
  end.

(** ** Reading the table back *)

(** A mount of the kernel, and its line. *)
Record mount := mkMount { k_device : block; k_point : block; k_fs : block; k_flags : block }.
Definition print_mount (k : mount) : block :=
  k_device k ++ [32] ++ k_point k ++ [32] ++ k_fs k ++ [32] ++ k_flags k ++ str " 0 0" ++ [10].
Definition proc_mounts (ks : list mount) : block := concat (print_mount <$> ks).

Definition field_ok (n : Z) (s : block) : Prop := 0 < zlen s <= n /\ Forall (fun c => is_space c = false /\ c <> 0) s.
Definition mount_ok (k : mount) : Prop :=
  field_ok 63 (k_device k) /\ field_ok 63 (k_point k) /\ field_ok 63 (k_fs k) /\ field_ok 127 (k_flags k).
Definition volume_of (k : mount) : MountedVolume := mkVolume (Some (k_device k)) (Some (k_point k)) (Some (k_fs k)) (Some (k_flags k)).

Lemma span_word_read n w c t : (length w <= n)%nat -> Forall (fun c => is_space c = false /\ c <> 0) w -> is_space c = true ->
  span_word n (w ++ c :: t) = (w, c :: t).
Proof.
  intros Hn Hw Hc. revert n Hn. induction Hw as [| x w [Hx _] _ IH]; intros n Hn; simpl.
  - destruct n; [done |]. cbn [span_word]. by rewrite Hc.
  - destruct n as [| n]; [simpl in Hn; lia |]. cbn [span_word]. rewrite Hx, IH by (simpl in Hn; lia). done.
Qed.

Lemma scan_string_read n w c t ws : field_ok (Z.of_nat n) w -> is_space c = true -> spaces ws ->
  scan_string n (ws ++ w ++ c :: t) = Some (w, c :: t).
Proof.
  intros [Hl Hw] Hc Hws. unfold scan_string. destruct w as [| x w]; [change (zlen (@nil Z)) with 0 in Hl; lia |].
  cbn [app]. pose proof Hw as [[Hx _] _]%Forall_cons. rewrite skip_space_app by done.
  change (x :: w ++ c :: t) with ((x :: w) ++ c :: t). rewrite span_word_read; [done | unfold zlen in Hl; lia | done | done].
Qed.

Lemma scan_first n w t : field_ok (Z.of_nat n) w -> scan_string n (w ++ 32 :: t) = Some (w, 32 :: t).
Proof. intros Hw. by apply (scan_string_read n w 32 t []); [| | constructor]. Qed.
Lemma scan_next n w t : field_ok (Z.of_nat n) w -> scan_string n (32 :: w ++ 32 :: t) = Some (w, 32 :: t).
Proof. intros Hw. by apply (scan_string_read n w 32 t [32]); [| | repeat constructor]. Qed.

Lemma until_nul_app (s t : block) : Forall (fun c => c <> 0) s -> until_nul (s ++ t) = s ++ until_nul t.
Proof. induction 1 as [| c s Hc _ IH]; [done |]. simpl. by rewrite (proj2 (Z.eqb_neq c 0)), IH by done. Qed.

Lemma scan_fields_read k t : mount_ok k -> scan_fields (print_mount k ++ t) = Some (k_device k, k_point k, k_fs k, k_flags k).
Proof.
  intros (Hd & Hm & Hf & Hl). unfold scan_fields, print_mount. rewrite <- !app_assoc. cbn [app].
  change (str " 0 0") with [32; 48; 32; 48]. cbn [app].
  by rewrite (scan_first 63), !(scan_next 63), (scan_next 127) by done.
Qed.

Lemma line_eaten (s t : block) : Forall (fun c => c <> 10) s -> next_line (s ++ 10 :: t) = t.
Proof. induction 1 as [| c s Hc _ IH]; [done |]. simpl. by rewrite (proj2 (Z.eqb_neq c 10)). Qed.

Lemma print_mount_chars k : mount_ok k -> exists l, print_mount k = l ++ [10] /\ Forall (fun c => c <> 10 /\ c <> 0) l /\ l <> [].
Proof.
  intros (Hd & Hm & Hf & Hl).
  assert (forall n s, field_ok n s -> Forall (fun c => c <> 10 /\ c <> 0) s) as Hok.
  { intros n s [_ Hs]. eapply Forall_impl; [exact Hs |]. intros c [Hc H0]. split; [by intros -> | done]. }
  exists (k_device k ++ [32] ++ k_point k ++ [32] ++ k_fs k ++ [32] ++ k_flags k ++ str " 0 0"). split; [by unfold print_mount; rewrite <- !app_assoc |].
  split; [| by destruct (k_device k)]. repeat (apply Forall_app; split); try (by eapply Hok); repeat (constructor; [done |]); constructor.
Qed.

Lemma mount_lines_read ks : forall n vs done_, Forall mount_ok ks -> (length (proc_mounts ks) <= n)%nat -> zlen done_ + zlen ks <= zlen vs ->
  take (length done_) vs = done_ ->
  exists vs', mount_lines n (proc_mounts ks) vs (zlen done_) = Val (vs', zlen done_ + zlen ks) /\ zlen vs' = zlen vs /\
    take (length (done_ ++ (volume_of <$> ks))) vs' = done_ ++ (volume_of <$> ks).
Proof.
  induction ks as [| k ks IH]; intros n vs done_ Hks Hn Hlen Ht.
  { exists vs. rewrite app_nil_r. change (zlen (@nil mount)) with 0. rewrite Z.add_0_r. split_and!; try done; by destruct n. }
  apply Forall_cons in Hks as [Hk Hks]. unfold proc_mounts in *. rewrite fmap_cons in *. cbn [concat] in *.
  destruct (print_mount_chars k Hk) as (l & El & Hl & Hne). rewrite length_app in Hn.
  destruct n as [| n]; [rewrite El, length_app in Hn; simpl in Hn; lia |].
  assert (exists c s, print_mount k ++ concat (print_mount <$> ks) = c :: s) as (c & s & Ecs) by (rewrite El; destruct l; [done | eauto]).
  rewrite Ecs. cbn [mount_lines]. rewrite <- Ecs.
  assert (scan_fields (until_nul (print_mount k ++ concat (print_mount <$> ks))) = Some (k_device k, k_point k, k_fs k, k_flags k)) as ->.
  { rewrite until_nul_app; [by apply scan_fields_read |]. rewrite El. apply Forall_app. split; [| by repeat constructor].
    eapply Forall_impl; [exact Hl |]. by intros ? []. }
  rewrite zlen_cons in Hlen. pose proof (zlen_nonneg ks). pose proof (zlen_nonneg done_).
  assert (0 <= zlen done_ < zlen vs) as Hr by lia. change (mkVolume _ _ _ _) with (volume_of k).
  rewrite (proj2 (store_Val vs _ (zlen done_) (volume_of k)) (conj Hr eq_refl)). cbn [mbind outcome_bind].
  assert (next_line (print_mount k ++ concat (print_mount <$> ks)) = concat (print_mount <$> ks)) as ->.
  { rewrite El, <- app_assoc. apply line_eaten. eapply Forall_impl; [exact Hl |]. by intros ? []. }
  unfold zlen at 1. rewrite Nat2Z.id.
  destruct (IH n (<[length done_ := volume_of k]> vs) (done_ ++ [volume_of k])) as (vs' & E & Hz & Ht'); try done.
  - rewrite El, length_app in Hn. simpl in Hn. lia.
  - rewrite zlen_insert. zlia.
  - rewrite length_app. cbn [length]. rewrite Nat.add_1_r, (take_S_r _ _ (volume_of k)).
    + by rewrite take_insert_ge, Ht by lia.
    + apply list_lookup_insert_eq. unfold zlen in *. lia.
  - exists vs'. rewrite zlen_insert in Hz. rewrite <- app_assoc in Ht'. split_and!; try done.
    replace (zlen done_ + 1) with (zlen (done_ ++ [volume_of k])) by zlia. rewrite E. do 2 f_equal. zlia.
Qed.

(** ** Searching *)

Lemma find_volume_spec field s vs n : forall i, 0 <= i -> i + Z.of_nat n <= zlen vs ->
  exists r, find_volume field s n i vs = Val r /\
    match r with
    | Some j => i <= j < i + Z.of_nat n /\ (exists v, load vs j = Val v /\ field v = Some s) /\
                forall j' v, i <= j' < j -> load vs j' = Val v -> field v <> Some s
    | None => forall j v, i <= j < i + Z.of_nat n -> load vs j = Val v -> field v <> Some s
    end.
Proof.
  induction n as [| n IH]; intros i Hi Hn; cbn [find_volume]; [exists None; split; [done |]; intros j v Hj; lia |].
  destruct (load_some vs i) as [v Hv]; [lia |]. rewrite Hv. cbn [mbind outcome_bind].
  destruct (decide (field v = Some s)) as [E | Hne].
  - rewrite E, bool_decide_true by done. exists (Some i). split; [done |]. split; [lia |]. split; [eauto | intros j' v' Hj; lia].
  - destruct (IH (i + 1)) as (r & Er & Hr); [lia | lia |].
    assert (match field v with Some t => if bool_decide (t = s) then Val (Some i) else find_volume field s n (i + 1) vs | None => find_volume field s n (i + 1) vs end = Val r) as ->.
    { destruct (field v) as [t |]; [| done]. rewrite bool_decide_false by congruence. done. }
    exists r. split; [done |]. destruct r as [j |].
    + destruct Hr as (Hj & Hex & Hbefore). split; [lia |]. split; [done |]. intros j' v' Hj' Hv'.
      destruct (decide (j' = i)) as [-> |]; [congruence | by apply (Hbefore j' v'); [lia |]].
    + intros j v' Hj Hv'. destruct (decide (j = i)) as [-> |]; [congruence | by apply (Hr j v'); [lia |]].
Qed.

(** The array has its size, and the count stays in it. *)
Definition mounts_wf (g : MountsState) : Prop :=
  0 <= volume_count g /\ match volumes g with Some vs => zlen vs = 32 /\ volume_count g <= 32 | None => volume_count g = 0 end.

(** The state after a scan of the mounts [ks]. *)
Definition scanned (g : MountsState) (ks : list mount) : Prop :=
  volume_count g = zlen ks /\ exists vs, volumes g = Some vs /\ zlen vs = 32 /\ take (length ks) vs = volume_of <$> ks.

Definition table_fits (ks : list mount) : Prop := Forall mount_ok ks /\ zlen ks <= 32 /\ zlen (proc_mounts ks) <= 2047.

Lemma scan_mounted_volumes_ok g ks : mounts_wf g -> table_fits ks ->
  exists g', scan_mounted_volumes true (Some (proc_mounts ks)) g = Val (0, g') /\ mounts_wf g' /\ scanned g' ks.
Proof.
  intros [Hc Hg] (Hks & Hn & Hl). unfold scan_mounted_volumes.
  assert (exists vs, match volumes g with
    | None => Some (replicate numv no_volume)
    | Some vs => Some (((fun v => free_volume_internals v true) <$> take (Z.to_nat (volume_count g)) vs) ++ drop (Z.to_nat (volume_count g)) vs)
    end = Some vs /\ zlen vs = 32) as (vs & -> & Hvs).
  { destruct (volumes g) as [vs |]; eexists; (split; [done |]); [| done]. destruct Hg as [Hz _]. unfold zlen in *.
    rewrite length_app, length_fmap, length_take, length_drop. lia. }
  rewrite take_ge by (unfold zlen in Hl; lia).
  destruct (mount_lines_read ks (length (proc_mounts ks)) vs []) as (vs' & E & Hz & Ht); [done | done | change (zlen (@nil MountedVolume)) with 0; lia | done |].
  change (zlen (@nil MountedVolume)) with 0 in E. rewrite E. cbn [mbind outcome_bind app] in *. eexists. split; [done |].
  pose proof (zlen_nonneg ks). split; [split; simpl; [lia |]; split; [congruence | lia] |]. split; [simpl; lia |].
  exists vs'. split_and!; [done | congruence |]. by rewrite length_fmap in Ht.
Qed.

Lemma scanned_load g ks vs i : scanned g ks -> volumes g = Some vs -> 0 <= i < zlen ks ->
  exists k, ks !! Z.to_nat i = Some k /\ load vs i = Val (volume_of k).
Proof.
  intros (_ & vs' & E & Hz & Ht) E' Hi. rewrite E in E'. injection E' as ->. unfold zlen in Hi.
  destruct (lookup_lt_is_Some_2 ks (Z.to_nat i)) as [k Hk]; [lia |]. exists k. split; [done |]. apply load_Val. split; [lia |].
  assert ((volume_of <$> ks) !! Z.to_nat i = Some (volume_of k)) as Hv by (by rewrite list_lookup_fmap, Hk).
  rewrite <- Ht, lookup_take_lt in Hv by lia. done.
Qed.

(** The search by mount point agrees with the table. *)
Lemma find_by_point_ok g ks s : mounts_wf g -> scanned g ks ->
  exists r, find_mounted_volume_by_mount_point s g = Val r /\
    match r with
    | Some i => 0 <= i < zlen ks /\ exists k, ks !! Z.to_nat i = Some k /\ k_point k = s
    | None => s ∉ (k_point <$> ks)
    end.
Proof.
  intros Hg Hs. pose proof Hs as (Hc & vs & E & Hz & _). unfold find_mounted_volume_by_mount_point. rewrite E, Hc.
  destruct Hg as [_ Hg]. rewrite E in Hg. destruct Hg as [_ Hle]. rewrite Hc in Hle. pose proof (zlen_nonneg ks).
  destruct (find_volume_spec mount_point s vs (Z.to_nat (zlen ks)) 0) as (r & -> & Hr); [lia | lia |]. exists r. split; [done |].
  rewrite Z2Nat.id in Hr by lia. destruct r as [i |].
  - destruct Hr as (Hi & (v & Hv & Hp) & _). split; [lia |]. destruct (scanned_load g ks vs i Hs E) as (k & Hk & Hl); [lia |].
    exists k. split; [done |]. rewrite Hv in Hl. injection Hl as ->. by injection Hp.
  - intros (k & -> & Hk)%list_elem_of_fmap. apply list_elem_of_lookup in Hk as [i Hi]. pose proof (lookup_lt_Some _ _ _ Hi).
    destruct (scanned_load g ks vs (Z.of_nat i) Hs E) as (k' & Hk' & Hl); [unfold zlen; lia |]. rewrite Nat2Z.id in Hk'. simplify_eq.
    apply (Hr (Z.of_nat i) (volume_of k)); [unfold zlen; lia | done | done].
Qed.

(** More than 32 mounts are stored past the end of the array. *)
Example too_many_mounts :
  scan_mounted_volumes true (Some (proc_mounts (replicate 33 (mkMount [97] [98] [99] [100])))) g_mounts_state = Trap OutOfBounds.
Proof. vm_compute. reflexivity. Qed.

(** A table longer than the buffer is cut: a volume listed after that is not found. *)
Example long_table_is_cut : match scan_mounted_volumes true (Some (proc_mounts (replicate 20 (mkMount [97] (replicate 60 98) [99] (replicate 60 100)) ++
    [mkMount [97] (str "/data") [99] [100]]))) g_mounts_state with
  | Val (0, g) => find_mounted_volume_by_mount_point (str "/data") g
  | _ => Trap AssertFailed
  end = Val None.
Proof. vm_compute. reflexivity. Qed.
