(* ===== verification/Roots.v ===== *)
(** * Mounting, unmounting and formatting volumes (roots.cpp)

    The table of volumes comes from fs_mgr, a parameter; the kernel's mounts are part of
    the state and /proc/mounts is printed from them.  System calls fail when the
    environment says so. *)

From stdpp Require Import base numbers list sets.
From stdpp Require Import strings pretty.
From S2P Require Import Prelude CString Edify Sys Mtd MtdScan Mounts.

(** fs_mgr.h *)
Record Volume := mkVol { blk_device : block; v_point : block; fs_type : block; v_length : Z }.

(** The results of the calls, by tick: negative for a failure; the options that the
    kernel shows for a mount. *)
Record roots_env := mkRootsEnv { r_answer : nat -> Z; r_flags : nat -> block }.

Record roots := mkRoots {
  kernel : list mount;
  mounts_state : MountsState;
  flash_state : flash;
  r_tick : nat;
  formatted : list block
}.

Section Roots.
Context `{Arch} (M : flash_env) (E : roots_env).
(** The table of volumes, when it was loaded, and fs_mgr_get_entry_for_mount_point. *)
Variable fstab : option (list Volume).
Variable fs_mgr_get_entry_for_mount_point : option (list Volume) -> block -> option Volume.

Definition r_ask (w : roots) : Z * roots :=
  (r_answer E (r_tick w), mkRoots (kernel w) (mounts_state w) (flash_state w) (S (r_tick w)) (formatted w)).
Definition set_kernel (ks : list mount) (w : roots) : roots := mkRoots ks (mounts_state w) (flash_state w) (r_tick w) (formatted w).
Definition set_mounts (g : MountsState) (w : roots) : roots := mkRoots (kernel w) g (flash_state w) (r_tick w) (formatted w).
Definition set_flash (f : flash) (w : roots) : roots := mkRoots (kernel w) (mounts_state w) f (r_tick w) (formatted w).
Definition set_formatted (p : block) (w : roots) : roots := mkRoots (kernel w) (mounts_state w) (flash_state w) (r_tick w) (formatted w ++ [p]).

(** The kernel: mount adds a line, umount removes the last one with the mount point. *)
Definition sys_mount (dev point fs : block) (w : roots) : Z * roots :=
  let flags := r_flags E (r_tick w) in
  let '(a, w) := r_ask w in
  if a <? 0 then (-1, w) else (0, set_kernel (kernel w ++ [mkMount dev point fs flags]) w).
Fixpoint remove_first (point : block) (ks : list mount) : list mount :=
  match ks with [] => [] | k :: ks => if bool_decide (k_point k = point) then ks else k :: remove_first point ks end.
Definition sys_umount (point : option block) (w : roots) : Z * roots :=
  let '(a, w) := r_ask w in
  match point with
  | Some p => if (a <? 0) || negb (bool_decide (p ∈ k_point <$> kernel w)) then (-1, w)
              else (0, set_kernel (reverse (remove_first p (reverse (kernel w)))) w)
  | None => (-1, w)
  end.

Definition scan (w : roots) : outcome (Z * roots) :=
  let '(a, w) := r_ask w in
  let '(b, w) := r_ask w in
  let* (r, g) := scan_mounted_volumes (0 <=? a) (if b <? 0 then None else Some (proc_mounts (kernel w))) (mounts_state w) in
  Val (r, set_mounts g w).

Definition volume_for_path (path : block) : option Volume := fs_mgr_get_entry_for_mount_point fstab path.

(** mtd_mount_partition mounts, read-only when it cannot mount otherwise. *)
Definition mount_mtd (p : MtdPartition) (v : Volume) (w : roots) : Z * roots :=
  let fl := flash_state w in
  let ok := (0 <=? m_answer M (m_tick fl)) || (0 <=? m_answer M (S (m_tick fl))) in
  let '(rv, _, fl') := mtd_mount_partition M p (v_point v) (fs_type v) false fl in
  let dev := str "/dev/block/mtdblock" ++ str (pretty (device_index p)) in
  let flags := r_flags E (r_tick w) in
  let '(_, w) := r_ask w in
  let w := set_flash fl' w in
  (rv, if ok then set_kernel (kernel w ++ [mkMount dev (v_point v) (fs_type v) flags]) w else w).

Definition ensure_path_mounted (path : block) (w : roots) : outcome (Z * roots) :=
  match volume_for_path path with
  | None => Val (-1, w)
  | Some v =>
      if bool_decide (fs_type v = str "ramdisk") then Val (0, w) else
      let* (result, w) := scan w in
      if result <? 0 then Val (-1, w) else
      let* mv := find_mounted_volume_by_mount_point (v_point v) (mounts_state w) in
      match mv with
      | Some _ => Val (0, w)
      | None =>
          let '(_, w) := r_ask w in  (** mkdir *)
          if bool_decide (fs_type v = str "yaffs2") then
            let* (_, fl) := mtd_scan_partitions M (flash_state w) in
            let w := set_flash fl w in
            match mtd_find_partition_by_name fl (blk_device v) with
            | None => Val (-1, w)
            | Some p => Val (mount_mtd p v w)
            end
          else if bool_decide (fs_type v = str "ext4") || bool_decide (fs_type v = str "vfat") then
            let '(r, w) := sys_mount (blk_device v) (v_point v) (fs_type v) w in
            Val (if r =? 0 then 0 else -1, w)
          else Val (-1, w)
      end
  end.

Definition ensure_path_unmounted (path : block) (w : roots) : outcome (Z * roots) :=
  match volume_for_path path with
  | None => Val (-1, w)
  | Some v =>
      if bool_decide (fs_type v = str "ramdisk") then Val (-1, w) else
      let* (result, w) := scan w in
      if result <? 0 then Val (-1, w) else
      let* mv := find_mounted_volume_by_mount_point (v_point v) (mounts_state w) in
      match mv with
      | None => Val (0, w)
      | Some i =>  (** the volume found has this mount point *)
          let* (ret, g) := unmount_mounted_volume (fun p => (sys_umount p w).1) i (mounts_state w) in
          Val (ret, set_mounts g (sys_umount (Some (v_point v)) w).2)
      end
  end.

(** [mtd_erase_blocks] of everything from the start. *)
Definition erase_mtd (v : Volume) (w : roots) : outcome (Z * roots) :=
  let* (_, fl) := mtd_scan_partitions M (flash_state w) in
  let w := set_flash fl w in
  match mtd_find_partition_by_name fl (blk_device v) with
  | None => Val (-1, w)
  | Some p =>
      let '(write, fl) := mtd_write_partition M p fl in
      match write with
      | None => Val (-1, set_flash fl w)
      | Some write =>
          let* (r, write, fl) := mtd_erase_blocks M write (-1) fl in
          if r =? -1 then let* (_, fl) := mtd_write_close M write fl in Val (-1, set_flash fl w) else
          let* (r, fl) := mtd_write_close M write fl in
          if negb (r =? 0) then Val (-1, set_flash fl w) else Val (0, set_formatted (v_point v) (set_flash fl w))
      end
  end.

Definition format_volume (volume : block) (w : roots) : outcome (Z * roots) :=
  match volume_for_path volume with
  | None => Val (-1, w)
  | Some v =>
      if bool_decide (fs_type v = str "ramdisk") then Val (-1, w) else
      if negb (bool_decide (v_point v = volume)) then Val (-1, w) else
      let* (r, w) := ensure_path_unmounted volume w in
      if negb (r =? 0) then Val (-1, w) else
      if bool_decide (fs_type v = str "yaffs2") || bool_decide (fs_type v = str "mtd") then erase_mtd v w else
      if bool_decide (fs_type v = str "ext4") then
        let '(result, w) := r_ask w in  (** make_ext4fs *)
        if negb (result =? 0) then Val (-1, w) else Val (0, set_formatted (v_point v) w)
      else Val (-1, w)
  end.

Fixpoint setup_loop (vs : list Volume) (w : roots) : outcome (Z * roots) :=
  match vs with
  | [] => Val (0, w)
  | v :: vs =>
      let* (r, w) := if bool_decide (v_point v = str "/tmp") || bool_decide (v_point v = str "/cache")
                     then ensure_path_mounted (v_point v) w else ensure_path_unmounted (v_point v) w in
      if negb (r =? 0) then Val (-1, w) else setup_loop vs w
  end.

Definition setup_install_mounts (w : roots) : outcome (Z * roots) :=
  match fstab with None => Val (-1, w) | Some vs => setup_loop vs w end.
End Roots.

(** ** The volumes during an installation *)

Section Setup.
Context `{A : Arch} (M : flash_env) (E : roots_env).
Variable vs : list Volume.
Variable entry_for : option (list Volume) -> block -> option Volume.
(** A mount point of the table has its own entry. *)
Hypothesis Hentry : forall v, v ∈ vs -> entry_for (Some vs) (v_point v) = Some v.
Hypothesis Hpoints : NoDup (v_point <$> vs).
(** No volume is on raw flash. *)
Hypothesis Hfs : forall v, v ∈ vs -> fs_type v <> str "yaffs2".

(** A mount that can be there: one of [ks0], or of a volume of the table. *)
Variable ks0 : list mount.
Definition possible (k : mount) : Prop :=
  k ∈ ks0 \/ exists v t, v ∈ vs /\ k = mkMount (blk_device v) (v_point v) (fs_type v) (r_flags E t).
Hypothesis Hfits : forall ks, (forall k, k ∈ ks -> possible k) -> NoDup (k_point <$> ks) -> table_fits ks.

Definition mounted (p : block) (w : roots) : Prop := p ∈ k_point <$> kernel w.

Record roots_wf (w : roots) : Prop := {
  rw_mounts : mounts_wf (mounts_state w);
  rw_points : NoDup (k_point <$> kernel w);
  rw_possible k : k ∈ kernel w -> possible k
}.

(** Every other mount point stays as it is. *)
Definition only (p : block) (w w' : roots) : Prop := forall q, q <> p -> mounted q w' <-> mounted q w.

Lemma scan_ok w : roots_wf w -> exists r w', scan E w = Val (r, w') /\ roots_wf w' /\ kernel w' = kernel w /\
  (r <? 0 = false -> scanned (mounts_state w') (kernel w)).
Proof.
  intros [Hm Hp Hk]. unfold scan, r_ask. cbn [kernel mounts_state r_tick].
  destruct (scan_mounted_volumes_ok (mounts_state w) (kernel w) Hm (Hfits _ Hk Hp)) as (g & Eg & Hg & Hs).
  destruct (Z.leb_spec 0 (r_answer E (r_tick w))) as [Ha | Ha].
  - destruct (r_answer E (S (r_tick w)) <? 0).
    + assert (exists g', scan_mounted_volumes true None (mounts_state w) = Val (-1, g') /\ mounts_wf g') as (g' & -> & Hg').
      { unfold scan_mounted_volumes. destruct Hm as [Hc Hm]. destruct (volumes (mounts_state w)) as [l |]; eexists; (split; [done |]).
        - split; [simpl; lia |]. simpl. destruct Hm as [Hz _]. unfold zlen in *. rewrite length_app, length_fmap, length_take, length_drop. lia.
        - by split. }
      cbn [mbind outcome_bind]. eexists _, _. split; [done |]. split; [by split | done].
    + rewrite Eg. cbn [mbind outcome_bind]. eexists _, _. split; [done |]. split; [by split | done].
  - destruct (volumes (mounts_state w)) as [l |] eqn:El.
    + assert (forall p, scan_mounted_volumes false p (mounts_state w) = scan_mounted_volumes true p (mounts_state w)) as Heq.
      { intros p. unfold scan_mounted_volumes. by rewrite El. }
      rewrite Heq. destruct (r_answer E (S (r_tick w)) <? 0).
      * unfold scan_mounted_volumes. rewrite El. cbn [mbind outcome_bind]. eexists _, _. split; [done |]. split; [| done]. split; try done.
        destruct Hm as [Hc Hm]. rewrite El in Hm. split; [simpl; lia |]. simpl. destruct Hm as [Hz _]. unfold zlen in *.
        rewrite length_app, length_fmap, length_take, length_drop. lia.
      * rewrite Eg. cbn [mbind outcome_bind]. eexists _, _. split; [done |]. split; [by split | done].
    + unfold scan_mounted_volumes. rewrite El. cbn [mbind outcome_bind]. eexists _, _. split; [done |]. split; [by split | done].
Qed.

Lemma ensure_path_mounted_ok w v : roots_wf w -> v ∈ vs ->
  exists r w', ensure_path_mounted M E (Some vs) entry_for (v_point v) w = Val (r, w') /\ roots_wf w' /\ only (v_point v) w w' /\
    (r = 0 -> fs_type v = str "ramdisk" \/ mounted (v_point v) w').
Proof.
  intros Hw Hv. unfold ensure_path_mounted, volume_for_path. rewrite (Hentry v Hv). case_bool_decide as Hram; [exists 0, w; split_and!; auto; done |].
  destruct (scan_ok w Hw) as (r & w1 & -> & Hw1 & Ek & Hs). cbn [mbind outcome_bind].
  assert (only (v_point v) w w1) as Ho by (intros q _; unfold mounted; by rewrite Ek).
  destruct (r <? 0) eqn:Er; [by exists (-1), w1 |]. specialize (Hs eq_refl).
  destruct (find_by_point_ok (mounts_state w1) (kernel w) (v_point v) (rw_mounts _ Hw1) Hs) as (mv & -> & Hmv). cbn [mbind outcome_bind].
  destruct mv as [i |].
  { destruct Hmv as (_ & k & Hk & Hp). exists 0, w1. split_and!; try done. intros _. right. unfold mounted. rewrite Ek.
    apply list_elem_of_fmap. exists k. split; [done |]. by eapply list_elem_of_lookup_2. }
  unfold r_ask at 1. rewrite (bool_decide_false (fs_type v = str "yaffs2")) by auto. set (w2 := mkRoots _ _ _ _ _).
  assert (roots_wf w2) as Hw2 by (destruct Hw1; by split). assert (only (v_point v) w w2) as Ho2 by done.
  destruct (_ || _); [| by exists (-1), w2]. unfold sys_mount, r_ask. destruct (r_answer E (r_tick w2) <? 0); [eexists _, _; split; [done |]; split; [destruct Hw2; by split | done] |].
  eexists _, _. split; [done |]. split; [split |].
  - apply Hw2.
  - cbn [kernel set_kernel w2]. rewrite fmap_app. apply NoDup_app. split_and!; [apply Hw1 | | apply NoDup_singleton].
    intros q Hq ->%list_elem_of_singleton. cbn [k_point] in Hq. rewrite Ek in Hq. done.
  - cbn [kernel set_kernel w2]. intros k [Hk | ->%list_elem_of_singleton]%elem_of_app; [by apply Hw1 |]. right. eauto.
  - split.
    + intros q Hq. unfold mounted. cbn [kernel set_kernel w2]. rewrite fmap_app, elem_of_app, Ek. cbn [fmap list_fmap k_point].
      rewrite list_elem_of_singleton. naive_solver.
    + intros _. right. unfold mounted. cbn [kernel set_kernel w2]. rewrite fmap_app, elem_of_app. right. by left.
Qed.
Lemma remove_first_spec p ks : NoDup (k_point <$> ks) ->
  NoDup (k_point <$> remove_first p ks) /\ forall k, k ∈ remove_first p ks <-> k ∈ ks /\ k_point k <> p.
Proof.
  induction ks as [| k ks IH]; [intros _; split; [constructor |]; set_solver |]. rewrite fmap_cons. intros [Hk Hks]%NoDup_cons. specialize (IH Hks) as [IH1 IH2].
  cbn [remove_first]. case_bool_decide as Hp.
  - split; [done |]. intros k'. rewrite elem_of_cons. split; [| naive_solver]. intros Hk'. split; [by right |]. intros Hp'. apply Hk.
    rewrite Hp, <- Hp'. by apply list_elem_of_fmap_2.
  - rewrite fmap_cons. split.
    + apply NoDup_cons. split; [| done]. intros (k' & E' & Hk')%list_elem_of_fmap. apply Hk. rewrite E'. apply IH2 in Hk' as [Hk' _]. by apply list_elem_of_fmap_2.
    + intros k'. rewrite !elem_of_cons, IH2. naive_solver.
Qed.

Lemma umount_kernel p ks : NoDup (k_point <$> ks) -> let ks' := reverse (remove_first p (reverse ks)) in
  NoDup (k_point <$> ks') /\ forall k, k ∈ ks' <-> k ∈ ks /\ k_point k <> p.
Proof.
  intros Hks. destruct (remove_first_spec p (reverse ks)) as [H1 H2]; [by rewrite fmap_reverse, reverse_Permutation |]. cbn zeta. split.
  - by rewrite fmap_reverse, reverse_Permutation.
  - intros k. by rewrite elem_of_reverse, H2, elem_of_reverse.
Qed.

Lemma ensure_path_unmounted_ok w v : roots_wf w -> v ∈ vs ->
  exists r w', ensure_path_unmounted E (Some vs) entry_for (v_point v) w = Val (r, w') /\ roots_wf w' /\ only (v_point v) w w' /\
    (r = 0 -> ~ mounted (v_point v) w').
Proof.
  intros Hw Hv. unfold ensure_path_unmounted, volume_for_path. rewrite (Hentry v Hv). case_bool_decide as Hram; [by exists (-1), w |].
  destruct (scan_ok w Hw) as (r & w1 & -> & Hw1 & Ek & Hs). cbn [mbind outcome_bind].
  assert (only (v_point v) w w1) as Ho by (intros q _; unfold mounted; by rewrite Ek).
  destruct (r <? 0) eqn:Er; [by exists (-1), w1 |]. specialize (Hs eq_refl).
  destruct (find_by_point_ok (mounts_state w1) (kernel w) (v_point v) (rw_mounts _ Hw1) Hs) as (mv & -> & Hmv). cbn [mbind outcome_bind].
  destruct mv as [i |]; [| exists 0, w1; split_and!; try done; intros _; unfold mounted; by rewrite Ek].
  destruct Hmv as (Hi & k & Hk & Hp). pose proof Hs as (_ & l & El & Hz & _). pose proof (rw_mounts _ Hw1) as [Hc Hm]. rewrite El in Hm.
  destruct (scanned_load _ _ _ _ Hs El Hi) as (k' & Hk' & Hl). simplify_eq. unfold unmount_mounted_volume. rewrite El, Hl.
  cbn [mbind outcome_bind volume_of mount_point]. rewrite Hp. unfold sys_umount, r_ask. cbn [kernel].
  destruct (umount_kernel (v_point v) (kernel w1) (rw_points _ Hw1)) as [Hnd Hin].
  destruct ((_ || _)) eqn:Eo; cbn [fst snd].
  - change (-1 =? 0) with false. cbn [mbind outcome_bind]. eexists _, _. split; [done |]. split; [| done].
    destruct Hw1 as [? ? ?]. by split.
  - change (0 =? 0) with true. assert (zlen (kernel w) <= zlen l) as Hzl by (destruct Hs as (E1 & _); lia).
    assert (0 <= i < zlen l) as Hr by lia. unfold free_volume_internals.
    rewrite (proj2 (store_Val l _ i no_volume) (conj Hr eq_refl)). cbn [mbind outcome_bind]. eexists _, _. split; [done |].
    assert (forall q, q ∈ k_point <$> reverse (remove_first (v_point v) (reverse (kernel w1))) <-> q ∈ k_point <$> kernel w1 /\ q <> v_point v) as Hq.
    { intros q. rewrite !list_elem_of_fmap. setoid_rewrite Hin. naive_solver. }
    split; [split |].
    + split; [done |]. cbn [set_mounts mounts_state volumes volume_count]. by rewrite zlen_insert.
    + done.
    + intros k'. cbn [kernel set_mounts set_kernel]. rewrite Hin. intros [? _]. by apply Hw1.
    + unfold only, mounted. cbn [kernel set_mounts set_kernel]. setoid_rewrite Hq. rewrite <- Ek. naive_solver.
Qed.

(** What [setup_loop] promises of a volume. *)
Definition placed (w : roots) (v : Volume) : Prop :=
  if bool_decide (v_point v = str "/tmp") || bool_decide (v_point v = str "/cache")
  then fs_type v = str "ramdisk" \/ mounted (v_point v) w else ~ mounted (v_point v) w.

Lemma placed_only w w' u v : only (v_point v) w w' -> v_point u <> v_point v -> placed w u -> placed w' u.
Proof. intros Ho Hne. unfold placed. specialize (Ho _ Hne). destruct (_ || _); tauto. Qed.

Lemma setup_loop_ok rest : forall pre w, vs = pre ++ rest -> roots_wf w -> (forall v, v ∈ pre -> placed w v) ->
  exists r w', setup_loop M E (Some vs) entry_for rest w = Val (r, w') /\ roots_wf w' /\ (r = 0 \/ r = -1) /\ (r = 0 -> forall v, v ∈ vs -> placed w' v).
Proof.
  induction rest as [| v rest IH]; intros pre w Ev Hw Hpre; cbn [setup_loop].
  { exists 0, w. rewrite app_nil_r in Ev. rewrite Ev. split_and!; auto. }
  assert (v ∈ vs) as Hv by (rewrite Ev; set_solver).
  assert (exists r w', (if bool_decide (v_point v = str "/tmp") || bool_decide (v_point v = str "/cache")
      then ensure_path_mounted M E (Some vs) entry_for (v_point v) w else ensure_path_unmounted E (Some vs) entry_for (v_point v) w) = Val (r, w') /\
      roots_wf w' /\ only (v_point v) w w' /\ (r = 0 -> placed w' v)) as (r & w1 & -> & Hw1 & Ho & Hpl).
  { unfold placed. destruct (_ || _); [by apply ensure_path_mounted_ok | by apply ensure_path_unmounted_ok]. }
  cbn [mbind outcome_bind]. destruct (Z.eqb_spec r 0) as [Hr | Hr]; cbn [negb]; [| exists (-1), w1; split_and!; auto; done].
  apply (IH (pre ++ [v])); [by rewrite <- app_assoc | done |]. intros u [Hu | ->%list_elem_of_singleton]%elem_of_app; [| auto].
  apply (placed_only w w1 u v Ho); [| by apply Hpre]. rewrite Ev, fmap_app, fmap_cons in Hpoints. apply NoDup_app in Hpoints as (_ & Hd & _).
  intros Heq. apply (Hd (v_point u)); [by apply list_elem_of_fmap_2 | rewrite Heq; by left].
Qed.

(** [setup_install_mounts] always returns, and returns 0 only when every volume is where
    the installation needs it: the volumes at /tmp and /cache are mounted (or are the
    ramdisk) and no other volume of the table is mounted, whatever was mounted before. *)
Theorem setup_install_mounts_correct w : roots_wf w ->
  exists r w', setup_install_mounts M E (Some vs) entry_for w = Val (r, w') /\ roots_wf w' /\
    (r = 0 \/ r = -1) /\ (r = 0 -> forall v, v ∈ vs -> placed w' v).
Proof. intros Hw. apply (setup_loop_ok vs []); [done | done |]. intros v Hv. by apply elem_of_nil in Hv. Qed.
End Setup.


(** A number of distinct mounts with short lines fits. *)
Lemma few_mounts_fit (cands ks : list mount) : Forall mount_ok cands -> (forall k, k ∈ ks -> k ∈ cands) -> NoDup (k_point <$> ks) ->
  zlen cands <= 32 -> zlen (proc_mounts cands) <= 2047 -> table_fits ks.
Proof.
  intros Hok Hin Hnd Hn Hl. apply NoDup_fmap_1 in Hnd.
  assert (ks ⊆+ cands) as Hsub by (apply NoDup_submseteq; [done |]; intros k; auto).
  split; [| split].
  - apply Forall_forall. intros k Hk. rewrite Forall_forall in Hok. auto.
  - apply submseteq_length in Hsub. unfold zlen in *. lia.
  - apply (fmap_submseteq print_mount) in Hsub. apply submseteq_Permutation in Hsub as [l Hp].
    assert (length (proc_mounts cands) = length (proc_mounts ks) + length (concat l))%nat as Hlen.
    { unfold proc_mounts. rewrite <- length_app, <- concat_app. generalize (print_mount <$> cands) ((print_mount <$> ks) ++ l) Hp.
      intros a b Hab. clear -Hab. induction Hab; simpl; rewrite ?length_app; lia. }
    unfold zlen in *. lia.
Qed.

(** A table of three volumes, with /data mounted at first and every call successful. *)
Definition demo_fstab : list Volume :=
  [mkVol (str "/dev/mmc2") (str "/data") (str "ext4") 0; mkVol (str "/dev/mmc3") (str "/cache") (str "ext4") 0;
   mkVol (str "ramdisk") (str "/tmp") (str "ramdisk") 0].
Definition demo_entry (t : option (list Volume)) (p : block) : option Volume :=
  match t with Some vs => snd <$> list_find (fun v => v_point v = p) vs | None => None end.
Definition demo_roots_env : roots_env := mkRootsEnv (fun _ => 0) (fun _ => str "rw").
Definition demo_mounted : list mount := [mkMount (str "/dev/mmc2") (str "/data") (str "ext4") (str "rw")].
Definition demo_roots : roots := mkRoots demo_mounted g_mounts_state blank_flash 0 [].

Lemma setup_install_mounts_witness : exists r w',
  setup_install_mounts (H := ILP32) (demo_table_env []) demo_roots_env (Some demo_fstab) demo_entry demo_roots = Val (r, w') /\ r = 0 /\
  forall v, v ∈ demo_fstab -> placed w' v.
Proof.
  destruct (setup_install_mounts_correct (A := ILP32) (demo_table_env []) demo_roots_env demo_fstab demo_entry) with (ks0 := demo_mounted) (w := demo_roots)
    as (r & w' & E & _ & _ & Hr).
  - intros v Hv. repeat (apply elem_of_cons in Hv as [-> | Hv]; [reflexivity |]). by apply elem_of_nil in Hv.
  - apply (bool_decide_unpack _). vm_compute. exact I.
  - apply Forall_forall, (bool_decide_unpack _). vm_compute. exact I.
  - intros ks Hks Hnd. apply (few_mounts_fit ((fun v => mkMount (blk_device v) (v_point v) (fs_type v) (str "rw")) <$> demo_fstab)); try done.
    + vm_compute. repeat constructor; done.
    + intros k Hk. destruct (Hks k Hk) as [Hk' | (v & t & Hv & ->)].
      * apply list_elem_of_singleton in Hk' as ->. by left.
      * by apply (list_elem_of_fmap_2 (fun v => mkMount (blk_device v) (v_point v) (fs_type v) (str "rw"))).
  - split; [done | apply NoDup_singleton |]. intros k Hk. by left.
  - exists r, w'. split; [done |]. vm_compute in E. injection E as <- _. auto.
Defined.
