(* ===== verification/Updater.v ===== *)
(** * The functions of an update script (updater/install.c)

    The updater extends edify with the functions below; [state->cookie] points to the
    [UpdaterInfo] and, in this model, to everything the functions act on: the system of
    Sys.v with the flash driver behind [mtd_api], the kernel's mounts, the pipe to the
    recovery program, and a log of the other system calls with their results.  A call
    takes one tick of the environment; a negative answer is a failure with that errno.
    What goes to the standard output is not kept. *)

From stdpp Require Import base numbers list gmap.
From stdpp Require Import strings pretty.
From S2P Require Import Prelude CString CTokens Bits Hash Zip ZipExtract Edify Bspatch ImgPatch Retouch Sys FreeCache DirUtil ApplyPatch Mtd Mounts.

(** ** Data *)

Definition ENOENT : Z := 2.
Definition EEXIST : Z := 17.
Definition ENODATA : Z := 61.
Definition ENOTSUP : Z := 95.

Definition is_newline (c : Z) : bool := c =? 10.

(** The calls that do not act on the contents of files. *)
Inductive call_op :=
| CallMkdir (p : path) (mode : Z)
| CallRmdir (p : path)
| CallUnlink (p : path)
| CallRename (p q : path)
| CallSymlink (target p : path)
| CallUtime (p : path)
| CallChown (p : path) (uid gid : Z)
| CallChmod (p : path) (mode : Z)
| CallSetfilecon (p : path) (con : block)
| CallRemovexattr (p : path)
| CallSetxattr (p : path) (value : block)
| CallSetfscreatecon (con : option block)
| CallMakeExt4 (p : path) (len : Z) (mount_point : block)
| CallExtract (op : fs_op)
| CallRun (args : list block).

#[global] Instance fs_op_eq_dec : EqDecision fs_op.
Proof. solve_decision. Defined.
#[global] Instance Value_eq_dec : EqDecision Value.
Proof. solve_decision. Defined.
#[global] Instance call_op_eq_dec : EqDecision call_op.
Proof. solve_decision. Defined.

(** What surrounds the updater: the system's answers, the libraries of applypatch and
    minzip, and, by tick, the text of strerror, the label of a path, the mode lstat gives,
    what nftw visits and the status of a child.  [ue_float]: the text [%f] prints for the
    number that strtod reads. *)
Record updater_env := mkUpdaterEnv {
  ue_sys : env;
  ue_flags : nat -> block;
  ue_strerror : nat -> block;
  ue_label : nat -> option block;
  ue_mode : nat -> Z;
  ue_nftw : nat -> option (list (path * Z));
  ue_status : nat -> option Z;
  ue_uninit_status : Z;
  ue_sehandle : bool;
  ue_USE_EXT4 : bool;
  ue_umask : Z;
  ue_mode_bits : Z;
  ue_float : block -> block;
  ue_property : block -> block;
  ue_malloc : Z -> option block;
  ue_realloc : option block -> Z -> option block;
  ue_calloc : Z -> bool;
  ue_package : block;
  ue_read : Z -> Z -> Z;
  ue_zlib : ZipExtract.zlib;
  ue_writes : nat -> list (Z * Z);
  ue_fuel : nat;
  ue_bzlib : bzlib;
  ue_rounds : nat;
  ue_inflate : ImgPatch.zlib;
  ue_sha1 : block -> block;
  ue_uninit : FileContents
}.

Section Updater.
Context `{Arch} `{mtd_api} (U : updater_env).

(** updater.h, with the rest of the state; [max_warnings] is static in [ParsePermArgs]. *)
Record updater := mkUpdater {
  cmd_pipe : block;
  package_zip : ZipArchive;
  version : Z;
  u_sys : sys;
  u_kernel : list mount;
  u_mounts : MountsState;
  u_calls : list (call_op * Z);
  max_warnings : Z
}.

Definition set_pipe (b : block) (w : updater) : updater :=
  mkUpdater b (package_zip w) (version w) (u_sys w) (u_kernel w) (u_mounts w) (u_calls w) (max_warnings w).
Definition set_sys (s : sys) (w : updater) : updater :=
  mkUpdater (cmd_pipe w) (package_zip w) (version w) s (u_kernel w) (u_mounts w) (u_calls w) (max_warnings w).
Definition set_ukernel (ks : list mount) (w : updater) : updater :=
  mkUpdater (cmd_pipe w) (package_zip w) (version w) (u_sys w) ks (u_mounts w) (u_calls w) (max_warnings w).
Definition set_umounts (g : MountsState) (w : updater) : updater :=
  mkUpdater (cmd_pipe w) (package_zip w) (version w) (u_sys w) (u_kernel w) g (u_calls w) (max_warnings w).
Definition set_calls (c : list (call_op * Z)) (w : updater) : updater :=
  mkUpdater (cmd_pipe w) (package_zip w) (version w) (u_sys w) (u_kernel w) (u_mounts w) c (max_warnings w).
Definition set_warnings (n : Z) (w : updater) : updater :=
  mkUpdater (cmd_pipe w) (package_zip w) (version w) (u_sys w) (u_kernel w) (u_mounts w) (u_calls w) n.

Abbreviation St := (State updater).
Abbreviation fn_result := (outcome (option Value * St)).

Definition set_cookie (w : updater) (st : St) : St := mkState w (script st) (errmsg st) (io_done st).

(** *** System calls *)

Definition u_tick (w : updater) : nat := tick (u_sys w).
Definition u_answer (w : updater) : Z * updater :=
  let '(a, s) := answer (ue_sys U) (u_sys w) in (a, set_sys s w).
(** The call is logged with its answer; a negative one stands for -1 and errno. *)
Definition u_call (c : call_op) (w : updater) : Z * updater :=
  let '(a, w) := u_answer w in (a, set_calls (u_calls w ++ [(c, a)]) w).
Definition fprintf_pipe (text : block) (w : updater) : updater := set_pipe (cmd_pipe w ++ text) w.

(** Lift what applypatch.c does to the system. *)
Definition on_sys {A} (m : sys -> outcome (A * sys)) (w : updater) : outcome (A * updater) :=
  let* (r, s) := m (u_sys w) in Val (r, set_sys s w).

(** unlink of a file, or of something else (a link) that is there when the answer is 0. *)
Definition u_unlink (p : path) (w : updater) : Z * updater :=
  let '(a, w) := u_call (CallUnlink p) w in
  if a <? 0 then (a, w) else
  match files (u_sys w) !! p with
  | Some _ => (0, set_sys (set_files (delete p (files (u_sys w))) (u_sys w)) w)
  | None => (if a =? 0 then 0 else - ENOENT, w)
  end.
Definition u_rename (p q : path) (w : updater) : Z * updater :=
  let '(a, w) := u_call (CallRename p q) w in
  if a <? 0 then (a, w) else
  match files (u_sys w) !! p with
  | Some f => (0, set_sys (set_files (<[q := f]> (delete p (files (u_sys w)))) (u_sys w)) w)
  | None => (if a =? 0 then 0 else - ENOENT, w)
  end.
(** A change of the inode, when the path is a file of ours. *)
Definition u_change (c : call_op) (p : path) (f : inode -> inode) (w : updater) : Z * updater :=
  let '(a, w) := u_call c w in
  if a <? 0 then (a, w)
  else (0, match files (u_sys w) !! p with
           | Some i => set_sys (set_files (<[p := f i]> (files (u_sys w))) (u_sys w)) w
           | None => w
           end).
Definition no_id : Z := u32 (-1).
Definition u_chmod (p : path) (mode : Z) : updater -> Z * updater :=
  u_change (CallChmod p mode) p (fun i => mkFile (f_data i) mode (f_uid i) (f_gid i)).
Definition u_chown (p : path) (uid gid : Z) : updater -> Z * updater :=
  u_change (CallChown p uid gid) p (fun i =>
    mkFile (f_data i) (f_mode i) (if uid =? no_id then f_uid i else uid) (if gid =? no_id then f_gid i else gid)).

(** fopen for writing: the file is created or emptied; what is written to it. *)
Definition u_create (p : path) (w : updater) : bool * updater :=
  let '(a, w) := u_answer w in
  if a <? 0 then (false, w)
  else
    let s := u_sys w in
    (true, set_sys (set_files (<[p := match files s !! p with
                                      | Some f => mkFile [] (f_mode f) (f_uid f) (f_gid f)
                                      | None => mkFile [] (Z.land 438 (Z.lnot (ue_umask U))) 0 0
                                      end]> (files s)) s) w).
Definition u_fill (p : path) (data : block) (w : updater) : updater :=
  let s := u_sys w in
  match files s !! p with
  | Some f => set_sys (set_files (<[p := mkFile (f_data f ++ data) (f_mode f) (f_uid f) (f_gid f)]> (files s)) s) w
  | None => w
  end.

(** mount(2), umount(2) and the scan of /proc/mounts. *)
Definition u_mount (dev point fs : block) (w : updater) : Z * updater :=
  let flags := ue_flags U (u_tick w) in
  let '(a, w) := u_answer w in
  if a <? 0 then (-1, w) else (0, set_ukernel (u_kernel w ++ [mkMount dev point fs flags]) w).
Fixpoint drop_mount (point : block) (ks : list mount) : list mount :=
  match ks with [] => [] | k :: ks => if bool_decide (k_point k = point) then ks else k :: drop_mount point ks end.
Definition u_umount (point : option block) (w : updater) : Z * updater :=
  let '(a, w) := u_answer w in
  match point with
  | Some p => if (a <? 0) || negb (bool_decide (p ∈ k_point <$> u_kernel w)) then (-1, w)
              else (0, set_ukernel (reverse (drop_mount p (reverse (u_kernel w)))) w)
  | None => (-1, w)
  end.
Definition u_scan_mounts (w : updater) : outcome (Z * updater) :=
  let '(a, w) := u_answer w in
  let '(b, w) := u_answer w in
  let* (r, g) := scan_mounted_volumes (0 <=? a) (if b <? 0 then None else Some (proc_mounts (u_kernel w))) (u_mounts w) in
  Val (r, set_umounts g w).

(** The flash driver. *)
Definition u_scan_mtd (w : updater) : outcome updater :=
  let* (_, m) := Sys.mtd_scan_partitions (mtd (u_sys w)) in Val (set_sys (set_mtd m (u_sys w)) w).
Definition u_mtd (m : mtd_state) (w : updater) : updater := set_sys (set_mtd m (u_sys w)) w.

(** The interface of DirUtil.c: a path that is not a file of ours is a directory when the
    answer is 0, something else when it is 1. *)
#[global] Instance updater_dirs : dir_api updater := {|
  d_stat p w := let '(a, w) := u_answer w in
    (if a <? 0 then (if a =? - ENOENT then NoEntry else StatError)
     else match files (u_sys w) !! p with
          | Some _ => NotDir
          | None => if a =? 0 then IsDir else if a =? 1 then NotDir else NoEntry
          end, w);
  d_lstat p w := let '(a, w) := u_answer w in
    (if a <? 0 then (if a =? - ENOENT then NoEntry else StatError)
     else match files (u_sys w) !! p with
          | Some _ => NotDir
          | None => if a =? 0 then IsDir else if a =? 1 then NotDir else NoEntry
          end, w);
  d_unlink p w := let '(r, w) := u_unlink p w in (if r <? 0 then -1 else 0, w);
  d_rmdir p w := let '(r, w) := u_call (CallRmdir p) w in (if r <? 0 then -1 else 0, w);
  d_mkdir p mode w := let '(r, w) := u_call (CallMkdir p mode) w in (if r <? 0 then -1 else 0, w);
  d_utime p w := let '(r, w) := u_call (CallUtime p) w in (if r <? 0 then -1 else 0, w);
  d_opendir p w := let '(l, s) := sys_listing (ue_sys U) (u_sys w) in (l, set_sys s w);
  d_closedir w := let '(a, w) := u_answer w in (if a <? 0 then -1 else 0, w);
  d_selabel p mode w := (ue_label U (u_tick w), (u_answer w).2);
  d_setfscreatecon con w := (u_call (CallSetfscreatecon con) w).2;
  d_malloc n w := (ue_malloc U n, w)
|}.

(** *** Messages *)

Definition num (z : Z) : block := str (pretty z).
Definition expects (name : block) (what : string) (argc : Z) : block := name ++ str "() expects " ++ str what ++ str ", got " ++ num argc.
Definition u_strerror (w : updater) : block := ue_strerror U (u_tick w).

Definition string_result (s : block) (st : St) : fn_result := Val (StringValue (Some s), st).
Definition null_result (st : St) : fn_result := Val (None, st).

(** An argument that must not be empty. *)
Definition empty_arg (name : block) (arg : string) : block := str arg ++ str " argument to " ++ name ++ str "() can't be empty".

(** ** Mounting *)

(** mkdir of the mount point with its label; the result is not looked at. *)
Definition make_mount_point (mount_point : block) (w : updater) : updater :=
  let '(secontext, w) :=
    if ue_sehandle U then
      let '(secontext, w) := d_selabel mount_point 493 w in (secontext, d_setfscreatecon secontext w)
    else (None, w) in
  let '(_, w) := u_call (CallMkdir mount_point 493) w in
  match secontext with Some _ => d_setfscreatecon None w | None => w end.

(** The part of [MountFn] after the arguments were checked: whether it is mounted. *)
Definition do_mount (fs_type partition_type location mount_point : block) (w : updater) : outcome (bool * updater) :=
  let w := make_mount_point mount_point w in
  if bool_decide (partition_type = str "MTD") then
    let* w := u_scan_mtd w in
    match Sys.mtd_find_partition_by_name (mtd (u_sys w)) location with
    | None => Val (false, w)
    | Some p =>
        let flags := ue_flags U (u_tick w) in
        let '(rv, dev, m) := Sys.mtd_mount_partition p mount_point fs_type false (mtd (u_sys w)) in
        let w := u_mtd m w in
        let w := match dev with
                 | Some dev => set_ukernel (u_kernel w ++ [mkMount dev mount_point fs_type flags]) w
                 | None => w
                 end in
        Val (rv =? 0, w)
    end
  else
    let '(r, w) := u_mount location mount_point fs_type w in Val (negb (r <? 0), w).

Definition MountFn (name : block) (st : St) (argv : list (Arg updater)) : fn_result :=
  if negb (zlen argv =? 4) then ErrorAbort st (expects name "4 args" (zlen argv)) else
  let* (args, st) := ReadArgs st argv 4 in
  match args with
  | Some [fs_type; partition_type; location; mount_point] =>
      if negb (BooleanString fs_type) then ErrorAbort st (empty_arg name "fs_type") else
      if negb (BooleanString partition_type) then ErrorAbort st (empty_arg name "partition_type") else
      if negb (BooleanString location) then ErrorAbort st (empty_arg name "location") else
      if negb (BooleanString mount_point) then ErrorAbort st (empty_arg name "mount_point") else
      let* (ok, w) := do_mount fs_type partition_type location mount_point (cookie st) in
      string_result (if ok : bool then mount_point else []) (set_cookie w st)
  | _ => null_result st
  end.

Definition IsMountedFn (name : block) (st : St) (argv : list (Arg updater)) : fn_result :=
  if negb (zlen argv =? 1) then ErrorAbort st (expects name "1 arg" (zlen argv)) else
  let* (args, st) := ReadArgs st argv 1 in
  match args with
  | Some [mount_point] =>
      if negb (BooleanString mount_point) then ErrorAbort st (str "mount_point argument to unmount() can't be empty") else
      let* (_, w) := u_scan_mounts (cookie st) in
      let* vol := find_mounted_volume_by_mount_point mount_point (u_mounts w) in
      string_result (match vol with None => [] | Some _ => mount_point end) (set_cookie w st)
  | _ => null_result st
  end.

Definition UnmountFn (name : block) (st : St) (argv : list (Arg updater)) : fn_result :=
  if negb (zlen argv =? 1) then ErrorAbort st (expects name "1 arg" (zlen argv)) else
  let* (args, st) := ReadArgs st argv 1 in
  match args with
  | Some [mount_point] =>
      if negb (BooleanString mount_point) then ErrorAbort st (str "mount_point argument to unmount() can't be empty") else
      let* (_, w) := u_scan_mounts (cookie st) in
      let* vol := find_mounted_volume_by_mount_point mount_point (u_mounts w) in
      match vol with
      | None => string_result [] (set_cookie w st)
      | Some i =>  (** the volume found has this mount point *)
          let* (_, g) := unmount_mounted_volume (fun p => (u_umount p w).1) i (u_mounts w) in
          string_result mount_point (set_cookie (set_umounts g (u_umount (Some mount_point) w).2) st)
      end
  | _ => null_result st
  end.

(** ** Formatting *)

(** Erasing a flash partition: whether it succeeded. *)
Definition format_mtd (location : block) (w : updater) : outcome (bool * updater) :=
  let* w := u_scan_mtd w in
  match Sys.mtd_find_partition_by_name (mtd (u_sys w)) location with
  | None => Val (false, w)
  | Some p =>
      let '(ctx, m) := Sys.mtd_write_partition p (mtd (u_sys w)) in
      match ctx with
      | None => Val (false, u_mtd m w)
      | Some ctx =>
          let* (r, ctx, m) := Sys.mtd_erase_blocks ctx (-1) m in
          if r =? -1 then let* (_, m) := Sys.mtd_write_close ctx m in Val (false, u_mtd m w)
          else let* (r, m) := Sys.mtd_write_close ctx m in Val (r =? 0, u_mtd m w)
      end
  end.

(** atoll saturates at the range of [long long]. *)
Definition atoll (s : block) : Z := (@strtol LP64 s).1.

Definition FormatFn (name : block) (st : St) (argv : list (Arg updater)) : fn_result :=
  if negb (zlen argv =? 5) then ErrorAbort st (expects name "5 args" (zlen argv)) else
  let* (args, st) := ReadArgs st argv 5 in
  match args with
  | Some [fs_type; partition_type; location; fs_size; mount_point] =>
      if negb (BooleanString fs_type) then ErrorAbort st (empty_arg name "fs_type") else
      if negb (BooleanString partition_type) then ErrorAbort st (empty_arg name "partition_type") else
      if negb (BooleanString location) then ErrorAbort st (empty_arg name "location") else
      if negb (BooleanString mount_point) then ErrorAbort st (empty_arg name "mount_point") else
      if bool_decide (partition_type = str "MTD") then
        let* (ok, w) := format_mtd location (cookie st) in
        string_result (if ok : bool then location else []) (set_cookie w st)
      else if ue_USE_EXT4 U && bool_decide (fs_type = str "ext4") then
        let '(status, w) := u_call (CallMakeExt4 location (atoll fs_size) mount_point) (cookie st) in
        string_result (if status =? 0 then location else []) (set_cookie w st)
      else null_result st
  | _ => null_result st
  end.

(** ** Files *)

Definition RenameFn (name : block) (st : St) (argv : list (Arg updater)) : fn_result :=
  if negb (zlen argv =? 2) then ErrorAbort st (expects name "2 args" (zlen argv)) else
  let* (args, st) := ReadArgs st argv 2 in
  match args with
  | Some [src_name; dst_name] =>
      if negb (BooleanString src_name) then ErrorAbort st (empty_arg name "src_name") else
      if negb (BooleanString dst_name) then ErrorAbort st (empty_arg name "dst_name") else
      let '(r, w) := u_rename src_name dst_name (cookie st) in
      let st := set_cookie w st in
      if negb (r =? 0) then
        ErrorAbort st (str "Rename of " ++ src_name ++ str "() to " ++ dst_name ++ str "() failed, error " ++ u_strerror w ++ str "()")
      else string_result dst_name st
  | _ => null_result st
  end.

(** The paths; when one after the first cannot be evaluated, the loop that is to free the
    others counts the wrong variable and frees the first of them again and again. *)
Fixpoint delete_args (n : nat) (st : St) (argv : list (Arg updater)) (i : Z) : outcome (option (list block) * St) :=
  match n with
  | O => Val (Some [], st)
  | S n =>
      let* a := load argv i in
      let* (p, st) := Evaluate st a in
      match p with
      | None => if 0 <? i then Trap WildPointer else Val (None, st)
      | Some p =>
          let* (ps, st) := delete_args n st argv (i + 1) in
          match ps with None => Val (None, st) | Some ps => Val (Some (p :: ps), st) end
      end
  end.

Fixpoint delete_paths (recursive : bool) (paths : list block) (success : Z) (w : updater) : outcome (Z * updater) :=
  match paths with
  | [] => Val (success, w)
  | p :: paths =>
      let* (r, w) := if recursive then dirUnlinkHierarchy (ue_fuel U) p w
                     else let '(r, w) := u_unlink p w in Val (r, w) in
      delete_paths recursive paths (if r =? 0 then success + 1 else success) w
  end.

Definition DeleteFn (name : block) (st : St) (argv : list (Arg updater)) : fn_result :=
  let* (paths, st) := delete_args (length argv) st argv 0 in
  match paths with
  | None => null_result st
  | Some paths =>
      let recursive := bool_decide (name = str "delete_recursive") in
      let* (success, w) := delete_paths recursive paths 0 (cookie st) in
      let* buffer := store_bytes (replicate 10 0) 0 (num success ++ [0]) in
      let* s := c_str buffer in
      string_result s (set_cookie w st)
  end.

(** ** Progress *)

Definition ShowProgressFn (name : block) (st : St) (argv : list (Arg updater)) : fn_result :=
  if negb (zlen argv =? 2) then ErrorAbort st (expects name "2 args" (zlen argv)) else
  let* (args, st) := ReadArgs st argv 2 in
  match args with
  | Some [frac_str; sec_str] =>
      let sec := i32 (strtol sec_str).1 in
      let w := fprintf_pipe (str "progress " ++ ue_float U frac_str ++ str " " ++ num sec ++ [10]) (cookie st) in
      string_result frac_str (set_cookie w st)
  | _ => null_result st
  end.

Definition SetProgressFn (name : block) (st : St) (argv : list (Arg updater)) : fn_result :=
  if negb (zlen argv =? 1) then ErrorAbort st (expects name "1 arg" (zlen argv)) else
  let* (args, st) := ReadArgs st argv 1 in
  match args with
  | Some [frac_str] =>
      let w := fprintf_pipe (str "set_progress " ++ ue_float U frac_str ++ [10]) (cookie st) in
      string_result frac_str (set_cookie w st)
  | _ => null_result st
  end.

Definition WipeCacheFn (name : block) (st : St) (argv : list (Arg updater)) : fn_result :=
  if negb (zlen argv =? 0) then ErrorAbort st (expects name "no args" (zlen argv)) else
  string_result (str "t") (set_cookie (fprintf_pipe (str "wipe_cache" ++ [10]) (cookie st)) st).

(** The lines of [s], each written as a command. *)
Fixpoint print_lines (n : nat) (buf : block) (p : Z) (w : updater) : outcome (block * updater) :=
  match n with
  | O => Trap NoFuel
  | S n =>
      let* (line, buf, p) := strtok_at is_newline buf p in
      match line with
      | None => Val (buf, w)
      | Some line => print_lines n buf p (fprintf_pipe (str "ui_print " ++ line ++ [10]) w)
      end
  end.

Fixpoint total_length (args : list block) (size : Z) : outcome Z :=
  match args with [] => Val size | a :: args => let* size := c_int 32 (size + zlen a) in total_length args size end.

(** strtok leaves the buffer cut after its first line. *)
Definition UIPrintFn (name : block) (st : St) (argv : list (Arg updater)) : fn_result :=
  let* (args, st) := ReadVarArgs st argv in
  match args with
  | None => null_result st
  | Some args =>
      let* size := total_length args 0 in
      let* bytes := c_int 32 (size + 1) in
      match ue_malloc U bytes with
      | None => Trap NullDeref
      | Some buffer =>
          let* (buffer, size) := concat_copy buffer 0 args in
          let* buffer := store buffer size 0 in
          let* (buffer, w) := print_lines (S (length buffer)) buffer 0 (cookie st) in
          let w := fprintf_pipe (str "ui_print" ++ [10]) w in
          let* s := c_str buffer in
          string_result s (set_cookie w st)
      end
  end.

(** ** Extracting from the package *)

(** What the calls of an extraction leave: a file created and written holds the data. *)
Fixpoint replay (ops : list fs_op) (current : path) (w : updater) : updater :=
  match ops with
  | [] => w
  | OpCreat p :: ops => replay ops p w
  | OpWrite data _ :: ops => replay ops current (u_fill current data (u_create current w).2)
  | _ :: ops => replay ops current w
  end.

Definition log_ops (ops : list fs_op) (env : nat -> fs_op -> Z) (w : updater) : updater :=
  set_calls (u_calls w ++ imap (fun i op => (CallExtract op, env i op)) ops) w.

Definition PackageExtractDirFn (name : block) (st : St) (argv : list (Arg updater)) : fn_result :=
  if negb (zlen argv =? 2) then ErrorAbort st (expects name "2 args" (zlen argv)) else
  let* (args, st) := ReadArgs st argv 2 in
  match args with
  | Some [zip_path; dest_path] =>
      let w := cookie st in
      let* ents := match pZipEntries (package_zip w) with Some ents => Val ents | None => Trap NullDeref end in
      let env := fun i (_ : fs_op) => e_answer (ue_sys U) (u_tick w + i) in
      let* (success, ops, _) :=
        mzExtractRecursive (ue_package U) (ue_realloc U) env (ue_package U) (ue_read U) (ue_zlib U) (ue_fuel U) 0 (ue_malloc U)
          (ue_writes U) MZ_EXTRACT_FILES_ONLY true false (ue_sehandle U) ents (zip_path ++ [0]) (dest_path ++ [0]) in
      string_result (truth success) (set_cookie (replay ops [] (log_ops ops env w)) st)
  | _ => null_result st
  end.

(** The entry of that name. *)
Definition package_entry (zip_path : block) (w : updater) : outcome (option ZipEntry) :=
  let* i := mzFindZipEntry (ue_calloc U) (ue_package U) (package_zip w) (zip_path ++ [0]) in
  match i with
  | None => Val None
  | Some i =>
      let* ents := match pZipEntries (package_zip w) with Some ents => Val ents | None => Trap NullDeref end in
      let* e := load ents i in
      Val (Some e)
  end.

(** The two-argument version: to a file. *)
Definition extract_to_file (zip_path dest_path : block) (w : updater) : outcome (bool * updater) :=
  let* entry := package_entry zip_path w in
  match entry with
  | None => Val (false, w)
  | Some entry =>
      let '(ok, w) := u_create dest_path w in
      if negb ok then Val (false, w) else
      let* (success, out) := mzExtractZipEntryToFile (ue_package U) (ue_read U) (ue_zlib U) (ue_fuel U) entry 0
                               (mkSink (ue_writes U (u_tick w)) []) in
      Val (success, u_fill dest_path (sk_bytes out) w)
  end.

(** The one-argument version: a blob, or one with null data after a failure. *)
Definition extract_to_value (zip_path : block) (w : updater) : outcome Value :=
  let* entry := package_entry zip_path w in
  match entry with
  | None => Val ValNoBlob
  | Some entry =>
      match ue_malloc U (wrapu word_bits (mzGetZipEntryUncompLen entry)) with
      | None => Val ValNoBlob
      | Some data =>
          let* (success, data) := mzExtractZipEntryToBuffer (ue_package U) (ue_read U) (ue_zlib U) (ue_fuel U) entry 0 data in
          Val (if success : bool then ValBlob data else ValNoBlob)
      end
  end.

Definition PackageExtractFileFn (name : block) (st : St) (argv : list (Arg updater)) : fn_result :=
  let argc := zlen argv in
  if negb (argc =? 1) && negb (argc =? 2) then ErrorAbort st (expects name "1 or 2 args" argc) else
  if argc =? 2 then
    let* (args, st) := ReadArgs st argv 2 in
    match args with
    | Some [zip_path; dest_path] =>
        let* (success, w) := extract_to_file zip_path dest_path (cookie st) in
        string_result (truth success) (set_cookie w st)
    | _ => null_result st
    end
  else
    let* (args, st) := ReadArgs st argv 1 in
    match args with
    | Some [zip_path] => let* v := extract_to_value zip_path (cookie st) in Val (Some v, st)
    | _ => null_result st
    end.

(** ** Links *)

(** What is before the last slash after the first character, if there is one. *)
Fixpoint last_slash (rev_name : block) : option block :=
  match rev_name with
  | [] | [_] => None
  | c :: rev_name => if c =? 47 then Some (reverse rev_name) else last_slash rev_name
  end.

(** [n] bounds the recursion.  With the result, the string [name] is left with: after a
    recursive call that failed it stays cut at the slash. *)
Fixpoint make_parents (n : nat) (name : block) (w : updater) : outcome (Z * block * updater) :=
  match last_slash (reverse name), n with
  | None, _ => Val (0, name, w)
  | Some _, O => Trap NoFuel
  | Some parent, S n =>
      let* (r, cut, w) := make_parents n parent w in
      if r <? 0 then Val (-1, cut, w) else
      let '(a, w) := u_call (CallMkdir parent 448) w in
      Val (if (0 <=? a) || (a =? - EEXIST) then 0 else -1, name, w)
  end.

Fixpoint symlinks (target : block) (srcs : list block) (bad : Z) (w : updater) : outcome (Z * updater) :=
  match srcs with
  | [] => Val (bad, w)
  | src :: srcs =>
      let '(r, w) := u_unlink src w in
      let bad := if (r <? 0) && negb (r =? - ENOENT) then bad + 1 else bad in
      let* (r, src, w) := make_parents (length src) src w in
      let bad := if negb (r =? 0) then bad + 1 else bad in
      let '(r, w) := u_call (CallSymlink target src) w in
      symlinks target srcs (if r <? 0 then bad + 1 else bad) w
  end.

Definition SymlinkFn (name : block) (st : St) (argv : list (Arg updater)) : fn_result :=
  if zlen argv =? 0 then ErrorAbort st (expects name "1+ args" 0) else
  let* a0 := load argv 0 in
  let* (target, st) := Evaluate st a0 in
  match target with
  | None => null_result st
  | Some target =>
      let* (srcs, st) := ReadVarArgs st (drop 1 argv) in
      match srcs with
      | None => null_result st
      | Some srcs =>
          let* (bad, w) := symlinks target srcs 0 (cookie st) in
          let st := set_cookie w st in
          if negb (bad =? 0) then ErrorAbort st (name ++ str ": some symlinks failed") else string_result [] st
      end
  end.

(** ** Metadata *)

Record perm_parsed_args := mkPerms {
  pp_uid : option Z; pp_gid : option Z; pp_mode : option Z; pp_fmode : option Z; pp_dmode : option Z;
  pp_selabel : option block; pp_capabilities : option Z
}.
Definition no_perms : perm_parsed_args := mkPerms None None None None None None None.

(** sscanf with [%lld], and with [%i], whose base is that of a C constant; the value
    saturates at 64 bits. *)
Definition saturate (v : Z) : Z := Z.max (- 2 ^ 63) (Z.min (2 ^ 63 - 1) v).
Definition scan_lld (s : block) : option Z := match scan_int 10 s with Some (v, _) => Some (saturate v) | None => None end.
Definition scan_i (s : block) : option Z :=
  let s := skip_space s in
  let '(neg, s) := match s with
                   | c :: s' => if c =? 45 then (true, s') else if c =? 43 then (false, s') else (false, s)
                   | [] => (false, [])
                   end in
  let base := match s with
              | 48 :: x :: d :: _ => if ((x =? 120) || (x =? 88)) && bool_decide (is_Some (digit_of 16 d)) then 16 else 8
              | 48 :: _ => 8
              | _ => 10
              end in
  let s := if base =? 16 then drop 2 s else s in
  match radix_digits base s None with
  | (Some v, _) => Some (saturate (if neg : bool then - v else v))
  | (None, _) => None
  end.

Definition as_mode (v : Z) : Z := wrapu (ue_mode_bits U) (i32 v).

(** One key and its value, [None] for an unknown key; an invalid value leaves the
    arguments alone. *)
Definition parse_key (key value : block) (parsed : perm_parsed_args) : option perm_parsed_args :=
  let 'mkPerms uid gid mode fmode dmode selabel caps := parsed in
  if bool_decide (key = str "uid") then
    Some (match scan_lld value with Some v => mkPerms (Some (u32 v)) gid mode fmode dmode selabel caps | None => parsed end)
  else if bool_decide (key = str "gid") then
    Some (match scan_lld value with Some v => mkPerms uid (Some (u32 v)) mode fmode dmode selabel caps | None => parsed end)
  else if bool_decide (key = str "mode") then
    Some (match scan_i value with Some v => mkPerms uid gid (Some (as_mode v)) fmode dmode selabel caps | None => parsed end)
  else if bool_decide (key = str "dmode") then
    Some (match scan_i value with Some v => mkPerms uid gid mode fmode (Some (as_mode v)) selabel caps | None => parsed end)
  else if bool_decide (key = str "fmode") then
    Some (match scan_i value with Some v => mkPerms uid gid mode (Some (as_mode v)) dmode selabel caps | None => parsed end)
  else if bool_decide (key = str "capabilities") then
    Some (match scan_i value with Some v => mkPerms uid gid mode fmode dmode selabel (Some (u64 v)) | None => parsed end)
  else if bool_decide (key = str "selabel") then
    Some (match value with [] => parsed | _ => mkPerms uid gid mode fmode dmode (Some value) caps end)
  else None.
(** The warning about an unknown key is given a limited number of times. *)
Definition parse_perm (key value : block) (parsed : perm_parsed_args) (w : updater) : perm_parsed_args * updater :=
  match parse_key key value parsed with
  | Some parsed => (parsed, w)
  | None => (parsed, if negb (max_warnings w =? 0) then set_warnings (max_warnings w - 1) w else w)
  end.

(** [n] rounds of [for (i = 1; i < argc; i += 2)]. *)
Fixpoint parse_perms (n : nat) (args : list block) (i : Z) (parsed : perm_parsed_args) (w : updater) :
    outcome (perm_parsed_args * updater) :=
  if zlen args <=? i then Val (parsed, w) else
  match n with
  | O => Trap NoFuel
  | S n =>
      let* key := load args i in
      let* value := load args (i + 1) in
      let '(parsed, w) := parse_perm key value parsed w in
      parse_perms n args (i + 2) parsed w
  end.
Definition ParsePermArgs (args : list block) (w : updater) : outcome (perm_parsed_args * updater) :=
  parse_perms (length args) args 1 no_perms w.

Definition file_type (st_mode : Z) : Z := Z.land st_mode 61440.
Definition S_ISLNK (m : Z) : bool := file_type m =? 40960.
Definition S_ISDIR (m : Z) : bool := file_type m =? 16384.
Definition S_ISREG (m : Z) : bool := file_type m =? 32768.

(** [struct vfs_cap_data] with revision 2 and the effective flag. *)
Definition cap_data (capabilities : Z) : block :=
  le_bytes 4 (Z.lor 0x02000000 1) ++ le_bytes 4 (Z.land capabilities 0xffffffff) ++ le_bytes 4 0 ++
  le_bytes 4 (u32 (Z.shiftr capabilities 32)) ++ le_bytes 4 0.

(** A step for an argument that was given: one more failure when the call fails. *)
Definition when_given {A} (v : option A) (f : A -> updater -> bool * updater) (acc : Z * updater) : Z * updater :=
  let '(bad, w) := acc in
  match v with
  | Some v => let '(failed, w) := f v w in (if failed : bool then bad + 1 else bad, w)
  | None => (bad, w)
  end.
Definition fails (r : Z * updater) : bool * updater := (r.1 <? 0, r.2).
(** lsetfilecon and removexattr have an errno that does not count. *)
Definition fails_except (errno : Z) (r : Z * updater) : bool * updater := ((r.1 <? 0) && negb (r.1 =? - errno), r.2).

Definition ApplyParsedPerms (filename : path) (st_mode : Z) (parsed : perm_parsed_args) (w : updater) : Z * updater :=
  if S_ISLNK st_mode then (0, w) else
  let acc := (0, w) in
  let acc := when_given (pp_uid parsed) (fun uid w => fails (u_chown filename uid no_id w)) acc in
  let acc := when_given (pp_gid parsed) (fun gid w => fails (u_chown filename no_id gid w)) acc in
  let acc := when_given (pp_mode parsed) (fun mode w => fails (u_chmod filename mode w)) acc in
  let acc := if S_ISDIR st_mode then when_given (pp_dmode parsed) (fun mode w => fails (u_chmod filename mode w)) acc else acc in
  let acc := if S_ISREG st_mode then when_given (pp_fmode parsed) (fun mode w => fails (u_chmod filename mode w)) acc else acc in
  let acc := when_given (pp_selabel parsed) (fun con w => fails_except ENOTSUP (u_call (CallSetfilecon filename con) w)) acc in
  if S_ISREG st_mode then
    when_given (pp_capabilities parsed) (fun caps w =>
      if caps =? 0 then fails_except ENODATA (u_call (CallRemovexattr filename) w)
      else fails (u_call (CallSetxattr filename (cap_data caps)) w)) acc
  else acc.

(** nftw calls the function until it returns something else than 0. *)
Fixpoint nftw (visits : list (path * Z)) (parsed : perm_parsed_args) (w : updater) : Z * updater :=
  match visits with
  | [] => (0, w)
  | (filename, st_mode) :: visits =>
      let '(r, w) := ApplyParsedPerms filename st_mode parsed w in
      if negb (r =? 0) then (r, w) else nftw visits parsed w
  end.

Definition SetMetadataFn (name : block) (st : St) (argv : list (Arg updater)) : fn_result :=
  let recursive := bool_decide (name = str "set_metadata_recursive") in
  if negb (zlen argv mod 2 =? 1) then ErrorAbort st (expects name "an odd number of arguments" (zlen argv)) else
  let* (args, st) := ReadVarArgs st argv in
  match args with
  | None => null_result st
  | Some args =>
      let* filename := load args 0 in
      let sb := ue_mode U (u_tick (cookie st)) in
      let '(a, w) := u_answer (cookie st) in
      if a <? 0 then  (** [result] is what [ErrorAbort] returns, NULL, and then not returned *)
        let* (_, st) := @ErrorAbort updater Value (set_cookie w st)
                          (name ++ str ": Error on lstat of " ++ [34] ++ filename ++ [34] ++ str ": " ++ u_strerror w) in
        string_result [] st
      else
        let* (parsed, w) := ParsePermArgs args w in
        let '(bad, w) :=
          if recursive then
            let visits := ue_nftw U (u_tick w) in
            let '(_, w) := u_answer w in
            match visits with None => (-1, w) | Some visits => nftw visits parsed w end
          else ApplyParsedPerms filename sb parsed w in
        let st := set_cookie w st in
        if 0 <? bad then ErrorAbort st (name ++ str ": some changes failed") else string_result [] st
  end.

(** ** Properties *)

Definition GetPropFn (name : block) (st : St) (argv : list (Arg updater)) : fn_result :=
  if negb (zlen argv =? 1) then ErrorAbort st (expects name "1 arg" (zlen argv)) else
  let* a0 := load argv 0 in
  let* (key, st) := Evaluate st a0 in
  match key with
  | None => null_result st
  | Some key => string_result (ue_property U key) st
  end.

Definition MAX_FILE_GETPROP_SIZE : Z := 65536.

(** White space at the end is cut off, but not the first character. *)
Fixpoint trim_rev (s : block) : block :=
  match s with
  | [] => []
  | [c] => [c]
  | c :: s' => if is_space c then trim_rev s' else s
  end.
Definition trim_end (s : block) : block := reverse (trim_rev (reverse s)).

Fixpoint strchr (c : Z) (s : block) : option (block * block) :=
  match s with
  | [] => None
  | x :: s' => if x =? c then Some ([], s') else match strchr c s' with Some (a, b) => Some (x :: a, b) | None => None end
  end.

(** What a line says about the key: nothing, its value, or that it is malformed; what is
    written to the line stays inside it. *)
Inductive prop_line := Skip | Found (value : block) | Malformed (line : block).
Definition read_prop (key line : block) : prop_line :=
  let line := skip_space line in
  match line with
  | [] => Skip
  | c :: _ =>
      if c =? 35 then Skip else
      match strchr 61 line with
      | None => Malformed line
      | Some (k, v) =>
          if negb (bool_decide (key = trim_end k)) then Skip else Found (trim_end (skip_space v))
      end
  end.

Fixpoint prop_loop (n : nat) (key : block) (line : option block) (buf : block) (p : Z) : outcome prop_line :=
  match line, n with
  | None, _ => Val Skip
  | Some _, O => Trap NoFuel
  | Some line, S n =>
      match read_prop key line with
      | Skip => let* (line, buf, p) := strtok_at is_newline buf p in prop_loop n key line buf p
      | r => Val r
      end
  end.

Definition FileGetPropFn (name : block) (st : St) (argv : list (Arg updater)) : fn_result :=
  let* (args, st) := ReadArgs st argv 2 in
  match args with
  | Some [filename; key] =>
      let '(i, s) := sys_stat (ue_sys U) filename (u_sys (cookie st)) in
      let w := set_sys s (cookie st) in
      match i with
      | None => ErrorAbort (set_cookie w st) (name ++ str ": failed to stat " ++ [34] ++ filename ++ [34] ++ str ": " ++ u_strerror w)
      | Some i =>
          let size := zlen (f_data i) in
          if MAX_FILE_GETPROP_SIZE <? size then
            ErrorAbort (set_cookie w st) (filename ++ str " too large for " ++ name ++ str " (max " ++ num MAX_FILE_GETPROP_SIZE ++ str ")")
          else
          match ue_malloc U (size + 1) with
          | None => ErrorAbort (set_cookie w st) (name ++ str ": failed to alloc " ++ num (size + 1) ++ str " bytes")
          | Some buffer =>
              let '(f, s) := sys_fopen (ue_sys U) filename s in
              let w := set_sys s w in
              match f with
              | None => ErrorAbort (set_cookie w st) (name ++ str ": failed to open " ++ filename ++ str ": " ++ u_strerror w)
              | Some contents =>
                  let '(bytes, s) := sys_fread (ue_sys U) contents size s in
                  let st := set_cookie (set_sys s w) st in
                  if negb (zlen bytes =? size) then
                    ErrorAbort st (name ++ str ": failed to read " ++ num (size + 1) ++ str " bytes from " ++ filename)
                  else
                  let* buffer := store_bytes buffer 0 bytes in
                  let* buffer := store buffer size 0 in
                  let* (line, buffer, p) := strtok_at is_newline buffer 0 in
                  let* line := match line with Some line => Val line | None => Trap NullDeref end in
                  let* r := prop_loop (S (length buffer)) key (Some line) buffer p in
                  match r with
                  | Skip => string_result [] st
                  | Found value => string_result value st
                  | Malformed line =>
                      ErrorAbort st (name ++ str ": malformed line " ++ [34] ++ line ++ [34] ++ str ": " ++ filename ++ str " not a prop file?")
                  end
              end
          end
      end
  | _ => null_result st
  end.

(** ** Flash partitions *)

Definition BUFSIZ : Z := 1024.

(** [while (success && (read = fread(buffer, 1, BUFSIZ, f)) > 0)]. *)
Fixpoint copy_image (n : nat) (rest : block) (ctx : mtd_writing) (w : updater) : outcome (bool * mtd_writing * updater) :=
  let '(bytes, s) := sys_fread (ue_sys U) rest BUFSIZ (u_sys w) in
  let w := set_sys s w in
  match bytes, n with
  | [], _ => Val (true, ctx, w)
  | _, O => Trap NoFuel
  | _, S n =>
      let* (wrote, ctx, m) := Sys.mtd_write_data ctx bytes (mtd (u_sys w)) in
      let w := u_mtd m w in
      if i32 wrote =? zlen bytes then copy_image n (drop (length bytes) rest) ctx w else Val (false, ctx, w)
  end.

(** The data given: whether all of it was written; [None] when the file cannot be opened. *)
Definition write_contents (contents : Value) (ctx : mtd_writing) (w : updater) : outcome (option (bool * mtd_writing) * updater) :=
  match contents with
  | ValString filename =>
      let '(f, s) := sys_fopen (ue_sys U) filename (u_sys w) in
      let w := set_sys s w in
      match f with
      | None => Val (None, w)
      | Some data => let* (success, ctx, w) := copy_image (length data) data ctx w in Val (Some (success, ctx), w)
      end
  | ValBlob data =>
      let* (wrote, ctx, m) := Sys.mtd_write_data ctx data (mtd (u_sys w)) in
      Val (Some (wrote =? zlen data, ctx), u_mtd m w)
  | ValNoBlob => Trap NullDeref
  end.

(** The partition is found, written, and the rest of it erased; only the first result
    counts. *)
Definition write_image (contents : Value) (partition : block) (w : updater) : outcome (bool * updater) :=
  let* w := u_scan_mtd w in
  match Sys.mtd_find_partition_by_name (mtd (u_sys w)) partition with
  | None => Val (false, w)
  | Some p =>
      let '(ctx, m) := Sys.mtd_write_partition p (mtd (u_sys w)) in
      let w := u_mtd m w in
      match ctx with
      | None => Val (false, w)
      | Some ctx =>
          let* (r, w) := write_contents contents ctx w in
          match r with
          | None => Val (false, w)
          | Some (success, ctx) =>
              let* (_, ctx, m) := Sys.mtd_erase_blocks ctx (-1) (mtd (u_sys w)) in
              let* (_, m) := Sys.mtd_write_close ctx m in
              Val (success, u_mtd m w)
          end
      end
  end.

Definition WriteRawImageFn (name : block) (st : St) (argv : list (Arg updater)) : fn_result :=
  let* (args, st) := ReadValueArgs st argv 2 in
  match args with
  | Some [contents; partition_value] =>
      match partition_value with
      | ValString partition =>
          if negb (BooleanString partition) then ErrorAbort st (str "partition argument to " ++ name ++ str " can't be empty") else
          if bool_decide (contents = ValString []) then ErrorAbort st (str "file argument to " ++ name ++ str " can't be empty") else
          let* (success, w) := write_image contents partition (cookie st) in
          string_result (if success : bool then partition else []) (set_cookie w st)
      | _ => ErrorAbort st (str "partition argument to " ++ name ++ str " must be string")
      end
  | _ => null_result st
  end.

(** ** Patches *)

(** strtol of a byte count as a [size_t]; [None] when there is no number. *)
Definition byte_count (s : block) : option Z :=
  let '(v, rest) := strtol s in
  if (wrapu word_bits v =? 0) && (zlen rest =? zlen s) then None else Some (wrapu word_bits v).

Definition ApplyPatchSpaceFn (name : block) (st : St) (argv : list (Arg updater)) : fn_result :=
  let* (args, st) := ReadArgs st argv 1 in
  match args with
  | Some [bytes_str] =>
      match byte_count bytes_str with
      | None => ErrorAbort st (name ++ str "(): can't parse " ++ [34] ++ bytes_str ++ [34] ++ str " as byte count" ++ [10; 10])
      | Some bytes =>
          let '(r, s) := CacheSizeCheck (ue_sys U) bytes (u_sys (cookie st)) in
          string_result (truth (r =? 0)) (set_cookie (set_sys s (cookie st)) st)
      end
  | _ => null_result st
  end.

(** The digests and patches, alternating; an error when one has the wrong type. *)
Fixpoint patch_pairs (name : block) (i : Z) (patches : list Value) : block + (list block * list Value) :=
  match patches with
  | sha :: patch :: patches =>
      match sha with
      | ValString sha =>
          if negb (val_type patch =? 2) then inl (name ++ str "(): patch #" ++ num i ++ str " is not blob") else
          match patch_pairs name (i + 1) patches with
          | inl msg => inl msg
          | inr (shas, blobs) => inr (sha :: shas, patch :: blobs)
          end
      | _ => inl (name ++ str "(): sha-1 #" ++ num i ++ str " is not string")
      end
  | _ => inr ([], [])
  end.

Definition ApplyPatchFn (name : block) (st : St) (argv : list (Arg updater)) : fn_result :=
  let argc := zlen argv in
  if (argc <? 6) || (argc mod 2 =? 1) then
    ErrorAbort st (name ++ str "(): expected at least 6 args and an even number, got " ++ num argc)
  else
  let* (args, st) := ReadArgs st argv 4 in
  match args with
  | Some [source_filename; target_filename; target_sha1; target_size_str] =>
      match byte_count target_size_str with
      | None => ErrorAbort st (name ++ str "(): can't parse " ++ [34] ++ target_size_str ++ [34] ++ str " as byte count")
      | Some target_size =>
          let* (patches, st) := ReadValueVarArgs st (drop 4 argv) in
          match patches with
          | None => Trap NullDeref
          | Some patches =>
              match patch_pairs name 0 patches with
              | inl msg => ErrorAbort st msg
              | inr (patch_sha_str, patches) =>
                  let* (result, w) :=
                    on_sys (applypatch (ue_sys U) (ue_bzlib U) (ue_fuel U) (ue_rounds U) (ue_malloc U) (ue_inflate U) (ue_sha1 U)
                              (ue_uninit U) source_filename target_filename target_sha1 target_size patch_sha_str patches None) (cookie st) in
                  string_result (truth (result =? 0)) (set_cookie w st)
              end
          end
      end
  | _ => null_result st
  end.

Definition ApplyPatchCheckFn (name : block) (st : St) (argv : list (Arg updater)) : fn_result :=
  let argc := zlen argv in
  if argc <? 1 then ErrorAbort st (name ++ str "(): expected at least 1 arg, got " ++ num argc) else
  let* (args, st) := ReadArgs st argv 1 in
  match args with
  | Some [filename] =>
      let* (sha1s, st) := ReadVarArgs st (drop 1 argv) in
      match sha1s with
      | None => Trap NullDeref
      | Some sha1s =>
          let* (result, w) := on_sys (applypatch_check (ue_sys U) (ue_sha1 U) (ue_uninit U) filename sha1s) (cookie st) in
          string_result (truth (result =? 0)) (set_cookie w st)
      end
  | _ => null_result st
  end.

(** ** Programs, digests, files *)

(** fork, execv and waitpid: the status stays as it was when there is no child. *)
Definition RunProgramFn (name : block) (st : St) (argv : list (Arg updater)) : fn_result :=
  if zlen argv <? 1 then ErrorAbort st (name ++ str "() expects at least 1 arg") else
  let* (args, st) := ReadVarArgs st argv in
  match args with
  | None => null_result st
  | Some args =>
      let status := default (ue_uninit_status U) (ue_status U (u_tick (cookie st))) in
      let '(_, w) := u_call (CallRun args) (cookie st) in
      let* buffer := store_bytes (replicate 20 0) 0 (num status ++ [0]) in
      let* s := c_str buffer in
      string_result s (set_cookie w st)
  end.

Definition alphabet : block := str "0123456789abcdef".
Fixpoint print_digest (n : nat) (digest : block) (i : Z) (buffer : block) : outcome block :=
  match n with
  | O => store buffer (i * 2) 0
  | S n =>
      let* d := load digest i in
      let* hi := load alphabet (Z.land (Z.shiftr d 4) 15) in
      let* buffer := store buffer (i * 2) hi in
      let* lo := load alphabet (Z.land d 15) in
      let* buffer := store buffer (i * 2 + 1) lo in
      print_digest n digest (i + 1) buffer
  end.
Definition PrintSha1 (digest : block) : outcome block :=
  match ue_malloc U (Z.of_nat SHA_DIGEST_SIZE * 2 + 1) with
  | None => Trap NullDeref
  | Some buffer => let* buffer := print_digest SHA_DIGEST_SIZE digest 0 buffer in c_str buffer
  end.

(** The first argument that is the digest. *)
Fixpoint matching_digest (digest : block) (args : list Value) : option Value :=
  match args with
  | [] => None
  | ValString s :: args =>
      if bool_decide (ParseSha1 s = Some digest) then Some (ValString s) else matching_digest digest args
  | _ :: args => matching_digest digest args
  end.

Definition Sha1CheckFn (name : block) (st : St) (argv : list (Arg updater)) : fn_result :=
  if zlen argv <? 1 then ErrorAbort st (name ++ str "() expects at least 1 arg") else
  let* (args, st) := ReadValueVarArgs st argv in
  match args with
  | None => null_result st
  | Some args =>
      let* data := load args 0 in
      if val_size data <? 0 then string_result [] st else
      let digest := ue_sha1 U (blob_data data) in
      if zlen argv =? 1 then let* s := PrintSha1 digest in string_result s st else
      match matching_digest digest (drop 1 args) with
      | None => string_result [] st
      | Some v => Val (Some v, st)
      end
  end.

Definition ReadFileFn (name : block) (st : St) (argv : list (Arg updater)) : fn_result :=
  if negb (zlen argv =? 1) then ErrorAbort st (expects name "1 arg" (zlen argv)) else
  let* (args, st) := ReadArgs st argv 1 in
  match args with
  | Some [filename] =>
      let* (r, fc, s) := LoadFileContents (ue_sys U) (ue_sha1 U) filename (ue_uninit U) false (u_sys (cookie st)) in
      let w := set_sys s (cookie st) in
      let st := set_cookie w st in
      if negb (r =? 0) then
        ErrorAbort st (name ++ str "() loading " ++ [34] ++ filename ++ [34] ++ str " failed: " ++ u_strerror w)
      else Val (Some (match fc_data fc with Some d => ValBlob d | None => ValNoBlob end), st)
  | _ => null_result st
  end.

(** ** Registration *)

Inductive install_fn :=
| F_Mount | F_IsMounted | F_Unmount | F_Format | F_ShowProgress | F_SetProgress | F_Delete | F_PackageExtractDir
| F_PackageExtractFile | F_Symlink | F_SetMetadata | F_GetProp | F_FileGetProp | F_WriteRawImage | F_ApplyPatch
| F_ApplyPatchCheck | F_ApplyPatchSpace | F_ReadFile | F_Sha1Check | F_Rename | F_WipeCache | F_UIPrint | F_RunProgram.

Definition all_install_fns : list install_fn :=
  [F_Mount; F_IsMounted; F_Unmount; F_Format; F_ShowProgress; F_SetProgress; F_Delete; F_PackageExtractDir;
   F_PackageExtractFile; F_Symlink; F_SetMetadata; F_GetProp; F_FileGetProp; F_WriteRawImage; F_ApplyPatch;
   F_ApplyPatchCheck; F_ApplyPatchSpace; F_ReadFile; F_Sha1Check; F_Rename; F_WipeCache; F_UIPrint; F_RunProgram].

#[global] Instance install_fn_eq_dec : EqDecision install_fn.
Proof. solve_decision. Defined.

(** The pointer to a function, as the interpreter keeps it. *)
Definition fn_index (f : install_fn) : Z := default 0 (Z.of_nat <$> (fst <$> list_find (eq f) all_install_fns)).
Definition ptr (f : install_fn) : Function := External (fn_index f).

Definition run_install_fn (f : install_fn) : block -> St -> list (Arg updater) -> fn_result :=
  match f with
  | F_Mount => MountFn | F_IsMounted => IsMountedFn | F_Unmount => UnmountFn | F_Format => FormatFn
  | F_ShowProgress => ShowProgressFn | F_SetProgress => SetProgressFn | F_Delete => DeleteFn
  | F_PackageExtractDir => PackageExtractDirFn | F_PackageExtractFile => PackageExtractFileFn | F_Symlink => SymlinkFn
  | F_SetMetadata => SetMetadataFn | F_GetProp => GetPropFn | F_FileGetProp => FileGetPropFn
  | F_WriteRawImage => WriteRawImageFn | F_ApplyPatch => ApplyPatchFn | F_ApplyPatchCheck => ApplyPatchCheckFn
  | F_ApplyPatchSpace => ApplyPatchSpaceFn | F_ReadFile => ReadFileFn | F_Sha1Check => Sha1CheckFn | F_Rename => RenameFn
  | F_WipeCache => WipeCacheFn | F_UIPrint => UIPrintFn | F_RunProgram => RunProgramFn
  end.

Definition install_functions : list NamedFunction :=
  [mkNamed (str "mount") (ptr F_Mount); mkNamed (str "is_mounted") (ptr F_IsMounted); mkNamed (str "unmount") (ptr F_Unmount);
   mkNamed (str "format") (ptr F_Format); mkNamed (str "show_progress") (ptr F_ShowProgress);
   mkNamed (str "set_progress") (ptr F_SetProgress); mkNamed (str "delete") (ptr F_Delete);
   mkNamed (str "delete_recursive") (ptr F_Delete); mkNamed (str "package_extract_dir") (ptr F_PackageExtractDir);
   mkNamed (str "package_extract_file") (ptr F_PackageExtractFile); mkNamed (str "symlink") (ptr F_Symlink);
   mkNamed (str "set_metadata") (ptr F_SetMetadata); mkNamed (str "set_metadata_recursive") (ptr F_SetMetadata);
   mkNamed (str "getprop") (ptr F_GetProp); mkNamed (str "file_getprop") (ptr F_FileGetProp);
   mkNamed (str "write_raw_image") (ptr F_WriteRawImage); mkNamed (str "apply_patch") (ptr F_ApplyPatch);
   mkNamed (str "apply_patch_check") (ptr F_ApplyPatchCheck); mkNamed (str "apply_patch_space") (ptr F_ApplyPatchSpace);
   mkNamed (str "read_file") (ptr F_ReadFile); mkNamed (str "sha1_check") (ptr F_Sha1Check); mkNamed (str "rename") (ptr F_Rename);
   mkNamed (str "wipe_cache") (ptr F_WipeCache); mkNamed (str "ui_print") (ptr F_UIPrint); mkNamed (str "run_program") (ptr F_RunProgram)].
Definition RegisterInstallFunctions (r : registry) : outcome registry := register_all install_functions r.

(** Functions of device extensions have other indices. *)
Definition call_external (extension : Z -> block -> St -> list (Arg updater) -> fn_result) (n : Z) :
    block -> St -> list (Arg updater) -> fn_result :=
  match (if 0 <=? n then all_install_fns !! Z.to_nat n else None) with
  | Some f => run_install_fn f
  | None => extension n
  end.
End Updater.

(** ** The program (updater.c) *)

Definition SCRIPT_NAME : block := str "META-INF/com/google/android/updater-script".

(** What surrounds the program: the system of minzip, the memory and, with the extensions of
    the device, the parser that bison generates: its result, the number of errors and the
    expression. *)
Record program_env `{mtd_api} := mkProgramEnv {
  pe_safe_add_uintptr : Z -> Z -> option Z;
  pe_safe_add_long : Z -> Z -> bool;
  pe_malloc_ok : bool;
  pe_calloc_ents : Z -> bool;
  pe_zip_sys : Zip.sys;
  pe_fdopen : Z -> bool;
  pe_extensions : list NamedFunction;
  pe_extension : Z -> block -> State updater -> list (Arg updater) -> outcome (option Value * State updater);
  pe_concat : Z -> block;
  pe_yyparse : registry -> block -> Z * Z * Expr
}.

Section Main.
Context `{Arch} `{mtd_api} (U : updater_env) (Q : program_env).

Definition updater_eval : Expr -> State updater -> outcome (option Value * State updater) :=
  EvaluateValue (pe_concat Q) (call_external U (pe_extension Q)).

(** The registrations, in order. *)
Definition registered : outcome registry :=
  let* r := RegisterBuiltins empty_registry in
  let* r := RegisterInstallFunctions r in
  let* r := register_all (pe_extensions Q) r in
  Val (FinishRegistration r).

(** After the script is parsed: the exit status and the state. *)
Definition run_script (root : Expr) (w : updater) (script_text : block) : outcome (Z * updater) :=
  let w := if ue_sehandle U then w else fprintf_pipe (str "ui_print Warning: No file_contexts" ++ [10]) w in
  let* (result, st) := Evaluate (mkState w script_text None []) (mkArg (updater_eval root) (e_start root) (e_end root)) in
  match result with
  | None =>
      match errmsg st with
      | None => Val (7, fprintf_pipe (str "ui_print script aborted (no error message)" ++ [10]) (cookie st))
      | Some msg =>
          let* (_, w) := print_lines (S (S (length msg))) (msg ++ [0]) 0 (cookie st) in
          Val (7, fprintf_pipe (str "ui_print" ++ [10]) w)
      end
  | Some result =>
      let w := fprintf_pipe (str "ui_print script succeeded: result was [" ++ result ++ str "]" ++ [10]) (cookie st) in
      Val (0, w)
  end.

(** [s], [ks], [g]: the system, the kernel's mounts and the static table of volumes. *)
Definition main (argv : list block) (s : sys) (ks : list mount) (g : MountsState) : outcome (Z * option updater) :=
  if negb (zlen argv =? 4) then Val (1, None) else
  let* version := load argv 1 in
  if negb (bool_decide (version = str "1") || bool_decide (version = str "2") || bool_decide (version = str "3")) then Val (2, None) else
  let* fd := load argv 2 in
  if negb (pe_fdopen Q (i32 (strtol fd).1)) then Trap NullDeref else
  let* (err, za, _) := mzOpenZipArchive (pe_safe_add_uintptr Q) (pe_safe_add_long Q) (pe_malloc_ok Q) (ue_calloc U) (pe_calloc_ents Q)
                         (pe_zip_sys Q) (ue_package U) in
  if negb (err =? 0) then Val (3, None) else
  let w := mkUpdater [] za (i32 (strtol version).1) s ks g [] 20 in
  let* script_entry := package_entry U SCRIPT_NAME w in
  match script_entry with
  | None => Val (4, None)
  | Some script_entry =>
      match ue_malloc U (wrapu word_bits (uncompLen script_entry + 1)) with
      | None => Trap NullDeref
      | Some buffer =>
          let* (ok, buffer) := mzReadZipEntry (ue_package U) (ue_read U) (ue_zlib U) (ue_fuel U) script_entry 0 buffer
                                 (i32 (uncompLen script_entry)) in
          if negb ok then Val (5, None) else
          let* buffer := store buffer (uncompLen script_entry) 0 in
          let* r := registered in
          let* text := c_str buffer in
          let '(error, error_count, root) := pe_yyparse Q r text in
          if negb (error =? 0) || (0 <? error_count) then Val (6, None) else
          let* (status, w) := run_script root w buffer in
          Val (status, Some w)
      end
  end.
End Main.
