(* ===== verification/Boot.v ===== *)
(** * The bootloader control block and the arguments of recovery (bootloader.cpp, get_args)

    The state of the recovery program: the volumes of roots.cpp, the files, the block
    devices and a log of the effects that matter outside.  A file can be reached when its
    volume is mounted.  Every chance outcome is an answer of the environment. *)

From stdpp Require Import base numbers list gmap.
From stdpp Require Import strings.
From S2P Require Import Prelude CString CTokens Edify Sys Mtd Mounts Roots.

(** struct bootloader_message: 32, 32 and 1024 bytes. *)
Record bootloader_message := mkMessage { command : block; status : block; recovery : block }.
#[global] Instance bootloader_message_eq_dec : EqDecision bootloader_message.
Proof. solve_decision. Defined.
Definition zero_message : bootloader_message := mkMessage (replicate 32 0) (replicate 32 0) (replicate 1024 0).
Definition message_bytes (m : bootloader_message) : block := command m ++ status m ++ recovery m.
Definition message_of (b : block) : bootloader_message := mkMessage (slice b 0 32) (slice b 32 32) (slice b 64 1024).

(** What is seen from outside: the control block is written, a volume is formatted, the
    update binary is run, the system is restarted. *)
Inductive effect :=
| SetBoot (m : bootloader_message) (r : Z)
| Format (volume : block) (r : Z)
| RunBinary (binary : block) (args : list block) (status : Z)
| Restart (how : block).

Record rec := mkRec {
  vols : roots; fstab : option (list Volume); rfiles : gmap block inode; devs : gmap block block; log : list effect
}.

(** What surrounds the program: flash, system calls, the table of volumes and fs_mgr, and
    the mask of new files. *)
Record platform := mkPlatform {
  pf_flash : flash_env;
  pf_roots : roots_env;
  pf_read_fstab : option (list Volume);
  pf_add_entry : list Volume -> Volume -> option (list Volume);
  pf_entry : option (list Volume) -> block -> option Volume;
  pf_umask : Z
}.

Section Boot.
Context `{Arch} (P : platform).

Definition set_vols (r : roots) (w : rec) : rec := mkRec r (fstab w) (rfiles w) (devs w) (log w).
Definition set_rfiles (fs : gmap block inode) (w : rec) : rec := mkRec (vols w) (fstab w) fs (devs w) (log w).
Definition set_devs (ds : gmap block block) (w : rec) : rec := mkRec (vols w) (fstab w) (rfiles w) ds (log w).
Definition add_log (e : effect) (w : rec) : rec := mkRec (vols w) (fstab w) (rfiles w) (devs w) (log w ++ [e]).
Definition ask (w : rec) : Z * rec := let '(a, r) := r_ask (pf_roots P) (vols w) in (a, set_vols r w).

(** ** Volumes and files *)

Definition load_volume_table (w : rec) : rec :=
  mkRec (vols w) (match pf_read_fstab P with
                | None => None
                | Some t => pf_add_entry P t (mkVol (str "ramdisk") (str "/tmp") (str "ramdisk") 0)
                end) (rfiles w) (devs w) (log w).

Definition for_path (path : block) (w : rec) : option Volume := volume_for_path (fstab w) (pf_entry P) path.
Definition mount_path (path : block) (w : rec) : outcome (Z * rec) :=
  let* (r, s) := ensure_path_mounted (pf_flash P) (pf_roots P) (fstab w) (pf_entry P) path (vols w) in Val (r, set_vols s w).
Definition unmount_path (path : block) (w : rec) : outcome (Z * rec) :=
  let* (r, s) := ensure_path_unmounted (pf_roots P) (fstab w) (pf_entry P) path (vols w) in Val (r, set_vols s w).

Definition visible (w : rec) (path : block) : bool :=
  match for_path path w with
  | None => true
  | Some v => bool_decide (fs_type v = str "ramdisk") || bool_decide (v_point v ∈ k_point <$> kernel (vols w))
  end.

(** What a path holds. *)
Definition contents (w : rec) (path : block) : option block :=
  match devs w !! path with Some d => Some d | None => f_data <$> rfiles w !! path end.

(** fopen for reading: the contents. *)
Definition fopen_r (path : block) (w : rec) : option block * rec :=
  let '(a, w) := ask w in (if (a <? 0) || negb (visible w path) then None else contents w path, w).
(** What is read until the end, or until an error. *)
Definition read_all (data : block) (w : rec) : block * rec :=
  let '(a, w) := ask w in (if a <? 0 then take (Z.to_nat (- a - 1)) data else data, w).

(** fopen for writing or appending: a device stays as it is. *)
Definition fopen_w (append : bool) (path : block) (w : rec) : bool * rec :=
  let '(a, w) := ask w in
  if (a <? 0) || negb (visible w path) then (false, w) else
  (true, match devs w !! path, rfiles w !! path with
         | Some _, _ => w
         | None, Some f => if append then w else set_rfiles (<[path := mkFile [] (f_mode f) (f_uid f) (f_gid f)]> (rfiles w)) w
         | None, None => set_rfiles (<[path := mkFile [] (Z.land 438 (Z.lnot (pf_umask P))) 0 0]> (rfiles w)) w
         end).

(** The buffered bytes go to the start of a device or to the end of a file, all of them or
    a part before an error. *)
Definition flush (path data : block) (w : rec) : bool * rec :=
  let '(a, w) := ask w in
  let k := if a <? 0 then Z.min (- a - 1) (zlen data) else zlen data in
  match devs w !! path with
  | Some d => let k := Z.min k (zlen d) in
              ((0 <=? a) && (k =? zlen data), set_devs (<[path := take (Z.to_nat k) data ++ drop (Z.to_nat k) d]> (devs w)) w)
  | None =>
      match rfiles w !! path with
      | Some f => (0 <=? a, set_rfiles (<[path := mkFile (f_data f ++ take (Z.to_nat k) data) (f_mode f) (f_uid f) (f_gid f)]> (rfiles w)) w)
      | None => (false, w)
      end
  end.

(** recovery.cpp *)
Definition fopen_path_r (path : block) (w : rec) : outcome (option block * rec) :=
  let* (r, w) := mount_path path w in
  if negb (r =? 0) then Val (None, w) else Val (fopen_r path w).
(** dirCreateHierarchy, whose result is not used, takes a tick. *)
Definition fopen_path_w (append : bool) (path : block) (w : rec) : outcome (bool * rec) :=
  let* (r, w) := mount_path path w in
  if negb (r =? 0) then Val (false, w) else
  let '(_, w) := ask w in Val (fopen_w append path w).

(** ** bootloader.cpp *)

Definition MISC_PAGES : Z := 3.
Definition MISC_COMMAND_PAGE : Z := 1.

(** The partition and the size of its pages. *)
Definition find_misc (v : Volume) (w : rec) : outcome (option (MtdPartition * Z) * rec) :=
  let* (_, fl) := mtd_scan_partitions (pf_flash P) (flash_state (vols w)) in
  match mtd_find_partition_by_name fl (blk_device v) with
  | None => Val (None, set_vols (set_flash fl (vols w)) w)
  | Some part =>
      let '(info, fl) := mtd_partition_info (pf_flash P) part fl in
      Val (match info with Some (_, _, write_size) => Some (part, write_size) | None => None end, set_vols (set_flash fl (vols w)) w)
  end.

(** The first pages; the array [data] has [size] bytes. *)
Definition read_misc (part : MtdPartition) (write_size : Z) (w : rec) : outcome (option block * rec) :=
  let '(ctx, fl) := mtd_read_partition (pf_flash P) part (flash_state (vols w)) in
  match ctx with
  | None => Val (None, set_vols (set_flash fl (vols w)) w)
  | Some ctx =>
      let size := wraps word_bits (write_size * MISC_PAGES) in
      if size <=? 0 then Trap OutOfBounds else
      let* (r, data, ctx, fl) := mtd_read_data (pf_flash P) ctx size fl in
      let fl := mtd_read_close ctx fl in
      Val (if r =? size then Some data else None, set_vols (set_flash fl (vols w)) w)
  end.

Definition get_bootloader_message_mtd (out : bootloader_message) (v : Volume) (w : rec) : outcome (Z * bootloader_message * rec) :=
  let* (part, w) := find_misc v w in
  match part with
  | None => Val (-1, out, w)
  | Some (part, write_size) =>
      let* (data, w) := read_misc part write_size w in
      match data with
      | None => Val (-1, out, w)
      | Some data =>
          let* b := load_bytes data (write_size * MISC_COMMAND_PAGE) 1088 in
          Val (0, message_of b, w)
      end
  end.

Definition set_bootloader_message_mtd (m : bootloader_message) (v : Volume) (w : rec) : outcome (Z * rec) :=
  let* (part, w) := find_misc v w in
  match part with
  | None => Val (-1, w)
  | Some (part, write_size) =>
      let* (data, w) := read_misc part write_size w in
      match data with
      | None => Val (-1, w)
      | Some data =>
          let* data := store_bytes data (write_size * MISC_COMMAND_PAGE) (message_bytes m) in
          let '(ctx, fl) := mtd_write_partition (pf_flash P) part (flash_state (vols w)) in
          match ctx with
          | None => Val (-1, set_vols (set_flash fl (vols w)) w)
          | Some ctx =>
              let* (r, ctx, fl) := mtd_write_data (pf_flash P) ctx data fl in
              if negb (r =? zlen data) then
                let* (_, fl) := mtd_write_close (pf_flash P) ctx fl in Val (-1, set_vols (set_flash fl (vols w)) w)
              else
                let* (r, fl) := mtd_write_close (pf_flash P) ctx fl in
                Val (if negb (r =? 0) then -1 else 0, set_vols (set_flash fl (vols w)) w)
          end
      end
  end.

(** [n] tries. *)
Fixpoint wait_for_device (n : nat) (fn : block) (w : rec) : rec :=
  match n with
  | O => w
  | S n => let '(a, w) := ask w in if (0 <=? a) && bool_decide (is_Some (contents w fn)) then w else wait_for_device n fn w
  end.

Definition get_bootloader_message_block (out : bootloader_message) (v : Volume) (w : rec) : Z * bootloader_message * rec :=
  let w := wait_for_device 10 (blk_device v) w in
  let '(f, w) := fopen_r (blk_device v) w in
  match f with
  | None => (-1, out, w)
  | Some d =>
      let '(a, w) := ask w in  (** fread *)
      if (a <? 0) || (zlen d <? 1088) then (-1, out, w) else
      let '(a, w) := ask w in  (** fclose *)
      if a <? 0 then (-1, out, w) else (0, message_of (take 1088 d), w)
  end.

(** fwrite fails when the bytes that have to be flushed cannot be written. *)
Definition set_bootloader_message_block (m : bootloader_message) (v : Volume) (w : rec) : Z * rec :=
  let w := wait_for_device 10 (blk_device v) w in
  let '(f, w) := fopen_w false (blk_device v) w in
  if negb f then (-1, w) else
  let '(ok, w) := flush (blk_device v) (message_bytes m) w in
  if negb ok then (-1, w) else
  let '(a, w) := ask w in  (** fclose *)
  if a <? 0 then (-1, w) else (0, w).

Definition get_bootloader_message (out : bootloader_message) (w : rec) : outcome (Z * bootloader_message * rec) :=
  match for_path (str "/misc") w with
  | None => Val (-1, out, w)
  | Some v =>
      if bool_decide (fs_type v = str "mtd") then get_bootloader_message_mtd out v w
      else if bool_decide (fs_type v = str "emmc") then Val (get_bootloader_message_block out v w)
      else Val (-1, out, w)
  end.

Definition set_bootloader_message (m : bootloader_message) (w : rec) : outcome (Z * rec) :=
  let* (r, w) :=
    match for_path (str "/misc") w with
    | None => Val (-1, w)
    | Some v =>
        if bool_decide (fs_type v = str "mtd") then set_bootloader_message_mtd m v w
        else if bool_decide (fs_type v = str "emmc") then Val (set_bootloader_message_block m v w)
        else Val (-1, w)
    end in
  Val (r, add_log (SetBoot m r) w).

(** ** The arguments (recovery.cpp) *)

Definition MAX_ARGS : nat := 100.
Definition MAX_ARG_LENGTH : nat := 4096.
Definition COMMAND_FILE : block := str "/cache/recovery/command".
Definition newline (c : Z) : bool := c =? 10.
Definition crlf (c : Z) : bool := (c =? 10) || (c =? 13).

(** The arguments in the control block, and its buffer after strtok. *)
Definition boot_args (argv : list block) (buf : block) : outcome (list block * block) :=
  let* buf := store buf 1023 0 in
  let* (arg, buf, p) := strtok_at newline buf 0 in
  match arg with
  | Some a =>
      if bool_decide (a = str "recovery") then
        let* (ts, buf) := strtok_upto (MAX_ARGS - 1) newline buf p in Val (a :: ts, buf)
      else Val (argv, buf)
  | None => Val (argv, buf)
  end.

(** The lines of the command file, at most [n] arguments; a line without a token is
    skipped. *)
Fixpoint command_args (fuel n : nat) (file : block) : outcome (list block) :=
  match n, file with
  | O, _ | _, [] => Val []
  | S n', _ =>
      match fuel with
      | O => Trap NoFuel
      | S fuel =>
          let (line, file) := fgets (MAX_ARG_LENGTH - 1) file in
          let* (token, _, _) := strtok_at crlf (line ++ [0]) 0 in
          match token with
          | Some t => let* ts := command_args fuel n' file in Val (t :: ts)
          | None => command_args fuel n file
          end
      end
  end.

Fixpoint append_args (args : list block) (buf : block) : outcome block :=
  match args with
  | [] => Val buf
  | a :: args => let* buf := strlcat buf a in let* buf := strlcat buf [10] in append_args args buf
  end.

(** The arguments are written back; the result of set_bootloader_message is not used by
    [get_args]. *)
Definition write_back (argv : list block) (boot : bootloader_message) (w : rec) : outcome (Z * rec) :=
  let* cmd := strlcpy (command boot) (str "boot-recovery") in
  let* buf := strlcpy (recovery boot) (str "recovery" ++ [10]) in
  let* buf := append_args (tail argv) buf in
  set_bootloader_message (mkMessage cmd (status boot) buf) w.

(** The program name stays; a missing one counts as empty. *)
Definition get_args_status (argv : list block) (w : rec) : outcome (list block * Z * rec) :=
  let* (_, boot, w) := get_bootloader_message zero_message w in
  let* (argv, buf) := if (length argv <=? 1)%nat then boot_args argv (recovery boot) else Val (argv, recovery boot) in
  let* (argv, w) :=
    if (length argv <=? 1)%nat then
      let* (fp, w) := fopen_path_r COMMAND_FILE w in
      match fp with
      | None => Val (argv, w)
      | Some data =>
          let '(data, w) := read_all data w in
          let* args := command_args (length data) (MAX_ARGS - 1) data in
          let '(_, w) := ask w in  (** check_and_fclose *)
          Val (default [] (head argv) :: args, w)
      end
    else Val (argv, w) in
  let* (r, w) := write_back argv (mkMessage (command boot) (status boot) buf) w in
  Val (argv, r, w).

Definition get_args (argv : list block) (w : rec) : outcome (list block * rec) :=
  let* (argv, _, w) := get_args_status argv w in Val (argv, w).

Definition set_sdcard_update_bootloader_message (w : rec) : outcome (Z * rec) := write_back [] zero_message w.
End Boot.

(** ** Reading back what was written *)

Definition message_ok (m : bootloader_message) : Prop := zlen (command m) = 32 /\ zlen (status m) = 32 /\ zlen (recovery m) = 1024.

Lemma message_bytes_len m : message_ok m -> zlen (message_bytes m) = 1088.
Proof. intros (H1 & H2 & H3). unfold message_bytes. rewrite !zlen_app. lia. Qed.

Lemma message_of_bytes m t : message_ok m -> message_of (take 1088 (message_bytes m ++ t)) = m.
Proof.
  intros Hm. pose proof (message_bytes_len m Hm) as Hl. rewrite take_app_le by (unfold zlen in Hl; lia). rewrite take_ge by (unfold zlen in Hl; lia).
  destruct Hm as (H1 & H2 & H3), m as [c s r]. unfold message_of, message_bytes. cbn [command status recovery] in *. f_equal.
  - apply (slice_length_app [] c (s ++ r)). lia.
  - rewrite <- H1 at 1. apply (slice_length_app c s r). lia.
  - replace 64 with (zlen (c ++ s)) by zlia. rewrite <- (app_nil_r r) at 1. rewrite app_assoc, (app_assoc (c ++ s)).
    rewrite <- (app_assoc (c ++ s)). apply (slice_length_app (c ++ s) r []). lia.
Qed.

Lemma message_of_ok b : zlen b = 1088 -> message_ok (message_of b).
Proof. intros Hb. unfold message_ok, message_of. cbn [command status recovery]. rewrite !zlen_slice by lia. done. Qed.

Lemma zero_message_ok : message_ok zero_message.
Proof. done. Qed.

(** ** The encoding of the arguments *)

Definition encode (args : list block) : block := str "recovery" ++ [10] ++ concat ((fun a => a ++ [10]) <$> args).
Definition arg_ok (a : block) : Prop := a <> [] /\ plain newline a /\ no_nul a.
Definition args_ok (args : list block) : Prop := Forall arg_ok args /\ (length args < MAX_ARGS)%nat.

Lemma encode_tokens args : Forall arg_ok args -> tokens newline (encode args) = str "recovery" :: args.
Proof.
  intros Ha. unfold encode. cbn [app]. rewrite tokens_cons; [| repeat constructor | done | done]. f_equal.
  induction Ha as [| a args (Hne & Hp & _) _ IH]; [done |]. rewrite fmap_cons. cbn [concat]. rewrite <- app_assoc. cbn [app].
  by rewrite tokens_cons, IH.
Qed.

Lemma encode_nonul args : Forall arg_ok args -> no_nul (encode args).
Proof.
  intros Ha. unfold encode. rewrite !Forall_app. split_and!; [by repeat constructor .. |].
  induction Ha as [| a args (_ & _ & Hn) _ IH]; [constructor |]. rewrite fmap_cons. cbn [concat]. rewrite !Forall_app. split_and!; [done | by repeat constructor | done].
Qed.

Lemma encode_snoc args : exists s, encode args = s ++ [10].
Proof.
  destruct args as [| a args] using rev_ind; [by exists (str "recovery") |].
  exists (str "recovery" ++ [10] ++ concat ((fun a => a ++ [10]) <$> args) ++ a). unfold encode.
  rewrite fmap_app, concat_app. cbn [fmap list_fmap concat]. by rewrite app_nil_r, <- !app_assoc.
Qed.

(** Only the last end of line can be cut off. *)
Lemma encode_cut args : Forall arg_ok args -> zlen (encode args) <= 1024 -> tokens newline (take 1023 (encode args)) = str "recovery" :: args.
Proof.
  intros Ha Hl. rewrite <- (encode_tokens args Ha). destruct (decide (zlen (encode args) = 1024)) as [E |].
  - destruct (encode_snoc args) as [s Es]. rewrite Es in *. rewrite tokens_snoc by done. f_equal.
    rewrite zlen_app in E. change (zlen [10]) with 1 in E. rewrite take_app_le by (unfold zlen in E; lia). apply take_ge. unfold zlen in E. lia.
  - f_equal. apply take_ge. unfold zlen in *. lia.
Qed.

Lemma append_args_spec args : forall s post, no_nul s -> Forall arg_ok args -> length (s ++ 0 :: post) = 1024%nat ->
  exists post', append_args args (s ++ 0 :: post) = Val (take 1023 (s ++ concat ((fun a => a ++ [10]) <$> args)) ++ 0 :: post') /\
    zlen (take 1023 (s ++ concat ((fun a => a ++ [10]) <$> args)) ++ 0 :: post') = 1024.
Proof.
  induction args as [| a args IH]; intros s post Hs Ha Hl; cbn [append_args].
  { exists post. cbn [fmap list_fmap concat]. rewrite app_nil_r. rewrite length_app in Hl. cbn [length] in Hl. rewrite take_ge by lia.
    split; [done |]. unfold zlen. rewrite length_app. cbn [length]. lia. }
  apply Forall_cons in Ha as [(_ & _ & Hn) Ha].
  destruct (strlcat_spec s post a Hs) as (p1 & -> & L1). rewrite Hl in *. change (1024 - 1)%nat with 1023%nat in *. cbn [mbind outcome_bind].
  assert (no_nul (take 1023 (s ++ a))) as Hs1 by (apply Forall_take, Forall_app; done).
  destruct (strlcat_spec (take 1023 (s ++ a)) p1 [10] Hs1) as (p2 & E2 & L2).
  assert (length (take 1023 (s ++ a) ++ 0 :: p1) = 1024%nat) as Hl1 by (unfold zlen in L1; lia).
  rewrite Hl1 in *. change (1024 - 1)%nat with 1023%nat in *. rewrite take_take_app, <- app_assoc in E2, L2. rewrite E2. cbn [mbind outcome_bind].
  destruct (IH (take 1023 (s ++ a ++ [10])) p2) as (p3 & E3 & L3); [apply Forall_take; rewrite !Forall_app; split_and!; [done | done | by repeat constructor] | done | unfold zlen in L2; lia |].
  rewrite take_take_app, <- !app_assoc in E3, L3. exists p3. rewrite fmap_cons. cbn [concat]. rewrite <- app_assoc. done.
Qed.

Definition boots : block := str "boot-recovery" ++ [0].

(** The message of [args]: it makes the bootloader start recovery again. *)
Definition restarts (args : list block) (m : bootloader_message) : Prop :=
  message_ok m /\ boots `prefix_of` command m /\ exists post, recovery m = take 1023 (encode args) ++ 0 :: post.

Lemma store_last buf : zlen buf = 1024 -> exists s post, store buf 1023 0 = Val (s ++ 0 :: post) /\ no_nul s /\ zlen (s ++ 0 :: post) = 1024 /\
  forall s0 post0, buf = s0 ++ 0 :: post0 -> no_nul s0 -> s = s0.
Proof.
  intros Hb. assert (0 <= 1023 < zlen buf) as Hr by lia. destruct (split_nul (<[Z.to_nat 1023 := 0]> buf)) as (s & post & E & Hs).
  { apply list_elem_of_lookup. exists (Z.to_nat 1023). apply list_lookup_insert_eq. unfold zlen in Hb. lia. }
  exists s, post. rewrite (proj2 (store_Val buf _ 1023 0) (conj Hr eq_refl)), E. split_and!; try done.
  - rewrite <- E. by rewrite zlen_insert.
  - intros s0 post0 -> Hs0. rewrite zlen_app, zlen_cons in Hb. pose proof (zlen_nonneg post0).
    assert (exists post1, <[Z.to_nat 1023 := 0]> (s0 ++ 0 :: post0) = s0 ++ 0 :: post1) as [post1 E1].
    { rewrite insert_app_r_alt by (unfold zlen in *; lia). destruct (Z.to_nat 1023 - length s0)%nat; simpl; eauto. }
    rewrite E1 in E. clear -E Hs Hs0. revert s E Hs. induction s0 as [| c s0 IH]; intros [| c' s] E Hs; simplify_eq/=; try done.
    + by apply Forall_cons in Hs as [? _].
    + by apply Forall_cons in Hs0 as [? _].
    + apply Forall_cons in Hs as [_ ?], Hs0 as [_ ?]. f_equal. by apply IH.
Qed.

Lemma boot_args_spec argv buf : zlen buf = 1024 ->
  exists argv' buf', boot_args argv buf = Val (argv', buf') /\ zlen buf' = 1024 /\ (argv' = argv \/ argv' = str "recovery" :: tail argv' /\ args_ok (tail argv')) /\
    forall args post, buf = take 1023 (encode args) ++ 0 :: post -> args_ok args -> zlen (encode args) <= 1024 -> argv' = str "recovery" :: args.
Proof.
  intros Hb. unfold boot_args. destruct (store_last buf Hb) as (s & post & -> & Hs & Hl & Huniq). cbn [mbind outcome_bind].
  pose proof (strtok_at_spec newline [] s post Hs) as Hat. change (zlen (@nil Z)) with 0 in Hat. cbn [app] in Hat.
  assert (forall args post, buf = take 1023 (encode args) ++ 0 :: post -> args_ok args -> zlen (encode args) <= 1024 -> tokens newline s = str "recovery" :: args) as Hgot.
  { intros args post' Eb [Ha _] Hfit. rewrite (Huniq _ _ Eb); [by apply encode_cut |]. by apply Forall_take, encode_nonul. }
  destruct (tokens newline s) as [| t ts] eqn:Et.
  { rewrite Hat. cbn [mbind outcome_bind]. exists argv, (s ++ 0 :: post). split_and!; try done; [by left |].
    intros args post' E1 E2 E3. by specialize (Hgot args post' E1 E2 E3). }
  destruct Hat as (pre' & s' & -> & Ets & Hs' & Hl'). cbn [mbind outcome_bind]. case_bool_decide as Ht.
  - destruct (strtok_upto_spec (MAX_ARGS - 1) newline pre' s' post Hs') as (pre'' & -> & Hpre). cbn [mbind outcome_bind].
    exists (t :: take (MAX_ARGS - 1) (tokens newline s')), (pre'' ++ 0 :: post). rewrite Ets. cbn [tail]. split_and!; [done | | |].
    + rewrite zlen_app, zlen_cons in *. lia.
    + right. rewrite Ht. split; [done |]. split; [| rewrite length_take; unfold MAX_ARGS; lia].
      apply Forall_take. rewrite <- Ets. pose proof (tokens_ok newline s') as H1. pose proof (tokens_Forall _ newline s' Hs') as H2.
      rewrite Forall_forall in H1, H2 |- *. intros x Hx. destruct (H1 x Hx) as [? ?]. split_and!; auto.
    + intros args post' E1 E2 E3. specialize (Hgot args post' E1 E2 E3) as [= -> ->]. f_equal. apply take_ge. destruct E2 as [_ E2]. unfold MAX_ARGS in *. lia.
  - eexists _, _. split; [done |]. split_and!; [rewrite !zlen_app, zlen_cons in *; lia | by left |].
    intros args post' E1 E2 E3. by specialize (Hgot args post' E1 E2 E3) as [= ].
Qed.

Lemma crlf_newline a : plain crlf a -> plain newline a.
Proof. intros Ha. eapply Forall_impl; [exact Ha |]. intros c Hc. unfold crlf in Hc. by apply orb_false_iff in Hc as [? _]. Qed.

Lemma command_args_spec : forall fuel n file, (length file <= fuel)%nat ->
  exists args, command_args fuel n file = Val args /\ Forall arg_ok args /\ (length args <= n)%nat.
Proof.
  induction fuel as [| fuel IH]; intros n file Hf; (destruct n as [| n]; [by exists [] |]).
  { destruct file; [| simpl in Hf; lia]. exists []. split_and!; [done | constructor | simpl; lia]. }
  destruct file as [| c file]; [exists []; split_and!; [done | constructor | simpl; lia] |]. cbn [command_args].
  pose proof (fgets_spec (MAX_ARG_LENGTH - 1) (c :: file)) as Hg. destruct (fgets _ _) as [l r].
  destruct Hg as [E Hne]; [unfold MAX_ARG_LENGTH; lia | done |].
  assert (length r <= fuel)%nat as Hr by (rewrite E, length_app in Hf; destruct l; [done |]; simpl in Hf; lia).
  destruct (split_nul (l ++ [0])) as (s & post & -> & Hs); [apply elem_of_app; right; by left |].
  pose proof (strtok_at_spec crlf [] s post Hs) as Hat. change (zlen (@nil Z)) with 0 in Hat. cbn [app] in Hat.
  destruct (tokens crlf s) as [| t ts] eqn:Et.
  - rewrite Hat. cbn [mbind outcome_bind]. by apply IH.
  - destruct Hat as (? & ? & -> & _). cbn [mbind outcome_bind]. destruct (IH n r Hr) as (args & -> & Ha & Hl). cbn [mbind outcome_bind].
    exists (t :: args). split_and!; [done | | simpl; lia]. constructor; [| done].
    pose proof (tokens_ok crlf s) as H1. pose proof (tokens_Forall _ crlf s Hs) as H2. rewrite Et in H1, H2.
    apply Forall_cons in H1 as [[? Hp] _], H2 as [? _]. split_and!; [done | by apply crlf_newline | done].
Qed.

Lemma strlcpy_fits buf src : zlen src < zlen buf -> no_nul src ->
  exists post, strlcpy buf src = Val (src ++ 0 :: post) /\ zlen (src ++ 0 :: post) = zlen buf.
Proof.
  intros Hl Hs. pose proof (zlen_nonneg src). destruct (strlcpy_spec buf src) as (post & E & Hz); [lia | done |].
  rewrite take_ge in E, Hz by (unfold zlen in *; lia). eauto.
Qed.

Section Restart.
Context `{A : Arch} (P : platform).

(** The message that is written back. *)
Lemma write_back_message argv boot w : message_ok boot -> Forall arg_ok (tail argv) ->
  exists m, restarts (tail argv) m /\ write_back P argv boot w = set_bootloader_message P m w.
Proof.
  intros (Hc & Hs & Hr) Ha. unfold write_back.
  destruct (strlcpy_fits (command boot) (str "boot-recovery")) as (pc & -> & Lc); [rewrite Hc; vm_compute; done | by repeat constructor |].
  destruct (strlcpy_fits (recovery boot) (str "recovery" ++ [10])) as (pr & -> & Lr); [rewrite Hr; vm_compute; done | by repeat constructor |].
  cbn [mbind outcome_bind]. rewrite Hr in Lr.
  destruct (append_args_spec (tail argv) (str "recovery" ++ [10]) pr) as (post & Ep & Lp); [by repeat constructor | done | unfold zlen in Lr; lia |].
  rewrite Ep. cbn [mbind outcome_bind]. eexists. split; [| reflexivity]. split_and!.
  - unfold message_ok. cbn [command status recovery]. split_and!; [congruence | done |]. rewrite <- app_assoc in Lp. done.
  - exists pc. unfold boots. by rewrite <- app_assoc.
  - exists post. cbn [recovery]. unfold encode. by rewrite <- app_assoc.
Qed.

(** ** The control block on a block device *)

Definition on_emmc (v : Volume) (w : rec) : Prop := for_path P (str "/misc") w = Some v /\ fs_type v = str "emmc".

Lemma wait_frame n fn w : exists r, wait_for_device P n fn w = set_vols r w.
Proof.
  revert w. induction n as [| n IH]; intros w; cbn [wait_for_device]; [by exists (vols w); destruct w |].
  unfold ask. destruct (r_ask _ _) as [a r]. destruct (_ && _); [eauto |]. destruct (IH (set_vols r w)) as [r' ->]. by exists r'.
Qed.

Lemma set_block_ok m v w w' : message_ok m -> set_bootloader_message_block P m v w = (0, w') ->
  fstab w' = fstab w /\ exists t, contents w' (blk_device v) = Some (message_bytes m ++ t).
Proof.
  intros Hm. unfold set_bootloader_message_block. destruct (wait_frame 10 (blk_device v) w) as [r0 ->].
  unfold fopen_w, ask. destruct (r_ask _ _) as [a r1]. destruct (_ || _); [done |]. cbn [negb].
  pose proof (message_bytes_len m Hm) as Hl. unfold flush, ask. 
  destruct (devs w !! blk_device v) as [d |] eqn:Ed.
  - cbn [set_vols devs]. rewrite Ed. destruct (r_ask _ _) as [b r2]. cbn [devs set_vols]. rewrite Ed.
    destruct ((0 <=? b) && _) eqn:Eb; [| done]. apply andb_true_iff in Eb as [Hb Hk]. apply Z.leb_le in Hb. apply Z.eqb_eq in Hk.
    rewrite (proj2 (Z.ltb_ge b 0)) in * by done. cbn [negb]. destruct (r_ask _ _) as [c r3]. destruct (c <? 0); [done |].
    intros [= <-]. split; [done |]. unfold contents. cbn [devs set_vols set_devs]. rewrite lookup_insert_eq. eexists. f_equal. f_equal.
    rewrite Hk. apply take_ge. unfold zlen. lia.
  - cbn [set_vols devs rfiles]. rewrite Ed.
    destruct (rfiles w !! blk_device v) as [f |] eqn:Ef; destruct (r_ask _ _) as [b r2]; cbn [devs set_vols set_rfiles rfiles]; rewrite Ed, lookup_insert_eq;
      destruct (0 <=? b) eqn:Eb; try done; apply Z.leb_le in Eb; rewrite (proj2 (Z.ltb_ge b 0)) by done; cbn [negb];
      destruct (r_ask _ _) as [c r3]; (destruct (c <? 0); [done |]); intros [= <-]; (split; [done |]); unfold contents; cbn [devs rfiles set_vols set_rfiles];
      rewrite Ed, lookup_insert_eq; exists []; cbn [fmap option_fmap option_map f_data app]; rewrite app_nil_r; f_equal; apply take_ge; unfold zlen; lia.
Qed.

Lemma get_block_ok m v w t : message_ok m -> contents w (blk_device v) = Some (message_bytes m ++ t) ->
  exists r out s, get_bootloader_message_block P zero_message v w = (r, out, set_vols s w) /\ (r = 0 /\ out = m \/ r = -1 /\ out = zero_message).
Proof.
  intros Hm Hc. unfold get_bootloader_message_block. destruct (wait_frame 10 (blk_device v) w) as [r0 ->].
  unfold fopen_r, ask. destruct (r_ask _ _) as [a r1]. destruct (_ || _); [eauto 10 |].
  assert (contents (set_vols r1 (set_vols r0 w)) (blk_device v) = Some (message_bytes m ++ t)) as -> by exact Hc.
  destruct (r_ask _ _) as [b r2]. pose proof (message_bytes_len m Hm) as Hl.
  rewrite (proj2 (Z.ltb_ge (zlen (message_bytes m ++ t)) 1088)) by (rewrite zlen_app; zlia).
  destruct (b <? 0); [by eauto 10 |]. cbn [orb]. destruct (r_ask _ _) as [c r3]. destruct (c <? 0); [by eauto 10 |].
  rewrite message_of_bytes by done. eauto 10.
Qed.
Lemma get_block_frame v w : exists r out s, get_bootloader_message_block P zero_message v w = (r, out, set_vols s w) /\ message_ok out.
Proof.
  unfold get_bootloader_message_block. destruct (wait_frame 10 (blk_device v) w) as [r0 ->].
  unfold fopen_r, ask. destruct (r_ask _ _) as [a r1]. destruct (if _ || _ then None else _) as [d |]; [| by eauto 10 using zero_message_ok].
  destruct (r_ask _ _) as [b r2]. destruct ((b <? 0) || (zlen d <? 1088)) eqn:Eb; [by eauto 10 using zero_message_ok |]. destruct (r_ask _ _) as [c r3].
  destruct (c <? 0); [by eauto 10 using zero_message_ok |]. eexists _, _, _. split; [reflexivity |]. apply message_of_ok.
  apply orb_false_iff in Eb as [_ Eb%Z.ltb_ge]. unfold zlen in *. rewrite length_take. lia.
Qed.

(** The message of the arguments is on the device after a successful write. *)
Definition bcb_of (v : Volume) (args : list block) (w : rec) : Prop :=
  exists m t, restarts args m /\ contents w (blk_device v) = Some (message_bytes m ++ t).

Lemma write_back_ok v argv boot w w' : on_emmc v w -> message_ok boot -> Forall arg_ok (tail argv) ->
  write_back P argv boot w = Val (0, w') -> fstab w' = fstab w /\ bcb_of v (tail argv) w'.
Proof.
  intros [Hv Hfs] Hb Ha Hw. destruct (write_back_message argv boot w Hb Ha) as (m & Hm & E). rewrite E in Hw. clear E.
  unfold set_bootloader_message in Hw. rewrite Hv, Hfs in Hw. cbn in Hw.
  destruct (set_bootloader_message_block P m v w) as [r w1] eqn:Es. injection Hw as -> <-.
  destruct (set_block_ok m v w w1) as [Hf (t & Ht)]; [apply Hm | done |]. split; [done |]. exists m, t. split; [done |]. exact Ht.
Qed.

Lemma write_back_total v argv boot w : on_emmc v w -> message_ok boot -> Forall arg_ok (tail argv) ->
  exists r w', write_back P argv boot w = Val (r, w').
Proof.
  intros [Hv Hfs] Hb Ha. destruct (write_back_message argv boot w Hb Ha) as (m & _ & ->). unfold set_bootloader_message. rewrite Hv, Hfs. cbn.
  destruct (set_bootloader_message_block P m v w). eauto.
Qed.

Lemma get_message_emmc v out w : on_emmc v w -> get_bootloader_message P out w = Val (get_bootloader_message_block P out v w).
Proof. intros [Hv Hfs]. unfold get_bootloader_message. rewrite Hv, Hfs. done. Qed.

Lemma fopen_path_r_frame path w fp w' : fopen_path_r P path w = Val (fp, w') -> fstab w' = fstab w.
Proof.
  unfold fopen_path_r, mount_path. intros Hf. apply bind_Val_inv in Hf as ([r w1] & Em & Hf). apply bind_Val_inv in Em as ([r1 s1] & _ & Em). simplify_eq.
  destruct (negb _); [injection Hf as _ <-; done |]. unfold fopen_r, ask in Hf. destruct (r_ask (pf_roots P) (vols (set_vols s1 w))) as [a s2]. injection Hf as _ <-. done.
Qed.

(** What the command file gives. *)
Lemma command_file_ok argv w argv' w' :
  (let* (fp, w) := fopen_path_r P COMMAND_FILE w in
   match fp with
   | None => Val (argv, w)
   | Some data =>
       let '(data, w) := read_all P data w in
       let* args := command_args (length data) (MAX_ARGS - 1) data in
       let '(_, w) := ask P w in Val (default [] (head argv) :: args, w)
   end) = Val (argv', w') -> args_ok (tail argv) -> fstab w' = fstab w /\ args_ok (tail argv').
Proof.
  intros Hf Ha. apply bind_Val_inv in Hf as ([fp w1] & Ef & Hf). apply fopen_path_r_frame in Ef as Hw1.
  destruct fp as [data |]; [| by simplify_eq]. unfold read_all, ask in Hf. destruct (r_ask _ _) as [a r1].
  set (data' := if a <? 0 then _ else _) in Hf. destruct (command_args_spec (length data') (MAX_ARGS - 1) data') as (args & Ea & Hargs & Hl); [done |].
  rewrite Ea in Hf. cbn [mbind outcome_bind] in Hf. destruct (r_ask _ _) as [b r2]. simplify_eq. split; [done |]. split; [done |]. unfold MAX_ARGS in *. simpl. lia.
Qed.

Lemma get_args_written v argv w argv' w' : on_emmc v w -> args_ok (tail argv) ->
  get_args_status P argv w = Val (argv', 0, w') -> fstab w' = fstab w /\ args_ok (tail argv') /\ bcb_of v (tail argv') w'.
Proof.
  intros Hv Ha Hg. unfold get_args_status in Hg. rewrite (get_message_emmc v) in Hg by done.
  destruct (get_block_frame v w) as (r0 & boot & s0 & E0 & Hboot). rewrite E0 in Hg. cbn [mbind outcome_bind] in Hg.
  apply bind_Val_inv in Hg as ([argv1 buf] & E1 & Hg). pose proof Hboot as (Hc & Hs & Hr).
  assert (zlen buf = 1024 /\ args_ok (tail argv1)) as [Hbuf Ha1].
  { destruct (_ <=? _)%nat; [| by simplify_eq]. destruct (boot_args_spec argv _ Hr) as (a1 & b1 & E & Hb1 & Hor & _). rewrite E in E1.
    simplify_eq. split; [done |]. destruct Hor as [-> | [_ ?]]; done. }
  apply bind_Val_inv in Hg as ([argv2 w2] & E2 & Hg).
  assert (fstab w2 = fstab w /\ args_ok (tail argv2)) as [Hf2 Ha2].
  { destruct (_ <=? _)%nat in E2; [| by simplify_eq]. by apply command_file_ok in E2. }
  apply bind_Val_inv in Hg as ([r3 w3] & E3 & Hg). simplify_eq.
  apply (write_back_ok v) in E3 as [Hf3 Hb]; [split_and!; [congruence | done | done] | | done | apply Ha2].
  destruct Hv as [Hv Hfs]. split; [| done]. unfold for_path. by rewrite Hf2.
Qed.

Lemma get_args_again v args argv w : on_emmc v w -> args_ok args -> args <> [] -> zlen (encode args) <= 1024 -> bcb_of v args w ->
  (length argv <= 1)%nat -> (get_bootloader_message_block P zero_message v w).1.1 = 0 ->
  exists r w', get_args_status P argv w = Val (str "recovery" :: args, r, w').
Proof.
  intros Hv Ha Hne Hfit (m & t & (Hm & _ & post & Er) & Hc) Hargv Hget. unfold get_args_status. rewrite (get_message_emmc v) by done.
  destruct (get_block_ok m v w t Hm Hc) as (r0 & out & s0 & E0 & Hout). rewrite E0 in *. cbn [fst] in Hget.
  destruct Hout as [[_ ->] | [? _]]; [| congruence]. cbn [mbind outcome_bind]. rewrite (proj2 (Nat.leb_le _ _)) by done.
  destruct Hm as (H1 & H2 & H3). destruct (boot_args_spec argv (recovery m) H3) as (a1 & b1 & -> & Hb1 & _ & Ha1).
  rewrite (Ha1 args post Er Ha Hfit). cbn [mbind outcome_bind]. destruct args as [| a args]; [done |]. cbn [length Nat.leb mbind outcome_bind].
  destruct (write_back_total v (str "recovery" :: a :: args) (mkMessage (command m) (status m) b1) (set_vols s0 w)) as (r & w' & ->).
  - exact Hv.
  - done.
  - apply Ha.
  - cbn [mbind outcome_bind]. eauto.
Qed.

(** C3: an interrupted recovery is restarted.  Once [get_args] has written its arguments to
    the control block (its call of set_bootloader_message returned 0) and they fit, the
    bootloader starts recovery again, and every later [get_args] without arguments on the
    command line that can read the block gets exactly the same arguments back: whatever
    has happened meanwhile to the files (the command file is not needed), the mounts and
    the volumes. *)
Theorem get_args_restartable v argv w argv' w' : on_emmc v w -> args_ok (tail argv) ->
  get_args_status P argv w = Val (argv', 0, w') -> zlen (encode (tail argv')) <= 1024 ->
  (exists m t, contents w' (blk_device v) = Some (message_bytes m ++ t) /\ boots `prefix_of` command m) /\
  forall argv2 w2, (length argv2 <= 1)%nat -> fstab w2 = fstab w -> contents w2 (blk_device v) = contents w' (blk_device v) ->
    (get_bootloader_message_block P zero_message v w2).1.1 = 0 -> tail argv' <> [] ->
    exists r w3, get_args_status P argv2 w2 = Val (str "recovery" :: tail argv', r, w3).
Proof.
  intros Hv Ha Hg Hfit. destruct (get_args_written v argv w argv' w' Hv Ha Hg) as (Hf & Hok & Hb). split.
  - destruct Hb as (m & t & (_ & ? & _) & ?). eauto.
  - intros argv2 w2 Hl Hf2 Hc Hget Hne. apply (get_args_again v); try done.
    + destruct Hv as [Hv Hfs]. split; [| done]. unfold for_path. by rewrite Hf2.
    + unfold bcb_of. by rewrite Hc.
Qed.
End Restart.

(** ** A concrete device *)

Definition demo_boot_fstab : list Volume :=
  [mkVol (str "/dev/misc") (str "/misc") (str "emmc") 0; mkVol (str "/dev/mmc3") (str "/cache") (str "ext4") 0].
Definition demo_prefix (t : option (list Volume)) (p : block) : option Volume :=
  match t with Some vs => snd <$> list_find (fun v => v_point v `prefix_of` p) vs | None => None end.
Definition demo_platform : platform :=
  mkPlatform (MtdScan.demo_table_env []) demo_roots_env (Some demo_boot_fstab) (fun t v => Some (t ++ [v])) demo_prefix 63.
Definition demo_command (text : block) : rec :=
  mkRec (mkRoots [] g_mounts_state MtdScan.blank_flash 0 []) (Some demo_boot_fstab)
    {[ COMMAND_FILE := mkFile text 384 0 0 ]} {[ str "/dev/misc" := replicate 1100 0 ]} [].
Definition state_after (o : outcome (list block * Z * rec)) : rec :=
  match o with Val (_, _, w) => w | Trap _ => demo_command [] end.
Definition demo_written (text : block) : rec := state_after (get_args_status (H := ILP32) demo_platform [str "/sbin/recovery"] (demo_command text)).
Definition wipe_command : block := str "--wipe_data" ++ [10] ++ str "--locale=en_US" ++ [13; 10].

(** The command file is gone at the second start. *)
Lemma get_args_restartable_witness :
  get_args_status (H := ILP32) demo_platform [str "/sbin/recovery"] (demo_command wipe_command) =
    Val ([str "/sbin/recovery"; str "--wipe_data"; str "--locale=en_US"], 0, demo_written wipe_command) /\
  exists r w3, get_args_status (H := ILP32) demo_platform [str "/sbin/recovery"] (set_rfiles ∅ (demo_written wipe_command)) =
    Val ([str "recovery"; str "--wipe_data"; str "--locale=en_US"], r, w3).
Proof.
  assert (get_args_status (H := ILP32) demo_platform [str "/sbin/recovery"] (demo_command wipe_command) =
    Val ([str "/sbin/recovery"; str "--wipe_data"; str "--locale=en_US"], 0, demo_written wipe_command)) as E by (vm_compute; reflexivity).
  split; [exact E |].
  destruct (@get_args_restartable ILP32 demo_platform (mkVol (str "/dev/misc") (str "/misc") (str "emmc") 0) [str "/sbin/recovery"]
    (demo_command wipe_command) [str "/sbin/recovery"; str "--wipe_data"; str "--locale=en_US"] (demo_written wipe_command)) as [_ Hagain].
  - split; reflexivity.
  - split; [constructor | vm_compute; lia].
  - exact E.
  - vm_compute. discriminate.
  - apply Hagain; [vm_compute; lia | vm_compute; reflexivity | vm_compute; reflexivity | vm_compute; reflexivity | discriminate].
Defined.

(** Arguments that do not fit are cut: after a restart another package is named. *)
Definition long_command : block := str "--update_package=/cache/" ++ replicate 1000 97 ++ str ".zip" ++ [10].
Example long_arguments_cut :
  match get_args_status (H := ILP32) demo_platform [str "/sbin/recovery"] (demo_command long_command) with
  | Val (argv, _, w) =>
      match get_args_status (H := ILP32) demo_platform [str "/sbin/recovery"] w with
      | Val (argv', _, _) => Some (length <$> argv, length <$> argv')
      | Trap _ => None
      end
  | Trap _ => None
  end = Some ([14; 1028], [8; 1014])%nat.
Proof. vm_compute. reflexivity. Qed.

(** A flash partition with small pages: three of them are shorter than a page and the
    message together. *)
Definition misc_flash (page : Z) : flash_env :=
  mkFlashEnv (fun _ => 2 ^ 30) (fun _ _ _ => IsGood) (fun _ _ new => new) (fun _ b => b) (fun _ => 0)
    (fun _ => Some (MtdScan.print_table [MtdScan.mkLine 0 32768 16384 (str "misc")])) (fun _ => Some (32768, 16384, page))
    (fun n => Some (replicate (Z.to_nat n) 0)).
Definition misc_platform (page : Z) : platform :=
  mkPlatform (misc_flash page) demo_roots_env (Some []) (fun t v => Some t) (fun _ _ => Some (mkVol (str "misc") (str "/misc") (str "mtd") 0)) 63.
Definition misc_rec : rec :=
  mkRec (mkRoots [] g_mounts_state (mkFlash (mkTable None (-1)) {[ 0 := replicate (Z.to_nat 32768) 255 ]} 0) 0 []) (Some []) ∅ ∅ [].
Example small_pages_overflow :
  set_bootloader_message (H := ILP32) (misc_platform 512) zero_message misc_rec = Trap OutOfBounds.
Proof. vm_compute. reflexivity. Qed.
(** With pages of 2048 bytes the message is written and read back. *)
Example large_pages_work :
  match set_bootloader_message (H := ILP32) (misc_platform 2048) (mkMessage (replicate 32 1) (replicate 32 2) (replicate 1024 3)) misc_rec with
  | Val (0, w) => match get_bootloader_message (H := ILP32) (misc_platform 2048) zero_message w with
                  | Val (r, m, _) => (r, bool_decide (m = mkMessage (replicate 32 1) (replicate 32 2) (replicate 1024 3)))
                  | Trap _ => (-2, false)
                  end
  | _ => (-1, false)
  end = (0, true).
Proof. vm_compute. reflexivity. Qed.
