(* ===== verification/Install.v ===== *)
(** * Installing an update package (install.cpp)

    [install_package] composes the volumes (Roots.v), the keys (Keys.v), the check of the
    signature (Verifier.v) and the archive (Zip.v, ZipExtract.v).  The update binary runs
    outside: what it writes to its pipe, its exit status and what it does to the system
    are a parameter. *)

From stdpp Require Import base numbers list gmap.
From stdpp Require Import strings.
From S2P Require Import Prelude CString CTokens Hash Zip ZipExtract Edify Sys Mtd Mounts Roots Verifier Keys Boot.

(** install.h *)
Definition INSTALL_SUCCESS : Z := 0.
Definition INSTALL_ERROR : Z := 1.
Definition INSTALL_CORRUPT : Z := 2.
Definition INSTALL_NONE : Z := 3.

Definition ASSUMED_UPDATE_BINARY_NAME : block := str "META-INF/com/google/android/update-binary".
Definition PUBLIC_KEYS_FILE : block := str "/res/keys".
Definition binary : block := str "/tmp/update_binary".

(** What the user sees. *)
Inductive ui_call :=
| ShowProgress (fraction : block) (seconds : Z)
| SetProgress (fraction : block)
| UiPrint (text : block)
| ClearDisplay.

(** What surrounds the installation: stdio for the check of the signature, the system
    calls and allocations of minzip for the file given, zlib, and the update binary with
    its arguments: its output, its status as waitpid gives it and the system it leaves. *)
Record installer := mkInstaller {
  in_io : nat -> bool;
  in_mem : nat -> bool;
  in_safe_add_uintptr : Z -> Z -> option Z;
  in_safe_add_long : Z -> Z -> bool;
  in_malloc_ok : bool;
  in_calloc : Z -> bool;
  in_calloc_ents : Z -> bool;
  in_sys : block -> Zip.sys;
  in_read : block -> Z -> Z -> Z;
  in_zlib : zlib;
  in_fuel : nat;
  in_writes : nat -> list (Z * Z);
  in_api : block;
  in_pipe : block;
  in_run : block -> list block -> rec -> block * Z * rec
}.

Section Install.
Context `{Arch} `{mincrypt} (P : platform) (I : installer).

Definition WIFEXITED (status : Z) : bool := Z.land status 127 =? 0.
Definition WEXITSTATUS (status : Z) : Z := Z.land (Z.shiftr status 8) 255.

(** The delimiters " \n". *)
Definition space_nl (c : Z) : bool := (c =? 32) || (c =? 10).

(** strtof and strtol of a null pointer. *)
Definition given (t : option block) : outcome block := match t with Some t => Val t | None => Trap NullDeref end.

(** One line of the child: what is shown, and [*wipe_cache]. *)
Definition child_command (line : block) (wipe_cache : Z) : outcome (list ui_call * Z) :=
  let* (command, buf, p) := strtok_at space_nl (line ++ [0]) 0 in
  match command with
  | None => Val ([], wipe_cache)
  | Some command =>
      if bool_decide (command = str "progress") then
        let* (fraction_s, buf, p) := strtok_at space_nl buf p in
        let* (seconds_s, _, _) := strtok_at space_nl buf p in
        let* fraction := given fraction_s in
        let* seconds := given seconds_s in
        Val ([ShowProgress fraction (wraps 32 (strtol seconds).1)], wipe_cache)
      else if bool_decide (command = str "set_progress") then
        let* (fraction_s, _, _) := strtok_at space_nl buf p in
        let* fraction := given fraction_s in
        Val ([SetProgress fraction], wipe_cache)
      else if bool_decide (command = str "ui_print") then
        let* (text, _, _) := strtok_at newline buf p in
        Val ([UiPrint (default [10] text)], wipe_cache)
      else if bool_decide (command = str "wipe_cache") then Val ([], 1)
      else if bool_decide (command = str "clear_display") then Val ([ClearDisplay], wipe_cache)
      else Val ([], wipe_cache)
  end.

(** The lines of the output. *)
Fixpoint child_commands (fuel : nat) (output : block) (wipe_cache : Z) : outcome (list ui_call * Z) :=
  match output, fuel with
  | [], _ => Val ([], wipe_cache)
  | _, O => Trap NoFuel
  | _, S fuel =>
      let (line, output) := fgets 1023 output in
      let* (calls, wipe_cache) := child_command line wipe_cache in
      let* (more, wipe_cache) := child_commands fuel output wipe_cache in
      Val (calls ++ more, wipe_cache)
  end.

(** unlink and creat with mode 0755. *)
Definition unlink (path : block) (w : rec) : bool * rec :=
  let '(a, w) := ask P w in
  match (if (a <? 0) || negb (visible P w path) then None else rfiles w !! path) with
  | Some _ => (true, set_rfiles (delete path (rfiles w)) w)
  | None => (false, w)
  end.
Definition creat (path : block) (w : rec) : bool * rec :=
  let '(a, w) := ask P w in
  if (a <? 0) || negb (visible P w path) then (false, w) else
  (true, set_rfiles (<[path := match rfiles w !! path with
                               | Some f => mkFile [] (f_mode f) (f_uid f) (f_gid f)
                               | None => mkFile [] (Z.land 493 (Z.lnot (pf_umask P))) 0 0
                               end]> (rfiles w)) w).
(** What write appends to an open file. *)
Definition written_to (path data : block) (w : rec) : rec :=
  match rfiles w !! path with
  | Some f => set_rfiles (<[path := mkFile (f_data f ++ data) (f_mode f) (f_uid f) (f_gid f)]> (rfiles w)) w
  | None => w
  end.

(** Running what the file holds. *)
Definition run_binary (path : block) (w : rec) : block * Z * rec :=
  let args := [binary; in_api I; in_pipe I; path] in
  let program := default [] (contents w binary) in
  let '(output, status, w) := in_run I program args w in
  (output, status, add_log (RunBinary program args status) w).

(** [file]: the package; [zip]: the open archive. *)
Definition try_update_binary (path file : block) (zip : ZipArchive) (wipe_cache : Z) (w : rec) : outcome (Z * Z * list ui_call * rec) :=
  let* entry := mzFindZipEntry (in_calloc I) file zip (ASSUMED_UPDATE_BINARY_NAME ++ [0]) in
  match entry with
  | None => Val (INSTALL_CORRUPT, wipe_cache, [], w)
  | Some i =>
      let* ents := match pZipEntries zip with Some ents => Val ents | None => Trap NullDeref end in
      let* binary_entry := load ents i in
      let '(_, w) := unlink binary w in
      let '(fd, w) := creat binary w in
      if negb fd then Val (INSTALL_ERROR, wipe_cache, [], w) else
      let* (ok, out) := mzExtractZipEntryToFile file (in_read I file) (in_zlib I) (in_fuel I) binary_entry 0
                          (mkSink (in_writes I (r_tick (vols w))) []) in
      let w := written_to binary (sk_bytes out) w in
      if negb ok then Val (INSTALL_ERROR, wipe_cache, [], w) else
      let '(output, status, w) := run_binary path w in
      let* (calls, wipe_cache) := child_commands (length output) output 0 in
      if negb (WIFEXITED status) || negb (WEXITSTATUS status =? 0) then Val (INSTALL_ERROR, wipe_cache, calls, w)
      else Val (INSTALL_SUCCESS, wipe_cache, calls, w)
  end.

Definition really_install_package (path : block) (wipe_cache : Z) (w : rec) : outcome (Z * Z * list ui_call * rec) :=
  let* (r, w) := mount_path P path w in
  if negb (r =? 0) then Val (INSTALL_CORRUPT, wipe_cache, [], w) else
  let '(keys_file, w) := fopen_r P PUBLIC_KEYS_FILE w in
  let* loadedKeys := load_keys keys_file in
  match loadedKeys with
  | None => Val (INSTALL_CORRUPT, wipe_cache, [], w)
  | Some loadedKeys =>
      let '(package, w) := fopen_r P path w in
      let* err := verify_file (in_io I) package (in_mem I) loadedKeys in
      if negb (err =? VERIFY_SUCCESS) then Val (INSTALL_CORRUPT, wipe_cache, [], w) else
      let file := default [] (contents w path) in
      let* (err, zip, _) := mzOpenZipArchive (in_safe_add_uintptr I) (in_safe_add_long I) (in_malloc_ok I) (in_calloc I) (in_calloc_ents I) (in_sys I file) file in
      if negb (err =? 0) then Val (INSTALL_CORRUPT, wipe_cache, [], w) else
      try_update_binary path file zip wipe_cache w
  end.

Definition setup_mounts (w : rec) : outcome (Z * rec) :=
  let* (r, s) := setup_install_mounts (pf_flash P) (pf_roots P) (fstab w) (pf_entry P) (vols w) in Val (r, set_vols s w).

(** The log of the installation stays in its buffer until it is closed. *)
Definition install_package (path : block) (wipe_cache : Z) (install_file : block) (w : rec) : outcome (Z * Z * list ui_call * rec) :=
  let* (install_log, w) := fopen_path_w P false install_file w in
  let* (m, w) := setup_mounts w in
  let* (result, wipe_cache, calls, w) :=
    if negb (m =? 0) then Val (INSTALL_ERROR, wipe_cache, [], w) else really_install_package path wipe_cache w in
  let w := if (install_log : bool) then (flush P install_file (path ++ [10] ++ [if result =? INSTALL_SUCCESS then 49 else 48] ++ [10]) w).2 else w in
  Val (result, wipe_cache, calls, w).
End Install.

(** ** Only signed packages are run *)

Section Verified.
Context `{A : Arch} `{C : mincrypt} (P : platform) (I : installer).
Variable zinv : zstate (in_zlib I) -> block -> block -> Prop.
Variable decoded : block -> block -> Prop.

(** The libraries and the kernel behave as documented on the package [data]; the update
    binary does not write this program's log. *)
Record installer_ok (data : block) : Prop := {
  io_zlib : zlib_ok (in_zlib I) zinv decoded;
  io_add1 : safe_add_uintptr_ok (in_safe_add_uintptr I);
  io_add2 : safe_add_long_ok (in_safe_add_long I);
  io_sys : sys_ok (in_sys I data) data;
  io_read : read_ok data (in_read I data);
  io_fuel : 1033 * zlen data < Z.of_nat (in_fuel I);
  io_run b args w : log (in_run I b args w).2 = log w
}.

(** [program] is the update binary of the archive [data]. *)
Definition update_binary_of (data program : block) : Prop :=
  exists pMap n cd e, zip_wf data pMap n cd /\ e ∈ cen_entry data <$> cen_walk data (Z.to_nat n) cd /\
    entry_name data e = ASSUMED_UPDATE_BINARY_NAME /\ entry_contents data decoded e program.

Lemma ask_frame w : exists s, (ask P w).2 = set_vols s w.
Proof. unfold ask. destruct (r_ask _ _). eauto. Qed.

Lemma fopen_r_frame path w : exists s, (fopen_r P path w).2 = set_vols s w /\
  forall d, (fopen_r P path w).1 = Some d -> contents w path = Some d.
Proof. unfold fopen_r, ask. destruct (r_ask _ _) as [a s]. exists s. split; [done |]. cbn [fst]. by destruct (_ || _). Qed.

Lemma mount_path_frame path w r w' : mount_path P path w = Val (r, w') -> exists s, w' = set_vols s w.
Proof. unfold mount_path. intros Hm. apply bind_Val_inv in Hm as ([a s] & _ & Hm). simplify_eq. eauto. Qed.

(** Nothing but the file [path] changes. *)
Definition only_file (path : block) (w w' : rec) : Prop :=
  log w' = log w /\ devs w' = devs w /\ fstab w' = fstab w /\ forall q, q <> path -> rfiles w' !! q = rfiles w !! q.

Lemma only_file_vols path s w : only_file path w (set_vols s w).
Proof. done. Qed.
Lemma only_file_trans path w w1 w2 : only_file path w w1 -> only_file path w1 w2 -> only_file path w w2.
Proof. intros (? & ? & ? & Hx) (? & ? & ? & Hy). split_and!; try congruence. intros q Hq. rewrite Hy, Hx; done. Qed.
Lemma only_file_contents path w w' q : only_file path w w' -> q <> path -> contents w' q = contents w q.
Proof. intros (_ & Hd & _ & Hf) Hq. unfold contents. by rewrite Hd, Hf. Qed.

Lemma fopen_path_w_frame append path w b w' : fopen_path_w P append path w = Val (b, w') -> only_file path w w'.
Proof.
  unfold fopen_path_w. intros Hf. apply bind_Val_inv in Hf as ([r w1] & [s ->]%mount_path_frame & Hf).
  destruct (negb (r =? 0)); [by simplify_eq |]. unfold ask, fopen_w, ask in Hf. destruct (r_ask _ _) as [a1 s1], (r_ask _ _) as [a2 s2].
  destruct (_ || _); [by simplify_eq |]. injection Hf as _ <-.
  destruct (devs _ !! path); [done |]. destruct (rfiles _ !! path) as [f |]; [destruct append; [done |] |]; split_and!; try done; intros q Hq; by apply lookup_insert_ne.
Qed.

Lemma creat_frame path w : only_file path w (creat P path w).2 /\ ((creat P path w).1 = true -> f_data <$> rfiles (creat P path w).2 !! path = Some []).
Proof.
  unfold creat, ask. destruct (r_ask _ _) as [a s]. destruct (_ || _); [done |]. cbn [fst snd]. split; [split_and!; try done |].
  - intros q Hq. by apply lookup_insert_ne.
  - intros _. cbn [set_rfiles rfiles]. rewrite lookup_insert_eq. by destruct (rfiles _ !! path).
Qed.

Lemma unlink_frame path w : only_file path w (unlink P path w).2.
Proof.
  unfold unlink, ask. destruct (r_ask _ _) as [a s]. destruct (if _ || _ then None else _); [| done].
  split_and!; try done. intros q Hq. by apply lookup_delete_ne.
Qed.

Lemma written_to_frame path data w : only_file path w (written_to path data w) /\
  (f_data <$> rfiles w !! path = Some [] -> f_data <$> rfiles (written_to path data w) !! path = Some data).
Proof.
  unfold written_to. destruct (rfiles w !! path) as [f |] eqn:Ef; [| done]. split; [split_and!; try done |].
  - intros q Hq. by apply lookup_insert_ne.
  - intros [= E]. cbn [set_rfiles rfiles]. rewrite lookup_insert_eq. cbn. by rewrite E.
Qed.

Lemma flush_log path data w : log (flush P path data w).2 = log w.
Proof. unfold flush, ask. destruct (r_ask _ _) as [a s]. destruct (devs _ !! path); [done |]. by destruct (rfiles _ !! path). Qed.

(** The archive that was opened is the mapped file. *)
Lemma open_mapped sys data a evs :
  mzOpenZipArchive (in_safe_add_uintptr I) (in_safe_add_long I) (in_malloc_ok I) (in_calloc I) (in_calloc_ents I) sys data = Val (0, a, evs) ->
  sysMapFileInShmem sys = Some (za_map a).
Proof.
  unfold mzOpenZipArchive. destruct (fd _ <? 0).
  - unfold open_bail. intros Ho. destruct (negb (sys_errno sys =? 0)) eqn:E0.
    + rewrite E0 in Ho. destruct (mzCloseZipArchive _ _). injection Ho as Ho _ _. by rewrite Ho in E0.
    + cbn [Z.eqb negb] in Ho. by destruct (mzCloseZipArchive _ _).
  - destruct (sysMapFileInShmem sys) as [m |]; [| unfold open_bail; cbn [Z.eqb negb]; by destruct (mzCloseZipArchive _ _)].
    destruct (_ <? _); [unfold open_bail; cbn [Z.eqb negb]; by destruct (mzCloseZipArchive _ _) |].
    intros Ho. apply bind_Val_inv in Ho as ([[ok a1] evs1] & _ & Ho).
    destruct ok; cbn [negb] in Ho; [| unfold open_bail in Ho; cbn [Z.eqb negb] in Ho; by destruct (mzCloseZipArchive _ _)].
    unfold open_bail in Ho. cbn [Z.eqb negb] in Ho. by simplify_eq.
Qed.
(** What one installation adds to the log: nothing, or one run of [program]. *)
Definition installs (good : block -> Prop) (path : block) (w : rec) (r : Z) (w' : rec) : Prop :=
  (log w' = log w /\ (r = INSTALL_CORRUPT \/ r = INSTALL_ERROR)) \/
  exists program status, log w' = log w ++ [RunBinary program [binary; in_api I; in_pipe I; path] status] /\ good program /\
    r = if WIFEXITED status && (WEXITSTATUS status =? 0) then INSTALL_SUCCESS else INSTALL_ERROR.

Lemma installs_mono (good good' : block -> Prop) path w w1 r w' : (forall p, good p -> good' p) -> log w1 = log w ->
  installs good path w1 r w' -> installs good' path w r w'.
Proof. intros Hg Hl [[E Hr] | (p & st & E & Hp & Hr)]; [left; split; [congruence | done] | right; exists p, st; split_and!; [congruence | auto | done]]. Qed.

Lemma find_binary data zip n cd ents t pMap i e : map_ok data pMap -> zip_wf data pMap n cd -> represents data n cd ents t ->
  pZipEntries zip = Some ents -> pHash zip = Some t ->
  mzFindZipEntry (in_calloc I) data zip (ASSUMED_UPDATE_BINARY_NAME ++ [0]) = Val (Some i) -> load ents i = Val e ->
  entry_name data e = ASSUMED_UPDATE_BINARY_NAME /\ e ∈ cen_entry data <$> cen_walk data (Z.to_nat n) cd /\ sizes_ok e /\ compLen e <= zlen data.
Proof.
  intros Hmap Hwf Hrep Hpe Hph Hfind Hload. pose proof Hrep as (Hperm & Hn & _ & Hnm & size & Hix).
  pose proof (find_spec data (in_calloc I) zip ents t n size ASSUMED_UPDATE_BINARY_NAME [] Hpe Hph Hnm Hix Hn) as Hs.
  rewrite Hfind in Hs. destruct Hs as (e' & (He' & _) & Hname); [by repeat constructor | done |].
  rewrite He' in Hload. injection Hload as ->. apply load_Val in He' as [_ He']. apply list_elem_of_lookup_2 in He'.
  pose proof (parsed_sizes data pMap n cd ents t Hmap Hwf Hrep) as Hsz. rewrite Forall_forall in Hsz. destruct (Hsz e He') as [Hse Hle].
  split_and!; [done | by rewrite <- Hperm | done |]. rewrite (mo_len _ _ Hmap). destruct Hse. lia.
Qed.

Lemma try_update_binary_ok data path zip wc w n cd ents t pMap r wc' calls w' : installer_ok data -> map_ok data pMap ->
  zip_wf data pMap n cd -> represents data n cd ents t -> pZipEntries zip = Some ents -> pHash zip = Some t -> devs w !! binary = None ->
  try_update_binary P I path data zip wc w = Val (r, wc', calls, w') -> installs (update_binary_of data) path w r w'.
Proof.
  intros Hok Hmap Hwf Hrep Hpe Hph Hdev Ht. unfold try_update_binary in Ht. apply bind_Val_inv in Ht as (entry & Ef & Ht).
  destruct entry as [i |]; [| simplify_eq; left; auto]. rewrite Hpe in Ht. cbn [mbind outcome_bind] in Ht.
  apply bind_Val_inv in Ht as (e & Ee & Ht). destruct (find_binary data zip n cd ents t pMap i e) as (Hname & Hin & Hsz & Hcl); try done.
  pose proof (unlink_frame binary w) as Hu. destruct (unlink P binary w) as [u w1]. cbn [snd] in Hu.
  pose proof (creat_frame binary w1) as [Hc Hc0]. destruct (creat P binary w1) as [fd w2]. cbn [fst snd] in *.
  pose proof (only_file_trans _ _ _ _ Hu Hc) as H2. destruct fd; cbn [negb] in Ht; [| simplify_eq; left; split; [apply H2 | auto]].
  apply bind_Val_inv in Ht as ([ok out] & Ex & Ht).
  pose proof (to_file_spec data (in_read I data) (in_zlib I) zinv decoded (io_read _ Hok) (io_zlib _ Hok) (in_fuel I) e 0 (in_writes I (r_tick (vols w2))) [] Hsz) as Hx.
  rewrite Ex in Hx. specialize (Hx ltac:(unfold enough; pose proof (io_fuel _ Hok); lia)). cbn [app] in Hx.
  pose proof (written_to_frame binary (sk_bytes out) w2) as [Hw Hw0]. set (w3 := written_to binary (sk_bytes out) w2) in *.
  pose proof (only_file_trans _ _ _ _ H2 Hw) as H3. destruct ok; cbn [negb] in Ht; [| simplify_eq; left; split; [apply H3 | auto]].
  destruct (Hx eq_refl) as (prog & Hcont & Eb). unfold run_binary in Ht.
  assert (contents w3 binary = Some prog) as Ec.
  { unfold contents. destruct H3 as (_ & -> & _). rewrite Hdev. rewrite <- Eb. apply Hw0, Hc0. done. }
  rewrite Ec in Ht. cbn [default from_option id] in Ht. pose proof (io_run _ Hok prog [binary; in_api I; in_pipe I; path] w3) as Hrun.
  destruct (in_run I prog _ w3) as [[output status] w4]. cbn [snd] in Hrun.
  apply bind_Val_inv in Ht as ([cs wc1] & _ & Ht). right. exists prog, status.
  assert (update_binary_of data prog) as Hub by (exists pMap, n, cd, e; done). destruct H3 as (Hlog & _).
  destruct (WIFEXITED status), (WEXITSTATUS status =? 0); cbn [negb orb andb] in *; simplify_eq; cbn [log add_log]; split_and!; congruence || done.
Qed.

(** The package carries a signature by one of the keys. *)
Definition signed_package (keys_text data : block) : Prop :=
  exists keys signed sig k, load_keys (Some keys_text) = Val (Some keys) /\ signed_file data signed sig /\ k ∈ keys /\ accepts k signed sig.

Lemma really_install_ok data keys_text path wc w r wc' calls w' : installer_ok data -> bytes_ok data -> zlen data < 2 ^ (word_bits - 1) ->
  contents w path = Some data -> contents w PUBLIC_KEYS_FILE = Some keys_text -> devs w !! binary = None ->
  really_install_package P I path wc w = Val (r, wc', calls, w') ->
  installs (fun p => signed_package keys_text data /\ update_binary_of data p) path w r w'.
Proof.
  intros Hok Hb Hlen Hc Hk Hdev Hr. unfold really_install_package in Hr. apply bind_Val_inv in Hr as ([m w1] & [s1 ->]%mount_path_frame & Hr).
  destruct (negb (m =? 0)); [simplify_eq; left; auto |].
  destruct (fopen_r_frame PUBLIC_KEYS_FILE (set_vols s1 w)) as (s2 & Hf2 & Hkeys). destruct (fopen_r P PUBLIC_KEYS_FILE _) as [kf w2]. cbn [fst snd] in *. subst w2.
  apply bind_Val_inv in Hr as (lk & Elk & Hr). destruct lk as [keys |]; [| simplify_eq; left; auto].
  destruct (fopen_r_frame path (set_vols s2 (set_vols s1 w))) as (s3 & Hf3 & Hpkg). destruct (fopen_r P path _) as [pkg w3]. cbn [fst snd] in *. subst w3.
  apply bind_Val_inv in Hr as (err & Ev & Hr). destruct (Z.eqb_spec err VERIFY_SUCCESS) as [-> |]; cbn [negb] in Hr; [| simplify_eq; left; auto].
  assert (contents (set_vols s3 (set_vols s2 (set_vols s1 w))) path = Some data) as Hc3 by exact Hc. rewrite Hc3 in Hr. cbn [default from_option id] in Hr.
  destruct pkg as [d |]; [| by vm_compute in Ev]. specialize (Hpkg d eq_refl). assert (d = data) as -> by (change (contents w path = Some d) in Hpkg; congruence).
  destruct kf as [kt |]; [| by vm_compute in Elk]. specialize (Hkeys kt eq_refl). assert (kt = keys_text) as -> by (change (contents w PUBLIC_KEYS_FILE = Some kt) in Hkeys; congruence).
  destruct (verify_file_signed (in_io I) data (in_mem I) keys Hb Hlen Ev) as (signed & sig & k & Hsf & Hin & Hacc).
  apply bind_Val_inv in Hr as ([[err zip] evs] & Eo & Hr).
  pose proof (open_spec (in_sys I data) data _ _ (io_add1 _ Hok) (io_add2 _ Hok) (in_malloc_ok I) (in_calloc I) (in_calloc_ents I) (io_sys _ Hok)) as Ho.
  rewrite Eo in Ho. cbn [wp] in Ho. destruct (Z.eqb_spec err 0) as [-> |]; cbn [negb] in Hr; [| simplify_eq; left; auto].
  destruct Ho as (n & cd & ents & t & held & Hwf & Hrep & _ & _ & Hpe & Hph & _). apply open_mapped in Eo as Hm. apply (so_map _ _ (io_sys _ Hok)) in Hm as [Hm _].
  apply (try_update_binary_ok data path zip wc _ n cd ents t (za_map zip)) in Hr; try done.
  eapply installs_mono; [| | exact Hr]; [| done]. intros p Hp. split; [| done]. by exists keys, signed, sig, k.
Qed.

Lemma setup_mounts_frame w r w' : setup_mounts P w = Val (r, w') -> exists s, w' = set_vols s w.
Proof. unfold setup_mounts. intros Hm. apply bind_Val_inv in Hm as ([a s] & _ & Hm). simplify_eq. eauto. Qed.

(** C1: no unsigned code is run.  Whatever fails, [install_package] runs at most one program;
    when it runs one, the package (with the contents it had at the start) carries a
    signature that one of the keys in /res/keys accepts, the program is exactly the
    contents of an entry of the package's directory with the name of the update binary,
    and its arguments are those of the interface; the result is INSTALL_SUCCESS exactly
    when that program ran and exited with 0. *)
Theorem install_package_verified data keys_text path wc install_file w r wc' calls w' : installer_ok data -> bytes_ok data ->
  zlen data < 2 ^ (word_bits - 1) -> contents w path = Some data -> contents w PUBLIC_KEYS_FILE = Some keys_text -> devs w !! binary = None ->
  path <> install_file -> PUBLIC_KEYS_FILE <> install_file ->
  install_package P I path wc install_file w = Val (r, wc', calls, w') ->
  installs (fun p => signed_package keys_text data /\ update_binary_of data p) path w r w'.
Proof.
  intros Hok Hb Hlen Hc Hk Hdev Hp1 Hp2 Hi. unfold install_package in Hi. apply bind_Val_inv in Hi as ([il w1] & Hf%fopen_path_w_frame & Hi).
  apply bind_Val_inv in Hi as ([m w2] & [s2 ->]%setup_mounts_frame & Hi). apply bind_Val_inv in Hi as ([[[r3 wc3] calls3] w3] & Hr & Hi).
  assert (installs (fun p => signed_package keys_text data /\ update_binary_of data p) path w r3 w3) as Hin.
  { destruct (negb (m =? 0)); [simplify_eq; left; split; [apply Hf | auto] |]. apply (installs_mono (fun p => signed_package keys_text data /\ update_binary_of data p) _ path w (set_vols s2 w1)); [done | apply Hf |].
    apply (really_install_ok data keys_text) in Hr; try done.
    - rewrite <- Hc. by apply (only_file_contents install_file).
    - rewrite <- Hk. by apply (only_file_contents install_file).
    - destruct Hf as (_ & Hd & _). cbn [set_vols devs]. by rewrite Hd. }
  cbn beta iota zeta in Hi. destruct Hin as [[E Hr3] | (p & st & E & Hg & Hr3)]; [left | right; exists p, st]; destruct il; simplify_eq; rewrite ?flush_log; auto.
Qed.
End Verified.

(** ** A signed package *)

Definition demo_program : block := [7; 8; 9; 10].
Definition demo_signature : block := take 34 toy_signature ++ [182].
Definition demo_package : block :=
  demo_local ASSUMED_UPDATE_BINARY_NAME demo_program ++ demo_central ASSUMED_UPDATE_BINARY_NAME 4 0 ++
  take 20 (demo_end 1 75) ++ [41; 0] ++ demo_signature ++ [41; 0; 0xff; 0xff; 41; 0].
Definition demo_keys_text : block := print_keys (EcData 1 (replicate 31 255) 2 (replicate 31 0)) [].
Definition demo_installer (status : Z) : installer :=
  mkInstaller yes yes demo_safe_add_uintptr demo_safe_add_long true (fun _ => true) (fun _ => true)
    (fun file => Zip.mkSys 3 0 0 (zlen file) (fun _ _ => Some 65536) true)
    (fun file pos n => Z.min n (Z.max 0 (zlen file - pos))) demo_zlib (Pos.to_nat 300000) (fun _ => [(4, 0)]) (str "3") (str "5")
    (fun _ _ w => (str "wipe_cache" ++ [10] ++ str "progress 0.5 10" ++ [10], status, w)).
Definition install_fstab : list Volume :=
  [mkVol (str "/dev/mmc2") (str "/data") (str "ext4") 0; mkVol (str "/dev/mmc3") (str "/cache") (str "ext4") 0;
   mkVol (str "ramdisk") (str "/tmp") (str "ramdisk") 0].
Definition install_rec (package : block) : rec :=
  mkRec (mkRoots [mkMount (str "/dev/mmc2") (str "/data") (str "ext4") (str "rw")] g_mounts_state MtdScan.blank_flash 0 []) (Some install_fstab)
    (<[ str "/cache/ota.zip" := mkFile package 420 0 0 ]> {[ PUBLIC_KEYS_FILE := mkFile demo_keys_text 420 0 0 ]}) ∅ [].
Definition demo_install (status : Z) : outcome (Z * Z * list ui_call * rec) :=
  @install_package LP64 toy demo_platform (demo_installer status) (str "/cache/ota.zip") 0 (str "/tmp/last_install") (install_rec demo_package).

Lemma demo_installer_ok status : @installer_ok LP64 (demo_installer status) demo_zinv demo_decoded demo_package.
Proof.
  split.
  - exact demo_zlib_ok.
  - by intros x y _ _.
  - by intros x y _ _.
  - split; [| done]. intros m Hm. vm_compute in Hm. injection Hm as <-. split; [| done]. split; [| done ..].
    refine (bool_decide_unpack _ _). vm_compute. exact Logic.I.
  - intros pos n Hpos Hn. cbn [in_read demo_installer]. lia.
  - unfold in_fuel, demo_installer. rewrite positive_nat_Z. vm_compute. done.
  - done.
Qed.

Lemma install_package_verified_witness : exists r wc calls w', demo_install 0 = Val (r, wc, calls, w') /\ r = INSTALL_SUCCESS /\ wc = 1 /\
  installs (demo_installer 0) (fun p => @signed_package LP64 toy demo_keys_text demo_package /\ update_binary_of demo_decoded demo_package p)
    (str "/cache/ota.zip") (install_rec demo_package) r w'.
Proof.
  assert (exists o, demo_install 0 = o) as [o Eo] by eauto. pose proof Eo as Eo'. vm_compute in Eo'.
  destruct o as [[[[r wc] calls] w'] |]; [| discriminate]. exists r, wc, calls, w'. injection Eo' as Er Ewc _ _.
  split; [exact Eo |]. split; [by rewrite <- Er |]. split; [by rewrite <- Ewc |].
  apply (@install_package_verified LP64 toy demo_platform (demo_installer 0) demo_zinv demo_decoded demo_package demo_keys_text (str "/cache/ota.zip") 0
    (str "/tmp/last_install") (install_rec demo_package) r wc calls w' (demo_installer_ok 0)).
  - refine (bool_decide_unpack _ _). vm_compute. exact Logic.I.
  - vm_compute. reflexivity.
  - vm_compute. reflexivity.
  - vm_compute. reflexivity.
  - vm_compute. reflexivity.
  - discriminate.
  - discriminate.
  - exact Eo.
Defined.

(** A line "progress" without its two numbers makes recovery read a null pointer. *)
Example progress_null_dereference : @child_command LP64 (str "progress 0.5" ++ [10]) 0 = Trap NullDeref.
Proof. vm_compute. reflexivity. Qed.
