(* ===== verification/Recovery.v ===== *)
(** * The recovery program (recovery.cpp, adb_install.cpp, default_device.cpp)

    The state of the operating system is that of Boot.v.  The user, the screen and the
    directory listings are the environment: whether the text is visible, the keys pressed
    and the names found are answers.  Loops that wait for the user take fuel; running out
    of it means that the program is still waiting. *)

From stdpp Require Import base numbers list gmap sorting.
From stdpp Require Import strings pretty.
From S2P Require Import Prelude CString CTokens ZipExtract Edify Sys Mtd Mounts Roots Verifier Keys Boot Install.

Definition CACHE_LOG_DIR : block := str "/cache/recovery".
Definition INTENT_FILE : block := str "/cache/recovery/intent".
Definition LOG_FILE : block := str "/cache/recovery/log".
Definition LAST_LOG_FILE : block := str "/cache/recovery/last_log".
Definition LAST_INSTALL_FILE : block := str "/cache/recovery/last_install".
Definition LOCALE_FILE : block := str "/cache/recovery/last_locale".
Definition CACHE_ROOT : block := str "/cache".
Definition SDCARD_ROOT : block := str "/sdcard".
Definition TEMPORARY_LOG_FILE : block := str "/tmp/recovery.log".
Definition TEMPORARY_INSTALL_FILE : block := str "/tmp/last_install".
Definition SIDELOAD_TEMP_DIR : block := str "/tmp/sideload".
Definition ADB_SIDELOAD_FILENAME : block := str "/tmp/update.zip".

Inductive d_type := DT_DIR | DT_REG | DT_OTHER.

(** The environment of the program: what readdir finds, the bytes malloc and the stack
    hold, the mode and owner that stat shows of a directory, which files a format that
    failed has left, what adbd does, and the size of the text on the screen. *)
Record user := mkUser {
  u_listing : nat -> option (list (block * d_type));
  u_stale : nat -> block;
  u_dir : nat -> option (Z * Z);
  u_kept : nat -> block -> bool;
  u_adbd : rec -> rec;
  u_rows : Z;
  u_cols : Z
}.

(** The static variables. *)
Record prog := mkProg { os : rec; tmplog_offset : Z; locale : option block }.

Section Recovery.
Context `{Arch} `{mincrypt} (P : platform) (I : installer) (U : user).

Definition set_os (w : rec) (s : prog) : prog := mkProg w (tmplog_offset s) (locale s).
Definition tick (s : prog) : nat := r_tick (vols (os s)).
Definition p_ask (s : prog) : Z * prog := let '(a, w) := ask P (os s) in (a, set_os w s).
(** [IsTextVisible], [WasTextEverVisible]. *)
Definition is_visible (s : prog) : bool * prog := let '(a, s) := p_ask s in (0 <? a, s).
Definition p_mount (path : block) (s : prog) : outcome (Z * prog) := let* (r, w) := mount_path P path (os s) in Val (r, set_os w s).
Definition p_unmount (path : block) (s : prog) : outcome (Z * prog) := let* (r, w) := unmount_path P path (os s) in Val (r, set_os w s).
Definition p_open_w (append : bool) (path : block) (s : prog) : outcome (bool * prog) :=
  let* (f, w) := fopen_path_w P append path (os s) in Val (f, set_os w s).
Definition p_flush (path data : block) (s : prog) : prog := set_os (flush P path data (os s)).2 s.

(** chmod and chown, whose results are not used. *)
Definition change (path : block) (f : inode -> inode) (s : prog) : prog :=
  let '(a, s) := p_ask s in
  match (if (a <? 0) || negb (visible P (os s) path) then None else rfiles (os s) !! path) with
  | Some n => set_os (set_rfiles (<[path := f n]> (rfiles (os s))) (os s)) s
  | None => s
  end.
Definition p_chmod (path : block) (mode : Z) : prog -> prog := change path (fun n => mkFile (f_data n) mode (f_uid n) (f_gid n)).
Definition p_chown (path : block) (uid gid : Z) : prog -> prog := change path (fun n => mkFile (f_data n) (f_mode n) uid gid).
Definition p_rename (old new : block) (s : prog) : prog :=
  let '(a, s) := p_ask s in
  match (if (a <? 0) || negb (visible P (os s) old) || negb (visible P (os s) new) then None else rfiles (os s) !! old) with
  | Some n => set_os (set_rfiles (<[new := n]> (delete old (rfiles (os s)))) (os s)) s
  | None => s
  end.

(** ** Logs *)

(** fgets and fputs: a zero byte ends what fputs writes of a line. *)
Fixpoint copy_lines (fuel : nat) (text : block) : outcome block :=
  match text, fuel with
  | [], _ => Val []
  | _, O => Trap NoFuel
  | _, S fuel => let (line, text) := fgets 4095 text in let* more := copy_lines fuel text in Val (until_nul line ++ more)
  end.

Definition copy_log_file (source destination : block) (append : bool) (s : prog) : outcome prog :=
  let* (log, s) := p_open_w append destination s in
  if negb log then Val s else
  let '(tmplog, w) := fopen_r P source (os s) in
  match tmplog with
  | None => Val (p_flush destination [] (set_os w s))
  | Some data =>
      let '(text, w) := read_all P (if append then drop (Z.to_nat (tmplog_offset s)) data else data) w in
      let* out := copy_lines (length text) text in
      let s := mkProg w (if append then tmplog_offset s + zlen text else tmplog_offset s) (locale s) in
      Val (p_flush destination out s)
  end.

Definition last_log (i : Z) : block := if i =? 0 then LAST_LOG_FILE else LAST_LOG_FILE ++ [46] ++ str (pretty i).
Fixpoint rotate_last_logs (max : nat) (s : prog) : prog :=
  match max with
  | O => s
  | S i => rotate_last_logs i (p_rename (last_log (Z.of_nat i)) (last_log (Z.of_nat i + 1)) s)
  end.

Definition copy_logs (s : prog) : outcome prog :=
  let* s := copy_log_file TEMPORARY_LOG_FILE LOG_FILE true s in
  let* s := copy_log_file TEMPORARY_LOG_FILE LAST_LOG_FILE false s in
  let* s := copy_log_file TEMPORARY_INSTALL_FILE LAST_INSTALL_FILE false s in
  let s := p_chmod LOG_FILE 384 s in
  let s := p_chown LOG_FILE 1000 1000 s in
  let s := p_chmod LAST_LOG_FILE 416 s in
  Val (p_chmod LAST_INSTALL_FILE 420 s).

(** ** Leaving recovery *)

Definition finish_recovery (send_intent : option block) (s : prog) : outcome prog :=
  let* s := match send_intent with
            | None => Val s
            | Some intent =>
                let* (fp, s) := p_open_w false INTENT_FILE s in
                Val (if (fp : bool) then p_flush INTENT_FILE intent s else s)
            end in
  let* s := match locale s with
            | None => Val s
            | Some l =>
                let* (fp, s) := p_open_w false LOCALE_FILE s in
                if negb fp then Trap NullDeref  (** fwrite to a null stream *)
                else Val (p_flush LOCALE_FILE l s)
            end in
  let* s := copy_logs s in
  let* (_, w) := set_bootloader_message P zero_message (os s) in
  let* (r, s) := p_mount COMMAND_FILE (set_os w s) in
  let s := if negb (r =? 0) then s else set_os (unlink P COMMAND_FILE (os s)).2 s in
  let* (_, s) := p_unmount CACHE_ROOT s in
  Val s.

(** ** Formatting *)

(** A file whose contents are kept over a format. *)
Record saved_log_file := mkSaved { sv_name : block; sv_data : block; sv_mode : Z; sv_uid : Z; sv_gid : Z }.

Definition save_log (name : block) (head : list saved_log_file) (s : prog) : outcome (list saved_log_file * prog) :=
  if negb (bool_decide (take 4 name = str "last")) then Val (head, s) else
  let path := CACHE_LOG_DIR ++ [47] ++ name in
  let '(a, s) := p_ask s in  (** stat *)
  match (if (a <? 0) || negb (visible P (os s) path) then None else rfiles (os s) !! path) with
  | None => Val (head, s)
  | Some st =>
      let st_size := Z.min (zlen (f_data st)) (2 ^ 19) in
      let t := tick s in
      let '(f, w) := fopen_r P path (os s) in
      match f with
      | None => Trap NullDeref  (** fread of a null stream *)
      | Some data =>
          let '(got, w) := read_all P (take (Z.to_nat st_size) data) w in
          Val (mkSaved path (take (Z.to_nat st_size) (got ++ u_stale U t)) (f_mode st) (f_uid st) (f_gid st) :: head, set_os w s)
      end
  end.
Fixpoint save_logs (names : list block) (head : list saved_log_file) (s : prog) : outcome (list saved_log_file * prog) :=
  match names with
  | [] => Val (head, s)
  | n :: names => let* (head, s) := save_log n head s in save_logs names head s
  end.

Fixpoint restore_logs (head : list saved_log_file) (s : prog) : outcome prog :=
  match head with
  | [] => Val s
  | h :: head =>
      let* (f, s) := p_open_w false (sv_name h) s in
      let s := if (f : bool) then p_chown (sv_name h) (sv_uid h) (sv_gid h) (p_chmod (sv_name h) (sv_mode h) (p_flush (sv_name h) (sv_data h) s)) else s in
      restore_logs head s
  end.

(** The files of a formatted volume are gone. *)
Definition on_volume (w : rec) (volume path : block) : bool :=
  match for_path P path w with Some v => bool_decide (v_point v = volume) | None => false end.
Definition p_format (volume : block) (s : prog) : outcome (Z * prog) :=
  let t := tick s in
  let w := os s in
  let* (r, vs) := format_volume (pf_flash P) (pf_roots P) (fstab w) (pf_entry P) volume (vols w) in
  let left := filter (fun kv => on_volume w volume kv.1 = false \/ r <> 0 /\ u_kept U t kv.1 = true) (rfiles w) in
  Val (r, set_os (add_log (Format volume r) (set_rfiles left (set_vols vs w))) s).

Definition erase_volume (volume : block) (s : prog) : outcome (Z * prog) :=
  let is_cache := bool_decide (volume = CACHE_ROOT) in
  let* (head, s) :=
    if is_cache then
      let* (_, s) := p_mount volume s in
      let names := u_listing U (tick s) in
      let '(_, s) := p_ask s in
      match names with Some names => save_logs names.*1 [] s | None => Val ([], s) end
    else Val ([], s) in
  let* (_, s) := p_unmount volume s in
  let* (result, s) := p_format volume s in
  if is_cache then
    let* s := restore_logs head s in
    let* s := copy_logs (mkProg (os s) 0 (locale s)) in
    Val (result, s)
  else Val (result, s).

(** ** Menus (default_device.cpp; SelectMenu and StartMenu of screen_ui.cpp) *)

Definition kNoAction : Z := -1.
Definition kHighlightUp : Z := -2.
Definition kHighlightDown : Z := -3.
Definition kInvokeItem : Z := -4.
Inductive BuiltinAction := NO_ACTION | REBOOT | APPLY_EXT | APPLY_CACHE | APPLY_ADB_SIDELOAD | WIPE_DATA | WIPE_CACHE.

(** KEY_ENTER, KEY_UP, KEY_DOWN, KEY_VOLUMEDOWN and KEY_VOLUMEUP of linux/input.h. *)
Definition HandleMenuKey (key : Z) (visible : bool) : Z :=
  if visible then
    if (key =? 108) || (key =? 114) then kHighlightDown
    else if (key =? 103) || (key =? 115) then kHighlightUp
    else if key =? 28 then kInvokeItem else kNoAction
  else kNoAction.
Definition InvokeMenuItem (menu_position : Z) : BuiltinAction :=
  if menu_position =? 0 then REBOOT else if menu_position =? 1 then APPLY_ADB_SIDELOAD
  else if menu_position =? 2 then WIPE_DATA else if menu_position =? 3 then WIPE_CACHE else NO_ACTION.

(** The number of items shown, when a menu is shown. *)
Definition StartMenu (headers items : Z) : option Z :=
  if (0 <? u_rows U) && (0 <? u_cols U) then Some (Z.min items (u_rows U - Z.min headers (u_rows U))) else None.
Definition SelectMenu (menu_items : option Z) (sel : Z) : Z :=
  match menu_items with
  | None => sel
  | Some n => let sel := if sel <? 0 then 0 else sel in if n <=? sel then n - 1 else sel
  end.

Fixpoint menu_loop (fuel : nat) (menu : option Z) (menu_only : bool) (selected : Z) (s : prog) : outcome (Z * prog) :=
  match fuel with
  | O => Trap NoFuel
  | S fuel =>
      let '(key, s) := p_ask s in
      let '(visible, s) := is_visible s in
      if key =? -1 then
        let '(ever, s) := is_visible s in
        if (ever : bool) then menu_loop fuel menu menu_only selected s else Val (0, s)
      else
        let action := HandleMenuKey key visible in
        if action <? 0 then
          if action =? kHighlightUp then menu_loop fuel menu menu_only (SelectMenu menu (selected - 1)) s
          else if action =? kHighlightDown then menu_loop fuel menu menu_only (SelectMenu menu (selected + 1)) s
          else if action =? kInvokeItem then if selected <? 0 then menu_loop fuel menu menu_only selected s else Val (selected, s)
          else menu_loop fuel menu menu_only selected s
        else if negb menu_only then Val (action, s) else menu_loop fuel menu menu_only selected s
  end.
(** [headers] and [items]: their numbers. *)
Definition get_menu_selection (fuel : nat) (headers items : Z) (menu_only : bool) (initial_selection : Z) (s : prog) : outcome (Z * prog) :=
  menu_loop fuel (StartMenu headers items) menu_only initial_selection s.

Definition wipe_data (fuel : nat) (confirm : bool) (s : prog) : outcome prog :=
  let* (chosen_item, s) := if confirm then get_menu_selection fuel 6 11 true 0 s else Val (7, s) in
  if negb (chosen_item =? 7) then Val s else
  let* (_, s) := erase_volume (str "/data") s in
  let* (_, s) := erase_volume (str "/cache") s in
  Val s.
(** ** Packages from the user *)

(** fread, fwrite and fclose: whether all succeeded. *)
Definition copy_all (data copy_path : block) (s : prog) : bool * prog :=
  let '(got, w) := read_all P data (os s) in
  let '(ok, w) := flush P copy_path got w in
  let '(a, w) := ask P w in  (** fclose *)
  (ok && (0 <=? a), set_os w s).

(** An error of fread ends the loop like the end of the file. *)
Definition copy_sideloaded_package (original_path : block) (s : prog) : outcome (option block * prog) :=
  let* (r, s) := p_mount original_path s in
  if negb (r =? 0) then Val (None, s) else
  let* (r, s) := p_mount SIDELOAD_TEMP_DIR s in
  if negb (r =? 0) then Val (None, s) else
  let '(a, s) := p_ask s in  (** mkdir; EEXIST is -17 *)
  if (a <? 0) && negb (a =? -17) then Val (None, s) else
  let st := u_dir U (tick s) in
  let '(_, s) := p_ask s in
  match st with
  | None => Val (None, s)
  | Some (st_mode, st_uid) =>
      if negb (Z.land st_mode 61440 =? 16384) then Val (None, s) else
      if negb (Z.land st_mode 511 =? 448) then Val (None, s) else
      if negb (st_uid =? 0) then Val (None, s) else
      let copy_path := SIDELOAD_TEMP_DIR ++ str "/package.zip" in
      let '(fin, w) := fopen_r P original_path (os s) in
      match fin with
      | None => Val (None, set_os w s)
      | Some data =>
          let '(fout, w) := fopen_w P false copy_path w in
          let s := set_os w s in
          if negb fout then Val (None, s) else
          let '(ok, s) := copy_all data copy_path s in
          if negb ok then Val (None, s) else
          let '(a, s) := p_ask s in  (** fclose of the original *)
          if a <? 0 then Val (None, s) else
          let '(a, s) := p_ask s in  (** chmod *)
          match (if (a <? 0) || negb (visible P (os s) copy_path) then None else rfiles (os s) !! copy_path) with
          | None => Val (None, s)
          | Some n => Val (Some copy_path, set_os (set_rfiles (<[copy_path := mkFile (f_data n) 256 (f_uid n) (f_gid n)]> (rfiles (os s))) (os s)) s)
          end
      end
  end.

Definition p_install (path : block) (wipe_cache : Z) (s : prog) : outcome (Z * Z * prog) :=
  let* (r, wipe_cache, _, w) := install_package P I path wipe_cache TEMPORARY_INSTALL_FILE (os s) in Val (r, wipe_cache, set_os w s).

Definition lower (c : Z) : Z := if (65 <=? c) && (c <=? 90) then c + 32 else c.
Definition is_zip (name : block) : bool := (4 <=? zlen name) && bool_decide (lower <$> drop (length name - 4) name = str ".zip").

(** What the menu shows: the parent and the packages, then the directories, each part
    sorted by strcmp. *)
Definition dir_names (entries : list (block * d_type)) : list block :=
  omap (fun '(name, t) => match t with
    | DT_DIR => if bool_decide (name = str ".") || bool_decide (name = str "..") then None else Some (name ++ [47])
    | _ => None end) entries.
Definition zip_names (entries : list (block * d_type)) : list block :=
  omap (fun '(name, t) => match t with DT_REG => if is_zip name then Some name else None | _ => None end) entries.
Definition package_menu (entries : list (block * d_type)) : list block :=
  merge_sort name_le (str "../" :: zip_names entries) ++ merge_sort name_le (dir_names entries).

Definition PATH_MAX : nat := 4096.
Definition join_path (path item : block) : block := take (PATH_MAX - 1) (path ++ [47] ++ item).

Definition maybe_unmount (unmount_when_done : option block) (s : prog) : outcome prog :=
  match unmount_when_done with None => Val s | Some v => let* (_, s) := p_unmount v s in Val s end.

(** A package of the list is copied and installed. *)
Definition install_item (path item : block) (unmount_when_done : option block) (wipe_cache : Z) (s : prog) : outcome (Z * Z * prog) :=
  let* (_, w) := set_sdcard_update_bootloader_message P (os s) in
  let* (copy, s) := copy_sideloaded_package (join_path path item) (set_os w s) in
  let* s := maybe_unmount unmount_when_done s in
  match copy with
  | Some copy => p_install copy wipe_cache s
  | None => Val (INSTALL_ERROR, wipe_cache, s)
  end.

Section Browse.
Variable update_directory : block -> Z -> prog -> outcome (Z * Z * prog).
Fixpoint browse_loop (fuel : nat) (path : block) (zips : list block) (unmount_when_done : option block) (chosen_item wipe_cache : Z) (s : prog) : outcome (Z * Z * prog) :=
  match fuel with
  | O => Trap NoFuel
  | S fuel =>
      let* (chosen_item, s) := get_menu_selection fuel 6 (zlen zips) true chosen_item s in
      let* item := load zips chosen_item in
      if chosen_item =? 0 then Val (-1, wipe_cache, s) else
      let* last := load item (zlen item - 1) in
      if last =? 47 then
        let new_path := join_path path item in
        let* (result, wipe_cache, s) := update_directory (take (length new_path - 1) new_path) wipe_cache s in
        if 0 <=? result then Val (result, wipe_cache, s) else browse_loop fuel path zips unmount_when_done chosen_item wipe_cache s
      else install_item path item unmount_when_done wipe_cache s
  end.
End Browse.

Fixpoint update_directory (fuel : nat) (unmount_when_done : option block) (path : block) (wipe_cache : Z) (s : prog) : outcome (Z * Z * prog) :=
  match fuel with
  | O => Trap NoFuel
  | S fuel =>
      let* (_, s) := p_mount path s in
      let d := u_listing U (tick s) in
      let '(_, s) := p_ask s in
      match d with
      | None => let* s := maybe_unmount unmount_when_done s in Val (0, wipe_cache, s)
      | Some entries =>
          let* (result, wipe_cache, s) := browse_loop (update_directory fuel unmount_when_done) fuel path (package_menu entries) unmount_when_done 0 wipe_cache s in
          let* s := maybe_unmount unmount_when_done s in
          Val (result, wipe_cache, s)
      end
  end.

(** adb_install.cpp: the calls that control the USB driver and the daemon only take time. *)
Definition apply_from_adb (wipe_cache : Z) (s : prog) : outcome (Z * Z * prog) :=
  let s := set_os (u_adbd U (os s)) s in
  let '(a, s) := p_ask s in  (** stat *)
  if (a <? 0) || negb (visible P (os s) ADB_SIDELOAD_FILENAME && bool_decide (is_Some (contents (os s) ADB_SIDELOAD_FILENAME)))
  then Val (INSTALL_ERROR, wipe_cache, s)
  else p_install ADB_SIDELOAD_FILENAME wipe_cache s.

(** After an installation that the user asked for: [None] is the return. *)
Definition after_install (wipes : bool) (status wipe_cache : Z) (s : prog) : outcome (option Z * prog) :=
  let* s := if wipes && (status =? INSTALL_SUCCESS) && negb (wipe_cache =? 0)
            then let* (_, s) := erase_volume (str "/cache") s in Val s else Val s in
  if 0 <=? status then
    if negb (status =? INSTALL_SUCCESS) then
      let* s := if wipes then Val s else copy_logs s in Val (Some status, s)
    else
      let '(visible, s) := is_visible s in
      Val (if (visible : bool) then Some status else None, s)
  else Val (Some status, s).

(** [stale]: the local [wipe_cache] before it is set. *)
Definition invoke (fuel : nat) (action : BuiltinAction) (stale status : Z) (s : prog) : outcome (option Z * prog) :=
  match action with
  | REBOOT => Val (None, s)
  | WIPE_DATA =>
      let '(visible, s) := is_visible s in
      let* s := wipe_data fuel visible s in
      let '(visible, s) := is_visible s in Val (if (visible : bool) then Some status else None, s)
  | WIPE_CACHE =>
      let* (_, s) := erase_volume (str "/cache") s in
      let '(visible, s) := is_visible s in Val (if (visible : bool) then Some status else None, s)
  | APPLY_EXT =>
      let* (status, wipe_cache, s) := update_directory fuel (Some SDCARD_ROOT) SDCARD_ROOT stale s in after_install true status wipe_cache s
  | APPLY_CACHE =>
      let* (status, wipe_cache, s) := update_directory fuel None CACHE_ROOT stale s in after_install true status wipe_cache s
  | APPLY_ADB_SIDELOAD =>
      let* (status, wipe_cache, s) := apply_from_adb stale s in after_install false status wipe_cache s
  | NO_ACTION => Val (Some status, s)
  end.

Fixpoint prompt_and_wait (fuel : nat) (status : Z) (s : prog) : outcome prog :=
  match fuel with
  | O => Trap NoFuel
  | S fuel =>
      let* s := finish_recovery None s in
      let* (chosen_item, s) := get_menu_selection fuel 6 4 false 0 s in
      let '(stale, s) := p_ask s in
      let* (next, s) := invoke fuel (InvokeMenuItem chosen_item) stale status s in
      match next with
      | None => Val s
      | Some status => prompt_and_wait fuel status s
      end
  end.

(** ** Starting *)

(** The loop that drops white space, in place: [buffer[i]] to [buffer[j]]. *)
Fixpoint squeeze (n : nat) (i j : Z) (buffer : block) : outcome (block * Z) :=
  match n with
  | O => Val (buffer, j)
  | S n =>
      let* c := load buffer i in
      if c =? 0 then Val (buffer, j)
      else if is_space c then squeeze n (i + 1) j buffer
      else let* buffer := store buffer j c in squeeze n (i + 1) (j + 1) buffer
  end.

(** [u_stale] gives the 80 bytes of the stack when fgets reads nothing. *)
Definition load_locale_from_cache (s : prog) : outcome prog :=
  let* (fp, w) := fopen_path_r P LOCALE_FILE (os s) in
  match fp with
  | None => Val (set_os w s)
  | Some data =>
      let stack := take 80 (u_stale U (r_tick (vols w)) ++ replicate 80 0) in
      let '(text, w) := read_all P data w in
      let (line, _) := fgets 79 text in
      let* buffer := match line with [] => Val stack | _ => store_bytes stack 0 (line ++ [0]) end in
      let* (buffer, j) := squeeze 80 0 0 buffer in
      let* buffer := store buffer j 0 in
      let* l := c_str buffer in
      let '(_, w) := ask P w in  (** check_and_fclose *)
      Val (mkProg w (tmplog_offset s) (Some l))
  end.

(** getopt_long with the table OPTIONS and no short options: the values it returns, with
    [optarg].  A name may be abbreviated as long as it is unique. *)
Definition OPTIONS : list (block * bool * Z) :=
  [(str "send_intent", true, 115); (str "update_package", true, 117); (str "wipe_data", false, 119); (str "wipe_cache", false, 99);
   (str "show_text", false, 116); (str "just_exit", false, 120); (str "locale", true, 108); (str "shutdown_after", false, 112)].
Definition invalid : Z := 63.
Definition find_option (name : block) : option (bool * Z) :=
  match filter (fun o => o.1.1 = name) OPTIONS, filter (fun o => name `prefix_of` o.1.1) OPTIONS with
  | (_, arg, val) :: _, _ => Some (arg, val)
  | [], [(_, arg, val)] => Some (arg, val)
  | _, _ => None
  end.
Fixpoint getopt_long (argv : list block) : list (Z * block) :=
  match argv with
  | [] => []
  | a :: rest =>
      match a with
      | 45 :: 45 :: [] => []
      | 45 :: 45 :: a =>
          let (name, eq) := span_token (fun c => c =? 61) a in
          match find_option name with
          | None => (invalid, []) :: getopt_long rest
          | Some (false, val) => (if bool_decide (eq = []) then (val, []) else (invalid, [])) :: getopt_long rest
          | Some (true, val) =>
              match eq, rest with
              | _ :: value, _ => (val, value) :: getopt_long rest
              | [], value :: rest => (val, value) :: getopt_long rest
              | [], [] => [(invalid, [])]
              end
          end
      | 45 :: c :: a => (fun _ => (invalid, [])) <$> (c :: a)
      | _ => []
      end ++ match a with 45 :: 45 :: _ => [] | _ => getopt_long rest end
  end.

Record options := mkOptions {
  send_intent : option block; update_package : option block; opt_wipe_data : bool; opt_wipe_cache : bool; just_exit : bool;
  opt_locale : option block; shutdown_after : bool
}.
Definition set_option (o : options) (x : Z * block) : options :=
  let (arg, optarg) := x in
  let '(mkOptions si up wd wc je lo sa) := o in
  if arg =? 115 then mkOptions (Some optarg) up wd wc je lo sa
  else if arg =? 117 then mkOptions si (Some optarg) wd wc je lo sa
  else if arg =? 119 then mkOptions si up true true je lo sa
  else if arg =? 99 then mkOptions si up wd true je lo sa
  else if arg =? 120 then mkOptions si up wd wc true lo sa
  else if arg =? 108 then mkOptions si up wd wc je (Some optarg) sa
  else if arg =? 112 then mkOptions si up wd wc je lo true
  else o.
Definition parse_options (argv : list block) : options :=
  foldl set_option (mkOptions None None false false false None false) (getopt_long (tail argv)).

(** An old root path; the buffer is long enough for the new one. *)
Definition package_path (p : block) : block := if bool_decide (take 6 p = str "CACHE:") then str "/cache/" ++ drop 6 p else p.

(** The work that the options ask for: the status. *)
Definition do_work (o : options) (s : prog) : outcome (Z * prog) :=
  match update_package o with
  | Some p =>
      let* (status, wipe_cache, s) := p_install (package_path p) (if opt_wipe_cache o then 1 else 0) s in
      let* s := if (status =? INSTALL_SUCCESS) && negb (wipe_cache =? 0) then let* (_, s) := erase_volume (str "/cache") s in Val s else Val s in
      Val (status, s)
  | None =>
      if opt_wipe_data o then
        let* (a, s) := erase_volume (str "/data") s in
        let status := if negb (a =? 0) then INSTALL_ERROR else INSTALL_SUCCESS in
        if opt_wipe_cache o then
          let* (b, s) := erase_volume (str "/cache") s in Val (if negb (b =? 0) then INSTALL_ERROR else status, s)
        else Val (status, s)
      else if opt_wipe_cache o then
        let* (b, s) := erase_volume (str "/cache") s in Val (if negb (b =? 0) then INSTALL_ERROR else INSTALL_SUCCESS, s)
      else Val (if just_exit o then INSTALL_SUCCESS else INSTALL_NONE, s)
  end.

(** [main] without the argument --adbd. *)
Definition main (fuel : nat) (argv : list block) (w : rec) : outcome rec :=
  let* (_, w) := mount_path P LAST_LOG_FILE (load_volume_table P w) in
  let s := rotate_last_logs 10 (mkProg w 0 None) in
  let* (argv, w) := get_args P argv (os s) in
  let o := parse_options argv in
  let s := mkProg w 0 (opt_locale o) in
  let* s := match locale s with None => load_locale_from_cache s | Some _ => Val s end in
  let* (status, s) := do_work o s in
  let* s := if (status =? INSTALL_ERROR) || (status =? INSTALL_CORRUPT) then copy_logs s else Val s in
  let '(visible, s) := is_visible s in
  let* s := if negb (status =? INSTALL_SUCCESS) || visible then prompt_and_wait fuel status s else Val s in
  let* s := finish_recovery (send_intent o) s in
  Val (add_log (Restart (if shutdown_after o then str "shutdown," else str "reboot,")) (os s)).
End Recovery.


(** ** What is logged *)

Section Order.
Context `{A : Arch} `{C : mincrypt} (P : platform) (I : installer) (U : user).
(** The programs that are started do not write this log. *)
Hypothesis Hrun : forall b args w, log (in_run I b args w).2 = log w.
Hypothesis Hadbd : forall w, log (u_adbd U w) = log w.

Definition adds (l : list effect) (w w' : rec) : Prop := log w' = log w ++ l.
Lemma adds_nil w w' : log w' = log w -> adds [] w w'.
Proof. intros E. unfold adds. by rewrite app_nil_r. Qed.
Lemma adds_trans l1 l2 w1 w2 w3 : adds l1 w1 w2 -> adds l2 w2 w3 -> adds (l1 ++ l2) w1 w3.
Proof. unfold adds. intros -> ->. by rewrite app_assoc. Qed.
Lemma adds_silent l w1 w2 w3 : adds [] w1 w2 -> adds l w2 w3 -> adds l w1 w3.
Proof. intros Hx Hy. exact (adds_trans [] l _ _ _ Hx Hy). Qed.
Lemma adds_then l w1 w2 w3 : adds l w1 w2 -> adds [] w2 w3 -> adds l w1 w3.
Proof. intros Hx Hy. rewrite <- (app_nil_r l). by eapply adds_trans. Qed.

Definition grows (s s' : prog) : Prop := exists l, adds l (os s) (os s').
Lemma grows_refl s : grows s s.
Proof. exists []. by apply adds_nil. Qed.
Lemma grows_trans s1 s2 s3 : grows s1 s2 -> grows s2 s3 -> grows s1 s3.
Proof. intros [l1 H1] [l2 H2]. exists (l1 ++ l2). by eapply adds_trans. Qed.
Lemma grows_adds l s s' : adds l (os s) (os s') -> grows s s'.
Proof. by exists l. Qed.

Definition silent (s s' : prog) : Prop := adds [] (os s) (os s').
Lemma silent_refl s : silent s s.
Proof. by apply adds_nil. Qed.
Lemma silent_trans s1 s2 s3 : silent s1 s2 -> silent s2 s3 -> silent s1 s3.
Proof. apply adds_silent. Qed.
Lemma silent_grows s s' : silent s s' -> grows s s'.
Proof. by exists []. Qed.

Lemma ask_silent s : silent s (p_ask P s).2.
Proof. unfold p_ask, ask. destruct (r_ask _ _). by apply adds_nil. Qed.
Lemma visible_silent s : silent s (is_visible P s).2.
Proof. unfold is_visible. pose proof (ask_silent s). by destruct (p_ask P s). Qed.
Lemma p_mount_silent path s r s' : p_mount P path s = Val (r, s') -> silent s s'.
Proof. unfold p_mount. intros Hm. apply bind_Val_inv in Hm as ([a w] & [v ->]%mount_path_frame & Hm). simplify_eq. by apply adds_nil. Qed.
Lemma p_unmount_silent path s r s' : p_unmount P path s = Val (r, s') -> silent s s'.
Proof.
  unfold p_unmount, unmount_path. intros Hm. apply bind_Val_inv in Hm as ([a w] & Em & Hm). apply bind_Val_inv in Em as ([b v] & _ & Em).
  simplify_eq. by apply adds_nil.
Qed.
Lemma p_open_w_silent append path s b s' : p_open_w P append path s = Val (b, s') -> silent s s'.
Proof. unfold p_open_w. intros Hm. apply bind_Val_inv in Hm as ([a w] & (Hl & _)%fopen_path_w_frame & Hm). simplify_eq. by apply adds_nil. Qed.
Lemma p_flush_silent path data s : silent s (p_flush P path data s).
Proof. apply adds_nil. apply flush_log. Qed.
Lemma change_silent path f s : silent s (change P path f s).
Proof. unfold change. pose proof (ask_silent s) as Ha. destruct (p_ask P s) as [a s1]. by destruct (if _ || _ then None else _). Qed.
Lemma p_rename_silent p q s : silent s (p_rename P p q s).
Proof. unfold p_rename. pose proof (ask_silent s) as Ha. destruct (p_ask P s) as [a s1]. by destruct (if _ || _ then None else _). Qed.
Lemma rotate_silent n : forall s, silent s (rotate_last_logs P n s).
Proof. induction n as [| n IH]; intros s; [apply silent_refl |]. eapply silent_trans; [apply p_rename_silent | apply IH]. Qed.
Lemma unlink_silent path s : silent s (set_os (unlink P path (os s)).2 s).
Proof. apply adds_nil. apply (unlink_frame P path (os s)). Qed.

Lemma fopen_r_log path w : log (fopen_r P path w).2 = log w.
Proof. destruct (fopen_r_frame P path w) as (v & -> & _). done. Qed.
Lemma read_all_log data w : log (read_all P data w).2 = log w.
Proof. unfold read_all, ask. by destruct (r_ask _ _). Qed.

Lemma copy_log_file_silent src dst append s s' : copy_log_file P src dst append s = Val s' -> silent s s'.
Proof.
  unfold copy_log_file. intros Hc. apply bind_Val_inv in Hc as ([b s1] & Ho%p_open_w_silent & Hc). destruct b; cbn [negb] in Hc; [| by simplify_eq].
  eapply silent_trans; [exact Ho |]. pose proof (fopen_r_log src (os s1)) as Hf. destruct (fopen_r P src (os s1)) as [t w]. cbn [snd] in Hf.
  destruct t as [data |]; [| simplify_eq; eapply silent_trans; [| apply p_flush_silent]; by apply adds_nil].
  match goal with H : context [read_all P ?d w] |- _ => pose proof (read_all_log d w) as Hr; destruct (read_all P d w) as [text w2] end.
  cbn [snd] in Hr. apply bind_Val_inv in Hc as (out & _ & Hc). simplify_eq. eapply silent_trans; [| apply p_flush_silent]. apply adds_nil. cbn [os]. congruence.
Qed.

Lemma copy_logs_silent s s' : copy_logs P s = Val s' -> silent s s'.
Proof.
  unfold copy_logs. intros Hc. do 3 (apply bind_Val_inv in Hc as (? & ?%copy_log_file_silent & Hc)). simplify_eq.
  repeat (eapply silent_trans; [eassumption |]). unfold p_chmod, p_chown. repeat (eapply silent_trans; [| apply change_silent]). apply silent_refl.
Qed.

Lemma find_misc_frame v w x w' : find_misc P v w = Val (x, w') -> exists s, w' = set_vols s w.
Proof.
  unfold find_misc. intros Hf. apply bind_Val_inv in Hf as ([n fl] & _ & Hf). destruct (mtd_find_partition_by_name fl _) as [part |]; [| simplify_eq; eauto].
  destruct (mtd_partition_info _ part fl) as [info fl']. simplify_eq. eauto.
Qed.
Lemma read_misc_frame part size w x w' : read_misc P part size w = Val (x, w') -> exists s, w' = set_vols s w.
Proof.
  unfold read_misc. destruct (mtd_read_partition _ part _) as [ctx fl]. destruct ctx as [ctx |]; [| intros; simplify_eq; eauto].
  destruct (_ <=? 0); [done |]. intros Hf. apply bind_Val_inv in Hf as ([[[r data] ctx'] fl'] & _ & Hf). simplify_eq. eauto.
Qed.
Lemma set_mtd_frame m v w r w' : set_bootloader_message_mtd P m v w = Val (r, w') -> log w' = log w.
Proof.
  unfold set_bootloader_message_mtd. intros Hs. apply bind_Val_inv in Hs as ([part w1] & [v1 ->]%find_misc_frame & Hs).
  destruct part as [[part size] |]; [| by simplify_eq]. apply bind_Val_inv in Hs as ([data w2] & [v2 ->]%read_misc_frame & Hs).
  destruct data as [data |]; [| by simplify_eq]. apply bind_Val_inv in Hs as (d & _ & Hs). destruct (mtd_write_partition _ part _) as [ctx fl].
  destruct ctx as [ctx |]; [| by simplify_eq]. apply bind_Val_inv in Hs as ([[n ctx'] fl'] & _ & Hs).
  destruct (negb _); apply bind_Val_inv in Hs as ([n2 fl2] & _ & Hs); by simplify_eq.
Qed.

Lemma set_message_log m w r w' : set_bootloader_message P m w = Val (r, w') -> adds [SetBoot m r] w w'.
Proof.
  unfold set_bootloader_message. intros Hs. apply bind_Val_inv in Hs as ([r1 w1] & Es & Hs). simplify_eq. unfold adds. cbn [log add_log].
  assert (log w1 = log w) as ->; [| done].
  destruct (for_path P (str "/misc") w) as [v |]; [| by simplify_eq]. case_bool_decide; [| case_bool_decide; [| by simplify_eq]].
  - by eapply set_mtd_frame.
  - injection Es as Es. unfold set_bootloader_message_block in Es. destruct (wait_frame P 10 (blk_device v) w) as [v0 Ew]. rewrite Ew in Es.
    unfold fopen_w, ask in Es. destruct (r_ask _ _) as [a r1']. destruct (_ || _); [by injection Es as _ <- |]. cbn [negb] in Es.
    match goal with H : context [flush P (blk_device v) ?d ?x] |- _ => pose proof (flush_log P (blk_device v) d x) as Hf; destruct (flush P (blk_device v) d x) as [ok w2] end.
    cbn [snd] in Hf. assert (log w2 = log w) as Hw2 by (rewrite Hf; destruct (devs _ !! _); [done |]; by destruct (rfiles _ !! _)). destruct ok; cbn [negb] in Es; [| by simplify_eq].
    destruct (r_ask _ _) as [c r3]. destruct (c <? 0); by simplify_eq.
Qed.
Lemma finish_recovery_log intent s s' : finish_recovery P intent s = Val s' -> exists r, adds [SetBoot zero_message r] (os s) (os s').
Proof.
  unfold finish_recovery. intros Hf. apply bind_Val_inv in Hf as (s1 & E1 & Hf). apply bind_Val_inv in Hf as (s2 & E2 & Hf).
  apply bind_Val_inv in Hf as (s3 & E3%copy_logs_silent & Hf). apply bind_Val_inv in Hf as ([r w4] & E4%set_message_log & Hf).
  apply bind_Val_inv in Hf as ([m s5] & E5%p_mount_silent & Hf). apply bind_Val_inv in Hf as ([u s6] & E6%p_unmount_silent & Hf). simplify_eq.
  assert (silent s s1) as Q1.
  { destruct intent; [| simplify_eq; apply silent_refl]. apply bind_Val_inv in E1 as ([fp s1'] & Ho%p_open_w_silent & E1). simplify_eq.
    eapply silent_trans; [exact Ho |]. destruct fp; [apply p_flush_silent | apply silent_refl]. }
  assert (silent s1 s2) as Q2.
  { destruct (locale s1); [| simplify_eq; apply silent_refl]. apply bind_Val_inv in E2 as ([fp s2'] & Ho%p_open_w_silent & E2).
    destruct fp; cbn [negb] in E2; [| done]. simplify_eq. eapply silent_trans; [exact Ho | apply p_flush_silent]. }
  exists r. eapply adds_silent; [eapply silent_trans; [exact Q1 | eapply silent_trans; [exact Q2 | exact E3]] |].
  eapply adds_then; [exact E4 |]. change (silent (set_os w4 s3) s'). eapply silent_trans; [exact E5 |]. eapply silent_trans; [| exact E6]. destruct (negb _); [apply silent_refl | apply unlink_silent].
Qed.

Lemma save_log_silent n head s x s' : save_log P U n head s = Val (x, s') -> silent s s'.
Proof.
  unfold save_log. destruct (negb _); [intros; simplify_eq; apply silent_refl |]. pose proof (ask_silent s) as Ha. destruct (p_ask P s) as [a s1].
  cbn [snd] in Ha. destruct (if _ || _ then None else _) as [st |]; [| intros; by simplify_eq].
  match goal with |- context [fopen_r P ?p ?w] => pose proof (fopen_r_log p w) as Hf; destruct (fopen_r P p w) as [f w1] end. cbn [snd] in Hf.
  destruct f as [data |]; [| done]. match goal with |- context [read_all P ?d w1] => pose proof (read_all_log d w1) as Hr; destruct (read_all P d w1) as [got w2] end.
  cbn [snd] in Hr. intros Hs. simplify_eq. eapply silent_trans; [exact Ha |]. apply adds_nil. cbn [os set_os]. congruence.
Qed.
Lemma save_logs_silent names : forall head s x s', save_logs P U names head s = Val (x, s') -> silent s s'.
Proof.
  induction names as [| n names IH]; intros head s x s' Hs; cbn [save_logs] in Hs; [simplify_eq; apply silent_refl |].
  apply bind_Val_inv in Hs as ([h s1] & E1%save_log_silent & Hs). eapply silent_trans; [exact E1 | by eapply IH].
Qed.
Lemma restore_logs_silent head : forall s s', restore_logs P head s = Val s' -> silent s s'.
Proof.
  induction head as [| h head IH]; intros s s' Hs; cbn [restore_logs] in Hs; [simplify_eq; apply silent_refl |].
  apply bind_Val_inv in Hs as ([f s1] & E1%p_open_w_silent & Hs). eapply silent_trans; [exact E1 |]. eapply silent_trans; [| by eapply IH].
  destruct f; [| apply silent_refl]. unfold p_chown, p_chmod. repeat (eapply silent_trans; [| apply change_silent]). apply p_flush_silent.
Qed.

Lemma erase_volume_log v s r s' : erase_volume P U v s = Val (r, s') -> adds [Format v r] (os s) (os s').
Proof.
  unfold erase_volume. intros He. apply bind_Val_inv in He as ([head s1] & E1 & He). apply bind_Val_inv in He as ([u s2] & E2%p_unmount_silent & He).
  apply bind_Val_inv in He as ([r3 s3] & E3 & He).
  assert (silent s s1) as Q1.
  { case_bool_decide; [| simplify_eq; apply silent_refl]. apply bind_Val_inv in E1 as ([m s1'] & Em%p_mount_silent & E1).
    pose proof (ask_silent s1') as Ha. destruct (p_ask P s1') as [a s1'']. cbn [snd] in Ha.
    eapply silent_trans; [exact Em |]. eapply silent_trans; [exact Ha |]. destruct (u_listing U (tick s1')); [by apply save_logs_silent in E1 | simplify_eq; apply silent_refl]. }
  assert (adds [Format v r3] (os s2) (os s3)) as Q3.
  { unfold p_format in E3. apply bind_Val_inv in E3 as ([r4 vs] & _ & E3). simplify_eq. done. }
  assert (adds [Format v r3] (os s) (os s3)) as Q by (eapply adds_silent; [eapply silent_trans; [exact Q1 | exact E2] | exact Q3]).
  case_bool_decide; [| by simplify_eq]. apply bind_Val_inv in He as (s4 & E4%restore_logs_silent & He). apply bind_Val_inv in He as (s5 & E5%copy_logs_silent & He).
  simplify_eq. eapply adds_then; [exact Q |]. eapply silent_trans; [exact E4 | exact E5].
Qed.

(** At most one program is run. *)
Definition runs (path : block) (l : list effect) : Prop := l = [] \/ exists program args status, l = [RunBinary program args status] /\ last args = Some path.

Lemma try_update_binary_log path data zip wc w r wc' calls w' : try_update_binary P I path data zip wc w = Val (r, wc', calls, w') ->
  exists l, adds l w w' /\ runs path l.
Proof.
  unfold try_update_binary. intros Ht. apply bind_Val_inv in Ht as (entry & _ & Ht). destruct entry as [i |]; [| simplify_eq; exists []; split; [by apply adds_nil | by left]].
  apply bind_Val_inv in Ht as (ents & _ & Ht). apply bind_Val_inv in Ht as (e & _ & Ht).
  pose proof (unlink_frame P binary w) as (Hu & _). destruct (unlink P binary w) as [u w1]. cbn [snd] in Hu.
  pose proof (creat_frame P binary w1) as [(Hc & _) _]. destruct (creat P binary w1) as [fd w2]. cbn [snd] in Hc.
  destruct fd; cbn [negb] in Ht; [| simplify_eq; exists []; split; [apply adds_nil; congruence | by left]].
  apply bind_Val_inv in Ht as ([ok out] & _ & Ht). pose proof (written_to_frame binary (sk_bytes out) w2) as [(Hw & _) _].
  destruct ok; cbn [negb] in Ht; [| simplify_eq; exists []; split; [apply adds_nil; congruence | by left]].
  unfold run_binary in Ht. match goal with H : context [in_run I ?b ?a ?x] |- _ => pose proof (Hrun b a x) as Hr; destruct (in_run I b a x) as [[output st] w4] end.
  cbn [snd] in Hr. apply bind_Val_inv in Ht as ([cs wc1] & _ & Ht).
  exists [RunBinary (default [] (contents (written_to binary (sk_bytes out) w2) binary)) [binary; in_api I; in_pipe I; path] st].
  split; [| right; by eexists _, _, _]. unfold adds.
  destruct (_ || _); simplify_eq; cbn [log add_log]; f_equal; congruence.
Qed.

Lemma install_package_log path wc file w r wc' calls w' : install_package P I path wc file w = Val (r, wc', calls, w') -> exists l, adds l w w' /\ runs path l.
Proof.
  unfold install_package. intros Hi. apply bind_Val_inv in Hi as ([il w1] & (Hl1 & _)%fopen_path_w_frame & Hi).
  apply bind_Val_inv in Hi as ([m w2] & [s2 ->]%setup_mounts_frame & Hi). apply bind_Val_inv in Hi as ([[[r3 wc3] calls3] w3] & Hr & Hi).
  assert (exists l, adds l w1 w3 /\ runs path l) as (l & Ha & Hl).
  { destruct (negb (m =? 0)); [simplify_eq; exists []; split; [by apply adds_nil | by left] |]. unfold really_install_package in Hr.
    apply bind_Val_inv in Hr as ([m3 w4] & [s4 ->]%mount_path_frame & Hr). destruct (negb (m3 =? 0)); [simplify_eq; exists []; split; [by apply adds_nil | by left] |].
    match goal with H : context [fopen_r P PUBLIC_KEYS_FILE ?x] |- _ => pose proof (fopen_r_log PUBLIC_KEYS_FILE x) as Hk; destruct (fopen_r P PUBLIC_KEYS_FILE x) as [kf w5] end.
    cbn [snd] in Hk. apply bind_Val_inv in Hr as (lk & _ & Hr). destruct lk as [keys |]; [| simplify_eq; exists []; split; [by apply adds_nil | by left]].
    pose proof (fopen_r_log path w5) as Hp. destruct (fopen_r P path w5) as [pk w6]. cbn [snd] in Hp. apply bind_Val_inv in Hr as (err & _ & Hr).
    destruct (negb _); [simplify_eq; exists []; split; [apply adds_nil; by rewrite Hp | by left] |]. apply bind_Val_inv in Hr as ([[e2 zip] evs] & _ & Hr).
    destruct (negb _); [simplify_eq; exists []; split; [apply adds_nil; by rewrite Hp | by left] |].
    apply try_update_binary_log in Hr as (l & Ha & Hl). exists l. split; [| done]. unfold adds in *. by rewrite Ha, Hp, Hk. }
  exists l. split; [| done]. unfold adds in *. destruct il; simplify_eq; rewrite ?flush_log; congruence.
Qed.

Lemma p_install_log path wc s r wc' s' : p_install P I path wc s = Val (r, wc', s') -> exists l, adds l (os s) (os s') /\ runs path l.
Proof. unfold p_install. intros Hi. apply bind_Val_inv in Hi as ([[[r1 wc1] calls] w1] & E1%install_package_log & Hi). by simplify_eq. Qed.
(** *** The arguments *)

Lemma get_message_frame w r out w' : get_bootloader_message P zero_message w = Val (r, out, w') -> message_ok out /\ log w' = log w.
Proof.
  unfold get_bootloader_message. destruct (for_path P _ w) as [v |]; [| intros; by simplify_eq]. case_bool_decide; [| case_bool_decide; [| intros; by simplify_eq]].
  - unfold get_bootloader_message_mtd. intros Hg. apply bind_Val_inv in Hg as ([part w1] & [v1 ->]%find_misc_frame & Hg).
    destruct part as [[part size] |]; [| by simplify_eq]. apply bind_Val_inv in Hg as ([data w2] & [v2 ->]%read_misc_frame & Hg).
    destruct data as [data |]; [| by simplify_eq]. apply bind_Val_inv in Hg as (b & Eb & Hg). simplify_eq. split; [| done]. apply message_of_ok.
    unfold load_bytes in Eb. destruct (_ && _) eqn:Eb1 in Eb; [| done]. injection Eb as <-.
    apply andb_true_iff in Eb1 as [Hx%andb_true_iff Hy%Z.leb_le]. destruct Hx as [Hx1%Z.leb_le Hx2%Z.leb_le]. by apply zlen_slice.
  - destruct (get_block_frame P v w) as (r0 & o & s0 & -> & Hm). intros; by simplify_eq.
Qed.

Lemma fopen_path_r_log path w fp w' : fopen_path_r P path w = Val (fp, w') -> log w' = log w.
Proof.
  unfold fopen_path_r. intros Hf. apply bind_Val_inv in Hf as ([r w1] & [v ->]%mount_path_frame & Hf). destruct (negb _); [by injection Hf as _ <- |].
  pose proof (fopen_r_log path (set_vols v w)) as Hl. destruct (fopen_r P path _). by injection Hf as _ <-.
Qed.

(** Part of what [get_args] does: the arguments found, before they are written back. *)
Lemma get_args_log argv w argv' w' : args_ok (tail argv) -> get_args P argv w = Val (argv', w') ->
  args_ok (tail argv') /\ exists m r, restarts (tail argv') m /\ adds [SetBoot m r] w w'.
Proof.
  intros Ha Hg. unfold get_args in Hg. apply bind_Val_inv in Hg as ([[argv3 r3] w3] & Hg & E). simplify_eq. unfold get_args_status in Hg.
  apply bind_Val_inv in Hg as ([[r0 boot] w0] & [Hboot Hl0]%get_message_frame & Hg). pose proof Hboot as (Hc & Hs & Hr).
  apply bind_Val_inv in Hg as ([argv1 buf] & E1 & Hg).
  assert (zlen buf = 1024 /\ args_ok (tail argv1)) as [Hbuf Ha1].
  { destruct (_ <=? _)%nat; [| by simplify_eq]. destruct (boot_args_spec argv _ Hr) as (a1 & b1 & E & Hb1 & Hor & _). rewrite E in E1.
    simplify_eq. split; [done |]. destruct Hor as [-> | [_ ?]]; done. }
  apply bind_Val_inv in Hg as ([argv2 w2] & E2 & Hg).
  assert (log w2 = log w /\ args_ok (tail argv2)) as [Hl2 Ha2].
  { destruct (_ <=? _)%nat in E2; [| by simplify_eq]. split; [| by eapply command_file_ok]. apply bind_Val_inv in E2 as ([fp w1] & Hf%fopen_path_r_log & E2).
    destruct fp as [data |]; [| simplify_eq; congruence]. pose proof (read_all_log data w1) as Hd. destruct (read_all P data w1) as [d w1']. cbn [snd] in Hd.
    apply bind_Val_inv in E2 as (args & _ & E2). unfold ask in E2. destruct (r_ask _ _). simplify_eq. cbn [set_vols log]. congruence. }
  apply bind_Val_inv in Hg as ([r4 w4] & E4 & Hg). simplify_eq. split; [done |].
  destruct (write_back_message P argv' (mkMessage (command boot) (status boot) buf) w2) as (m & Hm & E); [done | apply Ha2 |].
  rewrite E in E4. apply set_message_log in E4. exists m, r3. split; [done |]. unfold adds in *. by rewrite E4, Hl2.
Qed.

(** *** The rest of the program only adds to the log *)

Lemma menu_loop_silent fuel : forall menu only sel s r s', menu_loop P fuel menu only sel s = Val (r, s') -> silent s s'.
Proof.
  induction fuel as [| fuel IH]; intros menu only sel s r s' Hm; cbn [menu_loop] in Hm; [done |].
  pose proof (ask_silent s) as H1. destruct (p_ask P s) as [key s1]. cbn [snd] in H1.
  pose proof (visible_silent s1) as H2. destruct (is_visible P s1) as [vis s2]. cbn [snd] in H2. pose proof (silent_trans _ _ _ H1 H2) as Q.
  destruct (key =? -1).
  - pose proof (visible_silent s2) as H3. destruct (is_visible P s2) as [ever s3]. cbn [snd] in H3. pose proof (silent_trans _ _ _ Q H3) as Q3.
    destruct ever; [eapply silent_trans; [exact Q3 | by eapply IH] | by simplify_eq].
  - repeat match goal with
    | H : (if ?b then _ else _) = Val _ |- _ => destruct b
    | H : menu_loop _ _ _ _ _ _ = Val _ |- _ => eapply silent_trans; [exact Q | by eapply IH]
    | H : Val _ = Val _ |- _ => by simplify_eq
    end.
Qed.
Lemma menu_silent fuel h n only sel s r s' : get_menu_selection P U fuel h n only sel s = Val (r, s') -> silent s s'.
Proof. apply menu_loop_silent. Qed.

Lemma erase_volume_grows v s r s' : erase_volume P U v s = Val (r, s') -> grows s s'.
Proof. intros He%erase_volume_log. by eapply grows_adds. Qed.
Lemma p_install_grows path wc s r wc' s' : p_install P I path wc s = Val (r, wc', s') -> grows s s'.
Proof. intros (l & Ha & _)%p_install_log. by eapply grows_adds. Qed.

Lemma wipe_data_grows fuel confirm s s' : wipe_data P U fuel confirm s = Val s' -> grows s s'.
Proof.
  unfold wipe_data. intros Hw. apply bind_Val_inv in Hw as ([c s1] & E1 & Hw).
  assert (grows s s1) as G1 by (destruct confirm; [by apply silent_grows, (menu_silent _ _ _ _ _ _ _ _ E1) | simplify_eq; apply grows_refl]).
  destruct (negb _); [by simplify_eq |]. apply bind_Val_inv in Hw as ([a s2] & E2%erase_volume_grows & Hw).
  apply bind_Val_inv in Hw as ([b s3] & E3%erase_volume_grows & Hw). simplify_eq. eapply grows_trans; [exact G1 |]. by eapply grows_trans.
Qed.

Lemma fopen_w_log append path w : log (fopen_w P append path w).2 = log w.
Proof.
  unfold fopen_w, ask. destruct (r_ask _ _). destruct (_ || _); [done |]. cbn [snd]. destruct (devs _ !! path); [done |].
  destruct (rfiles _ !! path); [by destruct append | done].
Qed.

Lemma copy_sideloaded_silent p s x s' : copy_sideloaded_package P U p s = Val (x, s') -> silent s s'.
Proof.
  unfold copy_sideloaded_package. intros Hc. apply bind_Val_inv in Hc as ([r1 s1] & E1%p_mount_silent & Hc). destruct (negb _); [by simplify_eq |].
  apply bind_Val_inv in Hc as ([r2 s2] & E2%p_mount_silent & Hc). pose proof (silent_trans _ _ _ E1 E2) as Q2. destruct (negb _); [by simplify_eq |].
  pose proof (ask_silent s2) as H3. destruct (p_ask P s2) as [a s3]. cbn [snd] in H3. pose proof (silent_trans _ _ _ Q2 H3) as Q3. destruct (_ && _); [by simplify_eq |].
  pose proof (ask_silent s3) as H4. destruct (p_ask P s3) as [b s4]. cbn [snd] in H4. pose proof (silent_trans _ _ _ Q3 H4) as Q4.
  destruct (u_dir U (tick s3)) as [[mode uid] |]; [| by simplify_eq]. do 3 (destruct (negb _); [by simplify_eq |]).
  pose proof (fopen_r_log p (os s4)) as H5. destruct (fopen_r P p (os s4)) as [fin w5]. cbn [snd] in H5.
  assert (silent s (set_os w5 s4)) as Q5 by (eapply silent_trans; [exact Q4 | by apply adds_nil]). destruct fin as [data |]; [| by simplify_eq].
  match goal with H : context [fopen_w P false ?c w5] |- _ => pose proof (fopen_w_log false c w5) as H6; destruct (fopen_w P false c w5) as [fout w6] end. cbn [snd] in H6.
  assert (silent s (set_os w6 s4)) as Q6 by (eapply silent_trans; [exact Q4 | apply adds_nil; cbn [os set_os]; congruence]). destruct fout; cbn [negb] in Hc; [| by simplify_eq].
  match goal with H : context [copy_all P data ?c ?x] |- _ => assert (silent x (copy_all P data c x).2) as H7; [| destruct (copy_all P data c x) as [ok s7]] end.
  { unfold copy_all. match goal with |- context [read_all P data ?x] => pose proof (read_all_log data x) as Hr; destruct (read_all P data x) as [got w7] end. cbn [snd] in Hr.
    match goal with |- context [flush P ?c got w7] => pose proof (flush_log P c got w7) as Hf; destruct (flush P c got w7) as [ok w8] end. cbn [snd] in Hf.
    unfold ask. destruct (r_ask _ _). apply adds_nil. cbn [os set_os snd set_vols log]. rewrite Hf, Hr. done. }
  cbn [snd] in H7. pose proof (silent_trans _ _ _ Q6 H7) as Q7. destruct ok; cbn [negb] in Hc; [| by simplify_eq].
  pose proof (ask_silent s7) as H8. destruct (p_ask P s7) as [c s8]. cbn [snd] in H8. pose proof (silent_trans _ _ _ Q7 H8) as Q8. destruct (c <? 0); [by simplify_eq |].
  pose proof (ask_silent s8) as H9. destruct (p_ask P s8) as [d s9]. cbn [snd] in H9. pose proof (silent_trans _ _ _ Q8 H9) as Q9.
  destruct (if _ || _ then None else _) as [n |]; by simplify_eq.
Qed.

Lemma maybe_unmount_silent u s s' : maybe_unmount P u s = Val s' -> silent s s'.
Proof. unfold maybe_unmount. destruct u; intros Hm; [| simplify_eq; apply silent_refl]. apply bind_Val_inv in Hm as ([r s1] & E%p_unmount_silent & Hm). by simplify_eq. Qed.

Lemma write_back_grows argv boot w r w' : write_back P argv boot w = Val (r, w') -> exists l, adds l w w'.
Proof.
  unfold write_back. intros Hw. do 3 (apply bind_Val_inv in Hw as (? & _ & Hw)). apply set_message_log in Hw. eauto.
Qed.

Lemma install_item_grows path item u wc s r wc' s' : install_item P I U path item u wc s = Val (r, wc', s') -> grows s s'.
Proof.
  unfold install_item, set_sdcard_update_bootloader_message. intros Hi. apply bind_Val_inv in Hi as ([r1 w1] & [l E1]%write_back_grows & Hi).
  apply bind_Val_inv in Hi as ([copy s2] & E2%copy_sideloaded_silent & Hi). apply bind_Val_inv in Hi as (s3 & E3%maybe_unmount_silent & Hi).
  assert (grows s s3) as G by (exists l; eapply adds_then; [exact E1 |]; exact (silent_trans _ _ _ E2 E3)).
  destruct copy; [| by simplify_eq]. eapply grows_trans; [exact G | by eapply p_install_grows].
Qed.

Lemma browse_loop_grows ud : (forall p wc s r wc' s', ud p wc s = Val (r, wc', s') -> grows s s') ->
  forall fuel path zips u c wc s r wc' s', browse_loop P I U ud fuel path zips u c wc s = Val (r, wc', s') -> grows s s'.
Proof.
  intros Hud fuel. induction fuel as [| fuel IH]; intros path zips u c wc s r wc' s' Hb; cbn [browse_loop] in Hb; [done |].
  apply bind_Val_inv in Hb as ([c1 s1] & E1%menu_silent%silent_grows & Hb). apply bind_Val_inv in Hb as (item & _ & Hb). destruct (c1 =? 0); [by simplify_eq |].
  apply bind_Val_inv in Hb as (last & _ & Hb). eapply grows_trans; [exact E1 |]. destruct (last =? 47); [| by eapply install_item_grows].
  apply bind_Val_inv in Hb as ([[r2 wc2] s2] & E2%Hud & Hb). eapply grows_trans; [exact E2 |]. destruct (0 <=? r2); [simplify_eq; apply grows_refl | by eapply IH].
Qed.

Lemma update_directory_grows fuel : forall u path wc s r wc' s', update_directory P I U fuel u path wc s = Val (r, wc', s') -> grows s s'.
Proof.
  induction fuel as [| fuel IH]; intros u path wc s r wc' s' Hu; cbn [update_directory] in Hu; [done |].
  apply bind_Val_inv in Hu as ([m s1] & E1%p_mount_silent & Hu). pose proof (ask_silent s1) as H2. destruct (p_ask P s1) as [a s2]. cbn [snd] in H2.
  pose proof (silent_grows _ _ (silent_trans _ _ _ E1 H2)) as G. eapply grows_trans; [exact G |]. destruct (u_listing U (tick s1)) as [entries |].
  - apply bind_Val_inv in Hu as ([[r3 wc3] s3] & E3%browse_loop_grows & Hu); [| intros; by eapply IH].
    apply bind_Val_inv in Hu as (s4 & E4%maybe_unmount_silent%silent_grows & Hu). simplify_eq. by eapply grows_trans.
  - apply bind_Val_inv in Hu as (s4 & E4%maybe_unmount_silent%silent_grows & Hu). by simplify_eq.
Qed.
Lemma apply_from_adb_grows wc s r wc' s' : apply_from_adb P I U wc s = Val (r, wc', s') -> grows s s'.
Proof.
  unfold apply_from_adb. pose proof (ask_silent (set_os (u_adbd U (os s)) s)) as Ha. destruct (p_ask P (set_os (u_adbd U (os s)) s)) as [a s1]. cbn [snd] in Ha.
  assert (grows s s1) as G by (exists []; eapply adds_silent; [apply adds_nil, Hadbd | exact Ha]).
  destruct (_ || _); intros Hi; [by simplify_eq |]. eapply grows_trans; [exact G | by eapply p_install_grows].
Qed.

Lemma after_install_grows wipes st wc s r s' : after_install P U wipes st wc s = Val (r, s') -> grows s s'.
Proof.
  unfold after_install. intros Hi. apply bind_Val_inv in Hi as (s1 & E1 & Hi).
  assert (grows s s1) as G1.
  { destruct (_ && _); [| simplify_eq; apply grows_refl]. apply bind_Val_inv in E1 as ([b s1'] & E%erase_volume_grows & E1). by simplify_eq. }
  eapply grows_trans; [exact G1 |]. destruct (0 <=? st); [| simplify_eq; apply grows_refl]. destruct (negb (st =? INSTALL_SUCCESS)).
  - apply bind_Val_inv in Hi as (s2 & E2 & Hi). simplify_eq. destruct wipes; [simplify_eq; apply grows_refl | by apply silent_grows, copy_logs_silent].
  - pose proof (visible_silent s1) as Hv. destruct (is_visible P s1) as [v s2]. simplify_eq. by apply silent_grows.
Qed.

Lemma invoke_grows fuel action stale st s r s' : invoke P I U fuel action stale st s = Val (r, s') -> grows s s'.
Proof.
  destruct action; cbn [invoke]; intros Hi; try (simplify_eq; apply grows_refl).
  - apply bind_Val_inv in Hi as ([[r1 wc1] s1] & E1%update_directory_grows & Hi%after_install_grows). by eapply grows_trans.
  - apply bind_Val_inv in Hi as ([[r1 wc1] s1] & E1%update_directory_grows & Hi%after_install_grows). by eapply grows_trans.
  - apply bind_Val_inv in Hi as ([[r1 wc1] s1] & E1%apply_from_adb_grows & Hi%after_install_grows). by eapply grows_trans.
  - pose proof (visible_silent s) as H1. destruct (is_visible P s) as [v1 s1]. cbn [snd] in H1. apply bind_Val_inv in Hi as (s2 & E2%wipe_data_grows & Hi).
    pose proof (visible_silent s2) as H3. destruct (is_visible P s2) as [v3 s3]. simplify_eq. cbn [snd] in H3.
    eapply grows_trans; [apply silent_grows, H1 |]. eapply grows_trans; [exact E2 | by apply silent_grows].
  - apply bind_Val_inv in Hi as ([r2 s2] & E2%erase_volume_grows & Hi). pose proof (visible_silent s2) as H3. destruct (is_visible P s2) as [v3 s3]. simplify_eq.
    eapply grows_trans; [exact E2 | by apply silent_grows].
Qed.

Lemma prompt_and_wait_log fuel : forall st s s', prompt_and_wait P I U fuel st s = Val s' -> exists r rest, adds (SetBoot zero_message r :: rest) (os s) (os s').
Proof.
  induction fuel as [| fuel IH]; intros st s s' Hp; cbn [prompt_and_wait] in Hp; [done |].
  apply bind_Val_inv in Hp as (s1 & [r E1]%finish_recovery_log & Hp). apply bind_Val_inv in Hp as ([c s2] & E2%menu_silent%silent_grows & Hp).
  pose proof (ask_silent s2) as H3. destruct (p_ask P s2) as [stale s3]. cbn [snd] in H3. apply bind_Val_inv in Hp as ([next s4] & E4%invoke_grows & Hp).
  assert (grows s1 s') as (l & Hl).
  { eapply grows_trans; [exact E2 |]. eapply grows_trans; [apply silent_grows, H3 |]. eapply grows_trans; [exact E4 |].
    destruct next as [st' |]; [| simplify_eq; apply grows_refl]. apply IH in Hp as (r' & rest & Hr). by eapply grows_adds. }
  exists r, l. exact (adds_trans [SetBoot zero_message r] l _ _ _ E1 Hl).
Qed.

(** What the options ask for. *)
Definition work_of (o : options) (work : list effect) : Prop :=
  match update_package o with
  | Some p => exists l, runs (package_path p) l /\ (work = l \/ exists r, work = l ++ [Format (str "/cache") r])
  | None =>
      if opt_wipe_data o then exists a b, work = [Format (str "/data") a; Format (str "/cache") b]
      else if opt_wipe_cache o then exists b, work = [Format (str "/cache") b]
      else work = []
  end.

(** --wipe_data also asks for the cache. *)
Lemma wipe_both argv : opt_wipe_data (parse_options argv) = true -> opt_wipe_cache (parse_options argv) = true.
Proof.
  unfold parse_options. generalize (getopt_long (tail argv)). intros l.
  assert (forall o, (opt_wipe_data o = true -> opt_wipe_cache o = true) -> opt_wipe_data (foldl set_option o l) = true -> opt_wipe_cache (foldl set_option o l) = true) as Hl; [| by apply Hl].
  induction l as [| [arg v] l IH]; intros o Ho; [exact Ho |]. cbn [foldl]. apply IH. destruct o as [si up wd wc je lo sa]. unfold set_option. cbn in Ho.
  repeat (destruct (_ =? _); [by cbn |]). done.
Qed.

Lemma do_work_log argv s st s' : do_work P I U (parse_options argv) s = Val (st, s') -> exists work, work_of (parse_options argv) work /\ adds work (os s) (os s').
Proof.
  unfold do_work, work_of. pose proof (wipe_both argv) as Hboth. destruct (update_package (parse_options argv)) as [p |].
  - intros Hw. apply bind_Val_inv in Hw as ([[st1 wc] s1] & (l & E1 & Hl)%p_install_log & Hw). apply bind_Val_inv in Hw as (s2 & E2 & Hw). simplify_eq.
    destruct (_ && _); [| simplify_eq; eauto 10]. apply bind_Val_inv in E2 as ([r s2'] & E%erase_volume_log & E2). simplify_eq.
    exists (l ++ [Format (str "/cache") r]). split; [eauto 10 | by eapply adds_trans].
  - destruct (opt_wipe_data (parse_options argv)).
    + rewrite Hboth by done. intros Hw. apply bind_Val_inv in Hw as ([a s1] & E1%erase_volume_log & Hw). apply bind_Val_inv in Hw as ([b s2] & E2%erase_volume_log & Hw).
      simplify_eq. exists [Format (str "/data") a; Format (str "/cache") b]. split; [eauto |]. exact (adds_trans [_] [_] _ _ _ E1 E2).
    + destruct (opt_wipe_cache (parse_options argv)).
      * intros Hw. apply bind_Val_inv in Hw as ([b s2] & E2%erase_volume_log & Hw). simplify_eq. eauto 10.
      * intros Hw. simplify_eq. exists []. split; [done | by apply adds_nil].
Qed.

Lemma load_locale_silent s s' : load_locale_from_cache P U s = Val s' -> silent s s'.
Proof.
  unfold load_locale_from_cache. intros Hl. apply bind_Val_inv in Hl as ([fp w1] & Hf%fopen_path_r_log & Hl). destruct fp as [data |]; [| simplify_eq; by apply adds_nil].
  pose proof (read_all_log data w1) as Hr. destruct (read_all P data w1) as [text w2]. cbn [snd] in Hr. destruct (fgets 79 text) as [line rest].
  apply bind_Val_inv in Hl as (b1 & _ & Hl). apply bind_Val_inv in Hl as ([b2 j] & _ & Hl). apply bind_Val_inv in Hl as (b3 & _ & Hl).
  apply bind_Val_inv in Hl as (l & _ & Hl). unfold ask in Hl. destruct (r_ask _ _). simplify_eq. apply adds_nil. cbn [os set_vols log]. congruence.
Qed.

(** C2: the order of the effects that the comment at the head of recovery.cpp asks for.
    Whenever [main] gets to its end, it has first written the arguments it acts on to the
    control block, so that recovery is started again with them; then it has done all the
    work they ask for (the update binary at most once and then perhaps the cache; /data
    and then /cache for --wipe_data; the cache for --wipe_cache); and only after that has
    it cleared the control block, for the first time. *)
Theorem main_order fuel argv w w' : args_ok (tail argv) -> main P I U fuel argv w = Val w' ->
  exists argv' m r0 work r1 rest, log w' = log w ++ SetBoot m r0 :: work ++ SetBoot zero_message r1 :: rest /\
    restarts (tail argv') m /\ args_ok (tail argv') /\ work_of (parse_options argv') work.
Proof.
  intros Ha Hm. unfold main in Hm. apply bind_Val_inv in Hm as ([r w1] & [v ->]%mount_path_frame & Hm).
  match goal with H : context [rotate_last_logs P 10 ?x] |- _ => pose proof (rotate_silent 10 x) as Hrot; set (s1 := rotate_last_logs P 10 x) in * end.
  apply bind_Val_inv in Hm as ([argv' w2] & (Hok & m & r0 & Hres & Hset)%get_args_log & Hm); [| done].
  apply bind_Val_inv in Hm as (s3 & E3 & Hm). apply bind_Val_inv in Hm as ([st s4] & (work & Hwork & E4)%do_work_log & Hm).
  apply bind_Val_inv in Hm as (s5 & E5 & Hm). pose proof (visible_silent s5) as H6. destruct (is_visible P s5) as [vis s6]. cbn [snd] in H6.
  apply bind_Val_inv in Hm as (s7 & E7 & Hm). apply bind_Val_inv in Hm as (s8 & [r8 E8]%finish_recovery_log & Hm). simplify_eq.
  assert (adds [] w2 (os s3)) as Q3.
  { cbn [locale] in E3. destruct (opt_locale (parse_options argv')); [injection E3 as <-; by apply adds_nil | by apply load_locale_silent in E3]. }
  assert (silent s4 s6) as Q6.
  { eapply silent_trans; [| exact H6]. destruct ((st =? INSTALL_ERROR) || (st =? INSTALL_CORRUPT)); [by apply copy_logs_silent | simplify_eq; apply silent_refl]. }
  assert (exists r1 rest, adds (SetBoot zero_message r1 :: rest) (os s6) (os s8)) as (r1 & rest & Q8).
  { destruct (negb (st =? INSTALL_SUCCESS) || vis); [| simplify_eq; exists r8, []; exact E8]. apply prompt_and_wait_log in E7 as (r7 & rest & E7).
    exists r7, (rest ++ [SetBoot zero_message r8]). exact (adds_trans (_ :: _) [_] _ _ _ E7 E8). }
  exists argv', m, r0, work, r1, (rest ++ [Restart (if shutdown_after (parse_options argv') then str "shutdown," else str "reboot,")]). split_and!; try done.
  cbn [log add_log]. unfold silent, adds in *. cbn [os set_vols log load_volume_table] in Hrot. rewrite Q8, Q6, E4, Q3, Hset, Hrot, !app_nil_r. by rewrite <- !app_assoc.
Qed.
End Order.

(** ** A factory reset *)

Definition reset_fstab : list Volume :=
  [mkVol (str "/dev/misc") (str "/misc") (str "emmc") 0; mkVol (str "/dev/mmc2") (str "/data") (str "ext4") 0;
   mkVol (str "/dev/mmc3") (str "/cache") (str "ext4") 0].
Definition reset_platform : platform :=
  mkPlatform (MtdScan.demo_table_env []) demo_roots_env (Some reset_fstab) (fun t v => Some (t ++ [v])) demo_prefix 63.
Definition demo_user : user :=
  mkUser (fun _ => Some [(str "last_log", DT_REG); (str "command", DT_REG)]) (fun _ => []) (fun _ => None) (fun _ _ => false) (fun w => w) 20 40.
Definition reset_rec : rec :=
  mkRec (mkRoots [] g_mounts_state MtdScan.blank_flash 0 []) None
    (<[ str "/data/secret" := mkFile [1] 384 0 0 ]> (<[ COMMAND_FILE := mkFile (str "--wipe_data" ++ [10]) 384 0 0 ]>
      {[ LAST_LOG_FILE := mkFile [5; 6] 416 0 0 ]})) {[ str "/dev/misc" := replicate 1100 0 ]} [].

Lemma main_order_witness : exists w', @main LP64 toy reset_platform (demo_installer 0) demo_user 3 [str "/sbin/recovery"] reset_rec = Val w' /\
  exists argv' m r0 work r1 rest, log w' = log reset_rec ++ SetBoot m r0 :: work ++ SetBoot zero_message r1 :: rest /\
    restarts (tail argv') m /\ args_ok (tail argv') /\ work_of (parse_options argv') work.
Proof.
  assert (exists o, @main LP64 toy reset_platform (demo_installer 0) demo_user 3 [str "/sbin/recovery"] reset_rec = o) as [o Eo] by eauto.
  pose proof Eo as Eo'. vm_compute in Eo'. destruct o as [w' |]; [| discriminate]. exists w'. split; [exact Eo |].
  apply (@main_order LP64 toy reset_platform (demo_installer 0) demo_user (fun _ _ _ => eq_refl) (fun _ => eq_refl) 3 [str "/sbin/recovery"] reset_rec w').
  - split; [constructor | vm_compute; lia].
  - exact Eo.
Defined.

(** ** Where the program goes wrong *)

(** A package whose name starts with a character before the dot sorts before the parent:
    it is item 0, which the code takes for the parent. *)
Example parent_not_first : package_menu [(str "-update.zip", DT_REG); (str "b.ZIP", DT_REG); (str "d", DT_DIR)] =
  [str "-update.zip"; str "../"; str "b.ZIP"; str "d/"].
Proof. vm_compute. reflexivity. Qed.

(** When the cache cannot be opened and a locale is known, recovery writes to a null stream
    before it clears the control block: it is started again and again. *)
Definition failing_platform : platform :=
  mkPlatform (MtdScan.demo_table_env []) (mkRootsEnv (fun _ => -1) (fun _ => [])) (Some reset_fstab) (fun t v => Some (t ++ [v])) demo_prefix 63.
Example locale_null_stream : finish_recovery failing_platform None (mkProg (load_volume_table failing_platform reset_rec) 0 (Some (str "en_US"))) (H := LP64) = Trap NullDeref.
Proof. vm_compute. reflexivity. Qed.

(** A directory that cannot be read counts as a successful installation: with the
    uninitialised [wipe_cache] the cache is formatted. *)
Definition blind_user : user := mkUser (fun _ => None) (fun _ => []) (fun _ => None) (fun _ _ => false) (fun w => w) 20 40.
Example unreadable_directory_wipes :
  match @invoke LP64 toy reset_platform (demo_installer 0) blind_user 3 APPLY_CACHE 1 INSTALL_NONE (mkProg (load_volume_table reset_platform reset_rec) 0 None) with
  | Val (_, s) => log (os s)
  | Trap _ => []
  end = [Format (str "/cache") 0].
Proof. vm_compute. reflexivity. Qed.

(** An empty locale file leaves the bytes of the stack as the locale. *)
Definition stale_user : user := mkUser (fun _ => None) (fun _ => str "junk") (fun _ => None) (fun _ _ => false) (fun w => w) 20 40.
Example empty_locale_file :
  match load_locale_from_cache (H := LP64) reset_platform stale_user
    (mkProg (set_rfiles {[ LOCALE_FILE := mkFile [] 384 0 0 ]} (load_volume_table reset_platform reset_rec)) 0 None) with
  | Val s => locale s
  | Trap _ => None
  end = Some (str "junk").
Proof. vm_compute. reflexivity. Qed.
