(* ===== verification/UpdaterProps.v ===== *)
(** * What the functions of an update script guarantee

    The types of their results, and functional specifications against the components they
    are built from: digests (ApplyPatch.v), the commands that the recovery program reads
    from the pipe (Install.v), property files, metadata, extraction (ZipExtract.v) and
    patching (PatchSafety.v). *)

From stdpp Require Import base numbers list gmap.
From stdpp Require Import strings pretty.
From S2P Require Import Prelude CString CTokens Bits Hash Zip ZipExtract Edify Bspatch ImgPatch Retouch Sys FreeCache DirUtil ApplyPatch Mtd PartitionIO PatchSafety Mounts Boot Install Updater.

(** ** Types *)

(** One step into a run that returned. *)
Ltac run_step Hr :=
  match type of Hr with
  | mbind _ _ = Val _ =>
      let x := fresh "x" in let Hx := fresh "Hx" in apply bind_Val_inv in Hr as (x & Hx & Hr)
  | (if ?b then _ else _) = Val _ => destruct b
  | (match ?x with _ => _ end) = Val _ => destruct x eqn:?
  end.
Ltac run_all Hr := repeat (run_step Hr; cbv beta iota in Hr); try discriminate Hr.

Section Types.
Context `{Arch} `{mtd_api} (U : updater_env).

(** The arguments do not change the text of the script. *)
Definition keeps_script (argv : list (Arg updater)) : Prop :=
  Forall (fun a => forall st v st', a_eval a st = Val (v, st') -> script st' = script st) argv.

Lemma evaluate_script st (a : Arg updater) v st' : (forall st v st', a_eval a st = Val (v, st') -> script st' = script st) ->
  Evaluate st a = Val (v, st') -> script st' = script st.
Proof.
  intros Ha Hr. unfold Evaluate in Hr. apply bind_Val_inv in Hr as ([r st1] & H1 & Hr). apply Ha in H1.
  destruct r as [[s | d |] |]; [| unfold ErrorAbort in Hr | unfold ErrorAbort in Hr |]; injection Hr as <- <-; done.
Qed.

Lemma load_In {A} (l : list A) i x : load l i = Val x -> x ∈ l.
Proof. intros Hl. apply load_Val in Hl as [_ Hl]. by apply list_elem_of_lookup_2 in Hl. Qed.

Lemma read_args_script {A} (ev : State updater -> Arg updater -> outcome (option A * State updater)) n argv :
  (forall st a v st', a ∈ argv -> ev st a = Val (v, st') -> script st' = script st) ->
  forall st i v st', read_args ev n st argv i = Val (v, st') -> script st' = script st.
Proof.
  intros Hev. induction n as [| n IH]; intros st i v st'; cbn [read_args]; [by intros [= <- <-] |].
  intros Hr. apply bind_Val_inv in Hr as (a & Ha & Hr). apply bind_Val_inv in Hr as ([r st1] & H1 & Hr).
  apply Hev in H1; [| by eapply load_In]. destruct r; [| injection Hr as <- <-; done].
  apply bind_Val_inv in Hr as ([vs st2] & H2 & Hr). apply IH in H2. destruct vs; injection Hr as <- <-; congruence.
Qed.

Lemma args_script argv : keeps_script argv -> forall n st v st', read_args Evaluate n st argv 0 = Val (v, st') -> script st' = script st.
Proof.
  intros Hk n st v st' Hr. eapply read_args_script in Hr; [done |]. intros st1 a v1 st2 Ha. apply evaluate_script.
  unfold keeps_script in Hk. rewrite Forall_forall in Hk. by apply Hk.
Qed.
Lemma value_args_script argv : keeps_script argv -> forall n st v st',
  read_args (fun st (a : Arg updater) => a_eval a st) n st argv 0 = Val (v, st') -> script st' = script st.
Proof.
  intros Hk n st v st' Hr. eapply read_args_script in Hr; [done |]. intros st1 a v1 st2 Ha.
  unfold keeps_script in Hk. rewrite Forall_forall in Hk. by apply Hk.
Qed.
Lemma keeps_drop n argv : keeps_script argv -> keeps_script (drop n argv).
Proof. apply Forall_drop. Qed.

Lemma delete_args_script argv : keeps_script argv -> forall n st i v st', delete_args n st argv i = Val (v, st') -> script st' = script st.
Proof.
  intros Hk. unfold keeps_script in Hk. rewrite Forall_forall in Hk.
  induction n as [| n IH]; intros st i v st'; cbn [delete_args]; [by intros [= <- <-] |].
  intros Hr. apply bind_Val_inv in Hr as (a & Ha & Hr). apply bind_Val_inv in Hr as ([r st1] & H1 & Hr).
  apply evaluate_script in H1; [| apply Hk; by eapply load_In]. destruct r; [| destruct (0 <? i); [done | injection Hr as <- <-; done]].
  apply bind_Val_inv in Hr as ([vs st2] & H2 & Hr). apply IH in H2. destruct vs; injection Hr as <- <-; congruence.
Qed.

(** The functions whose result may be a blob. *)
Definition returns_blob (f : install_fn) : bool := match f with F_PackageExtractFile | F_ReadFile => true | _ => false end.

Definition typed (blob : bool) (st : State updater) (r : option Value) (st' : State updater) : Prop :=
  script st' = script st /\ (blob = false -> forall v, r = Some v -> exists s, v = ValString s).

Lemma typed_string blob st s st' : script st' = script st -> typed blob st (Some (ValString s)) st'.
Proof. intros Hs. split; [done |]. intros _ v [= <-]. by exists s. Qed.
Lemma typed_null blob st st' : script st' = script st -> typed blob st None st'.
Proof. intros Hs. by split. Qed.
End Types.

(** The state after the arguments are read has the same script. *)
Ltac script_of Hk :=
  repeat match goal with
  | Hx : ReadArgs _ _ _ = Val (_, _) |- _ => unfold ReadArgs in Hx
  | Hx : ReadValueArgs _ _ _ = Val (_, _) |- _ => unfold ReadValueArgs in Hx
  | Hx : ReadVarArgs _ _ = Val (_, _) |- _ => unfold ReadVarArgs in Hx
  | Hx : ReadValueVarArgs _ _ = Val (_, _) |- _ => unfold ReadValueVarArgs in Hx
  | Hx : read_args Evaluate _ _ (drop _ _) 0 = Val (_, _) |- _ => apply (args_script _ (keeps_drop _ _ Hk)) in Hx
  | Hx : read_args Evaluate _ _ _ 0 = Val (_, _) |- _ => apply (args_script _ Hk) in Hx
  | Hx : read_args _ _ _ (drop _ _) 0 = Val (_, _) |- _ => apply (value_args_script _ (keeps_drop _ _ Hk)) in Hx
  | Hx : read_args _ _ _ _ 0 = Val (_, _) |- _ => apply (value_args_script _ Hk) in Hx
  | Hx : delete_args _ _ _ _ = Val (_, _) |- _ => apply (delete_args_script _ Hk) in Hx
  end.
(** A function ends in a string, a null result or an error. *)
Ltac typed_end Hr Hk :=
  unfold string_result, null_result, ErrorAbort, StringValue in Hr; cbn [fmap option_fmap option_map] in Hr;
  injection Hr as <- <-; script_of Hk;
  first [apply typed_string; cbn [script set_cookie set_errmsg]; congruence
        | apply typed_null; cbn [script set_cookie set_errmsg]; congruence].

Section Typed.
Context `{Arch} `{mtd_api} (U : updater_env).

Lemma matching_digest_string digest args v : matching_digest digest args = Some v -> exists s, v = ValString s.
Proof.
  induction args as [| [s | d |] args IH]; cbn [matching_digest]; [done | | done | done].
  case_bool_decide; [intros [= <-]; by exists s | done].
Qed.

Lemma run_install_fn_typed f name st argv r st' : keeps_script argv ->
  run_install_fn U f name st argv = Val (r, st') -> typed (returns_blob f) st r st'.
Proof.
  intros Hk Hr. assert (forall st a v st', a ∈ argv -> Evaluate st a = Val (v, st') -> script st' = script st) as Hev.
  { intros st1 a v st2 Ha. apply evaluate_script. unfold keeps_script in Hk. rewrite Forall_forall in Hk. by apply Hk. }
  destruct f; cbn [run_install_fn returns_blob] in *;
    [unfold MountFn in Hr | unfold IsMountedFn in Hr | unfold UnmountFn in Hr | unfold FormatFn in Hr | unfold ShowProgressFn in Hr
    | unfold SetProgressFn in Hr | unfold DeleteFn in Hr | unfold PackageExtractDirFn in Hr | unfold PackageExtractFileFn in Hr
    | unfold SymlinkFn in Hr | unfold SetMetadataFn in Hr | unfold GetPropFn in Hr | unfold FileGetPropFn in Hr
    | unfold WriteRawImageFn in Hr | unfold ApplyPatchFn in Hr | unfold ApplyPatchCheckFn in Hr | unfold ApplyPatchSpaceFn in Hr
    | unfold ReadFileFn in Hr | unfold Sha1CheckFn in Hr | unfold RenameFn in Hr | unfold WipeCacheFn in Hr
    | unfold UIPrintFn in Hr | unfold RunProgramFn in Hr].
  all: cbv zeta in Hr; run_all Hr.
  all: repeat match goal with
       | Hx : load ?l 0 = Val ?a, Hy : Evaluate _ ?a = Val _ |- _ => apply load_In in Hx; apply (Hev _ _ _ _ Hx) in Hy
       | Hx : ErrorAbort _ _ = Val (_, ?s), Hy : string_result _ ?s = Val _ |- _ => unfold ErrorAbort in Hx; injection Hx as _ <-
       end.
  all: try typed_end Hr Hk.
  - injection Hr as <- <-. script_of Hk. split; [done | discriminate].
  - injection Hr as <- <-. script_of Hk. split; [done | discriminate].
  - injection Hr as <- <-. script_of Hk. split; [done |]. intros _ w [= <-]. eapply matching_digest_string; eassumption.
Qed.
End Typed.

(** ** Digests *)

Lemma nibble_char d : 0 <= d < 16 -> load alphabet d = Val (hex_char d).
Proof.
  intros Hd. assert (forall k, (k < 16)%nat -> load alphabet (Z.of_nat k) = Val (hex_char (Z.of_nat k))) as Hk.
  { intros k Hk. do 16 (destruct k as [| k]; [reflexivity |]). lia. }
  specialize (Hk (Z.to_nat d) ltac:(lia)). by rewrite Z2Nat.id in Hk by lia.
Qed.

Lemma length_hex (d : block) : length (concat (hex_byte <$> d)) = (2 * length d)%nat.
Proof. induction d as [| x d IH]; [done |]. rewrite fmap_cons. cbn [concat hex_byte app length]. rewrite IH. lia. Qed.

Lemma print_digest_spec n pre rest (done junk : block) :
  length rest = n -> bytes_ok rest -> zlen done = zlen pre * 2 -> zlen junk = 2 * Z.of_nat n + 1 ->
  print_digest n (pre ++ rest) (zlen pre) (done ++ junk) = Val (done ++ concat (hex_byte <$> rest) ++ [0]).
Proof.
  revert pre rest done junk. induction n as [| n IH]; intros pre rest done junk Hn Hb Hd Hj; cbn [print_digest].
  { destruct rest; [| done]. destruct junk as [| x [| ? ?]]; try (cbn in Hj; zlia). rewrite (store_app done [] x 0) by lia. done. }
  destruct rest as [| b rest]; [done |]. apply Forall_cons in Hb as [Hb Hbs]. unfold is_byte in Hb.
  rewrite (load_middle pre b _ _ eq_refl). cbn [mbind outcome_bind].
  rewrite Z.shiftr_div_pow2 by lia. change (2 ^ 4) with 16. change 15 with (Z.ones 4). rewrite !Z.land_ones by lia. change (2 ^ 4) with 16.
  assert (0 <= b / 16 < 16) as Hdiv by (split; [apply Z.div_pos | apply Z.div_lt_upper_bound]; lia).
  rewrite (Z.mod_small (b / 16)) by lia. rewrite (nibble_char (b / 16)) by lia. cbn [mbind outcome_bind].
  destruct junk as [| x [| y junk]]; try (cbn in Hj; zlia). rewrite (store_app done (y :: junk) x) by lia. cbn [mbind outcome_bind].
  rewrite nibble_char by (apply Z.mod_pos_bound; lia). cbn [mbind outcome_bind].
  change (done ++ hex_char (b / 16) :: y :: junk) with (done ++ [hex_char (b / 16)] ++ y :: junk). rewrite app_assoc.
  rewrite (store_app (done ++ [hex_char (b / 16)]) junk y) by (rewrite zlen_app; change (zlen [hex_char (b / 16)]) with 1; lia).
  cbn [mbind outcome_bind]. rewrite fmap_cons. cbn [concat].
  specialize (IH (pre ++ [b]) rest (done ++ hex_byte b) junk). rewrite !zlen_app in IH. change (zlen [b]) with 1 in IH.
  change (zlen (hex_byte b)) with 2 in IH.
  rewrite <- !app_assoc in *. cbn [app hex_byte] in *. apply IH; [by injection Hn | done | lia | cbn in Hj; zlia].
Qed.

Lemma lower_hex (d : block) : bytes_ok d -> lower <$> concat (hex_byte <$> d) = concat (hex_byte <$> d).
Proof.
  induction 1 as [| b d Hb _ IH]; [done |]. unfold is_byte in Hb. rewrite fmap_cons. cbn [concat hex_byte app]. rewrite !fmap_cons, IH.
  assert (forall x, 0 <= x < 16 -> lower (hex_char x) = hex_char x) as Hx.
  { intros x Hx. unfold lower, hex_char. destruct (Z.ltb_spec x 10);
      repeat match goal with |- context [?a <=? ?b] => destruct (Z.leb_spec a b) end; cbn [andb]; lia. }
  rewrite !Hx; [done | apply Z.mod_pos_bound; lia | split; [apply Z.div_pos | apply Z.div_lt_upper_bound]; lia].
Qed.

Section Digests.
Context `{Arch} `{mtd_api} (U : updater_env).
Hypothesis Hmalloc : malloc_gives (ue_malloc U).

Lemma PrintSha1_spec d : length d = SHA_DIGEST_SIZE -> bytes_ok d -> PrintSha1 U d = Val (concat (hex_byte <$> d)).
Proof.
  intros Hl Hb. unfold PrintSha1. destruct (Hmalloc (Z.of_nat SHA_DIGEST_SIZE * 2 + 1)) as (buf & -> & Hbuf); [done |].
  pose proof (print_digest_spec SHA_DIGEST_SIZE [] d [] buf Hl Hb eq_refl) as Hp. cbn [app] in Hp. change (zlen (@nil Z)) with 0 in Hp.
  rewrite Hp by (rewrite Hbuf; done). cbn [mbind outcome_bind]. apply c_str_app.
  apply Forall_concat, Forall_fmap. eapply Forall_impl; [exact Hb |]. intros x Hx. unfold is_byte in Hx. cbn [compose hex_byte].
  assert (forall y, 0 <= y < 16 -> hex_char y <> 0) as Hc by (intros y Hy; unfold hex_char; destruct (y <? 10); lia).
  repeat constructor; apply Hc; [split; [apply Z.div_pos | apply Z.div_lt_upper_bound]; lia | apply Z.mod_pos_bound; lia].
Qed.

(** The first of the strings that spells the digest. *)
Definition first_match (digest : block) (hs : list Value) (v : Value) : Prop :=
  exists before s after, hs = before ++ ValString s :: after /\ v = ValString s /\ ParseSha1 s = Some digest /\
    forall t, ValString t ∈ before -> ParseSha1 t <> Some digest.

Lemma matching_digest_spec digest hs :
  match matching_digest digest hs with
  | Some v => first_match digest hs v
  | None => forall t, ValString t ∈ hs -> ParseSha1 t <> Some digest
  end.
Proof.
  induction hs as [| v hs IH]; cbn [matching_digest]; [by intros t ?%elem_of_nil |].
  assert ((forall t, v = ValString t -> ParseSha1 t <> Some digest) ->
    match matching_digest digest hs with
    | Some v' => first_match digest (v :: hs) v'
    | None => forall t, ValString t ∈ v :: hs -> ParseSha1 t <> Some digest
    end) as Hskip.
  { intros Hv. destruct (matching_digest digest hs) as [v' |].
    - destruct IH as (b & s & a & -> & -> & Hs & Hb). exists (v :: b), s, a. split_and!; [done | done | done |].
      intros t [Ht | Ht]%elem_of_cons; [by apply Hv | by apply Hb].
    - intros t [Ht | Ht]%elem_of_cons; [by apply Hv | by apply IH]. }
  destruct v as [s | d |]; [| by apply Hskip | by apply Hskip]. case_bool_decide as Hs; [| apply Hskip; by intros t [= <-]].
  exists [], s, hs. split_and!; [done | done | done | by intros t ?%elem_of_nil].
Qed.

Lemma Sha1CheckFn_spec name st st1 argv data hs :
  ReadValueVarArgs st argv = Val (Some (data :: hs), st1) -> zlen argv = zlen (data :: hs) -> 0 <= val_size data ->
  length (ue_sha1 U (blob_data data)) = SHA_DIGEST_SIZE -> bytes_ok (ue_sha1 U (blob_data data)) ->
  exists v, Sha1CheckFn U name st argv = Val (Some v, st1) /\
    match hs with
    | [] => exists s, v = ValString s /\ ParseSha1 s = Some (ue_sha1 U (blob_data data))
    | _ => first_match (ue_sha1 U (blob_data data)) hs v \/
           (v = ValString [] /\ forall t, ValString t ∈ hs -> ParseSha1 t <> Some (ue_sha1 U (blob_data data)))
    end.
Proof.
  intros Hread Hlen Hsize Hl Hb. unfold Sha1CheckFn. rewrite Hlen. rewrite zlen_cons. pose proof (zlen_nonneg hs).
  rewrite (proj2 (Z.ltb_ge _ 1)) by lia. rewrite Hread. cbn [mbind outcome_bind].
  change (load (data :: hs) 0) with (load ([] ++ data :: hs) 0). rewrite (load_middle [] data hs 0 eq_refl). cbn [mbind outcome_bind].
  rewrite (proj2 (Z.ltb_ge _ 0)) by done. cbv zeta. set (digest := ue_sha1 U (blob_data data)) in *. destruct hs as [| h hs].
  - cbn [Z.eqb Z.add Pos.eqb]. rewrite PrintSha1_spec by done. cbn [mbind outcome_bind]. eexists. split; [reflexivity |].
    eexists. split; [reflexivity |]. apply parse_digest_spec. split_and!; [done | done | by apply lower_hex].
  - rewrite (proj2 (Z.eqb_neq _ 1)) by zlia. cbn [drop]. pose proof (matching_digest_spec digest (h :: hs)) as Hm.
    destruct (matching_digest digest (h :: hs)) as [v |]; eexists; (split; [reflexivity |]); [by left | by right].
Qed.
End Digests.

(** ** The table of functions *)

Lemma register_all_app l1 l2 r : register_all (l1 ++ l2) r = (let* r := register_all l1 r in register_all l2 r).
Proof. revert r. induction l1 as [| nf l1 IH]; intros r; [done |]. cbn [app register_all]. by destruct (RegisterFunction _ _ r); [apply IH |]. Qed.

Lemma register_empty l : zlen l < 2 ^ 29 -> wp (register_all l empty_registry) (fun r => fn_table r = l).
Proof. intros Hl. eapply wp_mono; [apply register_all_spec; simpl; zlia |]. by intros r ->. Qed.

Section Table.
Context `{Arch} `{mtd_api} (Q : program_env).

Lemma register_three l1 l2 l3 : zlen (l1 ++ l2 ++ l3) < 2 ^ 29 ->
  exists r, (let* r := register_all l1 empty_registry in let* r := register_all l2 r in let* r := register_all l3 r in
             Val (FinishRegistration r)) = Val (FinishRegistration r) /\ fn_table r = l1 ++ l2 ++ l3.
Proof.
  intros Hl. pose proof (register_empty _ Hl) as Hr. rewrite register_all_app in Hr.
  destruct (register_all l1 empty_registry) as [r1 |]; [| destruct Hr]. cbn [mbind outcome_bind] in *.
  rewrite register_all_app in Hr. destruct (register_all l2 r1) as [r2 |]; [| destruct Hr]. cbn [mbind outcome_bind] in *.
  destruct (register_all l3 r2) as [r3 |]; [| destruct Hr]. by exists r3.
Qed.

Lemma find_unique r nf : nf ∈ fn_table r -> (forall f, mkNamed (nf_name nf) f ∈ fn_table r -> f = nf_fn nf) ->
  FindFunction (nf_name nf) (FinishRegistration r) = Val (Some (nf_fn nf)).
Proof.
  intros Hin Huniq. pose proof (find_registered r (nf_name nf)) as Hf.
  destruct (FindFunction (nf_name nf) (FinishRegistration r)) as [[f |] |]; cbn [wp] in Hf; [| | destruct Hf].
  - by rewrite (Huniq f Hf).
  - exfalso. apply (Hf (nf_fn nf)). by destruct nf.
Qed.

Lemma length_builtins : zlen builtins = 9.
Proof. done. Qed.
Lemma length_install : zlen install_functions = 25.
Proof. done. Qed.
Lemma install_names_unique : NoDup (nf_name <$> builtins ++ install_functions).
Proof. apply (bool_decide_unpack _). by vm_compute. Qed.

#[local] Opaque builtins install_functions.

(** A name of edify or of the updater that no extension takes over finds its function. *)
Lemma registered_spec nf : zlen (pe_extensions Q) < 2 ^ 28 -> nf ∈ builtins ++ install_functions ->
  nf_name nf ∉ nf_name <$> pe_extensions Q ->
  exists r, registered Q = Val r /\ FindFunction (nf_name nf) r = Val (Some (nf_fn nf)).
Proof.
  intros Hl Hin Hext. destruct (register_three builtins install_functions (pe_extensions Q)) as (r & Hr & Ht).
  { rewrite !zlen_app. rewrite length_builtins, length_install. lia. }
  exists (FinishRegistration r). split; [unfold registered, RegisterBuiltins, RegisterInstallFunctions; exact Hr |]. rewrite app_assoc in Ht. apply find_unique; rewrite Ht.
  - apply elem_of_app. by left.
  - intros f [Hf | Hf]%elem_of_app.
    + apply list_elem_of_lookup in Hin as [i Hi]. apply list_elem_of_lookup in Hf as [j Hj].
      assert (i = j) as -> by (eapply NoDup_lookup; [exact install_names_unique | rewrite list_lookup_fmap, Hi; done | rewrite list_lookup_fmap, Hj; done]).
      rewrite Hi in Hj. injection Hj as ->. done.
    + exfalso. apply Hext. apply list_elem_of_fmap. exists (mkNamed (nf_name nf) f). split; [reflexivity | exact Hf].
Qed.
#[local] Transparent builtins install_functions.
End Table.

(** The pointers are those of the functions. *)
Lemma call_external_ptr `{Arch} `{mtd_api} (U : updater_env) ext f : call_external U ext (fn_index f) = run_install_fn U f.
Proof. by destruct f. Qed.

(** ** Numbers *)

Definition digit_byte (c : Z) : Prop := is_digit c = true.

Lemma pretty_char_digit x : (x < 10)%N -> Z.of_N (Ascii.N_of_ascii (pretty_N_char x)) = 48 + Z.of_N x.
Proof.
  intros Hx. assert (forall k, (k < 10)%nat -> Z.of_N (Ascii.N_of_ascii (pretty_N_char (N.of_nat k))) = 48 + Z.of_N (N.of_nat k)) as Hk.
  { intros k Hk. do 10 (destruct k as [| k]; [reflexivity |]). lia. }
  specialize (Hk (N.to_nat x) ltac:(lia)). by rewrite N2Nat.id in Hk.
Qed.

Lemma digit_byte_small y : (y < 10)%N -> digit_byte (48 + Z.of_N y).
Proof. intros Hy. unfold digit_byte, is_digit. apply andb_true_iff. split; apply Z.leb_le; lia. Qed.

(** What pretty_N_go puts before [s] is a number of digits that read as [x]. *)
Lemma pretty_digits x : forall s, exists ds, str (pretty_N_go x s) = ds ++ str s /\ Forall digit_byte ds /\ (x <> 0%N -> ds <> []) /\
  forall acc t, acc = 0 -> digits (ds ++ t) acc = digits t (Z.of_N x).
Proof.
  induction (N.lt_wf_0 x) as [x _ IH]. intros s. destruct (decide (0 < x)%N) as [Hx | Hx].
  2: { assert (x = 0%N) as -> by lia. exists []. rewrite pretty_N_go_0. split_and!; [done | constructor | done |]. by intros acc t ->. }
  rewrite pretty_N_go_step by done. set (c := pretty_N_char (x `mod` 10)).
  assert (x `mod` 10 < 10)%N as Hm by (by apply N.mod_lt). pose proof (pretty_char_digit _ Hm) as Hc. fold c in Hc.
  destruct (IH (x `div` 10)%N ltac:(by apply N.div_lt) (String c s)) as (ds & Es & Hds & _ & Hread).
  exists (ds ++ [Z.of_N (Ascii.N_of_ascii c)]).
  assert (digit_byte (Z.of_N (Ascii.N_of_ascii c))) as Hd by (rewrite Hc; by apply digit_byte_small).
  split_and!.
  - rewrite Es. cbn [str]. by rewrite <- app_assoc.
  - apply Forall_app. by repeat constructor.
  - intros _. by destruct ds.
  - intros acc t ->. rewrite <- app_assoc. cbn [app]. rewrite Hread by done. cbn [digits].
    unfold digit_byte in Hd. rewrite Hd. f_equal. rewrite Hc, N2Z.inj_div, N2Z.inj_mod. pose proof (Z.div_mod (Z.of_N x) 10). lia.
Qed.

Lemma starts_digit_app ds t : Forall digit_byte ds -> ds <> [] -> starts_digit (ds ++ t) = true.
Proof. intros Hd Hne. destruct ds as [| c ds]; [done |]. by apply Forall_cons in Hd as [Hc _]. Qed.

(** The digits that print a number, after a sign. *)
Lemma num_digits z : exists ds, num z = (if z <? 0 then [45] else []) ++ ds /\ Forall digit_byte ds /\ ds <> [] /\
  digits ds 0 = (Z.abs z, []).
Proof.
  unfold num. destruct z as [| p | p]; [exists [48]; split_and!; [done | by repeat constructor | done | done] | |];
    destruct (pretty_digits (N.pos p) "") as (ds & Es & Hds & Hne & Hread); exists ds.
  all: specialize (Hread 0 [] eq_refl); rewrite app_nil_r in Hread; cbn [str] in Es; rewrite app_nil_r in Es.
  all: split_and!; [| done | by apply Hne | by rewrite Hread].
  - rewrite <- Es. done.
  - rewrite <- Es. done.
Qed.

Lemma digit_byte_plain c : digit_byte c -> is_space c = false /\ (c =? 45) = false /\ (c =? 43) = false /\ c <> 0.
Proof.
  unfold digit_byte, is_digit, is_space. intros [H1%Z.leb_le H2%Z.leb_le]%andb_true_iff.
  rewrite (proj2 (Z.eqb_neq c 32)), (proj2 (Z.leb_gt c 13)), (proj2 (Z.eqb_neq c 45)), (proj2 (Z.eqb_neq c 43)) by lia.
  rewrite andb_false_r. split_and!; [done | done | done | lia].
Qed.

Lemma strtol_num `{Arch} z : - 2 ^ 31 <= z < 2 ^ 31 -> strtol (num z) = (z, []).
Proof.
  intros Hz. destruct (num_digits z) as (ds & -> & Hds & Hne & Hread). unfold strtol.
  assert (2 ^ 31 <= 2 ^ (word_bits - 1)) by (apply Z.pow_le_mono_r; [lia |]; destruct word_bits_ok; lia).
  pose proof (starts_digit_app ds [] Hds Hne) as Hst. rewrite app_nil_r in Hst.
  destruct (Z.ltb_spec z 0).
  - cbn [app skip_space is_space Z.eqb Pos.eqb Z.leb Z.compare Pos.compare Pos.compare_cont andb orb]. rewrite Hst, Hread. f_equal. lia.
  - cbn [app]. assert (skip_space ds = ds) as ->.
    { destruct ds as [| c ds]; [done |]. apply Forall_cons in Hds as [Hc _]. cbn [skip_space]. by rewrite (proj1 (digit_byte_plain c Hc)). }
    assert (match ds with c :: t' => if c =? 45 then (true, t') else if c =? 43 then (false, t') else (false, ds) | [] => (false, []) end = (false, ds)) as ->.
    { destruct ds as [| c ds]; [done |]. apply Forall_cons in Hds as [Hc _]. destruct (digit_byte_plain c Hc) as (_ & -> & -> & _). done. }
    rewrite Hst, Hread. f_equal. lia.
Qed.

(** ** The pipe to the recovery program *)

Section Pipe.
Context `{Arch}.

Lemma child_commands_mono n : forall m out wc r, child_commands n out wc = Val r -> (n <= m)%nat -> child_commands m out wc = Val r.
Proof.
  induction n as [| n IH]; intros m out wc r Hr Hm.
  { destruct out; [| done]. by destruct m. }
  destruct m as [| m]; [lia |]. destruct out as [| c out]; [done |]. cbn [child_commands] in *.
  destruct (fgets 1023 (c :: out)) as [line rest]. apply bind_Val_inv in Hr as ([cs wc1] & H1 & Hr). rewrite H1. cbn [mbind outcome_bind].
  apply bind_Val_inv in Hr as ([cs2 wc2] & H2 & Hr). rewrite (IH m _ _ _ H2) by lia. done.
Qed.

(** The recovery program takes [text] for these calls, and for this change of the flag that
    asks for a wipe of the cache. *)
Definition understood (text : block) (calls : list ui_call) (wipe : Z -> Z) : Prop :=
  forall fuel rest wc r, child_commands fuel rest (wipe wc) = Val r ->
    child_commands (length text + fuel) (text ++ rest) wc = Val (calls ++ r.1, r.2).

Lemma understood_nil : understood [] [] id.
Proof. intros fuel rest wc [cs wc'] Hr. done. Qed.

Lemma understood_app t1 t2 c1 c2 f1 f2 : understood t1 c1 f1 -> understood t2 c2 f2 -> understood (t1 ++ t2) (c1 ++ c2) (f2 ∘ f1).
Proof.
  intros H1 H2 fuel rest wc r Hr. rewrite length_app, <- !app_assoc, <- Nat.add_assoc.
  apply (H1 _ _ _ (c2 ++ r.1, r.2)). by apply H2.
Qed.

Lemma understood_run text calls wipe wc : understood text calls wipe -> child_commands (length text) text wc = Val (calls, wipe wc).
Proof. intros Ht. specialize (Ht 0%nat [] wc ([], wipe wc) eq_refl). by rewrite !app_nil_r, Nat.add_0_r in Ht. Qed.

Lemma understood_line l calls wipe : Forall (fun c => c <> 10) l -> (length l < 1023)%nat ->
  (forall wc, child_command (l ++ [10]) wc = Val (calls, wipe wc)) -> understood (l ++ [10]) calls wipe.
Proof.
  intros Hl Hn Hc fuel rest wc [cs wc'] Hr. apply (child_commands_mono (S fuel)); [| rewrite length_app; simpl; lia].
  rewrite <- app_assoc. cbn [app]. cbn [child_commands]. destruct (l ++ 10 :: rest) eqn:E; [by destruct l |]. rewrite <- E.
  rewrite fgets_line by done. rewrite Hc. cbn [mbind outcome_bind]. by rewrite Hr.
Qed.

(** A line that a fixed command starts, and what is left of it. *)
Lemma command_token cmd c rest : plain space_nl cmd -> cmd <> [] -> space_nl c = true -> no_nul (cmd ++ c :: rest) ->
  strtok_at space_nl ((cmd ++ c :: rest) ++ [0]) 0 = Val (Some cmd, (cmd ++ [0]) ++ rest ++ [0], zlen (cmd ++ [0])).
Proof. intros Hp Hne Hc Hnn. exact (strtok_at_token space_nl [] cmd c rest [] Hp Hne Hc Hnn). Qed.

Ltac known_command := apply (bool_decide_unpack _); by vm_compute.

Lemma understood_ui_print l : plain newline l -> l <> [] -> no_nul l -> zlen l <= 1013 ->
  understood (str "ui_print " ++ l ++ [10]) [UiPrint l] id.
Proof.
  intros Hp Hne Hnn Hl. rewrite app_assoc. apply understood_line.
  - apply Forall_app. split; [known_command |]. eapply Forall_impl; [exact Hp |]. intros c Hc. by apply Z.eqb_neq.
  - rewrite length_app. change (length (str "ui_print ")) with 9%nat. unfold zlen in Hl. lia.
  - intros wc. unfold child_command. change (str "ui_print ") with (str "ui_print" ++ [32]). rewrite <- !app_assoc. cbn [app].
    pose proof (command_token (str "ui_print") 32 (l ++ [10])) as Ht. repeat (rewrite <- ?app_assoc in Ht; progress cbn [app] in Ht).
    rewrite Ht; [| known_command | done | done |]. 2: { rewrite !Forall_app, Forall_cons, Forall_app. split_and!; [known_command | done | done | by repeat constructor]. }
    cbn [mbind outcome_bind]. rewrite !bool_decide_false, (bool_decide_true (str "ui_print" = _)) by done.
    pose proof (strtok_at_token newline (str "ui_print" ++ [0]) l 10 [] [] Hp Hne) as Ht2. repeat (rewrite <- ?app_assoc in Ht2; progress cbn [app] in Ht2).
    rewrite Ht2; [done | done | apply Forall_app; split; [done | by repeat constructor]].
Qed.

Lemma understood_ui_end : understood (str "ui_print" ++ [10]) [UiPrint [10]] id.
Proof. apply understood_line; [known_command | simpl; lia | by intros wc]. Qed.

Lemma understood_wipe : understood (str "wipe_cache" ++ [10]) [] (fun _ => 1).
Proof. apply understood_line; [known_command | simpl; lia | by intros wc]. Qed.

(** A word that strtok gives back whole. *)
Definition word (f : block) : Prop := plain space_nl f /\ f <> [] /\ no_nul f.

Lemma word_line f : word f -> Forall (fun c => c <> 10) f.
Proof. intros (Hp & _ & _). eapply Forall_impl; [exact Hp |]. unfold space_nl. intros c [_ Hc]%orb_false_iff. by apply Z.eqb_neq. Qed.

Lemma understood_set_progress f : word f -> zlen f <= 1000 -> understood (str "set_progress " ++ f ++ [10]) [SetProgress f] id.
Proof.
  intros Hw Hl. pose proof (word_line f Hw). destruct Hw as (Hp & Hne & Hnn). rewrite app_assoc. apply understood_line.
  - apply Forall_app. split; [known_command | done].
  - rewrite length_app. change (length (str "set_progress ")) with 13%nat. unfold zlen in Hl. lia.
  - intros wc. unfold child_command. change (str "set_progress ") with (str "set_progress" ++ [32]). rewrite <- !app_assoc. cbn [app].
    pose proof (command_token (str "set_progress") 32 (f ++ [10])) as Ht. repeat (rewrite <- ?app_assoc in Ht; progress cbn [app] in Ht).
    rewrite Ht; [| known_command | done | done |]. 2: { rewrite !Forall_app, Forall_cons, Forall_app. split_and!; [known_command | done | done | by repeat constructor]. }
    cbn [mbind outcome_bind]. rewrite (bool_decide_false (str "set_progress" = str "progress")), bool_decide_true by done.
    pose proof (strtok_at_token space_nl (str "set_progress" ++ [0]) f 10 [] [] Hp Hne) as Ht2. repeat (rewrite <- ?app_assoc in Ht2; progress cbn [app] in Ht2).
    rewrite Ht2; [done | done | apply Forall_app; split; [done | by repeat constructor]].
Qed.

Lemma understood_progress f g : word f -> word g -> zlen f + zlen g <= 1000 ->
  understood (str "progress " ++ f ++ str " " ++ g ++ [10]) [ShowProgress f (wraps 32 (strtol g).1)] id.
Proof.
  intros Hf Hg Hl. pose proof (word_line f Hf). pose proof (word_line g Hg). destruct Hf as (Hp & Hne & Hnn), Hg as (Hp' & Hne' & Hnn').
  assert (str "progress " ++ f ++ str " " ++ g ++ [10] = (str "progress " ++ f ++ str " " ++ g) ++ [10]) as -> by (by rewrite <- !app_assoc).
  apply understood_line.
  - rewrite !Forall_app. split_and!; [known_command | done | known_command | done].
  - rewrite !length_app. change (length (str "progress ")) with 9%nat. change (length (str " ")) with 1%nat. unfold zlen in Hl. lia.
  - intros wc. unfold child_command. change (str "progress ") with (str "progress" ++ [32]). change (str " ") with [32]. rewrite <- !app_assoc. cbn [app].
    pose proof (command_token (str "progress") 32 (f ++ 32 :: g ++ [10])) as Ht. repeat (rewrite <- ?app_assoc in Ht; progress cbn [app] in Ht).
    rewrite Ht; [| known_command | done | done |].
    2: { rewrite !Forall_app, Forall_cons, Forall_app, Forall_cons, Forall_app. split_and!; [known_command | done | done | done | done | by repeat constructor]. }
    cbn [mbind outcome_bind]. rewrite bool_decide_true by done.
    pose proof (strtok_at_token space_nl (str "progress" ++ [0]) f 32 (g ++ [10]) [] Hp Hne) as Ht2. repeat (rewrite <- ?app_assoc in Ht2; progress cbn [app] in Ht2).
    rewrite Ht2; [| done | rewrite Forall_app, Forall_cons, Forall_app; split_and!; [done | done | done | by repeat constructor]]. cbn [mbind outcome_bind].
    pose proof (strtok_at_token space_nl (str "progress" ++ [0] ++ f ++ [0]) g 10 [] [] Hp' Hne') as Ht3. repeat (rewrite <- ?app_assoc in Ht3; progress cbn [app] in Ht3).
    rewrite Ht3; [done | done | apply Forall_app; split; [done | by repeat constructor]].
Qed.

(** The numbers that are printed are words. *)
Lemma word_num z : word (num z).
Proof.
  destruct (num_digits z) as (ds & -> & Hds & Hne & _).
  assert (forall c, digit_byte c \/ c = 45 -> space_nl c = false /\ c <> 0) as Hc.
  { intros c [Hd | ->]; [| done]. destruct (digit_byte_plain c Hd) as (Hs & _ & _ & H0). split; [| done]. unfold is_space in Hs.
    apply orb_false_iff in Hs as [H1 H2]. unfold space_nl. rewrite H1. cbn [orb]. apply Z.eqb_neq. intros ->. done. }
  assert (Forall (fun c => digit_byte c \/ c = 45) ((if z <? 0 then [45] else []) ++ ds)) as Hall.
  { apply Forall_app. split; [destruct (z <? 0); [constructor; [by right | constructor] | constructor] |].
    eapply Forall_impl; [exact Hds |]. intros c Hd. by left. }
  split_and!; [eapply Forall_impl; [exact Hall |]; intros c Hd; by apply Hc | by destruct (z <? 0), ds | eapply Forall_impl; [exact Hall |]; intros c Hd; by apply Hc].
Qed.

Lemma pretty_length k : forall x s, (x < 10 ^ N.of_nat k)%N -> (length (str (pretty_N_go x s)) <= k + length (str s))%nat.
Proof.
  induction k as [| k IH]; intros x s Hx.
  { assert (x = 0%N) as -> by (simpl in Hx; lia). by rewrite pretty_N_go_0. }
  destruct (decide (0 < x)%N) as [Hx0 | ?]; [| assert (x = 0%N) as -> by lia; rewrite pretty_N_go_0; lia].
  rewrite pretty_N_go_step by done. rewrite Nat2N.inj_succ, N.pow_succ_r' in Hx.
  specialize (IH (x `div` 10)%N (String (pretty_N_char (x `mod` 10)) s) ltac:(apply N.Div0.div_lt_upper_bound; lia)). cbn [str length] in IH. lia.
Qed.

Lemma num_length z : - 2 ^ 31 <= z < 2 ^ 31 -> zlen (num z) <= 11.
Proof.
  intros Hz. unfold num, zlen. destruct z as [| p | p]; [done | |].
  - pose proof (pretty_length 10 (N.pos p) "" ltac:(lia)) as Hl. cbn [str length] in Hl.
    change (pretty (Z.pos p)) with (pretty_N_go (N.pos p) ""). lia.
  - pose proof (pretty_length 10 (N.pos p) "" ltac:(lia)) as Hl. cbn [str length] in Hl.
    change (str (pretty (Z.neg p))) with (45 :: str (pretty_N_go (N.pos p) "")). cbn [length]. lia.
Qed.
End Pipe.

Section UIPrint.
Context `{Arch} `{mtd_api} (U : updater_env).

Definition ui_line (l : block) : block := str "ui_print " ++ l ++ [10].

Lemma fprintf_app a b (w : updater) : fprintf_pipe (a ++ b) w = fprintf_pipe b (fprintf_pipe a w).
Proof. unfold fprintf_pipe, set_pipe. cbn. by rewrite app_assoc. Qed.

Lemma fprintf_nil (w : updater) : fprintf_pipe [] w = w.
Proof. unfold fprintf_pipe, set_pipe. rewrite app_nil_r. by destruct w. Qed.

(** The lines are written in order; the buffer still holds a string. *)
Lemma print_lines_spec n : forall pre s post (w : updater), no_nul s -> (length (tokens is_newline s) < n)%nat ->
  exists buf, print_lines n (pre ++ s ++ 0 :: post) (zlen pre) w =
    Val (buf, fprintf_pipe (concat (ui_line <$> tokens is_newline s)) w) /\ 0 ∈ buf.
Proof.
  induction n as [| n IH]; intros pre s post w Hs Hn; [lia |]. cbn [print_lines].
  pose proof (strtok_at_spec is_newline pre s post Hs) as Hat. destruct (tokens is_newline s) as [| t ts] eqn:Et.
  - rewrite Hat. cbn [mbind outcome_bind]. eexists. split; [change (concat (ui_line <$> [])) with (@nil Z); by rewrite fprintf_nil |]. apply elem_of_app. right. apply elem_of_app. right. left.
  - destruct Hat as (pre' & s' & -> & <- & Hs' & _). cbn [mbind outcome_bind].
    destruct (IH pre' s' post (fprintf_pipe (str "ui_print " ++ t ++ [10]) w) Hs') as (buf & -> & Hb); [cbn [length] in Hn; lia |].
    exists buf. split; [| done]. rewrite fmap_cons. cbn [concat]. by rewrite (fprintf_app (ui_line t)).
Qed.

Lemma c_str_total buf : 0 ∈ buf -> exists s, c_str buf = Val s.
Proof. intros Hb. destruct (split_nul buf Hb) as (s & post & -> & Hs). exists s. by apply c_str_app. Qed.

Lemma total_length_spec args : forall size, 0 <= size -> size + zlen (concat args) < 2 ^ 31 ->
  total_length args size = Val (size + zlen (concat args)).
Proof.
  induction args as [| a args IH]; intros size Hsz Hl; cbn [total_length concat] in *; [f_equal; rewrite zlen_nil; lia |].
  rewrite zlen_app in *. pose proof (zlen_nonneg a). pose proof (zlen_nonneg (concat args)).
  unfold c_int, in_int. rewrite (proj2 (Z.leb_le _ _)), (proj2 (Z.ltb_lt _ _)) by lia. cbn [andb mbind outcome_bind].
  rewrite IH by lia. f_equal. lia.
Qed.

Lemma tokens_count s : (length (tokens is_newline s) <= length s)%nat.
Proof.
  unfold tokens. assert (forall cur, (length (tokens_from is_newline cur s) <= length s + (if decide (cur = []) then 0 else 1))%nat) as Hc.
  { induction s as [| c s IH]; intros cur; cbn [tokens_from].
    - destruct cur; simpl; lia.
    - destruct (is_newline c).
      + specialize (IH []). rewrite decide_True in IH by done. destruct cur; cbn [emit length]; simpl; lia.
      + specialize (IH (cur ++ [c])). rewrite decide_False in IH by (by destruct cur). cbn [length]. destruct (decide (cur = [])); lia. }
  specialize (Hc []). rewrite decide_True in Hc by done. lia.
Qed.

Lemma UIPrintFn_spec name st st1 argv args : malloc_gives (ue_malloc U) ->
  ReadVarArgs st argv = Val (Some args, st1) -> no_nul (concat args) -> zlen (concat args) + 1 < 2 ^ 31 ->
  exists s, UIPrintFn U name st argv = Val (Some (ValString s), set_cookie (fprintf_pipe
    (concat (ui_line <$> tokens is_newline (concat args)) ++ str "ui_print" ++ [10]) (cookie st1)) st1).
Proof.
  intros Hm Hread Hnn Hl. unfold UIPrintFn. rewrite Hread. cbn [mbind outcome_bind]. pose proof (zlen_nonneg (concat args)).
  rewrite total_length_spec by lia. cbn [mbind outcome_bind]. rewrite Z.add_0_l.
  unfold c_int, in_int. rewrite (proj2 (Z.leb_le _ _)), (proj2 (Z.ltb_lt _ _)) by lia. cbn [andb mbind outcome_bind].
  destruct (Hm (zlen (concat args) + 1)) as (buf & -> & Hbuf); [lia |].
  destruct (concat_copy_spec [] [] buf args) as (j & Hj & Hcp); [rewrite zlen_nil; lia | done |].
  cbn [app] in Hcp. change (zlen (@nil Z)) with 0 in Hcp. rewrite Hcp. cbn [mbind outcome_bind].
  destruct j as [| x [| y j]]; [zlia | | zlia]. rewrite (store_app _ [] x 0) by done. cbn [mbind outcome_bind].
  destruct (print_lines_spec (S (length (concat args ++ [0]))) [] (concat args) [] (cookie st1) Hnn) as (buf' & Hp & Hz).
  { pose proof (tokens_count (concat args)). rewrite length_app. simpl. lia. }
  cbn [app] in Hp. change (zlen (@nil Z)) with 0 in Hp. rewrite Hp. cbn [mbind outcome_bind].
  destruct (c_str_total buf' Hz) as [s ->]. cbn [mbind outcome_bind]. exists s.
  by rewrite (fprintf_app (concat (ui_line <$> tokens is_newline (concat args)))).
Qed.

(** The lines of a text are shown as they are, when none is too long. *)
Lemma understood_lines (ls : list block) :
  Forall (fun l => plain newline l /\ l <> [] /\ no_nul l /\ zlen l <= 1013) ls ->
  understood (concat (ui_line <$> ls)) (UiPrint <$> ls) id.
Proof.
  induction 1 as [| l ls (Hp & Hne & Hnn & Hl) _ IH]; [apply understood_nil |]. rewrite !fmap_cons. cbn [concat].
  change (UiPrint l :: (UiPrint <$> ls)) with ([UiPrint l] ++ (UiPrint <$> ls)). change (@id Z) with (@id Z ∘ @id Z).
  apply understood_app; [by apply understood_ui_print | exact IH].
Qed.

Lemma lines_ok (s : block) : no_nul s -> Forall (fun l => zlen l <= 1013) (tokens newline s) ->
  Forall (fun l => plain newline l /\ l <> [] /\ no_nul l /\ zlen l <= 1013) (tokens newline s).
Proof.
  intros Hs Hl. pose proof (tokens_ok newline s) as Ht. pose proof (tokens_Forall (fun c => c <> 0) newline s Hs) as Hn.
  rewrite Forall_forall in *. intros l Hin. destruct (Ht l Hin) as [Hne Hp]. split_and!; [done | done | by apply Hn | by apply Hl].
Qed.

Lemma understood_text s : no_nul s -> Forall (fun l => zlen l <= 1013) (tokens newline s) ->
  understood (concat (ui_line <$> tokens newline s) ++ str "ui_print" ++ [10]) ((UiPrint <$> tokens newline s) ++ [UiPrint [10]]) id.
Proof.
  intros Hs Hl. change (@id Z) with (@id Z ∘ @id Z). apply understood_app; [| apply understood_ui_end].
  apply understood_lines. by apply lines_ok.
Qed.
End UIPrint.

(** ** Property files *)

Definition starts_plain (s : block) : Prop := match s with c :: _ => is_space c = false | [] => True end.
Definition ends_plain (s : block) : Prop := match last s with Some c => is_space c = false | None => True end.
(** A key and a value that can stand on a line. *)
Definition prop_ok (kv : block * block) : Prop :=
  kv.1 <> [] /\ starts_plain kv.1 /\ ends_plain kv.1 /\ head kv.1 <> Some 35 /\
  Forall (fun c => c <> 10 /\ c <> 61 /\ c <> 0) kv.1 /\
  starts_plain kv.2 /\ ends_plain kv.2 /\ Forall (fun c => c <> 10 /\ c <> 0) kv.2.
Definition prop_text (kv : block * block) : block := kv.1 ++ 61 :: kv.2.
Definition prop_file (kvs : list (block * block)) : block := concat ((fun kv => prop_text kv ++ [10]) <$> kvs).
(** The value of the first line for the key, or nothing. *)
Fixpoint prop_lookup (key : block) (kvs : list (block * block)) : block :=
  match kvs with [] => [] | (k, v) :: kvs => if bool_decide (key = k) then v else prop_lookup key kvs end.

Lemma trim_end_plain s : ends_plain s -> trim_end s = s.
Proof.
  unfold ends_plain, trim_end. intros Hs. destruct s as [| c s _] using rev_ind; [done |]. rewrite last_snoc in Hs. rewrite reverse_snoc.
  assert (trim_rev (c :: reverse s) = c :: reverse s) as -> by (cbn [trim_rev]; destruct (reverse s); [done | by rewrite Hs]).
  by rewrite reverse_cons, reverse_involutive.
Qed.

Lemma skip_space_plain s : starts_plain s -> skip_space s = s.
Proof. destruct s as [| c s]; [done |]. cbn [starts_plain skip_space]. by intros ->. Qed.

Lemma strchr_split c k v : Forall (fun x => x <> c) k -> strchr c (k ++ c :: v) = Some (k, v).
Proof.
  induction 1 as [| x k Hx _ IH]; cbn [app strchr]; [by rewrite Z.eqb_refl |]. rewrite (proj2 (Z.eqb_neq x c)) by done. by rewrite IH.
Qed.

Lemma read_prop_text key kv : prop_ok kv -> read_prop key (prop_text kv) = if bool_decide (key = kv.1) then Found kv.2 else Skip.
Proof.
  destruct kv as [k v]. intros (Hne & Hs & He & Hh & Hk & Hvs & Hve & _). cbn [fst snd] in *. unfold read_prop, prop_text. cbn [fst snd].
  assert (skip_space (k ++ 61 :: v) = k ++ 61 :: v) as -> by (destruct k; [done |]; by apply skip_space_plain).
  destruct (k ++ 61 :: v) as [| c l] eqn:E; [by destruct k |]. assert ((c =? 35) = false) as ->.
  { destruct k as [| x k]; [done |]. injection E as -> _. apply Z.eqb_neq. intros ->. by apply Hh. }
  rewrite <- E, strchr_split by (eapply Forall_impl; [exact Hk |]; by intros x (_ & ? & _)).
  rewrite (trim_end_plain k), (skip_space_plain v), (trim_end_plain v) by done. by case_bool_decide.
Qed.

(** The first line that says something. *)
Fixpoint first_prop (key : block) (lines : list block) : prop_line :=
  match lines with
  | [] => Skip
  | line :: lines => match read_prop key line with Skip => first_prop key lines | r => r end
  end.

Lemma prop_loop_spec key n : forall line pre s post, no_nul s -> (S (length (tokens is_newline s)) <= n)%nat ->
  prop_loop n key (Some line) (pre ++ s ++ 0 :: post) (zlen pre) = Val (first_prop key (line :: tokens is_newline s)).
Proof.
  induction n as [| n IH]; intros line pre s post Hs Hn; [lia |]. cbn [prop_loop first_prop].
  destruct (read_prop key line); [| done | done]. pose proof (strtok_at_spec is_newline pre s post Hs) as Hat.
  destruct (tokens is_newline s) as [| t ts] eqn:Et.
  - rewrite Hat. cbn [mbind outcome_bind]. by destruct n.
  - destruct Hat as (pre' & s' & -> & Ets & Hs' & _). cbn [mbind outcome_bind]. rewrite IH; [by rewrite Ets | done |].
    rewrite Ets. cbn [length] in Hn. lia.
Qed.

Lemma first_prop_file key kvs : Forall prop_ok kvs ->
  match first_prop key (prop_text <$> kvs) with Skip => prop_lookup key kvs = [] | Found v => v = prop_lookup key kvs | Malformed _ => False end.
Proof.
  induction 1 as [| [k v] kvs Hok _ IH]; [done |]. rewrite fmap_cons. cbn [first_prop prop_lookup]. rewrite read_prop_text by done.
  cbn [fst snd]. by case_bool_decide.
Qed.

Lemma prop_text_plain kv : prop_ok kv -> plain is_newline (prop_text kv) /\ prop_text kv <> [] /\ no_nul (prop_text kv).
Proof.
  destruct kv as [k v]. intros (Hne & _ & _ & _ & Hk & _ & _ & Hv). cbn [fst snd] in *. unfold prop_text, plain. cbn [fst snd].
  rewrite !Forall_app, !Forall_cons. split_and!; try done; try (by destruct k).
  - eapply Forall_impl; [exact Hk |]. intros c (Hc & _ & _). by apply Z.eqb_neq.
  - eapply Forall_impl; [exact Hv |]. intros c (Hc & _). by apply Z.eqb_neq.
  - eapply Forall_impl; [exact Hk |]. by intros c (_ & _ & Hc).
  - eapply Forall_impl; [exact Hv |]. by intros c (_ & Hc).
Qed.

Lemma prop_file_lines kvs : Forall prop_ok kvs -> tokens is_newline (prop_file kvs) = prop_text <$> kvs /\ no_nul (prop_file kvs).
Proof.
  induction 1 as [| kv kvs Hok _ [IH1 IH2]]; [done |]. unfold prop_file in *. rewrite !fmap_cons. cbn [concat].
  destruct (prop_text_plain kv Hok) as (Hp & Hne & Hnn). rewrite <- app_assoc. cbn [app]. rewrite tokens_cons, IH1 by done.
  split; [done |]. rewrite Forall_app, Forall_cons. done.
Qed.

Section FileGetProp.
Context `{Arch} `{mtd_api} (U : updater_env).
Hypothesis Hmalloc : malloc_gives (ue_malloc U).
Hypothesis Hcalm : forall t, 0 <= e_answer (ue_sys U) t.

Lemma FileGetPropFn_spec name st st1 argv filename key f kvs :
  ReadArgs st argv 2 = Val (Some [filename; key], st1) -> files (u_sys (cookie st1)) !! filename = Some f ->
  f_data f = prop_file kvs -> Forall prop_ok kvs -> kvs <> [] -> zlen (f_data f) <= MAX_FILE_GETPROP_SIZE ->
  exists s, FileGetPropFn U name st argv = Val (Some (ValString (prop_lookup key kvs)), set_cookie (set_sys s (cookie st1)) st1) /\
    files s = files (u_sys (cookie st1)) /\ disks s = disks (u_sys (cookie st1)).
Proof.
  intros Hread Hf Hdata Hok Hne Hsize. unfold FileGetPropFn. rewrite Hread. cbn [mbind outcome_bind].
  unfold sys_stat, sys_fopen, sys_fread, answer. cbv zeta iota. rewrite !(proj2 (Z.ltb_ge _ 0)) by apply Hcalm. cbn [files tock].
  rewrite Hf. cbv iota. rewrite (proj2 (Z.ltb_ge _ _)) by done. set (size := zlen (f_data f)) in *.
  destruct (Hmalloc (size + 1)) as (buf & -> & Hbuf); [pose proof (zlen_nonneg (f_data f)); unfold size; lia |]. rewrite ?Hf. cbn [fmap option_fmap option_map].
  rewrite take_ge by (unfold size, zlen; lia). fold size. rewrite Z.eqb_refl. cbn [negb].
  destruct (split_at buf size) as (h & tl & -> & Hh); [rewrite Hbuf; pose proof (zlen_nonneg (f_data f)); unfold size; lia |].
  pose proof (store_bytes_app [] h tl (f_data f) 0) as Hst. cbn [app] in Hst. rewrite Hst by (done || (unfold size in Hh; lia)). cbn [mbind outcome_bind].
  rewrite zlen_app in Hbuf. destruct tl as [| x [| ? ?]]; try (cbn in Hbuf; zlia).
  rewrite (store_app (f_data f) [] x 0) by done. cbn [mbind outcome_bind].
  destruct (prop_file_lines kvs Hok) as [Htok Hnn]. rewrite <- Hdata in Htok, Hnn.
  pose proof (strtok_at_spec is_newline [] (f_data f) [] Hnn) as Hat. rewrite Htok in Hat.
  destruct kvs as [| kv kvs]; [done |]. rewrite fmap_cons in Hat. destruct Hat as (pre' & s' & Hat & Hs' & Hnn' & _).
  cbn [app] in Hat. change (zlen (@nil Z)) with 0 in Hat. rewrite Hat. cbn [mbind outcome_bind].
  rewrite prop_loop_spec; [| done |].
  2: { pose proof (tokens_count s'). rewrite !length_app. simpl. lia. }
  cbn [mbind outcome_bind]. rewrite Hs'. change (prop_text kv :: (prop_text <$> kvs)) with (prop_text <$> (kv :: kvs)).
  pose proof (first_prop_file key (kv :: kvs) Hok) as Hfp. eexists. split.
  - destruct (first_prop key (prop_text <$> kv :: kvs)); [| by rewrite Hfp | done]. rewrite Hfp. reflexivity.
  - done.
Qed.
End FileGetProp.

(** ** Metadata *)

Section Perms.
Context `{Arch} `{mtd_api} (U : updater_env).

(** A call and the errno that is no failure. *)
Abbreviation pcall := (call_op * option Z)%type.
Definition given {A} (v : option A) (f : A -> pcall) : list pcall := match v with Some v => [f v] | None => [] end.

(** What the arguments ask for, for a file of this type. *)
Definition perm_calls (filename : path) (st_mode : Z) (parsed : perm_parsed_args) : list pcall :=
  if S_ISLNK st_mode then [] else
  given (pp_uid parsed) (fun uid => (CallChown filename uid no_id, None)) ++
  given (pp_gid parsed) (fun gid => (CallChown filename no_id gid, None)) ++
  given (pp_mode parsed) (fun mode => (CallChmod filename mode, None)) ++
  (if S_ISDIR st_mode then given (pp_dmode parsed) (fun mode => (CallChmod filename mode, None)) else []) ++
  (if S_ISREG st_mode then given (pp_fmode parsed) (fun mode => (CallChmod filename mode, None)) else []) ++
  given (pp_selabel parsed) (fun con => (CallSetfilecon filename con, Some ENOTSUP)) ++
  (if S_ISREG st_mode then
     given (pp_capabilities parsed) (fun caps =>
       if caps =? 0 then (CallRemovexattr filename, Some ENODATA) else (CallSetxattr filename (cap_data caps), None))
   else []).

(** The answers the environment gives from tick [t] on, and how many of the calls fail. *)
Fixpoint answered (t : nat) (calls : list pcall) : list (call_op * Z) :=
  match calls with [] => [] | c :: calls => (c.1, e_answer (ue_sys U) t) :: answered (S t) calls end.
Definition failure (a : Z) (except : option Z) : bool := (a <? 0) && match except with Some e => negb (a =? - e) | None => true end.
Fixpoint failures (t : nat) (calls : list pcall) : Z :=
  match calls with
  | [] => 0
  | c :: calls => (if failure (e_answer (ue_sys U) t) c.2 then 1 else 0) + failures (S t) calls
  end.

Lemma failures_nonneg t calls : 0 <= failures t calls.
Proof. revert t. induction calls as [| c l IH]; intros t; cbn [failures]; [lia |]. specialize (IH (S t)). destruct (failure _ _); lia. Qed.

(** The contents of files stay as they are. *)
Definition same_data (w w' : updater) : Prop :=
  (forall p, f_data <$> files (u_sys w') !! p = f_data <$> files (u_sys w) !! p) /\ disks (u_sys w') = disks (u_sys w) /\ cmd_pipe w' = cmd_pipe w.

(** [m] makes exactly these calls. *)
Definition makes (calls : list pcall) (m : Z * updater -> Z * updater) : Prop := forall bad w,
  let r := m (bad, w) in
  r.1 = bad + failures (u_tick w) calls /\ u_calls r.2 = u_calls w ++ answered (u_tick w) calls /\
  u_tick r.2 = (u_tick w + length calls)%nat /\ same_data w r.2.

Lemma makes_nil m : (forall acc, m acc = acc) -> makes [] m.
Proof. intros Hm bad w. cbv zeta. rewrite Hm. cbn [fst snd failures answered length]. rewrite app_nil_r. split_and!; [lia | done | lia | done]. Qed.

Lemma makes_app c1 c2 m1 m2 : makes c1 m1 -> makes c2 m2 -> makes (c1 ++ c2) (fun acc => m2 (m1 acc)).
Proof.
  intros H1 H2 bad w. cbv zeta. specialize (H1 bad w). cbv zeta in H1. destruct (m1 (bad, w)) as [bad1 w1]. cbn [fst snd] in H1.
  destruct H1 as (B1 & C1 & T1 & D1 & K1 & P1). specialize (H2 bad1 w1). cbv zeta in H2. destruct (m2 (bad1, w1)) as [bad2 w2]. cbn [fst snd] in *.
  destruct H2 as (B2 & C2 & T2 & D2 & K2 & P2). rewrite T1 in *.
  assert (forall t, failures t (c1 ++ c2) = failures t c1 + failures (t + length c1) c2) as Hf.
  { clear. induction c1 as [| c c1 IH]; intros t; cbn [app failures length]; [by rewrite Nat.add_0_r |]. rewrite IH. replace (t + S (length c1))%nat with (S t + length c1)%nat by lia. lia. }
  assert (forall t, answered t (c1 ++ c2) = answered t c1 ++ answered (t + length c1) c2) as Ha.
  { clear. induction c1 as [| c c1 IH]; intros t; cbn [app answered length]; [by rewrite Nat.add_0_r |]. rewrite IH. by replace (t + S (length c1))%nat with (S t + length c1)%nat by lia. }
  rewrite Hf, Ha. split_and!; [lia | by rewrite C2, C1, app_assoc | rewrite T2, length_app; lia |].
  split_and!; [| congruence | congruence]. intros p. by rewrite D2, D1.
Qed.

Lemma makes_given {A} (v : option A) (f : A -> pcall) (g : A -> updater -> bool * updater) :
  (forall a w, let r := g a w in r.1 = failure (e_answer (ue_sys U) (u_tick w)) (f a).2 /\
     u_calls r.2 = u_calls w ++ [((f a).1, e_answer (ue_sys U) (u_tick w))] /\ u_tick r.2 = S (u_tick w) /\ same_data w r.2) ->
  makes (given v f) (when_given v g).
Proof.
  intros Hg. destruct v as [a |]; [| by apply makes_nil; intros []]. intros bad w. cbv zeta. cbn [given when_given]. specialize (Hg a w).
  cbv zeta in Hg. destruct (g a w) as [failed w']. cbn [fst snd] in *. destruct Hg as (-> & C & T & D). cbn [failures answered length].
  split_and!; [destruct (failure _ _); lia | done | lia | done].
Qed.

Lemma u_call_spec c w : let r := u_call U c w in
  r.1 = e_answer (ue_sys U) (u_tick w) /\ u_calls r.2 = u_calls w ++ [(c, r.1)] /\ u_tick r.2 = S (u_tick w) /\
  files (u_sys r.2) = files (u_sys w) /\ disks (u_sys r.2) = disks (u_sys w) /\ cmd_pipe r.2 = cmd_pipe w.
Proof. done. Qed.

Lemma u_change_spec c p f w : (forall i, f_data (f i) = f_data i) ->
  let r := fails (u_change U c p f w) in
  r.1 = failure (e_answer (ue_sys U) (u_tick w)) None /\ u_calls r.2 = u_calls w ++ [(c, e_answer (ue_sys U) (u_tick w))] /\
  u_tick r.2 = S (u_tick w) /\ same_data w r.2.
Proof.
  intros Hf. unfold fails, u_change. pose proof (u_call_spec c w) as Hc. destruct (u_call U c w) as [a w1]. cbv zeta in Hc. cbn [fst snd] in Hc.
  destruct Hc as (-> & C & T & F & D & P). unfold failure. rewrite andb_true_r. set (a := e_answer (ue_sys U) (u_tick w)) in *.
  destruct (Z.ltb_spec a 0); cbn [fst snd].
  - split_and!; [by apply Z.ltb_lt | done | done |]. split_and!; [| done | done]. intros q. by rewrite F.
  - destruct (files (u_sys w1) !! p) as [i |] eqn:Ei.
    + split_and!; [done | done | exact T |]. split_and!; [| exact D | exact P]. intros q. cbn. rewrite <- F.
      destruct (decide (q = p)) as [-> |]; [rewrite lookup_insert_eq, Ei; cbn; by rewrite Hf | by rewrite lookup_insert_ne].
    + split_and!; [done | done | exact T |]. split_and!; [| exact D | exact P]. intros q. by rewrite F.
Qed.

Lemma u_plain_spec c w : let r := fails (u_call U c w) in
  r.1 = failure (e_answer (ue_sys U) (u_tick w)) None /\ u_calls r.2 = u_calls w ++ [(c, e_answer (ue_sys U) (u_tick w))] /\
  u_tick r.2 = S (u_tick w) /\ same_data w r.2.
Proof. unfold failure. rewrite andb_true_r. done. Qed.

Lemma makes_if (b : bool) calls m : makes calls m -> makes (if b then calls else []) (fun acc => if b then m acc else acc).
Proof. intros Hm. destruct b; [exact Hm | by apply makes_nil]. Qed.

Lemma u_except_spec errno c w : let r := fails_except errno (u_call U c w) in
  r.1 = failure (e_answer (ue_sys U) (u_tick w)) (Some errno) /\ u_calls r.2 = u_calls w ++ [(c, e_answer (ue_sys U) (u_tick w))] /\
  u_tick r.2 = S (u_tick w) /\ same_data w r.2.
Proof. done. Qed.

Lemma ApplyParsedPerms_spec filename st_mode parsed w :
  let calls := perm_calls filename st_mode parsed in
  let r := ApplyParsedPerms U filename st_mode parsed w in
  r.1 = failures (u_tick w) calls /\ u_calls r.2 = u_calls w ++ answered (u_tick w) calls /\
  u_tick r.2 = (u_tick w + length calls)%nat /\ same_data w r.2.
Proof.
  unfold perm_calls, ApplyParsedPerms. destruct (S_ISLNK st_mode); [exact (makes_nil (fun acc => acc) ltac:(done) 0 w) |].
  assert (forall v, makes (given v (fun mode => (CallChmod filename mode, None))) (when_given v (fun mode w => fails (u_chmod U filename mode w)))) as Mmod
    by (intros v; apply makes_given; intros mode w1; by apply u_change_spec).
  assert (makes (given (pp_uid parsed) (fun uid => (CallChown filename uid no_id, None)))
    (when_given (pp_uid parsed) (fun uid w => fails (u_chown U filename uid no_id w)))) as Muid
    by (apply makes_given; intros uid w1; by apply u_change_spec).
  assert (makes (given (pp_gid parsed) (fun gid => (CallChown filename no_id gid, None)))
    (when_given (pp_gid parsed) (fun gid w => fails (u_chown U filename no_id gid w)))) as Mgid
    by (apply makes_given; intros gid w1; by apply u_change_spec).
  assert (makes (given (pp_selabel parsed) (fun con => (CallSetfilecon filename con, Some ENOTSUP)))
    (when_given (pp_selabel parsed) (fun con w => fails_except ENOTSUP (u_call U (CallSetfilecon filename con) w)))) as Mcon
    by (apply makes_given; intros con w1; apply u_except_spec).
  assert (makes (given (pp_capabilities parsed) (fun caps =>
       if caps =? 0 then (CallRemovexattr filename, Some ENODATA) else (CallSetxattr filename (cap_data caps), None)))
    (when_given (pp_capabilities parsed) (fun caps w =>
      if caps =? 0 then fails_except ENODATA (u_call U (CallRemovexattr filename) w)
      else fails (u_call U (CallSetxattr filename (cap_data caps)) w)))) as Mcap
    by (apply makes_given; intros caps w1; destruct (caps =? 0); [apply u_except_spec | apply u_plain_spec]).
  exact (makes_app _ _ _ _ Muid (makes_app _ _ _ _ Mgid (makes_app _ _ _ _ (Mmod (pp_mode parsed))
    (makes_app _ _ _ _ (makes_if (S_ISDIR st_mode) _ _ (Mmod (pp_dmode parsed)))
    (makes_app _ _ _ _ (makes_if (S_ISREG st_mode) _ _ (Mmod (pp_fmode parsed)))
    (makes_app _ _ _ _ Mcon (makes_if (S_ISREG st_mode) _ _ Mcap)))))) 0 w).
Qed.

(** What the keys and values of the arguments ask for, later ones winning. *)
Definition wanted (kvs : list (block * block)) : perm_parsed_args :=
  foldl (fun parsed kv => default parsed (parse_key U kv.1 kv.2 parsed)) no_perms kvs.
Definition key_values (kvs : list (block * block)) : list block := concat ((fun kv => [kv.1; kv.2]) <$> kvs).

Lemma parse_perm_spec k v parsed w : exists n, parse_perm U k v parsed w = (default parsed (parse_key U k v parsed), set_warnings n w).
Proof.
  unfold parse_perm. destruct (parse_key U k v parsed); [exists (max_warnings w); by destruct w |].
  destruct (max_warnings w =? 0); cbn [negb]; [exists (max_warnings w); by destruct w | by eexists].
Qed.

Lemma zlen_key_values kvs : zlen (key_values kvs) = 2 * zlen kvs.
Proof. unfold key_values. induction kvs as [| kv kvs IH]; [done |]. rewrite fmap_cons. cbn [concat]. rewrite zlen_app. change (zlen [kv.1; kv.2]) with 2. rewrite IH, zlen_cons. lia. Qed.

Lemma parse_perms_spec kvs : forall n pre parsed w, (length kvs < n)%nat ->
  exists k, parse_perms U n (pre ++ key_values kvs) (zlen pre) parsed w =
    Val (foldl (fun parsed kv => default parsed (parse_key U kv.1 kv.2 parsed)) parsed kvs, set_warnings k w).
Proof.
  induction kvs as [| [k v] kvs IH]; intros n pre parsed w Hn; (destruct n as [| n]; [simpl in Hn; lia |]); cbn [parse_perms].
  { change (key_values []) with (@nil block). rewrite app_nil_r, Z.leb_refl. exists (max_warnings w). by destruct w. }
  assert (key_values ((k, v) :: kvs) = [k; v] ++ key_values kvs) as -> by done.
  rewrite (proj2 (Z.leb_gt _ _)) by (rewrite !zlen_app; change (zlen [k; v]) with 2; pose proof (zlen_nonneg (key_values kvs)); lia).
  cbn [app]. rewrite (load_middle pre k _ _ eq_refl). cbn [mbind outcome_bind].
  assert (pre ++ k :: v :: key_values kvs = (pre ++ [k]) ++ v :: key_values kvs) as E1 by (by rewrite <- app_assoc).
  assert (load (pre ++ k :: v :: key_values kvs) (zlen pre + 1) = Val v) as -> by (rewrite E1; apply load_middle; by rewrite zlen_app).
  cbn [mbind outcome_bind]. destruct (parse_perm_spec k v parsed w) as [m ->].
  destruct (IH n (pre ++ [k; v]) (default parsed (parse_key U k v parsed)) (set_warnings m w)) as [m' Hm]; [simpl in Hn; lia |].
  rewrite zlen_app in Hm. change (zlen [k; v]) with 2 in Hm. rewrite <- app_assoc in Hm. cbn [app] in Hm. rewrite Hm. exists m'. done.
Qed.

(** Every change asked for is tried, in order; the result is empty when none failed and an
    error otherwise. *)
Lemma SetMetadataFn_spec st st1 argv file kvs :
  ReadVarArgs st argv = Val (Some (file :: key_values kvs), st1) -> zlen argv = zlen (file :: key_values kvs) ->
  0 <= e_answer (ue_sys U) (u_tick (cookie st1)) ->
  let calls := perm_calls file (ue_mode U (u_tick (cookie st1))) (wanted kvs) in
  let t := S (u_tick (cookie st1)) in
  exists w, same_data (cookie st1) w /\ u_calls w = u_calls (cookie st1) ++ answered t calls /\
    SetMetadataFn U (str "set_metadata") st argv =
      if failures t calls =? 0 then Val (Some (ValString []), set_cookie w st1)
      else ErrorAbort (set_cookie w st1) (str "set_metadata: some changes failed").
Proof.
  intros Hread Hlen Ha calls t. unfold SetMetadataFn. rewrite Hlen, zlen_cons, zlen_key_values.
  rewrite (bool_decide_false (str "set_metadata" = _)) by done. replace (1 + 2 * zlen kvs) with (1 + zlen kvs * 2) by lia.
  rewrite Z.mod_add by lia. change (negb (1 mod 2 =? 1)) with false. cbv iota. rewrite Hread. cbn [mbind outcome_bind].
  change (load (file :: key_values kvs) 0) with (load ([] ++ file :: key_values kvs) 0). rewrite (load_middle [] file _ 0 eq_refl). cbn [mbind outcome_bind].
  unfold u_answer, answer. cbv zeta iota. rewrite (proj2 (Z.ltb_ge _ 0)) by done. unfold ParsePermArgs.
  set (w0 := set_sys (tock (u_sys (cookie st1))) (cookie st1)).
  destruct (parse_perms_spec kvs (length (file :: key_values kvs)) [file] no_perms w0) as [k Hk].
  { cbn [length]. pose proof (zlen_key_values kvs) as Hz. unfold zlen in Hz. lia. }
  change (zlen [file]) with 1 in Hk. cbn [app] in Hk. rewrite Hk. cbn [mbind outcome_bind]. fold (wanted kvs).
  pose proof (ApplyParsedPerms_spec file (ue_mode U (u_tick (cookie st1))) (wanted kvs) (set_warnings k w0)) as Hs. cbv zeta in Hs.
  fold calls in Hs. destruct (ApplyParsedPerms U file _ (wanted kvs) (set_warnings k w0)) as [bad w]. cbn [fst snd] in Hs.
  destruct Hs as (-> & C & _ & D). exists w. split_and!; [exact D | exact C |].
  change (u_tick (set_warnings k w0)) with t.
  pose proof (failures_nonneg t calls) as Hf.
  destruct (Z.eqb_spec (failures t calls) 0) as [-> | Hne]; [done |]. by rewrite (proj2 (Z.ltb_lt 0 _)) by lia.
Qed.
End Perms.

(** ** Extraction and patches *)

Section Package.
Context `{Arch} `{mtd_api} (U : updater_env).

(** The blob that [package_extract_file] returns is the entry's contents. *)
Lemma extract_to_value_spec zinv decoded w zip_path e :
  read_ok (ue_package U) (ue_read U) -> zlib_ok (ue_zlib U) zinv decoded -> sizes_ok e -> enough (ue_fuel U) e ->
  malloc_gives (ue_malloc U) -> 0 <= uncompLen e < 2 ^ (word_bits - 1) ->
  package_entry U zip_path w = Val (Some e) ->
  wpx (fun t => t = OutOfBounds) (extract_to_value U zip_path w) (fun v =>
    v = ValNoBlob \/ exists s, v = ValBlob s /\ entry_contents (ue_package U) decoded e s /\ zlen s = uncompLen e).
Proof.
  intros Hrd Hzl Hs Hfuel Hm He Hent. unfold extract_to_value. rewrite Hent. cbn [mbind outcome_bind].
  assert (wrapu word_bits (mzGetZipEntryUncompLen e) = uncompLen e) as ->.
  { apply wrapu_id. unfold mzGetZipEntryUncompLen. assert (2 ^ (word_bits - 1) < 2 ^ word_bits); [| lia].
    apply Z.pow_lt_mono_r; destruct word_bits_ok; lia. }
  destruct (Hm (uncompLen e)) as (buf & -> & Hbuf); [lia |].
  pose proof (mzExtractZipEntryToBuffer_correct (ue_package U) (ue_read U) (ue_zlib U) zinv decoded (ue_fuel U) e 0 buf Hrd Hzl Hs Hfuel ltac:(lia) ltac:(lia)) as Hx.
  destruct (mzExtractZipEntryToBuffer _ _ _ _ e 0 buf) as [[b buf'] | t]; [| exact Hx]. cbn [wpx mbind outcome_bind] in *.
  destruct b; [| by left]. destruct (Hx eq_refl) as (s & Hc & Hl & ->). right. exists s.
  assert (filled buf s = s) as ->; [| done]. unfold filled. rewrite drop_ge by (unfold zlen in *; lia). apply app_nil_r.
Qed.

(** Alternating digests and patches. *)
Definition patch_args (shas : list block) (blobs : list Value) : list Value :=
  concat (zip_with (fun s b => [ValString s; b]) shas blobs).

Lemma patch_pairs_spec name shas : forall i blobs, length blobs = length shas -> Forall (fun v => val_type v = 2) blobs ->
  patch_pairs name i (patch_args shas blobs) = inr (shas, blobs).
Proof.
  induction shas as [| s shas IH]; intros i blobs Hl Hb; (destruct blobs as [| b blobs]; [done || discriminate |]); [done |].
  apply Forall_cons in Hb as [Hb Hbs]. unfold patch_args. cbn [zip_with concat app patch_pairs]. rewrite Hb. cbn [Z.eqb Pos.eqb negb].
  fold (patch_args shas blobs). rewrite IH; [done | by injection Hl | done].
Qed.

(** A call of [apply_patch] with good arguments is a run of [applypatch]. *)
Lemma ApplyPatchFn_runs name st st1 st2 argv source target tsha size_str size shas blobs :
  6 <= zlen argv -> zlen argv mod 2 = 0 -> ReadArgs st argv 4 = Val (Some [source; target; tsha; size_str], st1) ->
  byte_count size_str = Some size -> ReadValueVarArgs st1 (drop 4 argv) = Val (Some (patch_args shas blobs), st2) ->
  length blobs = length shas -> Forall (fun v => val_type v = 2) blobs ->
  ApplyPatchFn U name st argv =
    (let* (r, s) := applypatch (ue_sys U) (ue_bzlib U) (ue_fuel U) (ue_rounds U) (ue_malloc U) (ue_inflate U) (ue_sha1 U) (ue_uninit U)
                      source target tsha size shas blobs None (u_sys (cookie st2)) in
     Val (Some (ValString (truth (r =? 0))), set_cookie (set_sys s (cookie st2)) st2)).
Proof.
  intros Hn Hm Hr4 Hsz Hrv Hl Hb. unfold ApplyPatchFn. cbv zeta. rewrite (proj2 (Z.ltb_ge _ 6)) by lia. rewrite Hm. cbn [orb Z.eqb].
  rewrite Hr4. cbn [mbind outcome_bind]. rewrite Hsz, Hrv. cbn [mbind outcome_bind]. rewrite patch_pairs_spec by done.
  unfold on_sys. by destruct (applypatch _ _ _ _ _ _ _ _ _ _ _ _ _ _ _ _) as [[r s] |].
Qed.
End Package.

(** ** The end of a script *)

Section Script.
Context `{Arch} `{mtd_api} (U : updater_env) (Q : program_env).

Lemma run_script_spec root w text result st :
  let w0 := if ue_sehandle U then w else fprintf_pipe (ui_line (str "Warning: No file_contexts")) w in
  Evaluate (mkState w0 text None []) (mkArg (updater_eval U Q root) (e_start root) (e_end root)) = Val (result, st) ->
  (forall msg, errmsg st = Some msg -> no_nul msg) ->
  run_script U Q root w text =
    match result with
    | Some s => Val (0, fprintf_pipe (ui_line (str "script succeeded: result was [" ++ s ++ str "]")) (cookie st))
    | None => Val (7, fprintf_pipe (match errmsg st with
                                    | None => ui_line (str "script aborted (no error message)")
                                    | Some msg => concat (ui_line <$> tokens newline msg) ++ str "ui_print" ++ [10]
                                    end) (cookie st))
    end.
Proof.
  intros w0 He Hmsg. unfold run_script. change (str "ui_print Warning: No file_contexts" ++ [10]) with (ui_line (str "Warning: No file_contexts")).
  fold w0. rewrite He. cbn [mbind outcome_bind]. destruct result as [s |]; [unfold ui_line; by rewrite <- !app_assoc |].
  destruct (errmsg st) as [msg |]; [| done]. specialize (Hmsg msg eq_refl).
  destruct (print_lines_spec (S (S (length msg))) [] msg [] (cookie st) Hmsg) as (buf & Hp & _).
  { pose proof (tokens_count msg). lia. }
  cbn [app] in Hp. change (zlen (@nil Z)) with 0 in Hp. rewrite Hp. cbn [mbind outcome_bind].
  by rewrite (fprintf_app (concat (ui_line <$> tokens newline msg))).
Qed.
End Script.
