(* ===== verification/UpdateScript.v ===== *)
(** * Update scripts, from the text of a call to what the user sees and the disks hold

    The properties of the updater.  Calls with literal arguments are run by the
    interpreter of Edify.v through the updater's table of functions (Updater.v); what they
    write to the pipe is read back by the recovery program (Install.v); what they do to
    files is what ApplyPatch.v and ZipExtract.v promise. *)

From stdpp Require Import base numbers list gmap.
From stdpp Require Import strings pretty.
From S2P Require Import Prelude CString CTokens Bits Hash Zip ZipExtract Edify Bspatch ImgPatch Retouch Sys FreeCache DirUtil ApplyPatch Mtd PartitionIO PatchSafety Mounts Boot Install Updater UpdaterProps.

(** ** Calls with literal arguments *)

(** The positions in the text do not matter. *)
Definition literal (e : Expr) (s : block) : Prop := exists a b, e = mkExpr Literal s [] a b.
Abbreviation literals := (Forall2 literal).
Definition fn_call (f : install_fn) (e : Expr) (name : block) (args : list Expr) : Prop := exists a b, e = mkExpr (ptr f) name args a b.

Lemma read_args_consts {X A} (ev : State X -> Arg X -> outcome (option A * State X)) st argv vs :
  Forall2 (fun a v => ev st a = Val (Some v, st)) argv vs ->
  forall pre post, read_args ev (length argv) st (pre ++ argv ++ post) (zlen pre) = Val (Some vs, st).
Proof.
  induction 1 as [| a v argv vs Ha _ IH]; intros pre post; [done |]. cbn [length read_args app]. rewrite (load_middle pre a _ _ eq_refl).
  cbn [mbind outcome_bind]. rewrite Ha. cbn [mbind outcome_bind]. specialize (IH (pre ++ [a]) post). rewrite zlen_app in IH.
  change (zlen [a]) with 1 in IH. rewrite <- app_assoc in IH. cbn [app] in IH. by rewrite IH.
Qed.

Section Calls.
Context `{Arch} `{mtd_api} (U : updater_env) (Q : program_env).

Definition script_arg (e : Expr) : Arg updater := mkArg (updater_eval U Q e) (e_start e) (e_end e).

Lemma eval_call f e name args st : fn_call f e name args ->
  updater_eval U Q e st = run_install_fn U f name st (script_arg <$> args).
Proof. intros (a & b & ->). unfold ptr. cbn [updater_eval EvaluateValue call]. by rewrite call_external_ptr. Qed.

Lemma eval_literals st es args : literals es args -> Forall2 (fun a v => Evaluate st a = Val (Some v, st)) (script_arg <$> es) args.
Proof. induction 1 as [| e s es args (a & b & ->) _ IH]; [constructor |]. rewrite fmap_cons. by constructor. Qed.

Lemma read_literals st es args : literals es args -> ReadVarArgs st (script_arg <$> es) = Val (Some args, st).
Proof.
  intros He. pose proof (read_args_consts Evaluate st _ _ (eval_literals st es args He) [] []) as Hr. rewrite app_nil_r in Hr. exact Hr.
Qed.

Lemma read_some_literals st es args rest n : literals es args -> n = zlen args ->
  ReadArgs st (script_arg <$> es ++ rest) n = Val (Some args, st).
Proof.
  intros He ->. unfold ReadArgs. rewrite fmap_app. pose proof (read_args_consts Evaluate st _ _ (eval_literals st es args He) [] (script_arg <$> rest)) as Hr.
  rewrite length_fmap, (Forall2_length _ _ _ He) in Hr. unfold zlen. rewrite Nat2Z.id. exact Hr.
Qed.

Lemma read_all_literals st es args n : literals es args -> n = zlen args -> ReadArgs st (script_arg <$> es) n = Val (Some args, st).
Proof. intros He Hn. pose proof (read_some_literals st es args [] n He Hn) as Hr. by rewrite app_nil_r in Hr. Qed.

Lemma literals_length es args : literals es args -> zlen (script_arg <$> es) = zlen args.
Proof. intros He. unfold zlen. by rewrite length_fmap, (Forall2_length _ _ _ He). Qed.
End Calls.

(** ** What the user sees *)

Section Display.
Context `{Arch} `{mtd_api} (U : updater_env) (Q : program_env).

(** A number as [%f] prints it. *)
Definition shown_float (s : block) : Prop := word (ue_float U s) /\ zlen (ue_float U s) <= 900.

(** The calls that talk to the user, with the calls of the user interface they stand for
    and what they do to the flag for the cache. *)
Inductive displays : install_fn -> list block -> list ui_call -> (Z -> Z) -> Prop :=
| d_print args : no_nul (concat args) -> zlen (concat args) + 1 < 2 ^ 31 ->
    Forall (fun l => zlen l <= 1013) (tokens newline (concat args)) ->
    displays F_UIPrint args ((UiPrint <$> tokens newline (concat args)) ++ [UiPrint [10]]) id
| d_show frac sec : shown_float frac ->
    displays F_ShowProgress [frac; sec] [ShowProgress (ue_float U frac) (i32 (strtol sec).1)] id
| d_set frac : shown_float frac -> displays F_SetProgress [frac] [SetProgress (ue_float U frac)] id
| d_wipe : displays F_WipeCache [] [] (fun _ => 1).

Lemma displays_call f e name es args calls wipe st : malloc_gives (ue_malloc U) ->
  fn_call f e name es -> literals es args -> displays f args calls wipe ->
  exists s text, updater_eval U Q e st =
    Val (Some (ValString s), set_cookie (fprintf_pipe text (cookie st)) st) /\ understood text calls wipe.
Proof.
  intros Hm He Hes Hd. rewrite (eval_call U Q _ _ _ _ _ He). destruct Hd as [args Hnn Hl Hlines | frac sec [Hw Hn] | frac [Hw Hn] |]; cbn [run_install_fn].
  - destruct (UIPrintFn_spec U name st st (script_arg U Q <$> es) args Hm (read_literals U Q st es args Hes) Hnn Hl) as [s Hs].
    exists s. eexists. split; [exact Hs |]. by apply understood_text.
  - unfold ShowProgressFn. rewrite (literals_length U Q _ _ Hes), (read_all_literals U Q st es _ 2 Hes eq_refl).
    cbn [mbind outcome_bind]. exists frac. eexists. split; [reflexivity |].
    set (z := i32 (strtol sec).1). assert (- 2 ^ 31 <= z < 2 ^ 31) as Hz by (subst z; exact (wraps_range 32 (strtol sec).1 ltac:(lia))).
    pose proof (understood_progress (ue_float U frac) (num z) Hw (word_num z)) as Hu. rewrite strtol_num in Hu by done. cbn [fst] in Hu.
    assert (wraps 32 z = z) as Ez by (apply wraps_id; [lia | exact Hz]). rewrite Ez in Hu. apply Hu.
    pose proof (num_length z Hz). lia.
  - unfold SetProgressFn. rewrite (literals_length U Q _ _ Hes), (read_all_literals U Q st es _ 1 Hes eq_refl).
    cbn [mbind outcome_bind]. exists frac. eexists. split; [reflexivity |].
    apply understood_set_progress; [done | lia].
  - unfold WipeCacheFn. rewrite (literals_length U Q _ _ Hes). exists (str "t"). eexists. split; [reflexivity | apply understood_wipe].
Qed.

(** Scripts of such calls. *)
Inductive shows : Expr -> list ui_call -> (Z -> Z) -> Prop :=
| shows_call f e name es args calls wipe : fn_call f e name es -> literals es args -> displays f args calls wipe -> shows e calls wipe
| shows_seq e1 e2 c1 c2 f1 f2 a b : shows e1 c1 f1 -> shows e2 c2 f2 -> shows (Build SequenceFn a b [e1; e2]) (c1 ++ c2) (f2 ∘ f1).

Lemma set_cookie_twice v w (st : State updater) : set_cookie v (set_cookie w st) = set_cookie v st.
Proof. done. Qed.

Lemma shows_eval e calls wipe : malloc_gives (ue_malloc U) -> shows e calls wipe -> forall st,
  exists s text, updater_eval U Q e st = Val (Some (ValString s), set_cookie (fprintf_pipe text (cookie st)) st) /\ understood text calls wipe.
Proof.
  intros Hm. induction 1 as [f e name es args calls wipe He Hes Hd | e1 e2 c1 c2 f1 f2 a b _ IH1 _ IH2]; intros st.
  - by apply (displays_call f e name es args).
  - destruct (IH1 st) as (s1 & t1 & E1 & U1). set (st1 := set_cookie (fprintf_pipe t1 (cookie st)) st) in E1.
    destruct (IH2 st1) as (s2 & t2 & E2 & U2). exists s2, (t1 ++ t2). split; [| by apply understood_app].
    unfold Build, updater_eval in *. cbn [EvaluateValue call List.map do_sequence]. unfold do_sequence.
    change (load [_; _] 0) with (Val (mkArg (EvaluateValue (pe_concat Q) (call_external U (pe_extension Q)) e1) (e_start e1) (e_end e1))).
    cbn [mbind outcome_bind a_eval]. rewrite E1. cbn [mbind outcome_bind].
    change (load [_; _] 1) with (Val (mkArg (EvaluateValue (pe_concat Q) (call_external U (pe_extension Q)) e2) (e_start e2) (e_end e2))).
    cbn [mbind outcome_bind a_eval]. rewrite E2. unfold st1. rewrite set_cookie_twice. cbn [cookie set_cookie]. by rewrite (fprintf_app t1).
Qed.

(** The line at the end. *)
Definition success_line (s : block) : block := str "script succeeded: result was [" ++ s ++ str "]".

Lemma script_shown root calls wipe w text : malloc_gives (ue_malloc U) -> ue_sehandle U = true -> shows root calls wipe ->
  exists s out, run_script U Q root w text = Val (0, fprintf_pipe (out ++ ui_line (success_line s)) w) /\ understood out calls wipe /\
    (plain newline s -> no_nul s -> zlen s <= 900 ->
     forall wc, child_commands (length (out ++ ui_line (success_line s))) (out ++ ui_line (success_line s)) wc =
       Val (calls ++ [UiPrint (success_line s)], wipe wc)).
Proof.
  intros Hm Hse Hs. destruct (shows_eval root calls wipe Hm Hs (mkState w text None [])) as (s & out & He & Hu).
  exists s, out. split_and!; [| done |].
  - pose proof (run_script_spec U Q root w text (Some s) (set_cookie (fprintf_pipe out w) (mkState w text None []))) as Hr.
    cbv zeta in Hr. rewrite Hse in Hr. rewrite Hr.
    + cbn [cookie set_cookie]. by rewrite (fprintf_app out).
    + unfold Evaluate. cbn [a_eval]. rewrite He. done.
    + done.
  - intros Hp Hnn Hl wc. apply (understood_run _ _ wipe). change wipe with (@id Z ∘ wipe). apply understood_app; [done |].
    apply understood_ui_print; unfold success_line.
    + unfold plain in *. rewrite !Forall_app. split_and!; [apply (bool_decide_unpack _); by vm_compute | done | apply (bool_decide_unpack _); by vm_compute].
    + done.
    + rewrite !Forall_app. split_and!; [apply (bool_decide_unpack _); by vm_compute | done | apply (bool_decide_unpack _); by vm_compute].
    + rewrite !zlen_app. change (zlen (str "script succeeded: result was [")) with 30. change (zlen (str "]")) with 1. lia.
Qed.
End Display.

(** ** Patches of a package *)

Section Patching.
Context `{Arch} `{mtd_api} (U : updater_env) (Q : program_env).

(** [package_extract_file] of a literal name gives the blob and leaves the state alone. *)
Lemma extract_call e name es zip_path st v : fn_call F_PackageExtractFile e name es -> literals es [zip_path] ->
  extract_to_value U zip_path (cookie st) = Val v -> updater_eval U Q e st = Val (Some v, st).
Proof.
  intros He Hes Hv. rewrite (eval_call U Q _ _ _ _ _ He). cbn [run_install_fn]. unfold PackageExtractFileFn.
  rewrite (literals_length U Q _ _ Hes). cbv zeta. change (zlen [zip_path]) with 1. cbn [Z.eqb Pos.eqb negb andb].
  rewrite (read_all_literals U Q st es _ 1 Hes eq_refl). cbn [mbind outcome_bind]. rewrite Hv. done.
Qed.

Lemma blob_typed zip_path w v : extract_to_value U zip_path w = Val v -> val_type v = 2.
Proof. unfold extract_to_value. intros Hr. run_all Hr; injection Hr as <-; by repeat case_match. Qed.

(** The argument pairs of [apply_patch]: a digest and the name of an entry of the package. *)
Inductive patch_list : list Expr -> list (block * block) -> Prop :=
| pl_nil : patch_list [] []
| pl_cons h p name es sha zip_path rest pairs : literal h sha -> fn_call F_PackageExtractFile p name es -> literals es [zip_path] ->
    patch_list rest pairs -> patch_list (h :: p :: rest) ((sha, zip_path) :: pairs).

Lemma patch_list_length es pairs : patch_list es pairs -> zlen es = 2 * zlen pairs.
Proof. induction 1 as [| h p name es sha zp rest pairs _ _ _ _ IH]; [done |]. zlia. Qed.

Lemma patch_list_values st es pairs blobs : patch_list es pairs ->
  Forall2 (fun p v => extract_to_value U p.2 (cookie st) = Val v) pairs blobs ->
  Forall2 (fun a v => a_eval a st = Val (Some v, st)) (script_arg U Q <$> es) (patch_args pairs.*1 blobs) /\
  length blobs = length pairs.*1 /\ Forall (fun v => val_type v = 2) blobs.
Proof.
  intros Hl. revert blobs. induction Hl as [| h p name es sha zp rest pairs (a & b & ->) Hp Hes _ IH]; intros blobs Hb.
  { apply Forall2_nil_inv_l in Hb as ->. split_and!; [constructor | done | constructor]. }
  apply Forall2_cons_inv_l in Hb as (v & blobs' & Hv & Hbs & ->). destruct (IH _ Hbs) as (H1 & H2 & H3). cbn [snd] in Hv.
  rewrite !fmap_cons. cbn [fst]. unfold patch_args. cbn [zip_with concat app]. split_and!.
  - constructor; [done |]. constructor; [exact (extract_call p name es zp st v Hp Hes Hv) | exact H1].
  - cbn [length]. by rewrite H2.
  - constructor; [by eapply blob_typed | done].
Qed.

(** The call [apply_patch(source, target, sha1, size, sha, package_extract_file(entry), ...)]
    runs [applypatch] with the blobs of the package. *)
Lemma patch_call e name es ps source target tsha size_str size pairs blobs st :
  fn_call F_ApplyPatch e name (es ++ ps) -> literals es [source; target; tsha; size_str] -> byte_count size_str = Some size ->
  patch_list ps pairs -> pairs <> [] -> Forall2 (fun p v => extract_to_value U p.2 (cookie st) = Val v) pairs blobs ->
  updater_eval U Q e st =
    (let* (r, s) := applypatch (ue_sys U) (ue_bzlib U) (ue_fuel U) (ue_rounds U) (ue_malloc U) (ue_inflate U) (ue_sha1 U) (ue_uninit U)
                      source target tsha size pairs.*1 blobs None (u_sys (cookie st)) in
     Val (Some (ValString (truth (r =? 0))), set_cookie (set_sys s (cookie st)) st)).
Proof.
  intros He Hes Hsz Hps Hne Hb. destruct (patch_list_values st ps pairs blobs Hps Hb) as (Hv & Hl & Ht).
  rewrite (eval_call U Q _ _ _ _ _ He). cbn [run_install_fn].
  assert (zlen (script_arg U Q <$> es ++ ps) = 4 + 2 * zlen pairs) as Hn.
  { pose proof (patch_list_length ps pairs Hps) as Hp. unfold zlen in *. rewrite length_fmap, length_app, (Forall2_length _ _ _ Hes). simpl length. lia. }
  assert (1 <= zlen pairs) by (destruct pairs; [done | zlia]).
  apply (ApplyPatchFn_runs U name st st st _ source target tsha size_str size); try done.
  - lia.
  - rewrite Hn. replace (4 + 2 * zlen pairs) with (0 + (2 + zlen pairs) * 2) by lia. by rewrite Z.mod_add by lia.
  - by apply read_some_literals.
  - rewrite fmap_app, drop_app_length' by (by rewrite length_fmap, (Forall2_length _ _ _ Hes)).
    pose proof (read_args_consts (fun st a => a_eval a st) st _ _ Hv [] []) as Hr. rewrite app_nil_r in Hr. exact Hr.
Qed.
End Patching.

(** ** Types of expressions *)

Section Typing.
Context `{Arch} `{mtd_api} (U : updater_env) (Q : program_env).

(** Whether an expression may have a blob as its value; a function of a device extension
    may. *)
Fixpoint may_blob (e : Expr) : bool :=
  match e with
  | mkExpr fn _ argv _ _ =>
      match fn with
      | IfElseFn | LogicalAndFn | LogicalOrFn | SequenceFn => match argv with [] => false | _ :: rest => existsb may_blob rest end
      | External n => match (if 0 <=? n then all_install_fns !! Z.to_nat n else None) with Some f => returns_blob f | None => true end
      | _ => false
      end
  end.

Definition evaluates_typed (b : bool) (a : Arg updater) : Prop := forall st v st', a_eval a st = Val (v, st') -> typed b st v st'.

Lemma typed_more b b' st v st' : (b = true -> b' = true) -> typed b st v st' -> typed b' st v st'.
Proof. intros Hb [Hs Hv]. split; [done |]. intros ->. apply Hv. destruct b; [by discriminate Hb | done]. Qed.
Lemma typed_script b st v st' : typed b st v st' -> script st' = script st.
Proof. by intros []. Qed.
Lemma typed_from b st st1 v st' : script st1 = script st -> typed b st1 v st' -> typed b st v st'.
Proof. intros Hs [H1 H2]. split; [congruence | done]. Qed.

(** Loops over arguments that keep the script. *)
Section Loops.
Variable argv : list (Arg updater).
Hypothesis Hk : keeps_script argv.

Lemma evaluate_arg st i a v st' : load argv i = Val a -> Evaluate st a = Val (v, st') -> script st' = script st.
Proof. intros Ha. apply evaluate_script. unfold keeps_script in Hk. rewrite Forall_forall in Hk. apply Hk. by eapply load_In. Qed.

Lemma arg_script st i a v st' : load argv i = Val a -> a_eval a st = Val (v, st') -> script st' = script st.
Proof. intros Ha. unfold keeps_script in Hk. rewrite Forall_forall in Hk. apply Hk. by eapply load_In. Qed.

Lemma concat_eval_script n : forall st i len v st', concat_eval n st argv i len = Val (v, st') -> script st' = script st.
Proof.
  induction n as [| n IH]; intros st i len v st'; cbn [concat_eval]; [by intros [= <- <-] |]. intros Hr.
  apply bind_Val_inv in Hr as (a & Ha & Hr). apply bind_Val_inv in Hr as ([s st1] & H1 & Hr). apply (evaluate_arg _ _ _ _ _ Ha) in H1.
  destruct s; [| by injection Hr as <- <-]. apply bind_Val_inv in Hr as ([r st2] & H2 & Hr). apply IH in H2.
  destruct r as [[ss len2] |]; injection Hr as <- <-; congruence.
Qed.

Lemma assert_loop_typed n : forall st i v st', assert_loop n st argv i = Val (v, st') -> typed false st v st'.
Proof.
  induction n as [| n IH]; intros st i v st'; cbn [assert_loop]; [intros [= <- <-]; by apply typed_string |]. intros Hr.
  apply bind_Val_inv in Hr as (a & Ha & Hr). apply bind_Val_inv in Hr as ([s st1] & H1 & Hr). apply (evaluate_arg _ _ _ _ _ Ha) in H1.
  destruct s as [s |]; [| injection Hr as <- <-; by apply typed_null]. destruct (BooleanString s).
  - apply IH in Hr. by eapply typed_from.
  - apply bind_Val_inv in Hr as (len & _ & Hr). apply bind_Val_inv in Hr as (src & _ & Hr). injection Hr as <- <-. by apply typed_null.
Qed.

Lemma stdout_loop_typed n : forall st i v st', stdout_loop n st argv i = Val (v, st') -> typed false st v st'.
Proof.
  induction n as [| n IH]; intros st i v st'; cbn [stdout_loop]; [intros [= <- <-]; by apply typed_string |]. intros Hr.
  apply bind_Val_inv in Hr as (a & Ha & Hr). apply bind_Val_inv in Hr as ([s st1] & H1 & Hr). apply (evaluate_arg _ _ _ _ _ Ha) in H1.
  destruct s as [s |]; [| injection Hr as <- <-; by apply typed_null]. apply IH in Hr. by eapply typed_from; [| exact Hr].
Qed.
End Loops.

Lemma args_keep argv : Forall (fun e => evaluates_typed (may_blob e) (script_arg U Q e)) argv ->
  keeps_script (script_arg U Q <$> argv).
Proof. intros Hf. apply Forall_fmap. eapply Forall_impl; [exact Hf |]. intros e He st v st' Hr. by apply He in Hr as [Hs _]. Qed.

(** An argument after the first, passed on. *)
Lemma passed_on argv i a st v st' : Forall (fun e => evaluates_typed (may_blob e) (script_arg U Q e)) argv -> 0 < i ->
  load (script_arg U Q <$> argv) i = Val a -> a_eval a st = Val (v, st') ->
  typed (match argv with [] => false | _ :: rest => existsb may_blob rest end) st v st'.
Proof.
  intros Hf Hi Ha Hr. apply load_Val in Ha as [Hir Ha]. rewrite list_lookup_fmap in Ha.
  destruct (argv !! Z.to_nat i) as [e |] eqn:Ee; [| done]. injection Ha as <-. rewrite Forall_lookup in Hf.
  apply (Hf _ _ Ee) in Hr. eapply typed_more; [| exact Hr]. intros Hb. destruct argv as [| e0 rest]; [done |].
  replace (Z.to_nat i) with (S (Z.to_nat (i - 1))) in Ee by lia. apply existsb_exists. exists e. split; [| done].
  apply list_elem_of_In. by eapply list_elem_of_lookup_2.
Qed.

(** The end of a run of a function of expr.c. *)
Ltac typed_run Hr Hk Hev Hargs :=
  repeat match goal with
  | Hx : load _ _ = Val ?a, Hy : Evaluate _ ?a = Val (_, _) |- _ => apply (Hev _ _ _ _ _ Hx) in Hy
  | Hx : load _ _ = Val ?a, Hy : a_eval ?a _ = Val (_, _) |- _ => lazymatch Hy with Hr => fail | _ => apply (arg_script _ Hk _ _ _ _ _ Hx) in Hy end
  | Hx : concat_eval _ _ _ _ _ = Val (_, _) |- _ => apply (concat_eval_script _ Hk) in Hx
  end;
  script_of Hk;
  first
    [ unfold StringValue in Hr; cbn [fmap option_fmap option_map] in Hr; injection Hr as <- <-;
      first [apply typed_string; cbn [script set_errmsg add_io]; congruence | apply typed_null; cbn [script set_errmsg add_io]; congruence]
    | match goal with Hx : load _ ?i = Val ?a |- _ =>
        match type of Hr with a_eval a _ = Val _ => eapply typed_from; [| refine (passed_on _ i a _ _ _ Hargs _ Hx Hr); lia]; congruence end
      end ].

Lemma two_kept argv i j a b : keeps_script argv -> load argv i = Val a -> load argv j = Val b -> keeps_script [a; b].
Proof. unfold keeps_script. rewrite Forall_forall. intros Hk Ha Hb. repeat constructor; apply Hk; by eapply load_In. Qed.

Lemma updater_eval_typed e : (forall n name st argv r st', pe_extension Q n name st argv = Val (r, st') -> keeps_script argv -> script st' = script st) ->
  evaluates_typed (may_blob e) (script_arg U Q e).
Proof.
  intros Hext. induction e as [fn name argv s n Hargs] using Expr_nested_ind. intros st v st' Hr. cbn [a_eval script_arg] in Hr.
  unfold updater_eval in Hr. cbn [EvaluateValue] in Hr.
  change (List.map (fun a => mkArg (EvaluateValue (pe_concat Q) (call_external U (pe_extension Q)) a) (e_start a) (e_end a)) argv)
    with (script_arg U Q <$> argv) in Hr.
  pose proof (args_keep argv Hargs) as Hk. pose proof (evaluate_arg _ Hk) as Hev.
  destruct fn; cbn [call may_blob] in *;
    [unfold do_concat in Hr | unfold do_ifelse in Hr | unfold do_abort in Hr | exact (assert_loop_typed _ Hk _ _ _ _ _ Hr)
    | unfold do_sleep in Hr | exact (stdout_loop_typed _ Hk _ _ _ _ _ Hr) | unfold do_and in Hr | unfold do_or in Hr | unfold do_not in Hr
    | unfold do_substring, do_binary in Hr | unfold do_equality, do_binary in Hr | unfold do_inequality, do_binary in Hr
    | unfold do_sequence in Hr | unfold do_less_than_int in Hr | unfold do_greater_than_int, do_less_than_int in Hr | unfold do_literal in Hr |].
  14: { injection Hr as <- <-. by apply typed_string. }
  13: { destruct (negb _); [injection Hr as <- <-; by apply typed_null |]. apply bind_Val_inv in Hr as (b & Hb & Hr).
        apply bind_Val_inv in Hr as (a & Ha & Hr). pose proof (two_kept _ _ _ _ _ Hk Hb Ha) as Hk2. run_all Hr; typed_run Hr Hk2 Hev Hargs. }
  13: { unfold call_external in Hr. destruct (if 0 <=? n0 then _ else _) as [f |].
        - by apply (run_install_fn_typed U f name _ _ _ _ Hk).
        - split; [by apply (Hext _ _ _ _ _ _ Hr) | done]. }
  3: { apply bind_Val_inv in Hr as ([msg st1] & Hm & Hr). run_all Hm; [| injection Hm as <- <-]; run_all Hr; typed_run Hr Hk Hev Hargs. }
  all: cbv zeta in Hr; run_all Hr; typed_run Hr Hk Hev Hargs.
Qed.
End Typing.

(** ** Properties *)

(** C6: a script cannot make an [apply_patch] of a regular file lose data: whatever fails
    while [apply_patch(source, target, sha1, size, sha, package_extract_file(entry), ...)]
    runs, every state of the disks holds a source that one of the package's patches fits
    (in place or saved in the cache) or the finished target, and the value [t] is only
    given for a target with the wanted digest; and when no call fails, there is room and
    the package's patches are good, the call has the value [t]. *)
Theorem script_patch_safe `{Arch} `{mtd_api} (U : updater_env) (Q : program_env) e name es ps source target tsha target_sha1 size_str size
    pairs blobs st :
  fn_call F_ApplyPatch e name (es ++ ps) -> literals es [source; target; tsha; size_str] -> byte_count size_str = Some size ->
  patch_list ps pairs -> pairs <> [] -> Forall2 (fun p v => extract_to_value U p.2 (cookie st) = Val v) pairs blobs ->
  ParseSha1 tsha = Some target_sha1 -> patch_setup source target blobs (u_sys (cookie st)) ->
  (forall v st', updater_eval U Q e st = Val (v, st') ->
     evolves (recoverable (ue_sha1 U) source (target_of source target) pairs.*1 target_sha1) (u_sys (cookie st)) (u_sys (cookie st')) /\
     (v = Some (ValString (str "t")) /\ holds (target_of source target) (installed (ue_sha1 U) target_sha1) (now (u_sys (cookie st'))) \/
      v = Some (ValString []))) /\
  (calm_env (ue_sys U) size -> 0 <= size * 3 < 2 ^ 32 -> held (ue_sha1 U) source pairs.*1 (now (u_sys (cookie st))) ->
   patches_good (ue_bzlib U) (ue_fuel U) (ue_rounds U) (ue_malloc U) (ue_sha1 U) source target target_sha1 pairs.*1 blobs (u_sys (cookie st)) ->
   exists st', updater_eval U Q e st = Val (Some (ValString (str "t")), st')).
Proof.
  intros He Hes Hsz Hps Hne Hb Hsha Hset. pose proof (patch_call U Q e name es ps source target tsha size_str size pairs blobs st He Hes Hsz Hps Hne Hb) as Hc.
  rewrite Hc. split.
  - intros v st' Hr. apply bind_Val_inv in Hr as ([r s] & Hrun & Hr). injection Hr as <- <-. cbn [cookie set_cookie u_sys set_sys].
    apply (applypatch_spec (ue_sys U)) with (target_sha1 := target_sha1) in Hrun as [Hev Hok]; [| done | done]. split; [done |].
    destruct (Z.eqb_spec r 0) as [-> |]; [left; split; [done | by apply Hok] | by right].
  - intros [Hans Hroom] Hs Hheld Hgood. destruct (applypatch_calm (ue_sys U) (ue_bzlib U) (ue_fuel U) (ue_rounds U) (ue_malloc U)
      (ue_inflate U) (ue_sha1 U) (ue_uninit U) source target target_sha1 pairs.*1 blobs Hans size Hroom tsha None (u_sys (cookie st)))
      as [s ->]; [apply Hset | apply Hset | done | done | done | done | by eexists].
Qed.

(** C7: what a script tells the user arrives: a script of calls of [ui_print],
    [show_progress], [set_progress] and [wipe_cache] with literal arguments succeeds, and
    the recovery program, which reads the pipe, makes exactly the calls of the user
    interface the script asks for, in order, shows the result and learns whether to wipe
    the cache. *)
Theorem script_display_refines `{Arch} `{mtd_api} (U : updater_env) (Q : program_env) root calls wipe w text :
  malloc_gives (ue_malloc U) -> ue_sehandle U = true -> shows U root calls wipe ->
  exists s out, run_script U Q root w text = Val (0, fprintf_pipe (out ++ ui_line (success_line s)) w) /\ understood out calls wipe /\
    (plain newline s -> no_nul s -> zlen s <= 900 ->
     forall wc, child_commands (length (out ++ ui_line (success_line s))) (out ++ ui_line (success_line s)) wc =
       Val (calls ++ [UiPrint (success_line s)], wipe wc)).
Proof. apply script_shown. Qed.

(** C32: a script that stops with a message exits with 7, and the recovery program shows
    the lines of the message. *)
Theorem script_abort_reported `{Arch} `{mtd_api} (U : updater_env) (Q : program_env) root w text msg st :
  ue_sehandle U = true -> updater_eval U Q root (mkState w text None []) = Val (None, st) -> errmsg st = Some msg -> no_nul msg ->
  Forall (fun l => zlen l <= 1013) (tokens newline msg) ->
  exists out, run_script U Q root w text = Val (7, fprintf_pipe out (cookie st)) /\
    forall wc, child_commands (length out) out wc = Val ((UiPrint <$> tokens newline msg) ++ [UiPrint [10]], wc).
Proof.
  intros Hse He Hmsg Hnn Hl. pose proof (run_script_spec U Q root w text None st) as Hr. cbv zeta in Hr. rewrite Hse in Hr. rewrite Hr, Hmsg.
  - eexists. split; [reflexivity |]. intros wc. apply (understood_run _ _ id). by apply understood_text.
  - unfold Evaluate. cbn [a_eval]. by rewrite He.
  - intros m Hm. rewrite Hmsg in Hm. by injection Hm as <-.
Qed.

(** C16: type soundness of scripts: an expression that is evaluated to the end leaves the
    text of the script as it is, and its value is a string unless [may_blob] says that it
    can be a blob. *)
Theorem script_types `{Arch} `{mtd_api} (U : updater_env) (Q : program_env) e st v st' :
  (forall n name st argv r st', pe_extension Q n name st argv = Val (r, st') -> keeps_script argv -> script st' = script st) ->
  updater_eval U Q e st = Val (v, st') ->
  script st' = script st /\ (may_blob e = false -> v = None \/ exists s, v = Some (ValString s)).
Proof.
  intros Hext Hr. destruct (updater_eval_typed U Q e Hext st v st' Hr) as [Hs Hv]. split; [done |].
  intros Hb. destruct v as [v |]; [right | by left]. destruct (Hv Hb v eq_refl) as [s ->]. by exists s.
Qed.

(** Every function of edify and of the updater is found under its name by the parser,
    unless an extension of the device takes the name, and a call of one of the updater's
    runs the function of install.c. *)
Theorem updater_functions_found `{Arch} `{mtd_api} (U : updater_env) (Q : program_env) nf :
  zlen (pe_extensions Q) < 2 ^ 28 -> nf ∈ builtins ++ install_functions -> nf_name nf ∉ nf_name <$> pe_extensions Q ->
  exists r, registered Q = Val r /\ FindFunction (nf_name nf) r = Val (Some (nf_fn nf)) /\
    forall f, nf_fn nf = ptr f -> forall argv a b st,
      updater_eval U Q (mkExpr (nf_fn nf) (nf_name nf) argv a b) st = run_install_fn U f (nf_name nf) st (script_arg U Q <$> argv).
Proof.
  intros Hl Hin Hn. destruct (registered_spec Q nf Hl Hin Hn) as (r & Hr & Hf). exists r. split_and!; [exact Hr | exact Hf |].
  intros f Hp argv a b st. rewrite Hp. apply eval_call. by exists a, b.
Qed.



(** ** Concrete scripts *)

(** A package with one patch and a script, and a device without flash. *)
Definition patch_name : block := str "p".
Definition script_text : block := str "ui_print(one);wipe_cache()".
Definition demo_package : block :=
  let l1 := demo_local patch_name Bspatch.demo_file in
  let l2 := demo_local SCRIPT_NAME script_text in
  l1 ++ l2 ++ demo_central patch_name (zlen Bspatch.demo_file) 0 ++ demo_central SCRIPT_NAME (zlen script_text) (zlen l1) ++
  demo_end 2 (zlen (l1 ++ l2)).
Definition demo_opened : ZipArchive :=
  match @parseZipArchive LP64 demo_safe_add_uintptr demo_safe_add_long true (fun _ => true) (fun _ => true) demo_package
          (mkMap 65536 (zlen demo_package) 65536 (zlen demo_package)) demo_archive with
  | Val (_, a, _) => a
  | Trap _ => demo_archive
  end.

(** [E]: the system's answers; [mode]: what lstat says. *)
Definition demo_updater (E : env) (mode : Z) : updater_env :=
  mkUpdaterEnv E (fun _ => []) (fun _ => str "error") (fun _ => None) (fun _ => mode) (fun _ => None) (fun _ => None) 0 true true 18 32
    (fun s => s ++ str "00000") (fun _ => []) ZipExtract.demo_malloc demo_realloc (fun _ => true) demo_package
    (fun pos count => Z.min count (Z.max 0 (zlen demo_package - pos))) ZipExtract.demo_zlib (fun _ => []) 100 stored 5 plain_zlib
    length_digest (mkContents [] None 0 0 0 0).

Definition lit (s : block) : Expr := mkExpr Literal s [] 0 0.
Definition fcall (f : install_fn) (name : string) (args : list Expr) : Expr := mkExpr (ptr f) (str name) args 0 0.

(** The script of the package, as the parser gives it. *)
Definition demo_script : Expr :=
  Build SequenceFn 0 26 [fcall F_UIPrint "ui_print" [lit (str "one")]; fcall F_WipeCache "wipe_cache" []].
Definition demo_program : @program_env no_mtd :=
  @mkProgramEnv no_mtd demo_safe_add_uintptr demo_safe_add_long true (fun _ => true)
    (Zip.mkSys 3 0 0 (zlen demo_package) (fun _ _ => Some 65536) true) (fun _ => true)
    [] (fun _ _ st _ => Val (None, st)) (fun n => replicate (Z.to_nat n) 0)
    (fun _ text => if bool_decide (text = script_text) then (0, 0, demo_script) else (1, 1, demo_script)).

Definition demo_state (s : @sys no_mtd) : State (@updater no_mtd) :=
  mkState (@mkUpdater no_mtd [] demo_opened 3 s [] g_mounts_state [] 20) [] None [].

(** The whole program on the package: the archive is opened, the script found, extracted,
    parsed and run. *)
Example updater_runs :
  (let* (status, w) := @main LP64 no_mtd (demo_updater calm 0) demo_program [str "updater"; str "3"; str "7"; str "package.zip"] demo_sys [] g_mounts_state in
   Val (status, cmd_pipe <$> w)) =
  Val (0, Some (ui_line (str "one") ++ str "ui_print" ++ [10] ++ str "wipe_cache" ++ [10] ++ ui_line (success_line (str "t")))).
Proof. vm_compute. reflexivity. Qed.

Lemma lit_ok s : literal (lit s) s.
Proof. by exists 0, 0. Defined.
Lemma fcall_ok f name args : fn_call f (fcall f name args) (str name) args.
Proof. by exists 0, 0. Defined.

Lemma script_display_refines_witness : exists s out w,
  @run_script LP64 no_mtd (demo_updater calm 0) demo_program demo_script w [] = Val (0, fprintf_pipe (out ++ ui_line (success_line s)) w) /\
  @understood LP64 out [UiPrint (str "one"); UiPrint [10]] (fun _ => 1).
Proof.
  destruct (@script_display_refines LP64 no_mtd (demo_updater calm 0) demo_program demo_script [UiPrint (str "one"); UiPrint [10]] (fun _ => 1)
    (cookie (demo_state demo_sys)) []) as (s & out & Hr & Hu & _).
  - exact demo_malloc_gives.
  - reflexivity.
  - apply (shows_seq _ (fcall F_UIPrint "ui_print" [lit (str "one")]) (fcall F_WipeCache "wipe_cache" [])
      [UiPrint (str "one"); UiPrint [10]] [] id (fun _ => 1)).
    + apply (shows_call _ F_UIPrint _ (str "ui_print") [lit (str "one")] [str "one"]); [apply fcall_ok | repeat constructor; apply lit_ok |].
      apply (d_print (demo_updater calm 0) [str "one"]); [apply (bool_decide_unpack _); by vm_compute | by vm_compute | apply (bool_decide_unpack _); by vm_compute].
    + apply (shows_call _ F_WipeCache _ (str "wipe_cache") [] []); [apply fcall_ok | constructor | constructor].
  - exists s, out, (cookie (demo_state demo_sys)). split; [exact Hr | exact Hu].
Defined.

(** The patch of PatchSafety.v, from the package. *)
Definition patch_script : Expr :=
  fcall F_ApplyPatch "apply_patch" ([lit demo_source; lit (str "-"); lit (demo_sha 12); lit (str "12")] ++
    [lit (demo_sha 10); fcall F_PackageExtractFile "package_extract_file" [lit patch_name]]).

Lemma script_patch_safe_witness : exists v st',
  @updater_eval LP64 no_mtd (demo_updater (low_space 15) 0) demo_program patch_script (demo_state demo_sys) = Val (v, st') /\
  evolves (recoverable length_digest demo_source demo_source [demo_sha 10] (12 :: replicate 19 0)) demo_sys (u_sys (cookie st')) /\ v = Some (ValString []).
Proof.
  assert ((let* (v, _) := @updater_eval LP64 no_mtd (demo_updater (low_space 15) 0) demo_program patch_script (demo_state demo_sys) in Val v) =
    Val (Some (ValString []))) as Hv by (vm_compute; reflexivity).
  destruct (@updater_eval LP64 no_mtd (demo_updater (low_space 15) 0) demo_program patch_script (demo_state demo_sys)) as [[v st'] |] eqn:Hr; [| discriminate].
  exists v, st'. split; [reflexivity |].
  destruct (@script_patch_safe LP64 no_mtd (demo_updater (low_space 15) 0) demo_program patch_script (str "apply_patch")
    [lit demo_source; lit (str "-"); lit (demo_sha 12); lit (str "12")]
    [lit (demo_sha 10); fcall F_PackageExtractFile "package_extract_file" [lit patch_name]]
    demo_source (str "-") (demo_sha 12) (12 :: replicate 19 0) (str "12") 12 [(demo_sha 10, patch_name)] [ValBlob Bspatch.demo_file]
    (demo_state demo_sys)) as [Hsafe _].
  - apply fcall_ok.
  - repeat constructor; apply lit_ok.
  - vm_compute. reflexivity.
  - apply (pl_cons _ _ (str "package_extract_file") [lit patch_name]); [apply lit_ok | apply fcall_ok | repeat constructor; apply lit_ok | constructor].
  - discriminate.
  - constructor; [vm_compute; reflexivity | constructor].
  - vm_compute. reflexivity.
  - exact demo_setup.
  - destruct (Hsafe v st' Hr) as [He _]. split; [exact He |]. injection Hv as ->. reflexivity.
Defined.

(** A script that stops. *)
Definition abort_script : Expr := mkExpr AbortFn (str "abort") [lit (str "no" ++ [10] ++ str "way")] 0 0.

Lemma script_abort_reported_witness : exists out w,
  @run_script LP64 no_mtd (demo_updater calm 0) demo_program abort_script (cookie (demo_state demo_sys)) [] = Val (7, fprintf_pipe out w) /\
  forall wc, @child_commands LP64 (length out) out wc = Val ([UiPrint (str "no"); UiPrint (str "way"); UiPrint [10]], wc).
Proof.
  destruct (@script_abort_reported LP64 no_mtd (demo_updater calm 0) demo_program abort_script (cookie (demo_state demo_sys)) []
    (str "no" ++ [10] ++ str "way") (mkState (cookie (demo_state demo_sys)) [] (Some (str "no" ++ [10] ++ str "way")) [])) as (out & Hr & Hc).
  - reflexivity.
  - vm_compute. reflexivity.
  - reflexivity.
  - apply (bool_decide_unpack _). by vm_compute.
  - apply (bool_decide_unpack _). by vm_compute.
  - exists out, (cookie (demo_state demo_sys)). split; [exact Hr | exact Hc].
Defined.

Lemma script_types_witness : exists v st',
  @updater_eval LP64 no_mtd (demo_updater calm 0) demo_program demo_script (demo_state demo_sys) = Val (v, st') /\
  script st' = [] /\ (v = None \/ exists s, v = Some (ValString s)).
Proof.
  assert ((let* _ := @updater_eval LP64 no_mtd (demo_updater calm 0) demo_program demo_script (demo_state demo_sys) in Val tt) = Val tt) as Hok by (vm_compute; reflexivity).
  destruct (@updater_eval LP64 no_mtd (demo_updater calm 0) demo_program demo_script (demo_state demo_sys)) as [[v st'] |] eqn:Hr; [| discriminate].
  exists v, st'. split; [reflexivity |].
  destruct (@script_types LP64 no_mtd (demo_updater calm 0) demo_program demo_script (demo_state demo_sys) v st') as [Hs Hv].
  - intros n name st argv r st1 Hx _. injection Hx as <- <-. reflexivity.
  - exact Hr.
  - split; [exact Hs | apply Hv; reflexivity].
Defined.

Lemma updater_functions_found_witness : exists r,
  @registered no_mtd demo_program = Val r /\ FindFunction (str "set_metadata") r = Val (Some (ptr F_SetMetadata)).
Proof.
  destruct (@updater_functions_found LP64 no_mtd (demo_updater calm 0) demo_program (mkNamed (str "set_metadata") (ptr F_SetMetadata)))
    as (r & Hr & Hf & _).
  - reflexivity.
  - apply (list_elem_of_lookup_2 _ 20). vm_compute. reflexivity.
  - apply (bool_decide_unpack _). vm_compute. exact I.
  - exists r. split; [exact Hr | exact Hf].
Defined.

(** A property file with three lines. *)
Definition demo_props : list (block * block) := [(str "a", str "1"); (str "ro.build", str "x y"); (str "a", str "2")].
Definition props_sys : @sys no_mtd := @mkSys no_mtd {[ str "/b.prop" := mkFile (prop_file demo_props) 420 0 0 ]} ∅ tt false 0 [].



(** ** Where the functions do less than they mean to *)

Abbreviation demo_eval E := (@updater_eval LP64 no_mtd (demo_updater E 0) demo_program).
(** The value and the message a script ends with. *)
Definition outcome_of (r : outcome (option Value * State (@updater no_mtd))) : outcome (option Value * option block) :=
  let* (v, st) := r in Val (v, errmsg st).

(** [set_metadata] of a file that is not there fails but has an empty string as its value,
    and the script goes on: the result of [ErrorAbort] is NULL, which also stands for
    "no error so far". *)
Example set_metadata_missing_file_succeeds :
  outcome_of (demo_eval (low_space 0) (fcall F_SetMetadata "set_metadata" [lit (str "/a"); lit (str "mode"); lit (str "0644")]) (demo_state demo_sys)) =
  Val (Some (ValString []), Some (str "set_metadata: Error on lstat of " ++ [34] ++ str "/a" ++ [34] ++ str ": error")).
Proof. vm_compute. reflexivity. Qed.

(** A walk that cannot be made has the result -1, which is not more than 0. *)
Example recursive_walk_failure_ignored :
  outcome_of (demo_eval calm (fcall F_SetMetadata "set_metadata_recursive" [lit (str "/a"); lit (str "fmode"); lit (str "0644")]) (demo_state demo_sys)) =
  Val (Some (ValString []), None).
Proof. vm_compute. reflexivity. Qed.

(** An argument of [delete] after the first that fails: the loop that frees the others
    counts the wrong variable. *)
Example delete_frees_wildly :
  demo_eval calm (fcall F_Delete "delete" [lit (str "/a"); mkExpr AbortFn (str "abort") [] 0 0]) (demo_state demo_sys) = Trap WildPointer.
Proof. vm_compute. reflexivity. Qed.

(** [file_getprop] of a file without a line. *)
Example file_getprop_empty_file :
  demo_eval calm (fcall F_FileGetProp "file_getprop" [lit (str "/e"); lit (str "k")])
    (demo_state (@mkSys no_mtd {[ str "/e" := mkFile [10] 420 0 0 ]} ∅ tt false 0 [])) = Trap NullDeref.
Proof. vm_compute. reflexivity. Qed.

(** [apply_patch] with a patch whose evaluation fails. *)
Example apply_patch_failed_argument :
  demo_eval calm (fcall F_ApplyPatch "apply_patch" [lit demo_source; lit (str "-"); lit (demo_sha 12); lit (str "12"); lit (demo_sha 10);
    mkExpr AbortFn (str "abort") [] 0 0]) (demo_state demo_sys) = Trap NullDeref.
Proof. vm_compute. reflexivity. Qed.

(** [format] of something it does not know stops the script without a message. *)
Example format_unknown_silent :
  outcome_of (demo_eval calm (fcall F_Format "format" [lit (str "vfat"); lit (str "EMMC"); lit (str "/dev/x"); lit (str "0"); lit (str "/m")])
    (demo_state demo_sys)) = Val (None, None).
Proof. vm_compute. reflexivity. Qed.

(** The value of [ui_print] keeps the line ends before the first line, and the message
    about the success of the script then loses its end. *)
Example success_line_cut :
  (let* (_, w) := @run_script LP64 no_mtd (demo_updater calm 0) demo_program (fcall F_UIPrint "ui_print" [lit ([10] ++ str "hi")])
                    (cookie (demo_state demo_sys)) [] in
   @child_commands LP64 (length (cmd_pipe w)) (cmd_pipe w) 0) =
  Val ([UiPrint (str "hi"); UiPrint [10]; UiPrint (str "script succeeded: result was [")], 0).
Proof. vm_compute. reflexivity. Qed.

(** When a directory above the parent cannot be made, [make_parents] leaves the name cut,
    and the link takes the place of the parent. *)
Example symlink_in_wrong_place :
  (let* (_, st) := demo_eval (low_space 1) (fcall F_Symlink "symlink" [lit (str "busybox"); lit (str "/a/b/c")]) (demo_state demo_sys) in
   Val (u_calls (cookie st))) =
  Val [(CallUnlink (str "/a/b/c"), 1000); (CallMkdir (str "/a") 448, -1); (CallSymlink (str "busybox") (str "/a/b"), 1000)].
Proof. vm_compute. reflexivity. Qed.
