(* ===== verification/Input.v ===== *)
(** * Keys (ui.cpp)

    Three kinds of threads share a [RecoveryUI]: the input thread, which turns events into
    registered keys, a timer for every press, and the main thread, which takes keys from
    the queue.  The mutex makes what happens between lock and unlock one move; a run is any
    sequence of moves of the threads. *)

From stdpp Require Import base numbers list gmap.
From S2P Require Import Prelude.

(** ** Data *)

Inductive KeyAction := ENQUEUE | TOGGLE | REBOOT | IGNORE | MOUNT_SYSTEM.

Definition KEY_MAX : Z := 767.
Definition KEY_UP : Z := 103.
Definition KEY_DOWN : Z := 108.
Definition KEY_VOLUMEDOWN : Z := 114.
Definition KEY_VOLUMEUP : Z := 115.
Definition KEY_POWER : Z := 116.
Definition EV_SYN : Z := 0.
Definition EV_KEY : Z := 1.
Definition EV_REL : Z := 2.
Definition REL_Y : Z := 1.

(** What [CheckKey] counts; only the input thread uses it. *)
Record counters := mkCounters { consecutive_power_keys : Z; consecutive_alternate_keys : Z; last_key : Z }.

Record RecoveryUI := mkUI {
  key_queue : list Z;
  key_queue_len : Z;
  key_pressed : list Z;
  key_last_down : Z;
  key_long_press : bool;
  key_down_count : Z;
  rel_sum : Z;
  counts : counters
}.

(** The constructor; the arrays and [rel_sum] are not initialised. *)
Definition new_RecoveryUI (queue pressed : list Z) (rel : Z) : RecoveryUI :=
  mkUI queue 0 pressed (-1) false 0 rel (mkCounters 0 0 (-1)).

Definition set_queue (q : list Z) (n : Z) (u : RecoveryUI) : RecoveryUI :=
  mkUI q n (key_pressed u) (key_last_down u) (key_long_press u) (key_down_count u) (rel_sum u) (counts u).
Definition set_rel (r : Z) (u : RecoveryUI) : RecoveryUI :=
  mkUI (key_queue u) (key_queue_len u) (key_pressed u) (key_last_down u) (key_long_press u) (key_down_count u) r (counts u).
Definition set_held (pressed : list Z) (down : Z) (long : bool) (count : Z) (u : RecoveryUI) : RecoveryUI :=
  mkUI (key_queue u) (key_queue_len u) pressed down long count (rel_sum u) (counts u).
Definition set_counts (c : counters) (u : RecoveryUI) : RecoveryUI :=
  mkUI (key_queue u) (key_queue_len u) (key_pressed u) (key_last_down u) (key_long_press u) (key_down_count u) (rel_sum u) c.

(** ** Operations *)

(** The calls of [process_key] that an event leads to. *)
Definition input_callback (type code value : Z) (u : RecoveryUI) : outcome (list (Z * Z) * RecoveryUI) :=
  if type =? EV_SYN then Val ([], u) else
  let* (calls, u) :=
    if type =? EV_REL then
      if code =? REL_Y then
        let* sum := c_int 32 (rel_sum u + value) in
        if 3 <? sum then Val ([(KEY_DOWN, 1); (KEY_DOWN, 0)], set_rel 0 u)
        else if sum <? -3 then Val ([(KEY_UP, 1); (KEY_UP, 0)], set_rel 0 u)
        else Val ([], set_rel sum u)
      else Val ([], u)
    else Val ([], set_rel 0 u) in
  Val (if (type =? EV_KEY) && (code <=? KEY_MAX) then calls ++ [(code, value)] else calls, u).

(** The part of [process_key] under the mutex: the key that is registered, with whether the
    press was long, and the timer that is started. *)
Definition process_key (key_code updown : Z) (u : RecoveryUI) : outcome (option (Z * bool) * option (Z * Z) * RecoveryUI) :=
  let* pressed := store (key_pressed u) key_code (wraps 8 updown) in
  if negb (updown =? 0) then
    let* count := c_int 32 (key_down_count u + 1) in
    Val (None, Some (key_code, count), set_held pressed key_code false count u)
  else
    let registered := if key_last_down u =? key_code then Some (key_code, key_long_press u) else None in
    Val (registered, None, set_held pressed (-1) (key_long_press u) (key_down_count u) u).

(** After the sleep: whether the press is long. *)
Definition time_key (key_code count : Z) (u : RecoveryUI) : bool * RecoveryUI :=
  if (key_last_down u =? key_code) && (key_down_count u =? count) then
    (true, set_held (key_pressed u) (key_last_down u) true (key_down_count u) u)
  else (false, u).

Definition queue_max : Z := 256.
Definition EnqueueKey (key_code : Z) (u : RecoveryUI) : outcome RecoveryUI :=
  if key_queue_len u <? queue_max then
    let* q := store (key_queue u) (key_queue_len u) key_code in
    Val (set_queue q (key_queue_len u + 1) u)
  else Val u.

(** What the thread in [WaitKey] does when it holds the mutex: it goes on waiting, or it
    returns the first key, or -1 after a timeout without a cable. *)
Definition WaitKey (timed_out usb_connected : bool) (u : RecoveryUI) : outcome (option (Z * RecoveryUI)) :=
  if key_queue_len u =? 0 then
    Val (if timed_out && negb usb_connected then Some (-1, u) else None)
  else
    let* key := load (key_queue u) 0 in
    let n := key_queue_len u - 1 in
    let* rest := load_bytes (key_queue u) 1 n in
    let* q := store_bytes (key_queue u) 0 rest in
    Val (Some (key, set_queue q n u)).

Definition IsKeyPressed (key : Z) (u : RecoveryUI) : outcome bool :=
  let* p := load (key_pressed u) key in Val (negb (p =? 0)).

Definition FlushKeys (u : RecoveryUI) : RecoveryUI := set_queue (key_queue u) 0 u.

(** The decision of [CheckKey], given whether the power key is held. *)
Definition alternates (key : Z) (c : counters) : bool :=
  ((key =? KEY_VOLUMEUP) && ((last_key c =? KEY_VOLUMEDOWN) || (last_key c =? -1))) ||
  ((key =? KEY_VOLUMEDOWN) && ((last_key c =? KEY_VOLUMEUP) || (last_key c =? -1))).
Definition check_key (power_held : bool) (key : Z) (c : counters) : outcome (KeyAction * counters) :=
  if power_held && (key =? KEY_VOLUMEUP) then Val (TOGGLE, c) else
  let* power := if key =? KEY_POWER then c_int 32 (consecutive_power_keys c + 1) else Val 0 in
  let c := mkCounters power (consecutive_alternate_keys c) (last_key c) in
  if (key =? KEY_POWER) && (7 <=? power) then Val (REBOOT, c) else
  if alternates key c then
    let* n := c_int 32 (consecutive_alternate_keys c + 1) in
    if 7 <=? n then Val (MOUNT_SYSTEM, mkCounters power 0 (last_key c))
    else Val (ENQUEUE, mkCounters power n key)
  else Val (ENQUEUE, mkCounters power 0 key).
Definition CheckKey (key : Z) (u : RecoveryUI) : outcome (KeyAction * RecoveryUI) :=
  let* held := IsKeyPressed KEY_POWER u in
  let* (action, c) := check_key held key (counts u) in
  Val (action, set_counts c u).

(** ** Threads *)

(** Where the input thread is: it has a registered key to check, or one to enqueue. *)
Inductive stage := Ready | Checking (key : Z) (long : bool) | Enqueuing (key : Z).

(** What can be seen: the calls of the virtual functions, the actions, and what [WaitKey]
    returns. *)
Inductive seen :=
| SeenLongPress (key : Z)
| SeenNextIsLong (long : bool)
| SeenAction (action : KeyAction) (key : Z)
| SeenKey (key : Z).

(** [calls]: of [process_key], still to be made for the current event; [timers]: the
    presses whose timers sleep. *)
Record world := mkWorld { w_ui : RecoveryUI; calls : list (Z * Z); at_stage : stage; timers : list (Z * Z); trace : list seen }.

Inductive move :=
| InputEvent (type code value : Z)   (** the input thread reads an event *)
| InputKey                           (** it makes the next call of [process_key] *)
| InputCheck                         (** it calls [CheckKey] and does what that says *)
| InputEnqueue
| TimerFires (i : nat)
| MainWaits (timed_out usb_connected : bool)
| MainFlushes.

(** A move, when the thread is there. *)
Definition do_move (m : move) (w : world) : outcome (option world) :=
  match m with
  | InputEvent type code value =>
      match at_stage w, calls w with
      | Ready, [] => let* (cs, u) := input_callback type code value (w_ui w) in Val (Some (mkWorld u cs Ready (timers w) (trace w)))
      | _, _ => Val None
      end
  | InputKey =>
      match at_stage w, calls w with
      | Ready, (key, updown) :: cs =>
          let* (registered, timer, u) := process_key key updown (w_ui w) in
          Val (Some (mkWorld u cs (match registered with Some (k, long) => Checking k long | None => Ready end)
                       (match timer with Some t => timers w ++ [t] | None => timers w end) (trace w)))
      | _, _ => Val None
      end
  | InputCheck =>
      match at_stage w with
      | Checking key long =>
          let* (action, u) := CheckKey key (w_ui w) in
          Val (Some (mkWorld u (calls w) (match action with ENQUEUE => Enqueuing key | _ => Ready end) (timers w)
                       (trace w ++ [SeenNextIsLong long; SeenAction action key])))
      | _ => Val None
      end
  | InputEnqueue =>
      match at_stage w with
      | Enqueuing key => let* u := EnqueueKey key (w_ui w) in Val (Some (mkWorld u (calls w) Ready (timers w) (trace w)))
      | _ => Val None
      end
  | TimerFires i =>
      match timers w !! i with
      | Some (key, count) =>
          let '(long, u) := time_key key count (w_ui w) in
          Val (Some (mkWorld u (calls w) (at_stage w) (delete i (timers w)) (if long : bool then trace w ++ [SeenLongPress key] else trace w)))
      | None => Val None
      end
  | MainWaits timed_out usb =>
      let* r := WaitKey timed_out usb (w_ui w) in
      Val (match r with
           | Some (key, u) => Some (mkWorld u (calls w) (at_stage w) (timers w) (trace w ++ [SeenKey key]))
           | None => None
           end)
  | MainFlushes => Val (Some (mkWorld (FlushKeys (w_ui w)) (calls w) (at_stage w) (timers w) (trace w)))
  end.

(** A run; a move of a thread that is not there changes nothing. *)
Fixpoint run (ms : list move) (w : world) : outcome world :=
  match ms with
  | [] => Val w
  | m :: ms => let* w' := do_move m w in run ms (default w w')
  end.

Definition start (queue pressed : list Z) (rel : Z) : world := mkWorld (new_RecoveryUI queue pressed rel) [] Ready [] [].

(** ** What it should do *)

(** The same machine over what the fields stand for: the keys that are down, the press that
    the last event was (with its number, and whether it became long), and a queue. *)
Record spec := mkSpec {
  sp_down : gset Z;
  sp_presses : Z;
  sp_held : option (Z * Z * bool);
  sp_fifo : list Z;
  sp_rel : Z;
  sp_counts : counters;
  sp_calls : list (Z * Z);
  sp_stage : stage;
  sp_timers : list Z;
  sp_trace : list seen
}.

(** [CheckKey]: power and volume up toggles the display; seven times power reboots; seven
    alternating volume keys mount /system. *)
Definition action_for (power_held : bool) (key : Z) (c : counters) : KeyAction * counters :=
  if power_held && (key =? KEY_VOLUMEUP) then (TOGGLE, c) else
  let power := if key =? KEY_POWER then consecutive_power_keys c + 1 else 0 in
  if (key =? KEY_POWER) && (7 <=? power) then (REBOOT, mkCounters power (consecutive_alternate_keys c) (last_key c)) else
  let n := if alternates key c then consecutive_alternate_keys c + 1 else 0 in
  if 7 <=? n then (MOUNT_SYSTEM, mkCounters power 0 (last_key c)) else (ENQUEUE, mkCounters power n key).

Definition spec_event (type code value : Z) (a : spec) : spec :=
  let moved := sp_rel a + value in
  let '(calls, rel) :=
    if type =? EV_SYN then ([], sp_rel a)
    else if type =? EV_REL then
      if code =? REL_Y then
        if 3 <? moved then ([(KEY_DOWN, 1); (KEY_DOWN, 0)], 0)
        else if moved <? -3 then ([(KEY_UP, 1); (KEY_UP, 0)], 0) else ([], moved)
      else ([], sp_rel a)
    else (if (type =? EV_KEY) && (code <=? KEY_MAX) then [(code, value)] else [], 0) in
  mkSpec (sp_down a) (sp_presses a) (sp_held a) (sp_fifo a) rel (sp_counts a) calls Ready (sp_timers a) (sp_trace a).

(** A press is the last event and starts a timer; a release registers the key exactly when
    the last event was its press. *)
Definition spec_key (key updown : Z) (rest : list (Z * Z)) (a : spec) : spec :=
  if negb (updown =? 0) then
    let n := sp_presses a + 1 in
    mkSpec ({[ key ]} ∪ sp_down a) n (Some (key, n, false)) (sp_fifo a) (sp_rel a) (sp_counts a) rest Ready (sp_timers a ++ [n]) (sp_trace a)
  else
    mkSpec (sp_down a ∖ {[ key ]}) (sp_presses a) None (sp_fifo a) (sp_rel a) (sp_counts a) rest
      (match sp_held a with
       | Some (k, _, long) => if k =? key then Checking key long else Ready
       | None => Ready
       end) (sp_timers a) (sp_trace a).

Definition spec_check (key : Z) (long : bool) (a : spec) : spec :=
  let '(action, c) := action_for (bool_decide (KEY_POWER ∈ sp_down a)) key (sp_counts a) in
  mkSpec (sp_down a) (sp_presses a) (sp_held a) (sp_fifo a) (sp_rel a) c (sp_calls a)
    (match action with ENQUEUE => Enqueuing key | _ => Ready end) (sp_timers a) (sp_trace a ++ [SeenNextIsLong long; SeenAction action key]).

Definition spec_fifo (q : list Z) (st : stage) (tr : list seen) (a : spec) : spec :=
  mkSpec (sp_down a) (sp_presses a) (sp_held a) q (sp_rel a) (sp_counts a) (sp_calls a) st (sp_timers a) tr.

(** A timer finds its press or not. *)
Definition spec_timer (i : nat) (n : Z) (a : spec) : spec :=
  let '(held, tr) := match sp_held a with
                     | Some (k, m, long) => if m =? n then (Some (k, m, true), sp_trace a ++ [SeenLongPress k]) else (sp_held a, sp_trace a)
                     | None => (None, sp_trace a)
                     end in
  mkSpec (sp_down a) (sp_presses a) held (sp_fifo a) (sp_rel a) (sp_counts a) (sp_calls a) (sp_stage a) (delete i (sp_timers a)) tr.

Definition spec_move (m : move) (a : spec) : option spec :=
  match m with
  | InputEvent type code value => match sp_stage a, sp_calls a with Ready, [] => Some (spec_event type code value a) | _, _ => None end
  | InputKey => match sp_stage a, sp_calls a with Ready, (key, updown) :: cs => Some (spec_key key updown cs a) | _, _ => None end
  | InputCheck => match sp_stage a with Checking key long => Some (spec_check key long a) | _ => None end
  | InputEnqueue =>
      match sp_stage a with
      | Enqueuing key => Some (spec_fifo (if zlen (sp_fifo a) <? queue_max then sp_fifo a ++ [key] else sp_fifo a) Ready (sp_trace a) a)
      | _ => None
      end
  | TimerFires i => (fun n => spec_timer i n a) <$> sp_timers a !! i
  | MainWaits timed_out usb =>
      match sp_fifo a with
      | [] => if timed_out && negb usb then Some (spec_fifo [] (sp_stage a) (sp_trace a ++ [SeenKey (-1)]) a) else None
      | key :: q => Some (spec_fifo q (sp_stage a) (sp_trace a ++ [SeenKey key]) a)
      end
  | MainFlushes => Some (spec_fifo [] (sp_stage a) (sp_trace a) a)
  end.
Fixpoint spec_run (ms : list move) (a : spec) : spec :=
  match ms with [] => a | m :: ms => spec_run ms (default a (spec_move m a)) end.

Definition spec_start (rel : Z) : spec := mkSpec ∅ 0 None [] rel (mkCounters 0 0 (-1)) [] Ready [] [].

(** ** Refinement *)

(** An event as the kernel gives it: a press is 1 or 2 (a repetition), and the trackball
    does not jump. *)
Definition move_ok (m : move) : Prop :=
  match m with
  | InputEvent type code value => 0 <= code < 2 ^ 16 /\ (type = EV_KEY -> 0 <= value <= 2) /\ - 2 ^ 30 <= value <= 2 ^ 30
  | _ => True
  end.

Definition call_ok (c : Z * Z) : Prop := 0 <= c.1 <= KEY_MAX /\ 0 <= c.2 <= 2.

(** The fields stand for what the specification has; at most [n] moves were made. *)
Record fields_ok (n : Z) (u : RecoveryUI) (a : spec) : Prop := {
  fo_queue : zlen (key_queue u) = queue_max;
  fo_len : key_queue_len u = zlen (sp_fifo a);
  fo_fifo : sp_fifo a `prefix_of` key_queue u;
  fo_pressed : zlen (key_pressed u) = KEY_MAX + 1;
  fo_down : forall k b, 0 <= k -> key_pressed u !! Z.to_nat k = Some b -> (b <> 0 <-> k ∈ sp_down a);
  fo_count : key_down_count u = sp_presses a /\ 0 <= sp_presses a <= n;
  fo_held : match sp_held a with
            | None => key_last_down u = -1
            | Some (k, m, long) => key_last_down u = k /\ m = sp_presses a /\ key_long_press u = long /\ 0 <= k
            end;
  fo_rel : rel_sum u = sp_rel a /\ -3 <= sp_rel a <= 3;
  fo_counts : counts u = sp_counts a /\ 0 <= consecutive_power_keys (sp_counts a) <= n /\ 0 <= consecutive_alternate_keys (sp_counts a) <= n
}.
Record sim (n : Z) (w : world) (a : spec) : Prop := {
  s_fields : fields_ok n (w_ui w) a;
  s_timers : (timers w).*2 = sp_timers a;
  s_presses : forall k c, (k, c) ∈ timers w -> 0 <= k /\ c <= sp_presses a /\
    match sp_held a with Some (k', m, _) => c = m -> k = k' | None => True end;
  s_calls : calls w = sp_calls a /\ Forall call_ok (calls w);
  s_stage : at_stage w = sp_stage a;
  s_trace : trace w = sp_trace a
}.

(** A move of both sides. *)
Definition matched (n : Z) (r : outcome (option world)) (a' : option spec) : Prop :=
  exists w', r = Val w' /\ match w', a' with Some w', Some a' => sim n w' a' | None, None => True | _, _ => False end.

Lemma fields_mono n n' u a : fields_ok n u a -> n <= n' -> fields_ok n' u a.
Proof. intros [F1 F2 F3 F4 F5 F6 F7 F8 F9] Hn. split; try done; [lia | destruct F9; split_and!; [done | lia ..]]. Qed.

Lemma sim_mono n n' w a : sim n w a -> n <= n' -> sim n' w a.
Proof. intros [F T P C G R] Hn. split; try done. by eapply fields_mono. Qed.

Lemma event_matched n w a type code value : sim n w a -> move_ok (InputEvent type code value) ->
  matched n (do_move (InputEvent type code value) w) (spec_move (InputEvent type code value) a).
Proof.
  intros [F T P [C1 C2] G R] (Hc & Hv & Hb). cbn [do_move spec_move]. rewrite <- G, <- C1. unfold matched.
  destruct (at_stage w); [| by exists None | by exists None]. destruct (calls w) as [| c cs] eqn:Ec; [| by exists None].
  assert (forall calls rel, -3 <= rel <= 3 -> Forall call_ok calls ->
    sim n (mkWorld (set_rel rel (w_ui w)) calls Ready (timers w) (trace w))
      (mkSpec (sp_down a) (sp_presses a) (sp_held a) (sp_fifo a) rel (sp_counts a) calls Ready (sp_timers a) (sp_trace a))) as Hsim.
  { intros cs rel Hrel Hcs. split; try done. destruct F as [F1 F2 F3 F4 F5 F6 F7 F8 F9]. by split. }
  destruct (fo_rel _ _ _ F) as [Er Hr]. assert (set_rel (sp_rel a) (w_ui w) = w_ui w) as Eu by (rewrite <- Er; by destruct (w_ui w)).
  unfold input_callback, spec_event. destruct (Z.eqb_spec type EV_SYN) as [-> |].
  { cbn [mbind outcome_bind]. eexists. split; [reflexivity |]. cbv zeta iota. pose proof (Hsim [] (sp_rel a) Hr ltac:(constructor)) as Hs.
    by rewrite Eu in Hs. }
  destruct (Z.eqb_spec type EV_REL) as [-> |]; cbv zeta.
  - change (EV_REL =? EV_KEY) with false. cbn [andb]. destruct (code =? REL_Y).
    + rewrite c_int_val by lia. cbn [mbind outcome_bind]. rewrite Er.
      destruct (3 <? sp_rel a + value) eqn:E1; [| destruct (sp_rel a + value <? -3) eqn:E2]; cbn [mbind outcome_bind];
        (eexists; split; [reflexivity |]); apply Hsim; try lia; unfold call_ok, KEY_DOWN, KEY_UP, KEY_MAX; repeat constructor; simpl; lia.
    + cbn [mbind outcome_bind]. eexists. split; [reflexivity |]. pose proof (Hsim [] (sp_rel a) Hr ltac:(constructor)) as Hs. by rewrite Eu in Hs.
  - cbn [mbind outcome_bind app]. eexists. split; [reflexivity |].
    destruct ((type =? EV_KEY) && (code <=? KEY_MAX)) eqn:Ek; apply Hsim; try lia; [| constructor].
    apply andb_true_iff in Ek as [E1%Z.eqb_eq E2%Z.leb_le]. repeat constructor; simpl; auto with lia; lia.
Qed.

(** The array after one key changed. *)
Lemma pressed_update (p p' : list Z) (down : gset Z) key v :
  (forall k b, 0 <= k -> p !! Z.to_nat k = Some b -> (b <> 0 <-> k ∈ down)) -> store p key v = Val p' ->
  (forall k b, 0 <= k -> p' !! Z.to_nat k = Some b -> (b <> 0 <-> k ∈ (if negb (v =? 0) then {[ key ]} ∪ down else down ∖ {[ key ]}))).
Proof.
  intros Hd [Hk ->]%store_Val k b Hk0 Hb. destruct (decide (k = key)) as [-> | Hne].
  - rewrite list_lookup_insert_eq in Hb by (unfold zlen in Hk; lia). injection Hb as <-. destruct (Z.eqb_spec v 0); cbn [negb]; set_solver.
  - rewrite list_lookup_insert_ne in Hb by lia. rewrite (Hd k b Hk0 Hb). destruct (negb (v =? 0)); set_solver.
Qed.

Lemma key_matched n w a : sim n w a -> 0 <= n < 2 ^ 31 - 1 -> matched (n + 1) (do_move InputKey w) (spec_move InputKey a).
Proof.
  intros [F T P [C1 C2] G R] Hn. cbn [do_move spec_move]. rewrite <- G, <- C1. unfold matched.
  destruct (at_stage w); [| by exists None | by exists None]. destruct (calls w) as [| [key updown] cs]; [by exists None |].
  apply Forall_cons in C2 as [[Hk Hv] Hcs]. cbn [fst snd] in *. unfold process_key.
  destruct F as [F1 F2 F3 F4 F5 F6 F7 F8 F9]. assert (wraps 8 updown = updown) as -> by (apply wraps_id; lia).
  destruct (wp_elim (store (key_pressed (w_ui w)) key updown) (fun p => zlen p = KEY_MAX + 1)) as (p & Hp & Hlen).
  { apply wp_store; [lia |]. by rewrite zlen_insert. }
  pose proof (pressed_update _ _ _ _ _ F5 Hp) as Hdown. rewrite Hp. cbn [mbind outcome_bind]. unfold spec_key.
  destruct (negb (updown =? 0)); destruct F6 as [F6 F6b], F9 as (F9 & F9b & F9c).
  - rewrite c_int_val by lia. cbn [mbind outcome_bind]. eexists. split; [reflexivity |]. split; cbn.
    + split; cbn; try done; [lia | split_and!; [done | lia | done | lia] | split_and!; [done | lia ..]].
    + rewrite fmap_app, T. cbn. by rewrite F6.
    + intros k c [Hin | Hin]%elem_of_app.
      * destruct (P k c Hin) as (H1 & H2 & _). split_and!; lia.
      * apply list_elem_of_singleton in Hin. injection Hin as -> ->. split_and!; lia.
    + split; [done | exact Hcs].
    + done.
    + done.
  - eexists. split; [reflexivity |]. split; cbn.
    + split; cbn; try done; [lia | split_and!; [done | lia ..]].
    + done.
    + intros k c Hin. destruct (P k c Hin) as (H1 & H2 & _). by split_and!.
    + split; [done | exact Hcs].
    + destruct (sp_held a) as [[[k m] long] |]; [destruct F7 as (-> & _ & -> & _); destruct (Z.eqb_spec k key) as [-> |]; done |].
      rewrite F7. by rewrite (proj2 (Z.eqb_neq (-1) key)) by lia.
    + done.
Qed.

Lemma check_key_spec held key c n : 0 <= n < 2 ^ 31 - 1 -> 0 <= consecutive_power_keys c <= n -> 0 <= consecutive_alternate_keys c <= n ->
  check_key held key c = Val (action_for held key c) /\
  0 <= consecutive_power_keys (action_for held key c).2 <= n + 1 /\ 0 <= consecutive_alternate_keys (action_for held key c).2 <= n + 1.
Proof.
  intros Hn Hp Ha. unfold check_key, action_for. destruct (held && (key =? KEY_VOLUMEUP)); [cbn; split_and!; [done | lia ..] |].
  destruct (key =? KEY_POWER) eqn:Ek; cbn [andb].
  - rewrite c_int_val by lia. cbn [mbind outcome_bind]. destruct (7 <=? consecutive_power_keys c + 1); [cbn; split_and!; [done | lia ..] |].
    apply Z.eqb_eq in Ek. subst key. change (alternates KEY_POWER _) with false. change (alternates KEY_POWER c) with false.
    cbn; split_and!; [done | lia ..].
  - cbn [mbind outcome_bind]. unfold alternates. cbn [last_key]. fold (alternates key c).
    destruct (alternates key c); cbn [consecutive_alternate_keys].
    + rewrite c_int_val by lia. cbn [mbind outcome_bind]. destruct (7 <=? _); cbn; split_and!; try done; lia.
    + cbn; split_and!; [done | lia ..].
Qed.

Lemma check_matched n w a : sim n w a -> 0 <= n < 2 ^ 31 - 1 -> matched (n + 1) (do_move InputCheck w) (spec_move InputCheck a).
Proof.
  intros [F T P C G R] Hn. cbn [do_move spec_move]. rewrite <- G. unfold matched.
  destruct (at_stage w) as [| key long |]; [by exists None | | by exists None]. unfold CheckKey, IsKeyPressed.
  destruct F as [F1 F2 F3 F4 F5 F6 F7 F8 F9]. destruct (load_some (key_pressed (w_ui w)) KEY_POWER) as [b Hb]; [rewrite F4; unfold KEY_POWER, KEY_MAX; lia |].
  rewrite Hb. cbn [mbind outcome_bind]. apply load_Val in Hb as [Hk Hb]. pose proof (F5 KEY_POWER b Hk Hb) as Hd.
  assert (negb (b =? 0) = bool_decide (KEY_POWER ∈ sp_down a)) as ->.
  { destruct (Z.eqb_spec b 0); cbn [negb]; [rewrite bool_decide_false; [done | naive_solver] | rewrite bool_decide_true; [done | naive_solver]]. }
  destruct F9 as (F9 & F9b & F9c). rewrite F9.
  destruct (check_key_spec (bool_decide (KEY_POWER ∈ sp_down a)) key (sp_counts a) n Hn F9b F9c) as (-> & Hp & Ha).
  unfold spec_check. destruct (action_for _ _ _) as [action c]. cbn [mbind outcome_bind fst snd] in *. eexists. split; [reflexivity |].
  split; cbn; try done; [| by rewrite R]. split; cbn; try done. destruct F6; split; [done | lia].
Qed.

(** Moves that only change the queue. *)
Lemma queue_matched n w a q k st tr ui_tr : sim n w a -> zlen q = queue_max -> forall fifo, k = zlen fifo -> fifo `prefix_of` q ->
  ui_tr = tr -> sim n (mkWorld (set_queue q k (w_ui w)) (calls w) st (timers w) ui_tr) (spec_fifo fifo st tr a).
Proof.
  intros [F T P C G R] Hq fifo -> Hpre ->. split; try done. destruct F as [F1 F2 F3 F4 F5 F6 F7 F8 F9]. by split.
Qed.

Lemma enqueue_matched n w a : sim n w a -> matched n (do_move InputEnqueue w) (spec_move InputEnqueue a).
Proof.
  intros Hs. pose proof Hs as [F T P C G R]. cbn [do_move spec_move]. rewrite <- G. unfold matched.
  destruct (at_stage w) as [| | key]; [by exists None | by exists None |]. unfold EnqueueKey. destruct F as [F1 F2 F3 _ _ _ _ _ _].
  rewrite F2. destruct (Z.ltb_spec (zlen (sp_fifo a)) queue_max) as [Hlt | Hge].
  - destruct F3 as [rest Hq]. destruct rest as [| x rest]; [rewrite app_nil_r in Hq; rewrite Hq in F1; lia |].
    rewrite Hq, store_app by done. cbn [mbind outcome_bind]. eexists. split; [reflexivity |].
    apply queue_matched; [done | | | | by rewrite R].
    + rewrite <- F1, Hq, !zlen_app, !zlen_cons. done.
    + rewrite zlen_app. done.
    + exists rest. by rewrite <- app_assoc.
  - cbn [mbind outcome_bind]. eexists. split; [reflexivity |].
    assert (w_ui w = set_queue (key_queue (w_ui w)) (key_queue_len (w_ui w)) (w_ui w)) as -> by (by destruct (w_ui w)).
    apply queue_matched; [done | done | done | done | by rewrite R].
Qed.

Lemma wait_matched n w a timed_out usb : sim n w a -> matched n (do_move (MainWaits timed_out usb) w) (spec_move (MainWaits timed_out usb) a).
Proof.
  intros Hs. pose proof Hs as [F T P C G R]. cbn [do_move spec_move]. unfold matched, WaitKey. destruct F as [F1 F2 F3 _ _ _ _ _ _].
  rewrite F2, <- G, <- R. destruct (sp_fifo a) as [| key q].
  - cbn [zlen length Z.of_nat Z.eqb]. cbn [mbind outcome_bind]. eexists. split; [reflexivity |]. destruct (timed_out && negb usb); [| done].
    assert (w_ui w = set_queue (key_queue (w_ui w)) (key_queue_len (w_ui w)) (w_ui w)) as -> by (by destruct (w_ui w)).
    apply queue_matched; [done | done | done | apply prefix_nil | done].
  - rewrite zlen_cons. pose proof (zlen_nonneg q). rewrite (proj2 (Z.eqb_neq (1 + zlen q) 0)) by lia. destruct F3 as [rest Hq].
    rewrite Hq. cbn [app]. change (load (key :: q ++ rest) 0) with (load ([] ++ key :: q ++ rest) 0). rewrite (load_middle [] key _ 0 eq_refl).
    cbn [mbind outcome_bind]. replace (1 + zlen q - 1) with (zlen q) by lia.
    change (key :: q ++ rest) with ([key] ++ q ++ rest). rewrite (load_bytes_app [key] q rest) by done. cbn [mbind outcome_bind].
    unfold store_bytes. change ([key] ++ q ++ rest) with (key :: q ++ rest). rewrite zlen_cons, zlen_app. pose proof (zlen_nonneg rest).
    rewrite (proj2 (Z.leb_le (0 + zlen q) _)) by lia. cbn [andb Z.leb Z.compare mbind outcome_bind].
    eexists. split; [reflexivity |]. apply queue_matched; [done | | done | | done].
    + rewrite Hq in F1. cbn [app] in F1. rewrite <- F1. unfold zlen. rewrite !length_app, length_drop. cbn [length]. rewrite length_take, length_app. lia.
    + eexists. cbn [take app]. reflexivity.
Qed.

Lemma flush_matched n w a : sim n w a -> matched n (do_move MainFlushes w) (spec_move MainFlushes a).
Proof.
  intros Hs. pose proof Hs as [F T P C G R]. eexists. split; [reflexivity |]. cbn [spec_move]. rewrite <- G, <- R.
  apply queue_matched; [done | apply F | done | apply prefix_nil | done].
Qed.

Lemma timer_matched n w a i : sim n w a -> matched n (do_move (TimerFires i) w) (spec_move (TimerFires i) a).
Proof.
  intros [F T P C G R]. cbn [do_move spec_move]. unfold matched. rewrite <- T, list_lookup_fmap.
  destruct (timers w !! i) as [[key count] |] eqn:Ei; cbn [fmap option_fmap option_map snd]; [| by exists None].
  destruct (P key count) as (Hk0 & Hc & Hk); [by eapply list_elem_of_lookup_2 |].
  destruct F as [F1 F2 F3 F4 F5 F6 F7 F8 F9]. destruct F6 as [F6 F6b].
  assert (forall k c, (k, c) ∈ delete i (timers w) -> (k, c) ∈ timers w) as Hdel.
  { intros k c Hin. apply list_elem_of_lookup in Hin as [j Hj]. rewrite list_lookup_delete in Hj.
    destruct (decide (j < i)%nat); by eapply list_elem_of_lookup_2. }
  assert (forall held u tr, match held with
      | None => key_last_down u = -1
      | Some (k, m, long) => key_last_down u = k /\ m = sp_presses a /\ key_long_press u = long /\ 0 <= k
      end -> (forall k c, (k, c) ∈ timers w -> match held with Some (k', m, _) => c = m -> k = k' | None => True end) ->
    u = set_held (key_pressed (w_ui w)) (key_last_down u) (key_long_press u) (key_down_count (w_ui w)) (w_ui w) ->
    sim n (mkWorld u (calls w) (at_stage w) (delete i (timers w)) tr)
      (mkSpec (sp_down a) (sp_presses a) held (sp_fifo a) (sp_rel a) (sp_counts a) (sp_calls a) (sp_stage a) (delete i (sp_timers a)) tr)) as Hsim.
  { intros held u tr Hh Hkeys Hu. split; cbn; try done.
    - rewrite Hu. split; cbn; try done.
    - by rewrite list_fmap_delete, T.
    - intros k c Hin. destruct (P k c (Hdel _ _ Hin)) as (H1 & H2 & _). split_and!; [done | done | by apply Hkeys, Hdel]. }
  assert (w_ui w = set_held (key_pressed (w_ui w)) (key_last_down (w_ui w)) (key_long_press (w_ui w)) (key_down_count (w_ui w)) (w_ui w)) as Hid
    by (by destruct (w_ui w)).
  unfold time_key, spec_timer. rewrite F6. destruct (sp_held a) as [[[k m] long] |].
  - destruct F7 as (F7 & -> & F7b & F7c). rewrite F7. destruct (Z.eqb_spec (sp_presses a) count) as [Ec | Hne].
    + rewrite (Hk (eq_sym Ec)), Z.eqb_refl. cbn [andb]. eexists. split; [reflexivity |]. rewrite R. apply Hsim; cbn.
      * split_and!; [done | done | done | done].
      * intros k' c Hin. by destruct (P k' c Hin) as (_ & _ & H3).
      * by rewrite <- F6.
    + rewrite andb_false_r. eexists. split; [reflexivity |]. rewrite R. apply Hsim; [done | | done].
      intros k' c Hin. by destruct (P k' c Hin) as (_ & _ & H3).
  - rewrite F7, (proj2 (Z.eqb_neq (-1) key)) by lia. cbn [andb]. eexists. split; [reflexivity |]. rewrite R. apply Hsim; done.
Qed.

Lemma move_matched n w a m : sim n w a -> move_ok m -> 0 <= n < 2 ^ 31 - 1 -> matched (n + 1) (do_move m w) (spec_move m a).
Proof.
  intros Hs Hm Hn. assert (forall r a', matched n r a' -> matched (n + 1) r a') as Hmono.
  { intros r a' (w' & -> & Hw). exists w'. split; [done |]. destruct w', a'; try done. eapply sim_mono; [exact Hw | lia]. }
  destruct m; [apply Hmono; by apply event_matched | by apply key_matched | by apply check_matched | apply Hmono; by apply enqueue_matched
    | apply Hmono; by apply timer_matched | apply Hmono; by apply wait_matched | apply Hmono; by apply flush_matched].
Qed.

Lemma run_sim ms : forall n w a, sim n w a -> Forall move_ok ms -> 0 <= n -> n + zlen ms < 2 ^ 31 ->
  exists w' n', run ms w = Val w' /\ sim n' w' (spec_run ms a).
Proof.
  induction ms as [| m ms IH]; intros n w a Hs Hm Hn Hl; cbn [run spec_run]; [by exists w, n |].
  apply Forall_cons in Hm as [Hm Hms]. rewrite zlen_cons in Hl. pose proof (zlen_nonneg ms).
  destruct (move_matched n w a m Hs Hm ltac:(lia)) as (w' & -> & Hw). cbn [mbind outcome_bind].
  destruct w' as [w' |], (spec_move m a) as [a' |]; try done; cbn [default]; [apply (IH (n + 1)); [done | done | lia | lia] |].
  apply (IH n); [done | done | lia | lia].
Qed.

Lemma start_sim queue pressed rel : zlen queue = queue_max -> zlen pressed = KEY_MAX + 1 -> Forall (fun b => b = 0) pressed ->
  -3 <= rel <= 3 -> sim 0 (start queue pressed rel) (spec_start rel).
Proof.
  intros Hq Hp H0 Hr. split; cbn; try done; [| by intros k c ?%elem_of_nil]. split; cbn; try done; [apply prefix_nil |].
  intros k b Hk Hb. rewrite Forall_lookup in H0. rewrite (H0 _ _ Hb). set_solver.
Qed.

(** *** The reboot *)

(** The counters after keys that did not toggle the display. *)
Definition counted (ks : list Z) : counters := foldl (fun c k => (action_for false k c).2) (mkCounters 0 0 (-1)) ks.
(** How many of the last keys were the power key. *)
Fixpoint powers (rev_ks : list Z) : Z := match rev_ks with k :: ks => if k =? KEY_POWER then 1 + powers ks else 0 | [] => 0 end.

Lemma counted_powers ks : consecutive_power_keys (counted ks) = powers (reverse ks).
Proof.
  induction ks as [| k ks IH] using rev_ind; [done |]. rewrite reverse_snoc. cbn [powers].
  assert (counted (ks ++ [k]) = (action_for false k (counted ks)).2) as -> by (unfold counted; by rewrite foldl_app). unfold action_for. cbn [andb]. rewrite IH. destruct (k =? KEY_POWER); cbn [andb].
  - destruct (7 <=? _); cbn; [lia |]. destruct (7 <=? _); cbn; lia.
  - destruct (7 <=? _); done.
Qed.

Lemma reboot_after_seven ks key :
  (action_for false key (counted ks)).1 = REBOOT <-> key = KEY_POWER /\ 6 <= powers (reverse ks).
Proof.
  unfold action_for. cbn [andb]. rewrite counted_powers. destruct (Z.eqb_spec key KEY_POWER) as [-> | Hne]; cbn [andb].
  - destruct (Z.leb_spec 7 (powers (reverse ks) + 1)); cbn; [split; [intros _; split; [done | lia] | done] |].
    repeat case_match; cbn; (split; [discriminate | intros [_ Hc]; lia]).
  - repeat case_match; cbn; (split; [discriminate | by intros []]).
Qed.

(** ** Properties *)


(** Press and release of a key, with a timer that fires in between, and the main thread. *)
Definition demo_moves : list move :=
  [InputEvent EV_KEY 30 1; InputKey; MainWaits true true; TimerFires 0; InputEvent EV_KEY 30 0; InputKey; InputCheck; InputEnqueue; MainWaits false false].


(** ** Where the code and its description differ *)

(** "Alternate vol-up and vol-down seven times to mount /system": that is so for the first
    keys; after another key the first of them does not count, and it takes eight. *)
Example first_alternation_lost :
  let seven := [KEY_VOLUMEUP; KEY_VOLUMEDOWN; KEY_VOLUMEUP; KEY_VOLUMEDOWN; KEY_VOLUMEUP; KEY_VOLUMEDOWN] in
  (action_for false KEY_VOLUMEUP (counted seven)).1 = MOUNT_SYSTEM /\
  (action_for false KEY_VOLUMEUP (counted (KEY_POWER :: seven))).1 = ENQUEUE.
Proof. by vm_compute. Qed.

(** Memory that is not zero makes a volume key toggle the display although power is not
    held. *)
Example uninitialised_power_key :
  (let* (action, _) := CheckKey KEY_VOLUMEUP (new_RecoveryUI [] (replicate 768 1) 0) in Val action) = Val TOGGLE.
Proof. by vm_compute. Qed.
