(* ===== verification/Screen.v ===== *)
(** * The screen (screen_ui.cpp)

    The text log, a ring of rows, the menu, the progress bar and what is drawn.  A method
    locks [updateMutex] for all it does, so it is one step.  The calls of minui that draw
    are kept in a list; [float] and [double] are the machine's, a parameter. *)

From stdpp Require Import base numbers list.
From stdpp Require Import strings.
From S2P Require Import Prelude CString.

(** ** Data *)

(** Arithmetic on [float] and [double]; conversions from and to [int], and from [double]
    to [float]. *)
Record float_ops := mkFloats {
  float : Type;
  f_of_int : Z -> float;
  f_to_int : float -> Z;
  f_narrow : float -> float;
  f_add : float -> float -> float;
  f_sub : float -> float -> float;
  f_mul : float -> float -> float;
  f_div : float -> float -> float;
  f_lt : float -> float -> bool
}.

Inductive Icon := NONE | INSTALLING_UPDATE | ERASING | NO_COMMAND | ERROR.
Inductive ProgressType := EMPTY | INDETERMINATE | DETERMINATE.
Inductive UIElement := HEADER | MENU | MENU_SEL_BG | MENU_SEL_FG | LOG | TEXT_FILL.
#[global] Instance Icon_eq_dec : EqDecision Icon.
Proof. solve_decision. Defined.
#[global] Instance ProgressType_eq_dec : EqDecision ProgressType.
Proof. solve_decision. Defined.

Definition kMaxCols : Z := 96.
Definition kMaxRows : Z := 96.

(** An image that was loaded. *)
Record surface := mkSurface { sf_name : block; sf_width : Z; sf_height : Z }.
Definition gr_get_width (s : option surface) : Z := match s with Some s => sf_width s | None => 0 end.
Definition gr_get_height (s : option surface) : Z := match s with Some s => sf_height s | None => 0 end.

(** The calls that draw. *)
Inductive draw :=
| GrColor (r g b a : Z)
| GrClear
| GrFill (x1 y1 x2 y2 : Z)
| GrBlit (source : option surface) (sx sy w h dx dy : Z)
| GrText (x y : Z) (s : block) (bold : bool)
| GrTextIcon (x y : Z) (icon : option surface)
| GrFlip.

Record text_log := mkLog { text : list block; text_cols : Z; text_rows : Z; text_col : Z; text_row : Z; text_top : Z }.
Record menu_state := mkMenu { menu : list block; show_menu : bool; menu_top : Z; menu_items : Z; menu_sel : Z }.

Section Screen.
Context (F : float_ops).

Record progress_bar := mkBar {
  progressBarType : ProgressType;
  progressScopeStart : float F;
  progressScopeSize : float F;
  progress : float F;
  progressScopeTime : float F;
  progressScopeDuration : float F
}.

Record images := mkImages {
  backgroundIcon : list (option surface);
  backgroundText : list (option surface);
  installation : option (list (option surface));
  installing_frames : Z;
  progressBarEmpty : option surface;
  progressBarFill : option surface
}.

(** [char_width], [char_height]: static. *)
Record ScreenRecoveryUI := mkScreen {
  currentIcon : Icon;
  installingFrame : Z;
  locale : option block;
  rtl_locale : bool;
  bar : progress_bar;
  pics : images;
  pagesIdentical : bool;
  log : text_log;
  show_text : bool;
  show_text_ever : bool;
  menus : menu_state;
  iconX : Z;
  iconY : Z;
  char_width : Z;
  char_height : Z;
  drawn : list draw
}.

(** The constructor; what it does not initialise is an argument. *)
Definition new_ScreenRecoveryUI (rows menu_rows : list block) (p : images) (time duration : float F) (x y cw ch : Z) : ScreenRecoveryUI :=
  mkScreen NONE 0 None false (mkBar EMPTY (f_of_int F 0) (f_of_int F 0) (f_of_int F 0) time duration)
    (mkImages (replicate 5 None) (backgroundText p) (installation p) (-1) (progressBarEmpty p) (progressBarFill p)) false
    (mkLog rows 0 0 0 0 0) false false (mkMenu menu_rows false 0 0 0) x y cw ch [].

Definition set_drawn (d : list draw) (u : ScreenRecoveryUI) : ScreenRecoveryUI :=
  mkScreen (currentIcon u) (installingFrame u) (locale u) (rtl_locale u) (bar u) (pics u) (pagesIdentical u) (log u) (show_text u)
    (show_text_ever u) (menus u) (iconX u) (iconY u) (char_width u) (char_height u) d.
Definition put (d : list draw) (u : ScreenRecoveryUI) : ScreenRecoveryUI := set_drawn (drawn u ++ d) u.
Definition set_icon (icon : Icon) (frame : Z) (u : ScreenRecoveryUI) : ScreenRecoveryUI :=
  mkScreen icon frame (locale u) (rtl_locale u) (bar u) (pics u) (pagesIdentical u) (log u) (show_text u)
    (show_text_ever u) (menus u) (iconX u) (iconY u) (char_width u) (char_height u) (drawn u).
Definition set_pages (same : bool) (x y : Z) (u : ScreenRecoveryUI) : ScreenRecoveryUI :=
  mkScreen (currentIcon u) (installingFrame u) (locale u) (rtl_locale u) (bar u) (pics u) same (log u) (show_text u)
    (show_text_ever u) (menus u) x y (char_width u) (char_height u) (drawn u).
Definition set_locale (l : option block) (rtl : bool) (u : ScreenRecoveryUI) : ScreenRecoveryUI :=
  mkScreen (currentIcon u) (installingFrame u) l rtl (bar u) (pics u) (pagesIdentical u) (log u) (show_text u)
    (show_text_ever u) (menus u) (iconX u) (iconY u) (char_width u) (char_height u) (drawn u).
Definition set_bar (b : progress_bar) (u : ScreenRecoveryUI) : ScreenRecoveryUI :=
  mkScreen (currentIcon u) (installingFrame u) (locale u) (rtl_locale u) b (pics u) (pagesIdentical u) (log u) (show_text u)
    (show_text_ever u) (menus u) (iconX u) (iconY u) (char_width u) (char_height u) (drawn u).
Definition set_log (l : text_log) (u : ScreenRecoveryUI) : ScreenRecoveryUI :=
  mkScreen (currentIcon u) (installingFrame u) (locale u) (rtl_locale u) (bar u) (pics u) (pagesIdentical u) l (show_text u)
    (show_text_ever u) (menus u) (iconX u) (iconY u) (char_width u) (char_height u) (drawn u).
Definition set_menus (m : menu_state) (u : ScreenRecoveryUI) : ScreenRecoveryUI :=
  mkScreen (currentIcon u) (installingFrame u) (locale u) (rtl_locale u) (bar u) (pics u) (pagesIdentical u) (log u) (show_text u)
    (show_text_ever u) m (iconX u) (iconY u) (char_width u) (char_height u) (drawn u).
Definition set_visible (v ever : bool) (u : ScreenRecoveryUI) : ScreenRecoveryUI :=
  mkScreen (currentIcon u) (installingFrame u) (locale u) (rtl_locale u) (bar u) (pics u) (pagesIdentical u) (log u) v
    ever (menus u) (iconX u) (iconY u) (char_width u) (char_height u) (drawn u).

(** ** Drawing *)

(** The frame buffer. *)
Context (gr_fb_width gr_fb_height : Z).

Definition icon_index (icon : Icon) : Z :=
  match icon with NONE => 0 | INSTALLING_UPDATE => 1 | ERASING => 2 | NO_COMMAND => 3 | ERROR => 4 end.
Definition is_installing (icon : Icon) : bool := bool_decide (icon = INSTALLING_UPDATE) || bool_decide (icon = ERASING).

(** [installation[i]]. *)
Definition frame (i : Z) (u : ScreenRecoveryUI) : outcome (option surface) :=
  match installation (pics u) with Some l => load l i | None => Trap NullDeref end.

Definition draw_background_locked (icon : Icon) (u : ScreenRecoveryUI) : outcome ScreenRecoveryUI :=
  let u := put [GrColor 0 0 0 255; GrClear] (set_pages false (iconX u) (iconY u) u) in
  if bool_decide (icon = NONE) then Val u else
  let* s := load (backgroundIcon (pics u)) (icon_index icon) in
  let* s := if is_installing icon then frame (installingFrame u) u else Val s in
  let* text_surface := load (backgroundText (pics u)) (icon_index icon) in
  let iconWidth := gr_get_width s in
  let iconHeight := gr_get_height s in
  let textWidth := gr_get_width text_surface in
  let textHeight := gr_get_height text_surface in
  let x := Z.quot (gr_fb_width - iconWidth) 2 in
  let y := Z.quot (gr_fb_height - (iconHeight + textHeight + 40)) 2 in
  let textX := Z.quot (gr_fb_width - textWidth) 2 in
  let textY := Z.quot (gr_fb_height - (iconHeight + textHeight + 40)) 2 + iconHeight + 40 in
  Val (put [GrBlit s 0 0 iconWidth iconHeight x y; GrColor 255 255 255 255; GrTextIcon textX textY text_surface]
         (set_pages false x y u)).

Definition draw_progress_locked (u : ScreenRecoveryUI) : outcome ScreenRecoveryUI :=
  if bool_decide (currentIcon u = ERROR) then Val u else
  let* u :=
    if is_installing (currentIcon u) then
      let* icon := frame (installingFrame u) u in
      Val (put [GrBlit icon 0 0 (gr_get_width icon) (gr_get_height icon) (iconX u) (iconY u)] u)
    else Val u in
  let b := bar u in
  if bool_decide (progressBarType b = EMPTY) then Val u else
  let* installing := load (backgroundIcon (pics u)) (icon_index INSTALLING_UPDATE) in
  let iconHeight := gr_get_height installing in
  let width := gr_get_width (progressBarEmpty (pics u)) in
  let height := gr_get_height (progressBarEmpty (pics u)) in
  let dx := Z.quot (gr_fb_width - width) 2 in
  let dy := Z.quot (3 * gr_fb_height + iconHeight - 2 * height) 4 in
  let u := put [GrColor 0 0 0 255; GrFill dx dy width height] u in
  if bool_decide (progressBarType b = DETERMINATE) then
    let p := f_add F (progressScopeStart b) (f_mul F (progress b) (progressScopeSize b)) in
    let pos := f_to_int F (f_mul F p (f_of_int F width)) in
    let fill := progressBarFill (pics u) in
    let empty := progressBarEmpty (pics u) in
    Val (put (if rtl_locale u then
                (if 0 <? pos then [GrBlit fill (width - pos) 0 pos height (dx + width - pos) dy] else []) ++
                (if pos <? width - 1 then [GrBlit empty 0 0 (width - pos) height dx dy] else [])
              else
                (if 0 <? pos then [GrBlit fill 0 0 pos height dx dy] else []) ++
                (if pos <? width - 1 then [GrBlit empty pos 0 (width - pos) height (dx + pos) dy] else [])) u)
  else Val u.

Definition SetColor (e : UIElement) : draw :=
  match e with
  | HEADER => GrColor 247 0 6 255
  | MENU | MENU_SEL_BG => GrColor 0 106 157 255
  | MENU_SEL_FG => GrColor 255 255 255 255
  | LOG => GrColor 249 194 0 255
  | TEXT_FILL => GrColor 0 0 0 160
  end.

(** The lines of the menu from [i] on, [n] of them; with the [y] after them. *)
Fixpoint draw_menu (n : nat) (i y height : Z) (m : menu_state) : outcome (list draw * Z) :=
  match n with
  | O => Val ([], y)
  | S n =>
      let* row := load (menu m) i in
      let* s := c_str row in
      let text bold := match s with [] => [] | _ => [GrText 4 y s bold] end in
      let top := if i =? menu_top m then [SetColor MENU] else [] in
      let line :=
        if i =? menu_top m + menu_sel m then
          [SetColor MENU_SEL_BG; GrFill 0 (y - 2) gr_fb_width (y + height + 2); SetColor MENU_SEL_FG] ++ text true ++ [SetColor MENU]
        else text (i <? menu_top m) in
      let* (rest, y) := draw_menu n (i + 1) (y + height + 4) height m in
      Val (top ++ line ++ rest, y)
  end.

(** The log from the bottom up: [n] rows at most, from [row] at [ty], above [y]. *)
Fixpoint draw_log (n : nat) (row ty y height : Z) (l : text_log) : outcome (list draw) :=
  match n with
  | O => Val []
  | S n =>
      if y + 2 <? ty then
        let* r := load (text l) row in
        let* s := c_str r in
        let* rest := draw_log n (if row - 1 <? 0 then text_rows l - 1 else row - 1) (ty - height) y height l in
        Val (GrText 4 ty s false :: rest)
      else Val []
  end.

Definition draw_screen_locked (u : ScreenRecoveryUI) : outcome ScreenRecoveryUI :=
  if negb (show_text u) then
    let* u := draw_background_locked (currentIcon u) u in draw_progress_locked u
  else
    let m := menus u in
    let l := log u in
    let* (d, y) :=
      if show_menu m then
        let* (d, y) := draw_menu (Z.to_nat (menu_top m + menu_items m)) 0 0 (char_height u) m in
        Val ([SetColor HEADER] ++ d ++ [SetColor MENU; GrFill 0 (y + 4) gr_fb_width (y + 4 + 2)], y + 8)
      else Val ([], 0) in
    if text_rows l =? 0 then Trap Aborted else  (** division by zero *)
    let row := Z.rem (text_top l + text_rows l - 1) (text_rows l) in
    let* lines := draw_log (Z.to_nat (text_rows l)) row (gr_fb_height - char_height u) y (char_height u) l in
    Val (put ([GrColor 0 0 0 255; GrClear] ++ d ++ [SetColor LOG] ++ lines) u).

Definition update_screen_locked (u : ScreenRecoveryUI) : outcome ScreenRecoveryUI :=
  let* u := draw_screen_locked u in Val (put [GrFlip] u).

Definition update_progress_locked (u : ScreenRecoveryUI) : outcome ScreenRecoveryUI :=
  let* u :=
    if show_text u || negb (pagesIdentical u) then
      let* u := draw_screen_locked u in Val (set_pages true (iconX u) (iconY u) u)
    else draw_progress_locked u in
  Val (put [GrFlip] u).

(** ** Methods *)

(** One round of [progress_loop]; [now]: the time. *)
Definition progress_step (now : float F) (u : ScreenRecoveryUI) : outcome ScreenRecoveryUI :=
  let '(redraw, u) :=
    if is_installing (currentIcon u) && (0 <? installing_frames (pics u)) && negb (show_text u) then
      (true, set_icon (currentIcon u) (Z.rem (installingFrame u + 1) (installing_frames (pics u))) u)
    else (false, u) in
  let b := bar u in
  let duration := f_to_int F (progressScopeDuration b) in
  let '(redraw, u) :=
    if bool_decide (progressBarType b = DETERMINATE) && (0 <? duration) then
      let p := f_narrow F (f_div F (f_sub F now (progressScopeTime b)) (f_of_int F duration)) in
      let p := if f_lt F (f_of_int F 1) p then f_of_int F 1 else p in
      if f_lt F (progress b) p then
        (true, set_bar (mkBar (progressBarType b) (progressScopeStart b) (progressScopeSize b) p (progressScopeTime b) (progressScopeDuration b)) u)
      else (redraw, u)
    else (redraw, u) in
  if redraw : bool then update_progress_locked u else Val u.

(** Loading: minui gives the image, or [None] after a failure; an animation comes with the
    number of its frames, -1 after a failure to open it. *)
Record resources := mkResources {
  res_display : block -> option surface;
  res_localized : block -> option block -> option surface;
  res_multi : block -> option (list (option surface)) * Z
}.

(** [font]: the size of a character. *)
Definition Init (R : resources) (font : Z * Z) (u : ScreenRecoveryUI) : outcome ScreenRecoveryUI :=
  let '(cw, ch) := font in
  if (cw =? 0) || (ch =? 0) then Trap Aborted else  (** division by zero *)
  let rows := Z.quot gr_fb_height ch in
  let rows := if kMaxRows <? rows then kMaxRows else rows in
  let cols := Z.quot gr_fb_width cw in
  let cols := if kMaxCols - 1 <? cols then kMaxCols - 1 else cols in
  let l := mkLog (text (log u)) cols rows 0 0 1 in
  let '(installation, frames) := res_multi R (str "icon_installing") in
  let* first := if negb (frames =? 0) then match installation with Some s => load s 0 | None => Trap NullDeref end else Val None in
  let error := res_display R (str "icon_error") in
  let texts := (fun name => res_localized R (str name) (locale u)) in
  let p := mkImages [None; first; first; error; error]
             [default None (head (backgroundText (pics u))); texts "installing_text"%string; texts "erasing_text"%string;
              texts "no_command_text"%string; texts "error_text"%string]
             installation frames (res_display R (str "progress_empty")) (res_display R (str "progress_fill")) in
  Val (mkScreen (currentIcon u) (installingFrame u) (locale u) (rtl_locale u) (bar u) p (pagesIdentical u) l (show_text u)
         (show_text_ever u) (menus u) (iconX u) (iconY u) cw ch (drawn u)).

(** What is before the underscore. *)
Fixpoint language (s : block) : block := match s with c :: s => if c =? 95 then [] else c :: language s | [] => [] end.
Definition SetLocale (new_locale : option block) (u : ScreenRecoveryUI) : ScreenRecoveryUI :=
  match new_locale with
  | Some l =>
      let rtl := bool_decide (language l ∈ [str "ar"; str "fa"; str "he"; str "iw"; str "ur"]) in
      set_locale (Some l) (if rtl then true else rtl_locale u) u
  | None => u
  end.

Definition SetBackground (icon : Icon) (u : ScreenRecoveryUI) : outcome ScreenRecoveryUI :=
  update_screen_locked (set_icon icon (installingFrame u) u).

Definition SetProgressType (type : ProgressType) (u : ScreenRecoveryUI) : outcome ScreenRecoveryUI :=
  let b := bar u in
  let zero := f_of_int F 0 in
  update_progress_locked (set_bar (mkBar type zero zero zero (progressScopeTime b) (progressScopeDuration b)) u).

Definition ShowProgress (portion seconds now : float F) (u : ScreenRecoveryUI) : outcome ScreenRecoveryUI :=
  let b := bar u in
  let start := f_add F (progressScopeStart b) (progressScopeSize b) in
  update_progress_locked (set_bar (mkBar DETERMINATE start portion (f_of_int F 0) now seconds) u).

Definition SetProgress (fraction : float F) (u : ScreenRecoveryUI) : outcome ScreenRecoveryUI :=
  let fraction := if f_lt F fraction (f_of_int F 0) then f_of_int F 0 else fraction in
  let fraction := if f_lt F (f_of_int F 1) fraction then f_of_int F 1 else fraction in
  let b := bar u in
  if bool_decide (progressBarType b = DETERMINATE) && f_lt F (progress b) fraction then
    let width := gr_get_width (progressBarEmpty (pics u)) in
    let scale := f_mul F (f_of_int F width) (progressScopeSize b) in
    if negb (f_to_int F (f_mul F (progress b) scale) =? f_to_int F (f_mul F fraction scale)) then
      update_progress_locked (set_bar (mkBar (progressBarType b) (progressScopeStart b) (progressScopeSize b) fraction
                                         (progressScopeTime b) (progressScopeDuration b)) u)
    else Val u
  else Val u.

(** [text[row][col] = c]. *)
Definition put_char (row col c : Z) (rows : list block) : outcome (list block) :=
  let* r := load rows row in
  let* r := store r col c in
  store rows row r.

(** The row is ended and the next one started. *)
Definition next_row (l : text_log) : outcome text_log :=
  let* t := put_char (text_row l) (text_col l) 0 (text l) in
  let row := Z.rem (text_row l + 1) (text_rows l) in
  let top := if row =? text_top l then Z.rem (text_top l + 1) (text_rows l) else text_top l in
  Val (mkLog t (text_cols l) (text_rows l) 0 row top).

Fixpoint print_chars (s : block) (l : text_log) : outcome text_log :=
  match s with
  | [] => Val l
  | c :: s =>
      let* l := if (c =? 10) || (text_cols l <=? text_col l) then next_row l else Val l in
      let* l :=
        if negb (c =? 10) then
          let* t := put_char (text_row l) (text_col l) c (text l) in
          Val (mkLog t (text_cols l) (text_rows l) (text_col l + 1) (text_row l) (text_top l))
        else Val l in
      print_chars s l
  end.

Definition log_print (s : block) (l : text_log) : outcome text_log :=
  let* l := print_chars s l in
  let* t := put_char (text_row l) (text_col l) 0 (text l) in
  Val (mkLog t (text_cols l) (text_rows l) (text_col l) (text_row l) (text_top l)).

(** [formatted]: the message; the buffer holds 255 bytes of it. *)
Definition Print (formatted : block) (u : ScreenRecoveryUI) : outcome ScreenRecoveryUI :=
  let buf := take 255 formatted in
  if (0 <? text_rows (log u)) && (0 <? text_cols (log u)) then
    let* l := log_print buf (log u) in update_screen_locked (set_log l u)
  else Val u.

(** strncpy of [cols - 1] bytes, which pads with zeros, and the zero after them. *)
Definition copy_line (s : block) (cols : Z) (row : block) : outcome block :=
  let n := Z.to_nat (cols - 1) in
  let* row := store_bytes row 0 (take n (s ++ replicate n 0)) in
  store row (cols - 1) 0.

(** Lines from row [i] on, as long as there is room; the array and the next row. *)
Fixpoint copy_lines (ss : list block) (i rows cols : Z) (m : list block) : outcome (list block * Z) :=
  match ss with
  | [] => Val (m, i)
  | s :: ss =>
      if i <? rows then
        let* row := load m i in
        let* row := copy_line s cols row in
        let* m := store m i row in
        copy_lines ss (i + 1) rows cols m
      else Val (m, i)
  end.

(** The items follow the headers. *)
Definition StartMenu (headers items : list block) (initial_selection : Z) (u : ScreenRecoveryUI) : outcome ScreenRecoveryUI :=
  let l := log u in
  if (0 <? text_rows l) && (0 <? text_cols l) then
    let* (m, top) := copy_lines headers 0 (text_rows l) (text_cols l) (menu (menus u)) in
    let* (m, i) := copy_lines items top (text_rows l) (text_cols l) m in
    update_screen_locked (set_menus (mkMenu m true top (i - top) initial_selection) u)
  else Val u.

Definition SelectMenu (sel : Z) (u : ScreenRecoveryUI) : outcome (Z * ScreenRecoveryUI) :=
  let m := menus u in
  if show_menu m then
    let s := if sel <? 0 then 0 else sel in
    let s := if menu_items m <=? s then menu_items m - 1 else s in
    let u := set_menus (mkMenu (menu m) (show_menu m) (menu_top m) (menu_items m) s) u in
    let* u := if negb (s =? menu_sel m) then update_screen_locked u else Val u in
    Val (s, u)
  else Val (sel, u).

Definition EndMenu (u : ScreenRecoveryUI) : outcome ScreenRecoveryUI :=
  let m := menus u in
  if show_menu m && (0 <? text_rows (log u)) && (0 <? text_cols (log u)) then
    update_screen_locked (set_menus (mkMenu (menu m) false (menu_top m) (menu_items m) (menu_sel m)) u)
  else Val u.

Definition ShowText (visible : bool) (u : ScreenRecoveryUI) : outcome ScreenRecoveryUI :=
  update_screen_locked (set_visible visible (if visible then true else show_text_ever u) u).
Definition IsTextVisible (u : ScreenRecoveryUI) : bool := show_text u.
Definition WasTextEverVisible (u : ScreenRecoveryUI) : bool := show_text_ever u.
Definition Redraw (u : ScreenRecoveryUI) : outcome ScreenRecoveryUI := update_screen_locked u.
End Screen.

(** ** What the log should show *)

(** The lines of a text on a screen of [cols] columns, the newest first. *)
Definition wrap_char (cols : Z) (lines : list block) (c : Z) : list block :=
  match lines with
  | [] => []
  | cur :: older => if c =? 10 then [] :: lines else if cols <=? zlen cur then [c] :: lines else (cur ++ [c]) :: older
  end.
Definition wrapped (cols : Z) (lines : list block) (s : block) : list block := foldl (wrap_char cols) lines s.

(** The last lines, from the bottom up. *)
Fixpoint log_drawn (n : nat) (lines : list block) (ty y height : Z) : list draw :=
  match n with
  | O => []
  | S n => if y + 2 <? ty then GrText 4 ty (default [] (head lines)) false :: log_drawn n (tail lines) (ty - height) y height else []
  end.

(** ** Refinement *)

Section Log.
Variables (rows cols : Z).
Hypothesis Hrows : 1 <= rows <= kMaxRows.
Hypothesis Hcols : 1 <= cols <= kMaxCols - 1.

(** The row that is [j] above the current one. *)
Definition above (l : text_log) (j : Z) : nat := Z.to_nat ((text_row l - j) mod rows).
Definition line_at (lines : list block) (j : Z) : block := default [] (lines !! Z.to_nat j).

(** The rows from the current one upwards hold the lines; the current one may lack its
    end. *)
Record log_ok (l : text_log) (lines : list block) : Prop := {
  lo_rows : text_rows l = rows;
  lo_cols : text_cols l = cols;
  lo_text : zlen (text l) = kMaxRows /\ Forall (fun r => zlen r = kMaxCols) (text l);
  lo_row : 0 <= text_row l < rows;
  lo_top : (text_top l + rows - 1) mod rows = text_row l /\ 0 <= text_top l <= rows /\ (rows = 1 -> text_top l = 1) /\ (rows <> 1 -> text_top l < rows);
  lo_col : text_col l = zlen (line_at lines 0) /\ text_col l <= cols;
  lo_nul : Forall (Forall (fun c => c <> 0)) lines /\ lines <> [];
  lo_cur : exists junk, text l !! above l 0 = Some (line_at lines 0 ++ junk);
  lo_lines : forall j, 1 <= j < rows -> exists junk, text l !! above l j = Some (line_at lines j ++ 0 :: junk)
}.
(** Its end is there. *)
Definition ended (l : text_log) (lines : list block) : Prop := exists junk, text l !! above l 0 = Some (line_at lines 0 ++ 0 :: junk).

Lemma above_row l lines : log_ok l lines -> above l 0 = Z.to_nat (text_row l).
Proof. intros Hl. unfold above. rewrite Z.sub_0_r, Z.mod_small; [done |]. apply (lo_row _ _ Hl). Qed.

Lemma above_other l lines j : log_ok l lines -> 1 <= j < rows -> above l j <> above l 0.
Proof.
  intros Hl Hj. pose proof (lo_row _ _ Hl). unfold above. rewrite Z.sub_0_r, (Z.mod_small (text_row l)) by done.
  pose proof (Z.mod_pos_bound (text_row l - j) rows ltac:(lia)). intros Heq%Z2Nat.inj; [| lia | lia].
  pose proof (Z.div_mod (text_row l - j) rows ltac:(lia)) as Hd. rewrite Heq in Hd.
  destruct (Z.le_gt_cases 0 ((text_row l - j) / rows)); nia.
Qed.

(** One character of the current row. *)
Lemma put_char_cur l lines c : log_ok l lines -> exists t junk, put_char (text_row l) (text_col l) c (text l) = Val t /\
  zlen t = kMaxRows /\ Forall (fun r => zlen r = kMaxCols) t /\ t !! above l 0 = Some (line_at lines 0 ++ c :: junk) /\
  forall k, k <> above l 0 -> t !! k = text l !! k.
Proof.
  intros Hl. pose proof (above_row l lines Hl) as Ha. destruct Hl as [_ _ [T1 T2] Hr _ [Hc Hle] _ [junk Hcur] _].
  pose proof (Forall_lookup_1 _ _ _ _ T2 Hcur) as Hz. simpl in Hz. rewrite zlen_app, <- Hc in Hz.
  destruct junk as [| x junk]; [change (zlen (@nil Z)) with 0 in Hz; lia |]. unfold put_char.
  rewrite Ha in Hcur. rewrite (proj2 (load_Val _ _ _)) by (split; [lia | exact Hcur]). cbn [mbind outcome_bind].
  rewrite (store_app (line_at lines 0) junk x c) by done. cbn [mbind outcome_bind].
  rewrite (proj2 (store_Val (text l) (<[Z.to_nat (text_row l) := line_at lines 0 ++ c :: junk]> (text l)) _ _)) by (split; [lia | done]).
  do 2 eexists. split; [reflexivity |]. split; [by rewrite zlen_insert |]. split; [| split].
  - apply Forall_insert; [done |]. simpl. rewrite !zlen_app, zlen_cons in *. lia.
  - rewrite Ha, list_lookup_insert_eq by (unfold zlen in T1; lia). done.
  - intros k Hk. rewrite Ha in Hk. by rewrite list_lookup_insert_ne.
Qed.

Lemma line_at_cons s lines j : 1 <= j -> line_at (s :: lines) j = line_at lines (j - 1).
Proof. intros Hj. unfold line_at. replace (Z.to_nat j) with (S (Z.to_nat (j - 1))) by lia. done. Qed.

(** The same rows with another current line. *)
Lemma lines_same l lines cur (t : list block) : log_ok l lines -> (forall k, k <> above l 0 -> t !! k = text l !! k) -> forall j, 1 <= j < rows ->
  exists junk, t !! above l j = Some (line_at (cur :: tail lines) j ++ 0 :: junk).
Proof.
  intros Hl Ht j Hj. rewrite Ht by (by apply (above_other l lines)). destruct (lo_lines _ _ Hl j Hj) as [junk ->].
  exists junk. rewrite line_at_cons by lia. destruct (lo_nul _ _ Hl) as [_ Hne]. destruct lines as [| x lines]; [done |].
  rewrite line_at_cons by lia. done.
Qed.

Lemma next_row_ok l lines : log_ok l lines -> exists l', next_row l = Val l' /\ log_ok l' ([] :: lines).
Proof.
  intros Hl. destruct (put_char_cur l lines 0 Hl) as (t & junk & Hp & T1 & T2 & Hcur & Hother). unfold next_row. rewrite Hp. cbn [mbind outcome_bind].
  eexists. split; [reflexivity |]. pose proof Hl as [Er Ec _ Hr (Htop & Hb & H1 & H2) Hcol [Hnul Hne] _ _].
  rewrite Er, Ec. set (row' := Z.rem (text_row l + 1) rows).
  assert (row' = (text_row l + 1) mod rows) as Erow by (unfold row'; apply Z.rem_mod_nonneg; lia).
  assert (0 <= row' < rows) as Hrow' by (rewrite Erow; apply Z.mod_pos_bound; lia).
  assert (forall j, above (mkLog t cols rows 0 row' (if row' =? text_top l then Z.rem (text_top l + 1) rows else text_top l)) j =
    Z.to_nat ((text_row l + 1 - j) mod rows)) as Habove.
  { intros j. unfold above. cbn. by rewrite Erow, Zminus_mod_idemp_l. }
  split; try done.
  - cbn. destruct (decide (rows = 1)) as [E1 | N1].
    + assert (row' = 0) as -> by lia. rewrite (H1 E1). cbn [Z.eqb]. rewrite E1. split_and!; try done; lia.
    + specialize (H2 N1).
      assert (text_top l = row') as Et.
      { rewrite Erow, <- Htop. rewrite Z.add_mod_idemp_l by lia. replace (text_top l + rows - 1 + 1) with (text_top l + 1 * rows) by lia.
        rewrite Z.mod_add by lia. symmetry. apply Z.mod_small. lia. }
      rewrite Et, Z.eqb_refl, Z.rem_mod_nonneg by lia. pose proof (Z.mod_pos_bound (row' + 1) rows ltac:(lia)). split_and!; try lia.
      rewrite <- Z.add_sub_assoc, Z.add_mod_idemp_l by lia. replace (row' + 1 + (rows - 1)) with (row' + 1 * rows) by lia.
      rewrite Z.mod_add by lia. apply Z.mod_small. lia.
  - cbn. split; [done | lia].
  - split; [by constructor | done].
  - cbn [text]. rewrite Habove, Z.sub_0_r, <- Erow. unfold line_at. cbn [lookup list_lookup Z.to_nat default app].
    destruct (lookup_lt_is_Some_2 t (Z.to_nat row')) as [r Hrr]; [unfold zlen, kMaxRows in *; lia |]. by exists r.
  - intros j Hj. cbn [text]. rewrite Habove, line_at_cons by lia. replace (text_row l + 1 - j) with (text_row l - (j - 1)) by lia. fold (above l (j - 1)).
    destruct (decide (j = 1)) as [-> | Hj1]; [by exists junk |]. rewrite Hother by (apply (above_other l lines); [done | lia]).
    apply (lo_lines _ _ Hl). lia.
Qed.

Lemma print_chars_ok s : forall l lines, log_ok l lines -> Forall (fun c => c <> 0) s ->
  exists l', print_chars s l = Val l' /\ log_ok l' (wrapped cols lines s).
Proof.
  induction s as [| c s IH]; intros l lines Hl Hs; cbn [print_chars]; [by exists l |]. apply Forall_cons in Hs as [Hc Hs].
  unfold wrapped. cbn [foldl]. fold (wrapped cols (wrap_char cols lines c) s).
  assert (exists l1 lines1, (if (c =? 10) || (text_cols l <=? text_col l) then next_row l else Val l) = Val l1 /\ log_ok l1 lines1 /\
    (c =? 10 = true -> lines1 = wrap_char cols lines c) /\
    (c =? 10 = false -> zlen (line_at lines1 0) < cols /\ wrap_char cols lines c = (line_at lines1 0 ++ [c]) :: tail lines1)) as (l1 & lines1 & -> & Hl1 & Hnl & Hch).
  { destruct (lo_nul _ _ Hl) as [_ Hne]. destruct (lo_col _ _ Hl) as [Ec Hle]. rewrite (lo_cols _ _ Hl), Ec. destruct lines as [| cur older]; [done |].
    change (line_at (cur :: older) 0) with cur in *. cbn [wrap_char]. destruct (next_row_ok l (cur :: older) Hl) as (l' & Hn & Hl').
    destruct (c =? 10); cbn [orb]; [exists l', ([] :: cur :: older); split_and!; try done |].
    destruct (Z.leb_spec cols (zlen cur)).
    - exists l', ([] :: cur :: older). split_and!; try done. intros _. change (line_at ([] :: cur :: older) 0) with (@nil Z). split; [zlia | done].
    - exists l, (cur :: older). split_and!; try done. }
  cbn [mbind outcome_bind]. destruct (c =? 10); cbn [negb].
  - cbn [mbind outcome_bind]. rewrite <- Hnl by done. by apply IH.
  - destruct (Hch eq_refl) as [Hlt ->]. clear Hnl Hch. destruct (put_char_cur l1 lines1 c Hl1) as (t & junk & -> & T1 & T2 & Hcur & Hother).
    cbn [mbind outcome_bind]. apply IH; [| done]. pose proof Hl1 as [Er Ecl _ Hr Ht [Hcol _] [Hnul Hne] _ _].
    split; cbn [text text_cols text_rows text_col text_row text_top]; try done.
    + change (line_at ((line_at lines1 0 ++ [c]) :: tail lines1) 0) with (line_at lines1 0 ++ [c]). rewrite zlen_app. change (zlen [c]) with 1. lia.
    + destruct lines1 as [| x lines1]; [done |]. apply Forall_cons in Hnul as [Hx Hnul]. split; [| done]. constructor; [| done].
      apply Forall_app. by split; [| repeat constructor].
    + exists junk. change (line_at ((line_at lines1 0 ++ [c]) :: tail lines1) 0) with (line_at lines1 0 ++ [c]). rewrite <- app_assoc. exact Hcur.
    + intros j Hj. exact (lines_same l1 lines1 _ t Hl1 Hother j Hj).
Qed.

Lemma log_print_ok s l lines : log_ok l lines -> Forall (fun c => c <> 0) s ->
  exists l', log_print s l = Val l' /\ log_ok l' (wrapped cols lines s) /\ ended l' (wrapped cols lines s).
Proof.
  intros Hl Hs. unfold log_print. destruct (print_chars_ok s l lines Hl Hs) as (l1 & -> & Hl1). cbn [mbind outcome_bind].
  set (ls := wrapped cols lines s) in *. clearbody ls.
  destruct (put_char_cur l1 ls 0 Hl1) as (t & junk & -> & T1 & T2 & Hcur & Hother). cbn [mbind outcome_bind].
  eexists. split; [reflexivity |]. pose proof Hl1 as [Er Ec _ Hr Ht Hcol Hnul _ _]. split; [| by exists junk]. split; try done.
  - by exists (0 :: junk).
  - intros j Hj. destruct (lines_same l1 ls (line_at ls 0) t Hl1 Hother j Hj) as [jk Hjk]. exists jk. cbn [text].
    change (above (mkLog t (text_cols l1) (text_rows l1) (text_col l1) (text_row l1) (text_top l1)) j) with (above l1 j). rewrite Hjk.
    destruct Hnul as [_ Hne]. destruct ls as [| x ls]; [done |]. cbn [tail]. by rewrite !line_at_cons by lia.
Qed.

(** The drawing, from the row [j] above the current one. *)
Lemma drop_line (lines : list block) k : default [] (head (drop k lines)) = default [] (lines !! k) /\ tail (drop k lines) = drop (S k) lines.
Proof.
  destruct (lines !! k) as [x |] eqn:E; [by rewrite (drop_S _ _ _ E) |]. apply lookup_ge_None in E.
  by rewrite !drop_ge by lia.
Qed.

Lemma draw_log_ok l lines y height : log_ok l lines -> ended l lines -> forall n j t, Z.of_nat n + j <= rows -> 0 <= j ->
  draw_log n ((text_row l - j) mod rows) t y height l = Val (log_drawn n (drop (Z.to_nat j) lines) t y height).
Proof.
  intros Hl He. induction n as [| n IH]; intros j t Hn Hj; [done |]. cbn [draw_log log_drawn]. destruct (y + 2 <? t); [| done].
  assert (exists junk, text l !! above l j = Some (line_at lines j ++ 0 :: junk)) as [junk Hrow].
  { destruct (decide (j = 0)) as [-> |]; [exact He | apply (lo_lines _ _ Hl); lia]. }
  pose proof (Z.mod_pos_bound (text_row l - j) rows ltac:(lia)) as Hm.
  rewrite (proj2 (load_Val _ _ _)) by (split; [lia | exact Hrow]). cbn [mbind outcome_bind].
  assert (Forall (fun c => c <> 0) (line_at lines j)) as Hnn.
  { unfold line_at. destruct (lines !! Z.to_nat j) as [r |] eqn:E; [| constructor]. destruct (lo_nul _ _ Hl) as [Hnul _].
    exact (Forall_lookup_1 _ _ _ _ Hnul E). }
  rewrite c_str_app by done. cbn [mbind outcome_bind]. rewrite (lo_rows _ _ Hl).
  assert ((if (text_row l - j) mod rows - 1 <? 0 then rows - 1 else (text_row l - j) mod rows - 1) = (text_row l - (j + 1)) mod rows) as ->.
  { replace (text_row l - (j + 1)) with (text_row l - j - 1) by lia. rewrite <- (Zminus_mod_idemp_l (text_row l - j) 1 rows).
    destruct (Z.ltb_spec ((text_row l - j) mod rows - 1) 0).
    - replace ((text_row l - j) mod rows - 1) with (rows - 1 + (-1) * rows) by lia. rewrite Z.mod_add by lia. symmetry. apply Z.mod_small. lia.
    - symmetry. apply Z.mod_small. lia. }
  rewrite IH by lia. cbn [mbind outcome_bind]. replace (Z.to_nat (j + 1)) with (S (Z.to_nat j)) by lia.
  destruct (drop_line lines (Z.to_nat j)) as [-> ->]. done.
Qed.
End Log.

(** ** Printing *)

Section Printing.
Context (F : float_ops) (gr_fb_width gr_fb_height : Z).

Fixpoint prints (msgs : list block) (u : ScreenRecoveryUI F) : outcome (ScreenRecoveryUI F) :=
  match msgs with [] => Val u | m :: msgs => let* u := Print F gr_fb_width gr_fb_height m u in prints msgs u end.

(** A log as [Init] leaves it, in memory that is zero. *)
Definition fresh_log (rows cols : Z) (l : text_log) : Prop :=
  text_rows l = rows /\ text_cols l = cols /\ text_col l = 0 /\ text_row l = 0 /\ text_top l = 1 /\
  zlen (text l) = kMaxRows /\ Forall (fun r => zlen r = kMaxCols /\ head r = Some 0) (text l).

Lemma fresh_ok rows cols l : 1 <= rows <= kMaxRows -> 1 <= cols <= kMaxCols - 1 -> fresh_log rows cols l ->
  log_ok rows cols l [[]].
Proof.
  intros Hrows Hcols (Er & Ec & El & Erow & Et & Hn & Hf).
  assert (forall k, (k < 96)%nat -> exists junk, text l !! k = Some (0 :: junk)) as Hrow.
  { intros k Hk. destruct (lookup_lt_is_Some_2 (text l) k) as [r Hr]; [unfold zlen, kMaxRows in Hn; lia |].
    destruct (Forall_lookup_1 _ _ _ _ Hf Hr) as [_ Hh]. destruct r as [| x r]; [done |]. injection Hh as ->. by exists r. }
  assert (forall j, (above rows l j < 96)%nat) as Hab.
  { intros j. unfold above. pose proof (Z.mod_pos_bound (text_row l - j) rows ltac:(lia)). unfold kMaxRows in Hrows. lia. }
  split; rewrite ?Er, ?Ec, ?El, ?Erow, ?Et; try done; try lia.
  - split; [done |]. eapply Forall_impl; [exact Hf |]. by intros r [].
  - replace (1 + rows - 1) with (0 + 1 * rows) by lia. rewrite Z.mod_add, Z.mod_small by lia. split_and!; [done | lia ..].
  - split; [done | lia].
  - by repeat constructor.
  - destruct (Hrow _ (Hab 0)) as [junk Hj]. by exists (0 :: junk).
  - intros j Hj. destruct (Hrow _ (Hab j)) as [junk ->]. exists junk. unfold line_at. rewrite lookup_ge_None_2 by (simpl; lia). done.
Qed.

(** [Init] makes such a log, with the rows and columns of the frame buffer that fit. *)
Lemma Init_fresh R cw ch (u u' : ScreenRecoveryUI F) : 0 < cw <= gr_fb_width -> 0 < ch <= gr_fb_height ->
  zlen (text (log F u)) = kMaxRows -> Forall (fun r => zlen r = kMaxCols /\ head r = Some 0) (text (log F u)) ->
  Init F gr_fb_width gr_fb_height R (cw, ch) u = Val u' ->
  exists rows cols, rows = Z.min (gr_fb_height / ch) kMaxRows /\ cols = Z.min (gr_fb_width / cw) (kMaxCols - 1) /\
    1 <= rows <= kMaxRows /\ 1 <= cols <= kMaxCols - 1 /\ fresh_log rows cols (log F u').
Proof.
  intros Hw Hh Hn Ht. unfold Init. rewrite !(proj2 (Z.eqb_neq _ 0)) by lia. cbn [orb]. rewrite !Z.quot_div_nonneg by lia.
  destruct (res_multi R _) as [installation frames]. intros Hi. apply bind_Val_inv in Hi as (first & _ & [= <-]). cbn.
  pose proof (Z.div_str_pos gr_fb_height ch ltac:(lia)). pose proof (Z.div_str_pos gr_fb_width cw ltac:(lia)).
  eexists _, _. split_and!; [reflexivity | reflexivity | unfold kMaxRows, kMaxCols in *; lia .. |].
  unfold fresh_log. cbn. split_and!; try done; case_match; unfold kMaxRows, kMaxCols in *; lia.
Qed.

(** The screen shows the log. *)
Definition shows_log (rows cols : Z) (lines : list block) (u : ScreenRecoveryUI F) : Prop :=
  log_ok rows cols (log F u) lines /\ show_text F u = true /\ show_menu (menus F u) = false.

Definition log_screen (rows height : Z) (lines : list block) : list draw :=
  [GrColor 0 0 0 255; GrClear; SetColor LOG] ++ log_drawn (Z.to_nat rows) lines (gr_fb_height - height) 0 height ++ [GrFlip].

Lemma Print_ok rows cols lines msg u : 1 <= rows <= kMaxRows -> 1 <= cols <= kMaxCols - 1 -> shows_log rows cols lines u ->
  Forall (fun c => c <> 0) msg ->
  exists u', Print F gr_fb_width gr_fb_height msg u = Val u' /\ char_height F u' = char_height F u /\
    shows_log rows cols (wrapped cols lines (take 255 msg)) u' /\
    drawn F u' = drawn F u ++ log_screen rows (char_height F u) (wrapped cols lines (take 255 msg)).
Proof.
  intros Hrows Hcols (Hl & Hs & Hm) Hmsg. unfold Print. rewrite (lo_rows _ _ _ _ Hl), (lo_cols _ _ _ _ Hl), !(proj2 (Z.ltb_lt 0 _)) by lia. cbn [andb].
  destruct (log_print_ok rows cols Hrows Hcols (take 255 msg) (log F u) lines Hl (Forall_take _ _ _ Hmsg)) as (l & -> & Hl' & He).
  cbn [mbind outcome_bind]. set (ls := wrapped cols lines (take 255 msg)) in *. clearbody ls.
  unfold update_screen_locked, draw_screen_locked. cbn [show_text set_log menus log char_height]. rewrite Hs, Hm. cbn [negb mbind outcome_bind].
  rewrite (lo_rows _ _ _ _ Hl'). rewrite (proj2 (Z.eqb_neq rows 0)) by lia. destruct (lo_top _ _ _ _ Hl') as (Htop & Hb & _).
  rewrite Z.rem_mod_nonneg by lia. rewrite Htop.
  pose proof (draw_log_ok rows cols Hrows l ls 0 (char_height F u) Hl' He (Z.to_nat rows) 0 (gr_fb_height - char_height F u) ltac:(lia) ltac:(lia)) as Hd.
  rewrite Z.sub_0_r, (Z.mod_small (text_row l)) in Hd by apply (lo_row _ _ _ _ Hl'). rewrite Hd. cbn [mbind outcome_bind].
  eexists. split; [reflexivity |]. split; [done |]. split; [by split |]. cbn. rewrite <- !app_assoc. done.
Qed.

Lemma prints_ok rows cols msgs : 1 <= rows <= kMaxRows -> 1 <= cols <= kMaxCols - 1 -> Forall (Forall (fun c => c <> 0)) msgs ->
  forall lines u, shows_log rows cols lines u ->
  exists u', prints msgs u = Val u' /\ char_height F u' = char_height F u /\
    shows_log rows cols (wrapped cols lines (concat (take 255 <$> msgs))) u'.
Proof.
  intros Hrows Hcols. induction 1 as [| m msgs Hm _ IH]; intros lines u Hu; cbn [prints]; [by exists u |].
  destruct (Print_ok rows cols lines m u Hrows Hcols Hu Hm) as (u1 & -> & Hc1 & Hu1 & _). cbn [mbind outcome_bind].
  destruct (IH _ u1 Hu1) as (u2 & -> & Hc2 & Hu2). exists u2. split; [done |]. split; [congruence |].
  rewrite fmap_cons. cbn [concat]. unfold wrapped in *. by rewrite foldl_app.
Qed.
End Printing.

(** ** Properties *)

(** C27: the text on the screen is the end of what was printed: after any messages, a
    further one draws, from the bottom up and as far as there is room, exactly the last
    lines of all messages (each cut to 255 bytes) wrapped at the width of the screen, and
    no access leaves the ring of rows. *)
Theorem screen_shows_log (F : float_ops) (gr_fb_width gr_fb_height rows cols : Z) (msgs : list block) (msg : block) (u : ScreenRecoveryUI F) :
  1 <= rows <= kMaxRows -> 1 <= cols <= kMaxCols - 1 -> fresh_log rows cols (log F u) -> show_text F u = true ->
  show_menu (menus F u) = false -> Forall (Forall (fun c => c <> 0)) (msg :: msgs) ->
  exists u1 u2, prints F gr_fb_width gr_fb_height msgs u = Val u1 /\ Print F gr_fb_width gr_fb_height msg u1 = Val u2 /\
    drawn F u2 = drawn F u1 ++ log_screen gr_fb_height rows (char_height F u) (wrapped cols [[]] (concat (take 255 <$> msgs ++ [msg]))).
Proof.
  intros Hrows Hcols Hf Hs Hm [Hmsg Hmsgs]%Forall_cons.
  assert (shows_log F rows cols [[]] u) as Hu by (split_and!; [by apply fresh_ok | done | done]).
  destruct (prints_ok F gr_fb_width gr_fb_height rows cols msgs Hrows Hcols Hmsgs [[]] u Hu) as (u1 & Hp & Hc & Hu1).
  destruct (Print_ok F gr_fb_width gr_fb_height rows cols _ msg u1 Hrows Hcols Hu1 Hmsg) as (u2 & Hp2 & _ & _ & Hd).
  exists u1, u2. split_and!; [done | done |]. rewrite Hd, Hc. unfold wrapped. rewrite fmap_app, concat_app, foldl_app.
  cbn [fmap list_fmap concat]. by rewrite app_nil_r.
Qed.

(** Within one scope the progress bar does not move back. *)
Lemma progress_forward (F : float_ops) w h (u u' : ScreenRecoveryUI F) : (forall x, f_lt F x x = false) ->
  (forall x y, f_lt F x y = true -> f_lt F y x = false) ->
  (exists fraction, SetProgress F w h fraction u = Val u') \/ (exists now, progress_step F w h now u = Val u') ->
  f_lt F (progress F (bar F u')) (progress F (bar F u)) = false.
Proof.
  intros Hirr Hasym.
  assert (forall v v', update_progress_locked F w h v = Val v' -> bar F v' = bar F v) as Hup.
  { assert (forall v v', draw_progress_locked F w h v = Val v' -> bar F v' = bar F v) as Hdp.
    { unfold draw_progress_locked. intros v v' Hv. destruct (bool_decide _); [by injection Hv as <- |].
      apply bind_Val_inv in Hv as (v1 & H1 & Hv). assert (bar F v1 = bar F v) as E1.
      { destruct (is_installing _); [apply bind_Val_inv in H1 as (s & _ & H1) |]; by injection H1 as <-. }
      destruct (bool_decide _); [by injection Hv as <- |]. apply bind_Val_inv in Hv as (s & _ & Hv). cbv zeta in Hv.
      destruct (bool_decide _); injection Hv as <-; done. }
    assert (forall v v', draw_screen_locked F w h v = Val v' -> bar F v' = bar F v) as Hds.
    { unfold draw_screen_locked. intros v v' Hv. destruct (negb (show_text F v)).
      - apply bind_Val_inv in Hv as (v1 & H1 & Hv). apply Hdp in Hv. rewrite Hv. unfold draw_background_locked in H1.
        destruct (bool_decide _); [by injection H1 as <- |]. apply bind_Val_inv in H1 as (s1 & _ & H1). apply bind_Val_inv in H1 as (s2 & _ & H1).
        apply bind_Val_inv in H1 as (s3 & _ & H1). by injection H1 as <-.
      - cbv zeta in Hv. apply bind_Val_inv in Hv as ([d y] & _ & Hv). destruct (text_rows _ =? 0); [done |].
        apply bind_Val_inv in Hv as (ls & _ & Hv). by injection Hv as <-. }
    unfold update_progress_locked. intros v v' Hv. apply bind_Val_inv in Hv as (v1 & H1 & Hv). injection Hv as <-. cbn.
    destruct (_ || _); [apply bind_Val_inv in H1 as (v2 & H2 & H1); injection H1 as <-; by apply Hds in H2 | by apply Hdp in H1]. }
  intros [[fraction Hr] | [now Hr]].
  - unfold SetProgress in Hr. cbv zeta in Hr. destruct (bool_decide _ && _) eqn:Eb; [| by injection Hr as <-].
    apply andb_true_iff in Eb as [_ Elt]. destruct (negb _); [apply Hup in Hr; rewrite Hr; by apply Hasym | by injection Hr as <-].
  - unfold progress_step in Hr. destruct (is_installing _ && _ && _); cbv zeta in Hr;
      (destruct (bool_decide _ && _); [destruct (f_lt F (progress F (bar F _)) _) eqn:Elt; [apply Hup in Hr; rewrite Hr; by apply Hasym |] |]);
      try (by injection Hr as <-); apply Hup in Hr; by rewrite Hr.
Qed.

(** ** A small screen *)

Definition int_floats : float_ops := mkFloats Z id id id Z.add Z.sub Z.mul Z.div Z.ltb.
Definition demo_screen : ScreenRecoveryUI int_floats :=
  mkScreen int_floats NONE 0 None false (mkBar int_floats EMPTY 0 0 0 0 0) (mkImages [] [] None (-1) None None) false
    (mkLog (replicate 96 (replicate 96 0)) 4 3 0 0 1) true true (mkMenu (replicate 96 (replicate 96 0)) false 0 0 0) 0 0 10 10 [].

(** Four columns and three rows of ten pixels: the first line is gone. *)
Lemma screen_shows_log_witness : exists u1 u2,
  Print int_floats 40 35 (str "x") u1 = Val u2 /\
  drawn int_floats u2 = drawn int_floats u1 ++
    [GrColor 0 0 0 255; GrClear; GrColor 249 194 0 255; GrText 4 25 (str "x") false; GrText 4 15 (str "fg") false; GrText 4 5 (str "bcde") false; GrFlip].
Proof.
  destruct (screen_shows_log int_floats 40 35 3 4 [str "a" ++ [10] ++ str "bcdefg"; [10]] (str "x") demo_screen) as (u1 & u2 & _ & Hp & Hd).
  - unfold kMaxRows. lia.
  - unfold kMaxCols. lia.
  - repeat split; try reflexivity. apply Forall_replicate. split; reflexivity.
  - reflexivity.
  - reflexivity.
  - apply (bool_decide_unpack _). vm_compute. exact I.
  - exists u1, u2. split; [exact Hp | exact Hd].
Defined.

(** ** Departures *)

(** A missing animation is reported with -1 frames and no images, and [Init] reads its
    first frame. *)
Example missing_animation : Init int_floats 100 100 (mkResources (fun _ => None) (fun _ _ => None) (fun _ => (None, -1))) (10, 10) demo_screen = Trap NullDeref.
Proof. reflexivity. Qed.

(** A locale that is written from right to left is never forgotten. *)
Example direction_kept :
  rtl_locale int_floats (SetLocale int_floats (Some (str "en_US")) (SetLocale int_floats (Some (str "ar_EG")) demo_screen)) = true.
Proof. by vm_compute. Qed.

(** In a menu without items the index that is said to be in the range is -1. *)
Example empty_menu_selection :
  (let* u := StartMenu int_floats 100 100 [str "h"] [] 0 demo_screen in let* (sel, _) := SelectMenu int_floats 100 100 0 u in Val sel) = Val (-1).
Proof. by vm_compute. Qed.
