(* ===== verification/MenuProps.v ===== *)
(** * The menu on the screen (screen_ui.cpp) and the menu of the program (recovery.cpp)

    Recovery.v follows a menu by its number of items.  Here the menu that Screen.v keeps
    in its rows and draws is shown to be that one: the same selections, and on the screen
    the lines of the menu with the selected one highlighted, above the log. *)

From stdpp Require Import base numbers list.
From stdpp Require Import strings.
From S2P Require Import Prelude CString Recovery Screen.

(** ** What the menu should show *)

(** A line is cut one column before the edge. *)
Definition menu_text (cols : Z) (s : block) : block := take (Z.to_nat (cols - 1)) s.

(** The lines that fit; the headers come first. *)
Definition menu_lines (rows cols : Z) (headers items : list block) : list block :=
  menu_text cols <$> take (Z.to_nat rows) (headers ++ items).

(** A line [i] of the menu at [y]. *)
Definition line_drawn (width height top sel i y : Z) (s : block) : list draw :=
  let text bold := if decide (s = []) then [] else [GrText 4 y s bold] in
  (if i =? top then [SetColor MENU] else []) ++
  (if i =? top + sel then
     [SetColor MENU_SEL_BG; GrFill 0 (y - 2) width (y + height + 2); SetColor MENU_SEL_FG] ++ text true ++ [SetColor MENU]
   else text (i <? top)).

Definition menu_drawn (width height top sel : Z) (lines : list block) : list draw :=
  concat (imap (fun i s => line_drawn width height top sel (Z.of_nat i) (Z.of_nat i * (height + 4)) s) lines).

(** The whole screen. *)
Definition menu_screen (width fb_height height rows top sel : Z) (lines log_lines : list block) : list draw :=
  let y := zlen lines * (height + 4) in
  [GrColor 0 0 0 255; GrClear; SetColor HEADER] ++ menu_drawn width height top sel lines ++
  [SetColor MENU; GrFill 0 (y + 4) width (y + 4 + 2); SetColor LOG] ++
  log_drawn (Z.to_nat rows) log_lines (fb_height - height) (y + 8) height ++ [GrFlip].

(** ** Copying the lines *)

(** The rows of an array hold the lines. *)
Definition shows (m lines : list block) : Prop := forall k s, lines !! k = Some s -> exists junk, m !! k = Some (s ++ 0 :: junk).
Definition grid (m : list block) : Prop := zlen m = kMaxRows /\ Forall (fun r => zlen r = kMaxCols) m.

Lemma copy_line_ok s cols row : 1 <= cols <= kMaxCols - 1 -> zlen row = kMaxCols ->
  exists junk, copy_line s cols row = Val (menu_text cols s ++ 0 :: junk) /\ zlen (menu_text cols s ++ 0 :: junk) = kMaxCols.
Proof.
  intros Hc Hr. unfold copy_line, menu_text. set (n := Z.to_nat (cols - 1)).
  assert (zlen (take n (s ++ replicate n 0)) = cols - 1) as Hl.
  { unfold zlen. rewrite length_take, length_app, length_replicate. lia. }
  assert (exists a x b, row = [] ++ a ++ x :: b /\ zlen a = cols - 1) as (a & x & b & -> & Ha).
  { destruct (load_some row (cols - 1)) as [x [_ Hx]%load_Val]; [lia |].
    exists (take n row), x, (drop (S n) row). split; [by rewrite <- (take_drop_middle row n x Hx) at 1 |].
    unfold zlen in *. rewrite length_take. unfold kMaxCols in *. lia. }
  rewrite store_bytes_app by (done || congruence). cbn [mbind outcome_bind app]. rewrite store_app by done.
  rewrite take_app, <- app_assoc.
  rewrite !app_nil_l in Hr.
  assert (zlen ((take n s ++ take (n - length s) (replicate n 0)) ++ 0 :: b) = kMaxCols) as Hz.
  { rewrite take_app in Hl. rewrite zlen_app, Hl, <- Hr, zlen_app, Ha, !zlen_cons. done. }
  rewrite <- app_assoc in Hz. rewrite take_replicate in *. destruct ((n - length s) `min` n)%nat as [| k]; cbn [replicate app] in *; eauto.
Qed.

Lemma insert_shows (m pre : list block) row s : grid m -> zlen pre < kMaxRows -> shows m pre -> zlen row = kMaxCols ->
  (exists junk, row = s ++ 0 :: junk) ->
  exists m', store m (zlen pre) row = Val m' /\ grid m' /\ shows m' (pre ++ [s]).
Proof.
  intros [Hm Hf] Hp Hs Hr [junk ->]. pose proof (zlen_nonneg pre). eexists. split; [apply store_Val; split; [lia | done] |]. split.
  - split; [by rewrite zlen_insert |]. by apply Forall_insert.
  - unfold zlen. rewrite Nat2Z.id. intros k t [Hk | [Hk Ht]]%lookup_app_Some.
    + rewrite list_lookup_insert_ne by (apply lookup_lt_Some in Hk; lia). by apply Hs.
    + destruct (k - length pre)%nat as [| ?] eqn:Ek; [| done]. injection Ht as <-. replace k with (length pre) by lia.
      rewrite list_lookup_insert_eq by (unfold zlen in *; lia). eauto.
Qed.

Lemma copy_lines_ok rows cols ss : rows <= kMaxRows -> 1 <= cols <= kMaxCols - 1 -> forall pre m,
  grid m -> shows m pre -> zlen pre <= rows ->
  let lines := pre ++ (menu_text cols <$> take (Z.to_nat (rows - zlen pre)) ss) in
  exists m', copy_lines ss (zlen pre) rows cols m = Val (m', zlen lines) /\ grid m' /\ shows m' lines.
Proof.
  intros Hrows Hc. induction ss as [| s ss IH]; intros pre m Hg Hs Hp; cbn [copy_lines]; cbv zeta.
  { rewrite take_nil, fmap_nil, app_nil_r. eauto. }
  destruct (Z.ltb_spec (zlen pre) rows) as [Hlt | Hge].
  - destruct (load_some m (zlen pre)) as [row Hrow]; [destruct Hg as [-> _]; pose proof (zlen_nonneg pre); lia |].
    rewrite Hrow. cbn [mbind outcome_bind]. apply load_Val in Hrow as [_ Hrow].
    destruct (copy_line_ok s cols row Hc) as (junk & -> & Hl); [exact (Forall_lookup_1 _ _ _ _ (proj2 Hg) Hrow) |]. cbn [mbind outcome_bind].
    destruct (insert_shows m pre (menu_text cols s ++ 0 :: junk) (menu_text cols s)) as (m1 & -> & Hg1 & Hs1); [done | lia | done | done | eauto |].
    cbn [mbind outcome_bind]. destruct (IH (pre ++ [menu_text cols s]) m1 Hg1 Hs1) as (m2 & Hm2 & Hg2 & Hs2); [rewrite zlen_app; change (zlen [_]) with 1; lia |].
    rewrite zlen_app in Hm2, Hs2. change (zlen [menu_text cols s]) with 1 in *. rewrite <- app_assoc in Hm2, Hs2.
    replace (Z.to_nat (rows - zlen pre)) with (S (Z.to_nat (rows - (zlen pre + 1)))) by lia. cbn [take]. rewrite fmap_cons. eauto.
  - replace (Z.to_nat (rows - zlen pre)) with 0%nat by lia. rewrite take_0, fmap_nil, app_nil_r. eauto.
Qed.

(** ** Drawing the lines *)

Lemma draw_menu_ok width height m lines : shows (menu m) lines -> Forall (Forall (fun c => c <> 0)) lines ->
  forall n k, (k + n = length lines)%nat ->
  draw_menu width n (Z.of_nat k) (Z.of_nat k * (height + 4)) height m =
  Val (concat (imap (fun i s => line_drawn width height (menu_top m) (menu_sel m) (Z.of_nat (k + i)) (Z.of_nat (k + i) * (height + 4)) s) (drop k lines)),
       zlen lines * (height + 4)).
Proof.
  intros Hs Hn. induction n as [| n IH]; intros k Hk; cbn [draw_menu].
  { rewrite drop_ge by lia. unfold zlen. by replace k with (length lines) by lia. }
  destruct (lookup_lt_is_Some_2 lines k) as [s Hks]; [lia |]. destruct (Hs k s Hks) as [junk Hrow].
  rewrite (proj2 (load_Val (menu m) (Z.of_nat k) (s ++ 0 :: junk))) by (rewrite Nat2Z.id; split; [lia | done]). cbn [mbind outcome_bind].
  rewrite c_str_app by exact (Forall_lookup_1 _ _ _ _ Hn Hks). cbn [mbind outcome_bind].
  replace (Z.of_nat k + 1) with (Z.of_nat (S k)) by lia.
  replace (Z.of_nat k * (height + 4) + height + 4) with (Z.of_nat (S k) * (height + 4)) by lia.
  rewrite IH by lia. cbn [mbind outcome_bind]. rewrite (drop_S _ _ _ Hks), imap_cons. cbn [concat]. rewrite Nat.add_0_r.
  f_equal. f_equal. unfold line_drawn. rewrite <- app_assoc. f_equal. f_equal; [by destruct s |].
  f_equal. apply imap_ext. intros i x _. cbn. by rewrite <- plus_n_Sm.
Qed.

Lemma menu_lines_plain rows cols headers items : Forall (Forall (fun c => c <> 0)) (headers ++ items) ->
  Forall (Forall (fun c => c <> 0)) (menu_lines rows cols headers items).
Proof.
  intros Hn. unfold menu_lines. apply Forall_fmap, Forall_take. eapply Forall_impl; [exact Hn |]. intros s Hs. by apply Forall_take.
Qed.

(** ** The screen with a menu *)

Section Menu.
Context (F : float_ops) (width fb_height rows cols : Z).
Hypothesis Hrows : 1 <= rows <= kMaxRows.
Hypothesis Hcols : 1 <= cols <= kMaxCols - 1.

(** The text is visible, with the log and the menu; the last drawing shows both. *)
Record has_menu (log_lines lines : list block) (top : Z) (u : ScreenRecoveryUI F) : Prop := {
  hm_log : log_ok rows cols (log F u) log_lines;
  hm_ended : ended rows (log F u) log_lines;
  hm_text : show_text F u = true;
  hm_menu : show_menu (menus F u) = true;
  hm_top : menu_top (menus F u) = top;
  hm_items : menu_items (menus F u) = zlen lines - top;
  hm_rows : shows (menu (menus F u)) lines
}.

Definition displays (log_lines lines : list block) (top sel height : Z) (u : ScreenRecoveryUI F) : Prop :=
  menu_sel (menus F u) = sel /\ char_height F u = height /\
  exists d, drawn F u = d ++ menu_screen width fb_height height rows top sel lines log_lines.

Lemma update_menu_ok log_lines lines top u : has_menu log_lines lines top u -> Forall (Forall (fun c => c <> 0)) lines ->
  exists u', update_screen_locked F width fb_height u = Val u' /\ has_menu log_lines lines top u' /\
    displays log_lines lines top (menu_sel (menus F u)) (char_height F u) u'.
Proof.
  intros [Hl He Ht Hm Htop Hi Hr] Hn. unfold update_screen_locked, draw_screen_locked. rewrite Ht, Hm. cbn [negb].
  pose proof (zlen_nonneg lines). replace (Z.to_nat (menu_top (menus F u) + menu_items (menus F u))) with (length lines) by (unfold zlen in *; lia).
  pose proof (draw_menu_ok width (char_height F u) (menus F u) lines Hr Hn (length lines) 0%nat ltac:(lia)) as Hd.
  change (Z.of_nat 0) with 0 in Hd. rewrite Z.mul_0_l in Hd. cbn [drop] in Hd. rewrite Hd. cbn [mbind outcome_bind]. rewrite (lo_rows _ _ _ _ Hl), (proj2 (Z.eqb_neq rows 0)) by lia.
  destruct (lo_top _ _ _ _ Hl) as (Hmod & Hb & _). rewrite Z.rem_mod_nonneg by lia. rewrite Hmod.
  pose proof (draw_log_ok rows cols Hrows _ _ (zlen lines * (char_height F u + 4) + 8) (char_height F u) Hl He (Z.to_nat rows) 0 (fb_height - char_height F u) ltac:(lia) ltac:(lia)) as Hg.
  rewrite Z.sub_0_r, (Z.mod_small (text_row _)) in Hg by apply (lo_row _ _ _ _ Hl). rewrite Hg. cbn [mbind outcome_bind drop Z.to_nat].
  eexists. split; [reflexivity |]. split; [by split |]. split_and!; [done | done |]. exists (drawn F u). cbn. unfold menu_screen, menu_drawn.
  rewrite Htop. cbn. rewrite <- !app_assoc. rewrite !drop_0. f_equal. cbn. by rewrite <- !app_assoc.
Qed.

(** Selections in sequence, with what they return. *)
Fixpoint selects (sels : list Z) (u : ScreenRecoveryUI F) : outcome (list Z * ScreenRecoveryUI F) :=
  match sels with
  | [] => Val ([], u)
  | sel :: sels =>
      let* (r, u) := SelectMenu F width fb_height sel u in
      let* (rs, u) := selects sels u in
      Val (r :: rs, u)
  end.

Lemma SelectMenu_ok log_lines lines top sel old height u : has_menu log_lines lines top u -> Forall (Forall (fun c => c <> 0)) lines ->
  displays log_lines lines top old height u ->
  let r := Recovery.SelectMenu (Some (zlen lines - top)) sel in
  exists u', SelectMenu F width fb_height sel u = Val (r, u') /\ has_menu log_lines lines top u' /\ displays log_lines lines top r height u'.
Proof.
  intros Hu Hn (Hsel & Hh & d & Hd). cbv zeta. pose proof Hu as [Hl He Ht Hm Htop Hi Hr]. unfold SelectMenu. rewrite Hm, Hi. cbn [Recovery.SelectMenu].
  set (r := if _ <=? _ then _ else _). set (u1 := set_menus F _ u).
  assert (has_menu log_lines lines top u1) as Hu1 by (split; cbn; (assumption || lia)).
  destruct (Z.eqb_spec r (menu_sel (menus F u))) as [E | Hne]; cbn [negb mbind outcome_bind].
  - exists u1. split; [done |]. split; [done |]. split_and!; [done | done |]. exists d. subst u1. cbn. by rewrite Hd, E, Hsel.
  - destruct (update_menu_ok _ _ _ _ Hu1 Hn) as (u2 & -> & Hu2 & Hd2). exists u2. split; [done |]. split; [done |]. by rewrite <- Hh.
Qed.

Lemma selects_ok log_lines lines top height sels : Forall (Forall (fun c => c <> 0)) lines -> forall old u,
  has_menu log_lines lines top u -> displays log_lines lines top old height u ->
  let rs := Recovery.SelectMenu (Some (zlen lines - top)) <$> sels in
  exists u', selects sels u = Val (rs, u') /\ displays log_lines lines top (default old (last rs)) height u'.
Proof.
  intros Hn. induction sels as [| sel sels IH]; intros old u Hu Hd; cbn [selects]; cbv zeta; [by exists u |].
  destruct (SelectMenu_ok _ _ _ sel _ _ _ Hu Hn Hd) as (u1 & -> & Hu1 & Hd1). cbn [mbind outcome_bind].
  destruct (IH _ u1 Hu1 Hd1) as (u2 & -> & Hd2). exists u2. split; [done |]. rewrite fmap_cons, last_cons.
  by destruct (last (Recovery.SelectMenu _ <$> sels)).
Qed.

Lemma StartMenu_ok log_lines headers items sel u : log_ok rows cols (log F u) log_lines -> ended rows (log F u) log_lines ->
  show_text F u = true -> grid (menu (menus F u)) -> Forall (Forall (fun c => c <> 0)) (headers ++ items) ->
  let lines := menu_lines rows cols headers items in
  let top := Z.min (zlen headers) rows in
  exists u', StartMenu F width fb_height headers items sel u = Val u' /\ has_menu log_lines lines top u' /\
    displays log_lines lines top sel (char_height F u) u'.
Proof.
  intros Hl He Ht Hg Hn lines top. unfold StartMenu. rewrite (lo_rows _ _ _ _ Hl), (lo_cols _ _ _ _ Hl), !(proj2 (Z.ltb_lt 0 _)) by lia. cbn [andb].
  destruct (copy_lines_ok rows cols headers (proj2 Hrows) Hcols [] (menu (menus F u)) Hg) as (m1 & H1 & Hg1 & Hs1); [by intros ? ? | change (zlen []) with 0; lia |].
  cbv zeta in H1, Hs1. rewrite app_nil_l in H1, Hs1. change (zlen []) with 0 in *. rewrite Z.sub_0_r in H1, Hs1. rewrite H1. cbn [mbind outcome_bind].
  set (hs := menu_text cols <$> take (Z.to_nat rows) headers) in *.
  assert (zlen hs = top) as Htop by (unfold hs, top, zlen; rewrite length_fmap, length_take; lia).
  destruct (copy_lines_ok rows cols items (proj2 Hrows) Hcols hs m1 Hg1 Hs1) as (m2 & -> & Hg2 & Hs2); [lia |]. cbn [mbind outcome_bind].
  assert (hs ++ (menu_text cols <$> take (Z.to_nat (rows - zlen hs)) items) = lines) as El.
  { unfold lines, menu_lines. rewrite take_app, fmap_app. fold hs. f_equal. rewrite Htop. unfold top, zlen. f_equal.
    destruct (decide (Z.of_nat (length headers) <= rows)); [f_equal; lia |].
    replace (Z.to_nat (rows - _)) with 0%nat by lia. by replace (Z.to_nat rows - _)%nat with 0%nat by lia. }
  rewrite El in *. set (u1 := set_menus F _ u).
  assert (has_menu log_lines lines top u1) as Hu1 by (split; cbn; try assumption; lia).
  apply (update_menu_ok _ _ _ _ Hu1). by apply menu_lines_plain.
Qed.
End Menu.

(** ** Properties *)


(** Two headers and three items on a screen of four rows: two items fit, and the selection
    stays on them. *)
Definition demo_user : user := mkUser (fun _ => None) (fun _ => []) (fun _ => None) (fun _ _ => false) id 4 6.
Definition menu_demo : ScreenRecoveryUI int_floats :=
  mkScreen int_floats NONE 0 None false (mkBar int_floats EMPTY 0 0 0 0 0) (mkImages [] [] None (-1) None None) false
    (mkLog (replicate 96 (replicate 96 0)) 6 4 0 0 1) true true (mkMenu (replicate 96 (replicate 96 0)) false 0 0 0) 0 0 10 10 [].

