(* ===== verification/ImgDiff.v ===== *)
(** * applypatch/imgdiff.c: making patches for images and archives

    The program splits the source and the target into chunks, compares them chunk by
    chunk and writes the patch that [ApplyImagePatch] applies.  A pointer to data is an
    offset in the copy of the file or a block of its own.  Memory from malloc holds
    [junk]; the suffix sort of bsdiff.c, which it only guides, is a parameter; so are zlib
    and the files. *)

From stdpp Require Import base numbers list sorting.
From stdpp Require Import strings.
From S2P Require Import Prelude CString Bits Bspatch ImgPatch.

Definition GZIP_HEADER_LEN : Z := 10.
Definition GZIP_FOOTER_LEN : Z := 8.
Definition BUFFER_SIZE : Z := 32768.
Definition Z_DEFLATED : Z := 8.
Definition Z_DEFAULT_STRATEGY : Z := 0.

(** [data]: a pointer into the copy of the file, or allocated. *)
Inductive pointer := InImage (offset : Z) | Own (b : block).

(** [deflate_data] always points into the copy of the file. *)
Record ImageChunk := mkImageChunk {
  ic_type : Z;
  ic_start : Z;
  ic_len : Z;
  ic_data : pointer;
  ic_source_start : Z;
  ic_source_len : Z;
  ic_I : option (list Z);
  ic_deflate_len : Z;
  ic_deflate_data : Z;
  ic_filename : option block;
  ic_level : Z;
  ic_method : Z;
  ic_windowBits : Z;
  ic_memLevel : Z;
  ic_strategy : Z;
  ic_source_uncompressed_len : Z
}.

Definition set_chunk (type start len : Z) (data : pointer) (c : ImageChunk) : ImageChunk :=
  mkImageChunk type start len data (ic_source_start c) (ic_source_len c) (ic_I c) (ic_deflate_len c) (ic_deflate_data c) (ic_filename c)
    (ic_level c) (ic_method c) (ic_windowBits c) (ic_memLevel c) (ic_strategy c) (ic_source_uncompressed_len c).
Definition set_I (I : option (list Z)) (c : ImageChunk) : ImageChunk :=
  mkImageChunk (ic_type c) (ic_start c) (ic_len c) (ic_data c) (ic_source_start c) (ic_source_len c) I (ic_deflate_len c) (ic_deflate_data c)
    (ic_filename c) (ic_level c) (ic_method c) (ic_windowBits c) (ic_memLevel c) (ic_strategy c) (ic_source_uncompressed_len c).
Definition set_deflate (len data : Z) (c : ImageChunk) : ImageChunk :=
  mkImageChunk (ic_type c) (ic_start c) (ic_len c) (ic_data c) (ic_source_start c) (ic_source_len c) (ic_I c) len data
    (ic_filename c) (ic_level c) (ic_method c) (ic_windowBits c) (ic_memLevel c) (ic_strategy c) (ic_source_uncompressed_len c).
Definition set_filename (name : option block) (c : ImageChunk) : ImageChunk :=
  mkImageChunk (ic_type c) (ic_start c) (ic_len c) (ic_data c) (ic_source_start c) (ic_source_len c) (ic_I c) (ic_deflate_len c)
    (ic_deflate_data c) name (ic_level c) (ic_method c) (ic_windowBits c) (ic_memLevel c) (ic_strategy c) (ic_source_uncompressed_len c).
Definition set_params (level method windowBits memLevel strategy : Z) (c : ImageChunk) : ImageChunk :=
  mkImageChunk (ic_type c) (ic_start c) (ic_len c) (ic_data c) (ic_source_start c) (ic_source_len c) (ic_I c) (ic_deflate_len c)
    (ic_deflate_data c) (ic_filename c) level method windowBits memLevel strategy (ic_source_uncompressed_len c).
Definition set_source (start len uncompressed : Z) (c : ImageChunk) : ImageChunk :=
  mkImageChunk (ic_type c) (ic_start c) (ic_len c) (ic_data c) start len (ic_I c) (ic_deflate_len c) (ic_deflate_data c) (ic_filename c)
    (ic_level c) (ic_method c) (ic_windowBits c) (ic_memLevel c) (ic_strategy c) uncompressed.
Definition set_type (type : Z) (c : ImageChunk) : ImageChunk := set_chunk type (ic_start c) (ic_len c) (ic_data c) c.

Record ZipFileEntry := mkEntry { data_offset : Z; e_deflate_len : Z; uncomp_len : Z; e_filename : block }.
Definition fileentry_compare (a b : ZipFileEntry) : Z :=
  if data_offset a <? data_offset b then -1 else if data_offset b <? data_offset a then 1 else 0.
Definition entry_le (a b : ZipFileEntry) : Prop := fileentry_compare a b <= 0.
#[global] Instance entry_le_dec : RelDecision entry_le.
Proof. intros a b. apply Z_le_dec. Defined.

(** A stream of calls of inflate: opened on some input, a call with some room, and
    [avail_in] after it. *)
Record inflater := mkInflater {
  i_stream : Type;
  i_init : block -> i_stream;
  i_inflate : i_stream -> Z -> Z * block * i_stream;
  i_avail_in : i_stream -> Z
}.

(** What becomes of reading a file, and of the temporary file for a patch. *)
Inductive reading := NoStat | NoOpen | ShortRead | Contents (b : block).
Inductive temp_file := TempFine | NoDiff | NoTempStat | NoTempOpen | ShortTempRead.

(** A part of the program's environment. *)
Record host := mkHost {
  h_file : block -> reading;
  h_temp : Z -> temp_file;
  h_can_write : bool
}.

Section Model.
Context `{Arch} (bz_compress : block -> block) (qsufsort : block -> list Z) (fuel : nat) (malloc : Z -> option block) (z : zlib) (iz : inflater).
Context (junk : ImageChunk) (junk_size : Z).

(** The bytes of a chunk. *)
Definition bytes_of (img : block) (c : ImageChunk) : outcome block :=
  match ic_data c with InImage p => load_bytes img p (ic_len c) | Own b => load_bytes b 0 (ic_len c) end.

Definition allocate (n : Z) : outcome block := match malloc n with Some b => Val b | None => Trap NullDeref end.

(** A normal chunk of the copy of the file. *)
Definition normal_at (pos len : Z) : ImageChunk := set_I None (set_chunk CHUNK_NORMAL pos len (InImage pos) junk).

(** ** Splitting an archive *)

Fixpoint bytes_are (img : block) (p : Z) (bs : block) : outcome bool :=
  match bs with
  | [] => Val true
  | b :: bs => let* x := load img p in if x =? b then bytes_are img (p + 1) bs else Val false
  end.

(** The end record, from [i] down to below [low]. *)
Fixpoint find_end (n : nat) (img : block) (i low : Z) : outcome Z :=
  if negb ((0 <=? i) && (low <? i)) then Val i else
  match n with
  | O => Trap NoFuel
  | S n =>
      let* found := bytes_are img i [80; 75; 5; 6] in
      if found : bool then Val i else find_end n img (i - 1) low
  end.

(** [n] entries of the directory at [cd]; those that are deflated. *)
Fixpoint read_entries (n : nat) (img : block) (cd : Z) : outcome (option (list ZipFileEntry)) :=
  match n with
  | O => Val (Some [])
  | S n =>
      let* ok := bytes_are img cd [80; 75; 1; 2] in
      if negb ok then Val None else
      let* clen := Read4 img (cd + 20) in
      let* ulen := Read4 img (cd + 24) in
      let* nlen := Read2 img (cd + 28) in
      let* xlen := Read2 img (cd + 30) in
      let* mlen := Read2 img (cd + 32) in
      let* hoffset := Read4 img (cd + 42) in
      let* filename := load_bytes img (cd + 46) nlen in
      let* method := Read2 img (cd + 10) in
      let cd := cd + 46 + nlen + xlen + mlen in
      if negb (method =? 8) then read_entries n img cd else
      let* ok := bytes_are img hoffset [80; 75; 3; 4] in
      if negb ok then Val None else
      let* lnlen := Read2 img (hoffset + 26) in
      let* same := if lnlen =? nlen then bytes_are img (hoffset + 30) filename else Val false in
      if negb same then Val None else
      let* xlen := Read2 img (hoffset + 28) in
      let* offset := c_int 32 (hoffset + 30 + nlen + xlen) in
      let* rest := read_entries n img cd in
      Val ((fun es => mkEntry offset clen ulen filename :: es) <$> rest)
  end.

(** A deflated entry at [pos], or a failure to inflate it. *)
Definition deflated_at (img : block) (pos : Z) (e : ZipFileEntry) : outcome (option ImageChunk) :=
  let deflate_len := size_t (e_deflate_len e) in
  let len := size_t (uncomp_len e) in
  let* buf := allocate len in
  let* input := load_bytes img pos (u32 deflate_len) in
  let '(ret, out) := z_inflate z input (u32 len) in
  let* buf := store_bytes buf 0 out in
  if negb (ret =? Z_STREAM_END) then Val None else
  Val (Some (set_filename (Some (e_filename e)) (set_deflate deflate_len pos (set_I None (set_chunk CHUNK_DEFLATE pos len (Own buf) junk))))).

Fixpoint zip_chunks (n : nat) (img : block) (pos : Z) (es : list ZipFileEntry) : outcome (option (list ImageChunk)) :=
  if zlen img <=? pos then Val (Some []) else
  match n with
  | O => Trap NoFuel
  | S n =>
      let normal len es :=
        let* rest := zip_chunks n img (i32 (pos + len)) es in
        Val (cons (set_filename None (normal_at pos len)) <$> rest) in
      match es with
      | e :: es' =>
          if pos =? data_offset e then
            let* c := deflated_at img pos e in
            match c with
            | None => Val None
            | Some c => let* rest := zip_chunks n img (i32 (pos + ic_deflate_len c)) es' in Val (cons c <$> rest)
            end
          else normal (size_t (data_offset e - pos)) es
      | [] => normal (zlen img - pos) []
      end
  end.

(** The chunks; [Val None]: a failure.  Of an entry the loop makes two chunks at most. *)
Definition ReadZip (file : reading) (include_pseudo_chunk : bool) : outcome (option (block * list ImageChunk)) :=
  match file with
  | NoStat => Val None
  | NoOpen => Trap NullDeref
  | ShortRead => Val None
  | Contents img =>
      let size := zlen img in
      let* i := find_end (Z.to_nat size) img (size - 20) (size - 65600) in
      let* single := bytes_are img (i + 4) [0; 0; 0; 0] in
      if negb single then Val None else
      let* cdcount := Read2 img (i + 8) in
      let* cdoffset := Read4 img (i + 16) in
      let* es := read_entries (Z.to_nat cdcount) img cdoffset in
      match es with
      | None => Val None
      | Some es =>
          let es := merge_sort entry_le es in
          let pseudo := if include_pseudo_chunk then [set_filename None (normal_at 0 size)] else [] in
          let* cs := zip_chunks (2 * length es + 2) img 0 es in
          Val ((fun cs => (img, pseudo ++ cs)) <$> cs)
      end
  end.

(** ** Splitting an image *)

Definition magic : block := [31; 139; 8; 0].

(** [do ... while (ret != Z_STREAM_END)]: the data and the stream at the end; [n] calls. *)
Fixpoint inflate_all (n : nat) (strm : i_stream iz) (got : block) (allocated : Z) : outcome (block * i_stream iz) :=
  match n with
  | O => Trap NoFuel
  | S n =>
      let room := allocated - zlen got in
      let '(ret, out, strm) := i_inflate iz strm (u32 room) in
      if room <? zlen out then Trap OutOfBounds else
      let got := got ++ out in
      let allocated := if zlen got =? allocated then size_t (allocated * 2) else allocated in
      if negb (ret =? Z_STREAM_END) then inflate_all n strm got allocated else Val (got, strm)
  end.

(** The distance to the next header of a gzip, at most [n]; [img] ends with four zeros. *)
Fixpoint find_gzip (n : nat) (img : block) (p : Z) : outcome Z :=
  match n with
  | O => Val 0
  | S n =>
      let* found := bytes_are img p magic in
      if found : bool then Val 0 else let* k := find_gzip n img (p + 1) in Val (1 + k)
  end.

(** The header, the data and the footer of a gzip at [pos], and where it ends. *)
Definition gzip_at (img : block) (size pos : Z) : outcome (option (list ImageChunk * Z)) :=
  let header := normal_at pos GZIP_HEADER_LEN in
  let pos := pos + GZIP_HEADER_LEN in
  let* input := load_bytes img pos (u32 (size - pos)) in
  let* (got, strm) := inflate_all fuel (i_init iz input) [] 32768 in
  let deflate_len := size - i_avail_in iz strm - pos in
  let c := set_filename None (set_deflate deflate_len pos (set_I None (set_chunk CHUNK_DEFLATE pos (zlen got) (Own got) junk))) in
  let pos := pos + deflate_len in
  let footer := normal_at pos GZIP_FOOTER_LEN in
  let pos := pos + GZIP_FOOTER_LEN in
  let* footer_size := Read4 img (pos - 4) in
  if negb (size_t footer_size =? zlen got) then Val None else Val (Some ([header; c; footer], pos)).

Fixpoint image_chunks (n : nat) (img : block) (size pos : Z) : outcome (option (list ImageChunk)) :=
  if size <=? pos then Val (Some []) else
  match n with
  | O => Trap NoFuel
  | S n =>
      let* gzip := if 4 <=? size - pos then bytes_are img pos magic else Val false in
      if gzip : bool then
        let* r := gzip_at img size pos in
        match r with
        | None => Val None
        | Some (cs, pos) => let* rest := image_chunks n img size pos in Val (app cs <$> rest)
        end
      else
        let* len := find_gzip (Z.to_nat (size - pos)) img pos in
        let* rest := image_chunks n img size (pos + len) in
        Val (cons (normal_at pos len) <$> rest)
  end.

(** The copy of the file has four zeros after it. *)
Definition ReadImage (file : reading) : outcome (option (block * list ImageChunk)) :=
  match file with
  | NoStat => Val None
  | NoOpen => Trap NullDeref
  | ShortRead => Val None
  | Contents b =>
      let img := b ++ [0; 0; 0; 0] in
      let* cs := image_chunks fuel img (zlen b) 0 in
      Val ((fun cs => (img, cs)) <$> cs)
  end.

(** ** Compressing again *)

(** Whether deflating gives the bytes at [p]; memcmp reads up to a difference. *)
Fixpoint compare_deflated (n : nat) (strm : z_deflating z) (img : block) (p : Z) : outcome (option Z) :=
  match n with
  | O => Trap NoFuel
  | S n =>
      let '(ret, out, strm) := z_deflate z strm BUFFER_SIZE in
      if BUFFER_SIZE <? zlen out then Trap OutOfBounds else
      let* same := bytes_are img p out in
      if negb same then Val None else
      if negb (ret =? Z_STREAM_END) then compare_deflated n strm img (p + zlen out) else Val (Some (p + zlen out))
  end.

Definition TryReconstruction (img : block) (c : ImageChunk) : outcome Z :=
  let* data := bytes_of img c in
  let strm := z_deflateInit2 z (ic_level c) (ic_method c) (ic_windowBits c) (ic_memLevel c) (ic_strategy c) data in
  let* r := compare_deflated fuel strm img (ic_deflate_data c) in
  Val (match r with
       | Some p => if negb (p - ic_deflate_data c =? ic_deflate_len c) then -1 else 0
       | None => -1
       end).

(** Levels 6 and 9. *)
Definition ReconstructDeflateChunk (img : block) (c : ImageChunk) : outcome (Z * ImageChunk) :=
  if negb (ic_type c =? CHUNK_DEFLATE) then Val (-1, c) else
  let c6 := set_params 6 Z_DEFLATED (-15) 8 Z_DEFAULT_STRATEGY c in
  let* r := TryReconstruction img c6 in
  if r =? 0 then Val (0, c6) else
  let c9 := set_params 9 Z_DEFLATED (-15) 8 Z_DEFAULT_STRATEGY c in
  let* r := TryReconstruction img c9 in
  if r =? 0 then Val (0, c9) else
  Val (-1, set_params 12 Z_DEFLATED (-15) 8 Z_DEFAULT_STRATEGY c).

(** ** Patches *)

(** A patch, or null; its size; and the chunks as they are afterwards. *)
Definition MakePatch (src_img tgt_img : block) (temp : temp_file) (src tgt : ImageChunk) :
    outcome (option block * Z * ImageChunk * ImageChunk) :=
  if (ic_type tgt =? CHUNK_NORMAL) && (ic_len tgt <=? 160) then
    let* d := bytes_of tgt_img tgt in
    Val (Some d, ic_len tgt, src, set_type CHUNK_RAW tgt)
  else
    let* s := bytes_of src_img src in
    let* t := bytes_of tgt_img tgt in
    let I := default (qsufsort s) (ic_I src) in
    let* f := bsdiff bz_compress s t I in
    let src := set_I (Some I) src in
    match temp with
    | NoDiff | NoTempStat => Val (None, junk_size, src, tgt)
    | _ =>
        if (ic_type tgt =? CHUNK_NORMAL) && (ic_len tgt <=? zlen f) then Val (Some t, ic_len tgt, src, set_type CHUNK_RAW tgt) else
        match temp with
        | NoTempOpen | ShortTempRead => Val (None, zlen f, src, tgt)
        | _ =>
            let tgt :=
              if ic_type tgt =? CHUNK_NORMAL then set_source (ic_start src) (ic_len src) (ic_source_uncompressed_len tgt) tgt
              else if ic_type tgt =? CHUNK_DEFLATE then set_source (ic_start src) (ic_deflate_len src) (ic_len src) tgt
              else set_source (ic_start src) (ic_source_len tgt) (ic_source_uncompressed_len tgt) tgt in
            Val (Some f, zlen f, src, tgt)
        end
    end.

Definition ChangeDeflateChunkToNormal (c : ImageChunk) : ImageChunk :=
  if negb (ic_type c =? CHUNK_DEFLATE) then c
  else set_chunk CHUNK_NORMAL (ic_start c) (ic_deflate_len c) (InImage (ic_deflate_data c)) c.

Definition AreChunksEqual (a_img b_img : block) (a b : ImageChunk) : outcome bool :=
  if negb (ic_type a =? ic_type b) then Val false else
  if ic_type a =? CHUNK_NORMAL then
    if negb (ic_len a =? ic_len b) then Val false else
    let* x := bytes_of a_img a in let* y := bytes_of b_img b in Val (bool_decide (x = y))
  else if ic_type a =? CHUNK_DEFLATE then
    if negb (ic_deflate_len a =? ic_deflate_len b) then Val false else
    let* x := load_bytes a_img (ic_deflate_data a) (ic_deflate_len a) in
    let* y := load_bytes b_img (ic_deflate_data b) (ic_deflate_len b) in
    Val (bool_decide (x = y))
  else Val false.

(** ** Merging *)

Definition follows (a b : ImageChunk) : bool :=
  (ic_start b =? size_t (ic_start a + ic_len a)) &&
  match ic_data a, ic_data b with InImage p, InImage q => q =? p + ic_len a | _, _ => false end.

(** The end of a run that [last] belongs to, and the chunks after it. *)
Fixpoint run_end (last : ImageChunk) (cs : list ImageChunk) : ImageChunk * list ImageChunk :=
  match cs with
  | c :: cs' => if (ic_type c =? CHUNK_NORMAL) && follows last c then run_end c cs' else (last, cs)
  | [] => (last, [])
  end.

(** [slots]: the array from [out] on; [ins]: from [in_start] on.  A merged chunk takes its
    other fields from the slot it is put in. *)
Fixpoint merge_loop (n : nat) (slots ins : list ImageChunk) : list ImageChunk :=
  match n, slots, ins with
  | S n, slot :: slots, c :: ins =>
      let '(last, rest) := if negb (ic_type c =? CHUNK_NORMAL) then (c, ins) else run_end c ins in
      (if Nat.eqb (length rest) (length ins) then c
       else set_chunk CHUNK_NORMAL (ic_start c) (size_t (ic_len last + (ic_start last - ic_start c))) (ic_data c) slot)
      :: merge_loop n slots rest
  | _, _, _ => []
  end.
Definition MergeAdjacentNormalChunks (cs : list ImageChunk) : list ImageChunk := merge_loop (length cs) cs cs.

(** ** The program *)

(** The characters before the first zero. *)
Fixpoint up_to_nul (s : block) : block := match s with c :: s => if c =? 0 then [] else c :: up_to_nul s | [] => [] end.

(** The index of the chunk. *)
Fixpoint FindChunkByName (name : block) (cs : list ImageChunk) : option nat :=
  match cs with
  | [] => None
  | c :: cs =>
      if (ic_type c =? CHUNK_DEFLATE) && match ic_filename c with Some f => bool_decide (up_to_nul name = up_to_nul f) | None => false end
      then Some 0%nat else S <$> FindChunkByName name cs
  end.

(** The source chunk of the [i]th target chunk [t]. *)
Definition find_source (zip_mode : bool) (i : nat) (t : ImageChunk) (ss : list ImageChunk) : outcome (option nat) :=
  if zip_mode then match ic_filename t with Some name => Val (FindChunkByName name ss) | None => Trap NullDeref end
  else if (i <? length ss)%nat then Val (Some i) else Trap OutOfBounds.

Definition change_source (k : option nat) (ss : list ImageChunk) : list ImageChunk :=
  match k with Some k => alter ChangeDeflateChunkToNormal k ss | None => ss end.

(** What becomes of the deflate chunks of the target, and of their sources. *)
Fixpoint decide_chunks (zip_mode : bool) (src_img tgt_img : block) (i : nat) (ts ss : list ImageChunk) :
    outcome (list ImageChunk * list ImageChunk) :=
  match ts with
  | [] => Val ([], ss)
  | t :: ts =>
      let* (t, ss) :=
        if ic_type t =? CHUNK_DEFLATE then
          let* (r, t) := ReconstructDeflateChunk tgt_img t in
          let* k := find_source zip_mode i t ss in
          if r <? 0 then Val (ChangeDeflateChunkToNormal t, change_source k ss) else
          let* drop :=
            match k with
            | None => Val true
            | Some k => let* s := load ss (Z.of_nat k) in AreChunksEqual tgt_img src_img t s
            end in
          Val (if drop : bool then (ChangeDeflateChunkToNormal t, change_source k ss) else (t, ss))
        else Val (t, ss) in
      let* (ts, ss) := decide_chunks zip_mode src_img tgt_img (Datatypes.S i) ts ss in
      Val (t :: ts, ss)
  end.

(** The bonus data is put behind the data of a source chunk. *)
Definition add_bonus (bonus : block) (c : ImageChunk) : outcome ImageChunk :=
  match ic_data c with
  | Own b => let* d := load_bytes b 0 (ic_len c) in Val (set_chunk (ic_type c) (ic_start c) (ic_len c + zlen bonus) (Own (d ++ bonus)) c)
  | InImage _ => Trap WildPointer
  end.

(** A target chunk with its patch. *)
Record patched := mkPatched { p_chunk : ImageChunk; p_data : option block; p_size : Z }.

Definition source_index (zip_mode : bool) (i : nat) (t : ImageChunk) (ss : list ImageChunk) : outcome nat :=
  if zip_mode then
    if ic_type t =? CHUNK_DEFLATE then let* k := find_source true i t ss in Val (default 0%nat k) else Val 0%nat
  else Val i.

Fixpoint make_patches (zip_mode : bool) (src_img tgt_img : block) (temp : Z -> temp_file) (bonus : option block) (i : nat) (ts ss : list ImageChunk) :
    outcome (list patched) :=
  match ts with
  | [] => Val []
  | t :: ts =>
      let* k := source_index zip_mode i t ss in
      let* s := load ss (Z.of_nat k) in
      let* s := match bonus with Some b => if negb zip_mode && Nat.eqb i 1 then add_bonus b s else Val s | None => Val s end in
      let* (d, size, s, t) := MakePatch src_img tgt_img (temp (Z.of_nat i)) s t in
      let* ps := make_patches zip_mode src_img tgt_img temp bonus (Datatypes.S i) ts (<[k := s]> ss) in
      Val (mkPatched t d size :: ps)
  end.

Definition fwrite (data : option block) (size : Z) (f : block) : outcome block :=
  if size =? 0 then Val f else
  match data with None => Trap NullDeref | Some d => let* b := load_bytes d 0 size in Val (f ++ b) end.

Definition header_size (p : patched) : Z :=
  4 + (let t := ic_type (p_chunk p) in
       if t =? CHUNK_NORMAL then 8 * 3 else if t =? CHUNK_DEFLATE then 8 * 5 + 4 * 5 else if t =? CHUNK_RAW then 4 + p_size p else 0).

Fixpoint write_headers (ps : list patched) (offset : Z) (f : block) : outcome block :=
  match ps with
  | [] => Val f
  | p :: ps =>
      let c := p_chunk p in
      let f := Write4 (ic_type c) f in
      if ic_type c =? CHUNK_NORMAL then
        write_headers ps (offset + p_size p) (Write8 offset (Write8 (ic_source_len c) (Write8 (ic_source_start c) f)))
      else if ic_type c =? CHUNK_DEFLATE then
        let f := Write8 offset (Write8 (ic_source_len c) (Write8 (ic_source_start c) f)) in
        let f := Write8 (ic_len c) (Write8 (ic_source_uncompressed_len c) f) in
        let f := Write4 (ic_windowBits c) (Write4 (ic_method c) (Write4 (ic_level c) f)) in
        write_headers ps (offset + p_size p) (Write4 (ic_strategy c) (Write4 (ic_memLevel c) f))
      else if ic_type c =? CHUNK_RAW then
        let* f := fwrite (p_data p) (p_size p) (Write4 (p_size p) f) in write_headers ps offset f
      else write_headers ps offset f
  end.

Fixpoint write_patches (ps : list patched) (f : block) : outcome block :=
  match ps with
  | [] => Val f
  | p :: ps =>
      let* f := if negb (ic_type (p_chunk p) =? CHUNK_RAW) then fwrite (p_data p) (p_size p) f else Val f in
      write_patches ps f
  end.

Definition write_file (ps : list patched) : outcome block :=
  let total_header_size := foldl (fun n p => n + header_size p) 12 ps in
  let* f := write_headers ps total_header_size (Write4 (zlen ps) (str "IMGDIFF2")) in
  write_patches ps f.

(** Source and target split, and the target's deflate chunks decided on; [Val None]: exit
    with 1. *)
Definition split_images (src tgt : reading) : outcome (option (block * block * list ImageChunk * list ImageChunk)) :=
  let* s := ReadImage src in
  match s with
  | None => Val None
  | Some (src_img, ss) =>
      let* t := ReadImage tgt in
      match t with
      | None => Val None
      | Some (tgt_img, ts) =>
          let ts := MergeAdjacentNormalChunks ts in
          let ss := MergeAdjacentNormalChunks ss in
          if negb (Nat.eqb (length ss) (length ts)) then Val None else
          if negb (bool_decide (ic_type <$> ss = ic_type <$> ts)) then Val None else
          let* (ts, ss) := decide_chunks false src_img tgt_img 0 ts ss in
          let ts := MergeAdjacentNormalChunks ts in
          let ss := MergeAdjacentNormalChunks ss in
          if negb (Nat.eqb (length ss) (length ts)) then Val None else Val (Some (src_img, tgt_img, ss, ts))
      end
  end.

Definition split_zips (src tgt : reading) : outcome (option (block * block * list ImageChunk * list ImageChunk)) :=
  let* s := ReadZip src true in
  match s with
  | None => Val None
  | Some (src_img, ss) =>
      let* t := ReadZip tgt false in
      match t with
      | None => Val None
      | Some (tgt_img, ts) =>
          let* (ts, ss) := decide_chunks true src_img tgt_img 0 ts ss in
          Val (Some (src_img, tgt_img, ss, MergeAdjacentNormalChunks ts))
      end
  end.

(** The exit status and the patch file.  [args]: without the name of the program. *)
Definition main (h : host) (args : list block) : outcome (Z * option block) :=
  let '(zip_mode, args) := match args with a :: rest => if bool_decide (a = str "-z") then (true, rest) else (false, args) | [] => (false, args) end in
  let '(bonus, args) :=
    match args with
    | a :: b :: rest => if bool_decide (a = str "-b") then (Some (h_file h b), rest) else (None, args)
    | _ => (None, args)
    end in
  match bonus with
  | Some NoStat | Some NoOpen | Some ShortRead => Val (1, None)
  | _ =>
      let bonus_data := match bonus with Some (Contents b) => Some b | _ => None end in
      match args with
      | [src; tgt; patch] =>
          let* r := (if zip_mode : bool then split_zips else split_images) (h_file h src) (h_file h tgt) in
          match r with
          | None => Val (1, None)
          | Some (src_img, tgt_img, ss, ts) =>
              let* ps := make_patches zip_mode src_img tgt_img (h_temp h) bonus_data 0 ts ss in
              if negb (h_can_write h) then Trap NullDeref else
              let* f := write_file ps in
              Val (0, Some f)
          end
      | _ => Val (2, None)
      end
  end.
End Model.
