(* ===== verification/ImgDiffProps.v ===== *)
(** * The patches of imgdiff.c rebuild the target

    The chunks of a file tile it; deciding on the deflate chunks and merging keep that, and
    the patches made for the tiles are chunk records of ImgPatch.v whose pieces are the
    tiles of the target. *)

From stdpp Require Import base numbers list sorting.
From stdpp Require Import strings.
From S2P Require Import Prelude CString Bits Bspatch ImgPatch ImgDiff.

(** ** Tiles *)

Section Tiles.
Context `{Arch}.

(** How much of the file a chunk stands for. *)
Definition clen (c : ImageChunk) : Z := if ic_type c =? CHUNK_DEFLATE then ic_deflate_len c else ic_len c.

Definition tile_ok (p : Z) (c : ImageChunk) : Prop :=
  ic_start c = p /\ 0 <= clen c /\
  ((ic_type c = CHUNK_NORMAL /\ ic_data c = InImage p) \/
   (ic_type c = CHUNK_DEFLATE /\ ic_deflate_data c = p /\ exists d, ic_data c = Own d /\ zlen d = ic_len c)).

(** The chunks tile the file from [p] to [q]. *)
Inductive tiles : Z -> list ImageChunk -> Z -> Prop :=
| tiles_nil p : tiles p [] p
| tiles_cons p c cs q : tile_ok p c -> tiles (p + clen c) cs q -> tiles p (c :: cs) q.

(** Where the last chunk ends. *)
Definition chunks_end (cs : list ImageChunk) : Z := match last cs with Some c => ic_start c + clen c | None => 0 end.

(** A run of normal chunks counts once. *)
Fixpoint collapse (ts : list Z) : list Z :=
  match ts with
  | [] => []
  | t :: ts' =>
      if (t =? CHUNK_NORMAL) && match ts' with t' :: _ => t' =? CHUNK_NORMAL | [] => false end then collapse ts' else t :: collapse ts'
  end.

Lemma tiles_le p cs q : tiles p cs q -> p <= q.
Proof. induction 1 as [| p c cs q (_ & Hc & _) _ IH]; lia. Qed.

Lemma tiles_end p cs q : tiles p cs q -> cs <> [] -> q = chunks_end cs.
Proof.
  induction 1 as [| p c cs q Hc Ht IH]; [done |]. intros _. destruct cs as [| c' cs].
  - inversion Ht; subst. unfold chunks_end. cbn. by destruct Hc as (-> & _).
  - rewrite IH by done. done.
Qed.

Lemma normal_clen c : ic_type c = CHUNK_NORMAL -> clen c = ic_len c.
Proof. intros E. unfold clen. by rewrite E. Qed.
Lemma deflate_clen c : ic_type c = CHUNK_DEFLATE -> clen c = ic_deflate_len c.
Proof. intros E. unfold clen. by rewrite E. Qed.

Lemma tile_type p c : tile_ok p c -> ic_type c = CHUNK_NORMAL \/ ic_type c = CHUNK_DEFLATE.
Proof. intros (_ & _ & [[Ht _] | [Ht _]]); auto. Qed.

Lemma tiles_app p a b q : tiles p (a ++ b) q <-> exists m, tiles p a m /\ tiles m b q.
Proof.
  revert p. induction a as [| c a IH]; intros p; cbn [app].
  - split; [intros Ht; exists p; split; [constructor | done] | intros (m & Ha & Hb); by inversion Ha; subst].
  - split.
    + intros Ht. inversion Ht; subst. destruct (proj1 (IH (p + clen c)) ltac:(assumption)) as (m & Ha & Hb). exists m. split; [by constructor | done].
    + intros (m & Ha & Hb). inversion Ha; subst. constructor; [done |]. apply IH. eauto.
Qed.

(** ** Merging *)

Lemma follows_tile p c d : tile_ok p c -> ic_type c = CHUNK_NORMAL -> 0 <= p -> tile_ok (p + clen c) d -> p + clen c < 2 ^ 31 ->
  (ic_type d =? CHUNK_NORMAL) && follows c d = (ic_type d =? CHUNK_NORMAL).
Proof.
  intros (Hs & Hl & Hc) Ht Hp (Hs' & _ & Hd) Hlt. rewrite (normal_clen c Ht) in *. destruct Hd as [[Ht' Hd] | [Ht' _]]; rewrite Ht'; [| done].
  destruct Hc as [[_ Hc] | [Hx _]]; [| by rewrite Ht in Hx]. unfold follows. rewrite Hc, Hd, Hs, Hs', size_t_id by lia.
  by rewrite !Z.eqb_refl.
Qed.

(** The run that starts with [c]. *)
Lemma run_end_ok cs : forall p c q last rest, tiles p (c :: cs) q -> ic_type c = CHUNK_NORMAL -> 0 <= p -> q < 2 ^ 31 -> run_end c cs = (last, rest) ->
  ic_type last = CHUNK_NORMAL /\ p <= ic_start last /\ 0 <= ic_len last /\ tiles (ic_start last + ic_len last) rest q /\
  collapse (ic_type <$> c :: cs) = CHUNK_NORMAL :: collapse (ic_type <$> rest) /\ (exists used, cs = used ++ rest) /\
  (length rest = length cs -> last = c).
Proof.
  induction cs as [| d cs IH]; intros p c q lst rest Ht Hn Hp Hq Hr; cbn [run_end] in Hr; inversion Ht as [| ? ? ? ? Hc Ht']; subst.
  - injection Hr as <- <-. rewrite (normal_clen c Hn) in Ht'. pose proof Hc as (Hs & Hl & _). rewrite (normal_clen c Hn) in Hl. rewrite Hs.
    split_and!; [done | lia | done | done | by cbn; rewrite Hn | by exists [] | done].
  - inversion Ht' as [| ? ? ? ? Hd Ht'']; subst. pose proof (tiles_le _ _ _ Ht'). rewrite (follows_tile p c d) in Hr by (done || lia).
    destruct (Z.eqb_spec (ic_type d) CHUNK_NORMAL) as [Hdn | Hdn].
    + pose proof Hc as (Hs & Hl & _).
      destruct (IH _ d q lst rest Ht' Hdn ltac:(lia) Hq Hr) as (H1 & H2 & H3 & H4 & H5 & [used ->] & H7).
      split_and!; [done | lia | done | done | | by exists (d :: used) | intros Hlen; exfalso; cbn in Hlen; rewrite length_app in Hlen; lia].
      rewrite <- H5. cbn [fmap list_fmap collapse]. by rewrite Hn, Hdn.
    + injection Hr as <- <-. pose proof Hc as (Hs & Hl & _). rewrite (normal_clen c Hn) in *. rewrite Hs.
      split_and!; [done | lia | done | done | | by exists [] | done].
      cbn [fmap list_fmap collapse]. rewrite Hn, (proj2 (Z.eqb_neq (ic_type d) _)) by done. done.
Qed.

Lemma merge_loop_ok n : forall slots ins p q, tiles p ins q -> 0 <= p -> q < 2 ^ 31 -> (length ins <= n)%nat -> (length ins <= length slots)%nat ->
  Forall (fun c => ic_I c = None) slots -> Forall (fun c => ic_I c = None) ins ->
  tiles p (merge_loop n slots ins) q /\ ic_type <$> merge_loop n slots ins = collapse (ic_type <$> ins) /\
  Forall (fun c => ic_I c = None) (merge_loop n slots ins) /\
  (forall c, c ∈ merge_loop n slots ins -> ic_type c = CHUNK_DEFLATE -> c ∈ ins).
Proof.
  induction n as [| n IH]; intros slots ins p q Ht Hp Hq Hn Hs Is Ii.
  { destruct ins; [| cbn in Hn; lia]. cbn. split_and!; [done | done | constructor | by intros c ?%elem_of_nil]. }
  destruct ins as [| c ins]; [destruct slots; cbn; (split_and!; [done | done | constructor | by intros c ?%elem_of_nil]) |].
  destruct slots as [| slot slots]; [cbn in Hs; lia |]. cbn [length] in Hn, Hs. cbn [merge_loop].
  apply Forall_cons in Is as [Islot Is]. apply Forall_cons in Ii as [Ic Ii]. pose proof Ht as Htt. inversion Ht as [| ? ? ? ? Hc Ht']; subst.
  destruct (Z.eqb_spec (ic_type c) CHUNK_NORMAL) as [Hcn | Hcn]; cbn [negb].
  - destruct (run_end c ins) as [lst rest] eqn:Er. destruct (run_end_ok ins p c q lst rest Htt Hcn Hp Hq Er) as (H1 & H2 & H3 & H4 & H5 & [used ->] & H7).
    rewrite length_app in *. apply Forall_app in Ii as [_ Ir]. pose proof Hc as (Hst & Hl & Hdata). pose proof (tiles_le _ _ _ H4).
    destruct (IH slots rest _ q H4 ltac:(lia) Hq ltac:(lia) ltac:(lia) Is Ir) as (I1 & I2 & I3 & I4).
    destruct (Nat.eqb_spec (length rest) (length used + length rest)) as [El | El].
    + rewrite H7 in * by lia. split_and!.
      * constructor; [done |]. rewrite (normal_clen c Hcn), <- Hst. exact I1.
      * rewrite fmap_cons, I2, H5. by rewrite Hcn.
      * by constructor.
      * intros x [-> | Hx]%elem_of_cons Hd; [left |]. right. apply elem_of_app. right. by apply I4.
    + split_and!.
      * destruct Hdata as [[_ Hdata] | [Hx _]]; [| by rewrite Hcn in Hx]. rewrite Hst.
        replace (ic_len lst + (ic_start lst - p)) with (ic_start lst + ic_len lst - p) by lia. rewrite size_t_id by lia. constructor.
        -- unfold tile_ok, clen. cbn. split_and!; [done | lia | left; done].
        -- unfold clen. cbn. replace (p + (ic_start lst + ic_len lst - p)) with (ic_start lst + ic_len lst) by lia. exact I1.
      * rewrite fmap_cons, I2, H5. done.
      * by constructor.
      * intros x [-> | Hx]%elem_of_cons Hd; [done |]. right. apply elem_of_app. right. by apply I4.
  - rewrite Nat.eqb_refl. destruct (IH slots ins _ q Ht' ltac:(destruct Hc as (_ & ? & _); lia) Hq ltac:(lia) ltac:(lia) Is Ii) as (I1 & I2 & I3 & I4). split_and!.
    + by constructor.
    + rewrite !fmap_cons, I2. cbn [collapse]. by rewrite (proj2 (Z.eqb_neq _ _)) by done.
    + by constructor.
    + intros x [-> | Hx]%elem_of_cons Hd; [left | right; by apply I4].
Qed.

Lemma Merge_ok cs p q : tiles p cs q -> 0 <= p -> q < 2 ^ 31 -> Forall (fun c => ic_I c = None) cs ->
  let ms := MergeAdjacentNormalChunks cs in
  tiles p ms q /\ ic_type <$> ms = collapse (ic_type <$> cs) /\ Forall (fun c => ic_I c = None) ms /\
  (forall c, c ∈ ms -> ic_type c = CHUNK_DEFLATE -> c ∈ cs).
Proof. intros Ht Hp Hq HI. by apply merge_loop_ok. Qed.
End Tiles.

(** ** What the code relies on *)

(** A stream opened on [input] that has given [got]. *)
Inductive inflated (iz : inflater) (input : block) : i_stream iz -> block -> Prop :=
| inf_start : inflated iz input (i_init iz input) []
| inf_step strm got room ret out strm' :
    inflated iz input strm got -> i_inflate iz strm room = (ret, out, strm') -> inflated iz input strm' (got ++ out).

(** zlib: inflating gives bytes and reads no more than its input; what a sequence of calls
    gives, a single one with enough room gives from the input that was read; and the bytes
    that deflating gives do not depend on the size of the buffer. *)
Record zlib_ok (z : zlib) (iz : inflater) : Prop := {
  zo_init : z_inflateInit2 z = Z_OK;
  zo_bytes : forall input room ret out, z_inflate z input room = (ret, out) -> bytes_ok out;
  zo_stream_bytes : forall strm room ret out strm', i_inflate iz strm room = (ret, out, strm') -> bytes_ok out;
  zo_avail : forall input strm got, inflated iz input strm got -> 0 <= i_avail_in iz strm <= zlen input;
  zo_inflate : forall input strm got room out strm', inflated iz input strm got -> i_inflate iz strm room = (Z_STREAM_END, out, strm') ->
    forall r, zlen (got ++ out) <= r < 2 ^ 31 ->
    z_inflate z (take (Z.to_nat (zlen input - i_avail_in iz strm')) input) r = (Z_STREAM_END, got ++ out);
  zo_deflate : forall strm outs room, deflates z BUFFER_SIZE strm outs -> BUFFER_SIZE <= room < 2 ^ 31 ->
    exists outs', deflates z room strm outs' /\ concat outs' = concat outs /\ (length outs' <= length outs)%nat
}.

Definition malloc_ok (malloc : Z -> option block) : Prop :=
  forall n, 0 <= n < 2 ^ 31 -> exists b, malloc n = Some b /\ zlen b = n /\ bytes_ok b.
Definition suffixes_ok (qsufsort : block -> list Z) : Prop :=
  forall s, zlen (qsufsort s) = zlen s + 1 /\ Forall (fun i => 0 <= i <= zlen s) (qsufsort s).

(** ** Deflating again *)

Section Again.
Context `{Arch} (fuel : nat) (z : zlib).

Lemma bytes_are_spec img bs : forall p, 0 <= p -> p + zlen bs <= zlen img -> bytes_are img p bs = Val (bool_decide (slice img p (zlen bs) = bs)).
Proof.
  induction bs as [| b bs IH]; intros p Hp Hl; cbn [bytes_are]; [by rewrite bool_decide_true |].
  rewrite zlen_cons in *. pose proof (zlen_nonneg bs). destruct (load_some img p) as [x Hx]; [lia |]. rewrite Hx. cbn [mbind outcome_bind].
  rewrite (slice_cons img p (1 + zlen bs) x) by (done || lia). replace (1 + zlen bs - 1) with (zlen bs) by lia.
  destruct (Z.eqb_spec x b) as [-> | Hne]; [rewrite IH by lia; f_equal; apply bool_decide_ext; split; congruence |].
  rewrite bool_decide_false; [done | congruence].
Qed.

Lemma slice_front (a b : block) p n : 0 <= p -> 0 <= n -> p + n <= zlen a -> slice (a ++ b) p n = slice a p n.
Proof.
  intros Hp Hn Hl. unfold slice, zlen in *. rewrite drop_app_le, take_app_le by (rewrite ?length_drop; lia). done.
Qed.

Lemma compare_deflated_spec strm outs : deflates z BUFFER_SIZE strm outs -> forall n img p, (length outs <= n)%nat -> 0 <= p -> p + zlen (concat outs) <= zlen img ->
  compare_deflated z n strm img p =
  Val (if decide (slice img p (zlen (concat outs)) = concat outs) then Some (p + zlen (concat outs)) else None).
Proof.
  induction 1 as [strm out strm' E Hl | strm ret out strm' outs E Hr Hl Hd IH]; intros n img p Hn Hp Hi; (destruct n as [| n]; [cbn in Hn; lia |]);
    cbn [compare_deflated concat] in *; rewrite E, (proj2 (Z.ltb_ge _ _)) by lia.
  - rewrite app_nil_r in *. rewrite bytes_are_spec by lia. cbn [mbind outcome_bind]. case_decide as Ed; [by rewrite bool_decide_true | by rewrite bool_decide_false].
  - rewrite zlen_app in *. pose proof (zlen_nonneg out). pose proof (zlen_nonneg (concat outs)). rewrite bytes_are_spec by lia. cbn [mbind outcome_bind].
    rewrite slice_app by lia. destruct (decide (slice img p (zlen out) = out)) as [Eo | Eo].
    + rewrite bool_decide_true by done. cbn [negb]. rewrite (proj2 (Z.eqb_neq _ _)) by done. cbn [negb]. rewrite IH by (cbn in Hn; lia).
      rewrite Eo. f_equal. destruct (decide (slice img (p + zlen out) _ = _)) as [-> | Hne];
        [rewrite decide_True by done; f_equal; lia | rewrite decide_False; [done | by intros ?%app_inv_head]].
    + rewrite bool_decide_false by done. cbn [negb]. rewrite decide_False; [done |]. intros Hx. apply app_inj_1 in Hx as [Hx _]; [done |].
      unfold slice, zlen in *. rewrite length_take, length_drop. lia.
Qed.

Definition level_ok (l : Z) : Prop := l = 6 \/ l = 9.

(** Deflating with the parameters that are tried. *)
Definition deflate_pieces (level : Z) (d : block) (outs : list block) : Prop :=
  deflates z BUFFER_SIZE (z_deflateInit2 z level Z_DEFLATED (-15) 8 Z_DEFAULT_STRATEGY d) outs /\ (length outs <= fuel)%nat.

(** Deflating ends, and gives no more than what is left of the file. *)
Definition fits (img : block) (t : ImageChunk) : Prop :=
  forall level d, level_ok level -> ic_data t = Own d -> exists outs, deflate_pieces level d outs /\ ic_deflate_data t + zlen (concat outs) <= zlen img.

(** Deflating the chunk's data with its parameters gives its part of the file. *)
Definition reconstructs (img : block) (t : ImageChunk) : Prop :=
  exists level d outs, level_ok level /\ ic_level t = level /\ ic_method t = Z_DEFLATED /\ ic_windowBits t = -15 /\ ic_memLevel t = 8 /\
    ic_strategy t = Z_DEFAULT_STRATEGY /\ ic_data t = Own d /\ deflate_pieces level d outs /\
    concat outs = slice img (ic_deflate_data t) (ic_deflate_len t).

Lemma bytes_of_own img c d : ic_data c = Own d -> zlen d = ic_len c -> bytes_of img c = Val d.
Proof.
  intros Hd Hl. unfold bytes_of. rewrite Hd, <- Hl. unfold load_bytes. pose proof (zlen_nonneg d). rewrite !(proj2 (Z.leb_le _ _)) by lia. cbn [andb].
  unfold slice. rewrite drop_0, firstn_all2; [done |]. unfold zlen. lia.
Qed.

Lemma Try_ok img t level d : level_ok level -> fits img t -> 0 <= ic_deflate_data t -> 0 <= ic_deflate_len t -> ic_data t = Own d -> zlen d = ic_len t ->
  let t' := set_params level Z_DEFLATED (-15) 8 Z_DEFAULT_STRATEGY t in
  (TryReconstruction fuel z img t' = Val 0 /\ reconstructs img t') \/ TryReconstruction fuel z img t' = Val (-1).
Proof.
  intros Hlv Hf Hp Hdl Hd Hl t'. destruct (Hf level d Hlv Hd) as (outs & [Ho Hn] & Hfit). unfold TryReconstruction.
  rewrite (bytes_of_own img t' d) by done. cbn [mbind outcome_bind]. cbn [t' set_params ic_level ic_method ic_windowBits ic_memLevel ic_strategy ic_deflate_data ic_deflate_len].
  rewrite (compare_deflated_spec _ _ Ho) by done. cbn [mbind outcome_bind]. case_decide as E; [| by right].
  destruct (Z.eqb_spec (ic_deflate_data t + zlen (concat outs) - ic_deflate_data t) (ic_deflate_len t)) as [El | El]; cbn [negb]; [| by right]. left. split; [done |].
  exists level, d, outs. cbn. split_and!; try done. rewrite <- E. f_equal. lia.
Qed.

(** The chunk with the parameters that were tried last. *)
Lemma Reconstruct_ok img t d : ic_type t = CHUNK_DEFLATE -> fits img t -> 0 <= ic_deflate_data t -> 0 <= ic_deflate_len t -> ic_data t = Own d -> zlen d = ic_len t ->
  exists r level, let t' := set_params level Z_DEFLATED (-15) 8 Z_DEFAULT_STRATEGY t in
    ReconstructDeflateChunk fuel z img t = Val (r, t') /\ ((r = 0 /\ reconstructs img t') \/ r = -1).
Proof.
  intros Ht Hf Hp Hdl Hd Hl. unfold ReconstructDeflateChunk. rewrite Ht. cbn [negb Z.eqb CHUNK_DEFLATE].
  destruct (Try_ok img t 6 d (or_introl eq_refl) Hf Hp Hdl Hd Hl) as [[-> Hr] | ->]; cbn [mbind outcome_bind Z.eqb]; [exists 0, 6; auto |].
  destruct (Try_ok img t 9 d (or_intror eq_refl) Hf Hp Hdl Hd Hl) as [[-> Hr] | ->]; cbn [mbind outcome_bind Z.eqb]; [exists 0, 9; auto |].
  exists (-1), 12. auto.
Qed.

Lemma change_tile p c : tile_ok p c -> tile_ok p (ChangeDeflateChunkToNormal c) /\ clen (ChangeDeflateChunkToNormal c) = clen c /\
  ic_type (ChangeDeflateChunkToNormal c) = CHUNK_NORMAL /\ ic_I (ChangeDeflateChunkToNormal c) = ic_I c.
Proof.
  intros (Hs & Hl & [[Ht Hd] | (Ht & Hd & _)]); unfold ChangeDeflateChunkToNormal; rewrite Ht; cbn [negb Z.eqb CHUNK_NORMAL CHUNK_DEFLATE].
  - unfold tile_ok. split_and!; auto 6.
  - unfold tile_ok, clen in *. rewrite Ht in *. cbn in *. rewrite Hd. split_and!; auto 6.
Qed.

Lemma params_tile p l m w e s c : tile_ok p c -> tile_ok p (set_params l m w e s c).
Proof. done. Qed.
End Again.

(** ** Deciding on the deflate chunks *)

Section Prepare.
Context `{Arch} (fuel : nat) (z : zlib).

Lemma deflates_equal_val a_img b_img a b : ic_type a = CHUNK_DEFLATE -> ic_type b = CHUNK_DEFLATE ->
  0 <= ic_deflate_data a -> 0 <= ic_deflate_len a -> ic_deflate_data a + ic_deflate_len a <= zlen a_img ->
  0 <= ic_deflate_data b -> 0 <= ic_deflate_len b -> ic_deflate_data b + ic_deflate_len b <= zlen b_img ->
  exists r, AreChunksEqual a_img b_img a b = Val r.
Proof.
  intros Ta Tb. intros. unfold AreChunksEqual. rewrite Ta, Tb. cbn [negb Z.eqb CHUNK_DEFLATE CHUNK_NORMAL Pos.eqb].
  destruct (negb _); [eauto |]. rewrite !load_bytes_in by lia. cbn. eauto.
Qed.

(** A target chunk that stays deflated is one of the target's, with the parameters that
    give its bytes. *)
Definition kept (img : block) (ts : list ImageChunk) (t : ImageChunk) : Prop :=
  ic_type t = CHUNK_DEFLATE -> reconstructs fuel z img t /\
  exists t0, t0 ∈ ts /\ ic_type t0 = CHUNK_DEFLATE /\ ic_len t = ic_len t0 /\ ic_data t = ic_data t0 /\ ic_filename t = ic_filename t0.

Lemma kept_mono img ts ts' t : ts ⊆ ts' -> kept img ts t -> kept img ts' t.
Proof. intros Hs Hk Ht. destruct (Hk Ht) as (Hr & t0 & Hin & ?). split; [done |]. exists t0. split; [by apply Hs | done]. Qed.

(** One chunk of the target and its source [s], at positions [p] and [p']. *)
Lemma prepare_images_ok src_img tgt_img ts : forall pre ss p q p' q', tiles p ts q -> tiles p' ss q' -> 0 <= p -> 0 <= p' -> q <= zlen tgt_img -> q' <= zlen src_img ->
  ic_type <$> ss = ic_type <$> ts -> Forall (fun t => ic_type t = CHUNK_DEFLATE -> fits fuel z tgt_img t) ts ->
  Forall (fun c => ic_I c = None) ts -> Forall (fun c => ic_I c = None) ss ->
  exists ts' ss', decide_chunks fuel z false src_img tgt_img (length pre) ts (pre ++ ss) = Val (ts', pre ++ ss') /\
    tiles p ts' q /\ tiles p' ss' q' /\ ic_type <$> ss' = ic_type <$> ts' /\ Forall (kept tgt_img ts) ts' /\
    Forall (fun c => ic_I c = None) ts' /\ Forall (fun c => ic_I c = None) ss' /\ (forall s, s ∈ ss' -> ic_type s = CHUNK_DEFLATE -> s ∈ ss).
Proof.
  induction ts as [| t ts IH]; intros pre ss p q p' q' Ht Hs Hp Hp' Hq Hq' Hty Hf It Is.
  { destruct ss; [| done]. exists [], []. cbn. split_and!; try done; by intros s ?%elem_of_nil. }
  destruct ss as [| s ss]; [done |]. rewrite !fmap_cons in Hty. injection Hty as Hty1 Hty2.
  inversion Ht as [| ? ? ? ? Hct Ht']; subst. inversion Hs as [| ? ? ? ? Hcs Hs']; subst.
  apply Forall_cons in Hf as [Hf1 Hf]. apply Forall_cons in It as [It1 It]. apply Forall_cons in Is as [Is1 Is].
  pose proof (tiles_le _ _ _ Ht') as Hle. pose proof (tiles_le _ _ _ Hs') as Hle'.
  assert (forall t1 s1, tile_ok p t1 -> clen t1 = clen t -> tile_ok p' s1 -> clen s1 = clen s -> ic_type s1 = ic_type t1 -> kept tgt_img (t :: ts) t1 ->
    ic_I t1 = None -> ic_I s1 = None -> (ic_type s1 = CHUNK_DEFLATE -> s1 = s) ->
    exists ts' ss', (let* (ts, ss) := decide_chunks fuel z false src_img tgt_img (S (length pre)) ts (pre ++ s1 :: ss) in Val (t1 :: ts, ss)) = Val (ts', pre ++ ss') /\
      tiles p ts' q /\ tiles p' ss' q' /\ ic_type <$> ss' = ic_type <$> ts' /\ Forall (kept tgt_img (t :: ts)) ts' /\
      Forall (fun c => ic_I c = None) ts' /\ Forall (fun c => ic_I c = None) ss' /\ (forall x, x ∈ ss' -> ic_type x = CHUNK_DEFLATE -> x ∈ s :: ss)) as Hgo.
  { intros t1 s1 T1 T2 S1 S2 E1 K1 I1 I2 O1.
    destruct (IH (pre ++ [s1]) ss (p + clen t) q (p' + clen s) q') as (ts' & ss' & Hpr & R1 & R2 & R3 & R4 & R5 & R6 & R7);
      [done | done | destruct Hct as (_ & ? & _); lia | destruct Hcs as (_ & ? & _); lia | done .. |].
    rewrite length_app, Nat.add_1_r, <- !app_assoc in Hpr. cbn [app] in Hpr. rewrite Hpr. cbn [mbind outcome_bind].
    exists (t1 :: ts'), (s1 :: ss'). split_and!; [done | constructor; by rewrite ?T2 | constructor; by rewrite ?S2 | by rewrite !fmap_cons, E1, R3 | | by constructor | by constructor |].
    - constructor; [done |]. eapply Forall_impl; [exact R4 |]. intros x. apply kept_mono. intros y Hy. by right.
    - intros x [-> | Hx]%elem_of_cons Hd; [rewrite (O1 Hd); left | right; by apply R7]. }
  cbn [decide_chunks]. destruct (Z.eqb_spec (ic_type t) CHUNK_DEFLATE) as [Hd | Hn].
  2: { cbn [mbind outcome_bind]. apply Hgo; try done. }
  pose proof Hct as (_ & Hcl & [[Hx _] | (_ & Hdd & d & Hdat & Hdl)]); [by rewrite Hd in Hx |]. rewrite (deflate_clen t Hd) in Hcl, Ht', Hle.
  destruct (Reconstruct_ok fuel z tgt_img t d Hd (Hf1 Hd) ltac:(lia) Hcl Hdat Hdl) as (r & level & -> & Hr). cbn [mbind outcome_bind].
  set (t1 := set_params level Z_DEFLATED (-15) 8 Z_DEFAULT_STRATEGY t) in *. unfold find_source.
  rewrite (proj2 (Nat.ltb_lt _ _)) by (rewrite length_app; cbn; lia). cbn [mbind outcome_bind].
  assert (tile_ok p t1 /\ clen t1 = clen t) as [T1 T2] by done. destruct (change_tile p t1 T1) as (C1 & C2 & C3 & C4).
  destruct (change_tile p' s Hcs) as (D1 & D2 & D3 & D4).
  assert (change_source (Some (length pre)) (pre ++ s :: ss) = pre ++ ChangeDeflateChunkToNormal s :: ss) as Hch
    by (cbn [change_source]; rewrite alter_app_r_alt by done; by rewrite Nat.sub_diag).
  assert (kept tgt_img (t :: ts) (ChangeDeflateChunkToNormal t1)) as Kn by (intros Hx; by rewrite C3 in Hx).
  destruct Hr as [[-> Hr] | ->]; cbn [Z.ltb Z.compare].
  - rewrite (proj2 (load_Val _ _ s)) by (rewrite Nat2Z.id; split; [lia | by rewrite list_lookup_middle]). cbn [mbind outcome_bind].
    pose proof Hcs as (_ & Hscl & [[Hx _] | (Hsd & Hsdd & _)]); [rewrite Hty1, Hd in Hx; done |]. rewrite (deflate_clen s Hsd) in Hscl, Hs', Hle'.
    destruct (deflates_equal_val tgt_img src_img t1 s) as [eq Heq]; [done | done | cbn; lia .. |]. rewrite Heq. cbn [mbind outcome_bind]. destruct eq.
    + rewrite Hch. cbn [mbind outcome_bind]. apply Hgo; [done | congruence | done | done | congruence | done | by rewrite C4 | by rewrite D4 | intros Hx; by rewrite D3 in Hx].
    + cbn [mbind outcome_bind]. apply Hgo; try done. intros _. split; [done |]. exists t. split_and!; [left | done ..].
  - rewrite Hch. cbn [mbind outcome_bind]. apply Hgo; [done | congruence | done | done | congruence | done | by rewrite C4 | by rewrite D4 | intros Hx; by rewrite D3 in Hx].
Qed.
End Prepare.

(** ** Patches *)

Section Patches.
Context `{Arch} (bz : bzlib) (bz_compress : block -> block) (rest : bz_stream bz -> block -> Prop) (qsufsort : block -> list Z).
Context (fuel rounds : nat) (malloc : Z -> option block) (z : zlib) (iz : inflater) (junk_size m : Z).
Hypothesis Hbz : bzlib_ok bz bz_compress rest.
Hypothesis Hbytes : forall d, bytes_ok d -> bytes_ok (bz_compress d).
Hypothesis Hsort : suffixes_ok qsufsort.
Hypothesis Hmalloc : malloc_ok malloc.
Hypothesis Hz : zlib_ok z iz.
Hypothesis Hm : m < 2 ^ 25 /\ m + 24 <= Z.of_nat fuel /\ m + 1 <= Z.of_nat rounds.

Lemma offtout_bytes x b : offtout x = Val b -> bytes_ok b.
Proof.
  intros Hb. unfold offtout in Hb. apply bind_Val_inv in Hb as (y & _ & Hb). apply Val_inj in Hb as <-.
  assert (forall v, is_byte (v mod 256)) as Hmod by (intros v; apply Z.mod_pos_bound; lia).
  repeat constructor; try apply Hmod; (case_match; [| apply Hmod]).
  - apply Z.lor_nonneg. split; [apply Hmod | lia].
  - match goal with |- Z.lor ?v _ < _ => pose proof (Hmod ((y - y mod 256) / 256)); assert (0 <= v < 256) as Hv by apply Hmod; set (w := v) in * end.
    change 256 with (2 ^ 8). destruct (Z.eq_dec (Z.lor w 128) 0) as [-> | Hne]; [lia |].
    pose proof (proj2 (Z.lor_nonneg w 128)). apply Z.log2_lt_pow2; [lia |]. rewrite Z.log2_lor by lia.
    apply Z.max_lub_lt; [| done]. destruct (Z.eq_dec w 0) as [-> |]; [done |]. apply Z.log2_lt_pow2; lia.
Qed.
Lemma encodes_bytes ts ctrl : encodes ts ctrl -> bytes_ok ctrl.
Proof. induction 1 as [| x y z0 ts bx by_ bz' bs E1 E2 E3 He IH]; [constructor |]. apply offtout_bytes in E1, E2, E3. rewrite !bytes_ok_app. auto. Qed.
Lemma covers_bytes a b np op ts db eb : bytes_ok b -> covers a b np op ts db eb -> bytes_ok db /\ bytes_ok eb.
Proof.
  intros Hb. induction 1 as [| np op x y z0 ts db eb _ _ _ _ _ _ _ _ [IH1 IH2]]; [split; constructor |]. rewrite !bytes_ok_app. split_and!; try done; [| by apply bytes_ok_slice].
  unfold byte_diffs. generalize (slice b np x). intros l. generalize (slice a op x). induction l as [| v l IHl]; intros [| w k]; cbn; try constructor; [| apply IHl].
  apply Z.mod_pos_bound. lia.
Qed.

(** The patch [d], wherever it lies, makes [b] of [a]. *)
Definition patches (a d b : block) : Prop :=
  bytes_ok d /\ forall pre post, zlen (pre ++ d ++ post) < 2 ^ 31 ->
    ApplyBSDiffPatchMem bz fuel malloc rounds a (pre ++ d ++ post) (zlen (pre ++ d ++ post)) (zlen pre) = Val (0, Some b).

Lemma bsdiff_patches a b I : bytes_ok a -> bytes_ok b -> zlen a < 2 ^ 30 -> zlen b <= m ->
  zlen I = zlen a + 1 -> Forall (fun i => 0 <= i <= zlen a) I -> exists f, bsdiff bz_compress a b I = Val f /\ patches a f b.
Proof.
  intros Ha Hb La Lb HIl HI.
  destruct (bsdiff_is_patch_file bz bz_compress rest Hbz a b ltac:(lia) I HIl HI ltac:(lia)) as (f & ts & ctrl & db & eb & Hf & Hpf & Hcov & Henc & Hts & Hlf).
  exists f. split; [done |]. split.
  - unfold patch_file in Hpf. apply bind_Val_inv in Hpf as (h1 & H1 & Hpf). apply bind_Val_inv in Hpf as (h2 & H2 & Hpf).
    apply bind_Val_inv in Hpf as (h3 & H3 & Hpf). apply Val_inj in Hpf as <-. apply offtout_bytes in H1, H2, H3. apply encodes_bytes in Henc. apply (covers_bytes a b) in Hcov as [Hdb Heb]; [| done].
    apply bytes_ok_app. split; [apply (bool_decide_unpack _); by vm_compute |]. rewrite !bytes_ok_app. auto 10.
  - intros pre post Hl. destruct (Hmalloc (zlen b)) as (jb & Hj & Hjl & _); [pose proof (zlen_nonneg b); lia |].
    eapply (apply_patch_file bz bz_compress rest Hbz a b Ha Hb); try done; lia.
Qed.

Variables (old new pad old_pad : block) (bonus : option block).
Hypothesis Hold : bytes_ok old /\ zlen old < 2 ^ 30.
Hypothesis Hnew : bytes_ok new /\ zlen new <= m.
Hypothesis Hbonus : bytes_ok (default [] bonus).
Abbreviation src_img := (old ++ old_pad).
Abbreviation tgt_img := (new ++ pad).
Definition bonus_at (i : Z) : block := if i =? 1 then default [] bonus else [].

(** A patch of the [i]th chunk that makes [out]. *)
Inductive good (i : Z) : patched -> block -> Prop :=
| good_raw c d : ic_type c = CHUNK_RAW -> bytes_ok d -> good i (mkPatched c (Some d) (zlen d)) d
| good_normal c d out : ic_type c = CHUNK_NORMAL -> in_old old (ic_source_start c) (ic_source_len c) ->
    patches (slice old (ic_source_start c) (ic_source_len c)) d out -> good i (mkPatched c (Some d) (zlen d)) out
| good_deflate c d src target outs : ic_type c = CHUNK_DEFLATE -> in_old old (ic_source_start c) (ic_source_len c) ->
    0 <= ic_source_uncompressed_len c < 2 ^ 30 -> level_ok (ic_level c) -> ic_method c = Z_DEFLATED -> ic_windowBits c = -15 -> ic_memLevel c = 8 ->
    ic_strategy c = Z_DEFAULT_STRATEGY -> 0 <= ic_len c < 2 ^ 31 ->
    z_inflate z (slice old (ic_source_start c) (ic_source_len c)) (ic_source_uncompressed_len c) = (Z_STREAM_END, src) ->
    zlen src + zlen (bonus_at i) = ic_source_uncompressed_len c -> patches (src ++ bonus_at i) d target ->
    deflate_pieces fuel z (ic_level c) target outs -> good i (mkPatched c (Some d) (zlen d)) (concat outs).

(** What a source chunk must be for the [i]th target chunk: part of the old file, or the
    inflated part with the bonus data after it. *)
Definition source_for (i : Z) (s t : ImageChunk) : Prop :=
  (forall I sb, ic_I s = Some I -> bytes_of src_img s = Val sb -> zlen I = zlen sb + 1 /\ Forall (fun j => 0 <= j <= zlen sb) I) /\
  ((ic_type t = CHUNK_NORMAL /\ in_old old (ic_start s) (ic_len s) /\ bytes_of src_img s = Val (slice old (ic_start s) (ic_len s))) \/
   (ic_type t = CHUNK_DEFLATE /\ in_old old (ic_start s) (ic_deflate_len s) /\ ic_len s < 2 ^ 30 /\
    exists d, bytes_ok d /\ zlen d + zlen (bonus_at i) = ic_len s /\ bytes_of src_img s = Val (d ++ bonus_at i) /\
      z_inflate z (slice old (ic_start s) (ic_deflate_len s)) (ic_len s) = (Z_STREAM_END, d))).

(** What a target chunk must be. *)
Definition target_ok (p : Z) (t : ImageChunk) : Prop :=
  tile_ok p t /\ 0 <= p /\ p + clen t <= zlen new /\
  (ic_type t = CHUNK_DEFLATE -> reconstructs fuel z tgt_img t /\ ic_len t <= m /\ forall d, ic_data t = Own d -> bytes_ok d).

Lemma normal_bytes p t : target_ok p t -> ic_type t = CHUNK_NORMAL -> bytes_of tgt_img t = Val (slice new p (ic_len t)) /\ 0 <= ic_len t /\ p + ic_len t <= zlen new.
Proof.
  intros ((_ & Hc & [[_ Hd] | [Hx _]]) & Hp & Hl & _) Ht; [| by rewrite Ht in Hx]. rewrite (normal_clen t Ht) in *. unfold bytes_of. rewrite Hd.
  rewrite load_bytes_in, slice_front by (rewrite ?zlen_app; pose proof (zlen_nonneg pad); lia). done.
Qed.

Lemma raw_good i p t : target_ok p t -> ic_type t = CHUNK_NORMAL ->
  good i (mkPatched (set_type CHUNK_RAW t) (Some (slice new p (ic_len t))) (ic_len t)) (slice new p (clen t)).
Proof.
  intros Ht Hn. destruct (normal_bytes p t Ht Hn) as (_ & Hl & Hp). rewrite (normal_clen t Hn). destruct Ht as (_ & Hp0 & _).
  rewrite <- (zlen_slice new p (ic_len t)) at 2 by lia. apply good_raw; [done |]. apply bytes_ok_slice, Hnew.
Qed.

(** The suffixes that are used. *)
Lemma suffixes_used s sb : bytes_of src_img s = Val sb ->
  (forall I sb, ic_I s = Some I -> bytes_of src_img s = Val sb -> zlen I = zlen sb + 1 /\ Forall (fun j => 0 <= j <= zlen sb) I) ->
  let I := default (qsufsort sb) (ic_I s) in zlen I = zlen sb + 1 /\ Forall (fun j => 0 <= j <= zlen sb) I.
Proof. intros Hb HI. destruct (ic_I s) as [I |] eqn:E; cbn [default]; [by apply HI | apply Hsort]. Qed.

Lemma MakePatch_ok i p s t : target_ok p t -> source_for i s t ->
  exists d size s' t', MakePatch bz_compress qsufsort junk_size src_img tgt_img TempFine s t = Val (Some d, size, s', t') /\
    good i (mkPatched t' (Some d) size) (slice new p (clen t)) /\
    (s' = s \/ exists I sb, s' = set_I (Some I) s /\ bytes_of src_img s = Val sb /\ zlen I = zlen sb + 1 /\ Forall (fun j => 0 <= j <= zlen sb) I).
Proof.
  intros Ht (HI & Hs). unfold MakePatch. destruct Hs as [(Hn & Hin & Hb) | (Hd & Hin & Hsl & d0 & Hd0 & Hsum & Hb & Hinf)].
  - rewrite Hn. cbn [Z.eqb CHUNK_NORMAL andb]. destruct (normal_bytes p t Ht Hn) as (-> & Hl & Hp). cbn [mbind outcome_bind].
    destruct (ic_len t <=? 160); [do 4 eexists; split; [reflexivity |]; split; [by apply raw_good | by left] |].
    rewrite Hb. cbn [mbind outcome_bind]. destruct (suffixes_used s _ Hb HI) as [I1 I2]. set (I := default _ (ic_I s)) in *. destruct Hin as (In1 & In2 & In3).
    pose proof Ht as (_ & Hp0 & _).
    destruct (bsdiff_patches (slice old (ic_start s) (ic_len s)) (slice new p (ic_len t)) I) as (f & -> & Hf);
      [apply bytes_ok_slice, Hold | apply bytes_ok_slice, Hnew | rewrite zlen_slice by lia; lia | rewrite zlen_slice by lia; lia | done | done |].
    cbn [mbind outcome_bind]. assert (set_I (Some I) s = s \/ exists I' sb, set_I (Some I) s = set_I (Some I') s /\ bytes_of src_img s = Val sb /\ zlen I' = zlen sb + 1 /\ Forall (fun j => 0 <= j <= zlen sb) I') as Hs' by (right; eauto 10). rewrite Hb in Hs'.
    destruct (ic_len t <=? zlen f); [do 4 eexists; split; [reflexivity |]; split; [by apply raw_good | exact Hs'] |].
    rewrite (normal_clen t Hn). do 4 eexists. split; [reflexivity |]. split; [by apply good_normal | exact Hs'].
  - pose proof Ht as ((_ & Hc & Hdat) & Hp0 & Hlt & Hrec). destruct (Hrec Hd) as ((level & d & outs & Hlv & P1 & P2 & P3 & P4 & P5 & Hdd & Hpc & Hcat) & Hlm & Hdb).
    destruct Hdat as [[Hx _] | (_ & Hdp & d' & Hd' & Hdl)]; [by rewrite Hd in Hx |]. rewrite Hd' in Hdd. injection Hdd as ->.
    rewrite Hd. cbn [Z.eqb CHUNK_NORMAL CHUNK_DEFLATE andb Pos.eqb]. rewrite Hb. cbn [mbind outcome_bind]. rewrite (bytes_of_own _ t d Hd' Hdl). cbn [mbind outcome_bind].
    destruct (suffixes_used s _ Hb HI) as [I1 I2]. set (I := default _ (ic_I s)) in *. pose proof (zlen_nonneg d). pose proof (zlen_nonneg (bonus_at i)). pose proof (zlen_nonneg d0).
    assert (bytes_ok (bonus_at i)) as Hbb by (unfold bonus_at; destruct (i =? 1); [done | constructor]).
    destruct (bsdiff_patches (d0 ++ bonus_at i) d I) as (f & -> & Hf); [by apply bytes_ok_app | by apply Hdb | rewrite zlen_app; lia | lia | done | done |].
    cbn [mbind outcome_bind]. do 4 eexists. split; [reflexivity |]. split; [| right; eauto 10].
    rewrite (deflate_clen t Hd), <- (slice_front new pad) by (rewrite ?(deflate_clen t Hd) in *; lia). rewrite <- Hdp, <- Hcat.
    apply (good_deflate i _ f d0 d); cbn; rewrite ?P1; try done; try lia.
Qed.

(** ** The file *)

Inductive all_good : Z -> list patched -> list block -> Prop :=
| ag_nil i : all_good i [] []
| ag_cons i p ps out outs : good i p out -> all_good (i + 1) ps outs -> all_good i (p :: ps) (out :: outs).

Definition record_of (p : patched) (offset : Z) : chunk :=
  let c := p_chunk p in
  if ic_type c =? CHUNK_NORMAL then Normal (ic_source_start c) (ic_source_len c) offset
  else if ic_type c =? CHUNK_DEFLATE then
    Deflate (ic_source_start c) (ic_source_len c) offset (ic_source_uncompressed_len c) (ic_len c) (ic_level c) (ic_method c) (ic_windowBits c)
      (ic_memLevel c) (ic_strategy c)
  else Raw (default [] (p_data p)).
(** What of a patch comes after the records. *)
Definition appended (p : patched) : block := if ic_type (p_chunk p) =? CHUNK_RAW then [] else default [] (p_data p).
Fixpoint records (ps : list patched) (offset : Z) : list chunk :=
  match ps with [] => [] | p :: ps => record_of p offset :: records ps (offset + zlen (appended p)) end.

(** A patch that is there. *)
Definition whole (p : patched) : Prop :=
  (ic_type (p_chunk p) = CHUNK_NORMAL \/ ic_type (p_chunk p) = CHUNK_DEFLATE \/ ic_type (p_chunk p) = CHUNK_RAW) /\
  exists d, p_data p = Some d /\ p_size p = zlen d /\ bytes_ok d.

Lemma good_whole i p out : good i p out -> whole p.
Proof. destruct 1; (split; [cbn; auto | eexists; cbn; split_and!; try done]); by match goal with Hp : patches _ _ _ |- _ => destruct Hp end. Qed.
Lemma all_good_whole i ps outs : all_good i ps outs -> Forall whole ps.
Proof. induction 1; constructor; [by eapply good_whole | done]. Qed.

Lemma fwrite_whole d f : fwrite (Some d) (zlen d) f = Val (f ++ d).
Proof.
  unfold fwrite. destruct (Z.eqb_spec (zlen d) 0) as [E | _]; [destruct d; [by rewrite app_nil_r | zlia] |].
  rewrite load_bytes_in by (pose proof (zlen_nonneg d); lia). cbn. unfold slice, zlen. by rewrite Nat2Z.id, firstn_all.
Qed.

Lemma write_headers_ok ps : forall offset f, Forall whole ps ->
  write_headers ps offset f = Val (f ++ concat (chunk_record <$> records ps offset)).
Proof.
  induction ps as [| p ps IH]; intros offset f Hw; cbn [write_headers records]; [cbn; by rewrite app_nil_r |].
  apply Forall_cons in Hw as [(Ht & d & Hd & Hs & _) Hw]. rewrite fmap_cons. cbn [concat]. unfold record_of, appended, chunk_record at 1.
  destruct Ht as [Ht | [Ht | Ht]]; rewrite Ht, Hd, ?Hs; cbn [Z.eqb CHUNK_NORMAL CHUNK_DEFLATE CHUNK_RAW Pos.eqb default chunk_type chunk_body].
  - rewrite IH by done. rewrite !Write8_spec, Write4_spec, <- !app_assoc. done.
  - rewrite IH by done. rewrite !Write4_spec, !Write8_spec, ?Write4_spec, <- !app_assoc. done.
  - rewrite fwrite_whole. cbn [mbind outcome_bind]. rewrite IH by done. rewrite !Write4_spec, <- !app_assoc, Z.add_0_r. done.
Qed.

Lemma write_patches_ok ps : forall f, Forall whole ps -> write_patches ps f = Val (f ++ concat (appended <$> ps)).
Proof.
  induction ps as [| p ps IH]; intros f Hw; cbn [write_patches]; [cbn; by rewrite app_nil_r |].
  apply Forall_cons in Hw as [(Ht & d & Hd & Hs & _) Hw]. rewrite fmap_cons. cbn [concat]. unfold appended at 1. rewrite Hd, Hs.
  destruct (Z.eqb_spec (ic_type (p_chunk p)) CHUNK_RAW); cbn [negb mbind outcome_bind default]; [by rewrite IH |].
  rewrite fwrite_whole. cbn [mbind outcome_bind]. rewrite IH by done. by rewrite <- app_assoc.
Qed.

Lemma headers_size ps : forall n offset, Forall whole ps -> foldl (fun n p => n + header_size p) n ps = n + zlen (concat (chunk_record <$> records ps offset)).
Proof.
  induction ps as [| p ps IH]; intros n offset Hw; cbn [foldl records]; [change (zlen (concat (chunk_record <$> []))) with 0; lia |]. apply Forall_cons in Hw as [(Ht & d & Hd & Hs & _) Hw].
  rewrite fmap_cons. cbn [concat]. rewrite (IH _ (offset + zlen (appended p)) Hw), zlen_app. generalize (zlen (concat (chunk_record <$> records ps (offset + zlen (appended p))))). intros tl.
  unfold header_size, record_of, chunk_record. rewrite zlen_app, zlen_le_bytes. destruct Ht as [Ht | [Ht | Ht]]; rewrite Ht, ?Hd, ?Hs;
    cbn [Z.eqb CHUNK_NORMAL CHUNK_DEFLATE CHUNK_RAW Pos.eqb default chunk_type chunk_body]; rewrite ?zlen_app, ?zlen_le_bytes; cbn [id]; lia.
Qed.

Definition records_end (ps : list patched) : Z := foldl (fun n p => n + header_size p) 12 ps.
Lemma zlen_records ps : forall offset, zlen (records ps offset) = zlen ps.
Proof. induction ps as [| p ps IH]; intros offset; cbn [records]; [done |]. by rewrite !zlen_cons, IH. Qed.

Lemma write_file_ok ps : Forall whole ps -> write_file ps = Val (image_file (records ps (records_end ps)) (concat (appended <$> ps))).
Proof.
  intros Hw. unfold write_file. fold (records_end ps). rewrite write_headers_ok by done. cbn [mbind outcome_bind]. rewrite write_patches_ok by done.
  rewrite Write4_spec. unfold image_file. by rewrite zlen_records, <- !app_assoc.
Qed.

Lemma file_bytes ps : Forall whole ps -> bytes_ok (image_file (records ps (records_end ps)) (concat (appended <$> ps))).
Proof.
  intros Hw. unfold image_file. rewrite !bytes_ok_app. split; [apply (bool_decide_unpack _); by vm_compute |]. split; [apply le_bytes_ok |]. split.
  - generalize (records_end ps). induction Hw as [| p ps (Ht & d & Hd & Hs & Hb) Hw IH]; intros offset; cbn [records]; [constructor |]. rewrite fmap_cons. cbn [concat].
    apply bytes_ok_app. split; [| apply IH]. unfold chunk_record. apply bytes_ok_app. split; [apply le_bytes_ok |]. unfold record_of. rewrite Hd.
    repeat case_match; cbn [chunk_body default]; rewrite !bytes_ok_app; split_and!; try apply le_bytes_ok; done.
  - induction Hw as [| p ps (Ht & d & Hd & Hs & Hb) Hw IH]; [constructor |]. rewrite fmap_cons. cbn [concat]. apply bytes_ok_app. split; [| done].
    unfold appended. rewrite Hd. case_match; [constructor | done].
Qed.

(** The records and the patches behind them make the pieces of the new file. *)
Lemma pieces_ok ps outs i : all_good i ps outs -> forall patch pre post offset, patch = pre ++ concat (appended <$> ps) ++ post -> offset = zlen pre -> zlen patch < 2 ^ 31 ->
  exists pieces, all_pieces (chunk_pieces bz fuel rounds malloc z old patch bonus) i (records ps offset) pieces /\ concat pieces = concat outs.
Proof.
  induction 1 as [i | i p ps out outs Hg Hps IH]; intros patch pre post offset Hpatch -> Hlt; [exists []; split; [constructor | done] |].
  rewrite fmap_cons in Hpatch. cbn [concat] in Hpatch. cbn [records].
  destruct (IH patch (pre ++ appended p) post (zlen pre + zlen (appended p))) as (pieces & Hall & Hcat); [by rewrite Hpatch, <- !app_assoc | by rewrite zlen_app | done |].
  set (tl := concat (appended <$> ps) ++ post) in *. cbn [concat]. pose proof (zlen_nonneg pre).
  assert (zlen pre < 2 ^ 31) by (rewrite Hpatch, !zlen_app in Hlt; pose proof (zlen_nonneg (appended p)); pose proof (zlen_nonneg (concat (appended <$> ps))); pose proof (zlen_nonneg post); lia).
  assert (forall a d b, appended p = d -> patches a d b -> ApplyBSDiffPatchMem bz fuel malloc rounds a patch (zlen patch) (zlen pre) = Val (0, Some b)) as Happly.
  { intros a d b <- [_ Hp]. specialize (Hp pre tl). unfold tl in Hp. rewrite <- Hpatch in Hp || (rewrite <- app_assoc in Hpatch; rewrite <- Hpatch in Hp). by apply Hp. }
  enough (exists ps1, chunk_pieces bz fuel rounds malloc z old patch bonus i (record_of p (zlen pre)) ps1 /\ concat ps1 = out) as (ps1 & Hc & Hco).
  { exists (ps1 ++ pieces). split; [by constructor |]. by rewrite concat_app, Hco, Hcat. }
  destruct Hg as [c d Ht Hd | c d out Ht Hin Hp | c d src target outs' Ht Hin He Hlv M1 M2 M3 M4 Hcl Hinf Hsum Hp [Hdef Hn]]; unfold record_of, appended in *; cbn [p_chunk p_data default] in *; rewrite Ht in *;
    cbn [Z.eqb CHUNK_NORMAL CHUNK_DEFLATE CHUNK_RAW Pos.eqb] in *.
  - exists [d]. split; [by constructor | cbn; by rewrite app_nil_r].
  - exists [out]. split; [| cbn; by rewrite app_nil_r]. apply cp_normal; [done | lia |]. by eapply Happly.
  - destruct (zo_deflate _ _ Hz _ _ (Z.max (ic_source_uncompressed_len c) 32768) Hdef) as (outs2 & Hd2 & Hc2 & Hl2); [unfold BUFFER_SIZE; lia |].
    destruct (Hmalloc (ic_source_uncompressed_len c)) as (buf & Hb & Hbl & _); [lia |]. exists outs2. split; [| done].
    rewrite M1, M2, M3, M4 in *. eapply (cp_deflate bz fuel rounds malloc z old patch bonus i _ _ _ _ _ _ _ _ _ _ src buf target outs2); try done; try lia.
    + repeat constructor; unfold Z_DEFLATED, Z_DEFAULT_STRATEGY; destruct Hlv; lia.
    + by eapply Happly.
Qed.

Lemma applied ps outs {D} (SHA_update : D -> block -> D) token ctx : all_good 0 ps outs -> concat outs = new ->
  exists f, write_file ps = Val f /\ (zlen f < 2 ^ 31 -> exists pieces, concat pieces = new /\
    ApplyImagePatch bz fuel rounds malloc z (fun d t => (zlen d, t ++ d)) SHA_update old f token ctx bonus = Val (0, token ++ new, foldl SHA_update ctx pieces)).
Proof.
  intros Hg Hc. pose proof (all_good_whole _ _ _ Hg) as Hw. eexists. split; [by apply write_file_ok |]. intros Hl.
  set (f := image_file _ _) in *.
  destruct (pieces_ok ps outs 0 Hg f (str "IMGDIFF2" ++ le_bytes 4 (zlen (records ps (records_end ps))) ++ concat (chunk_record <$> records ps (records_end ps))) [] (records_end ps))
    as (pieces & Hall & Hcat).
  - unfold f, image_file. by rewrite app_nil_r, <- !app_assoc.
  - rewrite !zlen_app, zlen_le_bytes. unfold records_end at 1. rewrite (headers_size ps 12 (records_end ps) Hw). change (zlen (str "IMGDIFF2")) with 8. lia.
  - done.
  - exists pieces. split; [congruence |].
    rewrite (ApplyImagePatch_spec bz fuel rounds malloc z _ SHA_update app) with (cs := records ps (records_end ps)) (tail := concat (appended <$> ps)) (pieces := pieces);
      [| done | apply (zo_init _ _ Hz) | by apply file_bytes | lia | done | done | done].
    f_equal. f_equal. f_equal. rewrite <- Hc, <- Hcat. generalize token. clear. induction pieces as [| x pieces IH]; intros token; cbn; [by rewrite app_nil_r |]. by rewrite IH, app_assoc.
Qed.
End Patches.

(** ** Reading an image *)

Section Images.
Context `{Arch} (fuel : nat) (z : zlib) (iz : inflater) (junk : ImageChunk).
Hypothesis Hz : zlib_ok z iz.
Variable file : block.
Hypothesis Hfile : zlen file < 2 ^ 30.
Abbreviation img := (file ++ [0; 0; 0; 0]).

(** The data of a deflate chunk is what its part of the file inflates to. *)
Definition inflates_to (c : ImageChunk) : Prop := ic_type c = CHUNK_DEFLATE ->
  exists d, ic_data c = Own d /\ zlen d = ic_len c /\ bytes_ok d /\
    forall r, ic_len c <= r < 2 ^ 31 -> z_inflate z (slice file (ic_start c) (ic_deflate_len c)) r = (Z_STREAM_END, d).

Lemma inflate_all_ok input n : forall strm got allocated got' strm', inflated iz input strm got -> bytes_ok got -> inflate_all iz n strm got allocated = Val (got', strm') ->
  inflated iz input strm' got' /\ bytes_ok got' /\
  forall r, zlen got' <= r < 2 ^ 31 -> z_inflate z (take (Z.to_nat (zlen input - i_avail_in iz strm')) input) r = (Z_STREAM_END, got').
Proof.
  induction n as [| n IH]; intros strm got allocated got' strm' Hi Hb Hr; cbn [inflate_all] in Hr; [done |].
  destruct (i_inflate iz strm _) as [[ret out] strm1] eqn:E. destruct (_ <? _); [done |].
  assert (inflated iz input strm1 (got ++ out)) as Hi1 by (by eapply inf_step).
  assert (bytes_ok (got ++ out)) as Hb1 by (apply bytes_ok_app; split; [done | by eapply (zo_stream_bytes _ _ Hz)]).
  destruct (Z.eqb_spec ret Z_STREAM_END) as [-> | Hne]; cbn [negb] in Hr; [| by eapply IH].
  apply Val_inj in Hr. injection Hr as <- <-. split_and!; [done | done |]. by eapply (zo_inflate _ _ Hz).
Qed.

Lemma normal_tile pos len : 0 <= len -> tile_ok pos (normal_at junk pos len) /\ clen (normal_at junk pos len) = len.
Proof. intros Hl. unfold tile_ok, clen. cbn. split_and!; auto. Qed.

Lemma gzip_at_ok pos cs pos' : 0 <= pos -> gzip_at fuel iz junk img (zlen file) pos = Val (Some (cs, pos')) ->
  tiles pos cs pos' /\ Forall (fun c => ic_I c = None) cs /\ Forall inflates_to cs.
Proof.
  intros Hp Hg. unfold gzip_at in Hg. unfold GZIP_HEADER_LEN in Hg. apply bind_Val_inv in Hg as (input & Hin & Hg).
  assert (pos + 10 <= zlen file) as Hle.
  { destruct (Z.le_gt_cases (pos + 10) (zlen file)) as [| Hgt]; [done |]. exfalso. unfold load_bytes in Hin.
    destruct (_ && _) eqn:Eb; [| done]. apply andb_true_iff in Eb as [_ Hx]. apply Z.leb_le in Hx. rewrite zlen_app in Hx. change (zlen [0; 0; 0; 0]) with 4 in Hx.
    unfold u32, wrapu in Hx. destruct (Z.le_gt_cases (- 2 ^ 32) (zlen file - (pos + 10))).
    - rewrite <- (Z.mod_add _ 1), Z.mod_small in Hx by lia. lia.
    - pose proof (Z.mod_pos_bound (zlen file - (pos + 10)) (2 ^ 32) ltac:(lia)). lia. }
  rewrite wrapu_id in Hin by lia. rewrite load_bytes_in, slice_front in Hin by (rewrite ?zlen_app; change (zlen [0; 0; 0; 0]) with 4; lia). apply Val_inj in Hin as <-.
  apply bind_Val_inv in Hg as ([got strm] & Hinf & Hg). set (input := slice file (pos + 10) (zlen file - (pos + 10))) in *.
  assert (zlen input = zlen file - (pos + 10)) as Hil by (apply zlen_slice; lia).
  destruct (inflate_all_ok input fuel _ _ _ _ _ (inf_start iz input) ltac:(constructor) Hinf) as (Hi & Hb & Hone).
  pose proof (zo_avail _ _ Hz _ _ _ Hi) as Hav. cbv zeta in Hg. apply bind_Val_inv in Hg as (fs & _ & Hg). destruct (negb _); [done |].
  apply Val_inj in Hg. injection Hg as <- <-. set (dl := zlen file - i_avail_in iz strm - (pos + 10)) in *.
  destruct (normal_tile pos 10 ltac:(lia)) as [T1 C1]. destruct (normal_tile (pos + 10 + dl) GZIP_FOOTER_LEN ltac:(unfold GZIP_FOOTER_LEN; lia)) as [T3 C3].
  split_and!.
  - constructor; [exact T1 |]. rewrite C1. constructor.
    + unfold tile_ok, clen. cbn. split_and!; [done | lia | right; eauto].
    + replace (pos + 10 + clen _) with (pos + 10 + dl) by (unfold clen; cbn; lia). constructor; [exact T3 |]. rewrite C3. constructor.
  - repeat constructor.
  - repeat constructor; try (by intros Hx). intros _. exists got. cbn. split_and!; [done | done | done |]. intros r Hr. rewrite <- (Hone r Hr). f_equal.
    rewrite Hil. unfold input, slice. rewrite take_take. f_equal. lia.
Qed.

Lemma find_gzip_nonneg n : forall m p k, find_gzip n m p = Val k -> 0 <= k.
Proof.
  induction n as [| n IH]; intros m p k Hk; cbn [find_gzip] in Hk; [injection Hk as <-; lia |].
  apply bind_Val_inv in Hk as ([] & _ & Hk); [injection Hk as <-; lia |]. apply bind_Val_inv in Hk as (k' & Hk' & Hk). apply Val_inj in Hk as <-. apply IH in Hk'. lia.
Qed.

Lemma image_chunks_ok n : forall pos cs, 0 <= pos -> image_chunks fuel iz junk n img (zlen file) pos = Val (Some cs) ->
  (exists q, tiles pos cs q) /\ Forall (fun c => ic_I c = None) cs /\ Forall inflates_to cs.
Proof.
  induction n as [| n IH]; intros pos cs Hp Hc; cbn [image_chunks] in Hc; (destruct (_ <=? _); [apply Val_inj in Hc; injection Hc as <-; split_and!; [eexists; constructor | constructor ..] |]); [done |].
  apply bind_Val_inv in Hc as (gz & _ & Hc). destruct gz.
  - apply bind_Val_inv in Hc as ([[cs1 pos1] |] & Hg & Hc); [| done]. destruct (gzip_at_ok pos cs1 pos1 Hp Hg) as (G1 & G2 & G3). pose proof (tiles_le _ _ _ G1).
    apply bind_Val_inv in Hc as ([cs2 |] & Hr & Hc); [| done]. apply Val_inj in Hc. injection Hc as <-. destruct (IH pos1 cs2 ltac:(lia) Hr) as ([q R1] & R2 & R3).
    split_and!; [exists q; apply tiles_app; eauto | by apply Forall_app | by apply Forall_app].
  - apply bind_Val_inv in Hc as (len & Hl & Hc). apply find_gzip_nonneg in Hl. apply bind_Val_inv in Hc as ([cs2 |] & Hr & Hc); [| done]. apply Val_inj in Hc. injection Hc as <-.
    destruct (IH (pos + len) cs2 ltac:(lia) Hr) as ([q R1] & R2 & R3). destruct (normal_tile pos len Hl) as [T C].
    split_and!; [exists q; constructor; [exact T | by rewrite C] | by constructor | constructor; [by intros Hx | done]].
Qed.

Lemma ReadImage_ok i cs : ReadImage fuel iz junk (Contents file) = Val (Some (i, cs)) -> chunks_end cs = zlen file ->
  i = img /\ tiles 0 cs (zlen file) /\ Forall (fun c => ic_I c = None) cs /\ Forall inflates_to cs.
Proof.
  intros Hr He. unfold ReadImage in Hr. apply bind_Val_inv in Hr as ([cs' |] & Hc & Hr); [| done]. apply Val_inj in Hr. injection Hr as <- <-.
  destruct (image_chunks_ok fuel 0 cs' ltac:(lia) Hc) as ([q Ht] & R2 & R3). split_and!; [done | | done | done]. rewrite <- He.
  destruct cs' as [| c cs']; [inversion Ht; subst; constructor |]. by rewrite <- (tiles_end _ _ _ Ht).
Qed.
End Images.

(** ** Image patches *)

(** A tile and the rest of the file. *)
Lemma rest_tile (new : block) p t ts : tiles p (t :: ts) (zlen new) -> 0 <= p ->
  slice new p (zlen new - p) = slice new p (clen t) ++ slice new (p + clen t) (zlen new - (p + clen t)).
Proof.
  intros Ht Hp. inversion Ht as [| ? ? ? ? (_ & Hc & _) Ht']; subst. apply tiles_le in Ht'. rewrite <- slice_app by lia. f_equal. lia.
Qed.

Section Whole.
Context `{Arch} (bz : bzlib) (bz_compress : block -> block) (rest : bz_stream bz -> block -> Prop) (qsufsort : block -> list Z).
Context (fuel rounds : nat) (malloc : Z -> option block) (z : zlib) (iz : inflater) (junk : ImageChunk) (junk_size m : Z).
Hypothesis Hbz : bzlib_ok bz bz_compress rest.
Hypothesis Hbytes : forall d, bytes_ok d -> bytes_ok (bz_compress d).
Hypothesis Hsort : suffixes_ok qsufsort.
Hypothesis Hmalloc : malloc_ok malloc.
Hypothesis Hz : zlib_ok z iz.
Hypothesis Hm : m < 2 ^ 25 /\ m + 24 <= Z.of_nat fuel /\ m + 1 <= Z.of_nat rounds.
Variables (old new pad old_pad : block) (bonus : option block).
Hypothesis Hold : bytes_ok old /\ zlen old < 2 ^ 30.
Hypothesis Hnew : bytes_ok new /\ zlen new <= m.
Hypothesis Hbonus : bytes_ok (default [] bonus).
Abbreviation src_img := (old ++ old_pad).
Abbreviation tgt_img := (new ++ pad).

(** A deflate chunk that can be made again. *)
Definition remade (t : ImageChunk) : Prop :=
  ic_type t = CHUNK_DEFLATE -> reconstructs fuel z tgt_img t /\ ic_len t <= m /\ forall d, ic_data t = Own d -> bytes_ok d.
Definition small_source (s : ImageChunk) : Prop := ic_type s = CHUNK_DEFLATE -> ic_len s + zlen (default [] bonus) < 2 ^ 30.

(** The source of the [i]th chunk with its bonus data. *)
Lemma source_ok (i : nat) p s t : tile_ok p s -> 0 <= p -> p + clen s <= zlen old -> ic_type s = ic_type t -> inflates_to z old s -> ic_I s = None -> small_source s ->
  (bonus = None \/ i <> 1%nat \/ ic_type s = CHUNK_DEFLATE) ->
  exists s', match bonus with Some b => if negb false && Nat.eqb i 1 then add_bonus b s else Val s | None => Val s end = Val s' /\
    source_for z old old_pad bonus (Z.of_nat i) s' t.
Proof.
  intros Ht Hp Hl Hty Hinf HI Hsm Hb. destruct (tile_type _ _ Ht) as [Hn | Hd].
  - assert (match bonus with Some b => if negb false && Nat.eqb i 1 then add_bonus b s else Val s | None => Val s end = Val s) as ->.
    { destruct bonus as [b |]; [| done]. destruct (Nat.eqb_spec i 1) as [Hi |]; [| done]. exfalso. destruct Hb as [Hb | [Hb | Hb]]; [done | done |]. by rewrite Hn in Hb. }
    exists s. split; [done |]. split; [intros I sb Hx; by rewrite HI in Hx |]. left. destruct Ht as (Hs & Hc & [[_ Hdat] | [Hx _]]); [| by rewrite Hn in Hx].
    rewrite (normal_clen s Hn) in *. rewrite Hs. split_and!; [congruence | split_and!; lia |]. unfold bytes_of. rewrite Hdat.
    by rewrite load_bytes_in, slice_front by (rewrite ?zlen_app; pose proof (zlen_nonneg old_pad); lia).
  - destruct (Hinf Hd) as (d & Hdat & Hdl & Hdb & Hz1). specialize (Hsm Hd). destruct Ht as (Hs & Hc & _). rewrite (deflate_clen s Hd) in *.
    pose proof (zlen_nonneg d). pose proof (zlen_nonneg (default [] bonus)).
    assert (match bonus with Some b => if negb false && Nat.eqb i 1 then add_bonus b s else Val s | None => Val s end =
      Val (if decide (bonus_at bonus (Z.of_nat i) = []) then match bonus with Some _ => if Nat.eqb i 1 then set_chunk (ic_type s) (ic_start s) (ic_len s + 0) (Own d) s else s | None => s end
           else set_chunk (ic_type s) (ic_start s) (ic_len s + zlen (bonus_at bonus (Z.of_nat i))) (Own (d ++ bonus_at bonus (Z.of_nat i))) s)) as ->.
    { unfold bonus_at. destruct bonus as [b |]; cbn [default]; [| destruct (_ =? 1); by rewrite decide_True].
      replace (Z.of_nat i =? 1) with (Nat.eqb i 1) by (destruct (Nat.eqb_spec i 1), (Z.eqb_spec (Z.of_nat i) 1); lia).
      destruct (Nat.eqb i 1); cbn [negb andb]; [| by rewrite decide_True]. unfold add_bonus. rewrite Hdat.
      pose proof (bytes_of_own [] s d Hdat Hdl) as Hbo. unfold bytes_of in Hbo. rewrite Hdat in Hbo. rewrite Hbo. cbn [mbind outcome_bind].
      case_decide as Eb; [| done]. unfold id in Eb. subst b. by rewrite app_nil_r. }
    eexists. split; [reflexivity |]. set (bo := bonus_at bonus (Z.of_nat i)).
    assert (zlen bo <= zlen (default [] bonus)) by (unfold bo, bonus_at; destruct (_ =? 1); [done | change (zlen []) with 0; lia]).
    set (s1 := if decide _ then _ else _).
    assert (ic_data s1 = Own (d ++ bo) /\ ic_len s1 = ic_len s + zlen bo /\ ic_start s1 = ic_start s /\ ic_deflate_len s1 = ic_deflate_len s /\ ic_I s1 = None) as (D1 & D2 & D3 & D4 & D5).
    { unfold s1. case_decide as Eb; [| by split_and!]. fold bo in Eb. rewrite Eb, app_nil_r. change (zlen []) with 0.
      destruct bonus as [b |]; [destruct (Nat.eqb i 1) |]; split_and!; try done; lia. }
    pose proof (zlen_nonneg bo).
    split; [intros I sb Hx; by rewrite D5 in Hx |]. right. rewrite D2, D3, D4. split_and!; [congruence | split_and!; lia | lia |]. exists d. fold bo.
    split_and!; [done | lia | apply bytes_of_own; [done | rewrite zlen_app; lia] | apply Hz1; lia].
Qed.

Lemma make_images_ok temp ts : (forall i, temp i = TempFine) -> forall pre ss p p', tiles p ts (zlen new) -> tiles p' ss (zlen old) -> 0 <= p -> 0 <= p' ->
  ic_type <$> ss = ic_type <$> ts -> Forall remade ts -> Forall (inflates_to z old) ss -> Forall (fun c => ic_I c = None) ss -> Forall small_source ss ->
  (bonus = None \/ forall k c, ss !! k = Some c -> (length pre + k = 1)%nat -> ic_type c = CHUNK_DEFLATE) ->
  exists ps outs, make_patches bz_compress qsufsort junk_size false src_img tgt_img temp bonus (length pre) ts (pre ++ ss) = Val ps /\
    all_good bz fuel rounds malloc z old bonus (Z.of_nat (length pre)) ps outs /\ concat outs = slice new p (zlen new - p).
Proof.
  intros Htemp. induction ts as [| t ts IH]; intros pre ss p p' Ht Hs Hp Hp' Hty Hr Hi HI Hsm Hb.
  { inversion Ht; subst. exists [], []. split_and!; [done | constructor |]. rewrite Z.sub_diag. by rewrite slice_0. }
  destruct ss as [| s ss]; [done |]. rewrite !fmap_cons in Hty. injection Hty as Hty1 Hty2.
  apply Forall_cons in Hr as [Hr1 Hr]. apply Forall_cons in Hi as [Hi1 Hi]. apply Forall_cons in HI as [HI1 HI]. apply Forall_cons in Hsm as [Hsm1 Hsm].
  pose proof (rest_tile new p t ts Ht Hp) as Hcut. inversion Ht as [| ? ? ? ? Hct Ht']; subst. inversion Hs as [| ? ? ? ? Hcs Hs']; subst.
  pose proof (tiles_le _ _ _ Ht') as Hle. pose proof (tiles_le _ _ _ Hs') as Hle'. pose proof Hct as (_ & Hct0 & _). pose proof Hcs as (_ & Hcs0 & _).
  cbn [make_patches source_index mbind outcome_bind].
  rewrite (proj2 (load_Val _ _ s)) by (rewrite Nat2Z.id; split; [lia | by rewrite list_lookup_middle]). cbn [mbind outcome_bind].
  destruct (source_ok (length pre) p' s t Hcs Hp' ltac:(lia) Hty1 Hi1 HI1 Hsm1) as (s1 & -> & Hs1).
  { destruct Hb as [Hb | Hb]; [by left |]. right. destruct (decide (length pre = 1%nat)) as [E |]; [right | by left]. apply (Hb 0%nat s); [done | lia]. }
  cbn [mbind outcome_bind]. rewrite Htemp.
  destruct (MakePatch_ok bz bz_compress rest qsufsort fuel rounds malloc z junk_size m Hbz Hbytes Hsort Hmalloc Hm old new pad old_pad bonus Hold Hnew Hbonus
    (Z.of_nat (length pre)) p s1 t) as (d & size & s2 & t2 & -> & Hg & _); [split_and!; [done | done | lia | done] | done |]. cbn [mbind outcome_bind].
  rewrite insert_app_r_alt, Nat.sub_diag by done. cbn [insert list_insert].
  destruct (IH (pre ++ [s2]) ss (p + clen t) (p' + clen s)) as (ps & outs & Hps & Hgs & Hcat); [done | done | lia | lia | done .. | |].
  { destruct Hb as [Hb | Hb]; [by left |]. right. intros k c Hk Hlen. apply (Hb (S k) c); [done |]. rewrite length_app in Hlen. cbn in Hlen. lia. }
  rewrite length_app, Nat.add_1_r, <- !app_assoc in Hps. cbn [app] in Hps. rewrite Hps. cbn [mbind outcome_bind].
  rewrite length_app, Nat.add_1_r, Nat2Z.inj_succ in Hgs.
  eexists _, (slice new p (clen t) :: outs). split; [reflexivity |]. split; [constructor; [done | by rewrite <- Z.add_1_r in Hgs] |]. cbn [concat]. by rewrite Hcat, Hcut.
Qed.
End Whole.

(** What an image pair must be: both are read and end with their last chunk, they have the
    same structure, deflating the target's data again ends, and the sizes are small. *)
Record images_ok `{Arch} (fuel : nat) (z : zlib) (iz : inflater) (junk : ImageChunk) (m : Z) (old new bonus : block) (ss ts : list ImageChunk) : Prop := {
  io_source : ReadImage fuel iz junk (Contents old) = Val (Some (old ++ [0; 0; 0; 0], ss));
  io_target : ReadImage fuel iz junk (Contents new) = Val (Some (new ++ [0; 0; 0; 0], ts));
  io_ends : chunks_end ss = zlen old /\ chunks_end ts = zlen new;
  io_same : ic_type <$> MergeAdjacentNormalChunks ss = ic_type <$> MergeAdjacentNormalChunks ts;
  io_fits : Forall (fun t => ic_type t = CHUNK_DEFLATE -> fits fuel z (new ++ [0; 0; 0; 0]) t /\ ic_len t <= m) ts;
  io_small : Forall (fun s => ic_type s = CHUNK_DEFLATE -> ic_len s + zlen bonus < 2 ^ 30) ss
}.

Section Split.
Context `{Arch} (fuel : nat) (z : zlib) (iz : inflater) (junk : ImageChunk) (m : Z).
Hypothesis Hz : zlib_ok z iz.
Hypothesis Hm : m < 2 ^ 25.
Variables (old new : block) (bonus : option block) (ss ts : list ImageChunk).
Hypothesis Hold : zlen old < 2 ^ 30.
Hypothesis Hnew : zlen new <= m.
Hypothesis Hio : images_ok fuel z iz junk m old new (default [] bonus) ss ts.

Lemma split_images_ok : exists ss' ts',
  split_images fuel z iz junk (Contents old) (Contents new) = Val (Some (old ++ [0; 0; 0; 0], new ++ [0; 0; 0; 0], ss', ts')) /\
  tiles 0 ts' (zlen new) /\ tiles 0 ss' (zlen old) /\ ic_type <$> ss' = ic_type <$> ts' /\ Forall (remade fuel z m new [0; 0; 0; 0]) ts' /\
  Forall (inflates_to z old) ss' /\ Forall (fun c => ic_I c = None) ss' /\ Forall (small_source bonus) ss'.
Proof.
  destruct Hio as [Rs Rt [Es Et] Hsame Hfits Hsmall]. unfold split_images. rewrite Rs, Rt. cbn [mbind outcome_bind].
  destruct (ReadImage_ok fuel z iz junk Hz old Hold _ ss Rs Es) as (_ & S1 & S2 & S3).
  destruct (ReadImage_ok fuel z iz junk Hz new ltac:(lia) _ ts Rt Et) as (_ & T1 & T2 & T3).
  destruct (Merge_ok ss 0 (zlen old) S1 ltac:(lia) ltac:(lia) S2) as (MS1 & _ & MS3 & MS4).
  destruct (Merge_ok ts 0 (zlen new) T1 ltac:(lia) ltac:(lia) T2) as (MT1 & _ & MT3 & MT4).
  set (ms := MergeAdjacentNormalChunks ss) in *. set (mt := MergeAdjacentNormalChunks ts) in *.
  assert (length ms = length mt) as Hlen by (by rewrite <- (length_fmap ic_type ms), Hsame, length_fmap).
  rewrite Hlen, Nat.eqb_refl, bool_decide_true by done. cbn [negb]. rewrite !Forall_forall in Hfits, Hsmall, S3, T3.
  destruct (prepare_images_ok fuel z (old ++ [0; 0; 0; 0]) (new ++ [0; 0; 0; 0]) mt [] ms 0 (zlen new) 0 (zlen old) MT1 MS1) as (ts' & ss' & Hpr & P1 & P2 & P3 & P4 & P5 & P6 & P7);
    [lia | lia | rewrite zlen_app; change (zlen [0; 0; 0; 0]) with 4; lia | rewrite zlen_app; change (zlen [0; 0; 0; 0]) with 4; lia | done | | done | done |].
  { apply Forall_forall. intros t Ht Hd. apply (Hfits t); [by apply MT4 | done]. }
  cbn [length app] in Hpr. rewrite Hpr. cbn [mbind outcome_bind].
  destruct (Merge_ok ss' 0 (zlen old) P2 ltac:(lia) ltac:(lia) P6) as (NS1 & NS2 & NS3 & NS4).
  destruct (Merge_ok ts' 0 (zlen new) P1 ltac:(lia) ltac:(lia) P5) as (NT1 & NT2 & NT3 & NT4).
  set (ns := MergeAdjacentNormalChunks ss') in *. set (nt := MergeAdjacentNormalChunks ts') in *.
  assert (ic_type <$> ns = ic_type <$> nt) as Hty by congruence.
  assert (length ns = length nt) as Hlen2 by (by rewrite <- (length_fmap ic_type ns), Hty, length_fmap).
  rewrite Hlen2, Nat.eqb_refl. cbn [negb]. exists ns, nt. rewrite Forall_forall in P4.
  split_and!; try done; apply Forall_forall.
  - intros t Hin Hd. destruct (P4 t (NT4 t Hin Hd) Hd) as (Hrec & t0 & Hin0 & Hd0 & Hl0 & Hdat0 & _). destruct (Hfits t0 (MT4 t0 Hin0 Hd0) Hd0) as [_ Hlm].
    destruct (T3 t0 (MT4 t0 Hin0 Hd0) Hd0) as (d & Hd1 & _ & Hdb & _). split_and!; [done | lia |]. intros d2 Hd2. congruence.
  - intros s Hin Hd. exact (S3 s (MS4 s (P7 s (NS4 s Hin Hd) Hd) Hd) Hd).
  - intros s Hin Hd. exact (Hsmall s (MS4 s (P7 s (NS4 s Hin Hd) Hd) Hd) Hd).
Qed.
End Split.

(** ** Small libraries *)

(** Data in blocks of up to 255 bytes behind their length. *)
Fixpoint in_blocks (n : nat) (d : block) : block :=
  match n with
  | O => []
  | S n => if zlen d <? 255 then zlen d :: d else 255 :: take 255 d ++ in_blocks n (drop 255 d)
  end.
Fixpoint from_blocks (n : nat) (s : block) : block :=
  match n, s with
  | S n, k :: s => take (Z.to_nat k) s ++ (if k =? 255 then from_blocks n (drop 255 s) else [])
  | _, _ => []
  end.
Definition block_compress (d : block) : block := in_blocks (S (length d)) d.
Definition block_bz : bzlib := {|
  bz_stream := block;
  BZ2_bzDecompressInit m n := from_blocks (length m) m;
  BZ2_bzDecompress s room := let n := Z.to_nat (Z.min room (zlen s)) in (BZ_OK, take n s, drop n s)
|}.

Lemma blocks_back n : forall d k tail, (length d < n)%nat -> (length (in_blocks n d) <= k)%nat -> from_blocks k (in_blocks n d ++ tail) = d.
Proof.
  induction n as [| n IH]; intros d k tail Hn Hk; [lia |]. cbn [in_blocks] in *. destruct (Z.ltb_spec (zlen d) 255) as [Hlt | Hge].
  - destruct k as [| k]; [cbn in Hk; lia |]. cbn [app from_blocks]. rewrite (proj2 (Z.eqb_neq _ _)), app_nil_r by lia. unfold zlen. by rewrite Nat2Z.id, take_app_length.
  - destruct k as [| k]; [cbn in Hk; lia |]. assert (length (take 255 d) = 255%nat) as Hl by (rewrite length_take; unfold zlen in Hge; lia).
    cbn [app from_blocks Z.eqb]. rewrite Pos.eqb_refl, <- app_assoc. change (Z.to_nat 255) with 255%nat. rewrite take_app_length', drop_app_length' by done.
    cbn in Hk. rewrite length_app in Hk. rewrite IH; [by rewrite take_drop | rewrite length_drop; unfold zlen in Hge; lia | lia].
Qed.
Lemma blocks_size n : forall d, 255 * zlen (in_blocks n d) <= 256 * zlen d + 255.
Proof.
  induction n as [| n IH]; intros d; cbn [in_blocks]; [change (zlen []) with 0; pose proof (zlen_nonneg d); lia |]. destruct (Z.ltb_spec (zlen d) 255) as [Hlt | Hge]; rewrite zlen_cons; [pose proof (zlen_nonneg d); lia |].
  rewrite zlen_app. specialize (IH (drop 255 d)). assert (zlen (take 255 d) = 255) by (unfold zlen in *; rewrite length_take; lia).
  assert (zlen (drop 255 d) = zlen d - 255) by (unfold zlen in *; rewrite length_drop; lia). lia.
Qed.
Lemma blocks_bytes n : forall d, bytes_ok d -> bytes_ok (in_blocks n d).
Proof.
  induction n as [| n IH]; intros d Hd; cbn [in_blocks]; [constructor |]. pose proof (zlen_nonneg d). destruct (Z.ltb_spec (zlen d) 255); constructor; try done; [unfold is_byte; lia |].
  apply bytes_ok_app. split; [by apply Forall_take | apply IH; by apply Forall_drop].
Qed.
Lemma block_bz_ok : bzlib_ok block_bz block_compress eq.
Proof.
  split.
  - intros d tail n _. cbn [block_bz BZ2_bzDecompressInit]. unfold block_compress. apply blocks_back; [lia | rewrite length_app; lia].
  - intros s d room -> Hd Hr. cbn. do 4 eexists. split; [done |]. split; [by left |].
    split; [| by rewrite take_drop]. unfold zlen. rewrite length_take. destruct d; [done |]. simpl. lia.
  - intros d. unfold block_compress. pose proof (blocks_size (S (length d)) d). pose proof (Z.div_mod (zlen d) 100). pose proof (Z.mod_pos_bound (zlen d) 100). pose proof (zlen_nonneg d). lia.
Qed.

(** Deflated data is its length and the data. *)
Definition counted_inflate (input : block) : Z * block :=
  match input with
  | n :: d => if (0 <=? n) && (n <=? zlen d) then (Z_STREAM_END, (fun b => u8 b) <$> take (Z.to_nat n) d) else (-5, [])
  | [] => (-5, [])
  end.
Definition counted_zlib : zlib := {|
  z_inflateInit2 := Z_OK;
  z_inflate input _ := counted_inflate input;
  z_deflating := block;
  z_deflateInit2 _ _ _ _ _ d := d;
  z_deflate d _ := (Z_STREAM_END, zlen d :: d, [])
|}.
(** The stream is the input, or at its end what is left of it. *)
Definition counted_inflater : inflater := {|
  i_stream := block + block;
  i_init input := inl input;
  i_inflate s _ :=
    match s with
    | inl input =>
        let '(ret, out) := counted_inflate input in
        if ret =? Z_STREAM_END then (ret, out, inr (drop (length out) (tail input))) else (ret, [], s)
    | inr _ => (-5, [], s)
    end;
  i_avail_in s := match s with inl input => zlen input | inr l => zlen l end
|}.

Lemma counted_bytes input : bytes_ok (counted_inflate input).2.
Proof.
  unfold counted_inflate. destruct input as [| n d]; [constructor |]. destruct (_ && _); [| constructor]. cbn. apply Forall_fmap, Forall_true. intros b.
  apply Z.mod_pos_bound. lia.
Qed.

Lemma counted_inflated input s got : inflated counted_inflater input s got ->
  (s = inl input /\ got = []) \/ (counted_inflate input = (Z_STREAM_END, got) /\ s = inr (drop (length got) (tail input))).
Proof.
  induction 1 as [| s got room ret out s' Hi IH E]; [by left |]. destruct IH as [[-> ->] | [Hc ->]]; cbn in E.
  - destruct (counted_inflate input) as [r o] eqn:Ec. destruct (Z.eqb_spec r Z_STREAM_END) as [-> |]; injection E as <- <- <-; [by right | by left].
  - injection E as <- <- <-. right. by rewrite app_nil_r.
Qed.

Lemma counted_end input got : counted_inflate input = (Z_STREAM_END, got) ->
  exists n d, input = n :: d /\ 0 <= n <= zlen d /\ got = (fun b => u8 b) <$> take (Z.to_nat n) d /\ zlen got = n.
Proof.
  intros Hc. destruct input as [| n d]; [done |]. cbn in Hc. destruct (Z.leb_spec 0 n), (Z.leb_spec n (zlen d)); cbn in Hc; try done. injection Hc as <-.
  exists n, d. split_and!; try done. unfold zlen in *. rewrite length_fmap, length_take. lia.
Qed.

Lemma counted_ok : zlib_ok counted_zlib counted_inflater.
Proof.
  split.
  - done.
  - intros input room ret out E. cbn in E. pose proof (counted_bytes input) as Hb. by rewrite E in Hb.
  - intros s room ret out s' E. cbn in E. destruct s as [input | l]; [| by injection E as _ <- _; constructor].
    pose proof (counted_bytes input) as Hb. destruct (counted_inflate input) as [r o]. destruct (r =? _); injection E as _ <- _; [done | constructor].
  - intros input s got [[-> ->] | [Hc ->]]%counted_inflated; cbn; [pose proof (zlen_nonneg input); lia |].
    destruct (counted_end _ _ Hc) as (n & d & -> & Hn & _ & Hl). cbn [tail]. rewrite zlen_cons. unfold zlen in *. rewrite length_drop. lia.
  - intros input s got room out s' Hi E r Hr. pose proof (inf_step counted_inflater input s got room _ out s' Hi E) as Hi2.
    destruct (counted_inflated _ _ _ Hi2) as [[-> Hg] | [Hc ->]].
    + destruct (counted_inflated _ _ _ Hi) as [[-> _] | [_ ->]]; cbn in E; [| done]. destruct (counted_inflate input) as [r1 o1]. destruct (Z.eqb_spec r1 Z_STREAM_END); [done |]. injection E as -> _. done.
    + destruct (counted_end _ _ Hc) as (n & d & -> & Hn & Hg & Hl). cbn [counted_zlib z_inflate counted_inflater i_avail_in tail].
      replace (Z.to_nat (zlen (n :: d) - zlen (drop (length (got ++ out)) d))) with (S (Z.to_nat n)) by (rewrite zlen_cons; unfold zlen in *; rewrite length_drop; lia).
      cbn [take counted_inflate]. rewrite !(proj2 (Z.leb_le _ _)) by (unfold zlen in *; rewrite ?length_take; lia). cbn [andb]. by rewrite take_take, Nat.min_id, <- Hg.
  - intros s outs room Hd Hr. inversion Hd as [? out s' E Hl | ? ret out s' ? E Hne]; subst; cbn in E; [| by injection E as <- _ _].
    injection E as <- <-. exists [zlen s :: s]. split_and!; [| done | done]. eapply def_end; [done | lia].
Qed.

Lemma counted_fits fuel img t d : (1 <= fuel)%nat -> ic_data t = Own d -> zlen d < 1000 -> ic_deflate_data t + 1 + zlen d <= zlen img -> fits fuel counted_zlib img t.
Proof.
  intros Hf Hd Hl Hi level d' _ Hd'. rewrite Hd in Hd'. injection Hd' as <-. exists [zlen d :: d]. split; [split |].
  - eapply def_end; [done |]. rewrite zlen_cons. unfold BUFFER_SIZE. lia.
  - cbn. lia.
  - cbn [concat]. rewrite app_nil_r, zlen_cons. lia.
Qed.

(** Two images with a gzip in the middle. *)
Definition gzip_of (d : block) : block := [31; 139; 8; 0; 1; 1; 1; 1; 1; 1] ++ [zlen d] ++ d ++ [7; 7; 7; 7] ++ le_bytes 4 (zlen d).
Definition image_old : block := [1; 2; 3] ++ gzip_of demo_old ++ [4; 5].
Definition image_new : block := [1; 2; 3; 4] ++ gzip_of demo_new ++ [6].
Definition image_host : host := mkHost (fun n => if bool_decide (n = str "old") then Contents image_old else if bool_decide (n = str "new") then Contents image_new else Contents [80; 90]) (fun _ => TempFine) true.
Definition junk_chunk : ImageChunk := mkImageChunk 77 77 77 (InImage 77) 77 77 None 77 77 None 77 77 77 77 77 77.
Definition all_suffixes (s : block) : list Z := Z.of_nat <$> seq 0 (S (length s)).

Lemma all_suffixes_ok : suffixes_ok all_suffixes.
Proof.
  intros s. split; [unfold all_suffixes, zlen; rewrite length_fmap, length_seq; lia |]. unfold all_suffixes. apply Forall_fmap, Forall_forall.
  intros k Hk%elem_of_seq. cbn. unfold zlen. lia.
Qed.
Lemma demo_malloc_ok : malloc_ok demo_malloc.
Proof.
  intros n Hn. eexists. split; [reflexivity |]. split; [unfold zlen; rewrite length_replicate; lia |]. apply Forall_replicate. done.
Qed.

(** ** Properties *)

(** The files the program is called with, and no failing call. *)
Definition files_ok (h : host) (src tgt bonus_name : block) (old new : block) (bonus : option block) : Prop :=
  h_file h src = Contents old /\ h_file h tgt = Contents new /\ (forall b, bonus = Some b -> h_file h bonus_name = Contents b) /\
  h_can_write h = true /\ (forall i, h_temp h i = TempFine) /\ src <> str "-z" /\ src <> str "-b".

(** C10: the patch that imgdiff makes rebuilds the target: for two images of the same
    structure the program exits with 0, and applying the file it writes to the source, with
    the same bonus data, returns 0 and has written exactly the target; gzip parts whose
    compression cannot be repeated are treated as plain data. *)
Theorem imgdiff_imgpatch_roundtrip `{Arch} (bz : bzlib) (bz_compress : block -> block) rest (qsufsort : block -> list Z) (fuel rounds : nat)
    (malloc : Z -> option block) (z : zlib) (iz : inflater) (junk : ImageChunk) (junk_size m : Z) (h : host) (src tgt bonus_name out : block)
    (old new : block) (bonus : option block) (ss ts : list ImageChunk) {D} (SHA_update : D -> block -> D) (token : block) (ctx : D) :
  bzlib_ok bz bz_compress rest -> (forall d, bytes_ok d -> bytes_ok (bz_compress d)) -> suffixes_ok qsufsort -> malloc_ok malloc -> zlib_ok z iz ->
  m < 2 ^ 25 /\ m + 24 <= Z.of_nat fuel /\ m + 1 <= Z.of_nat rounds -> bytes_ok old /\ zlen old < 2 ^ 30 -> bytes_ok new /\ zlen new <= m ->
  bytes_ok (default [] bonus) -> files_ok h src tgt bonus_name old new bonus -> images_ok fuel z iz junk m old new (default [] bonus) ss ts ->
  (bonus = None \/ forall si ti ss' ts' c, split_images fuel z iz junk (Contents old) (Contents new) = Val (Some (si, ti, ss', ts')) ->
     ss' !! 1%nat = Some c -> ic_type c = CHUNK_DEFLATE) ->
  exists f, main bz_compress qsufsort fuel malloc z iz junk junk_size h ((if bonus then [str "-b"; bonus_name] else []) ++ [src; tgt; out]) = Val (0, Some f) /\
    (zlen f < 2 ^ 31 -> exists pieces, concat pieces = new /\
       ApplyImagePatch bz fuel rounds malloc z (fun d t => (zlen d, t ++ d)) SHA_update old f token ctx bonus = Val (0, token ++ new, foldl SHA_update ctx pieces)).
Proof.
  intros Hbz Hbytes Hsort Hmalloc Hz Hm Hold Hnew Hbonus (Fs & Ft & Fb & Fw & Ftemp & Nz & Nb) Hio Hdef.
  destruct (split_images_ok fuel z iz junk m Hz ltac:(lia) old new bonus ss ts ltac:(lia) ltac:(lia) Hio) as (ss' & ts' & Hsp & P1 & P2 & P3 & P4 & P5 & P6 & P7).
  destruct (make_images_ok bz bz_compress rest qsufsort fuel rounds malloc z junk_size m Hbz Hbytes Hsort Hmalloc Hm old new [0; 0; 0; 0] [0; 0; 0; 0] bonus Hold Hnew Hbonus
    (h_temp h) ts' Ftemp [] ss' 0 0 P1 P2) as (ps & outs & Hps & Hg & Hcat); [lia | lia | done | done | done | done | done | |].
  { destruct Hdef as [Hb | Hb]; [by left |]. right. intros k c Hk Hlen. cbn in Hlen. subst k. eapply Hb; [exact Hsp | exact Hk]. }
  rewrite Z.sub_0_r in Hcat. assert (slice new 0 (zlen new) = new) as Hall by (unfold slice, zlen; by rewrite Nat2Z.id, drop_0, firstn_all). rewrite Hall in Hcat.
  destruct (applied bz fuel rounds malloc z iz Hmalloc Hz old new [] [] bonus Hold ps outs SHA_update token ctx Hg Hcat) as (f & Hf & Happ).
  exists f. split; [| exact Happ]. unfold main. cbn [app length] in Hps.
  destruct bonus as [b |]; cbn [app].
  - rewrite bool_decide_false by (by vm_compute). rewrite bool_decide_true by done. rewrite (Fb b eq_refl), Fs, Ft, Hsp. cbn [mbind outcome_bind]. rewrite Hps. cbn [mbind outcome_bind].
    rewrite Fw. cbn [negb]. by rewrite Hf.
  - rewrite !bool_decide_false by done. rewrite Fs, Ft, Hsp. cbn [mbind outcome_bind]. rewrite Hps. cbn [mbind outcome_bind]. rewrite Fw. cbn [negb]. by rewrite Hf.
Qed.

Definition image_args : list block := [str "-b"; str "bonus"; str "old"; str "new"; str "patch"].
Definition image_main : outcome (Z * option block) :=
  @main LP64 block_compress all_suffixes 200 demo_malloc counted_zlib counted_inflater junk_chunk 77 image_host image_args.
Definition chunks_of (file : block) : list ImageChunk :=
  match @ReadImage LP64 200 counted_inflater junk_chunk (Contents file) with Val (Some (_, cs)) => cs | _ => [] end.

Lemma image_demo_ok : @images_ok LP64 200 counted_zlib counted_inflater junk_chunk 100 image_old image_new [80; 90] (chunks_of image_old) (chunks_of image_new).
Proof.
  split.
  - vm_compute. reflexivity.
  - vm_compute. reflexivity.
  - vm_compute. split; reflexivity.
  - vm_compute. reflexivity.
  - remember (chunks_of image_new) as cs eqn:E. vm_compute in E. subst cs. repeat (apply List.Forall_cons; [intros Ht; try discriminate Ht |]); [| apply List.Forall_nil].
    split; [| vm_compute; congruence]. eapply counted_fits; [lia | reflexivity | vm_compute; congruence | vm_compute; congruence].
  - remember (chunks_of image_old) as cs eqn:E. vm_compute in E. subst cs. repeat (apply List.Forall_cons; [intros Ht; try discriminate Ht |]); [| apply List.Forall_nil].
    vm_compute. congruence.
Qed.

Lemma image_demo_deflate si ti ss' ts' c :
  @split_images LP64 200 counted_zlib counted_inflater junk_chunk (Contents image_old) (Contents image_new) = Val (Some (si, ti, ss', ts')) ->
  ss' !! 1%nat = Some c -> ic_type c = CHUNK_DEFLATE.
Proof.
  intros Hs Hc.
  assert (match @split_images LP64 200 counted_zlib counted_inflater junk_chunk (Contents image_old) (Contents image_new) with
          | Val (Some (_, _, ss, _)) => ic_type <$> ss !! 1%nat | _ => None end = Some CHUNK_DEFLATE) as E by (vm_compute; reflexivity).
  rewrite Hs, Hc in E. by injection E.
Qed.

Lemma image_demo_small f : image_main = Val (0, Some f) -> zlen f < 2 ^ 31.
Proof.
  intros Hf. assert ((let* (_, f) := image_main in Val (zlen (default [] f) <? 2 ^ 31)) = Val true) as Hn by (vm_compute; reflexivity).
  rewrite Hf in Hn. apply Z.ltb_lt. by injection Hn.
Qed.

Lemma imgdiff_imgpatch_roundtrip_witness : exists f pieces, image_main = Val (0, Some f) /\ concat pieces = image_new /\
  @ApplyImagePatch LP64 block_bz 200 200 demo_malloc counted_zlib block block (fun d t => (zlen d, t ++ d)) app image_old f [] [] (Some [80; 90]) =
    Val (0, image_new, foldl app [] pieces).
Proof.
  destruct (@imgdiff_imgpatch_roundtrip LP64 block_bz block_compress eq all_suffixes 200 200 demo_malloc counted_zlib counted_inflater junk_chunk 77 100
    image_host (str "old") (str "new") (str "bonus") (str "patch") image_old image_new (Some [80; 90]) (chunks_of image_old) (chunks_of image_new) block app [] [])
    as (f & Hf & Happ).
  - exact block_bz_ok.
  - intros d. apply blocks_bytes.
  - exact all_suffixes_ok.
  - exact demo_malloc_ok.
  - exact counted_ok.
  - lia.
  - split; [apply (bool_decide_unpack _); vm_compute; exact Logic.I | vm_compute; reflexivity].
  - split; [apply (bool_decide_unpack _); vm_compute; exact Logic.I | vm_compute; congruence].
  - apply (bool_decide_unpack _). vm_compute. exact Logic.I.
  - unfold files_ok. split_and!; try (vm_compute; congruence); try (intros; reflexivity).
  - exact image_demo_ok.
  - right. exact image_demo_deflate.
  - destruct (Happ (image_demo_small f Hf)) as (pieces & Hp & Ha). exists f, pieces. split; [exact Hf |]. split; [exact Hp | exact Ha].
Defined.

(** ** Departures *)

(** An image that ends with the first three bytes of a gzip header is never read to its
    end: the search takes the zero that was added for the fourth byte, and the chunk it
    makes is empty. *)
Lemma image_end_diverges `{Arch} (fuel n : nat) (iz : inflater) (junk : ImageChunk) : image_chunks fuel iz junk n ([31; 139; 8] ++ [0; 0; 0; 0]) 3 0 = Trap NoFuel.
Proof.
  induction n as [| n IH]; [done |]. cbn [image_chunks]. change (3 <=? 0) with false. change (4 <=? 3 - 0) with false. cbn [mbind outcome_bind].
  assert (find_gzip (Z.to_nat (3 - 0)) ([31; 139; 8] ++ [0; 0; 0; 0]) 0 = Val 0) as -> by done. cbn [mbind outcome_bind]. change (0 + 0) with 0. by rewrite IH.
Qed.

(** Nor is one with a gzip header before data that zlib refuses. *)
Lemma bad_gzip_diverges `{Arch} (iz : inflater) strm ret : (forall room, i_inflate iz strm room = (ret, [], strm)) -> ret <> Z_STREAM_END ->
  forall n got allocated, zlen got < allocated -> inflate_all iz n strm got allocated = Trap NoFuel.
Proof.
  intros Hi Hr n. induction n as [| n IH]; intros got allocated Hl; cbn [inflate_all]; [done |]. rewrite Hi. change (zlen (@nil Z)) with 0.
  rewrite (proj2 (Z.ltb_ge _ _)) by lia. rewrite app_nil_r. rewrite (proj2 (Z.eqb_neq (zlen got) allocated)) by lia. rewrite (proj2 (Z.eqb_neq ret _)) by done. cbn [negb]. by apply IH.
Qed.

(** An image that ends inside the footer of a gzip is read, but its last chunk ends behind
    it: the patch makes zeros that the target does not have. *)
Example truncated_footer : let file := take 18 (gzip_of [5; 6]) in zlen file = 18 /\ chunks_end (chunks_of file) = 21.
Proof. by vm_compute. Qed.
