(* ===== verification/ImgDiffZip.v ===== *)
(** * The patches of imgdiff.c for archives

    In zip mode the chunks of the target are its deflated entries and what is between them;
    an entry is patched from the entry of the same name in the source, everything else from
    the whole source. *)

From stdpp Require Import base numbers list sorting.
From stdpp Require Import strings.
From S2P Require Import Prelude CString Bits Bspatch ImgPatch ImgDiff ImgDiffProps.

(** ** Reading an archive *)

Section Zips.
Context `{Arch} (malloc : Z -> option block) (z : zlib) (iz : inflater) (junk : ImageChunk).
Hypothesis Hmalloc : malloc_ok malloc.
Hypothesis Hz : zlib_ok z iz.
Variable img : block.
Hypothesis Himg : zlen img < 2 ^ 30.

Definition offset_ok (e : ZipFileEntry) : Prop := 0 <= data_offset e < 2 ^ 31.

Lemma bytes_are_start p b bs x : bytes_are img p (b :: bs) = Val x -> 0 <= p.
Proof. cbn [bytes_are]. intros Hb. apply bind_Val_inv in Hb as (y & Hy & _). apply load_range in Hy. lia. Qed.

Lemma Read2_nonneg p v : Read2 img p = Val v -> bytes_ok img -> 0 <= v.
Proof.
  intros Hr Hb. assert (0 <= p /\ p + 2 <= zlen img) as [Hp Hl].
  { unfold Read2 in Hr. apply bind_Val_inv in Hr as (a & Ha & Hr). apply load_range in Ha. apply bind_Val_inv in Hr as (b & Hb' & _). apply load_range in Hb'. lia. }
  rewrite Read2_spec in Hr by done. apply Val_inj in Hr as <-. by apply le_val_range, bytes_ok_slice.
Qed.

Lemma read_entries_ok n : bytes_ok img -> forall cd es, read_entries n img cd = Val (Some es) -> Forall offset_ok es.
Proof.
  intros Hb. induction n as [| n IH]; intros cd es He; cbn [read_entries] in He; [apply Val_inj in He; injection He as <-; constructor |].
  apply bind_Val_inv in He as (ok & _ & He). destruct (negb ok); [done |].
  apply bind_Val_inv in He as (clen0 & _ & He). apply bind_Val_inv in He as (ulen & _ & He). apply bind_Val_inv in He as (nlen & _ & He). apply bind_Val_inv in He as (xlen & _ & He). apply bind_Val_inv in He as (mlen & _ & He).
  apply bind_Val_inv in He as (hoffset & _ & He). apply bind_Val_inv in He as (name & _ & He). apply bind_Val_inv in He as (method & _ & He).
  destruct (negb (method =? 8)); [by eapply IH |]. apply bind_Val_inv in He as (ok2 & Hok2 & He). apply bytes_are_start in Hok2. destruct (negb ok2); [done |].
  apply bind_Val_inv in He as (lnlen & Hn & He). apply bind_Val_inv in He as (same & Hsame & He). destruct same; [| done]. cbn [negb] in He.
  apply bind_Val_inv in He as (xlen2 & Hx & He). apply bind_Val_inv in He as (offset & Ho & He). apply bind_Val_inv in He as ([rest |] & Hr & He); [| done].
  apply Val_inj in He. injection He as <-. constructor; [| by eapply IH]. unfold offset_ok. cbn [data_offset].
  destruct (Z.eqb_spec lnlen nlen) as [<- |]; [| done]. apply Read2_nonneg in Hn, Hx; [| done | done].
  unfold c_int, in_int in Ho. destruct (_ && _) eqn:E; [| done]. apply Val_inj in Ho as <-. apply andb_true_iff in E as [_ E2]. apply Z.ltb_lt in E2. change (32 - 1) with 31 in E2. lia.
Qed.

(** No chunk is longer than the file, and no entry much longer. *)
Definition small_chunk (c : ImageChunk) : Prop := clen c <= zlen img /\ (ic_type c = CHUNK_DEFLATE -> ic_len c < 2 ^ 30).

(** A deflated entry: it has a name, and its data is what inflating has left in the buffer. *)
Definition entry_chunk (c : ImageChunk) : Prop := ic_type c = CHUNK_DEFLATE ->
  0 <= ic_start c /\ 0 <= ic_deflate_len c /\ ic_start c + ic_deflate_len c <= zlen img /\ (exists name, ic_filename c = Some name) /\
  exists d out, ic_data c = Own d /\ zlen d = ic_len c /\ bytes_ok d /\
    z_inflate z (slice img (ic_start c) (ic_deflate_len c)) (ic_len c) = (Z_STREAM_END, out) /\ (zlen out = ic_len c -> d = out).

Lemma deflated_at_ok pos e c : 0 <= pos -> deflated_at malloc z junk img pos e = Val (Some c) -> small_chunk c ->
  tile_ok pos c /\ pos + clen c <= zlen img /\ ic_I c = None /\ entry_chunk c.
Proof.
  intros Hp Hd (Hc & Hl). unfold deflated_at in Hd. apply bind_Val_inv in Hd as (buf & Hbuf & Hd). apply bind_Val_inv in Hd as (input & Hin & Hd).
  destruct (z_inflate z input _) as [ret out] eqn:Ez. apply bind_Val_inv in Hd as (buf2 & Hst & Hd). destruct (Z.eqb_spec ret Z_STREAM_END) as [-> |]; [| done]. cbn [negb] in Hd.
  apply Val_inj in Hd. injection Hd as <-. unfold clen in Hc. cbn in Hc, Hl. specialize (Hl eq_refl). set (dl := size_t (e_deflate_len e)) in *. set (len := size_t (uncomp_len e)) in *.
  assert (0 <= dl /\ 0 <= len) as [Hdl Hlen] by (pose proof word_pos; split; apply wrapu_range; destruct word_bits_ok; lia).
  rewrite wrapu_id in Hin, Ez by lia. unfold allocate in Hbuf. destruct (Hmalloc len) as (b & Hb & Hbl & Hbb); [lia |]. rewrite Hb in Hbuf. apply Val_inj in Hbuf as <-.
  assert (pos + dl <= zlen img) as Hle.
  { unfold load_bytes in Hin. destruct (_ && _) eqn:E; [| done]. apply andb_true_iff in E as [_ E]. apply Z.leb_le in E. lia. }
  rewrite load_bytes_in in Hin by lia. apply Val_inj in Hin as <-.
  unfold store_bytes in Hst. destruct (_ && _) eqn:E; [| done]. apply andb_true_iff in E as [_ E]. apply Z.leb_le in E. apply Val_inj in Hst. assert (out ++ drop (length out) b = buf2) as Hst' by exact Hst. clear Hst. rename Hst' into Hst.
  assert (bytes_ok out) as Hob by (by eapply (zo_bytes _ _ Hz)).
  assert (zlen buf2 = len) as Hb2 by (rewrite <- Hst; unfold zlen in *; rewrite length_app, length_drop; lia).
  assert (bytes_ok buf2) by (rewrite <- Hst; apply bytes_ok_app; split; [done | by apply Forall_drop]).
  split_and!; cbn.
  - unfold tile_ok, clen. cbn. split_and!; [done | done | right; eauto].
  - unfold clen. cbn. done.
  - done.
  - intros _. cbn. split_and!; [done | done | done | eauto |]. exists buf2, out. split_and!; try done. intros Ho. rewrite <- Hst, drop_ge, app_nil_r by (unfold zlen in *; lia). done.
Qed.

Lemma zip_chunks_ok n : forall pos es cs, 0 <= pos -> Forall offset_ok es -> zip_chunks malloc z junk n img pos es = Val (Some cs) -> Forall small_chunk cs ->
  (exists q, tiles pos cs q) /\ Forall (fun c => ic_I c = None) cs /\ Forall entry_chunk cs.
Proof.
  induction n as [| n IH]; intros pos es cs Hp Hes Hc Hs; cbn [zip_chunks] in Hc; destruct (Z.leb_spec (zlen img) pos);
    try (apply Val_inj in Hc; injection Hc as <-; split_and!; [eexists; constructor | constructor ..]); [done |].
  assert (forall len es', 0 <= len -> pos + len < 2 ^ 31 -> Forall offset_ok es' ->
    (let* rest := zip_chunks malloc z junk n img (i32 (pos + len)) es' in Val (cons (set_filename None (normal_at junk pos len)) <$> rest)) = Val (Some cs) ->
    (exists q, tiles pos cs q) /\ Forall (fun c => ic_I c = None) cs /\ Forall entry_chunk cs) as Hnormal.
  { intros len es' Hl Hlt Hes' Hr. rewrite wraps_id in Hr by lia. apply bind_Val_inv in Hr as ([rest |] & Hr & Heq); [| done]. apply Val_inj in Heq. injection Heq as <-.
    apply Forall_cons in Hs as [_ Hs]. destruct (IH (pos + len) es' rest ltac:(lia) Hes' Hr Hs) as ([q R1] & R2 & R3).
    split_and!; [exists q; constructor; [unfold tile_ok, clen; cbn; split_and!; auto | by unfold clen; cbn] | by constructor | constructor; [by intros Hx | done]]. }
  destruct es as [| e es]; [apply (Hnormal (zlen img - pos) []); [lia | lia | constructor | done] |]. apply Forall_cons in Hes as [He Hes].
  destruct (Z.eqb_spec pos (data_offset e)) as [-> | Hne].
  - apply bind_Val_inv in Hc as ([c |] & Hd & Hc); [| done]. apply bind_Val_inv in Hc as ([rest |] & Hr & Hc); [| done]. apply Val_inj in Hc. injection Hc as <-.
    apply Forall_cons in Hs as [Hs1 Hs]. destruct (deflated_at_ok _ e c Hp Hd Hs1) as (T1 & T2 & T3 & T4).
    assert (clen c = ic_deflate_len c) as Ecl. { unfold deflated_at in Hd. apply bind_Val_inv in Hd as (? & _ & Hd). apply bind_Val_inv in Hd as (? & _ & Hd). destruct (z_inflate _ _ _).
      apply bind_Val_inv in Hd as (? & _ & Hd). destruct (negb _); [done |]. apply Val_inj in Hd. by injection Hd as <-. }
    rewrite <- Ecl, wraps_id in Hr by (pose proof T1 as (_ & ? & _); lia).
    destruct (IH (data_offset e + clen c) es rest ltac:(pose proof T1 as (_ & ? & _); lia) Hes Hr Hs) as ([q R1] & R2 & R3). split_and!; [exists q; by constructor | by constructor | by constructor].
  - set (len := size_t (data_offset e - pos)) in *. assert (0 <= len /\ len <= zlen img) as [Hl0 Hl1].
    { split; [pose proof word_pos; apply wrapu_range; destruct word_bits_ok; lia |]. apply bind_Val_inv in Hc as ([rest |] & _ & Hc); [| done]. apply Val_inj in Hc. injection Hc as <-.
      apply Forall_cons in Hs as [[Hs1 _] _]. unfold clen in Hs1. by cbn in Hs1. }
    destruct He as [He1 He2]. assert (pos <= data_offset e) as Hge.
    { destruct (Z.le_gt_cases pos (data_offset e)); [done |]. exfalso. unfold len, size_t, wrapu in Hl1. rewrite <- (Z.mod_add _ 1), Z.mod_small in Hl1 by (destruct word_bits_ok as [-> | ->]; lia).
      destruct word_bits_ok as [Hw | Hw]; rewrite Hw in Hl1; lia. }
    unfold len in *. rewrite size_t_id in * by lia. apply (Hnormal (data_offset e - pos) (e :: es)); [lia | lia | constructor; [by split | done] | done].
Qed.

(** The chunks of an archive, with the whole of it before them when it is the source. *)
Lemma ReadZip_ok pseudo i cs : bytes_ok img -> ReadZip malloc z junk (Contents img) pseudo = Val (Some (i, cs)) -> Forall small_chunk cs ->
  i = img /\ exists cs', cs = (if pseudo then [set_filename None (normal_at junk 0 (zlen img))] else []) ++ cs' /\
    (exists q, tiles 0 cs' q) /\ Forall (fun c => ic_I c = None) cs' /\ Forall entry_chunk cs'.
Proof.
  intros Hb Hr Hs. unfold ReadZip in Hr. apply bind_Val_inv in Hr as (k & _ & Hr). apply bind_Val_inv in Hr as (single & _ & Hr). destruct (negb single); [done |].
  apply bind_Val_inv in Hr as (cdcount & _ & Hr). apply bind_Val_inv in Hr as (cdoffset & _ & Hr). apply bind_Val_inv in Hr as ([es |] & He & Hr); [| done].
  apply read_entries_ok in He; [| done]. cbv zeta in Hr. apply bind_Val_inv in Hr as ([cs' |] & Hc & Hr); [| done]. apply Val_inj in Hr. injection Hr as <- <-.
  split; [done |]. exists cs'. split; [done |]. apply Forall_app in Hs as [_ Hs]. eapply zip_chunks_ok; [done | | exact Hc | exact Hs].
  rewrite merge_sort_Permutation. exact He.
Qed.
End Zips.

(** ** Names *)

Definition is_named (nm : block) (c : ImageChunk) : Prop :=
  ic_type c = CHUNK_DEFLATE /\ exists f, ic_filename c = Some f /\ up_to_nul f = up_to_nul nm.

Lemma found_named nm cs : forall k, FindChunkByName nm cs = Some k -> exists c, cs !! k = Some c /\ is_named nm c.
Proof.
  induction cs as [| c cs IH]; intros k Hk; cbn [FindChunkByName] in Hk; [done |]. destruct (_ && _) eqn:E.
  - injection Hk as <-. exists c. split; [done |]. apply andb_true_iff in E as [Et En]. apply Z.eqb_eq in Et. destruct (ic_filename c) as [f |] eqn:Ef; [| done].
    apply bool_decide_eq_true in En. split; [done |]. eauto.
  - destruct (FindChunkByName nm cs) as [k' |]; [| done]. injection Hk as <-. by apply IH.
Qed.

(** A chunk with another name, or a change that keeps type and name, does not matter. *)
Lemma found_insert nm cs : forall k c c', cs !! k = Some c ->
  (ic_type c' = ic_type c /\ ic_filename c' = ic_filename c) \/ (~ is_named nm c /\ ~ is_named nm c') -> FindChunkByName nm (<[k := c']> cs) = FindChunkByName nm cs.
Proof.
  assert (forall c, ~ is_named nm c -> (ic_type c =? CHUNK_DEFLATE) && match ic_filename c with Some f => bool_decide (up_to_nul nm = up_to_nul f) | None => false end = false) as Hno.
  { intros c Hc. destruct (Z.eqb_spec (ic_type c) CHUNK_DEFLATE); [| done]. destruct (ic_filename c) as [f |] eqn:Ef; [| done]. apply bool_decide_eq_false. intros Hx. apply Hc. split; [done |]. eauto. }
  induction cs as [| d cs IH]; intros k c c' Hk Hc; [done |]. destruct k as [| k].
  - change (<[0%nat := c']> (d :: cs)) with (c' :: cs). cbn [FindChunkByName]. injection Hk as ->. destruct Hc as [[-> ->] | [H1 H2]]; [done |]. by rewrite (Hno c H1), (Hno c' H2).
  - change (<[S k := c']> (d :: cs)) with (d :: <[k := c']> cs). cbn [FindChunkByName]. by rewrite (IH k c c').
Qed.

Lemma alter_insert_chunk (f : ImageChunk -> ImageChunk) (cs : list ImageChunk) k c : cs !! k = Some c -> alter f k cs = <[k := f c]> cs.
Proof. revert k. induction cs as [| d cs IH]; intros [| k] Hk; try done; cbn in *; [by injection Hk as -> | f_equal; by apply IH]. Qed.

(** ** Deciding on the entries *)

Section PrepareZip.
Context `{Arch} (fuel : nat) (z : zlib).

Definition has_name (nm : block) (t : ImageChunk) : Prop := ic_type t = CHUNK_DEFLATE /\ ic_filename t = Some nm.

(** Nothing but the deflate chunks changes, and they become normal. *)
Definition sources_changed (ss ss' : list ImageChunk) : Prop :=
  forall k, (ss' !! k = ss !! k) \/ (exists s, ss !! k = Some s /\ ic_type s = CHUNK_DEFLATE /\ ss' !! k = Some (ChangeDeflateChunkToNormal s)).

Definition in_file (img : block) (c : ImageChunk) : Prop :=
  ic_type c = CHUNK_DEFLATE -> 0 <= ic_deflate_data c /\ 0 <= ic_deflate_len c /\ ic_deflate_data c + ic_deflate_len c <= zlen img.

Lemma change_normal c : ic_type c = CHUNK_DEFLATE -> ic_type (ChangeDeflateChunkToNormal c) = CHUNK_NORMAL.
Proof. intros Hd. unfold ChangeDeflateChunkToNormal. by rewrite Hd. Qed.

Lemma changed_other nm nm' ss k : FindChunkByName nm' ss = Some k -> up_to_nul nm <> up_to_nul nm' ->
  FindChunkByName nm (change_source (Some k) ss) = FindChunkByName nm ss.
Proof.
  intros Hf Hne. destruct (found_named _ _ _ Hf) as (c & Hk & Hd & f & Hfn & Hup). cbn [change_source]. rewrite (alter_insert_chunk _ _ _ c Hk).
  apply (found_insert nm ss k c); [done |]. right. split.
  - intros (_ & f2 & Hf2 & Hu2). rewrite Hfn in Hf2. injection Hf2 as <-. congruence.
  - intros [Hx _]. by rewrite change_normal in Hx.
Qed.

Lemma changed_one k ss c : ss !! k = Some c -> ic_type c = CHUNK_DEFLATE -> sources_changed ss (change_source (Some k) ss).
Proof.
  intros Hk Hd j. cbn [change_source]. rewrite (alter_insert_chunk _ _ _ c Hk). destruct (decide (j = k)) as [-> | Hne].
  - right. exists c. split_and!; [done | done |]. by rewrite list_lookup_insert_eq by (by eapply lookup_lt_Some).
  - left. by rewrite list_lookup_insert_ne.
Qed.

Lemma changed_trans a b c : sources_changed a b -> sources_changed b c -> sources_changed a c.
Proof.
  intros Hab Hbc k. destruct (Hab k) as [E1 | (s & S1 & S2 & S3)], (Hbc k) as [E2 | (s' & S1' & S2' & S3')].
  - left. congruence.
  - right. exists s'. rewrite <- E1. done.
  - right. exists s. split_and!; [done | done |]. congruence.
  - exfalso. rewrite S3 in S1'. injection S1' as <-. by rewrite change_normal in S2'.
Qed.

Lemma changed_deflate ss ss' k s : sources_changed ss ss' -> ss' !! k = Some s -> ic_type s = CHUNK_DEFLATE -> ss !! k = Some s.
Proof. intros Hc Hk Hd. destruct (Hc k) as [E | (s0 & S1 & S2 & S3)]; [congruence |]. rewrite S3 in Hk. injection Hk as <-. by rewrite change_normal in Hd. Qed.

Lemma prepare_zips_ok src_img tgt_img ts : forall i ss p q, tiles p ts q -> 0 <= p -> q <= zlen tgt_img -> Forall (in_file src_img) ss ->
  Forall (fun t => ic_type t = CHUNK_DEFLATE -> fits fuel z tgt_img t /\ exists nm, ic_filename t = Some nm) ts -> Forall (fun c => ic_I c = None) ts ->
  (forall a b ta tb na nb, ts !! a = Some ta -> ts !! b = Some tb -> has_name na ta -> has_name nb tb -> up_to_nul na = up_to_nul nb -> a = b) ->
  exists ts' ss', decide_chunks fuel z true src_img tgt_img i ts ss = Val (ts', ss') /\ tiles p ts' q /\ Forall (kept fuel z tgt_img ts) ts' /\
    Forall (fun c => ic_I c = None) ts' /\ sources_changed ss ss' /\
    (forall nm, (forall t nm', t ∈ ts -> has_name nm' t -> up_to_nul nm' <> up_to_nul nm) -> FindChunkByName nm ss' = FindChunkByName nm ss) /\
    (forall t, t ∈ ts' -> ic_type t = CHUNK_DEFLATE -> exists nm k, ic_filename t = Some nm /\ FindChunkByName nm ss' = Some k).
Proof.
  induction ts as [| t ts IH]; intros i ss p q Ht Hp Hq Hs Hf It Hu.
  { exists [], ss. cbn. split_and!; try done; [by left | by intros t ?%elem_of_nil]. }
  inversion Ht as [| ? ? ? ? Hct Ht']; subst. apply Forall_cons in Hf as [Hf1 Hf]. apply Forall_cons in It as [It1 It]. pose proof (tiles_le _ _ _ Ht') as Hle.
  assert (forall a b ta tb na nb, ts !! a = Some ta -> ts !! b = Some tb -> has_name na ta -> has_name nb tb -> up_to_nul na = up_to_nul nb -> a = b) as Hu'.
  { intros a b ta tb na nb Ha Hb Hna Hnb E. assert (S a = S b) as [= ->] by (by eapply Hu). done. }
  assert (forall t1 ss1, tile_ok p t1 -> clen t1 = clen t -> kept fuel z tgt_img (t :: ts) t1 -> ic_I t1 = None -> sources_changed ss ss1 ->
    (forall nm, (forall nm', has_name nm' t -> up_to_nul nm' <> up_to_nul nm) -> FindChunkByName nm ss1 = FindChunkByName nm ss) ->
    (ic_type t1 = CHUNK_DEFLATE -> exists nm k, has_name nm t /\ ic_filename t1 = Some nm /\ FindChunkByName nm ss1 = Some k) ->
    exists ts' ss', (let* (ts, ss) := decide_chunks fuel z true src_img tgt_img (S i) ts ss1 in Val (t1 :: ts, ss)) = Val (ts', ss') /\
      tiles p ts' q /\ Forall (kept fuel z tgt_img (t :: ts)) ts' /\ Forall (fun c => ic_I c = None) ts' /\ sources_changed ss ss' /\
      (forall nm, (forall t0 nm', t0 ∈ t :: ts -> has_name nm' t0 -> up_to_nul nm' <> up_to_nul nm) -> FindChunkByName nm ss' = FindChunkByName nm ss) /\
      (forall t, t ∈ ts' -> ic_type t = CHUNK_DEFLATE -> exists nm k, ic_filename t = Some nm /\ FindChunkByName nm ss' = Some k)) as Hgo.
  { intros t1 ss1 T1 T2 K1 I1 C1 N1 F1. destruct (IH (S i) ss1 (p + clen t) q) as (ts' & ss' & Hpr & R1 & R2 & R3 & R4 & R5 & R6); [done | pose proof Hct as (_ & ? & _); lia | done | | done | done | done |].
    { apply Forall_lookup. intros k s Hk Hd. rewrite Forall_lookup in Hs. apply (Hs k s); [by eapply changed_deflate | done]. }
    rewrite Hpr. cbn [mbind outcome_bind]. exists (t1 :: ts'), ss'. split_and!; [done | constructor; by rewrite ?T2 | | by constructor | by eapply changed_trans | |].
    - constructor; [done |]. eapply Forall_impl; [exact R2 |]. intros x. apply kept_mono. intros y Hy. by right.
    - intros nm Hnm. rewrite R5, N1; [done | |]; intros; eapply Hnm; [left | done | right | done]; done.
    - intros x [-> | Hx]%elem_of_cons Hd; [| by apply R6]. destruct (F1 Hd) as (nm & k & Hn & Hfn & Hk). exists nm, k. split; [done |]. rewrite R5; [done |].
      intros t0 nm' Hin Hn' E. apply list_elem_of_lookup in Hin as [j Hj]. assert (0%nat = S j) by (eapply (Hu 0%nat (S j) t t0 nm nm'); done). lia. }
  cbn [decide_chunks]. destruct (Z.eqb_spec (ic_type t) CHUNK_DEFLATE) as [Hd | Hn].
  2: { cbn [mbind outcome_bind]. apply Hgo; try done. intros k. by left. }
  pose proof Hct as (_ & Hcl & [[Hx _] | (_ & Hdd & d & Hdat & Hdl)]); [by rewrite Hd in Hx |]. rewrite (deflate_clen t Hd) in Hcl, Hle. destruct (Hf1 Hd) as (Hfit & nm & Hnm).
  destruct (Reconstruct_ok fuel z tgt_img t d Hd Hfit ltac:(lia) Hcl Hdat Hdl) as (r & level & -> & Hr). cbn [mbind outcome_bind].
  set (t1 := set_params level Z_DEFLATED (-15) 8 Z_DEFAULT_STRATEGY t) in *. unfold find_source. change (ic_filename t1) with (ic_filename t). rewrite Hnm. cbn [mbind outcome_bind].
  destruct (change_tile p t1 Hct) as (C1 & C2 & C3 & C4).
  assert (kept fuel z tgt_img (t :: ts) (ChangeDeflateChunkToNormal t1)) as Kn by (intros Hx; by rewrite C3 in Hx).
  assert (has_name nm t) as Hhn by done.
  assert (exists ts' ss', (let* (ts, ss) := decide_chunks fuel z true src_img tgt_img (S i) ts (change_source (FindChunkByName nm ss) ss) in Val (ChangeDeflateChunkToNormal t1 :: ts, ss)) = Val (ts', ss') /\
      tiles p ts' q /\ Forall (kept fuel z tgt_img (t :: ts)) ts' /\ Forall (fun c => ic_I c = None) ts' /\ sources_changed ss ss' /\
      (forall nm, (forall t0 nm', t0 ∈ t :: ts -> has_name nm' t0 -> up_to_nul nm' <> up_to_nul nm) -> FindChunkByName nm ss' = FindChunkByName nm ss) /\
      (forall t, t ∈ ts' -> ic_type t = CHUNK_DEFLATE -> exists nm k, ic_filename t = Some nm /\ FindChunkByName nm ss' = Some k)) as Hdrop.
  { apply Hgo; [done | done | done | by rewrite C4 | | | intros Hx; by rewrite C3 in Hx].
    - destruct (FindChunkByName nm ss) as [k |] eqn:Ek; [| intros k; by left]. destruct (found_named _ _ _ Ek) as (c & Hk & Hcd & _). by apply (changed_one k ss c).
    - intros nm2 Hnm2. destruct (FindChunkByName nm ss) as [k |] eqn:Ek; [| done]. apply (changed_other nm2 nm); [done |]. intros E. by apply (Hnm2 nm Hhn). }
  destruct Hr as [[-> Hr] | ->]; cbn [Z.ltb Z.compare]; [| exact Hdrop].
  destruct (FindChunkByName nm ss) as [k |] eqn:Ek; [| exact Hdrop]. destruct (found_named _ _ _ Ek) as (c & Hk & Hcd & _).
  rewrite (proj2 (load_Val _ _ c)) by (rewrite Nat2Z.id; split; [lia | done]). cbn [mbind outcome_bind]. rewrite Forall_lookup in Hs. destruct (Hs k c Hk Hcd) as (Hc1 & Hc2 & Hc3).
  destruct (deflates_equal_val tgt_img src_img t1 c) as [eq Heq]; [done | done | cbn; lia | cbn; lia | cbn; lia | lia | lia | lia |]. rewrite Heq. cbn [mbind outcome_bind].
  destruct eq; [exact Hdrop |]. cbn [mbind outcome_bind]. apply Hgo; try done.
  - intros _. split; [done |]. exists t. split_and!; [left | done ..].
  - intros j. by left.
  - intros _. exists nm, k. done.
Qed.
End PrepareZip.

(** ** Patches *)

Section PatchZip.
Context `{Arch} (bz : bzlib) (bz_compress : block -> block) (rest : bz_stream bz -> block -> Prop) (qsufsort : block -> list Z).
Context (fuel rounds : nat) (malloc : Z -> option block) (z : zlib) (iz : inflater) (junk : ImageChunk) (junk_size m : Z).
Hypothesis Hbz : bzlib_ok bz bz_compress rest.
Hypothesis Hbytes : forall d, bytes_ok d -> bytes_ok (bz_compress d).
Hypothesis Hsort : suffixes_ok qsufsort.
Hypothesis Hmalloc : malloc_ok malloc.
Hypothesis Hz : zlib_ok z iz.
Hypothesis Hm : m < 2 ^ 25 /\ m + 24 <= Z.of_nat fuel /\ m + 1 <= Z.of_nat rounds.
Variables (old new : block).
Hypothesis Hold : bytes_ok old /\ zlen old < 2 ^ 30.
Hypothesis Hnew : bytes_ok new /\ zlen new <= m.

Definition suffixes_fit (s : ImageChunk) : Prop :=
  forall I sb, ic_I s = Some I -> bytes_of (old ++ []) s = Val sb -> zlen I = zlen sb + 1 /\ Forall (fun j => 0 <= j <= zlen sb) I.
(** An entry of the source, and the source as a whole. *)
Definition zip_source (s : ImageChunk) : Prop :=
  suffixes_fit s /\ (ic_type s = CHUNK_DEFLATE -> in_old old (ic_start s) (ic_deflate_len s) /\ ic_len s < 2 ^ 30 /\
    exists d, bytes_ok d /\ zlen d = ic_len s /\ bytes_of (old ++ []) s = Val d /\
      z_inflate z (slice old (ic_start s) (ic_deflate_len s)) (ic_len s) = (Z_STREAM_END, d)).
Definition whole_source (s : ImageChunk) : Prop := suffixes_fit s /\ ic_start s = 0 /\ ic_len s = zlen old /\ ic_data s = InImage 0.

Lemma set_I_fit s I sb : bytes_of (old ++ []) s = Val sb -> zlen I = zlen sb + 1 -> Forall (fun j => 0 <= j <= zlen sb) I -> suffixes_fit (set_I (Some I) s).
Proof. intros Hb H1 H2 I' sb' Hx Hb'. injection Hx as <-. change (bytes_of (old ++ []) (set_I (Some I) s)) with (bytes_of (old ++ []) s) in Hb'. rewrite Hb in Hb'. by apply Val_inj in Hb' as <-. Qed.

Lemma whole_for i s t : whole_source s -> ic_type t = CHUNK_NORMAL -> source_for z old [] None i s t.
Proof.
  intros (HI & Hs & Hl & Hd) Ht. split; [exact HI |]. left. rewrite Hs, Hl. pose proof (zlen_nonneg old). split_and!; [done | split_and!; lia |].
  unfold bytes_of. rewrite Hd, Hl, app_nil_r. by rewrite load_bytes_in by lia.
Qed.

Lemma entry_for i s t : zip_source s -> ic_type s = CHUNK_DEFLATE -> ic_type t = CHUNK_DEFLATE -> source_for z old [] None i s t.
Proof.
  intros (HI & Hs) Hd Ht. destruct (Hs Hd) as (Hin & Hl & d & Hdb & Hdl & Hb & Hinf). split; [exact HI |]. right. split_and!; [done | done | done |]. exists d.
  assert (bonus_at None i = []) as -> by (unfold bonus_at; by destruct (i =? 1)). rewrite (app_nil_r d). change (zlen []) with 0. split_and!; [done | lia | done | done].
Qed.

Lemma make_zips_ok temp ts : (forall i, temp i = TempFine) -> forall i ss p, tiles p ts (zlen new) -> 0 <= p -> Forall (remade fuel z m new []) ts ->
  (exists s0, ss !! 0%nat = Some s0 /\ whole_source s0) -> Forall zip_source ss ->
  (forall t, t ∈ ts -> ic_type t = CHUNK_DEFLATE -> exists nm k, ic_filename t = Some nm /\ FindChunkByName nm ss = Some k) ->
  exists ps outs, make_patches bz_compress qsufsort junk_size true (old ++ []) (new ++ []) temp None i ts ss = Val ps /\
    all_good bz fuel rounds malloc z old None (Z.of_nat i) ps outs /\ concat outs = slice new p (zlen new - p).
Proof.
  intros Htemp. induction ts as [| t ts IH]; intros i ss p Ht Hp Hr (s0 & H0 & Hw0) Hs Hn.
  { inversion Ht; subst. exists [], []. split_and!; [done | constructor |]. rewrite Z.sub_diag. by rewrite slice_0. }
  apply Forall_cons in Hr as [Hr1 Hr]. pose proof (rest_tile new p t ts Ht Hp) as Hcut. inversion Ht as [| ? ? ? ? Hct Ht']; subst.
  pose proof (tiles_le _ _ _ Ht') as Hle. pose proof Hct as (_ & Hct0 & _).
  assert (exists k s, source_index true i t ss = Val k /\ ss !! k = Some s /\ source_for z old [] None (Z.of_nat i) s t) as (k & s & Hk & Hks & Hsf).
  { unfold source_index. destruct (tile_type _ _ Hct) as [Htn | Htd].
    - rewrite Htn. cbn. exists 0%nat, s0. split_and!; [done | done | by apply whole_for].
    - rewrite Htd. cbn. destruct (Hn t ltac:(left) Htd) as (nm & k & -> & Hk). cbn. rewrite Hk. cbn. destruct (found_named _ _ _ Hk) as (s & Hs1 & Hs2 & _).
      exists k, s. split_and!; [done | done |]. rewrite Forall_lookup in Hs. apply entry_for; [by eapply Hs | done | done]. }
  cbn [make_patches]. rewrite Hk. cbn [mbind outcome_bind]. rewrite (proj2 (load_Val _ _ s)) by (rewrite Nat2Z.id; split; [lia | done]). cbn [mbind outcome_bind]. rewrite Htemp.
  destruct (MakePatch_ok bz bz_compress rest qsufsort fuel rounds malloc z junk_size m Hbz Hbytes Hsort Hmalloc Hm old new [] [] None Hold Hnew ltac:(constructor)
    (Z.of_nat i) p s t) as (d & size & s2 & t2 & -> & Hg & Hs2); [split_and!; [done | done | lia | done] | done |]. cbn [mbind outcome_bind].
  assert (ic_type s2 = ic_type s /\ ic_filename s2 = ic_filename s) as [E1 E2] by (destruct Hs2 as [-> | (I & sb & -> & _)]; done).
  assert (forall P : ImageChunk -> Prop, P s -> (forall I sb, bytes_of (old ++ []) s = Val sb -> zlen I = zlen sb + 1 -> Forall (fun j => 0 <= j <= zlen sb) I -> P (set_I (Some I) s)) -> P s2) as Hkeep.
  { intros P P1 P2. destruct Hs2 as [-> | (I & sb & -> & ? & ? & ?)]; [done | by eapply P2]. }
  pose proof (lookup_lt_Some _ _ _ Hks) as Hkl.
  destruct (IH (S i) (<[k := s2]> ss) (p + clen t)) as (ps & outs & Hps & Hgs & Hcat); [done | lia | done | | | |].
  { destruct (decide (k = 0%nat)) as [-> | Hk0]; [| exists s0; by rewrite list_lookup_insert_ne]. exists s2. rewrite list_lookup_insert_eq by done. split; [done |].
    rewrite H0 in Hks. injection Hks as <-. apply Hkeep; [done |]. intros I sb Hb I1 I2. split; [by eapply set_I_fit | apply Hw0]. }
  { apply Forall_insert; [done |]. rewrite Forall_lookup in Hs. specialize (Hs k s Hks). apply Hkeep; [done |]. intros I sb Hb I1 I2. split; [by eapply set_I_fit | apply Hs]. }
  { intros t' Hin Hd. destruct (Hn t' ltac:(by right) Hd) as (nm & k' & Hfn & Hk'). exists nm, k'. split; [done |]. rewrite (found_insert nm ss k s s2); [done | done | by left]. }
  rewrite Hps. cbn [mbind outcome_bind]. rewrite Nat2Z.inj_succ in Hgs.
  eexists _, (slice new p (clen t) :: outs). split; [reflexivity |]. split; [constructor; [done | by rewrite <- Z.add_1_r in Hgs] |]. cbn [concat]. by rewrite Hcat, Hcut.
Qed.
End PatchZip.

(** ** Properties *)

(** What a pair of archives must be: both are read, and no chunk is longer than its file;
    the target ends with its last chunk and no two of its deflated entries have the same
    name; deflating the target's data again ends; the sizes in the source are right. *)
Record zips_ok `{Arch} (fuel : nat) (malloc : Z -> option block) (z : zlib) (junk : ImageChunk) (m : Z) (old new : block) (ss ts : list ImageChunk) : Prop := {
  zk_source : ReadZip malloc z junk (Contents old) true = Val (Some (old, ss));
  zk_target : ReadZip malloc z junk (Contents new) false = Val (Some (new, ts));
  zk_end : chunks_end ts = zlen new;
  zk_source_small : Forall (small_chunk old) ss;
  zk_target_small : Forall (fun t => clen t <= zlen new /\ (ic_type t = CHUNK_DEFLATE -> fits fuel z new t /\ ic_len t <= m)) ts;
  zk_names : forall a b ta tb na nb, ts !! a = Some ta -> ts !! b = Some tb -> has_name na ta -> has_name nb tb -> up_to_nul na = up_to_nul nb -> a = b;
  zk_sizes : Forall (fun s => ic_type s = CHUNK_DEFLATE -> zlen (z_inflate z (slice old (ic_start s) (ic_deflate_len s)) (ic_len s)).2 = ic_len s) ss
}.

Section SplitZip.
Context `{Arch} (fuel : nat) (malloc : Z -> option block) (z : zlib) (iz : inflater) (junk : ImageChunk) (m : Z).
Hypothesis Hmalloc : malloc_ok malloc.
Hypothesis Hz : zlib_ok z iz.
Hypothesis Hm : m < 2 ^ 25.
Variables (old new : block) (ss ts : list ImageChunk).
Hypothesis Hold : bytes_ok old /\ zlen old < 2 ^ 30.
Hypothesis Hnew : bytes_ok new /\ zlen new <= m.
Hypothesis Hzk : zips_ok fuel malloc z junk m old new ss ts.

Lemma zip_sources : (exists s0, ss !! 0%nat = Some s0 /\ ic_type s0 = CHUNK_NORMAL /\ whole_source old s0) /\ Forall (zip_source z old) ss /\ Forall (in_file old) ss.
Proof.
  destruct Hzk as [Rs _ _ Ss _ _ Sz]. destruct (ReadZip_ok malloc z iz junk Hmalloc Hz old ltac:(lia) true old ss ltac:(apply Hold) Rs Ss) as (_ & cs & -> & [q Ht] & HI & He).
  apply Forall_app in Ss as [_ Ss]. apply Forall_app in Sz as [_ Sz]. split; [eexists; split; [reflexivity |]; split; [done |]; unfold whole_source; split_and!; [by intros I sb Hx | done ..] |].
  rewrite Forall_forall in HI, He, Ss, Sz.
  split; (apply Forall_app; split; [apply List.Forall_cons; [| by apply List.Forall_nil] | apply Forall_forall; intros c Hc]).
  - split; [by intros I sb Hx | by intros Hx].
  - split; [intros I sb Hx; by rewrite HI in Hx |]. intros Hd. destruct (He c Hc Hd) as (E1 & E2 & E3 & _ & d & out & D1 & D2 & D3 & D4 & D5). destruct (Ss c Hc) as [_ Sl].
    specialize (Sz c Hc Hd). cbn beta in Sz. rewrite D4 in Sz. cbn in Sz. specialize (D5 Sz). subst out. split_and!; [split_and!; done | by apply Sl |].
    exists d. split_and!; [done | done | by apply bytes_of_own | done].
  - by intros Hx.
  - intros Hd. destruct (He c Hc Hd) as (E1 & E2 & E3 & _). apply list_elem_of_lookup in Hc as [k Hk].
    apply list_elem_of_split_length in Hk as (l1 & l2 & -> & _). apply tiles_app in Ht as (p & _ & Ht). inversion Ht as [| ? ? ? ? Hcc _]; subst.
    destruct Hcc as (S1 & _ & [[Hx _] | (_ & S2 & _)]); [by rewrite Hd in Hx |]. rewrite S2, <- S1. done.
Qed.

Lemma split_zips_ok : exists ss' ts',
  split_zips fuel malloc z junk (Contents old) (Contents new) = Val (Some (old, new, ss', ts')) /\ tiles 0 ts' (zlen new) /\ Forall (remade fuel z m new []) ts' /\
  (exists s0, ss' !! 0%nat = Some s0 /\ whole_source old s0) /\ Forall (zip_source z old) ss' /\
  (forall t, t ∈ ts' -> ic_type t = CHUNK_DEFLATE -> exists nm k, ic_filename t = Some nm /\ FindChunkByName nm ss' = Some k).
Proof.
  destruct zip_sources as ((s0 & S0 & S0n & S0w) & Sz & Si). destruct Hzk as [Rs Rt Et _ St Nt _]. unfold split_zips. rewrite Rs, Rt. cbn [mbind outcome_bind].
  assert (Forall (small_chunk new) ts) as St'.
  { eapply Forall_impl; [exact St |]. intros t [H1 H2]. split; [done |]. intros Hd. destruct (H2 Hd). lia. }
  destruct (ReadZip_ok malloc z iz junk Hmalloc Hz new ltac:(lia) false new ts ltac:(apply Hnew) Rt St') as (_ & ts0 & E0 & [q Ht] & HI & He). cbn [app] in E0. subst ts0.
  assert (tiles 0 ts (zlen new)) as Ht0.
  { destruct ts as [| c cs]; [unfold chunks_end in Et; cbn in Et; rewrite <- Et; constructor |]. rewrite <- Et. by rewrite <- (tiles_end _ _ _ Ht). }
  rewrite Forall_forall in St, He. assert (new ++ [] = new) as Enew by apply app_nil_r.
  destruct (prepare_zips_ok fuel z old new ts 0 ss 0 (zlen new) Ht0) as (ts' & ss' & Hpr & P1 & P2 & P3 & P4 & P5 & P6); [lia | lia | done | | done | done |].
  { apply Forall_forall. intros t Hin Hd. split; [by apply (St t Hin) |]. destruct (He t Hin Hd) as (_ & _ & _ & Hnm & _). exact Hnm. }
  rewrite Hpr. cbn [mbind outcome_bind]. destruct (Merge_ok ts' 0 (zlen new) P1 ltac:(lia) ltac:(lia) P3) as (M1 & _ & M3 & M4). rewrite Forall_forall in P2.
  exists ss', (MergeAdjacentNormalChunks ts'). split; [done |]. split_and!; [done | | | |].
  - apply Forall_forall. intros t Hin Hd. destruct (P2 t (M4 t Hin Hd) Hd) as (Hrec & t0 & Hin0 & Hd0 & Hl0 & Hdat0 & _). destruct (St t0 Hin0) as [_ Ht0']. destruct (Ht0' Hd0) as [_ Hlm].
    destruct (He t0 Hin0 Hd0) as (_ & _ & _ & _ & d & out & D1 & _ & D3 & _). rewrite Enew. split_and!; [done | lia |]. intros d2 Hd2. congruence.
  - exists s0. split; [| done]. destruct (P4 0%nat) as [-> | (s & Hs1 & Hs2 & _)]; [done |]. rewrite S0 in Hs1. injection Hs1 as <-. by rewrite S0n in Hs2.
  - rewrite Forall_lookup in Sz. apply Forall_lookup. intros k s Hk. destruct (P4 k) as [Ek | (s1 & Hs1 & Hs2 & Hs3)]; [rewrite Ek in Hk; by eapply Sz |].
    rewrite Hs3 in Hk. injection Hk as <-.
    split; [| intros Hx; by rewrite change_normal in Hx].
    intros I sb HI1 Hb. exfalso. unfold ChangeDeflateChunkToNormal in HI1. rewrite Hs2 in HI1. cbn in HI1.
    assert (ic_I s1 = None) as Hn; [| by rewrite Hn in HI1].
    destruct (ReadZip_ok malloc z iz junk Hmalloc Hz old ltac:(lia) true old ss ltac:(apply Hold) Rs ltac:(apply Hzk)) as (_ & cs & Ecs & _ & HIn & _).
    rewrite Ecs in Hs1. destruct k as [| k]; cbn in Hs1; [by injection Hs1 as <- | by eapply (Forall_lookup_1 _ _ _ _ HIn)].
  - intros t Hin Hd. apply P6; [by apply M4 | done].
Qed.
End SplitZip.

(** C11: in zip mode, too, the patch rebuilds the target: for two archives that are read and
    whose target has no name twice the program exits with 0, and applying the file it
    writes to the source archive returns 0 and has written exactly the target archive. *)
Theorem imgdiff_zip_roundtrip `{Arch} (bz : bzlib) (bz_compress : block -> block) rest (qsufsort : block -> list Z) (fuel rounds : nat)
    (malloc : Z -> option block) (z : zlib) (iz : inflater) (junk : ImageChunk) (junk_size m : Z) (h : host) (src tgt out : block)
    (old new : block) (ss ts : list ImageChunk) {D} (SHA_update : D -> block -> D) (token : block) (ctx : D) :
  bzlib_ok bz bz_compress rest -> (forall d, bytes_ok d -> bytes_ok (bz_compress d)) -> suffixes_ok qsufsort -> malloc_ok malloc -> zlib_ok z iz ->
  m < 2 ^ 25 /\ m + 24 <= Z.of_nat fuel /\ m + 1 <= Z.of_nat rounds -> bytes_ok old /\ zlen old < 2 ^ 30 -> bytes_ok new /\ zlen new <= m ->
  files_ok h src tgt [] old new None -> zips_ok fuel malloc z junk m old new ss ts ->
  exists f, main bz_compress qsufsort fuel malloc z iz junk junk_size h [str "-z"; src; tgt; out] = Val (0, Some f) /\
    (zlen f < 2 ^ 31 -> exists pieces, concat pieces = new /\
       ApplyImagePatch bz fuel rounds malloc z (fun d t => (zlen d, t ++ d)) SHA_update old f token ctx None = Val (0, token ++ new, foldl SHA_update ctx pieces)).
Proof.
  intros Hbz Hbytes Hsort Hmalloc Hz Hm Hold Hnew (Fs & Ft & _ & Fw & Ftemp & _ & Nb) Hzk.
  destruct (split_zips_ok fuel malloc z iz junk m Hmalloc Hz ltac:(lia) old new ss ts Hold Hnew Hzk) as (ss' & ts' & Hsp & P1 & P2 & P3 & P4 & P5).
  destruct (make_zips_ok bz bz_compress rest qsufsort fuel rounds malloc z junk_size m Hbz Hbytes Hsort Hmalloc Hm old new Hold Hnew (h_temp h) ts' Ftemp 0 ss' 0 P1 ltac:(lia) P2 P3 P4 P5)
    as (ps & outs & Hps & Hg & Hcat).
  rewrite Z.sub_0_r in Hcat. assert (slice new 0 (zlen new) = new) as Hall by (unfold slice, zlen; by rewrite Nat2Z.id, drop_0, firstn_all). rewrite Hall in Hcat.
  destruct (applied bz fuel rounds malloc z iz Hmalloc Hz old new [] [] None Hold ps outs SHA_update token ctx Hg Hcat) as (f & Hf & Happ).
  exists f. split; [| exact Happ]. unfold main. rewrite bool_decide_true, bool_decide_false by done. rewrite Fs, Ft, Hsp. cbn [mbind outcome_bind].
  rewrite !app_nil_r in Hps. rewrite Hps. cbn [mbind outcome_bind]. rewrite Fw. cbn [negb]. by rewrite Hf.
Qed.

(** ** Small archives *)

(** An entry: its local header with its data, and its record in the directory. *)
Definition zip_local (nm d : block) : block := [80; 75; 3; 4] ++ replicate 22 0 ++ le_bytes 2 (zlen nm) ++ [0; 0] ++ nm ++ (zlen d :: d).
Definition zip_record (nm d : block) (hoffset : Z) : block :=
  [80; 75; 1; 2] ++ replicate 6 0 ++ [8; 0] ++ replicate 8 0 ++ le_bytes 4 (1 + zlen d) ++ le_bytes 4 (zlen d) ++ le_bytes 2 (zlen nm) ++ replicate 12 0 ++
  le_bytes 4 hoffset ++ nm.
(** Entries behind [start], and an end record after the directory. *)
Fixpoint zip_locals (es : list (block * block)) : block := match es with [] => [] | (nm, d) :: es => zip_local nm d ++ zip_locals es end.
Fixpoint zip_records (es : list (block * block)) (start : Z) : block :=
  match es with [] => [] | (nm, d) :: es => zip_record nm d start ++ zip_records es (start + zlen (zip_local nm d)) end.
Definition zip_of (es : list (block * block)) : block :=
  let l := zip_locals es in
  l ++ zip_records es 0 ++ [80; 75; 5; 6] ++ replicate 4 0 ++ le_bytes 2 (zlen es) ++ le_bytes 2 (zlen es) ++ replicate 4 0 ++ le_bytes 4 (zlen l) ++ [0; 0].

Definition zip_old : block := zip_of [(str "a", demo_old); (str "b", [5; 6; 7])].
Definition zip_new : block := zip_of [(str "b", [5; 6; 7]); (str "a", demo_new)].
Definition zip_host : host := mkHost (fun n => Contents (if bool_decide (n = str "old") then zip_old else zip_new)) (fun _ => TempFine) true.
Definition zip_main : outcome (Z * option block) :=
  @main LP64 block_compress all_suffixes 300 demo_malloc counted_zlib counted_inflater junk_chunk 77 zip_host [str "-z"; str "old"; str "new"; str "patch"].
Definition zip_chunks_of (file : block) (pseudo : bool) : list ImageChunk :=
  match @ReadZip LP64 demo_malloc counted_zlib junk_chunk (Contents file) pseudo with Val (Some (_, cs)) => cs | _ => [] end.

Lemma zip_demo_ok : @zips_ok LP64 300 demo_malloc counted_zlib junk_chunk 200 zip_old zip_new (zip_chunks_of zip_old true) (zip_chunks_of zip_new false).
Proof.
  split.
  - vm_compute. reflexivity.
  - vm_compute. reflexivity.
  - vm_compute. reflexivity.
  - remember (zip_chunks_of zip_old true) as cs eqn:E. vm_compute in E. subst cs. repeat (apply List.Forall_cons; [split; [vm_compute; congruence | intros Ht; try discriminate Ht; reflexivity] |]). apply List.Forall_nil.
  - remember (zip_chunks_of zip_new false) as cs eqn:E. vm_compute in E. subst cs.
    repeat (apply List.Forall_cons; [split; [vm_compute; congruence | intros Ht; try discriminate Ht] |]); [| | apply List.Forall_nil];
      (split; [| vm_compute; congruence]; eapply counted_fits; [lia | reflexivity | vm_compute; congruence | vm_compute; congruence]).
  - remember (zip_chunks_of zip_new false) as cs eqn:E. vm_compute in E. subst cs. intros a b ta tb na nb Ha Hb [Ta Na] [Tb Nb'] En.
    do 5 (try destruct a as [| a]); do 5 (try destruct b as [| b]); try done; simpl in Ha, Hb; try done; injection Ha as <-; injection Hb as <-; try discriminate Ta; try discriminate Tb;
      injection Na as <-; injection Nb' as <-; discriminate En.
  - remember (zip_chunks_of zip_old true) as cs eqn:E. vm_compute in E. subst cs. repeat (apply List.Forall_cons; [intros Ht; try discriminate Ht; vm_compute; reflexivity |]). apply List.Forall_nil.
Qed.

Lemma zip_demo_small f : zip_main = Val (0, Some f) -> zlen f < 2 ^ 31.
Proof.
  intros Hf. assert ((let* (_, f) := zip_main in Val (zlen (default [] f) <? 2 ^ 31)) = Val true) as Hn by (vm_compute; reflexivity).
  rewrite Hf in Hn. apply Z.ltb_lt. by injection Hn.
Qed.

Lemma imgdiff_zip_roundtrip_witness : exists f pieces, zip_main = Val (0, Some f) /\ concat pieces = zip_new /\
  @ApplyImagePatch LP64 block_bz 300 300 demo_malloc counted_zlib block block (fun d t => (zlen d, t ++ d)) app zip_old f [] [] None =
    Val (0, zip_new, foldl app [] pieces).
Proof.
  destruct (@imgdiff_zip_roundtrip LP64 block_bz block_compress eq all_suffixes 300 300 demo_malloc counted_zlib counted_inflater junk_chunk 77 200
    zip_host (str "old") (str "new") (str "patch") zip_old zip_new (zip_chunks_of zip_old true) (zip_chunks_of zip_new false) block app [] [])
    as (f & Hf & Happ).
  - exact block_bz_ok.
  - intros d. apply blocks_bytes.
  - exact all_suffixes_ok.
  - exact demo_malloc_ok.
  - exact counted_ok.
  - lia.
  - split; [apply (bool_decide_unpack _); vm_compute; exact Logic.I | vm_compute; reflexivity].
  - split; [apply (bool_decide_unpack _); vm_compute; exact Logic.I | vm_compute; congruence].
  - unfold files_ok. split_and!; try (vm_compute; congruence); try (intros; reflexivity).
  - exact zip_demo_ok.
  - destruct (Happ (zip_demo_small f Hf)) as (pieces & Hp & Ha). exists f, pieces. split; [exact Hf |]. split; [exact Hp | exact Ha].
Defined.

(** ** Departures *)

(** With a name twice in the target, the second entry turns the source's entry into a normal
    chunk; the first one is then patched from the whole source, with a length of the source
    that was never set (77 is what the memory held). *)
Definition zip_twice : block := zip_of [(str "a", demo_new); (str "a", demo_old)].
Example duplicate_name_unset_length :
  (let* r := @split_zips LP64 300 demo_malloc counted_zlib junk_chunk (Contents zip_old) (Contents zip_twice) in
   match r with
   | Some (si, ti, ss, ts) =>
       let* ps := @make_patches LP64 block_compress all_suffixes 77 true si ti (fun _ => TempFine) None 0 ts ss in
       Val ((fun p => (ic_type (p_chunk p), ic_source_len (p_chunk p))) <$> ps)
   | None => Val []
   end) = Val [(CHUNK_RAW, 77); (CHUNK_DEFLATE, 77); (CHUNK_RAW, 77)].
Proof. vm_compute. reflexivity. Qed.
